(* ===== verification/_CoqProject ===== *)
-Q . S2P
Prelude.v
CLib.v
CStr.v
KData.v
KExpr.v
KExprFacts.v
KExprEq.v
KExprSimp.v
KExprDups.v
KExprPass.v
KExprSyms.v
KExprSpec.v
KState.v
KSymbol.v
KSymFrame.v
KSymRef.v
KSymSolve.v
KSymTab.v
KSymDeps.v
KSymUnique.v
KSymSet.v
KSymText.v
KSymCheck.v
KSymSpec.v
KMenu.v
KMenuInv.v
KMenuTree.v
KCalc.v
KMenuSpec.v
KToken.v
KParse.v
KParseInv.v
KParseTree.v
KParseOpts.v
KParseEntry.v
KParseMenu.v
KParseStmt.v
KParseRun.v
KParseDone.v
KLex.v
KGram.v
KGramFacts.v
KLexFacts.v
KLexSafe.v
KLexRun.v
KLexPrint.v
KLexSource.v
KConf.v
KConfText.v
KConfLine.v
KConfLoad.v
KConfSave.v
KConfFile.v
KConfReset.v
KConfValues.v
KConfRound.v
KConfSafe.v
KConfCheck.v
KConfSpec.v
KAsk.v
KAskKeep.v
KAskRun.v
KAskTop.v
KAskReply.v
KParsePlain.v
KParseSpec.v
KLexSpec.v
KAskSpec.v
NvCrc.v
Nvram.v
NvramCli.v
NvramFacts.v
NvramImage.v
NvramCommit.v
NvramRun.v
NvramTotal.v
NvramCmd.v
NvramStore.v
NvramCheck.v
NvramSpec.v
