(* ===== verification/Prelude.v ===== *)
(** * PR30 firmware sources: a verification development

    The repository is the source tree of the firmware of the BandRich PR30
    mobile router: an OpenWrt build system, the packages it builds, and a Linux
    2.6.31 tree.  Two programs of it are verified here, from the C sources:

    - the configuration engine of the build system, [scripts/config/]
      (Kconfig), which reads [Config.in] files into symbols, expressions and
      menus, calculates the value of every symbol, reads and writes [.config],
      and asks for the values in a dialogue;
    - the NVRAM package, [package/nvram/src/], a library and a command that keep
      named variables in a flash partition.

    ** How the code is modelled

    A C function is a function of the same name.  A function that cannot fail
    and writes nothing is a plain function; any other is a computation of the
    monad [M] below over the store it works on, and comes to [Done] with a
    result and the store after it, to [Crash] (a null pointer or a pointer of
    the wrong type is followed, an array is left), or to [NoFuel].  Integers
    are numbers with the conversions of the code written out ([wrap32],
    [clamp_long], [u32]), characters are bytes, a [char *] is a string without its
    final 0 unless the code works on the array it lies in.  What is not in the
    tree (the environment, the clock, the regular expressions of the C library,
    [gettext], the address [mmap] returns, which calls of [malloc] succeed) is
    an argument or a part of the state.

    ** The files

    Shared: this file has the monad, its notations and tactics; [CLib] the
    functions of the C library that the code uses; [CStr] strings inside
    arrays.

    Expressions, [expr.c] and [expr.h]: [KData] has the types, the three
    truth values [n < m < y] and the class [SymTab], with the laws
    [SymTabOk], of what the expression code relies on from the symbol table.
    [KExpr] has every function of [expr.c]; trees are values, and the two cells
    that the duplicate elimination writes through are paths into one root tree.
    [KExprFacts], [KExprEq], [KExprSimp], [KExprDups] and [KExprPass] have the
    lemmas, [KExprSpec] the theorems: every rewriting returns and keeps the
    value of the expression over every table with the laws, with the exceptions
    the code has (the second duplicate pass and the comparison under a negation
    treat [m] as a boolean).

    Symbols, [symbol.c]: [KState] has the store, records for [struct symbol],
    [struct property] and [struct menu] in finite maps by object number.
    [KSymbol] has every function of [symbol.c].  [KSymRef] is the abstract
    specification, the equations for visibility, reverse dependency and value;
    [KSymFrame], [KSymSolve] and [KSymUnique] show that [sym_calc_value] ends on
    every store, and on configurations without choices and without cycles
    refines the specification, in any order of calculation.  [KSymTab] shows
    that a calculated store is an instance of [SymTab] with its laws, and the
    hash table; [KSymDeps] the search for recursive dependencies; [KSymSet] that
    an accepted value is the value of the next calculation; [KSymText] texts of
    numbers; [KSymCheck] has decision procedures and an example, [KSymSpec] the
    theorems.

    Menus, [menu.c]: [KMenu] has every function; [KMenuInv] the invariant of a
    parsed configuration and that the steps of [menu_finalize] keep it;
    [KMenuTree] that the tree keeps its entries and their order; [KMenuSpec] the
    theorem and its example.

    Descriptions, [zconf.l], [zconf.gperf], [zconf.y]: [KToken] has the tokens
    and the keywords, [KLex] the scanner with its start conditions, the array
    that collects strings and the stack of files, [KGram] the grammar as a
    function from tokens to derivations, and [KParse] the actions over a
    derivation up to the finished menu of [conf_parse].  For the actions,
    [KParseInv] has the invariant of the store between them, [KParseTree],
    [KParseOpts], [KParseEntry], [KParseMenu], [KParseStmt] and [KParseRun]
    what each adds to the menu tree, [KParseDone] and [KParsePlain] what the
    whole leaves, with [KExprSyms] for the symbols of expressions;
    [KParseSpec] has the theorems: the tree has exactly the entries of the
    description in their order with their properties, errors make
    [conf_parse] exit, and what it leaves is fit for calculating and loading.
    For the text, [KGramFacts] shows that the tokens of a derivation determine
    it; [KLexFacts], [KLexSafe] and [KLexRun] that every scan ends inside its
    arrays; [KLexPrint] and [KLexSource] that printed tokens are scanned as
    they were, sourced files included; [KLexSpec] has the theorems and the
    composition of all three from the text to the menu.

    Configuration files, [confdata.c] and [zconf_fopen] of [zconf.l]: [KConf]
    has every function, over the store together with files and output; the
    array [line] is an array.  [KConfText] and [KConfLine] are about single
    lines, [KConfLoad] and [KConfReset] about reading, [KConfSave] and
    [KConfFile] about writing, [KConfValues] and [KConfRound] about both,
    [KConfSafe] about arbitrary files; [KConfCheck] has the example, [KConfSpec]
    the theorems: saving and loading keeps every value, the file follows the
    menu, and any file is read inside the array into a well-typed store, except
    that a lone [#] is compared with what an earlier line left.

    The dialogue, [conf.c]: [KAsk] has every function, over the state of [KConf]
    with the static variables, the input that is left and the random numbers;
    a computation there goes on with a result or leaves the program with a
    status ([flow]).  [KCalc] has runs that only calculate and the visibility of
    menu entries as a relation, [KAskKeep] the invariant that every symbol
    keeps its value when it is given this value as a setting, [KAskRun] and
    [KAskTop] runs without questions from one entry up to the written file,
    [KAskReply] answers from the input and the numbers of a choice; [KAskSpec]
    has the example and the theorems: an unattended run ends and what it writes reads back as the configuration that
    was there, a question ends on every input, and the exception, a question
    about a number without a value.

    NVRAM, [crc.c], [nvram.c], [nvram.h], [sdinitvals.h] and [cli.c]: [NvCrc] has
    the checksum and its bitwise definition, [Nvram] the library over an image
    of bytes with checked accesses, [NvramCli] devices, the staging file, handles
    on files and [main].  [NvramFacts] shows that the hash table is a finite map,
    [NvramImage] and [NvramCommit] what a commit writes and what a reader finds,
    [NvramRun] and [NvramCmd] whole processes and what [nvram info] prints,
    [NvramTotal] that everything ends.  [NvramStore] has the class [VarStore]
    of stores of variables; a handle and the command are its two instances, and
    the theorem about sequences of calls is proved once against the class.
    [NvramCheck] has the example, [NvramSpec] the theorems.

    ** Bounds and fuel

    - [sym_calc_value] is bounded in depth by one more than the number of
      symbols: a symbol is made valid before anything is calculated for it
      ([KSymSpec.sym_calc_value_ends]).
    - The loops of [expr_eliminate_dups], [expr_eq] and [expr_transform] get
      fuel from the size of the tree, which is shown to be enough.
    - The walks over menus and over the lines of a file are bounded by the
      number of objects and the number of characters.
    - A call of the scanner gets fuel from the characters before it
      ([KLexFacts.zconflex_ends]); the number of tokens is bounded by the sizes
      of all files, since a file is read once ([KLexSpec.scan_tokens_safe]).
      The parser of the grammar gets as much as there are tokens.
    - In [conf.c] the repetition of a question is bounded by [turns] and the
      depth of the menus by [depth], arguments of the model: the theorems say
      how much is enough, one turn for a question that answers itself, one more
      than the characters of the input for any other, and one level more than
      there are entries ([KAskSpec.conf_write_unattended],
      [KAskSpec.conf_sym_ends]).
    - [_nvram_rehash] gets one turn more than the image has bytes, the loops of
      [main] one more than there are arguments; for all inputs this is enough
      ([NvramSpec.nvram_main_terminates]).

    Theorems that a function returns a result are stated with [Done], so they
    include that the fuel is enough.

    ** Not modelled

    - In [zconf.y] the error productions with bison's recovery, the destructors
      of blocks without an end, and the debugging output ([zconfdump]); the
      [*_shipped] files are what bison, flex and gperf make of the sources.
    - [mconf.c] and [lxdialog/] draw menus in windows over the functions that
      are modelled; of [conf.c] the theorems about values exclude choices like
      those of [symbol.c]; [util.c] and [kconfig_load.c] are allocation
      helpers and the loading of a shared library.
    - In [menu.c] the file names and line numbers of messages.
    - In [symbol.c] the theorems about values exclude choices, for which the
      code looks at the flags of other symbols while they are calculated; the
      functions for choices are modelled, and termination holds with them.
    - In the NVRAM package failures of [open], [write] and [unlink] other than a
      missing file, other processes, and the traffic to the flash.
    - The other packages, the tools, the target files, the display program of
      [BR_Packages/] (drawing on a device) and the Linux tree. *)
From stdpp Require Export base list gmap strings.
From Stdlib Require Export ZArith Lia.

(** ** The state-and-failure monad *)

(** What a run of C code comes to: a result, undefined behaviour (a bad
    pointer or a pointer of another type is used, a buffer is overrun), or
    the fuel of the model is used up. *)
Inductive outcome (A : Type) : Type := Done (a : A) | Crash | NoFuel.
Arguments Done {_} _.
Arguments Crash {_}.
Arguments NoFuel {_}.

(** Computations over a store [St]. *)
Definition M (St A : Type) : Type := St → outcome (A * St).

Definition mreturn {St A} (a : A) : M St A := λ s, Done (a, s).
Definition mcrash {St A} : M St A := λ _, Crash.
Definition mnofuel {St A} : M St A := λ _, NoFuel.
Definition mthen {St A B} (m : M St A) (k : A → M St B) : M St B :=
  λ s, match m s with Done (a, s') => k a s' | Crash => Crash | NoFuel => NoFuel end.
Definition mgets {St A} (f : St → A) : M St A := λ s, Done (f s, s).
Definition mmodify {St} (f : St → St) : M St () := λ s, Done ((), f s).
(** The target of a pointer. *)
Definition mderef {St A} (o : option A) : M St A :=
  λ s, match o with Some a => Done (a, s) | None => Crash end.
Definition mwhen {St} (b : bool) (m : M St ()) : M St () := if b then m else mreturn ().

Fixpoint miter {St A} (f : A → M St ()) (l : list A) : M St () :=
  match l with
  | [] => mreturn ()
  | x :: l => mthen (f x) (λ _, miter f l)
  end.

Lemma mthen_done {St A B} (m : M St A) (k : A → M St B) s a s' :
  m s = Done (a, s') → mthen m k s = k a s'.
Proof. intros H. unfold mthen. by rewrite H. Qed.

(** ** Runs that end *)

Definition yields {St A} (m : M St A) (s : St) (Q : A → St → Prop) : Prop :=
  ∃ a s', m s = Done (a, s') ∧ Q a s'.

Lemma yields_ret {St A} (a : A) (s : St) (Q : A → St → Prop) : Q a s → yields (mreturn a) s Q.
Proof. intros H. by exists a, s. Qed.
Lemma yields_bind {St A B} (m : M St A) (f : A → M St B) s R Q :
  yields m s R → (∀ a s', R a s' → yields (f a) s' Q) → yields (mthen m f) s Q.
Proof.
  intros (a & s' & E & HR) Hf. destruct (Hf a s' HR) as (b & s'' & E' & HQ).
  exists b, s''. split; [|done]. unfold mthen. by rewrite E.
Qed.
Lemma yields_mono {St A} (m : M St A) s (R Q : A → St → Prop) :
  yields m s R → (∀ a s', R a s' → Q a s') → yields m s Q.
Proof. intros (a & s' & E & HR) H. exists a, s'. auto. Qed.
Lemma yields_done {St A} (m : M St A) s a s' (Q : A → St → Prop) : m s = Done (a, s') → Q a s' → yields m s Q.
Proof. intros E H. by exists a, s'. Qed.
Lemma yields_gets {St A B} (f : St → A) (g : A → M St B) s Q : yields (g (f s)) s Q → yields (mthen (mgets f) g) s Q.
Proof. done. Qed.
Lemma yields_modify {St B} (f : St → St) (g : () → M St B) s Q : yields (g ()) (f s) Q → yields (mthen (mmodify f) g) s Q.
Proof. done. Qed.
Lemma yields_deref {St A B} (o : option A) a (g : A → M St B) s Q :
  o = Some a → yields (g a) s Q → yields (mthen (mderef o) g) s Q.
Proof. by intros ->. Qed.

Declare Scope pr30_scope.
Delimit Scope pr30_scope with pr30.
Notation "'let!' x ':=' m 'in' k" := (mthen m (λ x, k))
  (at level 10, x pattern, m at level 100, k at level 200,
   format "'[v' 'let!'  x  ':='  m  'in' '/' k ']'") : pr30_scope.
Notation "'do!' m 'in' k" := (mthen m (λ _, k))
  (at level 10, m at level 100, k at level 200,
   format "'[v' 'do!'  m  'in' '/' k ']'") : pr30_scope.
Notation "'let?' x ':=' m 'in' k" :=
  (match m with Some x => k | None => None end)
  (at level 10, x pattern, m at level 100, k at level 200,
   format "'[v' 'let?'  x  ':='  m  'in' '/' k ']'") : pr30_scope.

(** ** Tactics *)

(** Case analysis on the scrutinee of an [option] binding in a hypothesis. *)
Ltac opt_step H :=
  match type of H with
  | context [match ?m with Some _ => _ | None => None end] =>
      let E := fresh "E" in destruct m eqn:E; [| discriminate H]
  end.
Ltac opt_inv H :=
  repeat (opt_step H; repeat match goal with p : (_ * _)%type |- _ => destruct p end; cbn in H);
  simplify_eq/=.

(** A conjunction of facts that follow from the context one by one. *)
Ltac conj_solver :=
  intros; destruct_and?; split_and?; intros; destruct_and?; split_and?;
  try done; try lia; eauto with lia.
