(* ===== verification/CLib.v ===== *)
(** * What the sources use of the C library

    Character classes, [strtol] and [sprintf] of integers, string searches, on
    strings of bytes without the final NUL; integers of 32 and 64 bits. *)
From S2P Require Import Prelude.
From Stdlib Require Import Ascii.
Local Open Scope Z_scope.
Open Scope pr30_scope.

(** ** Machine integers *)

(** The value of the low 32 bits as a signed integer: conversion to [int]. *)
Definition wrap32 (z : Z) : Z := (z + 2 ^ 31) mod 2 ^ 32 - 2 ^ 31.
Definition int32 (z : Z) : Prop := - 2 ^ 31 ≤ z < 2 ^ 31.

Lemma wrap32_id z : int32 z → wrap32 z = z.
Proof. unfold wrap32, int32. intros. rewrite Z.mod_small; lia. Qed.
Lemma wrap32_range z : int32 (wrap32 z).
Proof. unfold wrap32, int32. pose proof (Z.mod_pos_bound (z + 2 ^ 31) (2 ^ 32)). lia. Qed.
Lemma wrap32_mod z : wrap32 (z mod 2 ^ 32) = wrap32 z.
Proof. unfold wrap32. by rewrite Zplus_mod_idemp_l. Qed.

Definition LONG_MAX : Z := 2 ^ 63 - 1.
Definition LONG_MIN : Z := - 2 ^ 63.
Definition clamp_long (z : Z) : Z := Z.max LONG_MIN (Z.min z LONG_MAX).

(** ** Characters *)

Definition code (c : ascii) : Z := Z.of_nat (nat_of_ascii c).
Definition isdigit (c : ascii) : bool := (48 <=? code c) && (code c <=? 57).
Definition islower (c : ascii) : bool := (97 <=? code c) && (code c <=? 122).
Definition isupper (c : ascii) : bool := (65 <=? code c) && (code c <=? 90).
Definition isalnum (c : ascii) : bool := isdigit c || islower c || isupper c.
Definition isspace (c : ascii) : bool := (code c =? 32) || ((9 <=? code c) && (code c <=? 13)).

(** The value of a digit or letter in a positional notation. *)
Definition digit_val (c : ascii) : option Z :=
  if isdigit c then Some (code c - 48)
  else if islower c then Some (code c - 87)
  else if isupper c then Some (code c - 55)
  else None.
Definition digit_in (base : Z) (c : ascii) : option Z :=
  let? d := digit_val c in if d <? base then Some d else None.
Definition isxdigit (c : ascii) : bool := bool_decide (is_Some (digit_in 16 c)).

(** ** [strtol] *)

Fixpoint skip_space (s : string) : string :=
  match s with
  | String c r => if isspace c then skip_space r else s
  | EmptyString => s
  end.

Fixpoint digits_val (base : Z) (acc : Z) (s : string) : Z :=
  match s with
  | String c r =>
      match digit_in base c with
      | Some d => digits_val base (acc * base + d) r
      | None => acc
      end
  | EmptyString => acc
  end.

(** The prefix [0x] of base 16 counts only in front of a digit. *)
Definition skip_0x (base : Z) (s : string) : string :=
  match s with
  | String z (String x (String c _ as r)) =>
      if (base =? 16) && (code z =? 48) && ((code x =? 120) || (code x =? 88)) && isxdigit c
      then r else s
  | _ => s
  end.

Definition strtol (s : string) (base : Z) : Z :=
  let s := skip_space s in
  match s with
  | String c r =>
      if code c =? 45 then clamp_long (- digits_val base 0 (skip_0x base r))
      else if code c =? 43 then clamp_long (digits_val base 0 (skip_0x base r))
      else clamp_long (digits_val base 0 (skip_0x base s))
  | EmptyString => 0
  end.

(** [int val = strtol(s, NULL, base);] *)
Definition strtoi (s : string) (base : Z) : Z := wrap32 (strtol s base).

(** ** [sprintf] of integers *)

Definition digit_char (d : Z) : ascii :=
  ascii_of_nat (Z.to_nat (if d <? 10 then d + 48 else d + 87)).

(** The digits of [n], with at most [S fuel] of them, in front of [acc]. *)
Fixpoint print_digits (base : Z) (fuel : nat) (n : Z) (acc : string) : string :=
  let acc := String (digit_char (n mod base)) acc in
  if n / base =? 0 then acc
  else match fuel with
       | O => acc
       | S fuel => print_digits base fuel (n / base) acc
       end.

(** [%d] of an [int]; [%x] of an [int] read as unsigned. *)
Definition print_d (z : Z) : string :=
  if z <? 0 then ("-" +:+ print_digits 10 31 (- z) "") else print_digits 10 31 z "".
Definition print_x (z : Z) : string := print_digits 16 31 (z mod 2 ^ 32) "".

(** ** Printing and reading back *)

Lemma digit_char_all (P : Z → Prop) :
  Forall P (map Z.of_nat (seq 0 16)) → ∀ d, 0 ≤ d < 16 → P d.
Proof.
  intros H d Hd. rewrite Forall_forall in H. apply H, list_elem_of_fmap.
  exists (Z.to_nat d). split; [lia|]. apply elem_of_seq. lia.
Qed.

Lemma digit_in_char base d : 0 ≤ d < base → base ≤ 16 → digit_in base (digit_char d) = Some d.
Proof.
  intros Hd Hb. unfold digit_in.
  assert (digit_val (digit_char d) = Some d) as ->.
  { assert (Hd' : 0 ≤ d < 16) by lia. clear Hd. revert d Hd'. apply digit_char_all. repeat constructor. }
  by destruct (Z.ltb_spec d base); [|lia].
Qed.

Lemma digit_char_plain d :
  0 ≤ d < 16 → isspace (digit_char d) = false ∧ (code (digit_char d) =? 45) = false ∧
    (code (digit_char d) =? 43) = false ∧ (code (digit_char d) =? 120) = false ∧
    (code (digit_char d) =? 88) = false.
Proof.
  revert d. apply digit_char_all. repeat constructor.
Qed.

Lemma digits_val_print base fuel n tl :
  1 < base ≤ 16 → 0 ≤ n < base ^ Z.of_nat (S fuel) →
  digits_val base 0 (print_digits base fuel n tl) = digits_val base n tl.
Proof.
  intros Hb. revert n tl. induction fuel as [|fuel IH]; intros n tl Hn;
    pose proof (Z.mod_pos_bound n base ltac:(lia)); pose proof (Z.div_mod n base ltac:(lia)) as E.
  - rewrite Z.pow_1_r in Hn. simpl. rewrite Z.div_small by lia. simpl.
    rewrite digit_in_char, Z.mod_small by lia. done.
  - simpl. destruct (Z.eqb_spec (n / base) 0) as [Z0|NZ].
    + simpl. rewrite digit_in_char by lia. f_equal. lia.
    + rewrite IH.
      * simpl. rewrite digit_in_char by lia. f_equal. lia.
      * split; [apply Z.div_pos; lia|]. apply Z.div_lt_upper_bound; [lia|].
        rewrite Nat2Z.inj_succ, Z.pow_succ_r in Hn by lia. lia.
Qed.

Lemma print_digits_head base fuel n tl :
  1 < base ≤ 16 → 0 ≤ n →
  ∃ d r, 0 ≤ d < base ∧ print_digits base fuel n tl = String (digit_char d) r ∧
    (r = tl ∨ ∃ d' r', 0 ≤ d' < base ∧ r = String (digit_char d') r').
Proof.
  intros Hb. revert n tl. induction fuel as [|fuel IH]; intros n tl Hn;
    pose proof (Z.mod_pos_bound n base ltac:(lia)); simpl.
  - destruct (n / base =? 0); eauto 10.
  - destruct (n / base =? 0); [eauto 10|].
    destruct (IH (n / base) (String (digit_char (n mod base)) tl)) as (d & r & ? & -> & [->|?]);
      [by apply Z.div_pos; lia|eauto 10..].
Qed.

Lemma skip_0x_print base fuel n :
  1 < base ≤ 16 → 0 ≤ n → skip_0x base (print_digits base fuel n "") = print_digits base fuel n "".
Proof.
  intros Hb Hn. destruct (print_digits_head base fuel n "" Hb Hn) as (d & r & ? & -> & [->|(d' & r' & ? & ->)]);
    [done|]. destruct r'; [done|]. unfold skip_0x.
  destruct (digit_char_plain d') as (_ & _ & _ & -> & ->); [lia|]. by rewrite andb_false_r.
Qed.

#[local] Arguments print_digits : simpl never.

Lemma clamp_long_id z : LONG_MIN ≤ z ≤ LONG_MAX → clamp_long z = z.
Proof. unfold clamp_long. lia. Qed.

(** Reading a printed [int] gives it back, in decimal and in hexadecimal. *)
Lemma strtoi_print_d z : int32 z → strtoi (print_d z) 10 = z.
Proof.
  intros Hz. pose proof (wrap32_id z Hz) as Hw. unfold int32 in Hz. unfold strtoi, strtol, print_d.
  assert (Hp : ∀ n, 0 ≤ n ≤ 2 ^ 31 → digits_val 10 0 (skip_0x 10 (print_digits 10 31 n "")) = n).
  { intros n Hn. rewrite skip_0x_print, digits_val_print; [done|lia| |lia..].
    split; [lia|]. eapply Z.le_lt_trans; [apply Hn|]. done. }
  destruct (Z.ltb_spec z 0).
  - change (skip_space ("-" +:+ print_digits 10 31 (- z) ""))
      with (String "-" (print_digits 10 31 (- z) "")).
    cbv beta iota zeta. change (code "-"%char =? 45) with true. cbv iota.
    rewrite Hp, clamp_long_id by (unfold LONG_MIN, LONG_MAX; lia). by rewrite Z.opp_involutive.
  - specialize (Hp z ltac:(lia)).
    destruct (print_digits_head 10 31 z "") as (d & r & ? & E & _); [lia..|]. rewrite E in *.
    destruct (digit_char_plain d) as (Hs & H45 & H43 & _ & _); [lia|].
    cbn -[digit_char skip_0x digits_val clamp_long wrap32 code isspace].
    rewrite Hs, H45, H43, Hp, clamp_long_id by (unfold LONG_MIN, LONG_MAX; lia). done.
Qed.

Lemma strtoi_print_x z : int32 z → strtoi ("0x" +:+ print_x z) 16 = z.
Proof.
  intros Hz. unfold strtoi, strtol, print_x.
  pose proof (Z.mod_pos_bound z (2 ^ 32) ltac:(lia)) as Hn. set (n := z mod 2 ^ 32) in *.
  assert (Hp : digits_val 16 0 (print_digits 16 31 n "") = n).
  { rewrite digits_val_print; [done|lia|]. split; [lia|]. eapply Z.lt_trans; [apply Hn|]. done. }
  destruct (print_digits_head 16 31 n "") as (d & r & ? & E & _); [lia..|]. rewrite E in *.
  assert (isxdigit (digit_char d) = true) as Hx.
  { unfold isxdigit. rewrite digit_in_char by lia. done. }
  change (skip_space ("0x" +:+ String (digit_char d) r))
    with (String "0" (String "x" (String (digit_char d) r))).
  cbv beta iota zeta. change (code "0"%char =? 45) with false. change (code "0"%char =? 43) with false. cbv iota.
  unfold skip_0x. cbv iota. rewrite Hx. change ((16 =? 16) && _ && _ && true) with true. cbv iota.
  rewrite Hp, clamp_long_id by (unfold LONG_MIN, LONG_MAX; lia).
  unfold n. by rewrite wrap32_mod, wrap32_id.
Qed.
