(* ===== verification/CStr.v ===== *)
(** * C strings in memory

    Characters, C strings inside arrays of characters, the search functions of
    the C library on them, and the lemmas about strings that the components
    share. *)
From S2P Require Import Prelude CLib.
From Stdlib Require Import Ascii.
Open Scope pr30_scope.

(** ** Characters *)

Definition NUL : ascii := Ascii.zero.
Definition nl : ascii := "010".
Definition dq : ascii := "034".
Definition bs : ascii := "\".
Definition isc (c d : ascii) : bool := bool_decide (c = d).
Definition ln (s : string) : string := s +:+ String nl "".

Definition PATH_MAX : nat := 4096.

Abbreviation la := String.list_ascii_of_string.

(** The character a [char *] points to, NUL at the end. *)
Definition char_at (str : string) : ascii :=
  match str with String c _ => c | EmptyString => Ascii.zero end.
Definition tail_of (str : string) : string :=
  match str with String _ r => r | EmptyString => EmptyString end.

Fixpoint all_chars (f : ascii → bool) (str : string) : bool :=
  match str with String c r => f c && all_chars f r | EmptyString => true end.

(** The text up to the first [c], and from there on. *)
Fixpoint break_at (f : ascii → bool) (s : string) : string * string :=
  match s with
  | EmptyString => (EmptyString, EmptyString)
  | String c r => if f c then (EmptyString, s) else let '(a, b) := break_at f r in (String c a, b)
  end.

(** The C string at the start of an array. *)
Fixpoint cstr_of (l : list ascii) : option string :=
  match l with
  | [] => None
  | c :: r => if isc c NUL then Some EmptyString else let? s := cstr_of r in Some (String c s)
  end.

(** [strchr], [strpbrk]: where the first character is that satisfies [f]. *)
Fixpoint scan (f : ascii → bool) (l : list ascii) : option (option nat) :=
  match l with
  | [] => None
  | c :: r =>
      if f c then Some (Some 0)
      else if isc c NUL then Some None
      else let? o := scan f r in Some (S <$> o)
  end.

(** At most [n] characters of the file, up to and with the newline. *)
Fixpoint fgets_take (n : nat) (text : string) : list ascii * string :=
  match n, text with
  | S n, String c r => if isc c nl then ([c], r) else let '(l, r') := fgets_take n r in (c :: l, r')
  | _, _ => ([], text)
  end.

(** ** Strings *)

Lemma isc_true c d : isc c d = true ↔ c = d.
Proof. apply bool_decide_eq_true. Qed.
Lemma isc_false c d : isc c d = false ↔ c ≠ d.
Proof. apply bool_decide_eq_false. Qed.
Lemma isc_refl c : isc c c = true.
Proof. by apply isc_true. Qed.

Lemma app_cons c s t : String c s +:+ t = String c (s +:+ t).
Proof. done. Qed.
Lemma la_app s t : la (s +:+ t) = la s ++ la t.
Proof. induction s as [|c s IH]; [done|]. rewrite app_cons. simpl. by f_equal. Qed.
Lemma la_length s : length (la s) = String.length s.
Proof. induction s as [|c s IH]; [done|]. simpl. by f_equal. Qed.
Lemma string_length_app s t : String.length (s +:+ t) = String.length s + String.length t.
Proof. by rewrite <-!la_length, la_app, length_app. Qed.
Lemma string_app_nil s : s +:+ "" = s.
Proof. induction s as [|c s IH]; [done|]. by rewrite app_cons, IH. Qed.
Lemma string_app_assoc (s t u : string) : s +:+ (t +:+ u) = (s +:+ t) +:+ u.
Proof. induction s as [|c s IH]; [done|]. by rewrite !app_cons, IH. Qed.

Lemma all_chars_app f s t : all_chars f (s +:+ t) = all_chars f s && all_chars f t.
Proof. induction s as [|c s IH]; [done|]. rewrite app_cons. simpl. by rewrite IH, andb_assoc. Qed.

Lemma all_chars_mono (f g : ascii → bool) s :
  (∀ c, f c = true → g c = true) → all_chars f s = true → all_chars g s = true.
Proof. intros H. induction s as [|c s IH]; [done|]. simpl. rewrite !andb_true_iff. intros [? ?]. auto. Qed.

(** The string has none of the characters [l]. *)
Definition without (l : list ascii) (s : string) : bool :=
  all_chars (λ c, bool_decide (c ∉ l)) s.
Lemma without_weaken l l' s : (∀ c, c ∈ l' → c ∈ l) → without l s = true → without l' s = true.
Proof.
  intros H. apply all_chars_mono. intros c. rewrite !bool_decide_eq_true. eauto.
Qed.
Lemma without_app l s t : without l (s +:+ t) = without l s && without l t.
Proof. apply all_chars_app. Qed.

(** ** Arrays *)

Lemma cstr_of_app s r : without [NUL] s = true → cstr_of (la s ++ NUL :: r) = Some s.
Proof.
  induction s as [|c s IH]; [done|]. unfold without. simpl. rewrite andb_true_iff.
  intros [Hc%bool_decide_eq_true Hs]. rewrite (proj2 (isc_false c NUL)).
  - by rewrite IH.
  - intros ->. apply Hc. by left.
Qed.

Section Scan.
Context (f : ascii → bool) (l : list ascii).
Hypothesis out : ∀ c, c ∉ l → f c = false ∧ c ≠ NUL.

Lemma scan_app s r : without l s = true → scan f (la s ++ r) =
  match scan f r with Some o => Some (Nat.add (String.length s) <$> o) | None => None end.
Proof.
  induction s as [|c s IH]; simpl.
  { intros _. destruct (scan f r) as [[n|]|]; done. }
  unfold without. simpl. rewrite andb_true_iff. intros [Hc%bool_decide_eq_true Hs].
  destruct (out c Hc) as [-> N]. rewrite (proj2 (isc_false c NUL)) by done. rewrite (IH Hs).
  destruct (scan f r) as [[n|]|]; done.
Qed.
Lemma scan_hit s c r : without l s = true → f c = true → scan f (la s ++ c :: r) = Some (Some (String.length s)).
Proof. intros Hs Hc. rewrite scan_app by done. simpl. rewrite Hc. simpl. by rewrite Nat.add_0_r. Qed.
Lemma scan_end s r : without l s = true → f NUL = false → scan f (la s ++ NUL :: r) = Some None.
Proof. intros Hs Hc. rewrite scan_app by done. simpl. by rewrite Hc. Qed.
End Scan.

Lemma drop_here {A} (pre r : list A) : drop (length pre) (pre ++ r) = r.
Proof. by rewrite drop_app_length. Qed.
Lemma lookup_here {A} (pre : list A) c r : (pre ++ c :: r) !! length pre = Some c.
Proof. rewrite lookup_app_r by done. by rewrite Nat.sub_diag. Qed.

Lemma cstr_ended (l : list ascii) i : l !! i = Some NUL → ∃ s, cstr_of l = Some s ∧ String.length s ≤ i ∧ l !! String.length s = Some NUL.
Proof.
  revert i. induction l as [|c l IH]; intros i H; [done|]. simpl. destruct (isc c NUL) eqn:E.
  - apply isc_true in E as ->. exists "". split_and!; [done|simpl; lia|done].
  - destruct i as [|i]; [injection H as ->; discriminate E|]. destruct (IH i H) as (s & -> & L & N).
    exists (String c s). split_and!; [done|simpl; lia|done].
Qed.
Lemma scan_ended f (l : list ascii) i : l !! i = Some NUL →
  ∃ o, scan f l = Some o ∧ ∀ j, o = Some j → j ≤ i ∧ ∃ c, l !! j = Some c ∧ f c = true.
Proof.
  revert i. induction l as [|c l IH]; intros i H; [done|]. simpl. destruct (f c) eqn:F.
  - exists (Some 0). split; [done|]. intros j [= <-]. split; [lia|]. by exists c.
  - destruct (isc c NUL) eqn:E; [by exists None|].
    destruct i as [|i]; [injection H as ->; discriminate E|]. destruct (IH i H) as (o & -> & Ho).
    exists (S <$> o). split; [done|]. destruct o as [j|]; [|done]. intros ? [= <-].
    destruct (Ho j eq_refl) as (L & c' & Hc). split; [lia|]. by exists c'.
Qed.

(** ** Lines *)

Lemma fgets_take_le n text l rest : fgets_take n text = (l, rest) →
  length l ≤ n ∧ String.length text = length l + String.length rest.
Proof.
  revert text l rest. induction n as [|n IH]; intros text l rest; [by intros [= <- <-]|].
  destruct text as [|c text]; [intros [= <- <-]; simpl; lia|]. cbn [fgets_take].
  destruct (isc c nl); [intros [= <- <-]; simpl; lia|].
  destruct (fgets_take n text) as [l' r'] eqn:E. intros [= <- <-]. destruct (IH _ _ _ E). simpl. lia.
Qed.
Lemma fgets_take_pos n c text l rest : fgets_take (S n) (String c text) = (l, rest) → 0 < length l.
Proof.
  cbn [fgets_take]. destruct (isc c nl); [intros [= <- _]; simpl; lia|].
  destruct (fgets_take n text). intros [= <- _]. simpl. lia.
Qed.
