(* ===== verification/KData.v ===== *)
(** * Kconfig data: [scripts/config/expr.h]

    The types every part of the OpenWrt configuration engine shares: the
    three-valued logic, expression trees, symbol kinds and flag bits, property
    kinds, and the read-only view of the symbol table ([SymTab]) against which
    the expression code of [expr.c] is verified. *)
From S2P Require Import Prelude.

(** ** [enum tristate] and the macros [E_OR], [E_AND], [E_NOT] *)

Inductive tristate : Set := No | Mod | Yes.

#[export] Instance tristate_eq_dec : EqDecision tristate.
Proof. solve_decision. Defined.

(** The enumerator's integer value: the macros compare these. *)
Definition tri_int (t : tristate) : Z :=
  match t with No => 0 | Mod => 1 | Yes => 2 end.

Definition tri_of_int (z : Z) : tristate :=
  if (z =? 0)%Z then No else if (z =? 1)%Z then Mod else Yes.

(** [#define E_OR(dep1, dep2) (((dep1)>(dep2))?(dep1):(dep2))] *)
Definition tri_or (dep1 dep2 : tristate) : tristate :=
  if (tri_int dep1 >? tri_int dep2)%Z then dep1 else dep2.
(** [#define E_AND(dep1, dep2) (((dep1)<(dep2))?(dep1):(dep2))] *)
Definition tri_and (dep1 dep2 : tristate) : tristate :=
  if (tri_int dep1 <? tri_int dep2)%Z then dep1 else dep2.
(** [#define E_NOT(dep) (2-(dep))] *)
Definition tri_not (dep : tristate) : tristate :=
  tri_of_int (2 - tri_int dep)%Z.

Definition tri_leb (a b : tristate) : bool := (tri_int a <=? tri_int b)%Z.
Definition tri_ltb (a b : tristate) : bool := (tri_int a <? tri_int b)%Z.

(** ** [enum expr_type], [struct expr] *)

(** A [struct symbol *]: the address of a symbol. *)
Definition sid : Set := nat.

(** The addresses of the four symbols that [symbol.c] defines statically. *)
Definition symbol_yes : sid := 0.
Definition symbol_mod : sid := 1.
Definition symbol_no : sid := 2.
Definition symbol_empty : sid := 3.

Inductive expr_type : Set :=
  E_NONE | E_OR | E_AND | E_NOT | E_EQUAL | E_UNEQUAL | E_CHOICE | E_SYMBOL | E_RANGE.

#[export] Instance expr_type_eq_dec : EqDecision expr_type.
Proof. solve_decision. Defined.

(** [struct expr]: the members of the two unions that a node of each type
    uses.  Operands of OR, AND and NOT are never NULL; the [left.expr] of a
    choice list node is, at its end. *)
#[warnings="-register-all"]
Inductive expr : Type :=
| Eor (l r : expr)
| Eand (l r : expr)
| Enot (l : expr)
| Eequal (l r : sid)
| Eunequal (l r : sid)
| Echoice (l : option expr) (r : sid)
| Esymbol (s : sid)
| Erange (l r : sid).

(** [e->type] *)
Definition etype (e : expr) : expr_type :=
  match e with
  | Eor _ _ => E_OR | Eand _ _ => E_AND | Enot _ => E_NOT
  | Eequal _ _ => E_EQUAL | Eunequal _ _ => E_UNEQUAL
  | Echoice _ _ => E_CHOICE | Esymbol _ => E_SYMBOL | Erange _ _ => E_RANGE
  end.

(** ** [enum symbol_type] and the flag bits *)

Inductive symbol_type : Set :=
  S_UNKNOWN | S_BOOLEAN | S_TRISTATE | S_INT | S_HEX | S_STRING | S_OTHER.

#[export] Instance symbol_type_eq_dec : EqDecision symbol_type.
Proof. solve_decision. Defined.

Definition SYMBOL_YES : Z := 0x0001.
Definition SYMBOL_MOD : Z := 0x0002.
Definition SYMBOL_NO : Z := 0x0004.
Definition SYMBOL_CONST : Z := 0x0007.
Definition SYMBOL_CHECK : Z := 0x0008.
Definition SYMBOL_CHOICE : Z := 0x0010.
Definition SYMBOL_CHOICEVAL : Z := 0x0020.
Definition SYMBOL_PRINTED : Z := 0x0040.
Definition SYMBOL_VALID : Z := 0x0080.
Definition SYMBOL_OPTIONAL : Z := 0x0100.
Definition SYMBOL_WRITE : Z := 0x0200.
Definition SYMBOL_CHANGED : Z := 0x0400.
Definition SYMBOL_NEW : Z := 0x0800.
Definition SYMBOL_AUTO : Z := 0x1000.
Definition SYMBOL_CHECKED : Z := 0x2000.
Definition SYMBOL_WARNED : Z := 0x8000.

Definition MENU_CHANGED : Z := 0x0001.
Definition MENU_ROOT : Z := 0x0002.

Definition has_flag (flags bits : Z) : bool := negb (Z.land flags bits =? 0)%Z.
Definition set_flag (flags bits : Z) : Z := Z.lor flags bits.
Definition clear_flag (flags bits : Z) : Z := Z.ldiff flags bits.

Inductive prop_type : Set :=
  P_UNKNOWN | P_PROMPT | P_COMMENT | P_MENU | P_DEFAULT | P_CHOICE
| P_DESELECT | P_SELECT | P_RANGE | P_RESET.

#[export] Instance prop_type_eq_dec : EqDecision prop_type.
Proof. solve_decision. Defined.

(** ** The view [expr.c] has of the symbol table *)

(** What the expression code reads of a symbol: its type, flags and name,
    and, once it has been calculated, its tristate and string values. *)
Class SymTab := {
  st_type : sid → symbol_type;
  st_flags : sid → Z;
  st_name : sid → option string;
  st_tri : sid → tristate;
  st_str : sid → string;
}.

Definition tri_string (t : tristate) : string :=
  match t with No => "n" | Mod => "m" | Yes => "y" end.

(** What [symbol.c] promises about a calculated table: the three constants
    have their values; a boolean symbol is never [m]; the string value of a
    boolean or tristate symbol is the letter of its tristate value; and two
    constants of the same string are the same symbol. *)
Class SymTabOk (T : SymTab) : Prop := {
  st_yes_tri : st_tri symbol_yes = Yes;
  st_mod_tri : st_tri symbol_mod = Mod;
  st_no_tri : st_tri symbol_no = No;
  st_yes_str : st_str symbol_yes = "y"%string;
  st_mod_str : st_str symbol_mod = "m"%string;
  st_no_str : st_str symbol_no = "n"%string;
  st_const_type s : has_flag (st_flags s) SYMBOL_CONST = true → st_type s = S_UNKNOWN;
  st_yes_flags : has_flag (st_flags symbol_yes) SYMBOL_CONST = true;
  st_mod_flags : has_flag (st_flags symbol_mod) SYMBOL_CONST = true;
  st_no_flags : has_flag (st_flags symbol_no) SYMBOL_CONST = true;
  st_const_inj s1 s2 :
    has_flag (st_flags s1) SYMBOL_CONST = true →
    has_flag (st_flags s2) SYMBOL_CONST = true →
    st_str s1 = st_str s2 → s1 = s2;
  st_bool_not_mod s : st_type s = S_BOOLEAN → st_tri s ≠ Mod;
  st_tri_str s :
    st_type s = S_BOOLEAN ∨ st_type s = S_TRISTATE → st_str s = tri_string (st_tri s);
}.

(** ** Laws of the three-valued logic *)

Lemma tri_or_assoc a b c : tri_or a (tri_or b c) = tri_or (tri_or a b) c.
Proof. by destruct a, b, c. Qed.
Lemma tri_and_assoc a b c : tri_and a (tri_and b c) = tri_and (tri_and a b) c.
Proof. by destruct a, b, c. Qed.
Lemma tri_or_comm a b : tri_or a b = tri_or b a.
Proof. by destruct a, b. Qed.
Lemma tri_and_comm a b : tri_and a b = tri_and b a.
Proof. by destruct a, b. Qed.
Lemma tri_or_idemp a : tri_or a a = a.
Proof. by destruct a. Qed.
Lemma tri_and_idemp a : tri_and a a = a.
Proof. by destruct a. Qed.
Lemma tri_not_involutive a : tri_not (tri_not a) = a.
Proof. by destruct a. Qed.
Lemma tri_not_or a b : tri_not (tri_or a b) = tri_and (tri_not a) (tri_not b).
Proof. by destruct a, b. Qed.
Lemma tri_not_and a b : tri_not (tri_and a b) = tri_or (tri_not a) (tri_not b).
Proof. by destruct a, b. Qed.
Lemma tri_or_no_l a : tri_or No a = a.
Proof. by destruct a. Qed.
Lemma tri_or_no_r a : tri_or a No = a.
Proof. by destruct a. Qed.
Lemma tri_or_yes_l a : tri_or Yes a = Yes.
Proof. by destruct a. Qed.
Lemma tri_or_yes_r a : tri_or a Yes = Yes.
Proof. by destruct a. Qed.
Lemma tri_and_no_l a : tri_and No a = No.
Proof. by destruct a. Qed.
Lemma tri_and_no_r a : tri_and a No = No.
Proof. by destruct a. Qed.
Lemma tri_and_yes_l a : tri_and Yes a = a.
Proof. by destruct a. Qed.
Lemma tri_and_yes_r a : tri_and a Yes = a.
Proof. by destruct a. Qed.

Create Rewrite HintDb tri.
#[export] Hint Rewrite tri_or_no_l tri_or_no_r tri_or_yes_l tri_or_yes_r
  tri_and_no_l tri_and_no_r tri_and_yes_l tri_and_yes_r
  tri_or_idemp tri_and_idemp tri_not_involutive : tri.

Lemma tri_string_inj a b : tri_string a = tri_string b → a = b.
Proof. by destruct a, b. Qed.
