(* ===== verification/KExpr.v ===== *)
(** * Kconfig expressions: [scripts/config/expr.c]

    Allocation and copying, the equality test, the simplifier
    ([expr_eliminate_yn], [expr_eliminate_eq], [expr_transform],
    [expr_eliminate_dups], [expr_extract_eq], [expr_trans_bool],
    [expr_trans_compare]), the dependency tests and the printer.

    The C code rewrites trees in place through [struct expr **] cells.  Where
    the two cells of a call are in different trees the model returns both
    trees.  Where they are in the same tree (duplicate elimination is started
    as [expr_eliminate_dups1(type, &e, &e)]) the model keeps the one tree and
    names the two cells by their paths from its root, so that the pointer test
    [e1 == e2] is equality of paths. *)
From S2P Require Import Prelude KData.
Open Scope pr30_scope.

(** ** Allocation *)

(** The [enum expr_type] argument of the functions that walk OR and AND
    chains: these two are the only types they are called with. *)
Inductive binop : Set := B_OR | B_AND.

#[export] Instance binop_eq_dec : EqDecision binop.
Proof. solve_decision. Defined.

(** The [enum expr_type] argument of [expr_alloc_comp]. *)
Inductive cmpop : Set := C_EQUAL | C_UNEQUAL | C_RANGE.

Definition expr_alloc_symbol (s : sid) : expr := Esymbol s.
(** [expr_alloc_one(E_NOT, ce)] *)
Definition expr_alloc_one (ce : expr) : expr := Enot ce.
Definition expr_alloc_two (t : binop) (e1 e2 : expr) : expr :=
  match t with B_OR => Eor e1 e2 | B_AND => Eand e1 e2 end.
Definition expr_alloc_comp (t : cmpop) (s1 s2 : sid) : expr :=
  match t with
  | C_EQUAL => Eequal s1 s2
  | C_UNEQUAL => Eunequal s1 s2
  | C_RANGE => Erange s1 s2
  end.

(** A [struct expr *] that may be NULL is an [option expr]. *)
Definition expr_alloc_and (e1 e2 : option expr) : option expr :=
  match e1 with
  | None => e2
  | Some a => match e2 with Some b => Some (expr_alloc_two B_AND a b) | None => e1 end
  end.
Definition expr_alloc_or (e1 e2 : option expr) : option expr :=
  match e1 with
  | None => e2
  | Some a => match e2 with Some b => Some (expr_alloc_two B_OR a b) | None => e1 end
  end.

(** [expr_copy] of a non-NULL tree.  There is no copy of a range (the code
    reports it and returns NULL) nor of a choice list node (whose
    [right.sym] the code would copy as if it were an expression). *)
Fixpoint expr_copy (org : expr) : option expr :=
  match org with
  | Esymbol s => Some (Esymbol s)
  | Enot l => let? l' := expr_copy l in Some (Enot l')
  | Eequal l r => Some (Eequal l r)
  | Eunequal l r => Some (Eunequal l r)
  | Eand l r => let? l' := expr_copy l in let? r' := expr_copy r in Some (Eand l' r')
  | Eor l r => let? l' := expr_copy l in let? r' := expr_copy r in Some (Eor l' r')
  | Echoice _ _ => None
  | Erange _ _ => None
  end.

(** The number of [free] calls [expr_free] makes on a tree. *)
Fixpoint expr_free (e : expr) : nat :=
  match e with
  | Esymbol _ => 1
  | Enot l => expr_free l
  | Eequal _ _ => 1
  | Eunequal _ _ => 1
  | Eor l r => expr_free l + expr_free r + 1
  | Eand l r => expr_free l + expr_free r + 1
  | Echoice _ _ => 1
  | Erange _ _ => 1
  end.

(** Number of [struct expr] nodes below a cell. *)
Fixpoint expr_size (e : expr) : nat :=
  match e with
  | Eor l r => S (expr_size l + expr_size r)
  | Eand l r => S (expr_size l + expr_size r)
  | Enot l => S (expr_size l)
  | _ => 1
  end.

(** ** Constant folding: [expr_eliminate_yn] *)

Fixpoint expr_eliminate_yn (e : expr) : expr :=
  match e with
  | Eand l r =>
      let l := expr_eliminate_yn l in
      let r := expr_eliminate_yn r in
      let right_operand :=
        match r with
        | Esymbol s =>
            if decide (s = symbol_no) then Esymbol symbol_no
            else if decide (s = symbol_yes) then l
            else Eand l r
        | _ => Eand l r
        end in
      match l with
      | Esymbol s =>
          if decide (s = symbol_no) then Esymbol symbol_no
          else if decide (s = symbol_yes) then r
          else right_operand
      | _ => right_operand
      end
  | Eor l r =>
      let l := expr_eliminate_yn l in
      let r := expr_eliminate_yn r in
      let right_operand :=
        match r with
        | Esymbol s =>
            if decide (s = symbol_no) then l
            else if decide (s = symbol_yes) then Esymbol symbol_yes
            else Eor l r
        | _ => Eor l r
        end in
      match l with
      | Esymbol s =>
          if decide (s = symbol_no) then r
          else if decide (s = symbol_yes) then Esymbol symbol_yes
          else right_operand
      | _ => right_operand
      end
  | _ => e
  end.

(** [e->type == type] for a chain type, with the two operands. *)
Definition binop_view (t : binop) (e : expr) : option (expr * expr) :=
  match t, e with
  | B_OR, Eor l r => Some (l, r)
  | B_AND, Eand l r => Some (l, r)
  | _, _ => None
  end.

(** The chain type of an OR or AND node. *)
Definition binop_of (e : expr) : option binop :=
  match e with Eor _ _ => Some B_OR | Eand _ _ => Some B_AND | _ => None end.

(** The neutral constant a removed operand is replaced with. *)
Definition neutral (t : binop) : sid :=
  match t with B_OR => symbol_no | B_AND => symbol_yes end.

Section Simplifier.
Context {T : SymTab}.

(** ** Equality: [__expr_eliminate_eq], [expr_eliminate_eq], [expr_eq] *)

(** The three functions call each other.  [n] bounds the recursion depth;
    [tc] is the global [trans_count]; the result holds both rewritten trees. *)
Fixpoint elim_eq_f (n : nat) (t : binop) (e1 e2 : expr) (tc : nat)
    : option (expr * expr * nat) :=
  match n with
  | O => None
  | S n =>
      match binop_view t e1 with
      | Some (l, r) =>
          let? (l, e2, tc) := elim_eq_f n t l e2 tc in
          let? (r, e2, tc) := elim_eq_f n t r e2 tc in
          Some (expr_alloc_two t l r, e2, tc)
      | None =>
      match binop_view t e2 with
      | Some (l, r) =>
          let? (e1, l, tc) := elim_eq_f n t e1 l tc in
          let? (e1, r, tc) := elim_eq_f n t e1 r tc in
          Some (e1, expr_alloc_two t l r, tc)
      | None =>
          let same_const :=
            match e1, e2 with
            | Esymbol s1, Esymbol s2 =>
                bool_decide (s1 = s2) && has_flag (st_flags s1) (Z.lor SYMBOL_YES SYMBOL_NO)
            | _, _ => false
            end in
          if same_const then Some (e1, e2, tc)
          else
            let? eq := expr_eq_f n e1 e2 in
            if negb eq then Some (e1, e2, tc)
            else Some (Esymbol (neutral t), Esymbol (neutral t), S tc)
      end
      end
  end
with eliminate_eq_f (n : nat) (e1 e2 : expr) (tc : nat) : option (expr * expr * nat) :=
  match n with
  | O => None
  | S n =>
      let? (e1, e2, tc) :=
        match binop_of e1 with
        | Some t => elim_eq_f n t e1 e2 tc
        | None => Some (e1, e2, tc)
        end in
      let? (e1, e2, tc) :=
        if decide (etype e1 = etype e2) then Some (e1, e2, tc)
        else match binop_of e2 with
             | Some t => elim_eq_f n t e1 e2 tc
             | None => Some (e1, e2, tc)
             end in
      Some (expr_eliminate_yn e1, expr_eliminate_yn e2, tc)
  end
with expr_eq_f (n : nat) (e1 e2 : expr) : option bool :=
  match n with
  | O => None
  | S n =>
      match e1, e2 with
      | Eequal l1 r1, Eequal l2 r2 => Some (bool_decide (l1 = l2) && bool_decide (r1 = r2))
      | Eunequal l1 r1, Eunequal l2 r2 => Some (bool_decide (l1 = l2) && bool_decide (r1 = r2))
      | Esymbol s1, Esymbol s2 => Some (bool_decide (s1 = s2))
      | Enot l1, Enot l2 => expr_eq_f n l1 l2
      | Eand _ _, Eand _ _ | Eor _ _, Eor _ _ =>
          let? c1 := expr_copy e1 in
          let? c2 := expr_copy e2 in
          let? (c1, c2, _) := eliminate_eq_f n c1 c2 0 in
          Some (match c1, c2 with
                | Esymbol s1, Esymbol s2 => bool_decide (s1 = s2)
                | _, _ => false
                end)
      | _, _ => Some false
      end
  end.

(** The depth that is enough for two trees ([expr_eq_total]). *)
Definition eq_fuel (e1 e2 : expr) : nat := 4 * (expr_size e1 + expr_size e2).

Definition expr_eq (e1 e2 : expr) : option bool := expr_eq_f (eq_fuel e1 e2) e1 e2.

(** [expr_eliminate_eq] on the two cells of [menu_finalize], NULL included. *)
Definition expr_eliminate_eq (e1 e2 : option expr) (tc : nat)
    : option (option expr * option expr * nat) :=
  match e1, e2 with
  | Some a, Some b =>
      let? (a, b, tc) := eliminate_eq_f (2 + eq_fuel a b) a b tc in Some (Some a, Some b, tc)
  | _, _ => Some (e1, e2, tc)
  end.

(** ** [expr_trans_bool] *)

Fixpoint expr_trans_bool (e : expr) : expr :=
  match e with
  | Eand l r => Eand (expr_trans_bool l) (expr_trans_bool r)
  | Eor l r => Eor (expr_trans_bool l) (expr_trans_bool r)
  | Enot l => Enot (expr_trans_bool l)
  | Eunequal l r =>
      if decide (st_type l = S_TRISTATE) then
        if decide (r = symbol_no) then Esymbol l else e
      else e
  | _ => e
  end.

(** ** Joining two operands: [expr_join_or], [expr_join_and] *)

(** [sym1] of the two functions: [None] where they return NULL. *)
Definition join_sym1 (e1 : expr) : option sid :=
  match e1 with
  | Eequal l _ | Eunequal l _ | Esymbol l => Some l
  | Enot (Eequal l _) | Enot (Eunequal l _) | Enot (Esymbol l) => Some l
  | _ => None
  end.
(** [sym2] of the two functions. *)
Definition join_sym2 (e2 : expr) : option sid :=
  match e2 with
  | Eequal l _ | Eunequal l _ | Esymbol l => Some l
  | Enot (Esymbol l) => Some l
  | _ => None
  end.

(** [e->type == E_EQUAL && e->right.sym == s], and the like. *)
Definition is_equal_to (s : sid) (e : expr) : bool :=
  match e with Eequal _ r => bool_decide (r = s) | _ => false end.
Definition is_unequal_to (s : sid) (e : expr) : bool :=
  match e with Eunequal _ r => bool_decide (r = s) | _ => false end.
Definition is_symbol (e : expr) : bool :=
  match e with Esymbol _ => true | _ => false end.
Definition is_not_symbol (e : expr) : bool :=
  match e with Enot (Esymbol _) => true | _ => false end.

(** The result is [None] when the equality test has no result, [Some None]
    for NULL and [Some (Some e)] for the joined expression. *)
Definition expr_join_or (e1 e2 : expr) : option (option expr) :=
  let? eq := expr_eq e1 e2 in
  if eq then (let? c := expr_copy e1 in Some (Some c)) else
  match join_sym1 e1, join_sym2 e2 with
  | Some sym1, Some sym2 =>
      if negb (bool_decide (sym1 = sym2)) then Some None
      else if negb (bool_decide (st_type sym1 = S_BOOLEAN))
              && negb (bool_decide (st_type sym1 = S_TRISTATE)) then Some None
      else if bool_decide (st_type sym1 = S_TRISTATE)
              && (is_equal_to symbol_yes e1 && is_equal_to symbol_mod e2
                  || is_equal_to symbol_mod e1 && is_equal_to symbol_yes e2)
      then Some (Some (expr_alloc_comp C_UNEQUAL sym1 symbol_no))
      else if bool_decide (st_type sym1 = S_TRISTATE)
              && (is_equal_to symbol_yes e1 && is_equal_to symbol_no e2
                  || is_equal_to symbol_no e1 && is_equal_to symbol_yes e2)
      then Some (Some (expr_alloc_comp C_UNEQUAL sym1 symbol_mod))
      else if bool_decide (st_type sym1 = S_TRISTATE)
              && (is_equal_to symbol_mod e1 && is_equal_to symbol_no e2
                  || is_equal_to symbol_no e1 && is_equal_to symbol_mod e2)
      then Some (Some (expr_alloc_comp C_UNEQUAL sym1 symbol_yes))
      else if bool_decide (st_type sym1 = S_BOOLEAN) && bool_decide (sym1 = sym2)
              && (is_not_symbol e1 && is_symbol e2 || is_not_symbol e2 && is_symbol e1)
      then Some (Some (expr_alloc_symbol symbol_yes))
      else Some None
  | _, _ => Some None
  end.

(** [(a='b') && (a!='c')] with [b] and [c] constants. *)
Definition join_eq_neq (sym1 b c : sid) : expr :=
  if negb (bool_decide (b = c)) then expr_alloc_comp C_EQUAL sym1 b
  else expr_alloc_symbol symbol_no.

Definition expr_join_and (e1 e2 : expr) : option (option expr) :=
  let? eq := expr_eq e1 e2 in
  if eq then (let? c := expr_copy e1 in Some (Some c)) else
  match join_sym1 e1, join_sym2 e2 with
  | Some sym1, Some sym2 =>
      if negb (bool_decide (sym1 = sym2)) then Some None
      else if negb (bool_decide (st_type sym1 = S_BOOLEAN))
              && negb (bool_decide (st_type sym1 = S_TRISTATE)) then Some None
      else if is_symbol e1 && is_equal_to symbol_yes e2
              || is_symbol e2 && is_equal_to symbol_yes e1
      then Some (Some (expr_alloc_comp C_EQUAL sym1 symbol_yes))
      else if is_symbol e1 && is_unequal_to symbol_no e2
              || is_symbol e2 && is_unequal_to symbol_no e1
      then Some (Some (expr_alloc_symbol sym1))
      else if is_symbol e1 && is_unequal_to symbol_mod e2
              || is_symbol e2 && is_unequal_to symbol_mod e1
      then Some (Some (expr_alloc_comp C_EQUAL sym1 symbol_yes))
      else if negb (bool_decide (st_type sym1 = S_TRISTATE)) then Some None
      else
        let is_const s := has_flag (st_flags s) SYMBOL_CONST in
        let rest :=
          if is_unequal_to symbol_yes e1 && is_unequal_to symbol_no e2
             || is_unequal_to symbol_no e1 && is_unequal_to symbol_yes e2
          then Some (expr_alloc_comp C_EQUAL sym1 symbol_mod)
          else if is_unequal_to symbol_yes e1 && is_unequal_to symbol_mod e2
             || is_unequal_to symbol_mod e1 && is_unequal_to symbol_yes e2
          then Some (expr_alloc_comp C_EQUAL sym1 symbol_no)
          else if is_unequal_to symbol_mod e1 && is_unequal_to symbol_no e2
             || is_unequal_to symbol_no e1 && is_unequal_to symbol_mod e2
          then Some (expr_alloc_comp C_EQUAL sym1 symbol_yes)
          else None in
        match e1, e2 with
        | Eequal _ b, Eunequal _ c =>
            if is_const c && is_const b then Some (Some (join_eq_neq sym1 b c)) else Some rest
        | Eunequal _ c, Eequal _ b =>
            if is_const c && is_const b then Some (Some (join_eq_neq sym1 b c)) else Some rest
        | _, _ => Some rest
        end
  | _, _ => Some None
  end.

(** ** Negation normal form: [expr_transform] *)

(** [e->left.sym->type != S_BOOLEAN] guards the rewriting of comparisons. *)
Definition transform_equal (l r : sid) : expr :=
  if negb (bool_decide (st_type l = S_BOOLEAN)) then Eequal l r
  else if decide (r = symbol_no) then Enot (expr_alloc_symbol l)
  else if decide (r = symbol_mod) then Esymbol symbol_no
  else if decide (r = symbol_yes) then Esymbol l
  else Eequal l r.
Definition transform_unequal (l r : sid) : expr :=
  if negb (bool_decide (st_type l = S_BOOLEAN)) then Eunequal l r
  else if decide (r = symbol_no) then Esymbol l
  else if decide (r = symbol_mod) then Esymbol symbol_yes
  else if decide (r = symbol_yes) then Enot (expr_alloc_symbol l)
  else Eunequal l r.

(** [expr_transform] of a non-NULL tree; [n] bounds the recursion depth. *)
Fixpoint transform_f (n : nat) (e : expr) : option expr :=
  match n with
  | O => None
  | S n =>
      match e with
      | Eequal l r => Some (transform_equal l r)
      | Eunequal l r => Some (transform_unequal l r)
      | Esymbol _ => Some e
      | Echoice _ _ => Some e
      | Erange _ _ => None
      | Eand l r =>
          let? l := transform_f n l in let? r := transform_f n r in Some (Eand l r)
      | Eor l r =>
          let? l := transform_f n l in let? r := transform_f n r in Some (Eor l r)
      | Enot l =>
          let? l := transform_f n l in
          match l with
          | Enot a => transform_f n a
          | Eequal a b => Some (Eunequal a b)
          | Eunequal a b => Some (Eequal a b)
          | Eor a b => transform_f n (Eand (Enot a) (expr_alloc_one b))
          | Eand a b => transform_f n (Eor (Enot a) (expr_alloc_one b))
          | Esymbol s =>
              if decide (s = symbol_yes) then Some (Esymbol symbol_no)
              else if decide (s = symbol_mod) then Some (Esymbol symbol_mod)
              else if decide (s = symbol_no) then Some (Esymbol symbol_yes)
              else Some (Enot l)
          | _ => Some (Enot l)
          end
      end
  end.

(** Each rewriting step of [expr_transform] lowers this weight. *)
Fixpoint transform_weight (e : expr) : nat :=
  match e with
  | Eor l r => S (transform_weight l + transform_weight r)
  | Eand l r => S (transform_weight l + transform_weight r)
  | Enot l => 2 * transform_weight l
  | Eequal _ _ | Eunequal _ _ => 2
  | _ => 1
  end.

Definition expr_transform (e : expr) : option expr := transform_f (transform_weight e) e.

(** ** Common operands: [expr_extract_eq] *)

Fixpoint extract_eq_f (n : nat) (t : binop) (ep : option expr) (e1 e2 : expr)
    : option (option expr * expr * expr) :=
  match n with
  | O => None
  | S n =>
      match binop_view t e1 with
      | Some (l, r) =>
          let? (ep, l, e2) := extract_eq_f n t ep l e2 in
          let? (ep, r, e2) := extract_eq_f n t ep r e2 in
          Some (ep, expr_alloc_two t l r, e2)
      | None =>
      match binop_view t e2 with
      | Some (l, r) =>
          let? (ep, e1, l) := extract_eq_f n t ep e1 l in
          let? (ep, e1, r) := extract_eq_f n t ep e1 r in
          Some (ep, e1, expr_alloc_two t l r)
      | None =>
          let? eq := expr_eq e1 e2 in
          if eq then
            Some (Some (match ep with Some ep => expr_alloc_two t ep e1 | None => e1 end),
                  Esymbol (neutral t), Esymbol (neutral t))
          else Some (ep, e1, e2)
      end
      end
  end.

Definition expr_extract_eq (t : binop) (ep : option expr) (e1 e2 : expr) :=
  extract_eq_f (expr_size e1 + expr_size e2) t ep e1 e2.

(** [expr_extract_eq_and] ([t = B_AND]) and [expr_extract_eq_or] ([t = B_OR]):
    the common part, and what is left of the two trees. *)
Definition expr_extract_eq_common (t : binop) (e1 e2 : expr)
    : option (option expr * expr * expr) :=
  let? (tmp, e1, e2) := expr_extract_eq t None e1 e2 in
  match tmp with
  | Some _ => Some (tmp, expr_eliminate_yn e1, expr_eliminate_yn e2)
  | None => Some (tmp, e1, e2)
  end.
Definition expr_extract_eq_and := expr_extract_eq_common B_AND.
Definition expr_extract_eq_or := expr_extract_eq_common B_OR.

(** [expr_is_yes] and [expr_is_no] of a non-NULL tree. *)
Definition expr_is_yes (e : expr) : bool :=
  match e with Esymbol s => bool_decide (s = symbol_yes) | _ => false end.
Definition expr_is_no (e : expr) : bool :=
  match e with Esymbol s => bool_decide (s = symbol_no) | _ => false end.
End Simplifier.

(** ** Cells of one tree *)

Inductive dir : Set := DL | DR.

#[export] Instance dir_eq_dec : EqDecision dir.
Proof. solve_decision. Defined.

(** The tree [*ep] of the cell reached from the root by [left.expr] ([DL])
    and [right.expr] ([DR]) of OR and AND nodes. *)
Fixpoint cell_get (e : expr) (p : list dir) {struct p} : option expr :=
  match p with
  | [] => Some e
  | d :: p =>
      match e with
      | Eor l r | Eand l r => cell_get (match d with DL => l | DR => r end) p
      | _ => None
      end
  end.

(** The root after [*ep = x]. *)
Fixpoint cell_put (e : expr) (p : list dir) (x : expr) {struct p} : option expr :=
  match p with
  | [] => Some x
  | d :: p =>
      match e with
      | Eor l r =>
          match d with
          | DL => let? l := cell_put l p x in Some (Eor l r)
          | DR => let? r := cell_put r p x in Some (Eor l r)
          end
      | Eand l r =>
          match d with
          | DL => let? l := cell_put l p x in Some (Eand l r)
          | DR => let? r := cell_put r p x in Some (Eand l r)
          end
      | _ => None
      end
  end.

Definition is_binop (t : binop) (e : expr) : bool :=
  bool_decide (binop_of e = Some t).

Section Duplicates.
Context {T : SymTab}.

(** ** [expr_eliminate_dups1], [expr_eliminate_dups2], [expr_eliminate_dups] *)

(** [p1] and [p2] are the cells [ep1] and [ep2] of the tree [root]; the
    result is the rewritten root and the new [trans_count]. *)
Fixpoint dups1_f (n : nat) (t : binop) (root : expr) (p1 p2 : list dir) (tc : nat)
    : option (expr * nat) :=
  match n with
  | O => None
  | S n =>
      let? e1 := cell_get root p1 in
      let? e2 := cell_get root p2 in
      if is_binop t e1 then
        let? (root, tc) := dups1_f n t root (p1 ++ [DL]) p2 tc in
        dups1_f n t root (p1 ++ [DR]) p2 tc
      else if is_binop t e2 then
        let? (root, tc) := dups1_f n t root p1 (p2 ++ [DL]) tc in
        dups1_f n t root p1 (p2 ++ [DR]) tc
      else if bool_decide (p1 = p2) then Some (root, tc)
      else
        let? (root, tc) :=
          match binop_of e1 with
          | Some b => dups1_f n b root p1 p1 tc
          | None => Some (root, tc)
          end in
        let? e1 := cell_get root p1 in
        let? e2 := cell_get root p2 in
        let? tmp := match t with B_OR => expr_join_or e1 e2 | B_AND => expr_join_and e1 e2 end in
        match tmp with
        | None => Some (root, tc)
        | Some tmp =>
            let? root := cell_put root p1 (expr_alloc_symbol (neutral t)) in
            let? root := cell_put root p2 tmp in
            Some (root, S tc)
        end
  end.

(** What [expr_eliminate_dups2] does with an operand [e1] of the other chain
    type [b], next to [e2]: the constant to replace it with, if any. *)
Definition dups2_leaf (b : binop) (e1 e2 : expr) : option (option expr) :=
  let? c1 := expr_copy e1 in
  let? tmp1 := expr_transform (expr_alloc_one c1) in
  let? tmp2 := expr_copy e2 in
  match b with
  | B_OR =>
      let? (_, tmp1, _) := expr_extract_eq_and tmp1 tmp2 in
      Some (if expr_is_yes tmp1 then Some (expr_alloc_symbol symbol_no) else None)
  | B_AND =>
      let? (_, tmp1, _) := expr_extract_eq_or tmp1 tmp2 in
      Some (if expr_is_no tmp1 then Some (expr_alloc_symbol symbol_yes) else None)
  end.

(** There is no [return] after the walk over the operands of [e2]: the code
    goes on and compares [e1] with the whole of [e2]. *)
Fixpoint dups2_f (n : nat) (t : binop) (root : expr) (p1 p2 : list dir) (tc : nat)
    : option (expr * nat) :=
  match n with
  | O => None
  | S n =>
      let? e1 := cell_get root p1 in
      let? e2 := cell_get root p2 in
      if is_binop t e1 then
        let? (root, tc) := dups2_f n t root (p1 ++ [DL]) p2 tc in
        dups2_f n t root (p1 ++ [DR]) p2 tc
      else
        let? (root, tc) :=
          if is_binop t e2 then
            let? (root, tc) := dups2_f n t root p1 (p2 ++ [DL]) tc in
            dups2_f n t root p1 (p2 ++ [DR]) tc
          else Some (root, tc) in
        if bool_decide (p1 = p2) then Some (root, tc)
        else
          let? e1 := cell_get root p1 in
          match binop_of e1 with
          | None => Some (root, tc)
          | Some b =>
              let? (root, tc) := dups2_f n b root p1 p1 tc in
              let? e1 := cell_get root p1 in
              let? e2 := cell_get root p2 in
              let? x := dups2_leaf b e1 e2 in
              match x with
              | None => Some (root, tc)
              | Some x => let? root := cell_put root p1 x in Some (root, S tc)
              end
          end
  end.

(** A depth that is enough for one pass over a tree of this size. *)
Definition dups_fuel (e : expr) : nat := (expr_size e + 1) * (2 * expr_size e + 2).

(** One turn of the [while (1)] loop: the tree and [trans_count] after the
    two passes. *)
Definition dups_pass (e : expr) : option (expr * nat) :=
  match binop_of e with
  | Some t =>
      let? (e, tc) := dups1_f (dups_fuel e) t e [] [] 0 in
      dups2_f (dups_fuel e) t e [] [] tc
  | None => Some (e, 0)
  end.

Fixpoint dups_loop (n : nat) (e : expr) : option expr :=
  match n with
  | O => None
  | S n =>
      let? (e, tc) := dups_pass e in
      if decide (tc = 0) then Some e else dups_loop n (expr_eliminate_yn e)
  end.

(** [expr_eliminate_dups] of a non-NULL tree. *)
Definition expr_eliminate_dups (e : expr) : option expr := dups_loop (S (expr_size e)) e.
End Duplicates.

(** ** Dependency tests *)

Fixpoint expr_contains_symbol (dep : expr) (sym : sid) : bool :=
  match dep with
  | Eand l r | Eor l r => expr_contains_symbol l sym || expr_contains_symbol r sym
  | Esymbol s => bool_decide (s = sym)
  | Eequal l r | Eunequal l r => bool_decide (l = sym) || bool_decide (r = sym)
  | Enot l => expr_contains_symbol l sym
  | Echoice _ _ | Erange _ _ => false
  end.

Fixpoint expr_depends_symbol (dep : expr) (sym : sid) : bool :=
  match dep with
  | Eand l r => expr_depends_symbol l sym || expr_depends_symbol r sym
  | Esymbol s => bool_decide (s = sym)
  | Eequal l r =>
      bool_decide (l = sym) && (bool_decide (r = symbol_yes) || bool_decide (r = symbol_mod))
  | Eunequal l r => bool_decide (l = sym) && bool_decide (r = symbol_no)
  | _ => false
  end.

(** ** Comparing an expression with a constant: [expr_trans_compare] *)

(** [E_EQUAL] or [E_UNEQUAL]. *)
Inductive eqop : Set := Q_EQUAL | Q_UNEQUAL.
Definition eqop_flip (t : eqop) : eqop :=
  match t with Q_EQUAL => Q_UNEQUAL | Q_UNEQUAL => Q_EQUAL end.

(** [if (type == E_UNEQUAL) e = expr_alloc_one(E_NOT, e);] *)
Definition negate_if (t : eqop) (e : expr) : expr :=
  match t with Q_EQUAL => e | Q_UNEQUAL => expr_alloc_one e end.

(** [expr_trans_compare] of a non-NULL tree: [None] is NULL. *)
Fixpoint trans_compare (e : expr) (t : eqop) (sym : sid) : option expr :=
  match e with
  | Eand l r =>
      let? e1 := trans_compare l Q_EQUAL sym in
      let? e2 := trans_compare r Q_EQUAL sym in
      Some (negate_if t (if decide (sym = symbol_yes) then expr_alloc_two B_AND e1 e2
                         else if decide (sym = symbol_no) then expr_alloc_two B_OR e1 e2
                         else e))
  | Eor l r =>
      let? e1 := trans_compare l Q_EQUAL sym in
      let? e2 := trans_compare r Q_EQUAL sym in
      Some (negate_if t (if decide (sym = symbol_yes) then expr_alloc_two B_OR e1 e2
                         else if decide (sym = symbol_no) then expr_alloc_two B_AND e1 e2
                         else e))
  | Enot l => trans_compare l (eqop_flip t) sym
  | Eunequal _ _ | Eequal _ _ =>
      match t with
      | Q_EQUAL =>
          if decide (sym = symbol_yes) then expr_copy e
          else if decide (sym = symbol_mod) then Some (expr_alloc_symbol symbol_no)
          else if decide (sym = symbol_no) then
            let? c := expr_copy e in Some (expr_alloc_one c)
          else None
      | Q_UNEQUAL =>
          if decide (sym = symbol_yes) then
            let? c := expr_copy e in Some (expr_alloc_one c)
          else if decide (sym = symbol_mod) then Some (expr_alloc_symbol symbol_yes)
          else if decide (sym = symbol_no) then expr_copy e
          else None
      end
  | Esymbol s =>
      Some (match t with
            | Q_EQUAL => expr_alloc_comp C_EQUAL s sym
            | Q_UNEQUAL => expr_alloc_comp C_UNEQUAL s sym
            end)
  | Echoice _ _ | Erange _ _ => None
  end.

Definition expr_trans_compare (e : option expr) (t : eqop) (sym : sid) : option expr :=
  match e with
  | None => Some (negate_if t (expr_alloc_symbol sym))
  | Some e => trans_compare e t sym
  end.

(** ** Printing *)

(** The switch of [expr_compare_type] falls through from one case to the next. *)
Definition expr_compare_type (t1 t2 : expr_type) : Z :=
  let from_choice := (if decide (t2 = E_NONE) then 1 else (-1))%Z in
  let from_or := (if decide (t2 = E_CHOICE) then 1 else from_choice)%Z in
  let from_and := (if decide (t2 = E_OR) then 1 else from_or)%Z in
  let from_not := (if decide (t2 = E_AND) then 1 else from_and)%Z in
  let from_equal := (if decide (t2 = E_NOT) then 1 else from_not)%Z in
  (if decide (t1 = t2) then 0
   else match t1 with
        | E_EQUAL | E_UNEQUAL => from_equal
        | E_NOT => from_not
        | E_AND => from_and
        | E_OR => from_or
        | E_CHOICE => from_choice
        | _ => -1
        end)%Z.

Section PrintAndValue.
Context {T : SymTab}.

(** The concatenation of the strings passed to [fn]; [None] when a name that
    is NULL is passed. *)
Fixpoint expr_print (e : expr) (prevtoken : expr_type) : option string :=
  let? body :=
    match e with
    | Esymbol s => Some (match st_name s with Some nm => nm | None => "<choice>"%string end)
    | Enot l => let? s := expr_print l E_NOT in Some ("!" +:+ s)
    | Eequal l r => let? a := st_name l in let? b := st_name r in Some (a +:+ "=" +:+ b)
    | Eunequal l r => let? a := st_name l in let? b := st_name r in Some (a +:+ "!=" +:+ b)
    | Eor l r =>
        let? a := expr_print l E_OR in
        let? b := expr_print r E_OR in Some (a +:+ " || " +:+ b)
    | Eand l r =>
        let? a := expr_print l E_AND in
        let? b := expr_print r E_AND in Some (a +:+ " && " +:+ b)
    | Echoice l r =>
        let? a := st_name r in
        match l with
        | Some l => let? b := expr_print l E_CHOICE in Some (a +:+ " ^ " +:+ b)
        | None => Some a
        end
    | Erange l r =>
        let? a := st_name l in let? b := st_name r in
        Some ("[" +:+ a +:+ " " +:+ b +:+ "]")
    end in
  if (expr_compare_type prevtoken (etype e) >? 0)%Z
  then Some ("(" +:+ body +:+ ")") else Some body.

(** [expr_fprint] and [expr_gstr_print]: NULL prints as [y]. *)
Definition expr_fprint (e : option expr) : option string :=
  match e with None => Some "y"%string | Some e => expr_print e E_NONE end.

(** ** The value of an expression over a calculated table *)

(** [expr_calc_value] when every symbol of the expression is calculated. *)
Fixpoint expr_value (e : expr) : tristate :=
  match e with
  | Esymbol s => st_tri s
  | Eand l r => tri_and (expr_value l) (expr_value r)
  | Eor l r => tri_or (expr_value l) (expr_value r)
  | Enot l => tri_not (expr_value l)
  | Eequal l r => if decide (st_str l = st_str r) then Yes else No
  | Eunequal l r => if decide (st_str l = st_str r) then No else Yes
  | Echoice _ _ | Erange _ _ => No
  end.

Definition expr_value_null (e : option expr) : tristate :=
  match e with None => Yes | Some e => expr_value e end.
End PrintAndValue.

(** ** Well-formedness *)

(** Dependency expressions: no choice list and no range inside. *)
Fixpoint wf_expr (e : expr) : bool :=
  match e with
  | Eor l r | Eand l r => wf_expr l && wf_expr r
  | Enot l => wf_expr l
  | Eequal _ _ | Eunequal _ _ | Esymbol _ => true
  | Echoice _ _ | Erange _ _ => false
  end.
