(* ===== verification/KExprFacts.v ===== *)
(** * Correctness of the Kconfig expression code

    Copying, constant folding, the equality test, the joining of operands,
    negation normal form and comparison with constants, against the value of
    an expression over a calculated symbol table. *)
From S2P Require Import Prelude KData KExpr.
Open Scope pr30_scope.

(** ** Copying and freeing *)

Lemma expr_copy_wf e : wf_expr e = true → expr_copy e = Some e.
Proof.
  induction e as [l IHl r IHr|l IHl r IHr|l IHl| | | | |]; simpl; intros H; try done.
  - apply andb_true_iff in H as [Hl Hr]. by rewrite (IHl Hl), (IHr Hr).
  - apply andb_true_iff in H as [Hl Hr]. by rewrite (IHl Hl), (IHr Hr).
  - by rewrite (IHl H).
Qed.

Lemma expr_copy_id e e' : expr_copy e = Some e' → e' = e.
Proof.
  revert e'. induction e; simpl; intros e' H; simplify_eq/=; try done.
  - opt_inv H. f_equal; eauto.
  - opt_inv H. f_equal; eauto.
  - opt_inv H. f_equal; eauto.
Qed.

Fixpoint not_nodes (e : expr) : nat :=
  match e with
  | Eor l r | Eand l r => not_nodes l + not_nodes r
  | Enot l => S (not_nodes l)
  | _ => 0
  end.

Lemma expr_free_leak e : expr_free e + not_nodes e = expr_size e.
Proof. induction e; simpl; lia. Qed.

(** ** Values *)

Definition tri_op (t : binop) : tristate → tristate → tristate :=
  match t with B_OR => tri_or | B_AND => tri_and end.

Lemma tri_op_assoc t a b c : tri_op t a (tri_op t b c) = tri_op t (tri_op t a b) c.
Proof. by destruct t, a, b, c. Qed.
Lemma tri_op_comm t a b : tri_op t a b = tri_op t b a.
Proof. by destruct t, a, b. Qed.
Lemma tri_op_idemp t a : tri_op t a a = a.
Proof. by destruct t, a. Qed.

Lemma wf_alloc_two t l r : wf_expr (expr_alloc_two t l r) = wf_expr l && wf_expr r.
Proof. by destruct t. Qed.
Lemma size_alloc_two t l r :
  expr_size (expr_alloc_two t l r) = S (expr_size l + expr_size r).
Proof. by destruct t. Qed.
Lemma size_pos e : 0 < expr_size e.
Proof. destruct e; simpl; lia. Qed.

Lemma binop_view_Some t e l r : binop_view t e = Some (l, r) → e = expr_alloc_two t l r.
Proof. by destruct t, e; simpl; intros; simplify_eq. Qed.
Lemma binop_view_alloc t l r : binop_view t (expr_alloc_two t l r) = Some (l, r).
Proof. by destruct t. Qed.
Lemma binop_view_of t e : is_Some (binop_view t e) ↔ binop_of e = Some t.
Proof. destruct t, e; simpl; (split; [intros [? ?]; done | intros ?; simplify_eq; eauto]). Qed.
Lemma binop_view_None t e : binop_view t e = None ↔ binop_of e ≠ Some t.
Proof. by destruct t, e. Qed.
Lemma binop_of_Some t e : binop_of e = Some t → ∃ l r, e = expr_alloc_two t l r.
Proof. destruct e; simpl; intros; simplify_eq; eauto. Qed.
Lemma binop_of_alloc t l r : binop_of (expr_alloc_two t l r) = Some t.
Proof. by destruct t. Qed.
Lemma etype_binop t e : binop_of e = Some t → etype e = match t with B_OR => E_OR | B_AND => E_AND end.
Proof. by destruct e; simpl; intros; simplify_eq. Qed.
Lemma etype_eq_binop t e1 e2 :
  binop_of e1 = Some t → etype e1 = etype e2 → binop_of e2 = Some t.
Proof. destruct e1, e2; simpl; intros; simplify_eq; done. Qed.

Lemma binop_of_size t e : binop_of e = Some t → 3 ≤ expr_size e.
Proof.
  intros (l & r & ->)%binop_of_Some. rewrite size_alloc_two.
  pose proof (size_pos l). pose proof (size_pos r). lia.
Qed.

Create Rewrite HintDb kexpr.
#[export] Hint Rewrite wf_alloc_two size_alloc_two binop_view_alloc binop_of_alloc : kexpr.

Section Values.
Context {T : SymTab} {OK : SymTabOk T}.

Lemma value_alloc_two t l r :
  expr_value (expr_alloc_two t l r) = tri_op t (expr_value l) (expr_value r).
Proof. by destruct t. Qed.

Lemma value_neutral t e :
  tri_op t (expr_value (Esymbol (neutral t))) (expr_value e) = expr_value e.
Proof.
  destruct t; simpl; rewrite ?st_no_tri, ?st_yes_tri; by autorewrite with tri.
Qed.

Lemma value_yes : expr_value (Esymbol symbol_yes) = Yes.
Proof. apply st_yes_tri. Qed.
Lemma value_no : expr_value (Esymbol symbol_no) = No.
Proof. apply st_no_tri. Qed.

(** ** Constant folding *)

(** The results of folding one AND or OR node whose operands are folded. *)
Lemma eliminate_yn_value e : expr_value (expr_eliminate_yn e) = expr_value e.
Proof.
  induction e as [l IHl r IHr|l IHl r IHr| | | | | |]; simpl; try done;
    rewrite <-IHl, <-IHr;
    set (l' := expr_eliminate_yn l) in *; set (r' := expr_eliminate_yn r) in *;
    repeat case_match; subst; simpl in *;
    rewrite ?st_no_tri, ?st_yes_tri; by autorewrite with tri.
Qed.

Lemma eliminate_yn_size e : expr_size (expr_eliminate_yn e) ≤ expr_size e.
Proof.
  induction e as [l IHl r IHr|l IHl r IHr| | | | | |]; simpl; try done;
    repeat case_match; simpl in *; lia.
Qed.

Lemma eliminate_yn_wf e : wf_expr e = true → wf_expr (expr_eliminate_yn e) = true.
Proof.
  induction e as [l IHl r IHr|l IHl r IHr| | | | | |]; simpl; try done;
    rewrite andb_true_iff; intros [Hl Hr]; specialize (IHl Hl); specialize (IHr Hr);
    repeat case_match; simpl in *; rewrite ?IHl, ?IHr; done.
Qed.
End Values.
