(* ===== verification/KExprEq.v ===== *)
(** * The equality test of Kconfig expressions

    [expr_eq] compares AND and OR chains by removing, from copies of both, the
    operands they have in common ([expr_eliminate_eq]).  It always answers on
    dependency expressions, and expressions it calls equal have equal values
    over every symbol table. *)
From S2P Require Import Prelude KData KExpr KExprFacts.
Open Scope pr30_scope.

Section Equality.
Context {T : SymTab}.

(** ** Shape *)

(** Removing operands keeps chains chains, does not grow a tree and keeps
    dependency expressions dependency expressions. *)
Lemma elim_eq_shape n t e1 e2 tc e1' e2' tc' :
  elim_eq_f n t e1 e2 tc = Some (e1', e2', tc') →
  (binop_of e1 = Some t → binop_of e1' = Some t) ∧
  (binop_of e2 = Some t → binop_of e2' = Some t) ∧
  expr_size e1' ≤ expr_size e1 ∧ expr_size e2' ≤ expr_size e2 ∧
  (wf_expr e1 = true → wf_expr e1' = true) ∧ (wf_expr e2 = true → wf_expr e2' = true) ∧
  tc ≤ tc'.
Proof.
  revert e1 e2 tc e1' e2' tc'.
  induction n as [|n IH]; simpl; intros e1 e2 tc e1' e2' tc' H; [done|].
  destruct (binop_view t e1) as [[l r]|] eqn:V1.
  { apply binop_view_Some in V1 as ->. opt_inv H.
    apply IH in E as (A1 & A2 & A3 & A4 & A5 & A6 & A7).
    apply IH in E0 as (B1 & B2 & B3 & B4 & B5 & B6 & B7).
    autorewrite with kexpr. rewrite !andb_true_iff. conj_solver. }
  destruct (binop_view t e2) as [[l r]|] eqn:V2.
  { apply binop_view_Some in V2 as ->. opt_inv H.
    apply IH in E as (A1 & A2 & A3 & A4 & A5 & A6 & A7).
    apply IH in E0 as (B1 & B2 & B3 & B4 & B5 & B6 & B7).
    autorewrite with kexpr. rewrite !andb_true_iff. conj_solver. }
  apply binop_view_None in V1, V2.
  pose proof (size_pos e1); pose proof (size_pos e2).
  case_match; [simplify_eq; conj_solver|].
  opt_inv H. destruct b; simpl in *; simplify_eq/=; conj_solver.
Qed.

(** ** The test always answers *)

(** The first cell is taken apart. *)
Lemma elim_descend n :
  (∀ t e1 e2 tc, wf_expr e1 = true → wf_expr e2 = true →
     4 * (expr_size e1 + expr_size e2) ≤ n + 6 → is_Some (elim_eq_f n t e1 e2 tc)) →
  ∀ t l r e2 tc, wf_expr (expr_alloc_two t l r) = true → wf_expr e2 = true →
    4 * (expr_size (expr_alloc_two t l r) + expr_size e2) ≤ n + 10 →
    is_Some (elim_eq_f (S n) t (expr_alloc_two t l r) e2 tc).
Proof.
  intros IHe t l r e2 tc. autorewrite with kexpr. rewrite andb_true_iff. intros [Hl Hr] H2 Hs.
  simpl. autorewrite with kexpr.
  destruct (IHe t l e2 tc) as [[[l' e2'] tc'] E]; [done..|lia|].
  rewrite E. apply elim_eq_shape in E as (_ & _ & A3 & A4 & A5 & A6 & _).
  destruct (IHe t r e2' tc') as [[[r' e2''] tc''] E']; [auto..|lia|].
  rewrite E'. eauto.
Qed.

Lemma eq_total_mutual n :
  (∀ t e1 e2 tc, wf_expr e1 = true → wf_expr e2 = true →
     4 * (expr_size e1 + expr_size e2) ≤ n + 6 → is_Some (elim_eq_f n t e1 e2 tc)) ∧
  (∀ t e1 e2 tc, wf_expr e1 = true → wf_expr e2 = true → binop_of e1 = Some t →
     4 * (expr_size e1 + expr_size e2) ≤ n + 9 → is_Some (elim_eq_f n t e1 e2 tc)) ∧
  (∀ e1 e2 tc, wf_expr e1 = true → wf_expr e2 = true →
     4 * (expr_size e1 + expr_size e2) ≤ n + 5 → is_Some (eliminate_eq_f n e1 e2 tc)) ∧
  (∀ t e1 e2 tc, wf_expr e1 = true → wf_expr e2 = true →
     binop_of e1 = Some t → binop_of e2 = Some t →
     4 * (expr_size e1 + expr_size e2) ≤ n + 8 → is_Some (eliminate_eq_f n e1 e2 tc)) ∧
  (∀ e1 e2, wf_expr e1 = true → wf_expr e2 = true →
     4 * (expr_size e1 + expr_size e2) ≤ n + 7 → is_Some (expr_eq_f n e1 e2)).
Proof.
  induction n as [|n (IHe & IHb & IHt & IHtb & IHq)].
  { split_and!; intros; pose proof (size_pos e1); pose proof (size_pos e2); try lia.
    all: pose proof (binop_of_size t e1); intuition lia. }
  pose proof (elim_descend n IHe) as Hdesc.
  split_and!.
  - intros t e1 e2 tc H1 H2 Hs.
    destruct (binop_view t e1) as [[l r]|] eqn:V1.
    { apply binop_view_Some in V1 as ->. apply Hdesc; [done..|lia]. }
    simpl. rewrite V1. destruct (binop_view t e2) as [[l r]|] eqn:V2.
    + apply binop_view_Some in V2 as ->. autorewrite with kexpr in *.
      apply andb_true_iff in H2 as [Hl Hr].
      destruct (IHe t e1 l tc) as [[[e1' l'] tc'] E]; [done..|lia|].
      rewrite E. apply elim_eq_shape in E as (_ & _ & A3 & A4 & A5 & A6 & _).
      destruct (IHe t e1' r tc') as [[[e1'' r'] tc''] E']; [auto..|lia|].
      rewrite E'. eauto.
    + case_match; [eauto|]. destruct (IHq e1 e2) as [[] ->]; simpl; eauto; lia.
  - intros t e1 e2 tc H1 H2 Hb Hs. apply binop_of_Some in Hb as (l & r & ->).
    apply Hdesc; [done..|lia].
  - intros e1 e2 tc H1 H2 Hs. simpl.
    assert (∃ e1' e2' tc', match binop_of e1 with
        | Some t => elim_eq_f n t e1 e2 tc | None => Some (e1, e2, tc) end
        = Some (e1', e2', tc') ∧ wf_expr e1' = true ∧ wf_expr e2' = true ∧
        expr_size e1' ≤ expr_size e1 ∧ expr_size e2' ≤ expr_size e2)
      as (e1' & e2' & tc' & -> & W1 & W2 & S1 & S2).
    { destruct (binop_of e1) as [t|]; [|do 3 eexists; conj_solver].
      destruct (IHe t e1 e2 tc) as [[[e1' e2'] tc'] E]; [done..|lia|].
      pose proof (elim_eq_shape _ _ _ _ _ _ _ _ E). do 3 eexists. conj_solver. }
    case_decide; [eauto|]. destruct (binop_of e2') as [t|]; [|eauto].
    destruct (IHe t e1' e2' tc') as [[[? ?] ?] ->]; [done..|lia|eauto].
  - intros t e1 e2 tc H1 H2 B1 B2 Hs. simpl. rewrite B1.
    destruct (IHb t e1 e2 tc) as [[[e1' e2'] tc'] E]; [done..|lia|].
    rewrite E. apply elim_eq_shape in E as (A1 & A2 & _).
    rewrite decide_True by (rewrite (etype_binop t e1'), (etype_binop t e2') by auto; done).
    eauto.
  - intros e1 e2 H1 H2 Hs. simpl.
    destruct e1, e2; eauto.
    + rewrite !expr_copy_wf by done.
      destruct (IHtb B_OR (Eor e1_1 e1_2) (Eor e2_1 e2_2) 0) as [[[? ?] ?] ->]; eauto; lia.
    + rewrite !expr_copy_wf by done.
      destruct (IHtb B_AND (Eand e1_1 e1_2) (Eand e2_1 e2_2) 0) as [[[? ?] ?] ->]; eauto; lia.
    + simpl in *. apply IHq; try done; lia.
Qed.

Lemma expr_eq_total e1 e2 :
  wf_expr e1 = true → wf_expr e2 = true → is_Some (expr_eq e1 e2).
Proof.
  intros H1 H2. apply eq_total_mutual; [done..|]. unfold eq_fuel. lia.
Qed.

Lemma eliminate_eq_total e1 e2 tc :
  wf_expr e1 = true → wf_expr e2 = true →
  is_Some (expr_eliminate_eq (Some e1) (Some e2) tc).
Proof.
  intros H1 H2. unfold expr_eliminate_eq.
  destruct (proj1 (proj2 (proj2 (eq_total_mutual (2 + eq_fuel e1 e2)))) e1 e2 tc)
    as [[[? ?] ?] ->]; [done..| |eauto]. unfold eq_fuel. lia.
Qed.

(** ** Equal expressions have equal values *)

Context {OK : SymTabOk T}.

(** Two trees after a common part [c] was removed from both. *)
Definition shares (t : binop) (e1 e2 e1' e2' : expr) : Prop :=
  ∃ c, expr_value e1 = tri_op t c (expr_value e1') ∧
       expr_value e2 = tri_op t c (expr_value e2').

Lemma shares_refl t e1 e2 : shares t e1 e2 e1 e2.
Proof.
  exists (expr_value (Esymbol (neutral t))). by rewrite !value_neutral.
Qed.

Lemma shares_neutral t e1 e2 :
  expr_value e1 = expr_value e2 →
  shares t e1 e2 (Esymbol (neutral t)) (Esymbol (neutral t)).
Proof.
  intros E. exists (expr_value e1). rewrite tri_op_comm, value_neutral. auto.
Qed.

Lemma shares_sym t e1 e2 e1' e2' : shares t e1 e2 e1' e2' → shares t e2 e1 e2' e1'.
Proof. intros [c [? ?]]. by exists c. Qed.

(** Removing from the two operands of a chain one after the other. *)
Lemma shares_chain t l r e l' r' e' e'' :
  shares t l e l' e' → shares t r e' r' e'' →
  shares t (expr_alloc_two t l r) e (expr_alloc_two t l' r') e''.
Proof.
  intros [c [Hl He]] [d [Hr He']]. exists (tri_op t c d).
  rewrite !value_alloc_two, Hl, Hr, He, He'.
  split; destruct t, c, d, (expr_value l'), (expr_value r'), (expr_value e''); done.
Qed.

Lemma shares_yn t e1 e2 e1' e2' :
  shares t e1 e2 e1' e2' → shares t e1 e2 (expr_eliminate_yn e1') (expr_eliminate_yn e2').
Proof. unfold shares. by setoid_rewrite eliminate_yn_value. Qed.

Lemma eq_sound_mutual n :
  (∀ t e1 e2 tc e1' e2' tc',
     elim_eq_f n t e1 e2 tc = Some (e1', e2', tc') → shares t e1 e2 e1' e2') ∧
  (∀ t e1 e2 tc e1' e2' tc',
     eliminate_eq_f n e1 e2 tc = Some (e1', e2', tc') →
     binop_of e1 = Some t → binop_of e2 = Some t → shares t e1 e2 e1' e2') ∧
  (∀ e1 e2, expr_eq_f n e1 e2 = Some true → expr_value e1 = expr_value e2).
Proof.
  induction n as [|n (IHe & IHt & IHq)]; [done|]. split_and!.
  - simpl. intros t e1 e2 tc e1' e2' tc' H.
    destruct (binop_view t e1) as [[l r]|] eqn:V1.
    { apply binop_view_Some in V1 as ->. opt_inv H. eauto using shares_chain. }
    destruct (binop_view t e2) as [[l r]|] eqn:V2.
    { apply binop_view_Some in V2 as ->. opt_inv H.
      apply shares_sym. eapply shares_chain; apply shares_sym; eauto. }
    case_match; [simplify_eq; apply shares_refl|].
    opt_inv H. destruct b; simplify_eq/=; [|apply shares_refl].
    apply shares_neutral; eauto.
  - simpl. intros t e1 e2 tc e1' e2' tc' H B1 B2. rewrite B1 in H.
    opt_inv H. pose proof (elim_eq_shape _ _ _ _ _ _ _ _ E) as (A1 & A2 & _).
    rewrite decide_True in E0 by (rewrite (etype_binop t e), (etype_binop t e0) by auto; done).
    simplify_eq. apply shares_yn; eauto.
  - intros e1 e2 H. simpl in H.
    assert (Hc : ∀ t a b c1 c2 m, expr_copy e1 = Some a → expr_copy e2 = Some b →
      binop_of e1 = Some t → binop_of e2 = Some t →
      eliminate_eq_f n a b 0 = Some (c1, c2, m) →
      match c1, c2 with Esymbol s1, Esymbol s2 => bool_decide (s1 = s2) | _, _ => false end = true →
      expr_value e1 = expr_value e2).
    { intros t a b c1 c2 m Ha Hb B1 B2 Ht Hs. apply expr_copy_id in Ha as ->, Hb as ->.
      destruct (IHt t _ _ _ _ _ _ Ht B1 B2) as (c & -> & ->).
      destruct c1, c2; try done. by apply bool_decide_eq_true in Hs as ->. }
    destruct e1, e2; try done.
    + opt_inv H. by eapply (Hc B_OR).
    + opt_inv H. by eapply (Hc B_AND).
    + simpl. f_equal. eauto.
    + simplify_eq/=. rewrite andb_true_iff, !bool_decide_eq_true in *. by destruct_and!; subst.
    + simplify_eq/=. rewrite andb_true_iff, !bool_decide_eq_true in *. by destruct_and!; subst.
    + simplify_eq/=. by apply bool_decide_eq_true in H as ->.
Qed.

Lemma expr_eq_sound e1 e2 :
  expr_eq e1 e2 = Some true → expr_value e1 = expr_value e2.
Proof. apply eq_sound_mutual. Qed.
End Equality.
