(* ===== verification/KExprSimp.v ===== *)
(** * The expression simplifier keeps values

    Joining two operands, negation normal form, the boolean shortcut and the
    comparison with a constant. *)
From S2P Require Import Prelude KData KExpr KExprFacts KExprEq.
Open Scope pr30_scope.

(** ** The shapes the joining rules test *)

Lemma is_equal_to_inv c e : is_equal_to c e = true → ∃ s, e = Eequal s c.
Proof. destruct e; simpl; try done. intros ->%bool_decide_eq_true. eauto. Qed.
Lemma is_unequal_to_inv c e : is_unequal_to c e = true → ∃ s, e = Eunequal s c.
Proof. destruct e; simpl; try done. intros ->%bool_decide_eq_true. eauto. Qed.
Lemma is_symbol_inv e : is_symbol e = true → ∃ s, e = Esymbol s.
Proof. destruct e; simpl; try done. eauto. Qed.
Lemma is_not_symbol_inv e : is_not_symbol e = true → ∃ s, e = Enot (Esymbol s).
Proof. destruct e; simpl; try done. destruct e; try done. eauto. Qed.

(** Turn the boolean conditions of the joining rules into the shapes they test. *)
Ltac join_inv :=
  repeat match goal with
  | H : _ && _ = true |- _ => apply andb_true_iff in H as [??]
  | H : _ || _ = true |- _ => apply orb_true_iff in H as [?|?]
  | H : is_equal_to _ _ = true |- _ => apply is_equal_to_inv in H as [? ->]
  | H : is_unequal_to _ _ = true |- _ => apply is_unequal_to_inv in H as [? ->]
  | H : is_symbol _ = true |- _ => apply is_symbol_inv in H as [? ->]
  | H : is_not_symbol _ = true |- _ => apply is_not_symbol_inv in H as [? ->]
  | H : bool_decide _ = true |- _ => apply bool_decide_eq_true in H
  | H : negb (bool_decide _) = false |- _ => apply negb_false_iff in H
  end; simplify_eq/=.

Section Simplify.
Context {T : SymTab} {OK : SymTabOk T}.

(** ** Symbols of boolean and tristate type *)

Definition is_logic (s : sid) : Prop := st_type s = S_BOOLEAN ∨ st_type s = S_TRISTATE.

(** The value of a comparison of a boolean or tristate symbol with [y], [m]
    or [n] is read off its tristate value. *)
Lemma cmp_const s c v :
  is_logic s → st_str c = tri_string v →
  (st_str s = st_str c ↔ st_tri s = v).
Proof.
  intros Hs Hc. rewrite (st_tri_str s Hs), Hc. split; [apply tri_string_inj|congruence].
Qed.

Lemma str_yes : st_str symbol_yes = tri_string Yes.
Proof. apply st_yes_str. Qed.
Lemma str_mod : st_str symbol_mod = tri_string Mod.
Proof. apply st_mod_str. Qed.
Lemma str_no : st_str symbol_no = tri_string No.
Proof. apply st_no_str. Qed.

Lemma value_equal s c v :
  is_logic s → st_str c = tri_string v →
  expr_value (Eequal s c) = if decide (st_tri s = v) then Yes else No.
Proof.
  intros Hs Hc. simpl. pose proof (cmp_const s c v Hs Hc).
  do 2 case_decide; tauto.
Qed.
Lemma value_unequal s c v :
  is_logic s → st_str c = tri_string v →
  expr_value (Eunequal s c) = if decide (st_tri s = v) then No else Yes.
Proof.
  intros Hs Hc. simpl. pose proof (cmp_const s c v Hs Hc).
  do 2 case_decide; tauto.
Qed.

(** Decide a goal about a logic symbol by its three possible values. *)
Ltac logic_cases :=
  match goal with Hs : is_logic ?s |- _ =>
  simpl; rewrite ?(st_tri_str s Hs), ?st_yes_str, ?st_mod_str, ?st_no_str,
    ?st_yes_tri, ?st_mod_tri, ?st_no_tri;
  pose proof (st_bool_not_mod s) as Hbm;
  destruct (st_tri s); first [reflexivity | exfalso; apply Hbm; [assumption|reflexivity]]
  end.

(** ** Joining operands *)

Lemma join_or_value e1 e2 e :
  expr_join_or e1 e2 = Some (Some e) →
  expr_value e = tri_or (expr_value e1) (expr_value e2).
Proof.
  unfold expr_join_or. intros H. opt_inv H. destruct b.
  { opt_inv H. apply expr_copy_id in E0 as ->. rewrite <-(expr_eq_sound _ _ E).
    by autorewrite with tri. }
  clear E.
  destruct (join_sym1 e1) as [s1|] eqn:J1; [|done].
  destruct (join_sym2 e2) as [s2|] eqn:J2; [|done].
  case_match eqn:C1; [done|]. case_match eqn:C2; [done|]. join_inv.
  assert (Hs : is_logic s2).
  { unfold is_logic. apply andb_false_iff in C2 as [C2|C2]; apply negb_false_iff in C2; join_inv; auto. }
  repeat (case_match; [join_inv; logic_cases|]); done.
Qed.

Lemma join_eq_neq_value s b c :
  has_flag (st_flags b) SYMBOL_CONST = true → has_flag (st_flags c) SYMBOL_CONST = true →
  expr_value (join_eq_neq s b c) = tri_and (expr_value (Eequal s b)) (expr_value (Eunequal s c)).
Proof.
  intros Hb Hc. unfold join_eq_neq. destruct (decide (b = c)) as [->|Hne].
  - rewrite bool_decide_eq_true_2 by done. simpl. rewrite st_no_tri. by case_decide.
  - rewrite bool_decide_eq_false_2 by done. simpl.
    destruct (decide (st_str s = st_str b)) as [E|]; [|by autorewrite with tri].
    rewrite decide_False; [done|]. intros E'. apply Hne, (st_const_inj b c Hb Hc). congruence.
Qed.

#[local] Arguments join_eq_neq : simpl never.

Lemma join_and_value e1 e2 e :
  expr_join_and e1 e2 = Some (Some e) →
  expr_value e = tri_and (expr_value e1) (expr_value e2).
Proof.
  unfold expr_join_and. intros H. opt_inv H. destruct b.
  { opt_inv H. apply expr_copy_id in E0 as ->. rewrite <-(expr_eq_sound _ _ E).
    by autorewrite with tri. }
  clear E.
  destruct (join_sym1 e1) as [s1|] eqn:J1; [|done].
  destruct (join_sym2 e2) as [s2|] eqn:J2; [|done].
  case_match eqn:C1; [done|]. case_match eqn:C2; [done|]. join_inv.
  assert (Hs : is_logic s2).
  { unfold is_logic. apply andb_false_iff in C2 as [C2|C2]; apply negb_false_iff in C2; join_inv; auto. }
  do 3 (case_match; [join_inv; logic_cases|]).
  case_match; [done|]. join_inv.
  match type of H with context [Some ?r] => remember r as rest eqn:Hrest end.
  assert (Hr : ∀ e, rest = Some e → expr_value e = tri_and (expr_value e1) (expr_value e2)).
  { intros e' ->. repeat (case_match; [join_inv; logic_cases|]); done. }
  destruct e1, e2; simplify_eq/=; try (by apply Hr);
    match type of H with context [if ?b then _ else _] => destruct b eqn:HF end;
    simplify_eq; try (by apply Hr); apply andb_true_iff in HF as [? ?];
    rewrite join_eq_neq_value by done; [done|apply tri_and_comm].
Qed.

(** ** Negation normal form *)

Lemma transform_equal_value l r : expr_value (transform_equal l r) = expr_value (Eequal l r).
Proof.
  unfold transform_equal. case_match eqn:B; [done|]. join_inv.
  assert (Hs : is_logic l) by (left; done).
  repeat (case_decide; [subst; logic_cases|]). done.
Qed.
Lemma transform_unequal_value l r :
  expr_value (transform_unequal l r) = expr_value (Eunequal l r).
Proof.
  unfold transform_unequal. case_match eqn:B; [done|]. join_inv.
  assert (Hs : is_logic l) by (left; done).
  repeat (case_decide; [subst; logic_cases|]). done.
Qed.

Lemma transform_value n e e' : transform_f n e = Some e' → expr_value e' = expr_value e.
Proof.
  revert e e'. induction n as [|n IH]; [done|]. intros e e' H. simpl in H.
  destruct e; simplify_eq/=.
  - opt_inv H. by rewrite (IH _ _ E), (IH _ _ E0).
  - opt_inv H. by rewrite (IH _ _ E), (IH _ _ E0).
  - opt_inv H. rewrite <-(IH _ _ E). destruct e0; simplify_eq/=; try done.
    + rewrite (IH _ _ H). simpl. by rewrite tri_not_or.
    + rewrite (IH _ _ H). simpl. by rewrite tri_not_and.
    + rewrite (IH _ _ H). by rewrite tri_not_involutive.
    + by destruct (decide _).
    + by destruct (decide _).
    + repeat case_decide; simplify_eq/=; rewrite ?st_yes_tri, ?st_mod_tri, ?st_no_tri; done.
  - apply transform_equal_value.
  - apply transform_unequal_value.
  - done.
  - done.
Qed.

Lemma transform_weight_le n e e' :
  transform_f n e = Some e' → transform_weight e' ≤ transform_weight e.
Proof.
  revert e e'. induction n as [|n IH]; [done|]. intros e e' H. simpl in H.
  destruct e; simplify_eq/=.
  - opt_inv H. apply IH in E, E0. lia.
  - opt_inv H. apply IH in E, E0. lia.
  - opt_inv H. apply IH in E. destruct e0; simplify_eq/=; try (apply IH in H; simpl in H); try lia.
    repeat case_decide; simplify_eq/=; lia.
  - unfold transform_equal. repeat case_match; simpl; lia.
  - unfold transform_unequal. repeat case_match; simpl; lia.
  - lia.
  - lia.
Qed.

Lemma transform_wf n e e' :
  transform_f n e = Some e' → wf_expr e = true → wf_expr e' = true.
Proof.
  revert e e'. induction n as [|n IH]; [done|]. intros e e' H W. simpl in H.
  destruct e; simplify_eq/=.
  - apply andb_true_iff in W as [W1 W2]. opt_inv H.
    by rewrite (IH _ _ E W1), (IH _ _ E0 W2).
  - apply andb_true_iff in W as [W1 W2]. opt_inv H.
    by rewrite (IH _ _ E W1), (IH _ _ E0 W2).
  - opt_inv H. apply IH in E; [|done]. destruct e0; simplify_eq/=; try done; eauto.
    by repeat case_decide; simplify_eq/=.
  - unfold transform_equal. by repeat case_match.
  - unfold transform_unequal. by repeat case_match.
  - done.
Qed.

Lemma transform_total n e :
  wf_expr e = true → transform_weight e ≤ n → is_Some (transform_f n e).
Proof.
  revert e. induction n as [|n IH]; intros e W Hn.
  { destruct e; simpl in Hn; try lia.
    exfalso. enough (0 < transform_weight e) by lia.
    clear. induction e; simpl; lia. }
  simpl. destruct e; simpl in W, Hn; try (by eauto).
  - apply andb_true_iff in W as [W1 W2].
    destruct (IH e1 W1 ltac:(lia)) as [? ->], (IH e2 W2 ltac:(lia)) as [? ->]; eauto.
  - apply andb_true_iff in W as [W1 W2].
    destruct (IH e1 W1 ltac:(lia)) as [? ->], (IH e2 W2 ltac:(lia)) as [? ->]; eauto.
  - assert (0 < transform_weight e) by (clear; induction e; simpl; lia).
    destruct (IH e) as [e' E]; [done|lia|]. rewrite E.
    pose proof (transform_weight_le _ _ _ E) as Hle. apply transform_wf in E; [|done].
    destruct e'; simpl in E, Hle; try (by eauto).
    + apply IH; [done|simpl; lia].
    + apply IH; [done|simpl; lia].
    + apply IH; [done|lia].
    + repeat case_decide; eauto.
Qed.

Definition is_ymn (s : sid) : bool :=
  bool_decide (s = symbol_yes) || bool_decide (s = symbol_mod) || bool_decide (s = symbol_no).

(** What [expr_transform] leaves: a negation only of a symbol other than [y],
    [m] and [n], and no comparison of a boolean symbol with one of these. *)
Fixpoint nnf (e : expr) : bool :=
  match e with
  | Eor l r | Eand l r => nnf l && nnf r
  | Enot (Esymbol s) => negb (is_ymn s)
  | Enot _ => false
  | Eequal l r | Eunequal l r => negb (bool_decide (st_type l = S_BOOLEAN) && is_ymn r)
  | _ => true
  end.

Lemma ymn_cases (s : sid) :
  is_ymn s = false → s ≠ symbol_yes ∧ s ≠ symbol_mod ∧ s ≠ symbol_no.
Proof. unfold is_ymn. rewrite !orb_false_iff, !bool_decide_eq_false. tauto. Qed.

Lemma ymn_false (s : sid) :
  s ≠ symbol_yes → s ≠ symbol_mod → s ≠ symbol_no → is_ymn s = false.
Proof. intros. unfold is_ymn. by rewrite !bool_decide_eq_false_2. Qed.

Lemma transform_nnf n e e' :
  transform_f n e = Some e' → wf_expr e = true → nnf e' = true.
Proof.
  revert e e'. induction n as [|n IH]; [done|]. intros e e' H W. simpl in H.
  destruct e; simplify_eq/=.
  - apply andb_true_iff in W as [W1 W2]. opt_inv H.
    by rewrite (IH _ _ E W1), (IH _ _ E0 W2).
  - apply andb_true_iff in W as [W1 W2]. opt_inv H.
    by rewrite (IH _ _ E W1), (IH _ _ E0 W2).
  - opt_inv H. pose proof (transform_wf _ _ _ E W) as W'. apply IH in E; [|done].
    destruct e0; simplify_eq/=; try done; eauto.
    repeat case_decide; simplify_eq/=; try done. by rewrite ymn_false.
  - unfold transform_equal. case_match eqn:B; simpl; [by apply negb_true_iff in B as ->|].
    repeat (case_decide; [subst; simpl; try done|]); simpl;
      rewrite ?ymn_false, ?andb_false_r by done; try done.
    join_inv. rewrite ymn_false; [done|intros ->..]; by rewrite (st_const_type _ st_yes_flags) in * ||
      by rewrite (st_const_type _ st_mod_flags) in * || by rewrite (st_const_type _ st_no_flags) in *.
  - unfold transform_unequal. case_match eqn:B; simpl; [by apply negb_true_iff in B as ->|].
    repeat (case_decide; [subst; simpl; try done|]); simpl;
      rewrite ?ymn_false, ?andb_false_r by done; try done.
    join_inv. rewrite ymn_false; [done|intros ->..]; by rewrite (st_const_type _ st_yes_flags) in * ||
      by rewrite (st_const_type _ st_mod_flags) in * || by rewrite (st_const_type _ st_no_flags) in *.
  - done.
Qed.

Lemma transform_nnf_id n e :
  nnf e = true → wf_expr e = true → transform_weight e ≤ n → transform_f n e = Some e.
Proof.
  revert e. induction n as [|n IH]; intros e N W Hn.
  { exfalso. enough (0 < transform_weight e) by lia. clear. induction e; simpl; lia. }
  destruct e; simpl in *; try done.
  - rewrite andb_true_iff in *. destruct_and!. rewrite !IH by (done || lia). done.
  - rewrite andb_true_iff in *. destruct_and!. rewrite !IH by (done || lia). done.
  - destruct e; try done. simpl in Hn. rewrite IH by (done || (simpl; lia)).
    apply negb_true_iff, ymn_cases in N as (? & ? & ?). by rewrite !decide_False.
  - unfold transform_equal. case_match eqn:B; [done|]. join_inv.
    rewrite bool_decide_eq_true_2 in N by done. apply negb_true_iff, ymn_cases in N as (? & ? & ?).
    by rewrite !decide_False.
  - unfold transform_unequal. case_match eqn:B; [done|]. join_inv.
    rewrite bool_decide_eq_true_2 in N by done. apply negb_true_iff, ymn_cases in N as (? & ? & ?).
    by rewrite !decide_False.
Qed.

(** ** The boolean shortcut *)

(** [tri == mod] is promoted to [yes] for a symbol that is not a tristate
    ([sym_calc_visibility]). *)
Definition promote (t : tristate) : tristate := if decide (t = Mod) then Yes else t.

Lemma promote_op t a b : promote (tri_op t a b) = tri_op t (promote a) (promote b).
Proof. by destruct t, a, b. Qed.

Lemma trans_bool_promote e :
  nnf e = true → promote (expr_value (expr_trans_bool e)) = promote (expr_value e).
Proof.
  induction e as [l IHl r IHr|l IHl r IHr|l IHl| | | | |]; simpl; intros N; try done.
  - apply andb_true_iff in N as [? ?].
    by rewrite !(promote_op B_OR), IHl, IHr.
  - apply andb_true_iff in N as [? ?].
    by rewrite !(promote_op B_AND), IHl, IHr.
  - by destruct l.
  - destruct (decide (st_type l = S_TRISTATE)) as [Ht|]; [|done].
    destruct (decide (r = symbol_no)) as [->|]; [|done].
    assert (Hs : is_logic l) by (right; done). simpl.
    rewrite (st_tri_str _ Hs), st_no_str. by destruct (st_tri l).
Qed.

(** ** Comparison with a constant *)

(** The symbols used as operands carry the letter of their value (booleans,
    tristates and the constants do), and no negated operand is [m]. *)
Fixpoint comparable (e : expr) : Prop :=
  match e with
  | Eor l r | Eand l r => comparable l ∧ comparable r
  | Enot l => comparable l ∧ expr_value l ≠ Mod
  | Esymbol s => st_str s = tri_string (st_tri s)
  | Eequal _ _ | Eunequal _ _ => True
  | Echoice _ _ | Erange _ _ => False
  end.

(** The value of a comparison of tristate values. *)
Definition tri_cmp (t : eqop) (a b : tristate) : tristate :=
  match t with
  | Q_EQUAL => if decide (a = b) then Yes else No
  | Q_UNEQUAL => if decide (a = b) then No else Yes
  end.

Lemma negate_if_value t e b :
  expr_value e = tri_cmp Q_EQUAL b Yes → b ≠ Mod →
  expr_value (negate_if t e) = tri_cmp t b Yes.
Proof. intros E ?. by destruct t; simpl; rewrite E; destruct b. Qed.

Lemma trans_compare_value e t (sym : sid) (v : tristate) :
  comparable e → (sym = symbol_yes ∧ v = Yes) ∨ (sym = symbol_no ∧ v = No) →
  ∃ e', trans_compare e t sym = Some e' ∧ expr_value e' = tri_cmp t (expr_value e) v.
Proof.
  intros C S. revert t. induction e as [l IHl r IHr|l IHl r IHr|l IHl|a b|a b| |s|];
    intros t; simpl in *; try done.
  - destruct C as [Cl Cr]. destruct (IHl Cl Q_EQUAL) as (l' & -> & Hl), (IHr Cr Q_EQUAL) as (r' & -> & Hr).
    destruct S as [[-> ->]|[-> ->]]; simpl; eexists; (split; [done|]);
      destruct t; simpl; rewrite Hl, Hr; by destruct (expr_value l), (expr_value r).
  - destruct C as [Cl Cr]. destruct (IHl Cl Q_EQUAL) as (l' & -> & Hl), (IHr Cr Q_EQUAL) as (r' & -> & Hr).
    destruct S as [[-> ->]|[-> ->]]; simpl; eexists; (split; [done|]);
      destruct t; simpl; rewrite Hl, Hr; by destruct (expr_value l), (expr_value r).
  - destruct C as [Cl Cv]. destruct (IHl Cl (eqop_flip t)) as (l' & -> & Hl).
    eexists; split; [done|]. rewrite Hl.
    destruct S as [[-> ->]|[-> ->]], t; by destruct (expr_value l).
  - destruct S as [[-> ->]|[-> ->]], t; simpl; eexists; (split; [done|]); simpl; by destruct (decide _).
  - destruct S as [[-> ->]|[-> ->]], t; simpl; eexists; (split; [done|]); simpl; by destruct (decide _).
  - destruct S as [[-> ->]|[-> ->]], t; simpl; eexists; (split; [done|]); simpl;
      rewrite C, ?st_yes_str, ?st_no_str; by destruct (st_tri s).
Qed.
End Simplify.
