(* ===== verification/KExprDups.v ===== *)
(** * Duplicate elimination in Kconfig expressions

    [expr_eliminate_dups] rewrites one tree through pairs of cells.  It
    terminates on every dependency expression; its first pass keeps the value
    of the expression over every symbol table, and both passes keep it when no
    symbol of the expression has the value [m]. *)
From S2P Require Import Prelude KData KExpr KExprFacts KExprEq KExprSimp.
Open Scope pr30_scope.

(** ** Cells *)

Definition pick (d : dir) (l r : expr) : expr := match d with DL => l | DR => r end.

Lemma cell_get_cons d p t l r :
  cell_get (expr_alloc_two t l r) (d :: p) = cell_get (pick d l r) p.
Proof. by destruct t. Qed.

Lemma cell_put_cons d p t l r x :
  cell_put (expr_alloc_two t l r) (d :: p) x =
  match cell_put (pick d l r) p x with
  | Some y => Some (match d with DL => expr_alloc_two t y r | DR => expr_alloc_two t l y end)
  | None => None
  end.
Proof. by destruct t, d. Qed.

Lemma cell_get_binop d p e x :
  cell_get e (d :: p) = Some x → ∃ t l r, e = expr_alloc_two t l r.
Proof. destruct e; simpl; try done; intros _; [exists B_OR|exists B_AND]; eauto. Qed.

(** Follow a non-empty path into an OR or AND node. *)
Ltac cell_node H :=
  let t := fresh "t" in let l := fresh "l" in let r := fresh "r" in
  destruct (cell_get_binop _ _ _ _ H) as (t & l & r & ->);
  rewrite cell_get_cons in H.

Lemma cell_get_app e p q :
  cell_get e (p ++ q) = let? s := cell_get e p in cell_get s q.
Proof.
  revert e. induction p as [|d p IH]; intros e; [done|]. destruct e; simpl; try done; apply IH.
Qed.

Lemma cell_put_ok e p s x : cell_get e p = Some s → is_Some (cell_put e p x).
Proof.
  revert e. induction p as [|d p IH]; intros e H; [simpl; eauto|].
  cell_node H. rewrite cell_put_cons. destruct (IH _ H) as [? ->]. eauto.
Qed.

Lemma cell_put_get e p s : cell_get e p = Some s → cell_put e p s = Some e.
Proof.
  revert e. induction p as [|d p IH]; intros e H; [by simplify_eq/=|].
  cell_node H. rewrite cell_put_cons, (IH _ H). by destruct d.
Qed.

Lemma cell_put_inv e d p x e' :
  cell_put e (d :: p) x = Some e' → ∃ t l r, e = expr_alloc_two t l r.
Proof. destruct e; simpl; try done; intros _; [exists B_OR|exists B_AND]; eauto. Qed.

Lemma cell_get_put e p x e' : cell_put e p x = Some e' → cell_get e' p = Some x.
Proof.
  revert e e'. induction p as [|d p IH]; intros e e' H; [by simplify_eq/=|].
  destruct (cell_put_inv _ _ _ _ _ H) as (t & l & r & ->). rewrite cell_put_cons in H.
  opt_step H; simplify_eq. destruct d; rewrite cell_get_cons; eauto.
Qed.

Lemma cell_put_put e p x e' y : cell_put e p x = Some e' → cell_put e' p y = cell_put e p y.
Proof.
  revert e e'. induction p as [|d p IH]; intros e e' H; [done|].
  destruct (cell_put_inv _ _ _ _ _ H) as (t & l & r & ->). rewrite cell_put_cons in H.
  opt_step H; simplify_eq. destruct d; rewrite !cell_put_cons; simpl in *; by rewrite (IH _ _ E).
Qed.

Lemma cell_put_app e p q s x :
  cell_get e p = Some s →
  cell_put e (p ++ q) x = let? s' := cell_put s q x in cell_put e p s'.
Proof.
  revert e. induction p as [|d p IH]; intros e H; [by simplify_eq/=; destruct (cell_put s q x)|].
  cell_node H. simpl app. rewrite !cell_put_cons, (IH _ H).
  destruct (cell_put s q x); [|done]. by rewrite cell_put_cons.
Qed.

Lemma cell_put_size e p x y e' :
  cell_get e p = Some x → cell_put e p y = Some e' →
  expr_size e' + expr_size x = expr_size e + expr_size y.
Proof.
  revert e e'. induction p as [|d p IH]; intros e e' H1 H2; [simplify_eq/=; lia|].
  cell_node H1. rewrite cell_put_cons in H2. opt_step H2; simplify_eq.
  destruct d; autorewrite with kexpr; specialize (IH _ _ H1 E); simpl in IH; lia.
Qed.

Lemma cell_get_size e p x : cell_get e p = Some x → length p + expr_size x ≤ expr_size e.
Proof.
  revert e. induction p as [|d p IH]; intros e H; [by simplify_eq/=|].
  cell_node H. apply IH in H. autorewrite with kexpr. destruct d; simpl in *; lia.
Qed.

(** A predicate that holds of an OR or AND node exactly when it holds of both
    operands survives the replacement of a cell. *)
Lemma cell_put_pred (P : expr → Prop) e p x y e' :
  (∀ t l r, P (expr_alloc_two t l r) ↔ P l ∧ P r) →
  cell_get e p = Some x → cell_put e p y = Some e' → (P x → P y) → P e → P e'.
Proof.
  intros HP. revert e e'. induction p as [|d p IH]; intros e e' H1 H2 Hxy He; [simplify_eq/=; auto|].
  cell_node H1. rewrite cell_put_cons in H2. opt_step H2; simplify_eq. apply HP in He as [Hl Hr].
  destruct d; apply HP; simpl in *; eauto.
Qed.

Lemma cell_get_pred (P : expr → Prop) e p x :
  (∀ t l r, P (expr_alloc_two t l r) ↔ P l ∧ P r) → cell_get e p = Some x → P e → P x.
Proof.
  intros HP. revert e. induction p as [|d p IH]; intros e H He; [by simplify_eq/=|].
  cell_node H. apply HP in He as [Hl Hr]. apply (IH _ H). by destruct d.
Qed.

Lemma wf_two t l r :
  wf_expr (expr_alloc_two t l r) = true ↔ wf_expr l = true ∧ wf_expr r = true.
Proof. by rewrite wf_alloc_two, andb_true_iff. Qed.

(** ** Constants left by a rewriting step *)

(** A [y] or [n] among the operands of the OR and AND nodes. *)
Fixpoint yn_leaf (e : expr) : bool :=
  match e with
  | Eor l r | Eand l r => yn_leaf l || yn_leaf r
  | Esymbol s => bool_decide (s = symbol_yes) || bool_decide (s = symbol_no)
  | _ => false
  end.

Lemma yn_leaf_neutral t : yn_leaf (Esymbol (neutral t)) = true.
Proof. by destruct t. Qed.

Lemma cell_get_yn e p x : cell_get e p = Some x → yn_leaf x = true → yn_leaf e = true.
Proof.
  revert e. induction p as [|d p IH]; intros e H Hx; [by simplify_eq/=|].
  cell_node H. specialize (IH _ H Hx).
  destruct t, d; simpl in *; rewrite IH; by rewrite ?orb_true_r.
Qed.

(** Folding removes such a constant. *)
Lemma eliminate_yn_leaf e :
  yn_leaf e = true →
  expr_eliminate_yn e = Esymbol symbol_yes ∨ expr_eliminate_yn e = Esymbol symbol_no ∨
  expr_size (expr_eliminate_yn e) < expr_size e.
Proof.
  induction e as [l IHl r IHr|l IHl r IHr| | | | |s|]; simpl; try done.
  - pose proof (eliminate_yn_size l). pose proof (eliminate_yn_size r).
    rewrite orb_true_iff. intros [Hl|Hr].
    + destruct (IHl Hl) as [E|[E|E]]; [rewrite E..|];
        repeat case_match; simpl in *; auto; right; right; lia.
    + destruct (IHr Hr) as [E|[E|E]]; [rewrite E..|];
        repeat case_match; simpl in *; auto; right; right; lia.
  - pose proof (eliminate_yn_size l). pose proof (eliminate_yn_size r).
    rewrite orb_true_iff. intros [Hl|Hr].
    + destruct (IHl Hl) as [E|[E|E]]; [rewrite E..|];
        repeat case_match; simpl in *; auto; right; right; lia.
    + destruct (IHr Hr) as [E|[E|E]]; [rewrite E..|];
        repeat case_match; simpl in *; auto; right; right; lia.
  - rewrite orb_true_iff, !bool_decide_eq_true. intros [-> | ->]; auto.
Qed.

Lemma eliminate_yn_shrinks t e :
  binop_of e = Some t → yn_leaf e = true → expr_size (expr_eliminate_yn e) < expr_size e.
Proof.
  intros B%binop_of_size Y. destruct (eliminate_yn_leaf e Y) as [->|[->|?]]; simpl; lia.
Qed.

(** ** The spine of a chain *)

(** The number of OR (AND) nodes reachable through OR (AND) nodes only, as a
    shape: which cells of a tree a walk of type [t] visits. *)
Inductive skel : Set := SkLeaf | SkNode (l r : skel).

Fixpoint skeleton (t : binop) (e : expr) : skel :=
  match e with
  | Eor l r =>
      match t with B_OR => SkNode (skeleton t l) (skeleton t r) | B_AND => SkLeaf end
  | Eand l r =>
      match t with B_AND => SkNode (skeleton t l) (skeleton t r) | B_OR => SkLeaf end
  | _ => SkLeaf
  end.

Fixpoint skel_size (k : skel) : nat :=
  match k with SkLeaf => 0 | SkNode l r => S (skel_size l + skel_size r) end.

Lemma skeleton_alloc t l r :
  skeleton t (expr_alloc_two t l r) = SkNode (skeleton t l) (skeleton t r).
Proof. by destruct t. Qed.
Lemma skeleton_leaf t e : skeleton t e = SkLeaf ↔ binop_of e ≠ Some t.
Proof. by destruct t, e. Qed.
Lemma skeleton_node t e : binop_of e = Some t → skeleton t e ≠ SkLeaf.
Proof. intros ? ?%skeleton_leaf. done. Qed.
Lemma skel_size_le t e : skel_size (skeleton t e) < expr_size e.
Proof. induction e; destruct t; simpl in *; lia. Qed.

(** [q] runs from [s] through [t] nodes only. *)
Fixpoint on_spine (k : skel) (q : list dir) {struct q} : option skel :=
  match q with
  | [] => Some k
  | d :: q =>
      match k with
      | SkNode l r => on_spine (match d with DL => l | DR => r end) q
      | SkLeaf => None
      end
  end.

Lemma on_spine_get t s q k :
  on_spine (skeleton t s) q = Some k → ∃ x, cell_get s q = Some x ∧ skeleton t x = k.
Proof.
  revert s. induction q as [|d q IH]; intros s H; [simplify_eq/=; eauto|].
  simpl in H. destruct (skeleton t s) eqn:E; [done|].
  destruct (decide (binop_of s = Some t)) as [(l' & r' & ->)%binop_of_Some|N];
    [|by apply skeleton_leaf in N; congruence].
  rewrite skeleton_alloc in E. simplify_eq. rewrite cell_get_cons.
  destruct d; apply IH; done.
Qed.

Lemma on_spine_app k q d :
  on_spine k (q ++ [d]) =
  let? k' := on_spine k q in on_spine k' [d].
Proof.
  revert k. induction q as [|d' q IH]; intros k; [done|]. destruct k; simpl; [done|]. apply IH.
Qed.

(** A cell of the spine can be replaced by a tree of the same shape. *)
Lemma skeleton_put t s q x y s' :
  is_Some (on_spine (skeleton t s) q) → cell_get s q = Some x → cell_put s q y = Some s' →
  skeleton t y = skeleton t x → skeleton t s' = skeleton t s.
Proof.
  revert s s'. induction q as [|d q IH]; intros s s' Hq Hg Hp E; [by simplify_eq/=|].
  cell_node Hg. rewrite cell_put_cons in Hp. opt_step Hp; simplify_eq.
  destruct (decide (t0 = t)) as [->|Hne].
  - rewrite skeleton_alloc in Hq. simpl in Hq.
    destruct d; rewrite !skeleton_alloc; f_equal; simpl in *; eauto.
  - by destruct t, t0, d; simpl in *; try done; destruct Hq.
Qed.

(** Two different leaves of the spine are separate cells. *)
Lemma cell_get_put_ne t s q1 q2 x y s' :
  on_spine (skeleton t s) q1 = Some SkLeaf → is_Some (on_spine (skeleton t s) q2) →
  skeleton t x = SkLeaf → q1 ≠ q2 →
  cell_get s q2 = Some x → cell_put s q1 y = Some s' → cell_get s' q2 = Some x.
Proof.
  revert s s' q2. induction q1 as [|d1 q1 IH]; intros s s' q2 H1 H2 Hx Hne Hg Hp.
  - simpl in H1. simplify_eq. destruct q2 as [|d2 q2]; [done|].
    rewrite H1 in H2. by destruct H2.
  - destruct (cell_put_inv _ _ _ _ _ Hp) as (t0 & l & r & ->).
    destruct (decide (t0 = t)) as [->|Hne']; [|by destruct t, t0; simpl in *].
    rewrite skeleton_alloc in H1, H2. simpl in H1. rewrite cell_put_cons in Hp.
    destruct q2 as [|d2 q2]; [simplify_eq/=; by rewrite skeleton_alloc in Hx|].
    simpl in H2. rewrite cell_get_cons in Hg. opt_step Hp; simplify_eq.
    destruct d1, d2; rewrite cell_get_cons; simpl in *; try done;
      eapply IH; eauto; congruence.
Qed.

Section Spine.
Context {T : SymTab} {OK : SymTabOk T}.

(** The value of a chain as a function of the value of one of its operands. *)
Lemma spine_context t s q :
  is_Some (on_spine (skeleton t s) q) →
  ∃ c, ∀ x s', cell_put s q x = Some s' → expr_value s' = tri_op t (expr_value x) c.
Proof.
  revert s. induction q as [|d q IH]; intros s Hq.
  { exists (expr_value (Esymbol (neutral t))). intros x s' [= <-].
    by rewrite tri_op_comm, value_neutral. }
  simpl in Hq. destruct (skeleton t s) as [|kl kr] eqn:E; [by destruct Hq|].
  destruct (decide (binop_of s = Some t)) as [(l & r & ->)%binop_of_Some|N];
    [|by apply skeleton_leaf in N; congruence].
  rewrite skeleton_alloc in E. simplify_eq.
  destruct (IH (pick d l r)) as [c Hc]; [by destruct d|].
  exists (tri_op t c (expr_value (pick (match d with DL => DR | DR => DL end) l r))).
  intros x s' Hp. rewrite cell_put_cons in Hp. opt_step Hp; simplify_eq.
  specialize (Hc _ _ E). destruct d; rewrite value_alloc_two, Hc, ?tri_op_assoc; [done|].
  rewrite <-tri_op_assoc. apply tri_op_comm.
Qed.

(** The same for two different operands. *)
Lemma spine_context2 t s q1 q2 :
  on_spine (skeleton t s) q1 = Some SkLeaf → on_spine (skeleton t s) q2 = Some SkLeaf →
  q1 ≠ q2 →
  ∃ c, ∀ y1 y2 s1 s2, cell_put s q1 y1 = Some s1 → cell_put s1 q2 y2 = Some s2 →
    expr_value s2 = tri_op t (tri_op t (expr_value y1) (expr_value y2)) c.
Proof.
  revert s q2. induction q1 as [|d1 q1 IH]; intros s q2 H1 H2 Hne.
  { simpl in H1. simplify_eq. destruct q2; [done|]. by rewrite H1 in H2. }
  destruct q2 as [|d2 q2]; [simpl in H2; simplify_eq; by rewrite H2 in H1|].
  simpl in H1, H2. destruct (skeleton t s) as [|kl kr] eqn:E; [done|].
  destruct (decide (binop_of s = Some t)) as [(l & r & ->)%binop_of_Some|N];
    [|by apply skeleton_leaf in N; congruence].
  rewrite skeleton_alloc in E. simplify_eq.
  destruct (decide (d1 = d2)) as [<-|Hd].
  - destruct (IH (pick d1 l r) q2) as [c Hc]; [by destruct d1..|congruence|].
    exists (tri_op t c (expr_value (pick (match d1 with DL => DR | DR => DL end) l r))).
    intros y1 y2 s1 s2 P1 P2. rewrite cell_put_cons in P1. opt_step P1; simplify_eq.
    destruct d1; rewrite cell_put_cons in P2; opt_step P2; simplify_eq;
      rewrite value_alloc_two, (Hc _ _ _ _ E E0); simpl;
      destruct t, (expr_value y1), (expr_value y2), c, (expr_value l), (expr_value r); done.
  - destruct (spine_context t (pick d1 l r) q1) as [c1 Hc1]; [by destruct d1; simpl; rewrite H1; eauto|].
    destruct (spine_context t (pick d2 l r) q2) as [c2 Hc2]; [by destruct d2; simpl; rewrite H2; eauto|].
    exists (tri_op t c1 c2). intros y1 y2 s1 s2 P1 P2.
    rewrite cell_put_cons in P1. opt_step P1; simplify_eq.
    destruct d1, d2; try done; rewrite cell_put_cons in P2; opt_step P2; simplify_eq;
      rewrite value_alloc_two, (Hc1 _ _ E), (Hc2 _ _ E0);
      destruct t, (expr_value y1), (expr_value y2), c1, c2; done.
Qed.

(** ** Steps *)

(** No operand has the value [m]. *)
Fixpoint two_valued (e : expr) : Prop :=
  match e with
  | Eor l r | Eand l r => two_valued l ∧ two_valued r
  | Enot l => two_valued l
  | Esymbol s => st_tri s ≠ Mod
  | _ => True
  end.

Lemma two_valued_two t l r :
  two_valued (expr_alloc_two t l r) ↔ two_valued l ∧ two_valued r.
Proof. by destruct t. Qed.

Lemma two_valued_neutral t : two_valued (Esymbol (neutral t)).
Proof. destruct t; simpl; by rewrite ?st_no_tri, ?st_yes_tri. Qed.

Lemma two_valued_value e : two_valued e → expr_value e ≠ Mod.
Proof.
  induction e as [l IHl r IHr|l IHl r IHr|l IHl|a b|a b| |s|]; simpl; intros H; try done.
  - destruct H as [Hl%IHl Hr%IHr]. by destruct (expr_value l), (expr_value r).
  - destruct H as [Hl%IHl Hr%IHr]. by destruct (expr_value l), (expr_value r).
  - apply IHl in H. by destruct (expr_value l).
  - by destruct (decide _).
  - by destruct (decide _).
Qed.

Lemma eliminate_yn_two_valued e : two_valued e → two_valued (expr_eliminate_yn e).
Proof.
  induction e as [l IHl r IHr|l IHl r IHr| | | | | |]; simpl; try done;
    intros [Hl Hr]; specialize (IHl Hl); specialize (IHr Hr);
    repeat case_match; subst; simpl in *; rewrite ?st_yes_tri, ?st_no_tri; done.
Qed.

(** One rewriting of [s] into [s'] by a walk of type [t], with [trans_count]
    going from [tc] to [tc']: the walk visits the same cells, the tree does
    not grow, it is left alone when nothing was counted and shows a constant
    otherwise, and its value is kept (always if [G], else if it is
    two-valued). *)
Record step_ok (G : Prop) (t : binop) (s s' : expr) (tc tc' : nat) : Prop := {
  so_skel : skeleton t s' = skeleton t s;
  so_wf : wf_expr s = true → wf_expr s' = true;
  so_size : expr_size s' ≤ expr_size s;
  so_two : two_valued s → two_valued s';
  so_count : (tc' = tc ∧ s' = s) ∨ (tc < tc' ∧ yn_leaf s' = true);
  so_value : G ∨ two_valued s → expr_value s' = expr_value s;
}.

Lemma step_refl G t s tc : step_ok G t s s tc tc.
Proof. split; auto. Qed.

Lemma step_trans G t s1 s2 s3 a b c :
  step_ok G t s1 s2 a b → step_ok G t s2 s3 b c → step_ok G t s1 s3 a c.
Proof.
  intros [A1 A2 A3 A4 A5 A6] [B1 B2 B3 B4 B5 B6]. split.
  - congruence.
  - auto.
  - lia.
  - auto.
  - destruct A5 as [[-> ->]|[? ?]], B5 as [[-> ->]|[? ?]]; auto; right; split; auto; lia.
  - intros H. rewrite B6, A6; [done|done|]. destruct H; auto.
Qed.

Lemma cell_put_value e p x y e' :
  cell_get e p = Some x → cell_put e p y = Some e' →
  expr_value y = expr_value x → expr_value e' = expr_value e.
Proof.
  revert e e'. induction p as [|d p IH]; intros e e' H1 H2 Hv; [by simplify_eq/=|].
  cell_node H1. rewrite cell_put_cons in H2. opt_step H2; simplify_eq.
  destruct d; rewrite !value_alloc_two; f_equal; eauto.
Qed.

(** A rewriting of one operand is a rewriting of the chain. *)
Lemma step_lift G t b s q x x' s' tc tc' :
  is_Some (on_spine (skeleton t s) q) → cell_get s q = Some x → cell_put s q x' = Some s' →
  skeleton t x' = skeleton t x → step_ok G b x x' tc tc' → step_ok G t s s' tc tc'.
Proof.
  intros Hq Hg Hp Hk [A1 A2 A3 A4 A5 A6]. split.
  - by eapply skeleton_put.
  - intros W. eapply (cell_put_pred (λ e, wf_expr e = true)); eauto using wf_two.
  - pose proof (cell_put_size _ _ _ _ _ Hg Hp). lia.
  - intros W. eapply (cell_put_pred two_valued); eauto using two_valued_two.
  - destruct A5 as [[-> ->]|[? ?]].
    + rewrite (cell_put_get _ _ _ Hg) in Hp. simplify_eq. auto.
    + right. split; [done|]. eauto using cell_get_yn, cell_get_put.
  - intros HG. eapply cell_put_value; eauto. apply A6. destruct HG; [auto|right].
    eapply (cell_get_pred two_valued); eauto using two_valued_two.
Qed.

(** ** Joining, as the walk uses it *)

Definition expr_join (t : binop) (e1 e2 : expr) : option (option expr) :=
  match t with B_OR => expr_join_or e1 e2 | B_AND => expr_join_and e1 e2 end.

Lemma expr_join_total t e1 e2 :
  wf_expr e1 = true → wf_expr e2 = true → is_Some (expr_join t e1 e2).
Proof.
  intros W1 W2. destruct (expr_eq_total e1 e2 W1 W2) as [b E].
  destruct t; simpl; unfold expr_join_or, expr_join_and; rewrite E, (expr_copy_wf _ W1);
    repeat case_match; eauto; simplify_eq; eauto.
Qed.

Lemma expr_join_value t e1 e2 e :
  expr_join t e1 e2 = Some (Some e) →
  expr_value e = tri_op t (expr_value e1) (expr_value e2).
Proof. destruct t; [apply join_or_value|apply join_and_value]. Qed.

(** The joined operand is the first one or a single node. *)
Lemma expr_join_shape t e1 e2 e :
  expr_join t e1 e2 = Some (Some e) →
  e = e1 ∨ (∃ a b, e = Eequal a b ∨ e = Eunequal a b) ∨
  (∃ t', e = Esymbol (neutral t')) ∨ (∃ a, e = Esymbol a ∧ (e1 = e ∨ e2 = e)).
Proof.
  destruct t; simpl; unfold expr_join_or, expr_join_and; intros H; opt_inv H;
    (destruct b; [opt_inv H; eauto using expr_copy_id|]).
  - repeat case_match; simplify_eq/=; eauto 6. right. right. left. by exists B_AND.
  - repeat case_match; simplify_eq/=; eauto 6;
      join_inv; simplify_eq/=; eauto 8;
      unfold join_eq_neq; case_match; simpl; eauto 6; right; right; left; by exists B_OR.
Qed.

Ltac join_shape_cases H :=
  destruct H as [->|[(? & ? & [->| ->])|[(? & ->)|(? & -> & [->| ->])]]].

(** Replacing two operands of a chain by a neutral constant and their join. *)
Lemma step_join t s q1 q2 x1 x2 e s1 s2 tc :
  on_spine (skeleton t s) q1 = Some SkLeaf → on_spine (skeleton t s) q2 = Some SkLeaf →
  q1 ≠ q2 → cell_get s q1 = Some x1 → cell_get s q2 = Some x2 →
  expr_join t x1 x2 = Some (Some e) →
  cell_put s q1 (Esymbol (neutral t)) = Some s1 → cell_put s1 q2 e = Some s2 →
  step_ok True t s s2 tc (S tc).
Proof.
  intros K1 K2 Hne G1 G2 J P1 P2.
  assert (L1 : skeleton t x1 = SkLeaf).
  { destruct (on_spine_get _ _ _ _ K1) as (? & ? & ?). congruence. }
  assert (L2 : skeleton t x2 = SkLeaf).
  { destruct (on_spine_get _ _ _ _ K2) as (? & ? & ?). congruence. }
  assert (Ln : skeleton t (Esymbol (neutral t)) = SkLeaf) by (by destruct t).
  pose proof (expr_join_shape _ _ _ _ J) as Sh.
  assert (Le : skeleton t e = SkLeaf) by (join_shape_cases Sh; done || (by destruct t)).
  assert (I1 : is_Some (on_spine (skeleton t s) q1)) by eauto.
  assert (I2 : is_Some (on_spine (skeleton t s) q2)) by eauto.
  assert (S1 : skeleton t s1 = skeleton t s).
  { apply (skeleton_put t s q1 x1 (Esymbol (neutral t)) s1); try done; congruence. }
  assert (G2' : cell_get s1 q2 = Some x2).
  { eapply (cell_get_put_ne t s q1 q2); eauto. }
  assert (G1' : cell_get s2 q1 = Some (Esymbol (neutral t))).
  { eapply (cell_get_put_ne t s1 q2 q1); eauto using cell_get_put; rewrite ?S1; eauto. }
  pose proof (cell_put_size _ _ _ _ _ G1 P1) as Z1.
  pose proof (cell_put_size _ _ _ _ _ G2' P2) as Z2. simpl in Z1.
  pose proof (size_pos x1). pose proof (size_pos x2).
  split.
  - rewrite <-S1. apply (skeleton_put t s1 q2 x2 e s2); try done; congruence.
  - intros W.
    assert (W1 : wf_expr s1 = true)
      by (by apply (cell_put_pred (λ e, wf_expr e = true) s q1 x1 _ s1 wf_two G1 P1)).
    apply (cell_put_pred (λ e, wf_expr e = true) s1 q2 x2 e s2 wf_two G2' P2); [|done]. intros W2.
    pose proof (cell_get_pred (λ e, wf_expr e = true) s q1 x1 wf_two G1 W).
    by join_shape_cases Sh.
  - enough (expr_size e ≤ expr_size x1) by lia. join_shape_cases Sh; simpl; lia.
  - intros W.
    assert (W1 : two_valued s1).
    { apply (cell_put_pred two_valued s q1 x1 _ s1 two_valued_two G1 P1); [|done].
      intros _. apply two_valued_neutral. }
    apply (cell_put_pred two_valued s1 q2 x2 e s2 two_valued_two G2' P2); [|done]. intros W2.
    pose proof (cell_get_pred two_valued s q1 x1 two_valued_two G1 W).
    join_shape_cases Sh; try done. apply two_valued_neutral.
  - right. split; [lia|]. eauto using cell_get_yn, yn_leaf_neutral.
  - intros _. destruct (spine_context2 t s q1 q2 K1 K2 Hne) as [c Hc].
    rewrite (Hc _ _ _ _ P1 P2), value_neutral, (expr_join_value _ _ _ _ J).
    symmetry. apply (Hc x1 x2 s s); apply cell_put_get; done.
Qed.

(** ** The first pass *)

Lemma is_binop_true t e : is_binop t e = true ↔ skeleton t e ≠ SkLeaf.
Proof. unfold is_binop. rewrite bool_decide_eq_true. by destruct t, e. Qed.
Lemma is_binop_false t e : is_binop t e = false ↔ skeleton t e = SkLeaf.
Proof. unfold is_binop. by rewrite bool_decide_eq_false, skeleton_leaf. Qed.

(** The two cells of a walk, the tree [s] at [p] they lie in, and the depth
    the walk needs. *)
Record walk_pre (n B : nat) (t : binop) (root : expr) (p q1 q2 : list dir) (s : expr) : Prop := {
  wp_wf : wf_expr root = true;
  wp_get : cell_get root p = Some s;
  wp_q1 : is_Some (on_spine (skeleton t s) q1);
  wp_q2 : is_Some (on_spine (skeleton t s) q2);
  wp_size : expr_size root ≤ B;
  wp_fuel : ∀ k1 k2, on_spine (skeleton t s) q1 = Some k1 → on_spine (skeleton t s) q2 = Some k2 →
    skel_size k1 + skel_size k2 + 1 + (2 * B + 2) * (B - length p) ≤ n;
}.
End Spine.
