(* ===== verification/KExprPass.v ===== *)
(** * The two passes of duplicate elimination and their loop *)
From S2P Require Import Prelude KData KExpr KExprFacts KExprEq KExprSimp KExprDups.
Open Scope pr30_scope.

Section Walk.
Context {T : SymTab} {OK : SymTabOk T}.

(** ** How the precondition of a walk is passed on *)

Lemma walk_child1 n B t root p q1 q2 s l r d :
  walk_pre (S n) B t root p q1 q2 s → on_spine (skeleton t s) q1 = Some (SkNode l r) →
  walk_pre n B t root p (q1 ++ [d]) q2 s.
Proof.
  intros [A1 A2 A3 A4 A5 A6] K. split; try done.
  - rewrite on_spine_app, K. simpl. eauto.
  - intros k1 k2. rewrite on_spine_app, K. simpl. intros [= <-] K2.
    specialize (A6 _ _ K K2). simpl in A6. destruct d; lia.
Qed.

Lemma walk_child2 n B t root p q1 q2 s l r d :
  walk_pre (S n) B t root p q1 q2 s → on_spine (skeleton t s) q2 = Some (SkNode l r) →
  walk_pre n B t root p q1 (q2 ++ [d]) s.
Proof.
  intros [A1 A2 A3 A4 A5 A6] K. split; try done.
  - rewrite on_spine_app, K. simpl. eauto.
  - intros k1 k2. rewrite (on_spine_app _ q2), K. simpl. intros K1 [= <-].
    specialize (A6 _ _ K1 K). simpl in A6. destruct d; lia.
Qed.

Lemma walk_after n B G t root p q1 q2 s s' root' tc tc' :
  walk_pre n B t root p q1 q2 s → step_ok G t s s' tc tc' → cell_put root p s' = Some root' →
  walk_pre n B t root' p q1 q2 s'.
Proof.
  intros [A1 A2 A3 A4 A5 A6] [S1 S2 S3 S4 S5 S6] P. split; rewrite ?S1; try done.
  - apply (cell_put_pred (λ e, wf_expr e = true) root p s s' root' wf_two A2 P); done.
  - by eapply cell_get_put.
  - pose proof (cell_put_size _ _ _ _ _ A2 P). lia.
Qed.

Lemma walk_inner n B t b root p q1 q2 s x :
  walk_pre (S n) B t root p q1 q2 s → q1 ≠ [] → cell_get s q1 = Some x →
  walk_pre n B b root (p ++ q1) [] [] x.
Proof.
  intros [A1 A2 [k1 K1] [k2 K2] A5 A6] Hne Hg.
  assert (Hx : cell_get root (p ++ q1) = Some x) by (by rewrite cell_get_app, A2).
  split; simpl; try done; [eauto..|].
  intros ? ? [= <-] [= <-]. specialize (A6 _ _ K1 K2).
  pose proof (cell_get_size _ _ _ Hx) as Hz. pose proof (skel_size_le b x).
  rewrite length_app in *. assert (1 ≤ length q1) by (destruct q1; simpl in *; [done|lia]).
  assert ((2 * B + 2) * (B - (length p + length q1)) ≤ (2 * B + 2) * (B - length p - 1))
    by (apply Nat.mul_le_mono_l; lia).
  assert (HB : B - length p = S (B - length p - 1)) by lia.
  rewrite HB, Nat.mul_succ_r in A6. lia.
Qed.

(** ** What a walk achieves *)

Definition walk_ok (G : Prop) (t : binop) (root : expr) (p : list dir) (s : expr) (tc : nat)
    (r : option (expr * nat)) : Prop :=
  ∃ s' root' tc', r = Some (root', tc') ∧ cell_put root p s' = Some root' ∧
    step_ok G t s s' tc tc'.

Lemma walk_ok_refl G t root p s tc :
  cell_get root p = Some s → walk_ok G t root p s tc (Some (root, tc)).
Proof. intros H. exists s, root, tc. eauto using cell_put_get, step_refl. Qed.

Lemma walk_ok_seq G t root p s tc r (k : expr → nat → option (expr * nat)) :
  walk_ok G t root p s tc r →
  (∀ s' root' tc', cell_put root p s' = Some root' → step_ok G t s s' tc tc' →
     walk_ok G t root' p s' tc' (k root' tc')) →
  walk_ok G t root p s tc (match r with Some (root', tc') => k root' tc' | None => None end).
Proof.
  intros (s1 & root1 & tc1 & -> & P1 & S1) Hk.
  destruct (Hk _ _ _ P1 S1) as (s2 & root2 & tc2 & E & P2 & S2).
  exists s2, root2, tc2. rewrite (cell_put_put _ _ _ _ _ P1) in P2. eauto using step_trans.
Qed.

(** The inner walk over an operand of the other type. *)
Lemma walk_ok_inner G t b root p q s x tc r :
  walk_ok G b root (p ++ q) x tc r → cell_get root p = Some s →
  is_Some (on_spine (skeleton t s) q) → cell_get s q = Some x →
  skeleton t x = SkLeaf → binop_of x = Some b →
  walk_ok G t root p s tc r.
Proof.
  intros (x' & root' & tc' & -> & P & S) Hg Hq Hx L B.
  rewrite (cell_put_app _ _ _ s) in P by done. opt_step P.
  assert (L' : skeleton t x' = SkLeaf).
  { pose proof (so_skel _ _ _ _ _ _ S) as E'. apply skeleton_node in B.
    apply skeleton_leaf. apply skeleton_leaf in L. intros Ht.
    destruct (decide (b = t)) as [->|Hbt].
    - apply L. destruct x; simpl in *; destruct t; try done.
    - assert (skeleton b x' = SkLeaf) by (apply skeleton_leaf; congruence). congruence. }
  exists e, root', tc'. split_and!; try done.
  eapply (step_lift G t b s q x x'); eauto; congruence.
Qed.

(** ** The first pass *)

(** The end of a walk: the operands at [q1] and [q2] are joined. *)
Lemma dups1_join_ok t root p q1 q2 s tc :
  wf_expr root = true → cell_get root p = Some s →
  on_spine (skeleton t s) q1 = Some SkLeaf → on_spine (skeleton t s) q2 = Some SkLeaf → q1 ≠ q2 →
  walk_ok True t root p s tc
    (let? e1 := cell_get root (p ++ q1) in
     let? e2 := cell_get root (p ++ q2) in
     let? tmp := match t with B_OR => expr_join_or e1 e2 | B_AND => expr_join_and e1 e2 end in
     match tmp with
     | None => Some (root, tc)
     | Some tmp =>
         let? root := cell_put root (p ++ q1) (expr_alloc_symbol (neutral t)) in
         let? root := cell_put root (p ++ q2) tmp in
         Some (root, S tc)
     end).
Proof.
  intros W G K1 K2 Hq.
  destruct (on_spine_get _ _ _ _ K1) as (e1 & G1 & L1).
  destruct (on_spine_get _ _ _ _ K2) as (e2 & G2 & L2).
  rewrite !cell_get_app, G, G1, G2.
  pose proof (cell_get_pred (λ e, wf_expr e = true) root p s wf_two G W) as Ws.
  pose proof (cell_get_pred (λ e, wf_expr e = true) s q1 e1 wf_two G1 Ws) as We1.
  pose proof (cell_get_pred (λ e, wf_expr e = true) s q2 e2 wf_two G2 Ws) as We2.
  destruct (expr_join_total t e1 e2 We1 We2) as [o J]. fold (expr_join t e1 e2). rewrite J.
  destruct o as [tmp|]; [|by apply walk_ok_refl].
  destruct (cell_put_ok s q1 e1 (Esymbol (neutral t)) G1) as [s1 P1].
  unfold expr_alloc_symbol. rewrite (cell_put_app _ _ _ s), P1 by done.
  destruct (cell_put_ok root p s s1 G) as [root1 R1]. rewrite R1.
  assert (G2' : cell_get s1 q2 = Some e2).
  { eapply (cell_get_put_ne t s q1 q2); eauto. }
  destruct (cell_put_ok s1 q2 e2 tmp G2') as [s2 P2].
  rewrite (cell_put_app _ _ _ s1), P2 by (by eapply cell_get_put).
  destruct (cell_put_ok root1 p s1 s2) as [root2 R2]; [by eapply cell_get_put|]. rewrite R2.
  exists s2, root2, (S tc). split_and!; [done|by rewrite <-(cell_put_put _ _ _ _ _ R1)|].
  by eapply (step_join t s q1 q2 e1 e2 tmp s1 s2).
Qed.

(** A leaf of the spine other than the whole chain is a proper part of it. *)
Lemma spine_leaf_ne t s (q1 q2 : list dir) :
  on_spine (skeleton t s) q1 = Some SkLeaf → is_Some (on_spine (skeleton t s) q2) → q1 ≠ q2 → q1 ≠ [].
Proof.
  intros K1 K2 Hq ->. simpl in K1. simplify_eq. destruct q2; [done|].
  rewrite K1 in K2. by destruct K2.
Qed.

Lemma dups1_ok n B t root p q1 q2 s tc :
  walk_pre n B t root p q1 q2 s →
  walk_ok True t root p s tc (dups1_f n t root (p ++ q1) (p ++ q2) tc).
Proof.
  revert t root p q1 q2 s tc.
  induction n as [|n IH]; intros t root p q1 q2 s tc W.
  { destruct W as [_ _ [k1 K1] [k2 K2] _ F]. specialize (F _ _ K1 K2). lia. }
  pose proof W as [A1 A2 [k1 K1] [k2 K2] A5 _]. simpl.
  destruct (on_spine_get _ _ _ _ K1) as (e1 & G1 & L1).
  destruct (on_spine_get _ _ _ _ K2) as (e2 & G2 & L2).
  rewrite !cell_get_app, A2, G1, G2.
  destruct (is_binop t e1) eqn:B1.
  { apply is_binop_true in B1. destruct k1 as [|l r]; [done|].
    rewrite <-!app_assoc. apply walk_ok_seq; [by eapply IH, walk_child1|].
    intros s' root' tc' P S. eapply IH, walk_after; eauto using walk_child1. }
  apply is_binop_false in B1. simplify_eq. rewrite B1 in *.
  destruct (is_binop t e2) eqn:B2.
  { apply is_binop_true in B2. destruct (skeleton t e2) as [|l r] eqn:E2; [done|].
    rewrite <-!app_assoc. apply walk_ok_seq; [by eapply IH, walk_child2|].
    intros s' root' tc' P S. eapply IH, walk_after; eauto using walk_child2. }
  apply is_binop_false in B2. rewrite B2 in *.
  case_bool_decide as Hne; [by apply walk_ok_refl|].
  assert (Hq : q1 ≠ q2) by congruence.
  apply walk_ok_seq.
  { destruct (binop_of e1) as [b|] eqn:Eb; [|by apply walk_ok_refl].
    apply (walk_ok_inner True t b root p q1 s e1); eauto.
    pose proof (IH b root (p ++ q1) [] [] e1 tc) as IH'. rewrite app_nil_r in IH'.
    eapply IH', walk_inner; eauto using spine_leaf_ne. }
  intros s1 root1 tc1 P1 S1.
  pose proof (walk_after _ _ _ _ _ _ _ _ _ _ _ _ _ W S1 P1) as [W1 G _ _ _ _].
  rewrite <-(so_skel _ _ _ _ _ _ S1) in K1, K2. by apply (dups1_join_ok t root1 p q1 q2 s1).
Qed.

(** ** Extraction of common operands *)

(** The value of the chain of operands extracted so far. *)
Definition part_value (t : binop) (ep : option expr) : tristate :=
  match ep with Some e => expr_value e | None => expr_value (Esymbol (neutral t)) end.

(** From [e1] and [e2] the operands between [ep] and [ep'] were taken. *)
Definition extracts (t : binop) (ep ep' : option expr) (e1 e2 e1' e2' : expr) : Prop :=
  ∃ c, part_value t ep' = tri_op t (part_value t ep) c ∧
    expr_value e1 = tri_op t c (expr_value e1') ∧ expr_value e2 = tri_op t c (expr_value e2').

Lemma neutral_unit t a :
  tri_op t (expr_value (Esymbol (neutral t))) a = a ∧ tri_op t a (expr_value (Esymbol (neutral t))) = a.
Proof. destruct t, a; simpl; by rewrite ?st_no_tri, ?st_yes_tri. Qed.

Lemma extracts_refl t ep e1 e2 : extracts t ep ep e1 e2 e1 e2.
Proof.
  exists (expr_value (Esymbol (neutral t))). split_and!; symmetry; apply neutral_unit.
Qed.

Lemma extracts_eq t ep e1 e2 :
  expr_value e1 = expr_value e2 →
  extracts t ep (Some (match ep with Some ep => expr_alloc_two t ep e1 | None => e1 end))
    e1 e2 (Esymbol (neutral t)) (Esymbol (neutral t)).
Proof.
  intros E. exists (expr_value e1). rewrite <-E. split_and!; try (by symmetry; apply neutral_unit).
  destruct ep; unfold part_value; [by rewrite value_alloc_two|]. symmetry. apply neutral_unit.
Qed.

Lemma extracts_sym t ep ep' e1 e2 e1' e2' :
  extracts t ep ep' e1 e2 e1' e2' → extracts t ep ep' e2 e1 e2' e1'.
Proof. intros (c & ? & ? & ?). by exists c. Qed.

Lemma extracts_chain t ep ep' ep'' l r e l' r' e' e'' :
  extracts t ep ep' l e l' e' → extracts t ep' ep'' r e' r' e'' →
  extracts t ep ep'' (expr_alloc_two t l r) e (expr_alloc_two t l' r') e''.
Proof.
  intros (c & Hp & Hl & He) (d & Hp' & Hr & He'). exists (tri_op t c d).
  rewrite !value_alloc_two, Hp', Hp, Hl, Hr, He, He'.
  split_and!; destruct t, c, d, (part_value _ ep), (expr_value l'), (expr_value r'), (expr_value e''); done.
Qed.

Lemma extract_eq_spec n t ep e1 e2 :
  wf_expr e1 = true → wf_expr e2 = true → expr_size e1 + expr_size e2 ≤ n + 1 →
  ∃ ep' e1' e2', extract_eq_f n t ep e1 e2 = Some (ep', e1', e2') ∧
    wf_expr e1' = true ∧ wf_expr e2' = true ∧
    expr_size e1' ≤ expr_size e1 ∧ expr_size e2' ≤ expr_size e2 ∧ extracts t ep ep' e1 e2 e1' e2'.
Proof.
  revert ep e1 e2. induction n as [|n IH]; intros ep e1 e2 W1 W2 Hn; simpl;
    pose proof (size_pos e1); pose proof (size_pos e2); [lia|].
  destruct (binop_view t e1) as [[l r]|] eqn:V1.
  { apply binop_view_Some in V1 as ->. apply wf_two in W1 as [Wl Wr]. autorewrite with kexpr in *.
    destruct (IH ep l e2) as (ep1 & l' & e2' & -> & ? & ? & ? & ? & S1); [done..|lia|].
    destruct (IH ep1 r e2') as (ep2 & r' & e2'' & -> & ? & ? & ? & ? & S2); [done..|lia|].
    do 3 eexists. split; [done|]. rewrite wf_two. autorewrite with kexpr.
    split_and!; try done; try lia. by eapply extracts_chain. }
  destruct (binop_view t e2) as [[l r]|] eqn:V2.
  { apply binop_view_Some in V2 as ->. apply wf_two in W2 as [Wl Wr]. autorewrite with kexpr in *.
    destruct (IH ep e1 l) as (ep1 & e1' & l' & -> & ? & ? & ? & ? & S1); [done..|lia|].
    destruct (IH ep1 e1' r) as (ep2 & e1'' & r' & -> & ? & ? & ? & ? & S2); [done..|lia|].
    do 3 eexists. split; [done|]. rewrite wf_two. autorewrite with kexpr.
    split_and!; try done; try lia. eapply extracts_sym, extracts_chain; by apply extracts_sym. }
  destruct (expr_eq_total e1 e2 W1 W2) as [[] E]; rewrite E; do 3 eexists; (split; [done|]);
    split_and!; simpl; try done; try lia; [|apply extracts_refl].
  by apply extracts_eq, expr_eq_sound.
Qed.

Lemma extract_common_spec t e1 e2 :
  wf_expr e1 = true → wf_expr e2 = true →
  ∃ tmp e1' e2', expr_extract_eq_common t e1 e2 = Some (tmp, e1', e2') ∧
    expr_value e1 = tri_op t (part_value t tmp) (expr_value e1') ∧
    expr_value e2 = tri_op t (part_value t tmp) (expr_value e2').
Proof.
  intros W1 W2. unfold expr_extract_eq_common, expr_extract_eq.
  destruct (extract_eq_spec (expr_size e1 + expr_size e2) t None e1 e2 W1 W2)
    as (ep & e1' & e2' & -> & _ & _ & _ & _ & c & Hp & H1 & H2); [lia|].
  unfold part_value at 2 in Hp. rewrite (proj1 (neutral_unit t c)) in Hp. rewrite <-Hp in H1, H2.
  destruct ep; do 3 eexists; (split; [done|]); by rewrite ?eliminate_yn_value.
Qed.

(** ** The second pass *)

(** The constant that replaces [e1] is the one absorbed by its own chain type,
    and absorbing in the chain [t] around it.  The rewriting is right unless
    [e1] is [m]. *)
Lemma dups2_leaf_spec t b e1 e2 :
  b ≠ t → wf_expr e1 = true → wf_expr e2 = true →
  ∃ o, dups2_leaf b e1 e2 = Some o ∧ ∀ x, o = Some x →
    x = Esymbol (neutral b) ∧
    (expr_value e1 ≠ Mod → tri_op t (expr_value e1) (expr_value e2) = expr_value x).
Proof.
  intros Hb W1 W2. unfold dups2_leaf, expr_alloc_one. rewrite (expr_copy_wf _ W1), (expr_copy_wf _ W2).
  destruct (transform_total (transform_weight (Enot e1)) (Enot e1)) as [e1' E]; [done|lia|].
  unfold expr_transform. rewrite E.
  pose proof (transform_value _ _ _ E) as V. simpl in V.
  pose proof (transform_wf _ _ _ E W1) as W1'.
  destruct (extract_common_spec (match b with B_OR => B_AND | B_AND => B_OR end) e1' e2)
    as (tmp & x1 & x2 & X & S1 & S2); [done..|].
  set (c := part_value _ tmp) in *. clearbody c.
  destruct b, t; try done; unfold expr_extract_eq_and, expr_extract_eq_or; rewrite X;
    eexists; (split; [done|]); intros x; case_match eqn:Y; intros [= <-]; (split; [done|]);
    destruct x1; try done; apply bool_decide_eq_true in Y as ->; intros N;
    simpl in *; rewrite ?st_yes_tri, ?st_no_tri in *; rewrite S2; rewrite S1 in V;
    destruct (expr_value e1), c, (expr_value x2); done.
Qed.

(** An operand [x1] of a chain that gives, with the part [x2] of the chain,
    the absorbing constant may be replaced by that constant. *)
Lemma step_absorb t b s q1 q2 x1 x2 s' tc :
  b ≠ t → on_spine (skeleton t s) q1 = Some SkLeaf → is_Some (on_spine (skeleton t s) q2) →
  cell_get s q1 = Some x1 → cell_get s q2 = Some x2 →
  (expr_value x1 ≠ Mod → tri_op t (expr_value x1) (expr_value x2) = expr_value (Esymbol (neutral b))) →
  cell_put s q1 (Esymbol (neutral b)) = Some s' →
  step_ok False t s s' tc (S tc).
Proof.
  intros Hb K1 I2 G1 G2 V P.
  assert (I1 : is_Some (on_spine (skeleton t s) q1)) by eauto.
  destruct (on_spine_get _ _ _ _ K1) as (? & ? & L1). simplify_eq.
  split.
  - apply (skeleton_put t s q1 x1 (Esymbol (neutral b))); done || by destruct b, t.
  - apply (cell_put_pred (λ e, wf_expr e = true) s q1 x1 _ s' wf_two G1 P). done.
  - pose proof (cell_put_size _ _ _ _ _ G1 P) as Z. pose proof (size_pos x1). simpl in Z. lia.
  - apply (cell_put_pred two_valued s q1 x1 _ s' two_valued_two G1 P). intros _.
    apply two_valued_neutral.
  - right. split; [lia|]. eauto using cell_get_yn, cell_get_put, yn_leaf_neutral.
  - intros [[]|Tw].
    pose proof (cell_get_pred two_valued s q1 x1 two_valued_two G1 Tw) as N%two_valued_value.
    specialize (V N).
    destruct (spine_context t s q1 I1) as [c1 C1], (spine_context t s q2 I2) as [c2 C2].
    pose proof (C1 _ _ (cell_put_get _ _ _ G1)) as E1.
    pose proof (C2 _ _ (cell_put_get _ _ _ G2)) as E2.
    rewrite (C1 _ _ P). destruct b, t; try done; simpl in V |- *; rewrite ?st_yes_tri, ?st_no_tri in *;
      rewrite E1 in *; destruct (expr_value x1), (expr_value x2), c1, c2; done.
Qed.

(** What the second pass does once the operands of [e2] were visited. *)
Lemma dups2_absorb_ok t b root p q1 q2 s x1 tc :
  b ≠ t → wf_expr root = true → cell_get root p = Some s →
  on_spine (skeleton t s) q1 = Some SkLeaf → is_Some (on_spine (skeleton t s) q2) →
  cell_get s q1 = Some x1 →
  walk_ok False t root p s tc
    (let? e1 := cell_get root (p ++ q1) in
     let? e2 := cell_get root (p ++ q2) in
     let? x := dups2_leaf b e1 e2 in
     match x with
     | None => Some (root, tc)
     | Some x => let? root := cell_put root (p ++ q1) x in Some (root, S tc)
     end).
Proof.
  intros Hb W G K1 I2 G1. destruct I2 as [k2 K2].
  destruct (on_spine_get _ _ _ _ K2) as (x2 & G2 & _). rewrite !cell_get_app, G, G1, G2.
  pose proof (cell_get_pred (λ e, wf_expr e = true) root p s wf_two G W) as Ws.
  pose proof (cell_get_pred (λ e, wf_expr e = true) s q1 x1 wf_two G1 Ws) as W1.
  pose proof (cell_get_pred (λ e, wf_expr e = true) s q2 x2 wf_two G2 Ws) as W2.
  destruct (dups2_leaf_spec t b x1 x2 Hb W1 W2) as ([x|] & -> & Hx); [|by apply walk_ok_refl].
  destruct (Hx _ eq_refl) as [-> V].
  destruct (cell_put_ok s q1 x1 (Esymbol (neutral b)) G1) as [s' P].
  destruct (cell_put_ok root p s s' G) as [root' R].
  rewrite (cell_put_app _ _ _ s), P, R by done.
  exists s', root', (S tc). split_and!; [done..|]. eauto using step_absorb.
Qed.

Lemma dups2_ok n B t root p q1 q2 s tc :
  walk_pre n B t root p q1 q2 s →
  walk_ok False t root p s tc (dups2_f n t root (p ++ q1) (p ++ q2) tc).
Proof.
  revert t root p q1 q2 s tc.
  induction n as [|n IH]; intros t root p q1 q2 s tc W.
  { destruct W as [_ _ [k1 K1] [k2 K2] _ F]. specialize (F _ _ K1 K2). lia. }
  pose proof W as [A1 A2 [k1 K1] [k2 K2] A5 _]. simpl.
  destruct (on_spine_get _ _ _ _ K1) as (e1 & G1 & L1).
  destruct (on_spine_get _ _ _ _ K2) as (e2 & G2 & L2).
  rewrite !cell_get_app, A2, G1, G2.
  destruct (is_binop t e1) eqn:B1.
  { apply is_binop_true in B1. destruct k1 as [|l r]; [done|].
    rewrite <-!app_assoc. apply walk_ok_seq; [by eapply IH, walk_child1|].
    intros s' root' tc' P S. eapply IH, walk_after; eauto using walk_child1. }
  apply is_binop_false in B1. simplify_eq. rewrite B1 in *.
  apply walk_ok_seq.
  { destruct (is_binop t e2) eqn:B2; [|by apply walk_ok_refl].
    apply is_binop_true in B2. destruct (skeleton t e2) as [|l r] eqn:E2; [done|].
    rewrite <-!app_assoc. apply walk_ok_seq; [by eapply IH, walk_child2|].
    intros s' root' tc' P S. eapply IH, walk_after; eauto using walk_child2. }
  intros s1 root1 tc1 P1 S1. pose proof (walk_after _ _ _ _ _ _ _ _ _ _ _ _ _ W S1 P1) as W'.
  pose proof W' as [W1 G _ _ _ _]. rewrite <-(so_skel _ _ _ _ _ _ S1) in K1, K2.
  case_bool_decide as Hne; [by apply walk_ok_refl|].
  assert (Hq : q1 ≠ q2) by congruence.
  destruct (on_spine_get _ _ _ _ K1) as (x1 & Gx & Lx). rewrite cell_get_app, G, Gx.
  destruct (binop_of x1) as [b|] eqn:Eb; [|by apply walk_ok_refl].
  assert (b ≠ t) by (apply skeleton_leaf in Lx; congruence).
  apply walk_ok_seq.
  { apply (walk_ok_inner False t b root1 p q1 s1 x1); eauto.
    pose proof (IH b root1 (p ++ q1) [] [] x1 tc1) as IH'. rewrite app_nil_r in IH'.
    eapply IH', walk_inner; eauto using spine_leaf_ne. }
  intros s2 root2 tc2 P2 S2.
  pose proof (walk_after _ _ _ _ _ _ _ _ _ _ _ _ _ W' S2 P2) as [W2 G' _ _ _ _].
  rewrite <-(so_skel _ _ _ _ _ _ S2) in K1, K2.
  destruct (on_spine_get _ _ _ _ K1) as (y & Gy & _). eauto using dups2_absorb_ok.
Qed.

(** ** One turn and the loop *)

Lemma walk_pre_root t e : wf_expr e = true → walk_pre (dups_fuel e) (expr_size e) t e [] [] [] e.
Proof.
  intros W. split; simpl; eauto. intros k1 k2 [= <-] [= <-].
  pose proof (skel_size_le t e). unfold dups_fuel. lia.
Qed.

Lemma dups_pass_ok e :
  wf_expr e = true →
  ∃ e' tc, dups_pass e = Some (e', tc) ∧ wf_expr e' = true ∧
    (two_valued e → two_valued e' ∧ expr_value e' = expr_value e) ∧
    (tc = 0 ∧ e' = e ∨ tc ≠ 0 ∧ expr_size (expr_eliminate_yn e') < expr_size e).
Proof.
  intros W. unfold dups_pass. destruct (binop_of e) as [t|] eqn:Bt; [|by eauto 10].
  pose proof (dups1_ok _ _ t e [] [] [] e 0 (walk_pre_root t e W)) as D1. simpl in D1.
  destruct D1 as (e1 & ? & tc1 & -> & [= <-] & S1).
  pose proof (so_wf _ _ _ _ _ _ S1 W) as W1.
  pose proof (dups2_ok _ _ t e1 [] [] [] e1 tc1 (walk_pre_root t e1 W1)) as D2. simpl in D2.
  destruct D2 as (e2 & ? & tc2 & -> & [= <-] & S2).
  destruct S1 as [K1 _ Z1 T1 C1 V1], S2 as [K2 A2 Z2 T2 C2 V2].
  exists e2, tc2. split_and!; auto.
  { intros Tw. split; auto. rewrite V2, V1; auto. }
  assert (B2 : binop_of e2 = Some t).
  { destruct (decide (binop_of e2 = Some t)) as [?|N%skeleton_leaf]; [done|].
    apply skeleton_node in Bt. congruence. }
  destruct C1 as [[-> ->]|[? Y1]], C2 as [[-> ->]|[? Y2]]; auto; right;
    (split; [lia|]); (eapply Nat.lt_le_trans; [by eapply eliminate_yn_shrinks|lia]).
Qed.

Lemma dups_loop_ok n e :
  wf_expr e = true → expr_size e < n →
  ∃ e', dups_loop n e = Some e' ∧ wf_expr e' = true ∧ dups_pass e' = Some (e', 0) ∧
    expr_size e' ≤ expr_size e ∧ (two_valued e → two_valued e' ∧ expr_value e' = expr_value e).
Proof.
  revert e. induction n as [|n IH]; intros e W Hn; [lia|]. simpl.
  destruct (dups_pass_ok e W) as (e1 & tc & E & W1 & V1 & C). rewrite E.
  destruct C as [[-> ->]|[? Z]]; [rewrite decide_True by done; eauto 10|].
  rewrite decide_False by done.
  destruct (IH (expr_eliminate_yn e1)) as (e' & -> & ? & ? & ? & V);
    [by apply eliminate_yn_wf|lia|].
  exists e'. split_and!; try done; [lia|]. intros Tw. destruct (V1 Tw) as [T1 E1].
  destruct V as [? ->]; [by apply eliminate_yn_two_valued|]. by rewrite eliminate_yn_value.
Qed.
End Walk.
