(* ===== verification/KExprSyms.v ===== *)
(** * The symbols of an expression

    The simplifier makes no symbols up: what it returns is built from the
    symbols of its arguments and the constants [y], [m] and [n].  So a
    configuration whose expressions point to existing symbols stays one. *)
From S2P Require Import Prelude CLib KData KExpr KExprFacts KExprDups.
Open Scope pr30_scope.

(** Every symbol of the expression is in [S]. *)
Fixpoint over (S : sid → Prop) (e : expr) : Prop :=
  match e with
  | Eor l r | Eand l r => over S l ∧ over S r
  | Enot l => over S l
  | Eequal l r | Eunequal l r | Erange l r => S l ∧ S r
  | Esymbol s => S s
  | Echoice l s => match l with Some l => over S l | None => True end ∧ S s
  end.
Definition over_null (S : sid → Prop) (e : option expr) : Prop := from_option (over S) True e.

Lemma over_mono (S R : sid → Prop) e : (∀ s, S s → R s) → over S e → over R e.
Proof.
  intros H. revert e. fix IH 1. intros [l r|l r|l|l r|l r|[l|] s|s|l r]; simpl; intuition auto.
Qed.
Lemma over_null_mono (S R : sid → Prop) e : (∀ s, S s → R s) → over_null S e → over_null R e.
Proof. destruct e as [e|]; [|done]. apply over_mono. Qed.

Lemma over_alloc_two S t l r : over S (expr_alloc_two t l r) ↔ over S l ∧ over S r.
Proof. by destruct t. Qed.
Lemma over_null_and S a b : over_null S a → over_null S b → over_null S (expr_alloc_and a b).
Proof. by destruct a, b; simpl. Qed.
Lemma over_null_or S a b : over_null S a → over_null S b → over_null S (expr_alloc_or a b).
Proof. by destruct a, b; simpl. Qed.

Lemma over_copy S e e' : expr_copy e = Some e' → over S e → over S e'.
Proof.
  revert e'. induction e as [l IHl r IHr|l IHl r IHr|l IHl| | | | |]; intros e' E H; simpl in *; try done; try (by injection E as <-);
    repeat opt_step E; injection E as <-; try destruct H; simpl; auto.
Qed.
Lemma over_yn (S : sid → Prop) e : S symbol_yes → S symbol_no → over S e → over S (expr_eliminate_yn e).
Proof.
  intros Y N. induction e; simpl; try done; intros [H1 H2]; specialize (IHe1 H1); specialize (IHe2 H2);
    repeat case_match; done.
Qed.

Section Symbols.
Context {T : SymTab} (S : sid → Prop) (Sy : S symbol_yes) (Sm : S symbol_mod) (Sn : S symbol_no).

Lemma over_neutral t : S (neutral t).
Proof using Sy Sn. by destruct t. Qed.

Lemma over_trans_bool e : over S e → over S (expr_trans_bool e).
Proof. induction e; simpl; try tauto; repeat case_decide; simpl; tauto. Qed.

Lemma over_trans_compare e t : over_null S e → over_null S (expr_trans_compare e t symbol_no).
Proof using Sn.
  destruct e as [e|]; simpl; [|by destruct t]. revert t.
  induction e as [l IHl r IHr|l IHl r IHr|l IHl| | | | |]; intros t W; simpl in *; try done.
  - destruct W as [W1 W2]. specialize (IHl Q_EQUAL W1). specialize (IHr Q_EQUAL W2).
    destruct (trans_compare l Q_EQUAL symbol_no), (trans_compare r Q_EQUAL symbol_no); try done. by destruct t.
  - destruct W as [W1 W2]. specialize (IHl Q_EQUAL W1). specialize (IHr Q_EQUAL W2).
    destruct (trans_compare l Q_EQUAL symbol_no), (trans_compare r Q_EQUAL symbol_no); try done. by destruct t.
  - by apply IHl.
  - by destruct t.
  - by destruct t.
  - by destruct t.
Qed.

Lemma over_transform n e e' : transform_f n e = Some e' → over S e → over S e'.
Proof using Sy Sm Sn.
  revert e e'. induction n as [|n IH]; intros e e' E H; [done|]. simpl in E. destruct e; try done.
  - opt_inv E. split; eapply IH; eauto; apply H.
  - opt_inv E. split; eapply IH; eauto; apply H.
  - opt_step E. pose proof (IH _ _ E0 H) as Hl. destruct e0; simpl in Hl; try (injection E as <-); try done.
    + eapply IH; [exact E|]. done.
    + eapply IH; [exact E|]. done.
    + eapply IH; [exact E|]. done.
    + repeat case_decide; injection E as <-; done.
  - injection E as <-. simpl in H. unfold transform_equal. repeat case_match; simpl; tauto.
  - injection E as <-. simpl in H. unfold transform_unequal. repeat case_match; simpl; tauto.
  - by injection E as <-.
  - by injection E as <-.
Qed.

Lemma join_sym1_over e s : join_sym1 e = Some s → over S e → S s.
Proof.
  destruct e as [| |l| | | | |]; simpl; try done; try (intros [= <-]; tauto).
  destruct l; try done; intros [= <-]; simpl; tauto.
Qed.

Lemma over_join_or e1 e2 e : expr_join_or e1 e2 = Some (Some e) → over S e1 → over S e2 → over S e.
Proof using Sy Sm Sn.
  intros E H1 H2. unfold expr_join_or in E. opt_step E. destruct b.
  { opt_inv E. by eapply over_copy. }
  destruct (join_sym1 e1) as [s1|] eqn:J1; [|done]. destruct (join_sym2 e2) as [s2|]; [|done].
  pose proof (join_sym1_over _ _ J1 H1). repeat case_match; simplify_eq; done.
Qed.

Lemma over_join_and e1 e2 e : expr_join_and e1 e2 = Some (Some e) → over S e1 → over S e2 → over S e.
Proof using Sy Sm Sn.
  intros E H1 H2. unfold expr_join_and in E. opt_step E. destruct b.
  { opt_inv E. by eapply over_copy. }
  destruct (join_sym1 e1) as [s1|] eqn:J1; [|done]. destruct (join_sym2 e2) as [s2|]; [|done].
  pose proof (join_sym1_over _ _ J1 H1) as Hs. unfold join_eq_neq in E.
  do 6 (case_match; [by simplify_eq|]).
  destruct e1, e2; cbn in *; repeat case_match; simplify_eq; cbn; tauto.
Qed.

Lemma over_cell_get e p x : cell_get e p = Some x → over S e → over S x.
Proof.
  revert e. induction p as [|d p IH]; intros e E H; simpl in E; [by injection E as <-|].
  destruct e; try done; destruct d; eapply IH; eauto; apply H.
Qed.
Lemma over_cell_put e p x e' : cell_put e p x = Some e' → over S e → over S x → over S e'.
Proof.
  revert e e'. induction p as [|d p IH]; intros e e' E H Hx; simpl in E; [by injection E as <-|].
  destruct e; try done; destruct d; opt_inv E; split; try apply H; (eapply IH; [done|apply H|done]).
Qed.

Lemma over_dups1 n t e p1 p2 tc e' tc' : dups1_f n t e p1 p2 tc = Some (e', tc') → over S e → over S e'.
Proof using Sy Sm Sn.
  revert t e p1 p2 tc e' tc'. induction n as [|n IH]; intros t e p1 p2 tc e' tc' E H; [done|]. simpl in E.
  do 2 opt_step E. destruct (is_binop t e0); [opt_inv E; eauto|]. destruct (is_binop t e1); [opt_inv E; eauto|].
  destruct (bool_decide (p1 = p2)); [by injection E as <- _|].
  opt_step E. destruct p as [e2 tc2].
  assert (H2 : over S e2) by (destruct (binop_of e0); [eauto|by injection E2 as <- _]).
  do 2 opt_step E. pose proof (over_cell_get _ _ _ E3 H2). pose proof (over_cell_get _ _ _ E4 H2).
  opt_step E. destruct o as [x|]; [|by injection E as <- _]. assert (Hx : over S x).
  { destruct t; [by eapply over_join_or|by eapply over_join_and]. }
  do 2 opt_step E. injection E as <- _. eapply over_cell_put; [done| |done].
  eapply over_cell_put; [done..|]. apply over_neutral.
Qed.

Lemma over_dups2_leaf b e1 e2 x : dups2_leaf b e1 e2 = Some (Some x) → over S x.
Proof using Sy Sn.
  unfold dups2_leaf. intros E. do 3 opt_step E. destruct b; opt_step E; destruct p as [[? ?] ?];
    injection E as E; case_match; try done; by injection E as <-.
Qed.

Lemma over_dups2 n t e p1 p2 tc e' tc' : dups2_f n t e p1 p2 tc = Some (e', tc') → over S e → over S e'.
Proof using Sy Sm Sn.
  revert t e p1 p2 tc e' tc'. induction n as [|n IH]; intros t e p1 p2 tc e' tc' E H; [done|]. simpl in E.
  do 2 opt_step E. destruct (is_binop t e0); [opt_inv E; eauto|].
  opt_step E. destruct p as [e2 tc2].
  assert (H2 : over S e2) by (destruct (is_binop t e1); [opt_inv E2; eauto|by injection E2 as <- _]).
  destruct (bool_decide (p1 = p2)); [by injection E as <- _|]. opt_step E.
  destruct (binop_of e3) as [b|]; [|by injection E as <- _]. opt_step E. destruct p as [e4 tc4].
  pose proof (IH _ _ _ _ _ _ _ E4 H2) as H4. do 3 opt_step E.
  destruct o as [x|]; [|by injection E as <- _]. opt_step E. injection E as <- _.
  eapply over_cell_put; [done..|]. by eapply over_dups2_leaf.
Qed.

Lemma over_dups e e' : expr_eliminate_dups e = Some e' → over S e → over S e'.
Proof using Sy Sm Sn.
  unfold expr_eliminate_dups. generalize (Datatypes.S (expr_size e)). intros n. revert e.
  induction n as [|n IH]; intros e E H; [done|]. simpl in E. opt_step E. destruct p as [e1 tc].
  assert (H1 : over S e1).
  { unfold dups_pass in E0. destruct (binop_of e); [|by injection E0 as <- _]. opt_step E0. destruct p as [e2 tc2].
    eapply over_dups2; [done|]. by eapply over_dups1. }
  case_decide; [by injection E as <-|]. eapply IH; [done|]. by apply over_yn.
Qed.
End Symbols.
