(* ===== verification/KExprSpec.v ===== *)
(** * Kconfig expressions: the properties of [scripts/config/expr.c]

    The simplifier works on dependency expressions whose values are the three
    states [n < m < y].  Each theorem here is about the value a rewriting
    keeps, for every symbol table with the laws of [SymTabOk], and about the
    fact that the rewriting returns. *)
From S2P Require Import Prelude KData KExpr KExprFacts KExprEq KExprSimp KExprDups KExprPass.
Open Scope pr30_scope.

(** ** A small table, for the concrete cases

    [4] and [5] are the tristates [FOO] and [BAR], both [m]; [6] is the
    boolean [BAZ], [y]; [7] is the boolean [QUX], [n]. *)
Definition demo_letter (s : sid) : option tristate :=
  match s with
  | 0 => Some Yes | 1 => Some Mod | 2 => Some No
  | 4 | 5 => Some Mod | 6 => Some Yes | 7 => Some No
  | _ => None
  end.

#[export] Instance demo : SymTab := {|
  st_type s := match s with 4 | 5 => S_TRISTATE | 6 | 7 => S_BOOLEAN | _ => S_UNKNOWN end;
  st_flags s := match s with 0 | 1 | 2 => SYMBOL_CONST | _ => 0%Z end;
  st_name s :=
    match s with
    | 0 => Some "y" | 1 => Some "m" | 2 => Some "n" | 3 => Some ""
    | 4 => Some "FOO" | 5 => Some "BAR" | 6 => Some "BAZ" | 7 => Some "QUX" | _ => None
    end%string;
  st_tri s := default No (demo_letter s);
  st_str s := match demo_letter s with Some t => tri_string t | None => ""%string end;
|}.

#[export] Instance demo_ok : SymTabOk demo.
Proof.
  split; try done.
  - intros s. by do 8 (destruct s as [|s]; [done|]).
  - intros s1 s2.
    do 3 (destruct s1 as [|s1]; [do 3 (destruct s2 as [|s2]; [done|]); by do 5 (destruct s2 as [|s2]; [done|])|]).
    by do 5 (destruct s1 as [|s1]; [done|]).
  - intros s. by do 8 (destruct s as [|s]; [done|]).
  - intros s. do 8 (destruct s as [|s]; [by intros [?|?]|]). by intros [?|?].
Qed.

Definition FOO := Esymbol 4.
Definition BAR := Esymbol 5.
Definition BAZ := Esymbol 6.
Definition QUX := Esymbol 7.

(** ** Negation normal form *)

(** C10: [expr_transform] returns on every dependency expression; the result
    has the same value, is again a dependency expression, has negations only
    in front of symbols other than [y], [m], [n] and no comparison of a
    boolean symbol with one of these, and is left alone by a second call. *)
Theorem expr_transform_correct {T : SymTab} {OK : SymTabOk T} e :
  wf_expr e = true →
  ∃ e', expr_transform e = Some e' ∧ expr_value e' = expr_value e ∧ wf_expr e' = true ∧
        nnf e' = true ∧ expr_transform e' = Some e'.
Proof.
  intros W. destruct (transform_total (transform_weight e) e W) as [e' E]; [done|].
  exists e'. split_and!; [done|..].
  - by eapply transform_value.
  - by eapply transform_wf.
  - by eapply transform_nnf.
  - apply transform_nnf_id; [by eapply transform_nnf|by eapply transform_wf|done].
Qed.

Lemma expr_transform_correct_witness :
  wf_expr (Enot (Eor FOO (Enot (Eunequal 6 symbol_no)))) = true ∧
  ∃ e', expr_transform (Enot (Eor FOO (Enot (Eunequal 6 symbol_no)))) = Some e' ∧
    expr_value e' = expr_value (Enot (Eor FOO (Enot (Eunequal 6 symbol_no)))) ∧
    wf_expr e' = true ∧ nnf e' = true ∧ expr_transform e' = Some e'.
Proof. split; [reflexivity|]. apply expr_transform_correct. reflexivity. Defined.

(** ** Elimination of duplicates *)

(** C11: the loop of [expr_eliminate_dups] ends on every dependency
    expression.  The result is no larger, a further turn changes nothing, and
    the value is kept when no operand is [m]. *)
Theorem expr_eliminate_dups_correct {T : SymTab} {OK : SymTabOk T} e :
  wf_expr e = true →
  ∃ e', expr_eliminate_dups e = Some e' ∧ wf_expr e' = true ∧ expr_size e' ≤ expr_size e ∧
        dups_pass e' = Some (e', 0) ∧ expr_eliminate_dups e' = Some e' ∧
        (two_valued e → expr_value e' = expr_value e).
Proof.
  intros W. destruct (dups_loop_ok (S (expr_size e)) e W) as (e' & E & W' & F & Z & V); [lia|].
  exists e'. split_and!; try done.
  - unfold expr_eliminate_dups. simpl. by rewrite F.
  - intros Tw. by apply V.
Qed.

Lemma expr_eliminate_dups_correct_witness :
  wf_expr (Eor (Eand BAZ QUX) (Eor (Eand BAZ QUX) BAZ)) = true ∧
  ∃ e', expr_eliminate_dups (Eor (Eand BAZ QUX) (Eor (Eand BAZ QUX) BAZ)) = Some e' ∧
    wf_expr e' = true ∧ expr_size e' ≤ expr_size (Eor (Eand BAZ QUX) (Eor (Eand BAZ QUX) BAZ)) ∧
    dups_pass e' = Some (e', 0) ∧ expr_eliminate_dups e' = Some e' ∧
    (two_valued (Eor (Eand BAZ QUX) (Eor (Eand BAZ QUX) BAZ)) →
     expr_value e' = expr_value (Eor (Eand BAZ QUX) (Eor (Eand BAZ QUX) BAZ))).
Proof. split; [reflexivity|]. apply expr_eliminate_dups_correct. reflexivity. Defined.

(** The first pass ([expr_eliminate_dups1] of a whole chain) returns and
    keeps the value for all three states. *)
Theorem expr_eliminate_dups1_correct {T : SymTab} {OK : SymTabOk T} t e tc :
  wf_expr e = true →
  ∃ e' tc', dups1_f (dups_fuel e) t e [] [] tc = Some (e', tc') ∧
    expr_value e' = expr_value e ∧ wf_expr e' = true ∧ (tc' = tc → e' = e).
Proof.
  intros W. pose proof (dups1_ok _ _ t e [] [] [] e tc (walk_pre_root t e W)) as D.
  simpl in D. destruct D as (e' & ? & tc' & -> & [= <-] & [S1 S2 S3 S4 S5 S6]).
  exists e', tc'. split_and!; auto. intros ->. destruct S5 as [[_ ?]|[? _]]; [done|lia].
Qed.

Lemma expr_eliminate_dups1_correct_witness :
  wf_expr (Eor FOO (Eor BAR FOO)) = true ∧
  ∃ e' tc', dups1_f (dups_fuel (Eor FOO (Eor BAR FOO))) B_OR (Eor FOO (Eor BAR FOO)) [] [] 0
              = Some (e', tc') ∧
    expr_value e' = expr_value (Eor FOO (Eor BAR FOO)) ∧ wf_expr e' = true ∧
    (tc' = 0 → e' = Eor FOO (Eor BAR FOO)).
Proof. split; [reflexivity|]. apply expr_eliminate_dups1_correct. reflexivity. Defined.


(** ** Equality, folding and extraction *)

(** C32: [expr_eq] returns on every two dependency expressions, and two
    expressions it finds equal have the same value. *)
Theorem expr_eq_correct {T : SymTab} {OK : SymTabOk T} e1 e2 :
  wf_expr e1 = true → wf_expr e2 = true →
  ∃ b, expr_eq e1 e2 = Some b ∧ (b = true → expr_value e1 = expr_value e2).
Proof.
  intros W1 W2. destruct (expr_eq_total e1 e2 W1 W2) as [b E]. exists b. split; [done|].
  intros ->. by apply expr_eq_sound.
Qed.

Lemma expr_eq_correct_witness :
  expr_eq (Eand FOO (Eand BAR BAZ)) (Eand (Eand BAZ FOO) BAR) = Some true ∧
  ∃ b, expr_eq (Eand FOO (Eand BAR BAZ)) (Eand (Eand BAZ FOO) BAR) = Some b ∧
    (b = true → expr_value (Eand FOO (Eand BAR BAZ)) = expr_value (Eand (Eand BAZ FOO) BAR)).
Proof. split; [vm_compute; reflexivity|]. apply expr_eq_correct; reflexivity. Defined.

Lemma eliminate_yn_no_leaf e :
  expr_eliminate_yn e = Esymbol symbol_yes ∨ expr_eliminate_yn e = Esymbol symbol_no ∨
  yn_leaf (expr_eliminate_yn e) = false.
Proof.
  induction e as [l IHl r IHr|l IHl r IHr|l IHl|a b|a b|l s|s|a b]; simpl; auto.
  - repeat case_match; subst; auto; right; right; simpl in *;
      destruct IHl as [E|[E|E]], IHr as [E'|[E'|E']]; simplify_eq; by rewrite ?E, ?E'.
  - repeat case_match; subst; auto; right; right; simpl in *;
      destruct IHl as [E|[E|E]], IHr as [E'|[E'|E']]; simplify_eq; by rewrite ?E, ?E'.
  - destruct (decide (s = symbol_yes)) as [->|?]; [auto|].
    destruct (decide (s = symbol_no)) as [->|?]; [auto|].
    right. right. by rewrite !bool_decide_eq_false_2.
Qed.

Lemma eliminate_yn_fixed e : yn_leaf e = false → expr_eliminate_yn e = e.
Proof.
  induction e as [l IHl r IHr|l IHl r IHr|l IHl|a b|a b|l s|s|a b]; simpl; try done;
    rewrite orb_false_iff; intros [Yl Yr]; rewrite (IHl Yl), (IHr Yr);
    repeat case_match; subst; simpl in *; done.
Qed.

(** [expr_eliminate_yn] keeps the value, does not enlarge the tree and
    leaves a constant or a tree without the constants [y] and [n] among the
    operands of its OR and AND nodes, so that a second call changes nothing. *)
Theorem expr_eliminate_yn_correct {T : SymTab} {OK : SymTabOk T} e :
  expr_value (expr_eliminate_yn e) = expr_value e ∧
  expr_size (expr_eliminate_yn e) ≤ expr_size e ∧
  (expr_eliminate_yn e = Esymbol symbol_yes ∨ expr_eliminate_yn e = Esymbol symbol_no ∨
   yn_leaf (expr_eliminate_yn e) = false) ∧
  expr_eliminate_yn (expr_eliminate_yn e) = expr_eliminate_yn e.
Proof.
  pose proof (eliminate_yn_no_leaf e) as N.
  split_and!; auto using eliminate_yn_value, eliminate_yn_size.
  destruct N as [->|[->|N]]; [done..|]. by apply eliminate_yn_fixed.
Qed.

Lemma expr_eliminate_yn_correct_witness :
  expr_eliminate_yn (Eor (Eand FOO (Esymbol symbol_no)) BAR) = BAR ∧
  expr_value (expr_eliminate_yn (Eor (Eand FOO (Esymbol symbol_no)) BAR)) =
    expr_value (Eor (Eand FOO (Esymbol symbol_no)) BAR).
Proof. split; [reflexivity|]. apply expr_eliminate_yn_correct. Defined.

(** [expr_extract_eq_and] and [expr_extract_eq_or] split two expressions
    into a common part and a rest: joining the part to either rest gives back
    the value of the expression it came from. *)
Theorem expr_extract_eq_correct {T : SymTab} {OK : SymTabOk T} t e1 e2 :
  wf_expr e1 = true → wf_expr e2 = true →
  ∃ tmp e1' e2', expr_extract_eq_common t e1 e2 = Some (tmp, e1', e2') ∧
    expr_value e1 = tri_op t (part_value t tmp) (expr_value e1') ∧
    expr_value e2 = tri_op t (part_value t tmp) (expr_value e2').
Proof. apply extract_common_spec. Qed.

Lemma expr_extract_eq_correct_witness :
  expr_extract_eq_and (Eand FOO BAZ) (Eand QUX FOO) = Some (Some FOO, BAZ, QUX) ∧
  ∃ tmp e1' e2', expr_extract_eq_common B_AND (Eand FOO BAZ) (Eand QUX FOO) = Some (tmp, e1', e2') ∧
    expr_value (Eand FOO BAZ) = tri_op B_AND (part_value B_AND tmp) (expr_value e1') ∧
    expr_value (Eand QUX FOO) = tri_op B_AND (part_value B_AND tmp) (expr_value e2').
Proof. split; [vm_compute; reflexivity|]. apply expr_extract_eq_correct; reflexivity. Defined.

(** Joining two operands of a chain ([expr_join_or], [expr_join_and])
    returns, and an operand it produces has the value of the two together. *)
Theorem expr_join_correct {T : SymTab} {OK : SymTabOk T} e1 e2 :
  wf_expr e1 = true → wf_expr e2 = true →
  ∃ o a, expr_join_or e1 e2 = Some o ∧ expr_join_and e1 e2 = Some a ∧
    (∀ e, o = Some e → expr_value e = tri_or (expr_value e1) (expr_value e2)) ∧
    (∀ e, a = Some e → expr_value e = tri_and (expr_value e1) (expr_value e2)).
Proof.
  intros W1 W2. destruct (expr_join_total B_OR e1 e2 W1 W2) as [o Ho].
  destruct (expr_join_total B_AND e1 e2 W1 W2) as [a Ha]. exists o, a. split_and!; [done..| |].
  - intros e ->. by apply (expr_join_value B_OR).
  - intros e ->. by apply (expr_join_value B_AND).
Qed.

Lemma expr_join_correct_witness :
  expr_join_or (Eequal 4 symbol_yes) (Eequal 4 symbol_mod) = Some (Some (Eunequal 4 symbol_no)) ∧
  ∃ o a, expr_join_or (Eequal 4 symbol_yes) (Eequal 4 symbol_mod) = Some o ∧
    expr_join_and (Eequal 4 symbol_yes) (Eequal 4 symbol_mod) = Some a ∧
    (∀ e, o = Some e → expr_value e =
       tri_or (expr_value (Eequal 4 symbol_yes)) (expr_value (Eequal 4 symbol_mod))) ∧
    (∀ e, a = Some e → expr_value e =
       tri_and (expr_value (Eequal 4 symbol_yes)) (expr_value (Eequal 4 symbol_mod))).
Proof. split; [vm_compute; reflexivity|]. apply expr_join_correct; reflexivity. Defined.

(** ** Comparison, the boolean shortcut, and the memory of a tree *)

(** [expr_trans_compare] of an expression with [y] or [n] is an
    expression for that comparison, when every symbol of the expression
    carries the letter of its value and no negated part is [m]. *)
Theorem expr_trans_compare_correct {T : SymTab} {OK : SymTabOk T} e t (sym : sid) (v : tristate) :
  comparable e → (sym = symbol_yes ∧ v = Yes) ∨ (sym = symbol_no ∧ v = No) →
  ∃ e', expr_trans_compare (Some e) t sym = Some e' ∧ expr_value e' = tri_cmp t (expr_value e) v.
Proof. apply trans_compare_value. Qed.

Lemma expr_trans_compare_correct_witness :
  comparable (Eand FOO (Enot QUX)) ∧
  ∃ e', expr_trans_compare (Some (Eand FOO (Enot QUX))) Q_UNEQUAL symbol_no = Some e' ∧
    expr_value e' = tri_cmp Q_UNEQUAL (expr_value (Eand FOO (Enot QUX))) No.
Proof.
  split; [by split_and!|].
  apply (expr_trans_compare_correct _ Q_UNEQUAL symbol_no No); [by split_and!|]. right. done.
Defined.

(** A negation is handled by turning the comparison around, which is
    wrong for an operand that is [m]: [!FOO] is then [m] and differs from [n],
    but the expression made for [!FOO != n] is [n]. *)
Theorem expr_trans_compare_not_mod :
  expr_trans_compare (Some (Enot FOO)) Q_UNEQUAL symbol_no = Some (Eequal 4 symbol_no) ∧
  expr_value (Enot FOO) = Mod ∧
  tri_cmp Q_UNEQUAL (expr_value (Enot FOO)) No = Yes ∧
  expr_value (Eequal 4 symbol_no) = No.
Proof. done. Qed.

(** On an expression [expr_transform] leaves, [expr_trans_bool] keeps
    the value up to the promotion of [m] to [y] that a boolean symbol makes. *)
Theorem expr_trans_bool_correct {T : SymTab} {OK : SymTabOk T} e :
  nnf e = true → promote (expr_value (expr_trans_bool e)) = promote (expr_value e).
Proof. apply trans_bool_promote. Qed.

Lemma expr_trans_bool_correct_witness :
  expr_trans_bool (Eand BAZ (Eunequal 4 symbol_no)) = Eand BAZ FOO ∧
  promote (expr_value (expr_trans_bool (Eand BAZ (Eunequal 4 symbol_no)))) =
  promote (expr_value (Eand BAZ (Eunequal 4 symbol_no))).
Proof. split; [reflexivity|]. apply expr_trans_bool_correct. reflexivity. Defined.

(** [expr_copy] of a dependency expression is an equal tree, and
    [expr_free] releases every node of a tree except its negations. *)
Theorem expr_copy_free e :
  (wf_expr e = true → expr_copy e = Some e) ∧ expr_free e + not_nodes e = expr_size e.
Proof. auto using expr_copy_wf, expr_free_leak. Qed.
