(* ===== verification/KState.v ===== *)
(** * The store of the configuration tool

    [struct symbol], [struct property] and [struct menu] ([scripts/config/expr.h])
    as records, the objects of a run in finite maps from object numbers, the
    global variables of [symbol.c], [menu.c] and [confdata.c], and the reads
    and writes of single members.  A pointer to an object is its number, a
    NULL pointer [None]; following a pointer to nothing is a [Crash]. *)
From S2P Require Import Prelude KData.
Open Scope pr30_scope.

Definition pid := nat.
Definition mid := nat.

(** A C string and where it is: two pointers to equal texts can differ. *)
Record cstr : Set := CStr { cs_addr : nat; cs_text : string }.

(** [void *val] of [struct symbol_value]: a string or, for a choice, a symbol. *)
Inductive cval : Set := VNull | VStr (s : cstr) | VSym (s : sid).

Record symbol_value : Set := SValue { sv_val : cval; sv_tri : tristate }.

#[export] Instance cstr_eq_dec : EqDecision cstr.
Proof. solve_decision. Defined.
#[export] Instance cval_eq_dec : EqDecision cval.
Proof. solve_decision. Defined.
#[export] Instance symbol_value_eq_dec : EqDecision symbol_value.
Proof. solve_decision. Defined.

(** [rev_dep_inv.tri] is not read by the code modelled here, [help] is kept
    by the parser ([ps_help]); the list [sy_prop] is the chain of [next] pointers that starts at [prop]. *)
Record symbol : Set := Symbol {
  sy_name : option cstr;
  sy_type : symbol_type;
  sy_curr : symbol_value;
  sy_user : symbol_value;
  sy_visible : tristate;
  sy_flags : Z;
  sy_prop : list pid;
  sy_rev_dep : option expr;
  sy_rev_dep_tri : tristate;
  sy_rev_dep_inv : option expr;
}.

Record property : Set := Property {
  pr_sym : option sid;
  pr_type : prop_type;
  pr_text : option string;
  pr_visible : option expr;
  pr_visible_tri : tristate;
  pr_expr : option expr;
  pr_menu : option mid;
}.

Record menu : Set := Menu {
  mn_next : option mid;
  mn_parent : option mid;
  mn_list : option mid;
  mn_sym : option sid;
  mn_prompt : option pid;
  mn_dep : option expr;
  mn_flags : Z;
}.

(** What is written to the terminal. *)
Inductive message : Set :=
  | MsgRecursive (s : sid)
  | MsgChain (s : sid)
  | MsgChainEnd
  | MsgHowToCheck (t : expr_type)
  | MsgCalc (t : expr_type)
  | MsgMenu (m : mid) (text : string)
  | MsgProp (p : pid) (text : string)
  | MsgConf (text : string).

Record kstate : Set := KState {
  ks_syms : gmap sid symbol;
  ks_props : gmap pid property;
  ks_menus : gmap mid menu;
  (** [symbol_hash]: the chains of [next] pointers. *)
  ks_hash : gmap nat (list sid);
  (** The next address [malloc] gives to a symbol, property, menu, string. *)
  ks_new_sym : sid;
  ks_new_prop : pid;
  ks_new_menu : mid;
  ks_new_str : nat;
  ks_change_count : Z;
  ks_modules_sym : option sid;
  ks_modules_val : tristate;
  ks_current_entry : mid;
  ks_current_menu : option mid;
  (** [last_entry_ptr]: [&menu->list] ([true]) or [&menu->next] ([false]). *)
  ks_last_entry : mid * bool;
  ks_log : list message;
}.

(** ** Updates of single members *)

Definition sy_set_curr (v : symbol_value) (y : symbol) : symbol :=
  Symbol (sy_name y) (sy_type y) v (sy_user y) (sy_visible y) (sy_flags y) (sy_prop y)
    (sy_rev_dep y) (sy_rev_dep_tri y) (sy_rev_dep_inv y).
Definition sy_set_user (v : symbol_value) (y : symbol) : symbol :=
  Symbol (sy_name y) (sy_type y) (sy_curr y) v (sy_visible y) (sy_flags y) (sy_prop y)
    (sy_rev_dep y) (sy_rev_dep_tri y) (sy_rev_dep_inv y).
Definition sy_set_type (t : symbol_type) (y : symbol) : symbol :=
  Symbol (sy_name y) t (sy_curr y) (sy_user y) (sy_visible y) (sy_flags y) (sy_prop y)
    (sy_rev_dep y) (sy_rev_dep_tri y) (sy_rev_dep_inv y).
Definition sy_set_visible (v : tristate) (y : symbol) : symbol :=
  Symbol (sy_name y) (sy_type y) (sy_curr y) (sy_user y) v (sy_flags y) (sy_prop y)
    (sy_rev_dep y) (sy_rev_dep_tri y) (sy_rev_dep_inv y).
Definition sy_set_flags (f : Z) (y : symbol) : symbol :=
  Symbol (sy_name y) (sy_type y) (sy_curr y) (sy_user y) (sy_visible y) f (sy_prop y)
    (sy_rev_dep y) (sy_rev_dep_tri y) (sy_rev_dep_inv y).
Definition sy_set_prop (l : list pid) (y : symbol) : symbol :=
  Symbol (sy_name y) (sy_type y) (sy_curr y) (sy_user y) (sy_visible y) (sy_flags y) l
    (sy_rev_dep y) (sy_rev_dep_tri y) (sy_rev_dep_inv y).
Definition sy_set_rev_dep (e : option expr) (y : symbol) : symbol :=
  Symbol (sy_name y) (sy_type y) (sy_curr y) (sy_user y) (sy_visible y) (sy_flags y) (sy_prop y)
    e (sy_rev_dep_tri y) (sy_rev_dep_inv y).
Definition sy_set_rev_dep_tri (t : tristate) (y : symbol) : symbol :=
  Symbol (sy_name y) (sy_type y) (sy_curr y) (sy_user y) (sy_visible y) (sy_flags y) (sy_prop y)
    (sy_rev_dep y) t (sy_rev_dep_inv y).
Definition sy_set_rev_dep_inv (e : option expr) (y : symbol) : symbol :=
  Symbol (sy_name y) (sy_type y) (sy_curr y) (sy_user y) (sy_visible y) (sy_flags y) (sy_prop y)
    (sy_rev_dep y) (sy_rev_dep_tri y) e.

Definition sv_set_val (x : cval) (v : symbol_value) : symbol_value := SValue x (sv_tri v).
Definition sv_set_tri (t : tristate) (v : symbol_value) : symbol_value := SValue (sv_val v) t.

Definition pr_set_visible (e : option expr) (p : property) : property :=
  Property (pr_sym p) (pr_type p) (pr_text p) e (pr_visible_tri p) (pr_expr p) (pr_menu p).
Definition pr_set_visible_tri (t : tristate) (p : property) : property :=
  Property (pr_sym p) (pr_type p) (pr_text p) (pr_visible p) t (pr_expr p) (pr_menu p).
Definition pr_set_expr (e : option expr) (p : property) : property :=
  Property (pr_sym p) (pr_type p) (pr_text p) (pr_visible p) (pr_visible_tri p) e (pr_menu p).

Definition mn_set_next (m : option mid) (x : menu) : menu :=
  Menu m (mn_parent x) (mn_list x) (mn_sym x) (mn_prompt x) (mn_dep x) (mn_flags x).
Definition mn_set_parent (m : option mid) (x : menu) : menu :=
  Menu (mn_next x) m (mn_list x) (mn_sym x) (mn_prompt x) (mn_dep x) (mn_flags x).
Definition mn_set_list (m : option mid) (x : menu) : menu :=
  Menu (mn_next x) (mn_parent x) m (mn_sym x) (mn_prompt x) (mn_dep x) (mn_flags x).
Definition mn_set_prompt (p : option pid) (x : menu) : menu :=
  Menu (mn_next x) (mn_parent x) (mn_list x) (mn_sym x) p (mn_dep x) (mn_flags x).
Definition mn_set_dep (e : option expr) (x : menu) : menu :=
  Menu (mn_next x) (mn_parent x) (mn_list x) (mn_sym x) (mn_prompt x) e (mn_flags x).
Definition mn_set_flags (f : Z) (x : menu) : menu :=
  Menu (mn_next x) (mn_parent x) (mn_list x) (mn_sym x) (mn_prompt x) (mn_dep x) f.

Definition ks_set_syms (x : gmap sid symbol) (k : kstate) : kstate :=
  KState x (ks_props k) (ks_menus k) (ks_hash k) (ks_new_sym k) (ks_new_prop k) (ks_new_menu k)
    (ks_new_str k) (ks_change_count k) (ks_modules_sym k) (ks_modules_val k)
    (ks_current_entry k) (ks_current_menu k) (ks_last_entry k) (ks_log k).
Definition ks_set_props (x : gmap pid property) (k : kstate) : kstate :=
  KState (ks_syms k) x (ks_menus k) (ks_hash k) (ks_new_sym k) (ks_new_prop k) (ks_new_menu k)
    (ks_new_str k) (ks_change_count k) (ks_modules_sym k) (ks_modules_val k)
    (ks_current_entry k) (ks_current_menu k) (ks_last_entry k) (ks_log k).
Definition ks_set_menus (x : gmap mid menu) (k : kstate) : kstate :=
  KState (ks_syms k) (ks_props k) x (ks_hash k) (ks_new_sym k) (ks_new_prop k) (ks_new_menu k)
    (ks_new_str k) (ks_change_count k) (ks_modules_sym k) (ks_modules_val k)
    (ks_current_entry k) (ks_current_menu k) (ks_last_entry k) (ks_log k).
Definition ks_set_hash (x : gmap nat (list sid)) (k : kstate) : kstate :=
  KState (ks_syms k) (ks_props k) (ks_menus k) x (ks_new_sym k) (ks_new_prop k) (ks_new_menu k)
    (ks_new_str k) (ks_change_count k) (ks_modules_sym k) (ks_modules_val k)
    (ks_current_entry k) (ks_current_menu k) (ks_last_entry k) (ks_log k).
Definition ks_set_new_sym (x : sid) (k : kstate) : kstate :=
  KState (ks_syms k) (ks_props k) (ks_menus k) (ks_hash k) x (ks_new_prop k) (ks_new_menu k)
    (ks_new_str k) (ks_change_count k) (ks_modules_sym k) (ks_modules_val k)
    (ks_current_entry k) (ks_current_menu k) (ks_last_entry k) (ks_log k).
Definition ks_set_new_prop (x : pid) (k : kstate) : kstate :=
  KState (ks_syms k) (ks_props k) (ks_menus k) (ks_hash k) (ks_new_sym k) x (ks_new_menu k)
    (ks_new_str k) (ks_change_count k) (ks_modules_sym k) (ks_modules_val k)
    (ks_current_entry k) (ks_current_menu k) (ks_last_entry k) (ks_log k).
Definition ks_set_new_menu (x : mid) (k : kstate) : kstate :=
  KState (ks_syms k) (ks_props k) (ks_menus k) (ks_hash k) (ks_new_sym k) (ks_new_prop k) x
    (ks_new_str k) (ks_change_count k) (ks_modules_sym k) (ks_modules_val k)
    (ks_current_entry k) (ks_current_menu k) (ks_last_entry k) (ks_log k).
Definition ks_set_new_str (x : nat) (k : kstate) : kstate :=
  KState (ks_syms k) (ks_props k) (ks_menus k) (ks_hash k) (ks_new_sym k) (ks_new_prop k)
    (ks_new_menu k) x (ks_change_count k) (ks_modules_sym k) (ks_modules_val k)
    (ks_current_entry k) (ks_current_menu k) (ks_last_entry k) (ks_log k).
Definition ks_set_change_count (x : Z) (k : kstate) : kstate :=
  KState (ks_syms k) (ks_props k) (ks_menus k) (ks_hash k) (ks_new_sym k) (ks_new_prop k)
    (ks_new_menu k) (ks_new_str k) x (ks_modules_sym k) (ks_modules_val k) (ks_current_entry k)
    (ks_current_menu k) (ks_last_entry k) (ks_log k).
Definition ks_set_modules_sym (x : option sid) (k : kstate) : kstate :=
  KState (ks_syms k) (ks_props k) (ks_menus k) (ks_hash k) (ks_new_sym k) (ks_new_prop k)
    (ks_new_menu k) (ks_new_str k) (ks_change_count k) x (ks_modules_val k) (ks_current_entry k)
    (ks_current_menu k) (ks_last_entry k) (ks_log k).
Definition ks_set_modules_val (x : tristate) (k : kstate) : kstate :=
  KState (ks_syms k) (ks_props k) (ks_menus k) (ks_hash k) (ks_new_sym k) (ks_new_prop k)
    (ks_new_menu k) (ks_new_str k) (ks_change_count k) (ks_modules_sym k) x (ks_current_entry k)
    (ks_current_menu k) (ks_last_entry k) (ks_log k).
Definition ks_set_current_entry (x : mid) (k : kstate) : kstate :=
  KState (ks_syms k) (ks_props k) (ks_menus k) (ks_hash k) (ks_new_sym k) (ks_new_prop k)
    (ks_new_menu k) (ks_new_str k) (ks_change_count k) (ks_modules_sym k) (ks_modules_val k) x
    (ks_current_menu k) (ks_last_entry k) (ks_log k).
Definition ks_set_current_menu (x : option mid) (k : kstate) : kstate :=
  KState (ks_syms k) (ks_props k) (ks_menus k) (ks_hash k) (ks_new_sym k) (ks_new_prop k)
    (ks_new_menu k) (ks_new_str k) (ks_change_count k) (ks_modules_sym k) (ks_modules_val k)
    (ks_current_entry k) x (ks_last_entry k) (ks_log k).
Definition ks_set_last_entry (x : mid * bool) (k : kstate) : kstate :=
  KState (ks_syms k) (ks_props k) (ks_menus k) (ks_hash k) (ks_new_sym k) (ks_new_prop k)
    (ks_new_menu k) (ks_new_str k) (ks_change_count k) (ks_modules_sym k) (ks_modules_val k)
    (ks_current_entry k) (ks_current_menu k) x (ks_log k).
Definition ks_set_log (x : list message) (k : kstate) : kstate :=
  KState (ks_syms k) (ks_props k) (ks_menus k) (ks_hash k) (ks_new_sym k) (ks_new_prop k)
    (ks_new_menu k) (ks_new_str k) (ks_change_count k) (ks_modules_sym k) (ks_modules_val k)
    (ks_current_entry k) (ks_current_menu k) (ks_last_entry k) x.

(** ** Reads and writes through a pointer *)

Abbreviation K := (M kstate).

Definition get_sym (s : sid) : K symbol := λ k, mderef (ks_syms k !! s) k.
Definition get_prop (p : pid) : K property := λ k, mderef (ks_props k !! p) k.
Definition get_menu (m : mid) : K menu := λ k, mderef (ks_menus k !! m) k.

Definition put_sym (s : sid) (y : symbol) : K () :=
  mmodify (λ k, ks_set_syms (<[s := y]> (ks_syms k)) k).
Definition put_prop (p : pid) (x : property) : K () :=
  mmodify (λ k, ks_set_props (<[p := x]> (ks_props k)) k).
Definition put_menu (m : mid) (x : menu) : K () :=
  mmodify (λ k, ks_set_menus (<[m := x]> (ks_menus k)) k).

Definition upd_sym (s : sid) (f : symbol → symbol) : K () :=
  let! y := get_sym s in put_sym s (f y).
Definition upd_prop (p : pid) (f : property → property) : K () :=
  let! x := get_prop p in put_prop p (f x).
Definition upd_menu (m : mid) (f : menu → menu) : K () :=
  let! x := get_menu m in put_menu m (f x).

(** [sym->flags |= bits], [sym->flags &= ~bits], [sym->flags & bits]. *)
Definition or_flags (s : sid) (bits : Z) : K () :=
  upd_sym s (λ y, sy_set_flags (set_flag (sy_flags y) bits) y).
Definition clear_flags (s : sid) (bits : Z) : K () :=
  upd_sym s (λ y, sy_set_flags (clear_flag (sy_flags y) bits) y).
Definition test_flags (s : sid) (bits : Z) : K bool :=
  let! y := get_sym s in mreturn (has_flag (sy_flags y) bits).

Definition log (m : message) : K () := mmodify (λ k, ks_set_log (ks_log k ++ [m]) k).

(** [strdup]: a copy at an address of its own. *)
Definition strdup (text : string) : K cstr :=
  λ k, Done (CStr (ks_new_str k) text, ks_set_new_str (S (ks_new_str k)) k).

(** The text a [char *] points to. *)
Definition deref_str (v : cval) : K string :=
  match v with VStr c => mreturn (cs_text c) | _ => mcrash end.

(** [for_all_symbols]: the symbols of all chains, those of type [S_OTHER] skipped. *)
Definition hash_syms (k : kstate) : list sid :=
  concat (map (λ i, default [] (ks_hash k !! i)) (seq 0 257)).
Definition for_all_symbols (f : sid → K ()) : K () :=
  let! l := mgets hash_syms in
  miter (λ s, let! y := get_sym s in
              if decide (sy_type y = S_OTHER) then mreturn () else f s) l.

(** The symbols of a choice, in the order of the list
    [for (e = prop->expr; e; e = e->left.expr)]: a node of another type has no
    [right.sym] and [left.expr] of these types. *)
Fixpoint choice_list (e : expr) : option (list sid) :=
  match e with
  | Echoice None s => Some [s]
  | Echoice (Some l) s => let? r := choice_list l in Some (s :: r)
  | _ => None
  end.
Definition choice_values (e : option expr) : option (list sid) :=
  match e with None => Some [] | Some e => choice_list e end.
