(* ===== verification/KSymbol.v ===== *)
(** * Symbols: [scripts/config/symbol.c]

    One definition per function.  [sym_calc_value] and the functions it calls
    are mutually recursive; each takes the recursive call [calc] as an
    argument, and [sym_calc_value] ties the knot with a bound on the depth of
    the recursion. *)
From S2P Require Import Prelude CLib CStr KData KExpr KState.
From Stdlib Require Import Ascii.
Open Scope pr30_scope.

(** ** The inline functions of [lkc.h] *)

Definition sym_get_tristate_value (s : sid) : K tristate :=
  let! y := get_sym s in mreturn (sv_tri (sy_curr y)).
Definition sym_get_choice_value (s : sid) : K cval :=
  let! y := get_sym s in mreturn (sv_val (sy_curr y)).
Definition is_choice (y : symbol) : bool := has_flag (sy_flags y) SYMBOL_CHOICE.
Definition is_choice_value (y : symbol) : bool := has_flag (sy_flags y) SYMBOL_CHOICEVAL.
Definition is_optional (y : symbol) : bool := has_flag (sy_flags y) SYMBOL_OPTIONAL.
Definition has_value (y : symbol) : bool := negb (has_flag (sy_flags y) SYMBOL_NEW).
Definition sym_is_choice (s : sid) : K bool := let! y := get_sym s in mreturn (is_choice y).
Definition sym_is_choice_value (s : sid) : K bool :=
  let! y := get_sym s in mreturn (is_choice_value y).
Definition sym_is_optional (s : sid) : K bool := let! y := get_sym s in mreturn (is_optional y).
Definition sym_has_value (s : sid) : K bool := let! y := get_sym s in mreturn (has_value y).

(** ** Types and names *)

Definition get_type (y : symbol) : symbol_type :=
  if decide (sy_type y = S_TRISTATE) then
    if is_choice_value y && bool_decide (sy_visible y = Yes) then S_BOOLEAN else S_TRISTATE
  else sy_type y.
Definition sym_get_type (s : sid) : K symbol_type := let! y := get_sym s in mreturn (get_type y).

Definition sym_type_name (t : symbol_type) : string :=
  match t with
  | S_BOOLEAN => "boolean"
  | S_TRISTATE => "tristate"
  | S_INT => "integer"
  | S_HEX => "hex"
  | S_STRING => "string"
  | S_UNKNOWN => "unknown"
  | S_OTHER => "???"
  end.

Definition prop_get_type_name (t : prop_type) : string :=
  match t with
  | P_PROMPT => "prompt"
  | P_COMMENT => "comment"
  | P_MENU => "menu"
  | P_DEFAULT => "default"
  | P_CHOICE => "choice"
  | P_SELECT => "select"
  | P_DESELECT => "deselect"
  | P_RANGE => "range"
  | P_UNKNOWN | P_RESET => "unknown"
  end.

(** ** Properties of a symbol *)

(** The first of the properties [l] of type [t], if there is one. *)
Fixpoint first_prop (t : prop_type) (l : list pid) : K (option pid) :=
  match l with
  | [] => mreturn None
  | p :: l =>
      let! x := get_prop p in
      if decide (pr_type x = t) then mreturn (Some p) else first_prop t l
  end.

Definition sym_get_choice_prop (s : sid) : K (option pid) :=
  let! y := get_sym s in first_prop P_CHOICE (sy_prop y).

(** The symbol of an [E_SYMBOL] node.  Of an [E_CHOICE] node the code reads
    [left.sym] too, where the node holds [left.expr]. *)
Definition prop_get_symbol (p : pid) : K (option sid) :=
  let! x := get_prop p in
  match pr_expr x with
  | Some (Esymbol s) => mreturn (Some s)
  | Some (Echoice None _) => mreturn None
  | Some (Echoice (Some _) _) => mcrash
  | _ => mreturn None
  end.

(** [prop_get_symbol(sym_get_choice_prop(sym))]: the choice of a choice value. *)
Definition choice_of (s : sid) : K sid :=
  let! p := sym_get_choice_prop s in
  let! p := mderef p in
  let! cs := prop_get_symbol p in
  mderef cs.

Definition prop_alloc (t : prop_type) (s : option sid) : K pid :=
  let! p := mgets ks_new_prop in
  do! mmodify (ks_set_new_prop (S p)) in
  do! put_prop p (Property s t None None No None None) in
  do! match s with
      | Some s => upd_sym s (λ y, sy_set_prop (sy_prop y ++ [p]) y)
      | None => mreturn ()
      end in
  mreturn p.

(** ** Change marks *)

Definition sym_set_changed (s : sid) : K () :=
  do! or_flags s SYMBOL_CHANGED in
  let! y := get_sym s in
  miter (λ p,
    let! x := get_prop p in
    match pr_menu x with
    | Some m => upd_menu m (λ x, mn_set_flags (set_flag (mn_flags x) MENU_CHANGED) x)
    | None => mreturn ()
    end) (sy_prop y).

Definition sym_set_all_changed : K () := for_all_symbols sym_set_changed.

(** ** Values *)

(** The string literals of the code. *)
Definition lit_n : cstr := CStr 0 "n".
Definition lit_m : cstr := CStr 1 "m".
Definition lit_y : cstr := CStr 2 "y".
Definition lit_empty : cstr := CStr 3 "".
Definition lit_tri (t : tristate) : cstr :=
  match t with No => lit_n | Mod => lit_m | Yes => lit_y end.

(** [symbol_empty.curr] and [symbol_no.curr]. *)
Definition empty_curr : symbol_value := SValue (VStr lit_empty) No.
Definition no_curr : symbol_value := SValue (VStr lit_n) No.

Definition string_value (y : symbol) : cval :=
  match sy_type y with
  | S_BOOLEAN | S_TRISTATE => VStr (lit_tri (sv_tri (sy_curr y)))
  | _ => sv_val (sy_curr y)
  end.
Definition sym_get_string_value (s : sid) : K cval :=
  let! y := get_sym s in mreturn (string_value y).

Definition sym_is_changable (s : sid) : K bool :=
  let! y := get_sym s in mreturn (tri_ltb (sy_rev_dep_tri y) (sy_visible y)).

Section Calc.
(** The recursive call of [sym_calc_value]. *)
Variable calc : sid → K ().

(** [expr_calc_value] of [expr.c]. *)
Fixpoint expr_calc (e : expr) : K tristate :=
  match e with
  | Esymbol s => do! calc s in sym_get_tristate_value s
  | Eand l r =>
      let! val1 := expr_calc l in
      let! val2 := expr_calc r in
      mreturn (tri_and val1 val2)
  | Eor l r =>
      let! val1 := expr_calc l in
      let! val2 := expr_calc r in
      mreturn (tri_or val1 val2)
  | Enot l => let! val1 := expr_calc l in mreturn (tri_not val1)
  | Eequal l r =>
      do! calc l in
      do! calc r in
      let! str1 := sym_get_string_value l in
      let! str2 := sym_get_string_value r in
      let! a := deref_str str1 in
      let! b := deref_str str2 in
      mreturn (if decide (a = b) then Yes else No)
  | Eunequal l r =>
      do! calc l in
      do! calc r in
      let! str1 := sym_get_string_value l in
      let! str2 := sym_get_string_value r in
      let! a := deref_str str1 in
      let! b := deref_str str2 in
      mreturn (if decide (a = b) then No else Yes)
  | Echoice _ _ | Erange _ _ => do! log (MsgCalc (etype e)) in mreturn No
  end.
Definition expr_calc_value (e : option expr) : K tristate :=
  match e with None => mreturn Yes | Some e => expr_calc e end.

(** [prop->visible.tri = expr_calc_value(prop->visible.expr)]. *)
Definition calc_prop_visible (p : pid) : K tristate :=
  let! x := get_prop p in
  let! tri := expr_calc_value (pr_visible x) in
  do! upd_prop p (pr_set_visible_tri tri) in
  mreturn tri.

(** The first property of type [t] that is visible. *)
Fixpoint visible_prop (t : prop_type) (l : list pid) : K (option pid) :=
  match l with
  | [] => mreturn None
  | p :: l =>
      let! x := get_prop p in
      if decide (pr_type x = t) then
        let! tri := calc_prop_visible p in
        if decide (tri = No) then visible_prop t l else mreturn (Some p)
      else visible_prop t l
  end.
Definition sym_get_default_prop (s : sid) : K (option pid) :=
  let! y := get_sym s in visible_prop P_DEFAULT (sy_prop y).
Definition sym_get_range_prop (s : sid) : K (option pid) :=
  let! y := get_sym s in visible_prop P_RANGE (sy_prop y).

Definition sym_get_range_val (s : sid) (base : Z) : K Z :=
  do! calc s in
  let! y := get_sym s in
  let base := match sy_type y with S_INT => 10%Z | S_HEX => 16%Z | _ => base end in
  let! str := deref_str (sv_val (sy_curr y)) in
  mreturn (strtoi str base).

(** [prop->expr->left.sym] and [prop->expr->right.sym] of a range. *)
Definition range_syms (p : pid) : K (sid * sid) :=
  let! x := get_prop p in
  match pr_expr x with Some (Erange l r) => mreturn (l, r) | _ => mcrash end.

Definition sym_validate_range (s : sid) : K () :=
  let! y := get_sym s in
  match (match sy_type y with S_INT => Some 10%Z | S_HEX => Some 16%Z | _ => None end) with
  | None => mreturn ()
  | Some base =>
      let! prop := sym_get_range_prop s in
      match prop with
      | None => mreturn ()
      | Some p =>
          let! y := get_sym s in
          let! str := deref_str (sv_val (sy_curr y)) in
          let val := strtoi str base in
          let! (l, r) := range_syms p in
          let! val2 := sym_get_range_val l base in
          let! val2 :=
            if (val2 <=? val)%Z then
              let! val2 := sym_get_range_val r base in
              mreturn (if (val <=? val2)%Z then None else Some val2)
            else mreturn (Some val2) in
          match val2 with
          | None => mreturn ()
          | Some val2 =>
              let! y := get_sym s in
              let! c := strdup (match sy_type y with
                                | S_INT => print_d val2
                                | _ => "0x" +:+ print_x val2
                                end) in
              upd_sym s (λ y, sy_set_curr (sv_set_val (VStr c) (sy_curr y)) y)
          end
      end
  end.

(** The loop over the prompts in [sym_calc_visibility]. *)
Fixpoint prompts_visible (l : list pid) (tri : tristate) : K tristate :=
  match l with
  | [] => mreturn tri
  | p :: l =>
      let! x := get_prop p in
      match pr_text x with
      | Some _ => let! v := calc_prop_visible p in prompts_visible l (tri_or tri v)
      | None => prompts_visible l tri
      end
  end.

(** [sym->rev_dep_inv.expr && expr_calc_value(sym->rev_dep_inv.expr) == yes]. *)
Definition calc_deselected (s : sid) : K bool :=
  let! y := get_sym s in
  match sy_rev_dep_inv y with
  | Some e => let! v := expr_calc e in mreturn (bool_decide (v = Yes))
  | None => mreturn false
  end.

Definition sym_calc_visibility (s : sid) : K () :=
  let! y := get_sym s in
  let! tri := prompts_visible (sy_prop y) No in
  let! y := get_sym s in
  let tri := if decide (tri = Mod ∧ sy_type y ≠ S_TRISTATE) then Yes else tri in
  let! deselected := calc_deselected s in
  let tri := if deselected then No else tri in
  let! y := get_sym s in
  do! (if decide (sy_visible y = tri) then mreturn ()
       else do! upd_sym s (sy_set_visible tri) in sym_set_changed s) in
  let! y := get_sym s in
  if is_choice_value y || deselected then mreturn ()
  else
    let! tri := match sy_rev_dep y with Some e => expr_calc e | None => mreturn No end in
    let! y := get_sym s in
    let tri := if decide (tri = Mod ∧ get_type y = S_BOOLEAN) then Yes else tri in
    if decide (sy_rev_dep_tri y = tri) then mreturn ()
    else do! upd_sym s (sy_set_rev_dep_tri tri) in sym_set_changed s.

(** [sym_calc_visibility(def_sym); if (def_sym->visible != no) return def_sym;] *)
Definition try_choice (s : sid) : K bool :=
  do! sym_calc_visibility s in
  let! y := get_sym s in
  mreturn (bool_decide (sy_visible y ≠ No)).

(** The first visible default of a choice that names a visible symbol. *)
Fixpoint choice_defaults (l : list pid) : K (option sid) :=
  match l with
  | [] => mreturn None
  | p :: l =>
      let! x := get_prop p in
      if decide (pr_type x = P_DEFAULT) then
        let! tri := calc_prop_visible p in
        if decide (tri = No) then choice_defaults l
        else
          let! def_sym := prop_get_symbol p in
          let! def_sym := mderef def_sym in
          let! b := try_choice def_sym in
          if b then mreturn (Some def_sym) else choice_defaults l
      else choice_defaults l
  end.

(** The first visible value of a choice. *)
Fixpoint choice_first (e : expr) : K (option sid) :=
  match e with
  | Echoice l def_sym =>
      let! b := try_choice def_sym in
      if b then mreturn (Some def_sym)
      else match l with Some l => choice_first l | None => mreturn None end
  | _ => mcrash
  end.

Definition sym_calc_choice (s : sid) : K (option sid) :=
  let! y := get_sym s in
  let! user :=
    match sv_val (sy_user y) with
    | VNull => mreturn None
    | VSym def_sym => let! b := try_choice def_sym in mreturn (if b then Some def_sym else None)
    | VStr _ => mcrash
    end in
  match user with
  | Some def_sym => mreturn (Some def_sym)
  | None =>
      let! y := get_sym s in
      let! def := choice_defaults (sy_prop y) in
      match def with
      | Some def_sym => mreturn (Some def_sym)
      | None =>
          let! p := sym_get_choice_prop s in
          let! p := mderef p in
          let! x := get_prop p in
          let! first := match pr_expr x with Some e => choice_first e | None => mreturn None end in
          match first with
          | Some def_sym => mreturn (Some def_sym)
          | None =>
              do! upd_sym s (λ y, sy_set_curr (sv_set_tri No (sy_curr y)) y) in
              mreturn None
          end
      end
  end.

(** [expr_calc_value(prop->expr)]. *)
Definition prop_value (p : pid) : K tristate :=
  let! x := get_prop p in expr_calc_value (pr_expr x).

(** The new [curr.tri] of a boolean or tristate symbol. *)
Definition calc_logic (s : sid) : K tristate :=
  let! y := get_sym s in
  let! tri :=
    if is_choice_value y && bool_decide (sy_visible y = Yes) then
      let! cs := choice_of s in
      let! cy := get_sym cs in
      mreturn (if decide (sv_val (sy_curr cy) = VSym s) then Yes else No)
    else
      let! deselected := calc_deselected s in
      if deselected then mreturn No
      else
        let! y := get_sym s in
        if decide (tri_or (sy_visible y) (sy_rev_dep_tri y) = No) then
          if is_choice y then mreturn No
          else
            let! prop := sym_get_default_prop s in
            match prop with
            | None => mreturn No
            | Some p => do! or_flags s SYMBOL_WRITE in prop_value p
            end
        else
          do! or_flags s SYMBOL_WRITE in
          let! tri :=
            if has_value y then mreturn (sv_tri (sy_user y))
            else if is_choice y then mreturn No
            else
              let! prop := sym_get_default_prop s in
              match prop with None => mreturn No | Some p => prop_value p end in
          let! y := get_sym s in
          mreturn (tri_or (tri_and tri (sy_visible y)) (sy_rev_dep_tri y)) in
  let! y := get_sym s in
  mreturn (if decide (tri = Mod ∧ get_type y = S_BOOLEAN) then Yes else tri).

(** The new [curr.val] of a string, hex or int symbol. *)
Definition calc_string (s : sid) : K cval :=
  let! y := get_sym s in
  do! mwhen (bool_decide (sy_visible y ≠ No)) (or_flags s SYMBOL_WRITE) in
  if bool_decide (sy_visible y ≠ No) && has_value y then mreturn (sv_val (sy_user y))
  else
    let! prop := sym_get_default_prop s in
    match prop with
    | None => mreturn (sv_val empty_curr)
    | Some p =>
        let! ds := prop_get_symbol p in
        match ds with
        | None => mreturn (sv_val empty_curr)
        | Some ds =>
            do! or_flags s SYMBOL_WRITE in
            do! calc ds in
            let! dy := get_sym ds in
            mreturn (sv_val (sy_curr dy))
        end
    end.

(** The end of [sym_calc_value] for a choice: its values are marked like it. *)
Definition mark_choice_values (s : sid) : K () :=
  let! y := get_sym s in
  let flags := Z.land (sy_flags y) (Z.lor SYMBOL_CHANGED SYMBOL_WRITE) in
  let! p := sym_get_choice_prop s in
  let! p := mderef p in
  let! x := get_prop p in
  let! l := mderef (choice_values (pr_expr x)) in
  miter (λ v,
    do! or_flags v flags in
    mwhen (has_flag flags SYMBOL_CHANGED) (sym_set_changed v)) l.

(** What [sym_calc_value] does with a symbol of a known type that is not
    valid: [oldval] is [sym->curr] before, [newval] the value a recursive call
    sees. *)
Definition calc_symbol (s : sid) (oldval newval : symbol_value) : K () :=
  let! y := get_sym s in
  do! mwhen (negb (is_choice_value y)) (clear_flags s SYMBOL_WRITE) in
  do! sym_calc_visibility s in
  do! upd_sym s (sy_set_curr newval) in
  let! t := sym_get_type s in
  let! newval :=
    match t with
    | S_BOOLEAN | S_TRISTATE => let! tri := calc_logic s in mreturn (sv_set_tri tri newval)
    | S_STRING | S_HEX | S_INT => let! v := calc_string s in mreturn (sv_set_val v newval)
    | _ => mreturn newval
    end in
  do! upd_sym s (sy_set_curr newval) in
  let! y := get_sym s in
  do! mwhen (is_choice y && bool_decide (sv_tri newval = Yes))
        (let! c := sym_calc_choice s in
         upd_sym s (λ y, sy_set_curr (sv_set_val (from_option VSym VNull c) (sy_curr y)) y)) in
  do! sym_validate_range s in
  let! y := get_sym s in
  do! mwhen (bool_decide (oldval ≠ sy_curr y)) (sym_set_changed s) in
  let! modules_sym := mgets ks_modules_sym in
  do! mwhen (bool_decide (modules_sym = Some s))
        (let! y := get_sym s in mmodify (ks_set_modules_val (sv_tri (sy_curr y)))) in
  let! y := get_sym s in
  mwhen (is_choice y) (mark_choice_values s).

Definition sym_calc_value_body (s : sid) : K () :=
  let! y := get_sym s in
  if has_flag (sy_flags y) SYMBOL_VALID then mreturn ()
  else
    do! or_flags s SYMBOL_VALID in
    let oldval := sy_curr y in
    match sy_type y with
    | S_INT | S_HEX | S_STRING => calc_symbol s oldval empty_curr
    | S_BOOLEAN | S_TRISTATE => calc_symbol s oldval no_curr
    | S_UNKNOWN | S_OTHER =>
        upd_sym s (sy_set_curr (SValue (from_option VStr VNull (sy_name y)) No))
    end.
End Calc.

(** The depth of the recursion is bounded by [n]. *)
Fixpoint sym_calc_value_f (n : nat) (s : sid) : K () :=
  match n with
  | O => mnofuel
  | S n => sym_calc_value_body (sym_calc_value_f n) s
  end.

(** Every call on the stack but the last is of a symbol that it has just made
    valid. *)
Definition calc_fuel (k : kstate) : nat := S (size (ks_syms k)).
Definition sym_calc_value (s : sid) : K () := λ k, sym_calc_value_f (calc_fuel k) s k.
(** [expr_calc_value] and the functions above, called from outside. *)
Definition expr_calc_value_top (e : option expr) : K tristate := expr_calc_value sym_calc_value e.

(** ** Setting values *)

Definition sym_clear_all_valid : K () :=
  do! for_all_symbols (λ s, clear_flags s SYMBOL_VALID) in
  do! mmodify (λ k, ks_set_change_count (ks_change_count k + 1)%Z k) in
  let! modules_sym := mgets ks_modules_sym in
  match modules_sym with Some m => sym_calc_value m | None => mreturn () end.

Definition tristate_within_range (y : symbol) (val : tristate) : bool :=
  let type := get_type y in
  if decide (sy_visible y = No) then false
  else if decide (type ≠ S_BOOLEAN ∧ type ≠ S_TRISTATE) then false
  else if decide (type = S_BOOLEAN ∧ val = Mod) then false
  else if tri_leb (sy_visible y) (sy_rev_dep_tri y) then false
  else if is_choice_value y && bool_decide (sy_visible y = Yes) then bool_decide (val = Yes)
  else tri_leb (sy_rev_dep_tri y) val && tri_leb val (sy_visible y).
Definition sym_tristate_within_range (s : sid) (val : tristate) : K bool :=
  let! y := get_sym s in mreturn (tristate_within_range y val).

(** [if (sym->flags & SYMBOL_NEW) { sym->flags &= ~SYMBOL_NEW; sym_set_changed(sym); }] *)
Definition clear_new (s : sid) : K () :=
  let! y := get_sym s in
  mwhen (has_flag (sy_flags y) SYMBOL_NEW)
    (do! clear_flags s SYMBOL_NEW in sym_set_changed s).

(** Choosing the value [s]: the choice points to it, and neither the choice
    nor its visible values are new. *)
Definition choose_value (s : sid) : K () :=
  let! cs := choice_of s in
  do! upd_sym cs (λ y, sy_set_user (sv_set_val (VSym s) (sy_user y)) y) in
  do! clear_flags cs SYMBOL_NEW in
  let! p := sym_get_choice_prop cs in
  let! p := mderef p in
  let! x := get_prop p in
  let! l := mderef (choice_values (pr_expr x)) in
  miter (λ v,
    let! y := get_sym v in
    mwhen (bool_decide (sy_visible y ≠ No)) (clear_flags v SYMBOL_NEW)) l.

Definition sym_set_tristate_value (s : sid) (val : tristate) : K bool :=
  let! oldval := sym_get_tristate_value s in
  let! ok := sym_tristate_within_range s val in
  if decide (oldval ≠ val ∧ ok = false) then mreturn false
  else
    do! clear_new s in
    let! y := get_sym s in
    do! mwhen (is_choice_value y && bool_decide (val = Yes)) (choose_value s) in
    do! upd_sym s (λ y, sy_set_user (sv_set_tri val (sy_user y)) y) in
    do! mwhen (bool_decide (oldval ≠ val))
          (do! sym_clear_all_valid in
           let! modules_sym := mgets ks_modules_sym in
           mwhen (bool_decide (modules_sym = Some s)) sym_set_all_changed) in
    mreturn true.

(** [sym_set_choice_value]. *)
Definition sym_set_choice_value (ch chval : sid) : K bool := sym_set_tristate_value chval Yes.

Definition tri_next (t : tristate) : tristate :=
  match t with No => Mod | Mod => Yes | Yes => No end.

(** The [do ... while (oldval != newval)] loop comes back to [oldval] after
    three turns at the latest. *)
Fixpoint toggle_f (n : nat) (s : sid) (oldval newval : tristate) : K tristate :=
  match n with
  | O => mnofuel
  | S n =>
      let newval := tri_next newval in
      let! b := sym_set_tristate_value s newval in
      if b then mreturn newval
      else if decide (oldval = newval) then mreturn newval
      else toggle_f n s oldval newval
  end.
Definition sym_toggle_tristate_value (s : sid) : K tristate :=
  let! oldval := sym_get_tristate_value s in toggle_f 3 s oldval oldval.

(** ** String values *)

Definition int_valid (str : string) : bool :=
  let str := if (code (char_at str) =? 45)%Z then tail_of str else str in
  let ch := char_at str in
  let rest := tail_of str in
  if negb (isdigit ch) then false
  else if (code ch =? 48)%Z && negb (bool_decide (rest = EmptyString)) then false
  else all_chars isdigit rest.

Definition starts_0x (str : string) : bool :=
  match str with
  | String z (String x _) => (code z =? 48)%Z && ((code x =? 120)%Z || (code x =? 88)%Z)
  | _ => false
  end.

Definition hex_valid (str : string) : bool :=
  let str := if starts_0x str then tail_of (tail_of str) else str in
  isxdigit (char_at str) && all_chars isxdigit (tail_of str).

(** [y Y], [m M], [n N]. *)
Definition tri_letter (str : string) : option tristate :=
  let c := code (char_at str) in
  if (c =? 121)%Z || (c =? 89)%Z then Some Yes
  else if (c =? 109)%Z || (c =? 77)%Z then Some Mod
  else if (c =? 110)%Z || (c =? 78)%Z then Some No
  else None.

Definition string_valid (t : symbol_type) (str : string) : bool :=
  match t with
  | S_STRING => true
  | S_INT => int_valid str
  | S_HEX => hex_valid str
  | S_BOOLEAN | S_TRISTATE => bool_decide (is_Some (tri_letter str))
  | S_UNKNOWN | S_OTHER => false
  end.
Definition sym_string_valid (s : sid) (str : string) : K bool :=
  let! y := get_sym s in mreturn (string_valid (sy_type y) str).

(** The comparison with the range of an int or hex symbol; the right bound is
    looked at only if the left one holds. *)
Definition within_range (s : sid) (str : string) (base : Z) : K bool :=
  let! prop := sym_get_range_prop sym_calc_value s in
  match prop with
  | None => mreturn true
  | Some p =>
      let val := strtoi str base in
      let! (l, r) := range_syms p in
      let! lo := sym_get_range_val sym_calc_value l base in
      if (lo <=? val)%Z then
        let! hi := sym_get_range_val sym_calc_value r base in
        mreturn (val <=? hi)%Z
      else mreturn false
  end.

Definition sym_string_within_range (s : sid) (str : string) : K bool :=
  let! y := get_sym s in
  match sy_type y with
  | S_STRING => sym_string_valid s str
  | S_INT => let! b := sym_string_valid s str in if b then within_range s str 10 else mreturn false
  | S_HEX => let! b := sym_string_valid s str in if b then within_range s str 16 else mreturn false
  | S_BOOLEAN | S_TRISTATE =>
      match tri_letter str with
      | Some t => sym_tristate_within_range s t
      | None => mreturn false
      end
  | S_UNKNOWN | S_OTHER => mreturn false
  end.

(** [strcmp(oldval, newval)] with a [user.val] that may be NULL. *)
Definition same_string (oldval : cval) (newval : string) : K bool :=
  match oldval with
  | VNull => mreturn false
  | _ => let! o := deref_str oldval in mreturn (bool_decide (o = newval))
  end.

Definition set_user_string (s : sid) (text : string) : K () :=
  let! c := strdup text in
  do! upd_sym s (λ y, sy_set_user (sv_set_val (VStr c) (sy_user y)) y) in
  sym_clear_all_valid.

Definition sym_set_string_value (s : sid) (newval : string) : K bool :=
  let! y := get_sym s in
  match sy_type y with
  | S_BOOLEAN | S_TRISTATE =>
      match tri_letter newval with
      | Some t => sym_set_tristate_value s t
      | None => mreturn false
      end
  | _ =>
      let! ok := sym_string_within_range s newval in
      if negb ok then mreturn false
      else
        do! clear_new s in
        let! y := get_sym s in
        let oldval := sv_val (sy_user y) in
        if bool_decide (sy_type y = S_HEX) && negb (starts_0x newval) then
          do! set_user_string s ("0x" +:+ newval) in mreturn true
        else
          let! same := same_string oldval newval in
          if same then mreturn true
          else do! set_user_string s newval in mreturn true
  end.

(** ** The symbol table *)

(** [hash += *ptr] over the name, [& 0xff]. *)
Fixpoint name_sum (name : string) : nat :=
  match name with String c r => nat_of_ascii c + name_sum r | EmptyString => 0 end.
Definition name_hash (name : string) : nat := name_sum name mod 256.

(** The symbols that are not in the table. *)
Definition reserved (name : string) : option sid :=
  if decide (name = "y"%string) then Some symbol_yes
  else if decide (name = "m"%string) then Some symbol_mod
  else if decide (name = "n"%string) then Some symbol_no
  else None.

(** The first symbol of a chain with this name, constant or not. *)
Fixpoint find_chain (l : list sid) (name : string) (isconst : bool) : K (option sid) :=
  match l with
  | [] => mreturn None
  | s :: l =>
      let! y := get_sym s in
      let! c := mderef (sy_name y) in
      if bool_decide (cs_text c = name) && Bool.eqb (has_flag (sy_flags y) SYMBOL_CONST) isconst
      then mreturn (Some s) else find_chain l name isconst
  end.

(** A new symbol at the head of the chain [hash]. *)
Definition new_symbol (name : option cstr) (isconst : bool) (hash : nat) : K sid :=
  let! s := mgets ks_new_sym in
  do! mmodify (ks_set_new_sym (S s)) in
  let flags := if isconst then Z.lor SYMBOL_NEW SYMBOL_CONST else SYMBOL_NEW in
  do! put_sym s (Symbol name S_UNKNOWN (SValue VNull No) (SValue VNull No) No flags [] None No None) in
  do! mmodify (λ k, ks_set_hash (<[hash := s :: default [] (ks_hash k !! hash)]> (ks_hash k)) k) in
  mreturn s.

Definition sym_lookup (name : option string) (isconst : bool) : K sid :=
  match name with
  | None => new_symbol None isconst 256
  | Some name =>
      match reserved name with
      | Some s => mreturn s
      | None =>
          let hash := name_hash name in
          let! l := mgets (λ k, default [] (ks_hash k !! hash)) in
          let! found := find_chain l name isconst in
          match found with
          | Some s => mreturn s
          | None => let! c := strdup name in new_symbol (Some c) isconst hash
          end
      end
  end.

Definition sym_find (name : option string) : K (option sid) :=
  match name with
  | None => mreturn None
  | Some name =>
      match reserved name with
      | Some s => mreturn (Some s)
      | None =>
          let! l := mgets (λ k, default [] (ks_hash k !! name_hash name)) in
          find_chain l name false
      end
  end.

Definition sym_add_default (s : sid) (def : string) : K () :=
  let! p := prop_alloc P_DEFAULT (Some s) in
  let! ds := sym_lookup (Some def) true in
  upd_prop p (pr_set_expr (Some (expr_alloc_symbol ds))).

(** [sym->type = S_STRING; sym->flags |= SYMBOL_AUTO] of a symbol that takes
    its default from the environment. *)
Definition auto_symbol (name : string) (def : option string) : K () :=
  let! s := sym_lookup (Some name) false in
  do! upd_sym s (sy_set_type S_STRING) in
  do! or_flags s SYMBOL_AUTO in
  match def with Some def => sym_add_default s def | None => mreturn () end.

(** [inited] is the static variable; [arch], [version] and [release] are what
    [getenv] and [uname] give.  The result is the new [inited]. *)
Definition sym_init (inited : bool) (arch version : option string) (release : string) : K bool :=
  if inited then mreturn true
  else
    do! auto_symbol "ARCH" arch in
    do! auto_symbol "OPENWRTVERSION" version in
    do! auto_symbol "UNAME_RELEASE" (Some release) in
    mreturn true.

(** ** Search by name *)

Section Search.
(** [regcomp]: NULL for a bad pattern, else what [regexec] tells of a name. *)
Variable regcomp : string → option (string → bool).

(** The array [sym_arr] with [size] cells, of which the listed ones are set;
    a write outside it is a [Crash]. *)
Definition arr_push (arr : list sid * nat) (s : sid) : K (list sid * nat) :=
  let '(l, size) := arr in
  let size := if (size <=? length l + 1)%nat then size + 16 else size in
  if (length l <? size)%nat then mreturn (l ++ [s], size) else mcrash.

Fixpoint search_list (re : string → bool) (l : list sid) (arr : list sid * nat)
    : K (list sid * nat) :=
  match l with
  | [] => mreturn arr
  | s :: l =>
      let! y := get_sym s in
      if decide (sy_type y = S_OTHER) then search_list re l arr
      else if has_flag (sy_flags y) SYMBOL_CONST then search_list re l arr
      else
        match sy_name y with
        | None => search_list re l arr
        | Some c =>
            if re (cs_text c) then let! arr := arr_push arr s in search_list re l arr
            else search_list re l arr
        end
  end.

(** The matching symbols and the size of the array, NULL if there is no array. *)
Definition sym_re_search (pattern : string) : K (option (list sid * nat)) :=
  if decide (pattern = EmptyString) then mreturn None
  else
    match regcomp pattern with
    | None => mreturn None
    | Some re =>
        let! syms := mgets hash_syms in
        let! (l, size) := search_list re syms ([], 0%nat) in
        if decide (size = 0%nat) then mreturn None
        else if (length l <? size)%nat then mreturn (Some (l, size)) else mcrash
    end.
End Search.

(** ** Recursive dependencies *)

Section Check.
(** The recursive call of [sym_check_deps]. *)
Variable check : sid → K (option sid).

Fixpoint check_expr (e : expr) : K (option sid) :=
  match e with
  | Eor l r | Eand l r =>
      let! sym := check_expr l in
      match sym with Some s => mreturn (Some s) | None => check_expr r end
  | Enot l => check_expr l
  | Eequal l r | Eunequal l r =>
      let! sym := check l in
      match sym with Some s => mreturn (Some s) | None => check r end
  | Esymbol s => check s
  | Echoice _ _ | Erange _ _ => do! log (MsgHowToCheck (etype e)) in mreturn None
  end.
Definition sym_check_expr_deps (e : option expr) : K (option sid) :=
  match e with None => mreturn None | Some e => check_expr e end.

(** The loop over the properties of [s]. *)
Fixpoint check_props (s : sid) (l : list pid) : K (option sid) :=
  match l with
  | [] => mreturn None
  | p :: l =>
      let! x := get_prop p in
      if decide (pr_type x = P_CHOICE ∨ pr_type x = P_SELECT ∨ pr_type x = P_DESELECT)
      then check_props s l
      else
        let! sym2 := sym_check_expr_deps (pr_visible x) in
        match sym2 with
        | Some s2 => mreturn (Some s2)
        | None =>
            let! y := get_sym s in
            if decide (pr_type x ≠ P_DEFAULT ∨ is_choice y = true) then check_props s l
            else
              let! sym2 := sym_check_expr_deps (pr_expr x) in
              match sym2 with Some s2 => mreturn (Some s2) | None => check_props s l end
        end
  end.

Definition check_body (s : sid) : K (option sid) :=
  let! y := get_sym s in
  if has_flag (sy_flags y) SYMBOL_CHECK then
    do! log (MsgRecursive s) in mreturn (Some s)
  else if has_flag (sy_flags y) SYMBOL_CHECKED then mreturn None
  else
    do! or_flags s (Z.lor SYMBOL_CHECK SYMBOL_CHECKED) in
    let! sym2 := sym_check_expr_deps (sy_rev_dep y) in
    let! sym2 := match sym2 with Some s2 => mreturn (Some s2) | None => check_props s (sy_prop y) end in
    let! sym2 :=
      match sym2 with
      | None => mreturn None
      | Some s2 =>
          do! log (MsgChain s) in
          if decide (s2 = s) then do! log MsgChainEnd in mreturn None else mreturn (Some s2)
      end in
    do! clear_flags s SYMBOL_CHECK in
    mreturn sym2.
End Check.

Fixpoint sym_check_deps_f (n : nat) (s : sid) : K (option sid) :=
  match n with
  | O => mnofuel
  | S n => check_body (sym_check_deps_f n) s
  end.
Definition sym_check_deps (s : sid) : K (option sid) := λ k, sym_check_deps_f (calc_fuel k) s k.
(** The loop at the end of [conf_parse], which drops the results. *)
Definition check_all_deps : K () := for_all_symbols (λ s, do! sym_check_deps s in mreturn ()).
