(* ===== verification/KSymFrame.v ===== *)
(** * What the calculation of values leaves alone, and that it ends

    [sym_calc_value] and the functions under it never touch the user's
    settings, the types, names, dependencies and properties of symbols, and
    they do not touch the value of a symbol that is already valid.  Since a
    symbol is made valid before anything is calculated for it, the recursion
    ends. *)
From S2P Require Import Prelude CLib KData KExpr KState KSymbol.
Open Scope pr30_scope.

(** ** Flag bits *)

Lemma has_flag_set f a b : has_flag (set_flag f a) b = has_flag f b || has_flag a b.
Proof.
  unfold has_flag, set_flag. rewrite Z.land_lor_distr_l.
  destruct (Z.eqb_spec (Z.land f b) 0) as [->|Hf]; [by rewrite Z.lor_0_l|].
  destruct (Z.eqb_spec (Z.lor (Z.land f b) (Z.land a b)) 0) as [E|]; [|done].
  by apply Z.lor_eq_0_iff in E as [? _].
Qed.

Lemma has_flag_clear f a b : Z.land a b = 0%Z → has_flag (clear_flag f a) b = has_flag f b.
Proof.
  intros Hab. unfold has_flag, clear_flag.
  enough (Z.land (Z.ldiff f a) b = Z.land f b) as -> by done.
  apply Z.bits_inj'. intros n Hn. rewrite !Z.land_spec, Z.ldiff_spec.
  assert (Z.testbit a n && Z.testbit b n = false).
  { by rewrite <-Z.land_spec, Hab, Z.bits_0. }
  destruct (Z.testbit f n), (Z.testbit a n), (Z.testbit b n); done.
Qed.

Lemma has_flag_cleared f a : has_flag (clear_flag f a) a = false.
Proof.
  unfold has_flag, clear_flag.
  enough (Z.land (Z.ldiff f a) a = 0%Z) as -> by done.
  apply Z.bits_inj'. intros n Hn. rewrite Z.land_spec, Z.ldiff_spec, Z.bits_0.
  by destruct (Z.testbit f n), (Z.testbit a n).
Qed.

(** Bits inside a mask do not show once the mask is cleared. *)
Lemma clear_set_masked f a m : Z.ldiff a m = 0%Z → clear_flag (set_flag f a) m = clear_flag f m.
Proof.
  intros H. unfold clear_flag, set_flag. apply Z.bits_inj'. intros n Hn.
  rewrite !Z.ldiff_spec, Z.lor_spec.
  assert (Z.testbit a n && negb (Z.testbit m n) = false).
  { by rewrite <-Z.ldiff_spec, H, Z.bits_0. }
  destruct (Z.testbit f n), (Z.testbit a n), (Z.testbit m n); done.
Qed.

Lemma clear_clear_masked f a m : Z.ldiff a m = 0%Z → clear_flag (clear_flag f a) m = clear_flag f m.
Proof.
  intros H. unfold clear_flag. apply Z.bits_inj'. intros n Hn.
  rewrite !Z.ldiff_spec.
  assert (Z.testbit a n && negb (Z.testbit m n) = false).
  { by rewrite <-Z.ldiff_spec, H, Z.bits_0. }
  destruct (Z.testbit f n), (Z.testbit a n), (Z.testbit m n); done.
Qed.

(** A test of bits outside a mask does not depend on the mask. *)
Lemma has_flag_masked f g m b :
  clear_flag f m = clear_flag g m → Z.land m b = 0%Z → has_flag f b = has_flag g b.
Proof. intros E H. by rewrite <-(has_flag_clear f m b H), E, has_flag_clear. Qed.

(** ** Runs and their postconditions *)

(** The run of [m] from [k] does not exhaust its fuel and ends in [Q]; whether
    it may crash is the parameter [C]. *)
Definition spec (C : Prop) {A} (m : K A) (k : kstate) (Q : A → kstate → Prop) : Prop :=
  match m k with Done (a, k') => Q a k' | Crash => C | NoFuel => False end.

Section Spec.
Context (C : Prop).

Lemma spec_ret {A} (a : A) k (Q : A → kstate → Prop) : Q a k → spec C (mreturn a) k Q.
Proof. done. Qed.
Lemma spec_bind {A B} (m : K A) (f : A → K B) k Q R :
  spec C m k R → (∀ a k', R a k' → spec C (f a) k' Q) → spec C (mthen m f) k Q.
Proof. unfold spec, mthen. destruct (m k) as [[a k']| |]; [|done..]. intros HR Hf. by apply Hf. Qed.
Lemma spec_mono {A} (m : K A) k (Q R : A → kstate → Prop) :
  spec C m k R → (∀ a k', R a k' → Q a k') → spec C m k Q.
Proof. unfold spec. destruct (m k) as [[a k']| |]; auto. Qed.
Lemma spec_gets {A} (f : kstate → A) k (Q : A → kstate → Prop) : Q (f k) k → spec C (mgets f) k Q.
Proof. done. Qed.
Lemma spec_modify f k (Q : () → kstate → Prop) : Q () (f k) → spec C (mmodify f) k Q.
Proof. done. Qed.
End Spec.

(** ** The part of a state that the calculation keeps *)

Definition calc_bits : Z := Z.lor SYMBOL_VALID (Z.lor SYMBOL_WRITE SYMBOL_CHANGED).

Definition sy_core (y : symbol) : symbol :=
  sy_set_flags (clear_flag (sy_flags y) calc_bits)
    (sy_set_curr (SValue VNull No) (sy_set_visible No (sy_set_rev_dep_tri No y))).
Definition pr_core (x : property) : property := pr_set_visible_tri No x.
Definition mn_core (x : menu) : menu := mn_set_flags 0 x.
Definition ks_core (k : kstate) : kstate :=
  ks_set_syms (sy_core <$> ks_syms k) (ks_set_props (pr_core <$> ks_props k)
    (ks_set_menus (mn_core <$> ks_menus k) (ks_set_new_str 0 (ks_set_modules_val No
      (ks_set_log [] k))))).

Definition valid (y : symbol) : bool := has_flag (sy_flags y) SYMBOL_VALID.

(** [k'] comes from [k] by calculations: valid symbols stay valid and keep
    their value, [x] apart. *)
Record cframe (x : option sid) (k k' : kstate) : Prop := {
  cf_core : ks_core k' = ks_core k;
  cf_valid : ∀ s y y', ks_syms k !! s = Some y → ks_syms k' !! s = Some y' → valid y = true →
    valid y' = true ∧ (x ≠ Some s → sy_curr y' = sy_curr y);
}.

Lemma core_sym k k' s y :
  ks_core k' = ks_core k → ks_syms k !! s = Some y →
  ∃ y', ks_syms k' !! s = Some y' ∧ sy_core y' = sy_core y.
Proof.
  intros E H. assert (E' : sy_core <$> ks_syms k' = sy_core <$> ks_syms k).
  { by apply (f_equal ks_syms) in E. }
  assert (L : (sy_core <$> ks_syms k') !! s = Some (sy_core y)).
  { by rewrite E', lookup_fmap, H. }
  rewrite lookup_fmap in L. destruct (ks_syms k' !! s) as [y'|]; [|done]. apply (inj Some) in L. eauto.
Qed.

Lemma core_prop k k' p x :
  ks_core k' = ks_core k → ks_props k !! p = Some x →
  ∃ x', ks_props k' !! p = Some x' ∧ pr_core x' = pr_core x.
Proof.
  intros E H. assert (E' : pr_core <$> ks_props k' = pr_core <$> ks_props k).
  { by apply (f_equal ks_props) in E. }
  assert (L : (pr_core <$> ks_props k') !! p = Some (pr_core x)).
  { by rewrite E', lookup_fmap, H. }
  rewrite lookup_fmap in L. destruct (ks_props k' !! p) as [x'|]; [|done]. apply (inj Some) in L. eauto.
Qed.

Lemma cframe_refl x k : cframe x k k.
Proof. split; [done|]. intros. by simplify_eq. Qed.

Lemma cframe_trans x k1 k2 k3 : cframe x k1 k2 → cframe x k2 k3 → cframe x k1 k3.
Proof.
  intros [C1 V1] [C2 V2]. split; [congruence|]. intros s y y' H H' Hv.
  destruct (core_sym _ _ _ _ C1 H) as (y2 & H2 & _).
  destruct (V1 _ _ _ H H2 Hv) as [Hv2 E]. destruct (V2 _ _ _ H2 H' Hv2) as [? E'].
  split; [done|]. intros Hx. rewrite E', E; auto.
Qed.

Lemma cframe_weaken x k k' : cframe None k k' → cframe x k k'.
Proof.
  intros [C V]. split; [done|]. intros s y y' H H' Hv.
  destruct (V _ _ _ H H' Hv) as [? E]. split; [done|]. intros _. by apply E.
Qed.

(** ** Symbols that are not valid *)

Definition invalid_set (k : kstate) : gset sid := dom (filter (λ p, valid p.2 = false) (ks_syms k)).
Definition invalid (k : kstate) : nat := size (invalid_set k).

Lemma elem_of_invalid k s :
  s ∈ invalid_set k ↔ ∃ y, ks_syms k !! s = Some y ∧ valid y = false.
Proof.
  unfold invalid_set. rewrite elem_of_dom. split.
  - intros [y H]. apply map_lookup_filter_Some in H as [? ?]. eauto.
  - intros (y & ? & ?). exists y. by apply map_lookup_filter_Some.
Qed.

Lemma invalid_frame x k k' : cframe x k k' → invalid_set k' ⊆ invalid_set k.
Proof.
  intros [C V] s. rewrite !elem_of_invalid. intros (y' & H' & N).
  destruct (core_sym k' k s y') as (y & H & _); [done..|]. exists y. split; [done|].
  destruct (valid y) eqn:E; [|done]. destruct (V _ _ _ H H' E). congruence.
Qed.

Lemma invalid_frame_le x k k' : cframe x k k' → invalid k' ≤ invalid k.
Proof. intros F. unfold invalid. apply subseteq_size. by apply (invalid_frame x). Qed.

Lemma invalid_bound k : invalid k ≤ size (ks_syms k).
Proof.
  unfold invalid, invalid_set. rewrite size_dom. apply map_subseteq_size, map_filter_subseteq.
Qed.

(** ** Computations that keep the frame *)

Section Frame.
Context (I : kstate → Prop) (I_frame : ∀ x k k', I k → cframe x k k' → I k').

Definition fr (x : option sid) {A} (m : K A) : Prop :=
  ∀ k, I k → spec True m k (λ _ k', cframe x k k').

Lemma fr_weaken x {A} (m : K A) : fr None m → fr x m.
Proof. intros H k Ik. eapply spec_mono; [by apply H|]. eauto using cframe_weaken. Qed.
Lemma fr_ret x {A} (a : A) : fr x (mreturn a).
Proof. intros k _. apply cframe_refl. Qed.
Lemma fr_crash x {A} : fr x (A := A) mcrash.
Proof. done. Qed.
Lemma fr_bind x {A B} (m : K A) (f : A → K B) : fr x m → (∀ a, fr x (f a)) → fr x (mthen m f).
Proof.
  intros Hm Hf k Ik. eapply spec_bind; [by apply Hm|]. intros a k' F.
  simpl in F. eapply spec_mono; [by apply Hf, (I_frame x k)|]. simpl. eauto using cframe_trans.
Qed.
Lemma fr_gets x {A} (f : kstate → A) : fr x (mgets f).
Proof. intros k _. apply cframe_refl. Qed.
Lemma fr_deref x {A} (o : option A) : fr x (mderef o).
Proof. intros k _. unfold spec, mderef. destruct o; [apply cframe_refl|done]. Qed.
Lemma fr_deref_str x v : fr x (deref_str v).
Proof. destruct v; [apply fr_crash|apply fr_ret|apply fr_crash]. Qed.
Lemma fr_get_sym x s : fr x (get_sym s).
Proof. intros k _. unfold spec, get_sym, mderef. destruct (ks_syms k !! s); [apply cframe_refl|done]. Qed.
Lemma fr_get_prop x p : fr x (get_prop p).
Proof. intros k _. unfold spec, get_prop, mderef. destruct (ks_props k !! p); [apply cframe_refl|done]. Qed.
Lemma fr_when x b m : fr x m → fr x (mwhen b m).
Proof. destruct b; [done|]. intros _. apply fr_ret. Qed.
Lemma fr_iter x {A} (f : A → K ()) l : (∀ a, fr x (f a)) → fr x (miter f l).
Proof. intros Hf. induction l as [|a l IH]; simpl; auto using fr_ret, fr_bind. Qed.

(** A change of members outside the core, of a symbol or a property. *)
Lemma fr_upd_sym x s f :
  (∀ y, sy_core (f y) = sy_core y) → (∀ y, valid y = true → valid (f y) = true) →
  (x = Some s ∨ ∀ y, sy_curr (f y) = sy_curr y) → fr x (upd_sym s f).
Proof.
  intros Hc Hv Hx k Ik. unfold spec, upd_sym, mthen, get_sym, mderef, put_sym, mmodify.
  destruct (ks_syms k !! s) as [y|] eqn:H; [|done]. split.
  - unfold ks_core. simpl. unfold ks_set_syms. simpl. f_equal.
    rewrite fmap_insert, Hc. apply insert_id. by rewrite lookup_fmap, H.
  - simpl. intros s' z z' Hz Hz' V. destruct (decide (s' = s)) as [->|Hne].
    + rewrite lookup_insert_eq in Hz'. simplify_eq. split; [auto|].
      destruct Hx as [->|Hx]; [done|]. auto.
    + rewrite lookup_insert_ne in Hz' by done. by simplify_eq.
Qed.

Lemma fr_upd_prop x p f : (∀ z, pr_core (f z) = pr_core z) → fr x (upd_prop p f).
Proof.
  intros Hc k Ik. unfold spec, upd_prop, mthen, get_prop, mderef, put_prop, mmodify.
  destruct (ks_props k !! p) as [y|] eqn:H; [|done]. split.
  - unfold ks_core. simpl. unfold ks_set_props, ks_set_syms. simpl. f_equal.
    rewrite fmap_insert, Hc. apply insert_id. by rewrite lookup_fmap, H.
  - simpl. intros. by simplify_eq.
Qed.

Lemma fr_upd_menu x m f : (∀ z, mn_core (f z) = mn_core z) → fr x (upd_menu m f).
Proof.
  intros Hc k Ik. unfold spec, upd_menu, mthen, get_menu, mderef, put_menu, mmodify.
  destruct (ks_menus k !! m) as [y|] eqn:H; [|done]. split.
  - unfold ks_core. simpl. unfold ks_set_menus, ks_set_props, ks_set_syms. simpl. f_equal.
    rewrite fmap_insert, Hc. apply insert_id. by rewrite lookup_fmap, H.
  - simpl. intros. by simplify_eq.
Qed.

Lemma fr_or_flags x s bits : Z.ldiff bits calc_bits = 0%Z → fr x (or_flags s bits).
Proof.
  intros H. apply fr_upd_sym; [|intros y; unfold valid; simpl; rewrite has_flag_set; by intros ->|auto].
  intros y. unfold sy_core. simpl. by rewrite clear_set_masked.
Qed.

Lemma fr_clear_write x s : fr x (clear_flags s SYMBOL_WRITE).
Proof.
  apply fr_upd_sym; [|intros y; unfold valid; simpl; by rewrite has_flag_clear|auto].
  intros y. unfold sy_core. simpl. by rewrite clear_clear_masked.
Qed.

Lemma fr_log x m : fr x (log m).
Proof. intros k _. split; [done|]. simpl. intros. by simplify_eq. Qed.
Lemma fr_strdup x t : fr x (strdup t).
Proof. intros k _. split; [done|]. simpl. intros. by simplify_eq. Qed.
Lemma fr_modules_val x t : fr x (mmodify (ks_set_modules_val t)).
Proof. intros k _. split; [done|]. simpl. intros. by simplify_eq. Qed.
End Frame.

Create HintDb kframe.
#[export] Hint Resolve fr_ret fr_crash fr_gets fr_deref fr_deref_str fr_get_sym fr_get_prop
  fr_log fr_strdup fr_modules_val fr_clear_write : kframe.

(** A computation made of parts that keep the frame. *)
Ltac fr_auto :=
  repeat first
    [ progress eauto with kframe
    | lazymatch goal with
      | |- fr _ _ (or_flags _ _) => apply fr_or_flags; done
      | |- fr _ _ (upd_sym _ _) => apply fr_upd_sym; [done|done|by auto]
      | |- fr _ _ (upd_prop _ _) => apply fr_upd_prop; done
      | |- fr _ _ (upd_menu _ _) => apply fr_upd_menu; done
      | |- fr _ _ (mwhen _ _) => apply fr_when
      | |- fr _ _ (miter _ _) => apply fr_iter; [assumption|intros ?]
      | |- fr _ _ (mthen _ _) => apply fr_bind; [assumption| |intros ?]
      end
    | case_match ].

(** Choice lists nest through an [option]: induction along the list. *)
Fixpoint choice_depth (e : expr) : nat :=
  match e with Echoice (Some l) _ => S (choice_depth l) | _ => 0 end.
Lemma choice_ind (P : expr → Prop) :
  (∀ e, (∀ l s, e = Echoice (Some l) s → P l) → P e) → ∀ e, P e.
Proof.
  intros H e. remember (choice_depth e) as n eqn:Hn. revert e Hn.
  induction n as [|n IH]; intros e Hn; apply H; intros l s ->; simplify_eq/=; auto.
Qed.

(** ** The functions under [sym_calc_value] *)

Section CalcFrame.
Context (I : kstate → Prop) (I_frame : ∀ x k k', I k → cframe x k k' → I k').
Context (calc : sid → K ()) (calc_fr : ∀ s, fr I None (calc s)).

Lemma calc_fr_any x s : fr I x (calc s).
Proof. by apply fr_weaken. Qed.
#[local] Hint Resolve calc_fr_any : kframe.

Lemma fr_tristate x s : fr I x (sym_get_tristate_value s).
Proof. unfold sym_get_tristate_value. fr_auto. Qed.
Lemma fr_string_value x s : fr I x (sym_get_string_value s).
Proof. unfold sym_get_string_value. fr_auto. Qed.
Lemma fr_get_type x s : fr I x (sym_get_type s).
Proof. unfold sym_get_type. fr_auto. Qed.
#[local] Hint Resolve fr_tristate fr_string_value fr_get_type : kframe.

Lemma fr_first_prop x t l : fr I x (first_prop t l).
Proof. induction l; simpl; fr_auto. Qed.
#[local] Hint Resolve fr_first_prop : kframe.
Lemma fr_choice_prop x s : fr I x (sym_get_choice_prop s).
Proof. unfold sym_get_choice_prop. fr_auto. Qed.
Lemma fr_prop_symbol x p : fr I x (prop_get_symbol p).
Proof. unfold prop_get_symbol. fr_auto. Qed.
#[local] Hint Resolve fr_choice_prop fr_prop_symbol : kframe.
Lemma fr_choice_of x s : fr I x (choice_of s).
Proof. unfold choice_of. fr_auto. Qed.
#[local] Hint Resolve fr_choice_of : kframe.
Lemma fr_set_changed x s : fr I x (sym_set_changed s).
Proof. unfold sym_set_changed. fr_auto. Qed.
#[local] Hint Resolve fr_set_changed : kframe.

Lemma fr_expr_calc x e : fr I x (expr_calc calc e).
Proof. induction e; simpl; fr_auto. Qed.
#[local] Hint Resolve fr_expr_calc : kframe.
Lemma fr_expr_calc_value x e : fr I x (expr_calc_value calc e).
Proof. unfold expr_calc_value. fr_auto. Qed.
#[local] Hint Resolve fr_expr_calc_value : kframe.
Lemma fr_prop_visible x p : fr I x (calc_prop_visible calc p).
Proof. unfold calc_prop_visible. fr_auto. Qed.
#[local] Hint Resolve fr_prop_visible : kframe.
Lemma fr_visible_prop x t l : fr I x (visible_prop calc t l).
Proof. induction l; simpl; fr_auto. Qed.
#[local] Hint Resolve fr_visible_prop : kframe.
Lemma fr_default_prop x s : fr I x (sym_get_default_prop calc s).
Proof. unfold sym_get_default_prop. fr_auto. Qed.
Lemma fr_range_prop x s : fr I x (sym_get_range_prop calc s).
Proof. unfold sym_get_range_prop. fr_auto. Qed.
Lemma fr_range_val x s b : fr I x (sym_get_range_val calc s b).
Proof. unfold sym_get_range_val. fr_auto. Qed.
Lemma fr_range_syms x p : fr I x (range_syms p).
Proof. unfold range_syms. fr_auto. Qed.
#[local] Hint Resolve fr_default_prop fr_range_prop fr_range_val fr_range_syms : kframe.

Lemma fr_validate_range s : fr I (Some s) (sym_validate_range calc s).
Proof. unfold sym_validate_range. fr_auto. Qed.
Lemma fr_prompts x l tri : fr I x (prompts_visible calc l tri).
Proof. revert tri. induction l; intros tri; simpl; fr_auto. Qed.
Lemma fr_deselected x s : fr I x (calc_deselected calc s).
Proof. unfold calc_deselected. fr_auto. Qed.
#[local] Hint Resolve fr_validate_range fr_prompts fr_deselected : kframe.
Lemma fr_visibility x s : fr I x (sym_calc_visibility calc s).
Proof. unfold sym_calc_visibility. fr_auto. Qed.
#[local] Hint Resolve fr_visibility : kframe.
Lemma fr_try_choice x s : fr I x (try_choice calc s).
Proof. unfold try_choice. fr_auto. Qed.
#[local] Hint Resolve fr_try_choice : kframe.
Lemma fr_choice_defaults x l : fr I x (choice_defaults calc l).
Proof. induction l; simpl; fr_auto. Qed.

Lemma fr_choice_first x e : fr I x (choice_first calc e).
Proof.
  revert e. apply choice_ind.
  intros e IH. destruct e as [| | | | |[l|] s| |]; simpl; fr_auto.
Qed.
#[local] Hint Resolve fr_choice_defaults fr_choice_first : kframe.
Lemma fr_calc_choice s : fr I (Some s) (sym_calc_choice calc s).
Proof. unfold sym_calc_choice. fr_auto. Qed.
Lemma fr_prop_value x p : fr I x (prop_value calc p).
Proof. unfold prop_value. fr_auto. Qed.
#[local] Hint Resolve fr_calc_choice fr_prop_value : kframe.
Lemma fr_logic x s : fr I x (calc_logic calc s).
Proof. unfold calc_logic. fr_auto. Qed.
Lemma fr_string x s : fr I x (calc_string calc s).
Proof. unfold calc_string. fr_auto. Qed.
#[local] Hint Resolve fr_logic fr_string : kframe.

Lemma choice_bits f : Z.ldiff (Z.land f (Z.lor SYMBOL_CHANGED SYMBOL_WRITE)) calc_bits = 0%Z.
Proof.
  apply Z.bits_inj'. intros n Hn. rewrite Z.ldiff_spec, Z.land_spec, Z.bits_0.
  assert (E : Z.ldiff (Z.lor SYMBOL_CHANGED SYMBOL_WRITE) calc_bits = 0%Z) by done.
  apply (f_equal (λ z, Z.testbit z n)) in E. rewrite Z.ldiff_spec, Z.bits_0 in E.
  rewrite <-andb_assoc, E. apply andb_false_r.
Qed.
Lemma fr_mark_values x s : fr I x (mark_choice_values s).
Proof. unfold mark_choice_values. fr_auto. apply fr_or_flags, choice_bits. Qed.
#[local] Hint Resolve fr_mark_values : kframe.

Lemma fr_calc_symbol s o v : fr I (Some s) (calc_symbol calc s o v).
Proof. unfold calc_symbol. fr_auto. Qed.
End CalcFrame.

(** ** [sym_calc_value] *)

Lemma run_get_sym k t y : ks_syms k !! t = Some y → get_sym t k = Done (y, k).
Proof. intros H. unfold get_sym. by rewrite H. Qed.

(** The store after [sym->flags |= SYMBOL_VALID]. *)
Definition mark_valid (s : sid) (y : symbol) (k : kstate) : kstate :=
  ks_set_syms (<[s := sy_set_flags (set_flag (sy_flags y) SYMBOL_VALID) y]> (ks_syms k)) k.

Lemma mark_valid_lookup s y k :
  ks_syms (mark_valid s y k) !! s = Some (sy_set_flags (set_flag (sy_flags y) SYMBOL_VALID) y).
Proof. apply lookup_insert_eq. Qed.

Lemma mark_valid_frame s y k : ks_syms k !! s = Some y → cframe None k (mark_valid s y k).
Proof.
  intros H. pose proof (fr_or_flags (λ _, True) None s SYMBOL_VALID eq_refl k Logic.I) as F.
  unfold spec, or_flags, upd_sym, mthen, get_sym, mderef in F. by rewrite H in F.
Qed.

Lemma valid_marked y : valid (sy_set_flags (set_flag (sy_flags y) SYMBOL_VALID) y) = true.
Proof. unfold valid. simpl. by rewrite has_flag_set, orb_true_r. Qed.

Lemma mark_valid_invalid s y k :
  ks_syms k !! s = Some y → valid y = false → invalid (mark_valid s y k) < invalid k.
Proof.
  intros H V. unfold invalid. apply subset_size. split.
  - by apply (invalid_frame None), mark_valid_frame.
  - intros Hs. assert (Hin : s ∈ invalid_set k) by (apply elem_of_invalid; eauto).
    apply Hs, elem_of_invalid in Hin as (y' & H' & V'). rewrite mark_valid_lookup in H'.
    simplify_eq. by rewrite valid_marked in V'.
Qed.

(** Calculating for a symbol that was not valid is a frame for the others. *)
Lemma cframe_new s y k k' :
  ks_syms k !! s = Some y → valid y = false → cframe (Some s) (mark_valid s y k) k' →
  cframe None k k' ∧ ∀ y', ks_syms k' !! s = Some y' → valid y' = true.
Proof.
  intros H V F. pose proof (mark_valid_frame s y k H) as F1. split.
  - pose proof (cframe_trans _ _ _ _ (cframe_weaken (Some s) _ _ F1) F) as [C2 V2].
    split; [done|]. intros s' z z' Hz Hz' Vz. destruct (V2 _ _ _ Hz Hz' Vz) as [? E].
    split; [done|]. intros _. apply E. intros ?. simplify_eq. congruence.
  - intros y' H'. by eapply (cf_valid _ _ _ F); [apply mark_valid_lookup|done|apply valid_marked].
Qed.

Lemma calc_value_spec n s k :
  invalid k < n →
  spec True (sym_calc_value_f n s) k
    (λ _ k', cframe None k k' ∧ ∀ y', ks_syms k' !! s = Some y' → valid y' = true).
Proof.
  revert s k. induction n as [|n IH]; intros s k Hn; [lia|]. simpl. unfold sym_calc_value_body.
  unfold spec at 1, mthen at 1. destruct (ks_syms k !! s) as [y|] eqn:H; [|by unfold get_sym; rewrite H].
  rewrite (run_get_sym _ _ _ H). fold (valid y). destruct (valid y) eqn:V.
  { simpl. split; [apply cframe_refl|]. intros. by simplify_eq. }
  unfold or_flags, upd_sym at 1, mthen at 1 2. rewrite (run_get_sym _ _ _ H). simpl.
  fold (mark_valid s y k). pose proof (mark_valid_invalid s y k H V) as Hlt.
  assert (G : ∀ m : K (), fr (λ k, invalid k < n) (Some s) m → spec True m (mark_valid s y k)
    (λ _ k', cframe None k k' ∧ ∀ y', ks_syms k' !! s = Some y' → valid y' = true)).
  { intros m Hm. apply (spec_mono _ _ _ _ (λ _, cframe (Some s) (mark_valid s y k)));
      [apply Hm; lia|intros ? ? F; by apply (cframe_new s y)]. }
  assert (I_frame : ∀ x k1 k2, invalid k1 < n → cframe x k1 k2 → invalid k2 < n).
  { intros x k1 k2 ? F%invalid_frame_le. lia. }
  assert (Hc : ∀ s, fr (λ k, invalid k < n) None (sym_calc_value_f n s)).
  { intros s' k' Hk. eapply spec_mono; [by apply IH|]. by intros ? ? [? _]. }
  destruct (sy_type y) eqn:T; apply G;
    [by apply fr_upd_sym; auto|by apply fr_calc_symbol..|by apply fr_upd_sym; auto].
Qed.

Lemma sym_calc_value_spec s k :
  spec True (sym_calc_value s) k
    (λ _ k', cframe None k k' ∧ ∀ y', ks_syms k' !! s = Some y' → valid y' = true).
Proof.
  assert (E : sym_calc_value s k = sym_calc_value_f (calc_fuel k) s k) by done.
  assert (F : invalid k < calc_fuel k) by (unfold calc_fuel; pose proof (invalid_bound k); lia).
  pose proof (calc_value_spec (calc_fuel k) s k F) as H. unfold spec in *. by rewrite E.
Qed.
