(* ===== verification/KSymRef.v ===== *)
(** * A reference evaluator for symbol values

    The value every symbol should have, as equations: each component of a
    symbol (visibility, reverse dependency, value) is an expression over the
    values of the symbols it reads.  The evaluator [ref_...] is a function of
    the store that looks only at valid symbols and is undefined ([None]) when
    it would need another one.  [solved k s] says that the valid symbol [s]
    satisfies its equations. *)
From S2P Require Import Prelude CLib KData KExpr KState KSymbol KSymFrame.
From stdpp Require Export relations.
Open Scope pr30_scope.

(** ** What the calculation of a symbol reads *)

Fixpoint expr_syms (e : expr) : list sid :=
  match e with
  | Eor l r | Eand l r => expr_syms l ++ expr_syms r
  | Enot l => expr_syms l
  | Eequal l r | Eunequal l r | Erange l r => [l; r]
  | Esymbol s => [s]
  | Echoice _ _ => []
  end.
Definition oexpr_syms (e : option expr) : list sid := from_option expr_syms [] e.

Definition prop_reads (x : property) : list sid :=
  oexpr_syms (pr_visible x) ++
  match pr_type x with P_DEFAULT | P_RANGE => oexpr_syms (pr_expr x) | _ => [] end.

Definition sym_reads (k : kstate) (y : symbol) : list sid :=
  oexpr_syms (sy_rev_dep y) ++ oexpr_syms (sy_rev_dep_inv y) ++
  concat (map (λ p, from_option prop_reads [] (ks_props k !! p)) (sy_prop y)).

Definition reads (k : kstate) (s t : sid) : Prop :=
  ∃ y, ks_syms k !! s = Some y ∧ t ∈ sym_reads k y.

(** ** The evaluator *)

Definition valid_in (k : kstate) (s : sid) : Prop :=
  ∃ y, ks_syms k !! s = Some y ∧ valid y = true.

Section Ref.
Variable k : kstate.

Definition ref_sym (s : sid) : option symbol :=
  let? y := ks_syms k !! s in if valid y then Some y else None.
Definition ref_tri (s : sid) : option tristate :=
  let? y := ref_sym s in Some (sv_tri (sy_curr y)).
Definition cval_text (v : cval) : option string :=
  match v with VStr c => Some (cs_text c) | _ => None end.
Definition ref_str (s : sid) : option string :=
  let? y := ref_sym s in cval_text (string_value y).
(** The text of [curr.val], which for a boolean or tristate symbol is not the
    letter of its value. *)
Definition ref_text (s : sid) : option string :=
  let? y := ref_sym s in cval_text (sv_val (sy_curr y)).

Fixpoint ref_expr (e : expr) : option tristate :=
  match e with
  | Esymbol s => ref_tri s
  | Eand l r => let? a := ref_expr l in let? b := ref_expr r in Some (tri_and a b)
  | Eor l r => let? a := ref_expr l in let? b := ref_expr r in Some (tri_or a b)
  | Enot l => let? a := ref_expr l in Some (tri_not a)
  | Eequal l r =>
      let? a := ref_str l in let? b := ref_str r in Some (if decide (a = b) then Yes else No)
  | Eunequal l r =>
      let? a := ref_str l in let? b := ref_str r in Some (if decide (a = b) then No else Yes)
  | Echoice _ _ | Erange _ _ => Some No
  end.
Definition ref_null (e : option expr) : option tristate :=
  match e with None => Some Yes | Some e => ref_expr e end.

Fixpoint ref_prompts (l : list pid) (tri : tristate) : option tristate :=
  match l with
  | [] => Some tri
  | p :: l =>
      let? x := ks_props k !! p in
      match pr_text x with
      | Some _ => let? v := ref_null (pr_visible x) in ref_prompts l (tri_or tri v)
      | None => ref_prompts l tri
      end
  end.

(** The first visible property of type [t]. *)
Fixpoint ref_first (t : prop_type) (l : list pid) : option (option pid) :=
  match l with
  | [] => Some None
  | p :: l =>
      let? x := ks_props k !! p in
      if decide (pr_type x = t) then
        let? v := ref_null (pr_visible x) in
        if decide (v = No) then ref_first t l else Some (Some p)
      else ref_first t l
  end.

Definition ref_deselected (y : symbol) : option bool :=
  match sy_rev_dep_inv y with
  | Some e => let? v := ref_expr e in Some (bool_decide (v = Yes))
  | None => Some false
  end.

(** Visibility: some prompt is visible, [m] counts as [y] unless the symbol is
    a tristate, and a deselected symbol is invisible. *)
Definition ref_visible (y : symbol) : option tristate :=
  let? tri := ref_prompts (sy_prop y) No in
  let? d := ref_deselected y in
  Some (if d then No else if decide (tri = Mod ∧ sy_type y ≠ S_TRISTATE) then Yes else tri).

(** The lower bound that selecting symbols put on this one. *)
Definition ref_rev (y : symbol) : option tristate :=
  let? v := match sy_rev_dep y with Some e => ref_expr e | None => Some No end in
  Some (if decide (v = Mod ∧ sy_type y = S_BOOLEAN) then Yes else v).

Definition ref_default (y : symbol) : option tristate :=
  let? p := ref_first P_DEFAULT (sy_prop y) in
  match p with
  | None => Some No
  | Some p => let? x := ks_props k !! p in ref_null (pr_expr x)
  end.

(** The value of a boolean or tristate symbol: the user's setting or else the
    default, cut down to the visibility and raised to the reverse dependency;
    the default alone if the symbol is neither visible nor selected. *)
Definition ref_logic (y : symbol) : option tristate :=
  let? d := ref_deselected y in
  let? tri :=
    if d then Some No
    else if decide (tri_or (sy_visible y) (sy_rev_dep_tri y) = No) then ref_default y
    else
      let? base := if has_value y then Some (sv_tri (sy_user y)) else ref_default y in
      Some (tri_or (tri_and base (sy_visible y)) (sy_rev_dep_tri y)) in
  Some (if decide (tri = Mod ∧ sy_type y = S_BOOLEAN) then Yes else tri).

(** The value of a string, int or hex symbol before its range is enforced. *)
Definition ref_plain (y : symbol) : option string :=
  if bool_decide (sy_visible y ≠ No) && has_value y then cval_text (sv_val (sy_user y))
  else
    let? p := ref_first P_DEFAULT (sy_prop y) in
    match p with
    | None => Some EmptyString
    | Some p =>
        let? x := ks_props k !! p in
        match pr_expr x with
        | Some (Esymbol ds) => ref_text ds
        | _ => Some EmptyString
        end
    end.

Definition ref_bound (s : sid) (base : Z) : option Z :=
  let? y := ref_sym s in
  let? str := cval_text (sv_val (sy_curr y)) in
  Some (strtoi str (match sy_type y with S_INT => 10%Z | S_HEX => 16%Z | _ => base end)).

(** The nearest number of the range, printed; the text itself if it is inside. *)
Definition ref_range (y : symbol) (text : string) : option string :=
  match (match sy_type y with S_INT => Some 10%Z | S_HEX => Some 16%Z | _ => None end) with
  | None => Some text
  | Some base =>
      let? p := ref_first P_RANGE (sy_prop y) in
      match p with
      | None => Some text
      | Some p =>
          let? x := ks_props k !! p in
          match pr_expr x with
          | Some (Erange l r) =>
              let print v := match sy_type y with S_INT => print_d v | _ => "0x" +:+ print_x v end in
              let? lo := ref_bound l base in
              if (lo <=? strtoi text base)%Z then
                let? hi := ref_bound r base in
                Some (if (strtoi text base <=? hi)%Z then text else print hi)
              else Some (print lo)
          | _ => None
          end
      end
  end.
Definition ref_string (y : symbol) : option string :=
  let? text := ref_plain y in ref_range y text.

(** ** The equations of one symbol *)

Definition equations (s : sid) (y : symbol) : Prop :=
  match sy_type y with
  | S_BOOLEAN | S_TRISTATE =>
      ref_visible y = Some (sy_visible y) ∧
      (ref_deselected y = Some false → ref_rev y = Some (sy_rev_dep_tri y)) ∧
      ref_logic y = Some (sv_tri (sy_curr y)) ∧
      sv_val (sy_curr y) = VStr lit_n
  | S_STRING | S_INT | S_HEX =>
      ref_visible y = Some (sy_visible y) ∧
      ∃ c, sy_curr y = SValue (VStr c) No ∧ ref_string y = Some (cs_text c)
  | S_UNKNOWN | S_OTHER =>
      ∃ c, sy_name y = Some c ∧
        sy_curr y = SValue (VStr c) (if decide (s = symbol_yes) then Yes
                                     else if decide (s = symbol_mod) then Mod else No)
  end.
Definition solved (s : sid) : Prop :=
  ∃ y, ks_syms k !! s = Some y ∧ valid y = true ∧ equations s y.
End Ref.

(** ** The evaluator depends only on the valid symbols it reads *)

(** Two records of a symbol with the same type and value. *)
Definition val_eq (y y' : symbol) : Prop :=
  sy_type y' = sy_type y ∧ sv_tri (sy_curr y') = sv_tri (sy_curr y) ∧
  cval_text (string_value y') = cval_text (string_value y) ∧
  cval_text (sv_val (sy_curr y')) = cval_text (sv_val (sy_curr y)).

(** The valid symbols of [P] are valid with the same value in the other
    store, and the properties are the same up to their cached visibility. *)
Record agree (P : sid → Prop) (k k' : kstate) : Prop := {
  ag_sym : ∀ t y, P t → ref_sym k t = Some y → ∃ y', ref_sym k' t = Some y' ∧ val_eq y y';
  ag_prop : pr_core <$> ks_props k' = pr_core <$> ks_props k;
}.

Lemma agree_weaken (P Q : sid → Prop) k k' : (∀ t, Q t → P t) → agree P k k' → agree Q k k'.
Proof. intros H [A B]. split; auto. Qed.

Lemma agree_prop P k k' p x :
  agree P k k' → ks_props k !! p = Some x →
  ∃ x', ks_props k' !! p = Some x' ∧ pr_core x' = pr_core x.
Proof.
  intros [_ E] H. assert (L : (pr_core <$> ks_props k') !! p = Some (pr_core x)).
  { by rewrite E, lookup_fmap, H. }
  rewrite lookup_fmap in L. destruct (ks_props k' !! p) as [x'|]; [|done]. apply (inj Some) in L. eauto.
Qed.

(** Equal cores agree on every member but the cached visibility. *)
Lemma pr_core_inv x x' :
  pr_core x' = pr_core x →
  pr_type x' = pr_type x ∧ pr_text x' = pr_text x ∧ pr_visible x' = pr_visible x ∧
  pr_expr x' = pr_expr x ∧ pr_menu x' = pr_menu x ∧ prop_reads x' = prop_reads x.
Proof. destruct x, x'. unfold pr_core, prop_reads. simpl. intros. by simplify_eq. Qed.

Lemma ref_sym_valid k s y : ref_sym k s = Some y → valid_in k s ∧ ks_syms k !! s = Some y.
Proof. unfold ref_sym, valid_in. intros H. opt_step H. case_match; simplify_eq. eauto. Qed.

Lemma agree_exact (P : sid → Prop) k k' :
  (∀ t, P t → valid_in k t → ks_syms k' !! t = ks_syms k !! t) →
  pr_core <$> ks_props k' = pr_core <$> ks_props k → agree P k k'.
Proof.
  intros A B. split; [|done]. intros t y Ht H. exists y. split; [|done].
  destruct (ref_sym_valid _ _ _ H) as [V _]. unfold ref_sym in *. by rewrite (A _ Ht V).
Qed.

Section Stable.
Context (P : sid → Prop) (k k' : kstate) (Ag : agree P k k').

Ltac sym_stable H :=
  opt_step H;
  match goal with
  | E : ref_sym k _ = Some _ |- _ =>
      destruct (ag_sym _ _ _ Ag _ _ ltac:(eassumption) E) as (? & -> & (? & ? & ? & ?))
  end.

Lemma ref_tri_stable s v : P s → ref_tri k s = Some v → ref_tri k' s = Some v.
Proof. unfold ref_tri. intros Hs H. sym_stable H. congruence. Qed.
Lemma ref_str_stable s v : P s → ref_str k s = Some v → ref_str k' s = Some v.
Proof. unfold ref_str. intros Hs H. sym_stable H. congruence. Qed.
Lemma ref_text_stable s v : P s → ref_text k s = Some v → ref_text k' s = Some v.
Proof. unfold ref_text. intros Hs H. sym_stable H. congruence. Qed.
Lemma ref_bound_stable s b v : P s → ref_bound k s b = Some v → ref_bound k' s b = Some v.
Proof.
  unfold ref_bound. intros Hs H. sym_stable H.
  match goal with T : sy_type _ = sy_type _, E : cval_text (sv_val (sy_curr _)) = cval_text _ |- _ =>
    rewrite T, E end. done.
Qed.

Lemma ref_expr_stable e v :
  (∀ t, t ∈ expr_syms e → P t) → ref_expr k e = Some v → ref_expr k' e = Some v.
Proof.
  revert v. induction e as [l IHl r IHr|l IHl r IHr|l IHl|a b|a b| |s|];
    simpl; intros v Hs H; try (by eauto).
  - opt_step H. opt_step H. rewrite (IHl _ ltac:(set_solver) eq_refl).
    by rewrite (IHr _ ltac:(set_solver) eq_refl).
  - opt_step H. opt_step H. rewrite (IHl _ ltac:(set_solver) eq_refl).
    by rewrite (IHr _ ltac:(set_solver) eq_refl).
  - opt_step H. by rewrite (IHl _ Hs eq_refl).
  - opt_step H. opt_step H.
    rewrite (ref_str_stable a _ ltac:(apply Hs; set_solver) E).
    by rewrite (ref_str_stable b _ ltac:(apply Hs; set_solver) E0).
  - opt_step H. opt_step H.
    rewrite (ref_str_stable a _ ltac:(apply Hs; set_solver) E).
    by rewrite (ref_str_stable b _ ltac:(apply Hs; set_solver) E0).
  - apply ref_tri_stable; [|done]. apply Hs. set_solver.
Qed.

Lemma ref_null_stable e v :
  (∀ t, t ∈ oexpr_syms e → P t) → ref_null k e = Some v → ref_null k' e = Some v.
Proof. destruct e; simpl; eauto using ref_expr_stable. Qed.

(** The properties of a list whose reads are in [P]. *)
Definition props_in (l : list pid) : Prop :=
  ∀ p x t, p ∈ l → ks_props k !! p = Some x → t ∈ prop_reads x → P t.

Lemma props_in_cons p l : props_in (p :: l) → props_in l.
Proof. intros H q x t Hq. apply H. by right. Qed.
Lemma props_in_visible p l x t :
  props_in (p :: l) → ks_props k !! p = Some x → t ∈ oexpr_syms (pr_visible x) → P t.
Proof. intros H Hp Ht. apply (H p x t); [by left|done|]. unfold prop_reads. set_solver. Qed.

Lemma ref_prompts_stable l tri v :
  props_in l → ref_prompts k l tri = Some v → ref_prompts k' l tri = Some v.
Proof.
  revert tri. induction l as [|p l IH]; simpl; intros tri Hl H; [done|]. opt_step H.
  destruct (agree_prop _ _ _ _ _ Ag E) as (x' & -> & (_ & -> & -> & _)%pr_core_inv).
  destruct (pr_text p0).
  - opt_step H. rewrite (ref_null_stable _ _ (λ t, props_in_visible _ _ _ t Hl E) E0).
    eauto using props_in_cons.
  - eauto using props_in_cons.
Qed.

Lemma ref_first_stable t l o :
  props_in l → ref_first k t l = Some o → ref_first k' t l = Some o.
Proof.
  induction l as [|p l IH]; simpl; intros Hl H; [done|]. opt_step H.
  destruct (agree_prop _ _ _ _ _ Ag E) as (x' & -> & (-> & _ & -> & _)%pr_core_inv).
  case_decide; [|eauto using props_in_cons].
  opt_step H. rewrite (ref_null_stable _ _ (λ t, props_in_visible _ _ _ t Hl E) E0).
  case_decide; eauto using props_in_cons.
Qed.

Lemma ref_first_In t l p : ref_first k t l = Some (Some p) →
  p ∈ l ∧ ∃ x, ks_props k !! p = Some x ∧ pr_type x = t.
Proof.
  induction l as [|q l IH]; simpl; intros H; [done|]. opt_step H.
  case_decide; [opt_step H; case_decide; [|simplify_eq; split; [by left|eauto]]|];
    destruct (IH H); split; [by right|done|by right|done].
Qed.

Context (y : symbol) (Hy : ∀ t, t ∈ sym_reads k y → P t).

Lemma sym_props_in : props_in (sy_prop y).
Proof.
  intros p x t Hp Hx Ht. apply Hy. unfold sym_reads. rewrite !elem_of_app. right. right.
  apply list_elem_of_In, in_concat. exists (prop_reads x). split; [|by apply list_elem_of_In].
  apply in_map_iff. exists p. rewrite Hx. split; [done|by apply list_elem_of_In].
Qed.

Lemma ref_deselected_stable d : ref_deselected k y = Some d → ref_deselected k' y = Some d.
Proof.
  unfold ref_deselected. destruct (sy_rev_dep_inv y) as [e|] eqn:Ee; [|done]. intros H. opt_step H.
  rewrite (ref_expr_stable e t); [done| |done]. intros u Hu. apply Hy. unfold sym_reads.
  rewrite Ee. simpl. set_solver.
Qed.
Lemma ref_visible_stable v : ref_visible k y = Some v → ref_visible k' y = Some v.
Proof.
  unfold ref_visible. intros H. opt_step H. opt_step H.
  by rewrite (ref_prompts_stable _ _ _ sym_props_in E), (ref_deselected_stable _ E0).
Qed.
Lemma ref_rev_stable v : ref_rev k y = Some v → ref_rev k' y = Some v.
Proof.
  unfold ref_rev. destruct (sy_rev_dep y) as [e|] eqn:Ee; [|done]. intros H. opt_step H.
  rewrite (ref_expr_stable e t); [done| |done]. intros u Hu. apply Hy. unfold sym_reads.
  rewrite Ee. simpl. set_solver.
Qed.

(** The reads of the expression of a default or a range. *)
Lemma prop_expr_in p x :
  p ∈ sy_prop y → ks_props k !! p = Some x → pr_type x = P_DEFAULT ∨ pr_type x = P_RANGE →
  ∀ t, t ∈ oexpr_syms (pr_expr x) → P t.
Proof.
  intros Hp Hx Ht t Hin. apply (sym_props_in p x t Hp Hx). unfold prop_reads.
  destruct Ht as [-> | ->]; set_solver.
Qed.

Lemma ref_default_stable v : ref_default k y = Some v → ref_default k' y = Some v.
Proof.
  unfold ref_default. intros H. opt_step H. rewrite (ref_first_stable _ _ _ sym_props_in E).
  destruct o as [p|]; [|done]. destruct (ref_first_In _ _ _ E) as (Hp & x & Hx & Ht).
  rewrite Hx in H. destruct (agree_prop _ _ _ _ _ Ag Hx) as (x' & -> & (_ & _ & _ & -> & _)%pr_core_inv).
  eapply ref_null_stable; [|done]. eapply prop_expr_in; eauto.
Qed.

Lemma ref_logic_stable v : ref_logic k y = Some v → ref_logic k' y = Some v.
Proof.
  unfold ref_logic. intros H. opt_step H. rewrite (ref_deselected_stable _ E). destruct b; [done|].
  case_decide.
  - opt_step H. by rewrite (ref_default_stable _ E0).
  - destruct (has_value y); [done|]. destruct (ref_default k y) eqn:E0; [|done].
    by rewrite (ref_default_stable _ E0).
Qed.

Lemma ref_plain_stable v : ref_plain k y = Some v → ref_plain k' y = Some v.
Proof.
  unfold ref_plain. case_match; [done|]. intros H'. opt_step H'.
  rewrite (ref_first_stable _ _ _ sym_props_in E). destruct o as [p|]; [|done].
  destruct (ref_first_In _ _ _ E) as (Hp & x & Hx & Ht). rewrite Hx in H'.
  destruct (agree_prop _ _ _ _ _ Ag Hx) as (x' & -> & (_ & _ & _ & -> & _)%pr_core_inv).
  pose proof (prop_expr_in p x Hp Hx (or_introl Ht)) as Hr.
  destruct (pr_expr x) as [[]|]; try done. apply ref_text_stable; [|done]. apply Hr. set_solver.
Qed.

Lemma ref_range_stable text v : ref_range k y text = Some v → ref_range k' y text = Some v.
Proof.
  unfold ref_range. case_match; [|done]. intros H'. opt_step H'.
  rewrite (ref_first_stable _ _ _ sym_props_in E). destruct o as [p|]; [|done].
  destruct (ref_first_In _ _ _ E) as (Hp & x & Hx & Ht). rewrite Hx in H'.
  destruct (agree_prop _ _ _ _ _ Ag Hx) as (x' & -> & (_ & _ & _ & -> & _)%pr_core_inv).
  pose proof (prop_expr_in p x Hp Hx (or_intror Ht)) as Hr.
  destruct (pr_expr x) as [[| | | | | | |a b]|]; try done. opt_step H'.
  rewrite (ref_bound_stable a _ _ ltac:(apply Hr; set_solver) E0).
  case_match; [|done]. opt_step H'.
  by rewrite (ref_bound_stable b _ _ ltac:(apply Hr; set_solver) E1).
Qed.

Lemma ref_string_stable v : ref_string k y = Some v → ref_string k' y = Some v.
Proof.
  unfold ref_string. intros H. opt_step H. rewrite (ref_plain_stable _ E). by apply ref_range_stable.
Qed.

(** The implication about the reverse dependency needs that being deselected
    is decided. *)
Lemma equations_stable s : equations k s y → equations k' s y.
Proof.
  unfold equations. intros E.
  assert (L : ref_visible k y = Some (sy_visible y) →
    (ref_deselected k y = Some false → ref_rev k y = Some (sy_rev_dep_tri y)) →
    ref_deselected k' y = Some false → ref_rev k' y = Some (sy_rev_dep_tri y)).
  { unfold ref_visible. intros A B. opt_step A. opt_step A.
    rewrite (ref_deselected_stable _ E1). intros [= ->]. apply ref_rev_stable. auto. }
  destruct (sy_type y); try done;
    [destruct E as (A & B & C & D)|destruct E as (A & B & C & D)|destruct E as (A & c & B & C)..];
    (split; [by apply ref_visible_stable|]);
    try (exists c; by auto using ref_string_stable); split_and!; auto using ref_logic_stable.
Qed.
End Stable.

(** A solved symbol stays solved as long as it and the valid symbols it reads
    stay the same. *)
Lemma solved_stable k k' s :
  agree (reads k s) k k' → ks_syms k' !! s = ks_syms k !! s → solved k s → solved k' s.
Proof.
  intros Ag Hs (y & H & V & E). exists y. rewrite H in Hs. split_and!; [done..|].
  eapply equations_stable; [exact Ag| |done]. intros t Ht. by exists y.
Qed.
