(* ===== verification/KSymSolve.v ===== *)
(** * [sym_calc_value] solves the equations of the reference evaluator

    For a configuration without choices whose dependencies are not recursive,
    [sym_calc_value] does not crash, ends, and leaves a store in which every
    valid symbol satisfies its equations ([solved]). *)
From S2P Require Import Prelude CLib CStr KData KExpr KState KSymbol KSymFrame KSymRef.
Open Scope pr30_scope.

(** ** Well-formed configurations *)

Record plain (k : kstate) : Prop := {
  pl_reads : ∀ s t, reads k s t → is_Some (ks_syms k !! t);
  pl_props : ∀ s y p, ks_syms k !! s = Some y → p ∈ sy_prop y →
    ∃ x, ks_props k !! p = Some x ∧
      (∀ m, pr_menu x = Some m → is_Some (ks_menus k !! m)) ∧
      (pr_type x = P_RANGE → ∃ l r, pr_expr x = Some (Erange l r)) ∧
      (pr_type x = P_DEFAULT → ∀ l s, pr_expr x ≠ Some (Echoice (Some l) s));
  pl_name : ∀ s y, ks_syms k !! s = Some y → sy_type y = S_UNKNOWN ∨ sy_type y = S_OTHER →
    is_Some (sy_name y);
  pl_user : ∀ s y, ks_syms k !! s = Some y →
    sy_type y = S_STRING ∨ sy_type y = S_INT ∨ sy_type y = S_HEX → has_value y = true →
    ∃ c, sv_val (sy_user y) = VStr c;
  pl_choice : ∀ s y, ks_syms k !! s = Some y → is_choice y = false ∧ is_choice_value y = false;
  pl_acyclic : ∀ s, ¬ tc (reads k) s s;
}.

Lemma sy_core_inv y y' :
  sy_core y' = sy_core y →
  sy_name y' = sy_name y ∧ sy_type y' = sy_type y ∧ sy_user y' = sy_user y ∧
  sy_prop y' = sy_prop y ∧ sy_rev_dep y' = sy_rev_dep y ∧ sy_rev_dep_inv y' = sy_rev_dep_inv y ∧
  has_value y' = has_value y ∧ is_choice y' = is_choice y ∧ is_choice_value y' = is_choice_value y.
Proof.
  destruct y as [? ? ? ? ? f], y' as [? ? ? ? ? f']. unfold sy_core. simpl. intros E. simplify_eq.
  unfold has_value, is_choice, is_choice_value. simpl.
  by rewrite !(has_flag_masked f' f calc_bits) by done.
Qed.

Lemma core_menu k k' m : ks_core k' = ks_core k → is_Some (ks_menus k !! m) → is_Some (ks_menus k' !! m).
Proof.
  intros E H. assert (E' : mn_core <$> ks_menus k' = mn_core <$> ks_menus k).
  { by apply (f_equal ks_menus) in E. }
  apply (fmap_is_Some mn_core). rewrite <-lookup_fmap, E', lookup_fmap. by apply fmap_is_Some.
Qed.

Lemma core_props k k' : ks_core k' = ks_core k → pr_core <$> ks_props k' = pr_core <$> ks_props k.
Proof. intros E. by apply (f_equal ks_props) in E. Qed.

Lemma core_prop_reads k k' p :
  ks_core k' = ks_core k →
  from_option prop_reads [] (ks_props k' !! p) = from_option prop_reads [] (ks_props k !! p).
Proof.
  intros E. destruct (ks_props k !! p) as [x|] eqn:H.
  - destruct (core_prop _ _ _ _ E H) as (x' & -> & (_ & _ & _ & _ & _ & ?)%pr_core_inv). done.
  - destruct (ks_props k' !! p) as [x'|] eqn:H'; [|done].
    destruct (core_prop k' k _ _ (eq_sym E) H') as (? & ? & _). congruence.
Qed.

Lemma core_sym_reads k k' y y' :
  ks_core k' = ks_core k → sy_core y' = sy_core y → sym_reads k' y' = sym_reads k y.
Proof.
  intros E (_ & _ & _ & Hp & Hr & Hi & _)%sy_core_inv. unfold sym_reads. rewrite Hp, Hr, Hi.
  do 3 f_equal. apply map_ext. intros p. by apply core_prop_reads.
Qed.

Lemma core_reads k k' s t : ks_core k' = ks_core k → reads k s t → reads k' s t.
Proof.
  intros E (y & H & Ht). destruct (core_sym _ _ _ _ E H) as (y' & H' & Ey).
  exists y'. split; [done|]. by rewrite (core_sym_reads k k' y y').
Qed.

Lemma core_tc k k' s t : ks_core k' = ks_core k → tc (reads k) s t → tc (reads k') s t.
Proof.
  intros E. induction 1 as [s t H|s u t H _ IH].
  - apply tc_once. by eapply core_reads.
  - eapply tc_l; [by eapply core_reads|done].
Qed.

Lemma plain_core k k' : ks_core k' = ks_core k → plain k → plain k'.
Proof.
  intros E [A1 A2 A3 A4 A5 A6]. symmetry in E. split.
  - intros s t Hr. apply (core_reads _ k) in Hr; [|done]. destruct (A1 _ _ Hr) as [y Hy].
    destruct (core_sym k k' t y (eq_sym E) Hy) as (? & ? & _). eauto.
  - intros s y' p H' Hp. destruct (core_sym _ _ _ _ E H') as (y & H & (_ & _ & _ & Hq & _)%sy_core_inv).
    rewrite <-Hq in Hp. destruct (A2 _ _ _ H Hp) as (x & Hx & B1 & B2 & B3).
    destruct (core_prop _ k' _ _ (eq_sym E) Hx) as (x' & Hx' & (Et & _ & _ & Ex & Em & _)%pr_core_inv).
    exists x'. rewrite Et, Ex, Em. split_and!; [done| |done..]. intros m Hm. apply (core_menu k); [done|]. by apply B1.
  - intros s y' H'. destruct (core_sym _ _ _ _ E H') as (y & H & (<- & <- & _)%sy_core_inv). eauto.
  - intros s y' H'.
    destruct (core_sym _ _ _ _ E H') as (y & H & (_ & <- & <- & _ & _ & _ & <- & _)%sy_core_inv). eauto.
  - intros s y' H'.
    destruct (core_sym _ _ _ _ E H') as (y & H & (_ & _ & _ & _ & _ & _ & _ & <- & <-)%sy_core_inv). eauto.
  - intros s Ht. eapply A6, core_tc; eauto.
Qed.

(** ** Steps of a calculation *)

#[export] Instance valid_in_dec k s : Decision (valid_in k s).
Proof.
  destruct (ks_syms k !! s) as [y|] eqn:H; [destruct (valid y) eqn:V|].
  - left. by exists y.
  - right. intros (? & ? & ?). congruence.
  - right. intros (? & ? & ?). congruence.
Defined.

(** A visible symbol is to be written to the configuration file. *)
Definition writes (y : symbol) : bool := has_flag (sy_flags y) SYMBOL_WRITE.
Definition marked (y : symbol) : Prop :=
  sy_type y ≠ S_UNKNOWN → sy_type y ≠ S_OTHER → sy_visible y ≠ No → writes y = true.
Definition marked_in (k : kstate) (s : sid) : Prop := ∀ y, ks_syms k !! s = Some y → marked y.

(** [visible.tri] of the prompts in [l] is what their conditions come to. *)
Definition shown (k : kstate) (l : list pid) : Prop :=
  ∀ p x, p ∈ l → ks_props k !! p = Some x → is_Some (pr_text x) →
    ref_null k (pr_visible x) = Some (pr_visible_tri x).
Definition shown_in (k : kstate) (s : sid) : Prop :=
  ∀ y, ks_syms k !! s = Some y → sy_type y ≠ S_UNKNOWN → sy_type y ≠ S_OTHER → shown k (sy_prop y).

(** [visible.tri] of a property is what it was, or was calculated from symbols
    that [s] reads. *)
Definition prop_step (s : sid) (k k' : kstate) : Prop :=
  ∀ p x', ks_props k' !! p = Some x' →
    (∃ x, ks_props k !! p = Some x ∧ pr_visible_tri x' = pr_visible_tri x) ∨
    ((∀ t, t ∈ oexpr_syms (pr_visible x') → tc (reads k) s t) ∧
     ref_null k' (pr_visible x') = Some (pr_visible_tri x')).

(** What a call of [sym_calc_value] for [s] does: valid symbols stay as they
    are, and what becomes valid is read from [s], directly or not, and solved. *)
Record done_by (s : sid) (k k' : kstate) : Prop := {
  db_core : ks_core k' = ks_core k;
  db_same : ∀ u, valid_in k u → ks_syms k' !! u = ks_syms k !! u;
  db_new : ∀ u, valid_in k' u → ¬ valid_in k u → rtc (reads k) s u ∧ solved k' u;
  db_mark : ∀ u, valid_in k' u → ¬ valid_in k u → marked_in k' u ∧ shown_in k' u;
  db_prop : prop_step s k k';
}.

(** A step inside the calculation of [s]; [x] is [Some s] for steps that
    change [s] itself. *)
Record istep (x : option sid) (s : sid) (k k' : kstate) : Prop := {
  is_core : ks_core k' = ks_core k;
  is_same : ∀ u, x ≠ Some u → valid_in k u → ks_syms k' !! u = ks_syms k !! u;
  is_new : ∀ u, valid_in k' u → ¬ valid_in k u → tc (reads k) s u ∧ solved k' u;
  is_mark : ∀ u, valid_in k' u → ¬ valid_in k u → marked_in k' u ∧ shown_in k' u;
  is_prop : prop_step s k k';
  is_valid : valid_in k s → valid_in k' s;
}.

(** The state while [s] is calculated: [s] is marked valid, and of what it
    reads the valid part is solved. *)
Record inside (n : nat) (s : sid) (k : kstate) : Prop := {
  in_plain : plain k;
  in_fuel : invalid k < n;
  in_valid : valid_in k s;
  in_below : ∀ u, tc (reads k) s u → valid_in k u → solved k u;
  in_const : valid_in k symbol_yes ∧ valid_in k symbol_mod;
}.

Definition own (x : option sid) (s : sid) : Prop := x = None ∨ x = Some s.

Lemma own_ne x s u : own x s → u ≠ s → x ≠ Some u.
Proof. intros [->| ->]; congruence. Qed.

Lemma reads_ne k s u t : plain k → tc (reads k) s u → t = u ∨ reads k u t → t ≠ s.
Proof.
  intros P Hu Ht ->. destruct Ht as [<-|Ht]; [by apply (pl_acyclic k P s)|].
  apply (pl_acyclic k P s). by eapply tc_r.
Qed.

(** A solved symbol below [s] stays solved. *)
Lemma istep_solved x s k k' u :
  plain k → own x s → istep x s k k' → tc (reads k) s u → solved k u → solved k' u.
Proof.
  intros P O [C S _ _ _ _] Hu Hs.
  assert (Hne : ∀ t, t = u ∨ reads k u t → x ≠ Some t).
  { intros t Ht. apply (own_ne _ s); [done|]. by eapply reads_ne. }
  eapply solved_stable; [|apply S; [by apply Hne; left|destruct Hs as (y & ? & ? & _); by exists y]|done].
  apply agree_exact; [|by apply core_props]. intros t Ht V. apply S; [|done]. apply Hne. by right.
Qed.

Lemma prop_step_same s k k' : ks_props k' = ks_props k → prop_step s k k'.
Proof. intros E p x H. left. exists x. by rewrite <-E. Qed.

Lemma istep_refl x s k : istep x s k k.
Proof. split; try done. by apply prop_step_same. Qed.

Lemma istep_weaken x s k k' : istep None s k k' → istep x s k k'.
Proof. intros [A B C D E F]. split; auto. Qed.

Lemma agree_step x s k k' :
  plain k → own x s → ks_core k' = ks_core k →
  (∀ u, x ≠ Some u → valid_in k u → ks_syms k' !! u = ks_syms k !! u) → agree (tc (reads k) s) k k'.
Proof.
  intros P O A B. apply agree_exact; [|by apply core_props]. intros t Ht V. apply B; [|done].
  apply (own_ne _ s); [done|]. intros ->. by apply (pl_acyclic k P s).
Qed.
(** Evaluations below [s] are kept by a step. *)
Lemma istep_agree x s k k' :
  plain k → own x s → istep x s k k' → agree (tc (reads k) s) k k'.
Proof. intros P O [A B _ _ _ _]. by eapply agree_step. Qed.

Lemma prop_step_trans x s k1 k2 k3 :
  plain k1 → own x s → istep x s k1 k2 → istep x s k2 k3 → prop_step s k1 k3.
Proof.
  intros P O F1 F2 p x3 H3. pose proof (is_core _ _ _ _ F1) as C1.
  assert (P2 : plain k2) by (by eapply plain_core).
  destruct (is_prop _ _ _ _ F2 p x3 H3) as [(x2 & H2 & E2)|[R E]].
  - destruct (is_prop _ _ _ _ F1 p x2 H2) as [(x1 & H1 & E1)|[R E]]; [left; exists x1; split; congruence|].
    destruct (core_prop k2 k3 p x2 (is_core _ _ _ _ F2) H2) as (z & Hz & Cz). assert (z = x3) as -> by congruence.
    apply pr_core_inv in Cz as (_ & _ & -> & _). right. split; [done|]. rewrite E2.
    eapply (ref_null_stable (tc (reads k2) s) k2); [by eapply istep_agree|intros t Ht; eapply core_tc; eauto|done].
  - right. split; [|done]. intros t Ht. apply (core_tc k2 k1); [done|auto].
Qed.

(** Prompts below [s] stay calculated. *)
Lemma shown_step x s k k' l :
  plain k → own x s → istep x s k k' →
  (∀ p z, p ∈ l → ks_props k !! p = Some z → ∀ t, t ∈ oexpr_syms (pr_visible z) → tc (reads k) s t) →
  shown k l → shown k' l.
Proof.
  intros P O S R Sh p z Hp Hz Tz.
  destruct (is_prop _ _ _ _ S p z Hz) as [(z0 & H0 & E0)|[_ E]]; [|done].
  destruct (core_prop k k' p z0 (is_core _ _ _ _ S) H0) as (z1 & H1 & Cz). assert (z1 = z) as -> by congruence.
  apply pr_core_inv in Cz as (_ & Et & Ev & _). rewrite E0, Ev. rewrite Et in Tz.
  eapply (ref_null_stable (tc (reads k) s) k); [by eapply istep_agree|eauto|eauto].
Qed.

Lemma own_prop_reads k s y p z t :
  ks_syms k !! s = Some y → p ∈ sy_prop y → ks_props k !! p = Some z → t ∈ oexpr_syms (pr_visible z) → reads k s t.
Proof.
  intros H Hp Hz Ht. exists y. split; [done|]. unfold sym_reads. rewrite !elem_of_app. right. right.
  apply list_elem_of_In, in_concat. exists (prop_reads z). split.
  - apply in_map_iff. exists p. rewrite Hz. split; [done|by apply list_elem_of_In].
  - apply list_elem_of_In. unfold prop_reads. set_solver.
Qed.

Lemma istep_trans x s k1 k2 k3 :
  plain k1 → own x s → istep x s k1 k2 → istep x s k2 k3 → istep x s k1 k3.
Proof.
  intros P O F1 F2. pose proof F1 as [A1 B1 C1 M1 _ D1]. pose proof F2 as [A2 B2 C2 M2 _ D2].
  split; [congruence| | | |by eapply prop_step_trans|auto].
  - intros u Hx V. pose proof (B1 u Hx V) as E. rewrite B2; auto.
    destruct V as (y & H & V). exists y. by rewrite E.
  - intros u V3 N. destruct (decide (valid_in k2 u)) as [V2|N2].
    + destruct (C1 u V2 N) as [Hu Hs]. split; [done|].
      apply (istep_solved x s k2 k3); [by eapply plain_core|done..| |done]. by eapply core_tc.
    + destruct (C2 u V3 N2) as [Hu Hs]. split; [|done]. by eapply core_tc.
  - intros u V3 N. destruct (decide (valid_in k2 u)) as [V2|N2]; [|auto].
    destruct (C1 u V2 N) as [Hu _]. assert (E : ks_syms k3 !! u = ks_syms k2 !! u).
    { apply B2; [|done]. apply (own_ne _ s); [done|]. intros ->. by apply (pl_acyclic k1 P s). }
    destruct (M1 u V2 N) as [Ma Sh]. split; intros y Hy; rewrite E in Hy; [by apply Ma|]. intros T1 T2.
    eapply (shown_step x s k2); [by eapply plain_core|done..| |by apply Sh].
    intros p z Hp Hz t Ht. eapply tc_r; [by eapply core_tc|]. by eapply own_prop_reads.
Qed.

Lemma istep_invalid x s k k' :
  own x s → valid_in k s → istep x s k k' → invalid k' ≤ invalid k.
Proof.
  intros O Vs [A B C _ _ D]. unfold invalid. apply subseteq_size. intros u. rewrite !elem_of_invalid.
  intros (y' & H' & N). destruct (core_sym k' k u y') as (y & H & _); [done..|].
  exists y. split; [done|]. destruct (valid y) eqn:V; [|done]. exfalso.
  assert (Vu : valid_in k u) by (exists y; done).
  assert (Vu' : valid_in k' u).
  { destruct (decide (u = s)) as [->|Hne]; [auto|]. exists y. by rewrite B by eauto using own_ne. }
  destruct Vu' as (? & ? & ?). congruence.
Qed.

Lemma istep_valid x s k k' u : own x s → istep x s k k' → valid_in k u → valid_in k' u.
Proof.
  intros O [_ S _ _ _ V] Vu. destruct (decide (u = s)) as [->|Hne]; [auto|].
  pose proof (S u (own_ne _ _ _ O Hne) Vu) as E. destruct Vu as (y & ? & ?). exists y. by rewrite E.
Qed.

Lemma inside_step n x s k k' : own x s → inside n s k → istep x s k k' → inside n s k'.
Proof.
  intros O [P F V B [Cy Cm]] S. pose proof S as [A1 B1 C1 M1 _ D1]. split.
  - by eapply plain_core.
  - pose proof (istep_invalid x s k k' O V S). lia.
  - auto.
  - intros u Hu Vu. apply (core_tc k' k) in Hu; [|done].
    destruct (decide (valid_in k u)) as [Vk|N]; [|by apply C1].
    eapply istep_solved; eauto.
  - eauto using istep_valid.
Qed.

Lemma done_istep s t k k' : reads k s t → done_by t k k' → istep None s k k'.
Proof.
  intros R [A B C M Q]. split; [done|auto| |done| |].
  - intros u V N. destruct (C u V N) as [Hu Hs]. split; [|done]. by eapply tc_rtc_r; [apply tc_once|].
  - intros p x Hx. destruct (Q p x Hx) as [?|[Hr ?]]; [by left|right]. split; [|done].
    intros u Hu. eapply tc_l; [done|auto].
  - intros (y & H & V). exists y. rewrite B; [done|]. by exists y.
Qed.

Lemma solved_text k t :
  solved k t → ∃ y c c', ks_syms k !! t = Some y ∧ valid y = true ∧ string_value y = VStr c ∧
    sv_val (sy_curr y) = VStr c'.
Proof.
  intros (y & H & V & E). exists y. unfold string_value. unfold equations in E.
  destruct (sy_type y);
    first [ destruct E as (_ & _ & _ & E) | destruct E as (_ & c & E & _) | destruct E as (c & _ & E) ];
    rewrite E; eauto 10.
Qed.

Lemma ref_sym_Some k t y : ks_syms k !! t = Some y → valid y = true → ref_sym k t = Some y.
Proof. intros H V. unfold ref_sym. by rewrite H, V. Qed.

Lemma run_string_value k t y :
  ks_syms k !! t = Some y → sym_get_string_value t k = Done (string_value y, k).
Proof. intros H. unfold sym_get_string_value, mthen. by rewrite (run_get_sym _ _ _ H). Qed.

(** ** The functions under [sym_calc_value], called for [s] *)

Section Body.
Context (n : nat) (s : sid) (calc : sid → K ()).
Context (Hcalc : ∀ t k, reads k s t → inside n s k →
  spec False (calc t) k (λ _ k', done_by t k k' ∧ valid_in k' t)).

Definition isp (x : option sid) {A} (m : K A) (k : kstate) (Q : A → kstate → Prop) : Prop :=
  spec False m k (λ a k', istep x s k k' ∧ Q a k').

Lemma isp_ret x {A} (a : A) k (Q : A → kstate → Prop) : Q a k → isp x (mreturn a) k Q.
Proof. intros H. split; [apply istep_refl|done]. Qed.
Lemma isp_bind x {A B} (m : K A) (f : A → K B) k R Q :
  own x s → inside n s k → isp x m k R →
  (∀ a k1, inside n s k1 → istep x s k k1 → R a k1 → isp x (f a) k1 Q) →
  isp x (mthen m f) k Q.
Proof.
  intros O I Hm Hf. eapply spec_bind; [apply Hm|]. intros a k1 [S1 HR]. simpl in *.
  eapply spec_mono; [by apply Hf; [eapply inside_step|..]|]. intros b k2 [S2 HQ]. simpl in *.
  split; [|done]. eapply istep_trans; eauto using in_plain.
Qed.
Lemma isp_mono x {A} (m : K A) k (R Q : A → kstate → Prop) :
  isp x m k R → (∀ a k', istep x s k k' → R a k' → Q a k') → isp x m k Q.
Proof. intros H HQ. eapply spec_mono; [apply H|]. intros a k' [? ?]. auto. Qed.
Lemma isp_weaken x {A} (m : K A) k Q : isp None m k Q → isp x m k Q.
Proof. intros H. eapply spec_mono; [apply H|]. intros a k' [? ?]. eauto using istep_weaken. Qed.

(** A first part that leaves [s] alone. *)
Lemma isp_bind0 x {A B} (m : K A) (f : A → K B) k R Q :
  own x s → inside n s k → isp None m k R →
  (∀ a k1, inside n s k1 → istep None s k k1 → R a k1 → isp x (f a) k1 Q) →
  isp x (mthen m f) k Q.
Proof.
  intros O I Hm Hf. eapply spec_bind; [apply Hm|]. intros a k1 [S1 HR]. simpl in *.
  eapply spec_mono; [by apply Hf; [eapply inside_step; [by left|..]|..]|]. intros b k2 [S2 HQ]. simpl in *.
  split; [|done]. eapply istep_trans; eauto using in_plain, istep_weaken.
Qed.
Lemma isp_assoc x {A B C} (m : K A) (f : A → K B) (g : B → K C) k Q :
  isp x (mthen (mthen m f) g) k Q → isp x (mthen m (λ a, mthen (f a) g)) k Q.
Proof. unfold isp, spec, mthen. by destruct (m k) as [[a k1]| |]. Qed.
(** A part that only reads. *)
Lemma isp_run x {A B} (m : K A) a (f : A → K B) k Q :
  m k = Done (a, k) → isp x (f a) k Q → isp x (mthen m f) k Q.
Proof. intros H. unfold isp, spec, mthen. by rewrite H. Qed.
Lemma isp_get_sym x {A} t y (f : symbol → K A) k Q :
  ks_syms k !! t = Some y → isp x (f y) k Q → isp x (mthen (get_sym t) f) k Q.
Proof. intros H. unfold isp, spec, mthen, get_sym, mderef. by rewrite H. Qed.
Lemma isp_get_prop x {A} p y (f : property → K A) k Q :
  ks_props k !! p = Some y → isp x (f y) k Q → isp x (mthen (get_prop p) f) k Q.
Proof. intros H. unfold isp, spec, mthen, get_prop, mderef. by rewrite H. Qed.

Lemma isp_calc t k : reads k s t → inside n s k → isp None (calc t) k (λ _ k', valid_in k' t).
Proof.
  intros R I. eapply spec_mono; [by apply Hcalc|]. intros _ k' [D V]. split; [|done].
  by eapply done_istep.
Qed.

Lemma valid_step x t k k' : x ≠ Some t → istep x s k k' → valid_in k t → valid_in k' t.
Proof.
  intros Hx S V. pose proof (is_same _ _ _ _ S t Hx V) as E. destruct V as (y & ? & ?).
  exists y. by rewrite E.
Qed.

Lemma inside_text k t :
  inside n s k → reads k s t → valid_in k t →
  ∃ y c c', ks_syms k !! t = Some y ∧ valid y = true ∧ string_value y = VStr c ∧
    sv_val (sy_curr y) = VStr c'.
Proof. intros I R V. apply solved_text, (in_below n s k); eauto using tc_once. Qed.

(** The two sides of a comparison are calculated and read. *)
Lemma isp_compare l r (f : string → string → tristate) k :
  reads k s l → reads k s r → inside n s k →
  isp None
    (do! calc l in
     do! calc r in
     let! str1 := sym_get_string_value l in
     let! str2 := sym_get_string_value r in
     let! a := deref_str str1 in
     let! b := deref_str str2 in
     mreturn (f a b)) k
    (λ v k', ∃ a b, ref_str k' l = Some a ∧ ref_str k' r = Some b ∧ v = f a b).
Proof.
  intros Hl Hr I. eapply isp_bind; [by left|done|by apply isp_calc|]. intros [] k1 I1 S1 V1.
  pose proof (core_reads _ k1 _ _ (is_core _ _ _ _ S1) Hl) as Hl1.
  pose proof (core_reads _ k1 _ _ (is_core _ _ _ _ S1) Hr) as Hr1.
  eapply isp_bind; [by left|done|by apply isp_calc|]. intros [] k2 I2 S2 V2.
  pose proof (core_reads _ k2 _ _ (is_core _ _ _ _ S2) Hl1) as Hl2.
  pose proof (core_reads _ k2 _ _ (is_core _ _ _ _ S2) Hr1) as Hr2.
  pose proof (valid_step None l k1 k2 ltac:(done) S2 V1) as V1'.
  destruct (inside_text k2 l) as (y1 & c1 & _ & L1 & W1 & T1 & _); [done..|].
  destruct (inside_text k2 r) as (y2 & c2 & _ & L2 & W2 & T2 & _); [done..|].
  eapply isp_run; [by apply run_string_value|]. eapply isp_run; [by apply run_string_value|].
  rewrite T1, T2. apply isp_ret. exists (cs_text c1), (cs_text c2).
  unfold ref_str. rewrite (ref_sym_Some _ _ _ L1 W1), (ref_sym_Some _ _ _ L2 W2), T1, T2. done.
Qed.

(** Two subexpressions, one after the other. *)
Lemma isp_both (l r : expr) (f : tristate → tristate → tristate) (cl cr : K tristate) k :
  (∀ t, t ∈ expr_syms l → reads k s t) → inside n s k →
  isp None cl k (λ v k', ref_expr k' l = Some v) →
  (∀ k1, istep None s k k1 → inside n s k1 → isp None cr k1 (λ v k', ref_expr k' r = Some v)) →
  isp None (let! val1 := cl in let! val2 := cr in mreturn (f val1 val2)) k
    (λ v k', ∃ a b, ref_expr k' l = Some a ∧ ref_expr k' r = Some b ∧ v = f a b).
Proof.
  intros Hl I Cl Cr. eapply isp_bind; [by left|done|done|]. intros a k1 I1 S1 E1.
  eapply isp_bind; [by left|done|by apply Cr|]. intros b k2 I2 S2 E2. apply isp_ret.
  exists a, b. split_and!; [|done..].
  eapply (ref_expr_stable (tc (reads k1) s) k1); [eapply istep_agree; eauto using in_plain; by left| |done].
  intros t Ht. apply tc_once. eapply core_reads; [by eapply is_core|auto].
Qed.

Lemma isp_expr e k :
  (∀ t, t ∈ expr_syms e → reads k s t) → inside n s k →
  isp None (expr_calc calc e) k (λ v k', ref_expr k' e = Some v).
Proof.
  revert k. induction e as [l IHl r IHr|l IHl r IHr|l IHl|a b|a b| |t|]; simpl; intros k Hs I.
  - eapply isp_mono; [eapply (isp_both l r); [set_solver|done|apply IHl; [set_solver|done]|]|].
    + intros k1 S1 I1. apply IHr; [|done]. intros t Ht. eapply core_reads; [by eapply is_core|set_solver].
    + simpl. by intros v k' _ (a & b & -> & -> & ->).
  - eapply isp_mono; [eapply (isp_both l r); [set_solver|done|apply IHl; [set_solver|done]|]|].
    + intros k1 S1 I1. apply IHr; [|done]. intros t Ht. eapply core_reads; [by eapply is_core|set_solver].
    + simpl. by intros v k' _ (a & b & -> & -> & ->).
  - eapply isp_bind; [by left|done|by apply IHl|]. intros v k1 _ _ E. apply isp_ret. by rewrite E.
  - eapply isp_mono; [apply (isp_compare a b (λ a b, if decide (a = b) then Yes else No)); set_solver|].
    simpl. by intros v k' _ (c & d & -> & -> & ->).
  - eapply isp_mono; [apply (isp_compare a b (λ a b, if decide (a = b) then No else Yes)); set_solver|].
    simpl. by intros v k' _ (c & d & -> & -> & ->).
  - split; [|done]. split; try done. by apply prop_step_same.
  - eapply isp_bind; [by left|done|apply isp_calc; set_solver|]. intros [] k1 _ _ (y & H & V).
    unfold sym_get_tristate_value. eapply isp_get_sym; [done|]. apply isp_ret.
    unfold ref_tri. by rewrite (ref_sym_Some _ _ _ H V).
  - split; [|done]. split; try done. by apply prop_step_same.
Qed.

Lemma isp_null e k :
  (∀ t, t ∈ oexpr_syms e → reads k s t) → inside n s k →
  isp None (expr_calc_value calc e) k (λ v k', ref_null k' e = Some v).
Proof. destruct e; simpl; [apply isp_expr|]. intros _ _. by apply isp_ret. Qed.

(** Properties that exist and whose reads are reads of [s]. *)
Definition props_ok (k : kstate) (l : list pid) : Prop :=
  ∀ p, p ∈ l → ∃ x, ks_props k !! p = Some x ∧ ∀ t, t ∈ prop_reads x → reads k s t.

Lemma props_ok_step x k k' l : istep x s k k' → props_ok k l → props_ok k' l.
Proof.
  intros S H p Hp. destruct (H p Hp) as (z & Hz & Hr). pose proof (is_core _ _ _ _ S) as E.
  destruct (core_prop _ _ _ _ E Hz) as (z' & Hz' & (_ & _ & _ & _ & _ & Ez)%pr_core_inv).
  exists z'. split; [done|]. rewrite Ez. intros t Ht. eapply core_reads; eauto.
Qed.
Lemma props_ok_cons k p l : props_ok k (p :: l) → props_ok k l.
Proof. intros H q Hq. apply H. by right. Qed.

Lemma reads_prop k y p x t :
  ks_syms k !! s = Some y → p ∈ sy_prop y → ks_props k !! p = Some x → t ∈ prop_reads x → reads k s t.
Proof.
  intros H Hp Hx Ht. exists y. split; [done|]. unfold sym_reads. rewrite !elem_of_app. right. right.
  apply list_elem_of_In, in_concat. exists (prop_reads x). split; [|by apply list_elem_of_In].
  apply in_map_iff. exists p. rewrite Hx. split; [done|by apply list_elem_of_In].
Qed.

Lemma sym_props_ok k y : plain k → ks_syms k !! s = Some y → props_ok k (sy_prop y).
Proof.
  intros P H p Hp. destruct (pl_props k P s y p H Hp) as (x & Hx & _). exists x. split; [done|].
  intros t Ht. by eapply reads_prop.
Qed.

Lemma istep_upd_prop p z k v :
  plain k → ks_props k !! p = Some z → (∀ t, t ∈ oexpr_syms (pr_visible z) → reads k s t) →
  ref_null k (pr_visible z) = Some v →
  istep None s k (ks_set_props (<[p := pr_set_visible_tri v z]> (ks_props k)) k).
Proof.
  intros P H Hr Hv. pose proof (fr_upd_prop (λ _, True) None p (pr_set_visible_tri v) ltac:(done) k Logic.I) as F.
  unfold spec, upd_prop, mthen, get_prop, mderef in F. rewrite H in F. simpl in F.
  destruct F as [F _]. split; try done. intros q x Hx. simpl in Hx. destruct (decide (q = p)) as [->|N].
  - rewrite lookup_insert_eq in Hx. injection Hx as <-. right. split; [intros t Ht; by apply tc_once, Hr|].
    eapply (ref_null_stable (tc (reads k) s) k); [by apply (agree_step None); [|left|..]| |done].
    intros t Ht. by apply tc_once, Hr.
  - rewrite lookup_insert_ne in Hx by done. left. by exists x.
Qed.

Lemma isp_prop_visible p x k :
  ks_props k !! p = Some x → (∀ t, t ∈ prop_reads x → reads k s t) → inside n s k →
  isp None (calc_prop_visible calc p) k (λ v k', ref_null k' (pr_visible x) = Some v ∧
    ∃ x', ks_props k' !! p = Some x' ∧ pr_visible_tri x' = v).
Proof.
  intros Hx Hr I. unfold calc_prop_visible. eapply isp_get_prop; [done|].
  assert (Hr' : ∀ t, t ∈ oexpr_syms (pr_visible x) → reads k s t).
  { intros t Ht. apply Hr. unfold prop_reads. set_solver. }
  eapply isp_bind; [by left|done|by apply isp_null|]. intros v k1 I1 S1 E1. simpl in E1.
  destruct (core_prop _ k1 _ _ (is_core _ _ _ _ S1) Hx) as (x1 & Hx1 & Ex1).
  assert (Hr1 : ∀ t, t ∈ oexpr_syms (pr_visible x) → reads k1 s t).
  { intros t Ht. eapply core_reads; [by eapply is_core|auto]. }
  eapply (isp_bind None _ _ k1 (λ _ k', ref_null k' (pr_visible x) = Some v ∧
    ∃ x', ks_props k' !! p = Some x' ∧ pr_visible_tri x' = v)); [by left|done| |].
  - unfold isp, spec, upd_prop, mthen, get_prop, mderef. rewrite Hx1. simpl.
    assert (S2 : istep None s k1 (ks_set_props (<[p := pr_set_visible_tri v x1]> (ks_props k1)) k1)).
    { apply pr_core_inv in Ex1 as (_ & _ & Ev & _). apply istep_upd_prop; rewrite ?Ev; eauto using in_plain. }
    split; [done|]. split.
    + eapply (ref_null_stable (tc (reads k1) s) k1); [eapply istep_agree; eauto using in_plain; by left| |done].
      intros t Ht. by apply tc_once, Hr1.
    + eexists. split; [apply lookup_insert_eq|done].
  - intros [] k2 I2 S2 E2. by apply isp_ret.
Qed.

Lemma isp_visible_prop t l k :
  props_ok k l → inside n s k →
  isp None (visible_prop calc t l) k (λ o k', ref_first k' t l = Some o).
Proof.
  revert k. induction l as [|p l IH]; simpl; intros k Hl I; [by apply isp_ret|].
  destruct (Hl p) as (x & Hx & Hr); [by left|]. eapply isp_get_prop; [done|].
  case_decide as Ht; [|eapply isp_mono; [apply IH; eauto using props_ok_cons|]; simpl; intros o k' S E;
    destruct (core_prop _ k' _ _ (is_core _ _ _ _ S) Hx) as (x' & -> & (-> & _)%pr_core_inv);
    by rewrite decide_False].
  eapply isp_bind; [by left|done|by apply isp_prop_visible|]. intros v k1 I1 S1 [E1 _]. simpl in E1.
  destruct (core_prop _ k1 _ _ (is_core _ _ _ _ S1) Hx) as (x1 & Hx1 & Ex1).
  assert (Hr1 : ∀ u, u ∈ oexpr_syms (pr_visible x) → tc (reads k1) s u).
  { intros u Hu. apply tc_once. eapply core_reads; [by eapply is_core|]. apply Hr. unfold prop_reads. set_solver. }
  case_decide as Hv.
  - eapply isp_mono; [apply IH; [|done]; eapply props_ok_step; eauto using props_ok_cons|].
    simpl. intros o k' S E.
    destruct (core_prop _ k' _ _ (is_core _ _ _ _ S) Hx1) as (x' & -> & Ex').
    rewrite Ex1 in Ex'. apply pr_core_inv in Ex' as (-> & _ & -> & _). rewrite decide_True by done.
    rewrite (ref_null_stable _ k1 k' (istep_agree None s k1 k' (in_plain _ _ _ I1) (or_introl eq_refl) S) _ _ Hr1 E1).
    by rewrite decide_True.
  - apply isp_ret. rewrite Hx1. apply pr_core_inv in Ex1 as (-> & _ & -> & _).
    by rewrite decide_True, E1, decide_False.
Qed.

Lemma isp_prompts l tri k :
  props_ok k l → inside n s k →
  isp None (prompts_visible calc l tri) k (λ v k', ref_prompts k' l tri = Some v ∧ shown k' l).
Proof.
  revert tri k. induction l as [|p l IH]; simpl; intros tri k Hl I.
  { apply isp_ret. split; [done|]. by intros p x ?%elem_of_nil. }
  destruct (Hl p) as (x & Hx & Hr); [by left|]. eapply isp_get_prop; [done|].
  destruct (pr_text x) as [txt|] eqn:Ht.
  2: { eapply isp_mono; [apply IH; eauto using props_ok_cons|]. simpl. intros o k' S [E Sh].
    destruct (core_prop _ k' _ _ (is_core _ _ _ _ S) Hx) as (x' & Hx' & (_ & Et & _)%pr_core_inv).
    rewrite Hx', Et, Ht. split; [done|]. intros q z [->|Hq]%elem_of_cons Hz Tz; [|by apply (Sh q)].
    assert (z = x') as -> by congruence. rewrite Et, Ht in Tz. by destruct Tz. }
  eapply isp_bind; [by left|done|by apply isp_prop_visible|]. intros v k1 I1 S1 [E1 (x2 & Hx2 & Ev2)]. simpl in E1.
  destruct (core_prop _ k1 _ _ (is_core _ _ _ _ S1) Hx) as (x1 & Hx1 & Ex1).
  assert (x2 = x1) as -> by congruence.
  assert (Hr1 : ∀ u, u ∈ oexpr_syms (pr_visible x) → tc (reads k1) s u).
  { intros u Hu. apply tc_once. eapply core_reads; [by eapply is_core|]. apply Hr. unfold prop_reads. set_solver. }
  eapply isp_mono; [apply IH; [|done]; eapply props_ok_step; eauto using props_ok_cons|].
  simpl. intros o k' S [E Sh].
  destruct (core_prop _ k' _ _ (is_core _ _ _ _ S) Hx1) as (x' & Hx' & Ex').
  assert (Ex := Ex'). rewrite Ex1 in Ex. apply pr_core_inv in Ex as (_ & Et & Ev & _). rewrite Hx', Et, Ev, Ht.
  erewrite (ref_null_stable _ k1 k' (istep_agree None s k1 k' (in_plain _ _ _ I1) (or_introl eq_refl) S)); [|done..].
  split; [done|]. intros q z [->|Hq]%elem_of_cons Hz Tz; [|by apply (Sh q)].
  apply (shown_step None s k1 k' [p] (in_plain _ _ _ I1) (or_introl eq_refl) S) with p; [| |by left|done..].
  - intros q0 z0 ->%list_elem_of_singleton Hz0. assert (z0 = x1) as -> by congruence.
    apply pr_core_inv in Ex1 as (_ & _ & -> & _). done.
  - intros q0 z0 ->%list_elem_of_singleton Hz0 _. assert (z0 = x1) as -> by congruence. rewrite Ev2.
    apply pr_core_inv in Ex1 as (_ & _ & -> & _). done.
Qed.

(** What the members outside the core may still tell about [s]. *)
Definition same_value (y y' : symbol) : Prop :=
  sy_core y' = sy_core y ∧ sy_curr y' = sy_curr y ∧ sy_visible y' = sy_visible y ∧
  sy_rev_dep_tri y' = sy_rev_dep_tri y.

Lemma same_value_refl y : same_value y y.
Proof. done. Qed.
Lemma same_value_trans y1 y2 y3 : same_value y1 y2 → same_value y2 y3 → same_value y1 y3.
Proof. unfold same_value. intuition congruence. Qed.

(** A step that leaves [s] alone. *)
Lemma istep_own k k' y : inside n s k → istep None s k k' → ks_syms k !! s = Some y → ks_syms k' !! s = Some y.
Proof. intros I S H. rewrite (is_same _ _ _ _ S s); [done..|]. apply (in_valid _ _ _ I). Qed.

Lemma isp_upd_sym f k y :
  inside n s k → ks_syms k !! s = Some y → sy_core (f y) = sy_core y → valid (f y) = valid y →
  isp (Some s) (upd_sym s f) k (λ _ k', ks_syms k' !! s = Some (f y)).
Proof.
  intros I H Hc Hv. pose proof (in_valid _ _ _ I) as (y0 & H0 & V).
  assert (y0 = y) as -> by congruence.
  unfold isp, spec, upd_sym, mthen. rewrite (run_get_sym _ _ _ H). simpl.
  assert (O : ∀ u, valid_in (ks_set_syms (<[s := f y]> (ks_syms k)) k) u → valid_in k u).
  { intros u (y' & H' & V'). simpl in H'. destruct (decide (u = s)) as [->|Hne]; [exists y; done|].
    rewrite lookup_insert_ne in H' by done. by exists y'. }
  split; [|apply lookup_insert_eq]. split; simpl.
  - unfold ks_core, ks_set_syms. simpl. f_equal. rewrite fmap_insert, Hc. apply insert_id.
    by rewrite lookup_fmap, H.
  - intros u Hu _. simpl. rewrite lookup_insert_ne; [done|]. congruence.
  - intros u V' N. by destruct N; apply O.
  - intros u V' N. by destruct N; apply O.
  - by apply prop_step_same.
  - intros _. exists (f y). simpl. rewrite lookup_insert_eq. split; congruence.
Qed.

Lemma isp_iter {A} (f : A → K ()) l k :
  inside n s k →
  (∀ a k1, a ∈ l → inside n s k1 → istep None s k k1 → isp None (f a) k1 (λ _ _, True)) →
  isp None (miter f l) k (λ _ _, True).
Proof.
  revert k. induction l as [|a l IH]; simpl; intros k I Hf; [by apply isp_ret|].
  eapply isp_bind; [by left|done|apply Hf; [by left|done|apply istep_refl]|].
  intros [] k1 I1 S1 _. apply IH; [done|]. intros b k2 Hb I2 S2. apply Hf; [by right|done|].
  eapply istep_trans; eauto using in_plain. by left.
Qed.

Lemma isp_mark_menu p k :
  inside n s k → (∃ y, ks_syms k !! s = Some y ∧ p ∈ sy_prop y) →
  isp None
    (let! x := get_prop p in
     match pr_menu x with
     | Some m => upd_menu m (λ x, mn_set_flags (set_flag (mn_flags x) MENU_CHANGED) x)
     | None => mreturn ()
     end) k (λ _ _, True).
Proof.
  intros I (y & H & Hp). destruct (pl_props _ (in_plain _ _ _ I) s y p H Hp) as (x & Hx & Hm & _).
  eapply isp_get_prop; [done|]. destruct (pr_menu x) as [m|]; [|by apply isp_ret].
  destruct (Hm m eq_refl) as [z Hz].
  pose proof (fr_upd_menu (λ _, True) None m
    (λ x, mn_set_flags (set_flag (mn_flags x) MENU_CHANGED) x) ltac:(done) k Logic.I) as F.
  unfold isp, spec, upd_menu, mthen, get_menu, mderef in F |- *. rewrite Hz in F |- *. simpl in F |- *.
  destruct F as [F _]. split; [|done]. split; try done. by apply prop_step_same.
Qed.

(** [sym_set_changed] of [s] keeps its value. *)
Lemma isp_set_changed k y :
  inside n s k → ks_syms k !! s = Some y →
  isp (Some s) (sym_set_changed s) k (λ _ k', ∃ y', ks_syms k' !! s = Some y' ∧ same_value y y' ∧
    (writes y = true → writes y' = true)).
Proof.
  intros I H. unfold sym_set_changed.
  eapply isp_bind; [by right|done|apply isp_upd_sym; [done|done| |]|].
  - unfold sy_core. simpl. by rewrite clear_set_masked.
  - unfold valid. simpl. by rewrite has_flag_set, orb_false_r.
  - intros [] k1 I1 S1 H1. simpl in H1. eapply isp_get_sym; [done|]. simpl.
    eapply isp_weaken, isp_mono; [apply isp_iter; [done|]|].
    + intros p k2 Hp I2 S2. apply isp_mark_menu; [done|]. eexists. split; [exact (istep_own _ _ _ I1 S2 H1)|done].
    + intros [] k2 S2 _. eexists. split; [exact (istep_own _ _ _ I1 S2 H1)|]. split; [split_and!; [|done..]|].
      * unfold sy_core. simpl. by rewrite clear_set_masked.
      * unfold writes. simpl. intros W. by rewrite has_flag_set, W.
Qed.

Lemma isp_deselected k y :
  inside n s k → ks_syms k !! s = Some y →
  isp None (calc_deselected calc s) k (λ d k', ref_deselected k' y = Some d).
Proof.
  intros I H. unfold calc_deselected, ref_deselected. eapply isp_get_sym; [done|].
  destruct (sy_rev_dep_inv y) as [e|] eqn:Ee; [|by apply isp_ret].
  eapply isp_bind; [by left|done|apply isp_expr; [|done]|].
  - intros t Ht. exists y. split; [done|]. unfold sym_reads. rewrite Ee. simpl. set_solver.
  - intros v k1 I1 S1 E. apply isp_ret. simpl in E. by rewrite E.
Qed.

(** [if (sym->member != v) { sym->member = v; sym_set_changed(sym); }] *)
Lemma isp_assign (Q : Prop) `{Decision Q} f k y :
  inside n s k → ks_syms k !! s = Some y → sy_core (f y) = sy_core y → valid (f y) = valid y →
  (Q → f y = y) →
  isp (Some s) (if decide Q then mreturn () else do! upd_sym s f in sym_set_changed s) k
    (λ _ k', ∃ y', ks_syms k' !! s = Some y' ∧ same_value (f y) y').
Proof.
  intros I Hy Hc Hv HQ. case_decide as D.
  - apply isp_ret. exists y. rewrite HQ by done. by split.
  - eapply isp_bind; [by right|done|by apply isp_upd_sym|]. intros [] k1 I1 S1 H1.
    eapply isp_mono; [by apply isp_set_changed|]. intros [] k' _ (y' & ? & ? & _). eauto.
Qed.

(** Evaluations for [s] do not depend on the members outside the core. *)
Lemma ref_core k y y' :
  sy_core y' = sy_core y →
  ref_visible k y' = ref_visible k y ∧ ref_deselected k y' = ref_deselected k y ∧
  ref_rev k y' = ref_rev k y ∧ ref_default k y' = ref_default k y.
Proof.
  intros (_ & Ht & _ & Hp & Hr & Hi & _)%sy_core_inv.
  unfold ref_visible, ref_rev, ref_default, ref_deselected. by rewrite Ht, Hp, Hr, Hi.
Qed.

(** A symbol record with the core of the one of [s]. *)
Definition is_own (k : kstate) (y : symbol) : Prop :=
  ∃ y0, ks_syms k !! s = Some y0 ∧ sy_core y = sy_core y0.

Lemma own_reads k y t : is_own k y → t ∈ sym_reads k y → tc (reads k) s t.
Proof.
  intros (y0 & H & E) Ht. apply tc_once. exists y0. split; [done|].
  by rewrite <-(core_sym_reads k k y0 y).
Qed.

Section Kept.
Context (x : option sid) (k k' : kstate) (y : symbol).
Context (O : own x s) (I : inside n s k) (S : istep x s k k') (Y : is_own k y).

Let Ag := istep_agree x s k k' (in_plain _ _ _ I) O S.
Let Hy := λ t, own_reads k y t Y.

Lemma kept_visible v : ref_visible k y = Some v → ref_visible k' y = Some v.
Proof. by apply (ref_visible_stable _ _ _ Ag). Qed.
Lemma kept_deselected d : ref_deselected k y = Some d → ref_deselected k' y = Some d.
Proof. by apply (ref_deselected_stable _ _ _ Ag). Qed.
Lemma kept_rev v : ref_rev k y = Some v → ref_rev k' y = Some v.
Proof. by apply (ref_rev_stable _ _ _ Ag). Qed.
Lemma kept_default v : ref_default k y = Some v → ref_default k' y = Some v.
Proof. by apply (ref_default_stable _ _ _ Ag). Qed.
Lemma kept_prompts tri v : ref_prompts k (sy_prop y) tri = Some v → ref_prompts k' (sy_prop y) tri = Some v.
Proof. apply (ref_prompts_stable _ _ _ Ag). by apply (sym_props_in _ k y). Qed.
Lemma kept_plain v : ref_plain k y = Some v → ref_plain k' y = Some v.
Proof. by apply (ref_plain_stable _ _ _ Ag). Qed.
Lemma kept_range t v : ref_range k y t = Some v → ref_range k' y t = Some v.
Proof. by apply (ref_range_stable _ _ _ Ag). Qed.
Lemma kept_shown : shown k (sy_prop y) → shown k' (sy_prop y).
Proof.
  apply (shown_step x s k k' _ (in_plain _ _ _ I) O S). intros p z Hp Hz t Ht.
  pose proof Y as (y0 & H0 & E). apply tc_once, (own_prop_reads k s y0 p z); try done.
  by pose proof (sy_core_inv _ _ E) as (_ & _ & _ & <- & _).
Qed.
Lemma kept_own : is_own k' y.
Proof.
  destruct Y as (y0 & H & E). destruct (core_sym _ _ _ _ (is_core _ _ _ _ S) H) as (y1 & H1 & E1).
  exists y1. split; [done|]. congruence.
Qed.
End Kept.

Lemma plain_not_choice k y : inside n s k → ks_syms k !! s = Some y →
  is_choice y = false ∧ is_choice_value y = false ∧ get_type y = sy_type y.
Proof.
  intros I H. destruct (pl_choice k (in_plain _ _ _ I) s y H) as [? C]. split_and!; [done..|].
  unfold get_type. rewrite C. simpl. by case_decide.
Qed.

(** The second half of [sym_calc_visibility]. *)
Lemma isp_rev_dep k y :
  inside n s k → ks_syms k !! s = Some y →
  isp (Some s)
    (let! tri := match sy_rev_dep y with Some e => expr_calc calc e | None => mreturn No end in
     let! y := get_sym s in
     let tri := if decide (tri = Mod ∧ get_type y = S_BOOLEAN) then Yes else tri in
     if decide (sy_rev_dep_tri y = tri) then mreturn ()
     else do! upd_sym s (sy_set_rev_dep_tri tri) in sym_set_changed s) k
    (λ _ k', ∃ y', ks_syms k' !! s = Some y' ∧ sy_core y' = sy_core y ∧
       sy_visible y' = sy_visible y ∧ ref_rev k' y' = Some (sy_rev_dep_tri y')).
Proof.
  intros I H.
  eapply (isp_bind _ _ _ _ (λ v k', ks_syms k' !! s = Some y ∧ 
    match sy_rev_dep y with Some e => ref_expr k' e | None => Some No end = Some v)); [by right|done| |].
  { destruct (sy_rev_dep y) as [e|] eqn:Ee; [|by apply isp_ret].
    eapply isp_weaken, isp_mono; [apply isp_expr; [|done]|].
    - intros t Ht. exists y. split; [done|]. unfold sym_reads. rewrite Ee. simpl. set_solver.
    - intros v k' S E. simpl in E. split; [by eapply istep_own|done]. }
  intros v k1 I1 S1 [H1 E1]. eapply isp_get_sym; [done|].
  destruct (plain_not_choice k1 y I1 H1) as (_ & _ & ->).
  set (tri := if decide (v = Mod ∧ sy_type y = S_BOOLEAN) then Yes else v).
  assert (E2 : ref_rev k1 y = Some tri) by (unfold ref_rev; by rewrite E1).
  eapply isp_mono; [apply (isp_assign _ (sy_set_rev_dep_tri tri)); [done|done|done|done|]|].
  - intros <-. by destruct y.
  - intros [] k' S' (y' & H' & (C & _ & V & R)). exists y'. split_and!; [done|by rewrite C|by rewrite V|].
    destruct (ref_core k' y y') as (_ & _ & -> & _); [by rewrite C|]. rewrite R. simpl.
    eapply (kept_rev (Some s) k1); [by right|done..| |done]. by exists y.
Qed.

Lemma isp_visibility k y :
  inside n s k → ks_syms k !! s = Some y →
  isp (Some s) (sym_calc_visibility calc s) k
    (λ _ k', ∃ y', ks_syms k' !! s = Some y' ∧ sy_core y' = sy_core y ∧
       shown k' (sy_prop y') ∧ ref_visible k' y' = Some (sy_visible y') ∧
       (ref_deselected k' y' = Some false → ref_rev k' y' = Some (sy_rev_dep_tri y'))).
Proof.
  intros I H. unfold sym_calc_visibility. eapply isp_get_sym; [done|].
  eapply isp_bind0; [by right|done|apply isp_prompts; eauto using sym_props_ok, in_plain|].
  intros v k1 I1 S1 [E1 Sh1]. simpl in E1. pose proof (istep_own _ _ _ I S1 H) as H1.
  eapply isp_get_sym; [done|]. eapply isp_bind0; [by right|done|by apply isp_deselected|].
  intros d k2 I2 S2 E2. simpl in E2. pose proof (istep_own _ _ _ I1 S2 H1) as H2.
  eapply isp_get_sym; [done|].
  set (tri := if d then No else if decide (v = Mod ∧ sy_type y ≠ S_TRISTATE) then Yes else v).
  assert (E3 : ref_visible k2 y = Some tri).
  { unfold ref_visible. rewrite (kept_prompts None k1 k2 y) with (v := v); try done; [by rewrite E2|by left|by exists y]. }
  eapply isp_bind; [by right|done|apply (isp_assign _ (sy_set_visible tri)); [done|done|done|done|]|].
  { intros <-. by destruct y. }
  intros [] k3 I3 S3 (y3 & H3 & (C3 & _ & V3 & _)). simpl in V3, C3.
  assert (C3' : sy_core y3 = sy_core y) by (by rewrite C3).
  assert (Y : is_own k2 y) by (by exists y).
  assert (Sh3 : shown k3 (sy_prop y3)).
  { pose proof (sy_core_inv _ _ C3') as (_ & _ & _ & -> & _).
    apply (kept_shown (Some s) k2 k3 y (or_intror eq_refl) I2 S3 Y).
    apply (kept_shown None k1 k2 y (or_introl eq_refl) I1 S2); [by exists y|done]. }
  pose proof (kept_visible _ k2 k3 y (or_intror eq_refl) I2 S3 Y _ E3) as E3'.
  pose proof (kept_deselected _ k2 k3 y (or_intror eq_refl) I2 S3 Y _ E2) as E2'.
  destruct (ref_core k3 y y3 C3') as (R1 & R2 & _ & _).
  eapply isp_get_sym; [done|]. destruct (plain_not_choice k3 y3 I3 H3) as (_ & -> & _). simpl.
  destruct d.
  - apply isp_ret. exists y3. split_and!; [done..| |]; [by rewrite R1, V3|]. rewrite R2, E2'. done.
  - eapply isp_mono; [by apply isp_rev_dep|]. intros [] k4 S4 (y4 & H4 & C4 & V4 & E4).
    exists y4. split_and!; [done|congruence| | |done].
    { pose proof (sy_core_inv _ _ C4) as (_ & _ & _ & -> & _).
      apply (kept_shown (Some s) k3 k4 y3 (or_intror eq_refl) I3 S4); [by exists y3|done]. }
    destruct (ref_core k4 y3 y4 C4) as (-> & _). rewrite V4.
    eapply (kept_visible _ k3 k4 y3); [by right|done..|by exists y3|]. by rewrite R1, V3.
Qed.

Lemma isp_or_write k y :
  inside n s k → ks_syms k !! s = Some y →
  isp (Some s) (or_flags s SYMBOL_WRITE) k
    (λ _ k', ∃ y', ks_syms k' !! s = Some y' ∧ same_value y y' ∧ writes y' = true).
Proof.
  intros I H. assert (C : sy_core (sy_set_flags (set_flag (sy_flags y) SYMBOL_WRITE) y) = sy_core y).
  { unfold sy_core. simpl. by rewrite clear_set_masked. }
  eapply isp_mono; [apply isp_upd_sym; [done|done|done|]|].
  - unfold valid. simpl. by rewrite has_flag_set, orb_false_r.
  - intros [] k1 S1 H1. simpl in H1. eexists. split; [done|]. split; [by split_and!|].
    unfold writes. simpl. rewrite has_flag_set. by apply orb_true_r.
Qed.

(** The search for a visible default or range. *)
Lemma isp_first t k y :
  inside n s k → ks_syms k !! s = Some y →
  isp None (let! y := get_sym s in visible_prop calc t (sy_prop y)) k
    (λ o k', ref_first k' t (sy_prop y) = Some o).
Proof.
  intros I H. eapply isp_get_sym; [done|]. apply isp_visible_prop; eauto using sym_props_ok, in_plain.
Qed.

Lemma isp_prop_value k y p x :
  inside n s k → ks_syms k !! s = Some y → p ∈ sy_prop y → ks_props k !! p = Some x →
  pr_type x = P_DEFAULT →
  isp None (prop_value calc p) k (λ v k', ref_null k' (pr_expr x) = Some v).
Proof.
  intros I H Hp Hx Ht. unfold prop_value. eapply isp_get_prop; [done|]. apply isp_null; [|done].
  intros t Hin. eapply reads_prop; eauto. unfold prop_reads. rewrite Ht. set_solver.
Qed.

Lemma kept_first x k k' y t o :
  own x s → inside n s k → istep x s k k' → is_own k y →
  ref_first k t (sy_prop y) = Some o → ref_first k' t (sy_prop y) = Some o.
Proof.
  intros O I S Y. apply (ref_first_stable _ _ _ (istep_agree x s k k' (in_plain _ _ _ I) O S)).
  apply (sym_props_in _ k y). intros u. by apply own_reads.
Qed.

(** The value of the first visible default, with marking [s] in between or not. *)
Lemma isp_default_from x o (mark : K ()) k y :
  own x s → inside n s k → ks_syms k !! s = Some y → ref_first k P_DEFAULT (sy_prop y) = Some o →
  isp x mark k (λ _ k', ∃ y', ks_syms k' !! s = Some y' ∧ same_value y y') →
  isp x (match o with None => mreturn No | Some p => do! mark in prop_value calc p end) k
    (λ v k', ref_default k' y = Some v ∧ ∃ y', ks_syms k' !! s = Some y' ∧ same_value y y').
Proof.
  intros O I H F Hm. unfold ref_default. destruct o as [p|].
  - destruct (ref_first_In _ _ _ _ F) as (Hp & z & Hz & Ht).
    eapply isp_bind; [done|done|done|]. intros [] k1 I1 S1 (y1 & H1 & V1).
    destruct (core_prop _ k1 _ _ (is_core _ _ _ _ S1) Hz) as (z1 & Hz1 & Cz).
    pose proof (kept_first _ k k1 y _ _ O I S1 (ex_intro _ y (conj H eq_refl)) F) as F1.
    pose proof V1 as (C1 & _). apply sy_core_inv in C1 as (_ & _ & _ & Ep & _).
    eapply isp_weaken, isp_mono; [apply (isp_prop_value k1 y1 p z1); [done..| |done|]|].
    + by rewrite Ep.
    + apply pr_core_inv in Cz as (-> & _). done.
    + intros v k2 S2 E2. simpl in E2. split; [|exists y1; split; [by eapply istep_own|done]].
      rewrite <-Ep in F1 |- *.
      rewrite (kept_first None k1 k2 y1 _ _ (or_introl eq_refl) I1 S2 (ex_intro _ y1 (conj H1 eq_refl)) F1).
      destruct (core_prop _ k2 _ _ (is_core _ _ _ _ S2) Hz1) as (z2 & -> & (_ & _ & _ & -> & _)%pr_core_inv).
      done.
  - apply isp_ret. rewrite F. split; [done|]. exists y. by split.
Qed.

Lemma isp_default k y :
  inside n s k → ks_syms k !! s = Some y →
  isp None (let! prop := sym_get_default_prop calc s in
            match prop with None => mreturn No | Some p => prop_value calc p end) k
    (λ v k', ref_default k' y = Some v).
Proof.
  intros I H. eapply isp_bind; [by left|done|by apply (isp_first P_DEFAULT)|].
  intros o k1 I1 S1 F. simpl in F. pose proof (istep_own _ _ _ I S1 H) as H1.
  eapply isp_mono; [apply (isp_default_from None o (mreturn ()) k1 y); [by left|done..|]|].
  - apply isp_ret. exists y. by split.
  - by intros v k' S' [? _].
Qed.

Lemma ref_bounds k y y' :
  sy_core y' = sy_core y → sy_visible y' = sy_visible y → sy_rev_dep_tri y' = sy_rev_dep_tri y →
  ref_logic k y' = ref_logic k y ∧ ref_plain k y' = ref_plain k y ∧
    ∀ t, ref_range k y' t = ref_range k y t.
Proof.
  intros C V R. pose proof (ref_core k y y' C) as (_ & D & _ & Df).
  apply sy_core_inv in C as (_ & T & U & Pr & _ & _ & Hv & _).
  unfold ref_logic, ref_plain, ref_range. by rewrite D, Df, V, R, T, U, Pr, Hv.
Qed.
Lemma ref_same k y y' :
  same_value y y' → ref_logic k y' = ref_logic k y ∧ ref_plain k y' = ref_plain k y ∧
    ∀ t, ref_range k y' t = ref_range k y t.
Proof. intros (C & _ & V & R). by apply ref_bounds. Qed.

Lemma ref_logic_eq k y d tri :
  ref_deselected k y = Some d →
  (if d then Some No
   else if decide (tri_or (sy_visible y) (sy_rev_dep_tri y) = No) then ref_default k y
   else let? base := if has_value y then Some (sv_tri (sy_user y)) else ref_default k y in
        Some (tri_or (tri_and base (sy_visible y)) (sy_rev_dep_tri y))) = Some tri →
  ref_logic k y = Some (if decide (tri = Mod ∧ sy_type y = S_BOOLEAN) then Yes else tri).
Proof. intros D E. unfold ref_logic. by rewrite D, E. Qed.

(** The last branch of [calc_logic]: visible or selected. *)
Lemma isp_bounded k y :
  inside n s k → ks_syms k !! s = Some y →
  isp (Some s)
    (do! or_flags s SYMBOL_WRITE in
     let! tri :=
       if has_value y then mreturn (sv_tri (sy_user y))
       else if is_choice y then mreturn No
       else
         let! prop := sym_get_default_prop calc s in
         match prop with None => mreturn No | Some p => prop_value calc p end in
     let! y := get_sym s in
     mreturn (tri_or (tri_and tri (sy_visible y)) (sy_rev_dep_tri y))) k
    (λ v k', (∃ y', ks_syms k' !! s = Some y' ∧ same_value y y' ∧ writes y' = true) ∧
       (let? base := if has_value y then Some (sv_tri (sy_user y)) else ref_default k' y in
        Some (tri_or (tri_and base (sy_visible y)) (sy_rev_dep_tri y))) = Some v).
Proof.
  intros I H. eapply isp_bind; [by right|done|by apply isp_or_write|].
  intros [] k1 I1 S1 (y1 & H1 & V1 & W1). destruct (plain_not_choice k y I H) as (-> & _).
  eapply (isp_bind0 _ _ _ _ (λ b k', (if has_value y then Some (sv_tri (sy_user y)) else ref_default k' y) = Some b));
    [by right|done| |].
  - destruct (has_value y); [by apply isp_ret|].
    eapply isp_mono; [by apply (isp_default k1 y1)|]. intros v k2 _ E2. simpl in E2.
    destruct V1 as (C & _). by destruct (ref_core k2 y y1 C) as (_ & _ & _ & <-).
  - intros b k2 I2 S2 E2. pose proof (istep_own _ _ _ I1 S2 H1) as H2.
    eapply isp_get_sym; [done|]. apply isp_ret. split; [by exists y1|].
    rewrite E2. by destruct V1 as (_ & _ & -> & ->).
Qed.

Lemma isp_logic k y :
  inside n s k → ks_syms k !! s = Some y →
  isp (Some s) (calc_logic calc s) k
    (λ v k', ∃ y', ks_syms k' !! s = Some y' ∧ same_value y y' ∧ ref_logic k' y' = Some v ∧
       (ref_deselected k' y' = Some false → sy_visible y' ≠ No → writes y' = true)).
Proof.
  intros I H. unfold calc_logic. eapply isp_get_sym; [done|].
  destruct (plain_not_choice k y I H) as (_ & -> & _). simpl.
  eapply (isp_bind _ _ _ _ (λ tri k', ∃ y', ks_syms k' !! s = Some y' ∧ same_value y y' ∧
    ref_logic k' y' = Some (if decide (tri = Mod ∧ sy_type y = S_BOOLEAN) then Yes else tri) ∧
    (ref_deselected k' y' = Some false → sy_visible y' ≠ No → writes y' = true)));
    [by right|done| |].
  - eapply isp_bind0; [by right|done|by apply isp_deselected|]. intros d k1 I1 S1 D1. simpl in D1.
    pose proof (istep_own _ _ _ I S1 H) as H1. destruct d.
    { apply isp_ret. exists y. split_and!; [done..|by eapply ref_logic_eq|congruence]. }
    eapply isp_get_sym; [done|]. case_decide as Hor.
    + destruct (plain_not_choice k1 y I1 H1) as (-> & _).
      eapply isp_bind0; [by right|done|by apply (isp_first P_DEFAULT)|].
      intros o k2 I2 S2 F. simpl in F. pose proof (istep_own _ _ _ I1 S2 H1) as H2.
      pose proof (kept_deselected None k1 k2 y (or_introl eq_refl) I1 S2 (ex_intro _ y (conj H1 eq_refl)) _ D1) as D2.
      eapply isp_mono; [apply (isp_default_from (Some s) o (or_flags s SYMBOL_WRITE) k2 y);
        [by right|done..|]|].
      { eapply isp_mono; [by apply isp_or_write|]. intros [] k' _ (y' & ? & ? & _). eauto. }
      intros v k3 S3 (E3 & y3 & H3 & V3). exists y3. split_and!; [done..| |].
      { destruct (ref_same k3 y y3 V3) as (-> & _). eapply ref_logic_eq.
        * eapply (kept_deselected (Some s) k2 k3 y (or_intror eq_refl)); eauto. by exists y.
        * by rewrite decide_True. }
      intros _ []. destruct V3 as (_ & _ & -> & _). by destruct (sy_visible y), (sy_rev_dep_tri y).
    + eapply isp_mono; [by apply isp_bounded|]. intros v k3 S3 ((y3 & H3 & V3 & W3) & E3).
      exists y3. split_and!; [done..| |done]. destruct (ref_same k3 y y3 V3) as (-> & _).
      eapply ref_logic_eq; [eapply (kept_deselected (Some s) k1 k3 y (or_intror eq_refl)); eauto; by exists y|].
      by rewrite decide_False.
  - intros tri k1 I1 S1 (y1 & H1 & V1 & E1 & W1). eapply isp_get_sym; [done|].
    destruct (plain_not_choice k1 y1 I1 H1) as (_ & _ & ->).
    destruct V1 as (C & V1). pose proof (sy_core_inv _ _ C) as (_ & -> & _).
    apply isp_ret. exists y1. by split_and!.
Qed.

(** The string taken from the first visible default. *)
Lemma isp_default_string o k y :
  inside n s k → ks_syms k !! s = Some y → ref_first k P_DEFAULT (sy_prop y) = Some o →
  isp (Some s)
    (match o with
     | None => mreturn (sv_val empty_curr)
     | Some p =>
         let! ds := prop_get_symbol p in
         match ds with
         | None => mreturn (sv_val empty_curr)
         | Some ds =>
             do! or_flags s SYMBOL_WRITE in
             do! calc ds in
             let! dy := get_sym ds in
             mreturn (sv_val (sy_curr dy))
         end
     end) k
    (λ v k', ∃ y' c, ks_syms k' !! s = Some y' ∧ same_value y y' ∧ v = VStr c ∧
       (writes y = true → writes y' = true) ∧
       match o with
       | None => Some EmptyString
       | Some p =>
           let? x := ks_props k' !! p in
           match pr_expr x with Some (Esymbol ds) => ref_text k' ds | _ => Some EmptyString end
       end = Some (cs_text c)).
Proof.
  intros I H F. destruct o as [p|]; [|apply isp_ret; by exists y, lit_empty].
  destruct (ref_first_In _ _ _ _ F) as (Hp & x & Hx & Ht).
  destruct (pl_props _ (in_plain _ _ _ I) s y p H Hp) as (x0 & Hx0 & _ & _ & Hd).
  assert (x0 = x) as -> by congruence. specialize (Hd Ht).
  assert (G : prop_get_symbol p k = Done (match pr_expr x with Some (Esymbol ds) => Some ds | _ => None end, k)).
  { unfold prop_get_symbol, mthen, get_prop. rewrite Hx. simpl.
    destruct (pr_expr x) as [[| | | | |[l|] u| |]|]; try done. exfalso. by eapply Hd. }
  eapply isp_run; [exact G|].
  destruct (pr_expr x) as [e|] eqn:Ee; [|apply isp_ret; exists y, lit_empty; by rewrite Hx, Ee].
  destruct e as [| | | | | |ds|]; try (apply isp_ret; exists y, lit_empty; by rewrite Hx, Ee).
  eapply isp_bind; [by right|done|by apply isp_or_write|]. intros [] k1 I1 S1 (y1 & H1 & V1 & W1).
  assert (Hr : reads k1 s ds).
  { eapply core_reads; [by eapply is_core|]. eapply reads_prop; eauto. unfold prop_reads.
    rewrite Ht, Ee. simpl. set_solver. }
  eapply isp_bind0; [by right|done|by apply isp_calc|]. intros [] k2 I2 S2 V2. simpl in V2.
  assert (Hr2 : reads k2 s ds) by (eapply core_reads; [by eapply is_core|done]).
  destruct (inside_text k2 ds I2 Hr2 V2) as (dy & _ & c & Hd2 & Vd & _ & Tc).
  eapply isp_get_sym; [done|]. apply isp_ret. exists y1, c.
  split_and!; [exact (istep_own _ _ _ I1 S2 H1)|done..|].
  pose proof (is_core _ _ _ _ S1) as C1. pose proof (is_core _ _ _ _ S2) as C2.
  destruct (core_prop _ k2 _ _ (eq_trans C2 C1) Hx) as (x2 & -> & (_ & _ & _ & -> & _)%pr_core_inv).
  rewrite Ee. unfold ref_text. by rewrite (ref_sym_Some _ _ _ Hd2 Vd), Tc.
Qed.

Lemma isp_string k y :
  inside n s k → ks_syms k !! s = Some y →
  sy_type y = S_STRING ∨ sy_type y = S_INT ∨ sy_type y = S_HEX →
  isp (Some s) (calc_string calc s) k
    (λ v k', ∃ y' c, ks_syms k' !! s = Some y' ∧ same_value y y' ∧ v = VStr c ∧
       (sy_visible y ≠ No → writes y' = true) ∧ ref_plain k' y' = Some (cs_text c)).
Proof.
  intros I H Ht. unfold calc_string. eapply isp_get_sym; [done|].
  eapply (isp_bind _ _ _ _ (λ _ k', ∃ y', ks_syms k' !! s = Some y' ∧ same_value y y' ∧
    (sy_visible y ≠ No → writes y' = true))); [by right|done| |].
  { unfold mwhen. case_bool_decide; [|apply isp_ret; by exists y].
    eapply isp_mono; [by apply isp_or_write|]. intros [] k' _ (y' & ? & ? & ?). eauto. }
  intros [] k1 I1 S1 (y1 & H1 & V1 & W1).
  assert (E : ∀ k, ref_plain k y1 = ref_plain k y) by (intros k0; by apply ref_same).
  destruct (bool_decide (sy_visible y ≠ No) && has_value y) eqn:B.
  - apply isp_ret. pose proof (andb_prop _ _ B) as [_ Hv].
    destruct (pl_user _ (in_plain _ _ _ I) s y H Ht Hv) as [c Hc].
    exists y1, c. split_and!; [done..|]. rewrite E. unfold ref_plain. by rewrite B, Hc.
  - eapply isp_bind0; [by right|done|by apply (isp_first P_DEFAULT k1 y1)|].
    intros o k2 I2 S2 F. simpl in F. pose proof (istep_own _ _ _ I1 S2 H1) as H2.
    eapply isp_mono; [by apply (isp_default_string o k2 y1)|].
    intros v k3 S3 (y3 & c & H3 & V3 & -> & W3 & E3). exists y3, c.
    split_and!; [done|by eapply same_value_trans|done|auto|].
    destruct (ref_same k3 y1 y3 V3) as (_ & -> & _). rewrite E. unfold ref_plain. rewrite B.
    destruct V1 as (C1 & _). apply sy_core_inv in C1 as (_ & _ & _ & Ep & _). rewrite <-Ep.
    by rewrite (kept_first _ k2 k3 y1 _ _ (or_intror eq_refl) I2 S3 (ex_intro _ y1 (conj H2 eq_refl)) F).
Qed.

Lemma isp_range_val t base k :
  reads k s t → inside n s k →
  isp None (sym_get_range_val calc t base) k (λ v k', ref_bound k' t base = Some v).
Proof.
  intros R I. unfold sym_get_range_val. eapply isp_bind; [by left|done|by apply isp_calc|].
  intros [] k1 I1 S1 V1. simpl in V1.
  assert (R1 : reads k1 s t) by (eapply core_reads; [by eapply is_core|done]).
  destruct (inside_text k1 t I1 R1 V1) as (y & _ & c & H & V & _ & T).
  eapply isp_get_sym; [done|]. rewrite T. apply isp_ret.
  unfold ref_bound. by rewrite (ref_sym_Some _ _ _ H V), T.
Qed.

(** Both bounds, the second only if the first holds: the bound that is broken. *)
Lemma isp_bounds l r base val k :
  reads k s l → reads k s r → inside n s k →
  isp None
    (let! val2 := sym_get_range_val calc l base in
     if (val2 <=? val)%Z then
       let! val2 := sym_get_range_val calc r base in
       mreturn (if (val <=? val2)%Z then None else Some val2)
     else mreturn (Some val2)) k
    (λ o k', ∃ lo, ref_bound k' l base = Some lo ∧
       if (lo <=? val)%Z then ∃ hi, ref_bound k' r base = Some hi ∧
         o = if (val <=? hi)%Z then None else Some hi
       else o = Some lo).
Proof.
  intros Rl Rr I. eapply isp_bind; [by left|done|by apply isp_range_val|].
  intros lo k1 I1 S1 E1. simpl in E1.
  pose proof (core_reads _ k1 _ _ (is_core _ _ _ _ S1) Rl) as Rl1.
  pose proof (core_reads _ k1 _ _ (is_core _ _ _ _ S1) Rr) as Rr1.
  destruct (lo <=? val)%Z eqn:B; [|apply isp_ret; exists lo; by rewrite E1, B].
  eapply isp_bind; [by left|done|by apply isp_range_val|].
  intros hi k2 I2 S2 E2. simpl in E2. apply isp_ret. exists lo. rewrite B. split; [|by exists hi].
  eapply (ref_bound_stable (tc (reads k1) s) k1); [eapply istep_agree; eauto using in_plain; by left| |done].
  by apply tc_once.
Qed.

(** [s] holds the text [t], and nothing else of it has changed since [y]. *)
Definition holds (k : kstate) (y : symbol) (t : string) : Prop :=
  ∃ y' c, ks_syms k !! s = Some y' ∧ sy_core y' = sy_core y ∧ sy_visible y' = sy_visible y ∧
    sy_rev_dep_tri y' = sy_rev_dep_tri y ∧ sy_curr y' = SValue (VStr c) No ∧ cs_text c = t ∧
    (writes y = true → writes y' = true).

Lemma isp_store_text y c text k :
  inside n s k → ks_syms k !! s = Some y → sy_curr y = SValue (VStr c) No →
  isp (Some s)
    (let! c := strdup text in
     upd_sym s (λ y, sy_set_curr (sv_set_val (VStr c) (sy_curr y)) y)) k
    (λ _ k', holds k' y text).
Proof.
  intros I H Hc.
  eapply (isp_bind0 _ _ _ _ (λ c k', cs_text c = text ∧ ks_syms k' !! s = Some y)); [by right|done| |].
  { split; [|done]. split; try done. by apply prop_step_same. }
  intros c1 k1 I1 S1 [E1 H1]. eapply isp_mono; [by apply isp_upd_sym|].
  intros [] k2 S2 H2. simpl in H2. eexists _, c1. split_and!; [done..| |done|done]. by rewrite Hc.
Qed.

Lemma isp_validate k y c :
  inside n s k → ks_syms k !! s = Some y → sy_curr y = SValue (VStr c) No →
  isp (Some s) (sym_validate_range calc s) k
    (λ _ k', ∃ t, ref_range k' y (cs_text c) = Some t ∧ holds k' y t).
Proof.
  intros I H Hc. unfold sym_validate_range. eapply isp_get_sym; [done|].
  assert (Hh : ∀ k', ks_syms k' !! s = Some y → holds k' y (cs_text c)).
  { intros k' H'. exists y, c. done. }
  destruct (match sy_type y with S_INT => Some 10%Z | S_HEX => Some 16%Z | _ => None end) as [base|] eqn:Hb;
    [|apply isp_ret; exists (cs_text c); unfold ref_range; rewrite Hb; auto].
  eapply isp_bind0; [by right|done|by apply (isp_first P_RANGE k y)|].
  intros o k1 I1 S1 F. simpl in F. pose proof (istep_own _ _ _ I S1 H) as H1.
  destruct o as [p|]; [|apply isp_ret; exists (cs_text c); unfold ref_range; rewrite Hb, F; auto].
  destruct (ref_first_In _ _ _ _ F) as (Hp & x & Hx & Ht).
  destruct (pl_props _ (in_plain _ _ _ I1) s y p H1 Hp) as (x0 & Hx0 & _ & Hr & _).
  assert (x0 = x) as -> by congruence. destruct (Hr Ht) as (l & r & Ee).
  eapply isp_get_sym; [done|]. rewrite Hc.
  assert (G : range_syms p k1 = Done ((l, r), k1)).
  { unfold range_syms, mthen, get_prop. rewrite Hx. simpl. by rewrite Ee. }
  assert (Rd : ∀ t, t ∈ [l; r] → reads k1 s t).
  { intros t Hin. eapply reads_prop; eauto. unfold prop_reads. rewrite Ht, Ee. apply elem_of_app. by right. }
  eapply isp_run; [reflexivity|]. eapply isp_run; [exact G|]. apply isp_assoc.
  eapply isp_bind0; [by right|done|apply (isp_bounds l r base); [apply Rd; left|apply Rd; right; left|done]|].
  intros o k2 I2 S2 (lo & Elo & Eo). pose proof (istep_own _ _ _ I1 S2 H1) as H2.
  pose proof (kept_first None k1 k2 y _ _ (or_introl eq_refl) I1 S2 (ex_intro _ y (conj H1 eq_refl)) F) as F2.
  pose (print v := match sy_type y with S_INT => print_d v | _ => "0x" +:+ print_x v end).
  assert (E2 : ref_range k2 y (cs_text c) = Some (match o with Some v => print v | None => cs_text c end)).
  { unfold ref_range. rewrite Hb, F2.
    destruct (core_prop _ k2 _ _ (is_core _ _ _ _ S2) Hx) as (x2 & -> & (_ & _ & _ & -> & _)%pr_core_inv).
    rewrite Ee, Elo. destruct (lo <=? _)%Z; [|by rewrite Eo].
    destruct Eo as (hi & -> & ->). by destruct (_ <=? hi)%Z. }
  destruct o as [v|].
  - eapply isp_get_sym; [done|]. eapply isp_mono; [by apply (isp_store_text y c (print v) k2)|].
    intros [] k3 S3 Hd. exists (print v). split; [|done].
    eapply (kept_range (Some s) k2 k3 y); [by right|done..|by exists y|done].
  - apply isp_ret. exists (cs_text c). auto.
Qed.

(** The end of [calc_symbol]: change marks and [modules_val]. *)
Lemma isp_finish oldval k y :
  inside n s k → ks_syms k !! s = Some y →
  isp (Some s)
    (let! y := get_sym s in
     do! mwhen (bool_decide (oldval ≠ sy_curr y)) (sym_set_changed s) in
     let! modules_sym := mgets ks_modules_sym in
     do! mwhen (bool_decide (modules_sym = Some s))
           (let! y := get_sym s in mmodify (ks_set_modules_val (sv_tri (sy_curr y)))) in
     let! y := get_sym s in
     mwhen (is_choice y) (mark_choice_values s)) k
    (λ _ k', ∃ y', ks_syms k' !! s = Some y' ∧ same_value y y' ∧ (writes y = true → writes y' = true)).
Proof.
  intros I H. eapply isp_get_sym; [done|].
  eapply (isp_bind _ _ _ _ (λ _ k', ∃ y', ks_syms k' !! s = Some y' ∧ same_value y y' ∧
    (writes y = true → writes y' = true))); [by right|done| |].
  { unfold mwhen. case_bool_decide; [by apply isp_set_changed|]. apply isp_ret. by exists y. }
  intros [] k1 I1 S1 (y1 & H1 & V1). eapply isp_run; [reflexivity|].
  eapply (isp_bind0 _ _ _ _ (λ _ _, True)); [by right|done| |].
  { unfold mwhen. case_bool_decide; [|by apply isp_ret]. eapply isp_get_sym; [done|].
    split; [|done]. split; try done. by apply prop_step_same. }
  intros [] k2 I2 S2 _. pose proof (istep_own _ _ _ I1 S2 H1) as H2. eapply isp_get_sym; [done|].
  destruct (plain_not_choice k2 y1 I2 H2) as (-> & _). apply isp_ret. eauto.
Qed.

(** The start of [calc_symbol]: visibility, and the value a recursive call sees. *)
Lemma isp_start newval k y :
  inside n s k → ks_syms k !! s = Some y →
  isp (Some s)
    (do! mwhen (negb (is_choice_value y)) (clear_flags s SYMBOL_WRITE) in
     do! sym_calc_visibility calc s in
     upd_sym s (sy_set_curr newval)) k
    (λ _ k', ∃ y', ks_syms k' !! s = Some y' ∧ sy_core y' = sy_core y ∧ sy_curr y' = newval ∧
       shown k' (sy_prop y') ∧ ref_visible k' y' = Some (sy_visible y') ∧
       (ref_deselected k' y' = Some false → ref_rev k' y' = Some (sy_rev_dep_tri y'))).
Proof.
  intros I H. destruct (plain_not_choice k y I H) as (_ & -> & _). simpl.
  assert (C : sy_core (sy_set_flags (clear_flag (sy_flags y) SYMBOL_WRITE) y) = sy_core y).
  { unfold sy_core. simpl. by rewrite clear_clear_masked. }
  eapply isp_bind; [by right|done|apply isp_upd_sym; [done|done|exact C|]|].
  { unfold valid. simpl. by rewrite has_flag_clear. }
  intros [] k1 I1 S1 H1. simpl in H1.
  eapply isp_bind; [by right|done|by apply isp_visibility|].
  intros [] k2 I2 S2 (y2 & H2 & C2 & Sh2 & V2 & R2).
  eapply isp_mono; [by apply isp_upd_sym|]. intros [] k3 S3 H3. simpl in H3.
  exists (sy_set_curr newval y2). split_and!; [done|exact (eq_trans C2 C)| done| | |].
  - apply (kept_shown (Some s) k2 k3 y2 (or_intror eq_refl) I2 S3); [by exists y2|done].
  - destruct (ref_core k3 y2 (sy_set_curr newval y2)) as (-> & _); [done|].
    eapply (kept_visible (Some s) k2 k3 y2); [by right|done..|by exists y2|done].
  - destruct (ref_core k3 y2 (sy_set_curr newval y2)) as (_ & -> & -> & _); [done|]. simpl. intros D.
    eapply (kept_rev (Some s) k2 k3 y2); [by right|done..|by exists y2|]. apply R2.
    unfold ref_visible in V2. opt_step V2. opt_step V2.
    rewrite (kept_deselected (Some s) k2 k3 y2 (or_intror eq_refl) I2 S3 (ex_intro _ y2 (conj H2 eq_refl)) _ E0) in D.
    done.
Qed.

Lemma isp_start_then {A} newval (f : K A) k y Q :
  inside n s k → ks_syms k !! s = Some y →
  (∀ k1 y1, inside n s k1 → ks_syms k1 !! s = Some y1 → sy_core y1 = sy_core y → sy_curr y1 = newval →
     shown k1 (sy_prop y1) → ref_visible k1 y1 = Some (sy_visible y1) →
     (ref_deselected k1 y1 = Some false → ref_rev k1 y1 = Some (sy_rev_dep_tri y1)) →
     isp (Some s) f k1 Q) →
  isp (Some s)
    (do! mwhen (negb (is_choice_value y)) (clear_flags s SYMBOL_WRITE) in
     do! sym_calc_visibility calc s in
     do! upd_sym s (sy_set_curr newval) in f) k Q.
Proof.
  intros I H Hf.
  assert (Hb : isp (Some s) (mthen (do! mwhen (negb (is_choice_value y)) (clear_flags s SYMBOL_WRITE) in
     do! sym_calc_visibility calc s in upd_sym s (sy_set_curr newval)) (λ _, f)) k Q).
  { eapply isp_bind; [by right|done|by apply isp_start|].
    intros [] k1 I1 S1 (y1 & H1 & C1 & N1 & Sh1 & V1 & R1). by eapply Hf. }
  unfold isp, spec, mthen in Hb |- *. destruct (mwhen _ _ k) as [[[] ka]| |]; [|done..].
  by destruct (sym_calc_visibility calc s ka) as [[[] kb]| |].
Qed.

(** Steps that go on to change [s] keep its prompts calculated. *)
Lemma shown_own k k' y :
  inside n s k → istep (Some s) s k k' → ks_syms k !! s = Some y → shown k (sy_prop y) → shown_in k' s.
Proof.
  intros I S H Sh y' H' _ _. destruct (core_sym k k' s y (is_core _ _ _ _ S) H) as (z & Hz & C).
  assert (z = y') as -> by congruence. apply sy_core_inv in C as (_ & _ & _ & -> & _).
  apply (kept_shown (Some s) k k' y (or_intror eq_refl) I S); [by exists y|done].
Qed.

(** A record of [s] that has the components of a solved symbol. *)
Lemma solved_logic k k' y y' v :
  inside n s k → istep (Some s) s k k' → ks_syms k !! s = Some y → ks_syms k' !! s = Some y' →
  same_value (sy_set_curr (SValue (VStr lit_n) v) y) y' →
  sy_type y = S_BOOLEAN ∨ sy_type y = S_TRISTATE →
  ref_visible k y = Some (sy_visible y) →
  (ref_deselected k y = Some false → ref_rev k y = Some (sy_rev_dep_tri y)) →
  ref_logic k y = Some v → solved k' s.
Proof.
  intros I S H H' V Ht Hv Hr Hl. exists y'.
  pose proof (is_valid _ _ _ _ S (in_valid _ _ _ I)) as (y0 & H0 & V0). assert (y0 = y') as -> by congruence.
  assert (Y : is_own k y) by (by exists y). split_and!; [done..|].
  destruct V as (C & Cu & Vi & Re). assert (C' : sy_core y' = sy_core y) by (by rewrite C).
  pose proof (ref_bounds k' y y' C' Vi Re) as (El & _).
  destruct (ref_core k' y y' C') as (E1 & E2 & E3 & _).
  pose proof (sy_core_inv _ _ C') as (_ & Et & _). unfold equations. rewrite Et.
  assert (G : ref_visible k' y' = Some (sy_visible y') ∧
    (ref_deselected k' y' = Some false → ref_rev k' y' = Some (sy_rev_dep_tri y')) ∧
    ref_logic k' y' = Some (sv_tri (sy_curr y')) ∧ sv_val (sy_curr y') = VStr lit_n).
  { rewrite Cu, Vi, Re, E1, E2, E3. simpl. split_and!; [| | |done].
    - by apply (kept_visible (Some s) k k' y (or_intror eq_refl) I S Y).
    - intros D. apply (kept_rev (Some s) k k' y (or_intror eq_refl) I S Y), Hr.
      unfold ref_visible in Hv. opt_step Hv. opt_step Hv.
      rewrite (kept_deselected (Some s) k k' y (or_intror eq_refl) I S Y _ E0) in D. done.
    - rewrite El. by apply (ref_logic_stable _ _ _ (istep_agree (Some s) s k k' (in_plain _ _ _ I) (or_intror eq_refl) S)
        y (λ t, own_reads k y t Y)). }
  destruct Ht as [-> | ->]; done.
Qed.

Lemma isp_symbol_logic oldval k y :
  inside n s k → ks_syms k !! s = Some y → sy_type y = S_BOOLEAN ∨ sy_type y = S_TRISTATE →
  isp (Some s) (calc_symbol calc s oldval no_curr) k (λ _ k', solved k' s ∧ marked_in k' s ∧ shown_in k' s).
Proof.
  intros I H Ht. unfold calc_symbol. eapply isp_get_sym; [done|].
  eapply isp_start_then; [done|done|]. intros k1 y1 I1 H1 C1 N1 Sh1 V1 R1.
  pose proof (sy_core_inv _ _ C1) as (_ & Et & _). rewrite <-Et in Ht.
  eapply isp_run; [unfold sym_get_type, mthen; by rewrite (run_get_sym _ _ _ H1)|].
  destruct (plain_not_choice k1 y1 I1 H1) as (_ & _ & ->).
  eapply (isp_bind _ _ _ _ (λ v k', ∃ y' t, v = SValue (VStr lit_n) t ∧ ks_syms k' !! s = Some y' ∧
    same_value y1 y' ∧ ref_logic k' y' = Some t ∧
    (ref_deselected k' y' = Some false → sy_visible y' ≠ No → writes y' = true))); [by right|done| |].
  { assert (G : isp (Some s) (let! tri := calc_logic calc s in mreturn (sv_set_tri tri no_curr)) k1
      (λ v k', ∃ y' t, v = SValue (VStr lit_n) t ∧ ks_syms k' !! s = Some y' ∧
        same_value y1 y' ∧ ref_logic k' y' = Some t ∧
        (ref_deselected k' y' = Some false → sy_visible y' ≠ No → writes y' = true))).
    { eapply isp_bind; [by right|done|by apply isp_logic|]. intros t k2 I2 S2 (y2 & H2 & V2 & E2 & W2).
      apply isp_ret. by exists y2, t. }
    destruct Ht as [-> | ->]; exact G. }
  intros v k2 I2 S2 (y2 & t & -> & H2 & V2 & E2 & W2).
  pose proof (kept_visible _ k1 k2 y1 (or_intror eq_refl) I1 S2 (ex_intro _ y1 (conj H1 eq_refl)) _ V1) as V1'.
  pose proof V2 as (C2 & _ & Vi & Re). destruct (ref_core k2 y1 y2 C2) as (Ev & Ed & Er & _).
  assert (R1' : ref_deselected k2 y2 = Some false → ref_rev k2 y2 = Some (sy_rev_dep_tri y2)).
  { rewrite Ed, Er, Re. intros D. apply (kept_rev _ k1 k2 y1 (or_intror eq_refl) I1 S2 (ex_intro _ y1 (conj H1 eq_refl))), R1.
    unfold ref_visible in V1. opt_step V1. opt_step V1.
    rewrite (kept_deselected _ k1 k2 y1 (or_intror eq_refl) I1 S2 (ex_intro _ y1 (conj H1 eq_refl)) _ E0) in D. done. }
  eapply (isp_mono _ _ _ (λ _ k', ∃ y', ks_syms k' !! s = Some y' ∧
    same_value (sy_set_curr (SValue (VStr lit_n) t) y2) y' ∧
    (writes (sy_set_curr (SValue (VStr lit_n) t) y2) = true → writes y' = true))).
  - eapply isp_bind; [by right|done|by apply isp_upd_sym|]. intros [] k3 I3 S3 H3. simpl in H3.
    eapply isp_get_sym; [done|]. destruct (plain_not_choice k3 _ I3 H3) as (-> & _). simpl.
    eapply isp_run; [reflexivity|]. pose proof (sy_core_inv _ _ C2) as (_ & Et2 & _).
    eapply isp_run; [|by apply isp_finish].
    unfold sym_validate_range, mthen. rewrite (run_get_sym _ _ _ H3). simpl. rewrite Et2.
    by destruct Ht as [-> | ->].
  - intros [] k' S' (y' & H' & V' & W'). pose proof (sy_core_inv _ _ C2) as (_ & Et2 & _).
    split_and!; [| |eapply (shown_own k1); [done| |done..];
      eapply istep_trans; [by eapply in_plain|by right|done..]].
    + eapply (solved_logic k2 k' y2 y' t); try done; [by rewrite Et2|by rewrite Ev, Vi].
    + intros y0 H0 _ _. assert (y0 = y') as -> by congruence. destruct V' as (_ & _ & -> & _). simpl.
      intros Nv. apply W', W2; [|done]. rewrite Ed. revert V1'. rewrite <-Vi. unfold ref_visible.
      destruct (ref_prompts k2 _ No); [|done]. destruct (ref_deselected k2 y1) as [[]|]; [|done..]. congruence.
Qed.

Lemma isp_symbol_string oldval k y :
  inside n s k → ks_syms k !! s = Some y →
  sy_type y = S_STRING ∨ sy_type y = S_INT ∨ sy_type y = S_HEX →
  isp (Some s) (calc_symbol calc s oldval empty_curr) k (λ _ k', solved k' s ∧ marked_in k' s ∧ shown_in k' s).
Proof.
  intros I H Ht. unfold calc_symbol. eapply isp_get_sym; [done|].
  eapply isp_start_then; [done|done|]. intros k1 y1 I1 H1 C1 N1 Sh1 V1 _.
  pose proof (sy_core_inv _ _ C1) as (_ & Et & _). rewrite <-Et in Ht.
  eapply isp_run; [unfold sym_get_type, mthen; by rewrite (run_get_sym _ _ _ H1)|].
  destruct (plain_not_choice k1 y1 I1 H1) as (_ & _ & ->).
  eapply (isp_bind _ _ _ _ (λ v k', ∃ y' c, v = SValue (VStr c) No ∧ ks_syms k' !! s = Some y' ∧
    same_value y1 y' ∧ (sy_visible y1 ≠ No → writes y' = true) ∧ ref_plain k' y' = Some (cs_text c)));
    [by right|done| |].
  { assert (G : isp (Some s) (let! v := calc_string calc s in mreturn (sv_set_val v empty_curr)) k1
      (λ v k', ∃ y' c, v = SValue (VStr c) No ∧ ks_syms k' !! s = Some y' ∧
        same_value y1 y' ∧ (sy_visible y1 ≠ No → writes y' = true) ∧ ref_plain k' y' = Some (cs_text c))).
    { eapply isp_bind; [by right|done|by apply isp_string|]. intros v k2 I2 S2 (y2 & c & H2 & V2 & -> & W2 & E2).
      apply isp_ret. by exists y2, c. }
    destruct Ht as [-> |[-> | ->]]; exact G. }
  intros v k2 I2 S2 (y2 & c & -> & H2 & V2 & W2 & E2). pose proof V2 as (C2 & _ & Vi & _).
  pose proof (kept_visible _ k1 k2 y1 (or_intror eq_refl) I1 S2 (ex_intro _ y1 (conj H1 eq_refl)) _ V1) as V1'.
  rewrite <-Vi, <-(proj1 (ref_core k2 y1 y2 C2)) in V1'.
  eapply isp_bind; [by right|done|by apply isp_upd_sym|]. intros [] k3 I3 S3 H3. simpl in H3.
  eapply isp_get_sym; [done|]. destruct (plain_not_choice k3 _ I3 H3) as (-> & _). simpl.
  eapply isp_run; [reflexivity|].
  eapply isp_bind; [by right|done|by apply (isp_validate k3 (sy_set_curr (SValue (VStr c) No) y2) c)|].
  intros [] k4 I4 S4 (t & E4 & y4 & c4 & H4 & C4 & V4 & R4 & N4 & <- & W4).
  eapply isp_mono; [by apply isp_finish|]. intros [] k5 S5 (y5 & H5 & (C5 & N5 & V5 & R5) & W5).
  split_and!; [|intros y0 H0 _ _; assert (y0 = y5) as -> by congruence; rewrite V5, V4; simpl;
    intros Nv; apply W5, W4, W2; congruence|
    eapply (shown_own k1); [done| |done..]; eapply istep_trans; [by eapply in_plain|by right|done|]; eapply istep_trans; [by eapply in_plain|by right|done|];
      eapply istep_trans; [by eapply in_plain|by right|done..]].
  assert (S' : istep (Some s) s k3 k5) by (eapply istep_trans; eauto using in_plain; by right).
  set (y3 := sy_set_curr (SValue (VStr c) No) y2) in *.
  assert (Y2 : is_own k2 y2) by (by exists y2). assert (Y3 : is_own k3 y3) by (by exists y3).
  assert (C53 : sy_core y5 = sy_core y3) by congruence. exists y5.
  pose proof (in_valid _ _ _ (inside_step _ _ _ _ _ (or_intror eq_refl) I4 S5)) as (y0 & H0 & W).
  assert (y0 = y5) as -> by congruence. split_and!; [done..|].
  pose proof (sy_core_inv _ _ C53) as (_ & T53 & _). pose proof (sy_core_inv _ _ C2) as (_ & T2 & _).
  assert (G : ref_visible k5 y5 = Some (sy_visible y5) ∧
    ∃ c, sy_curr y5 = SValue (VStr c) No ∧ ref_string k5 y5 = Some (cs_text c)).
  { split; [rewrite (proj1 (ref_core k5 y3 y5 C53)), V5, V4;
      apply (kept_visible (Some s) k3 k5 y3 (or_intror eq_refl) I3 S' Y3);
      by apply (kept_visible (Some s) k2 k3 y2 (or_intror eq_refl) I2 S3 Y2)|].
    exists c4. split; [congruence|].
    destruct (ref_bounds k5 y3 y5 C53) as (_ & Ep & Er); [congruence..|]. unfold ref_string. rewrite Ep.
    destruct (ref_bounds k5 y2 y3) as (_ & Ep' & _); [done..|]. rewrite Ep'.
    assert (S25 : istep (Some s) s k2 k5) by (eapply istep_trans; eauto using in_plain; by right).
    rewrite (kept_plain (Some s) k2 k5 y2 (or_intror eq_refl) I2 S25 Y2 _ E2), Er.
    apply (kept_range (Some s) k4 k5 y3 (or_intror eq_refl) I4 S5); [|done]. by exists y4. }
  unfold equations. rewrite T53. unfold y3. simpl. rewrite T2. by destruct Ht as [-> |[-> | ->]].
Qed.
End Body.

(** ** The recursion *)

Lemma mark_valid_ne s y k u : u ≠ s → ks_syms (mark_valid s y k) !! u = ks_syms k !! u.
Proof. intros H. simpl. by rewrite lookup_insert_ne. Qed.

(** The state in which the calculation of [s] starts. *)
Lemma inside_start n s y k :
  plain k → invalid k < S n → ks_syms k !! s = Some y → valid y = false →
  valid_in k symbol_yes ∧ valid_in k symbol_mod →
  (∀ u, rtc (reads k) s u → valid_in k u → solved k u) → inside n s (mark_valid s y k).
Proof.
  intros P F H V [Cy Cm] B. pose proof (mark_valid_frame s y k H) as [C Vm].
  pose proof (mark_valid_invalid s y k H V) as Hlt.
  assert (Nk : ¬ valid_in k s) by (intros (? & ? & ?); congruence).
  assert (Vk : ∀ u, valid_in k u → valid_in (mark_valid s y k) u).
  { intros u Vu. assert (u ≠ s) by (by intros ->). destruct Vu as (z & Hz & Vz).
    exists z. by rewrite mark_valid_ne. }
  split; [by eapply plain_core|lia| | |auto].
  - eexists. split; [apply mark_valid_lookup|apply valid_marked].
  - intros u Hu Vu. apply (core_tc _ k) in Hu; [|done].
    assert (u ≠ s) by (intros ->; by apply (pl_acyclic k P s)).
    assert (Vu' : valid_in k u).
    { destruct Vu as (z & Hz & Vz). rewrite mark_valid_ne in Hz by done. by exists z. }
    eapply solved_stable; [|by apply mark_valid_ne|apply B; [by apply tc_rtc|done]].
    apply agree_exact; [|by apply core_props]. intros t _ Vt. apply mark_valid_ne. by intros ->.
Qed.

(** A calculation of [s] that started there is a complete one. *)
Lemma done_by_start s y k k' :
  ks_syms k !! s = Some y → valid y = false → istep (Some s) s (mark_valid s y k) k' → solved k' s →
  marked_in k' s → shown_in k' s → done_by s k k'.
Proof.
  intros H V [C S N M Q _] Hs Hm Hw. pose proof (mark_valid_frame s y k H) as [C1 _].
  assert (Nk : ¬ valid_in k s) by (intros (? & ? & ?); congruence). split; [congruence| | | |].
  - intros u Vu. assert (Hu : u ≠ s) by (by intros ->).
    rewrite S, mark_valid_ne; [done|done|congruence|].
    destruct Vu as (z & ? & ?). exists z. by rewrite mark_valid_ne.
  - intros u Vu Nu. destruct (decide (u = s)) as [->|Hu]; [done|].
    destruct (N u Vu) as [Ht ?].
    { intros (z & Hz & ?). rewrite mark_valid_ne in Hz by done. apply Nu. by exists z. }
    split; [|done]. apply tc_rtc. by eapply core_tc.
  - intros u Vu Nu. destruct (decide (u = s)) as [->|Hu]; [done|]. apply M; [done|].
    intros (z & Hz & ?). rewrite mark_valid_ne in Hz by done. apply Nu. by exists z.
  - intros p x Hx. destruct (Q p x Hx) as [?|[Hr ?]]; [by left|right]. split; [|done].
    intros t Ht. eapply core_tc; [|by apply Hr]. done.
Qed.

(** A symbol without a type has its name as its value. *)
Lemma solve_untyped n s y k :
  inside n s (mark_valid s y k) → ks_syms k !! s = Some y → valid y = false →
  sy_type y = S_UNKNOWN ∨ sy_type y = S_OTHER → valid_in k symbol_yes ∧ valid_in k symbol_mod →
  isp s (Some s) (upd_sym s (sy_set_curr (SValue (from_option VStr VNull (sy_name y)) No)))
    (mark_valid s y k) (λ _ k', solved k' s ∧ marked_in k' s ∧ shown_in k' s).
Proof.
  intros I H V Ht [Cy Cm]. pose proof (mark_valid_lookup s y k) as H1.
  eapply isp_mono; [by eapply (isp_upd_sym n)|]. intros [] k' S H'. simpl in H'.
  destruct (pl_name _ (in_plain _ _ _ I) s _ H1 Ht) as [c Hc]. simpl in Hc.
  split_and!; [|intros y0 H0; rewrite H' in H0; injection H0 as <-; intros A B; by destruct Ht..].
  eexists. split_and!; [exact H'|apply valid_marked|]. unfold equations. simpl.
  assert (Ec : sy_name y = Some c ∧ SValue (from_option VStr VNull (sy_name y)) No =
    SValue (VStr c) (if decide (s = symbol_yes) then Yes else if decide (s = symbol_mod) then Mod else No)).
  { split; [done|]. rewrite Hc. simpl. rewrite !decide_False; [done|intros ->..];
      [destruct Cm as (? & ? & ?)|destruct Cy as (? & ? & ?)]; congruence. }
  destruct Ht as [-> | ->]; by exists c.
Qed.

Lemma calc_solves n s k :
  plain k → invalid k < n → is_Some (ks_syms k !! s) →
  valid_in k symbol_yes ∧ valid_in k symbol_mod →
  (∀ u, rtc (reads k) s u → valid_in k u → solved k u) →
  spec False (sym_calc_value_f n s) k (λ _ k', done_by s k k' ∧ valid_in k' s).
Proof.
  revert s k. induction n as [|n IH]; intros s k P F [y H] Cn B; [lia|]. simpl.
  unfold sym_calc_value_body. unfold spec at 1, mthen at 1. rewrite (run_get_sym _ _ _ H).
  fold (valid y). destruct (valid y) eqn:V.
  { simpl. split; [split; try done; by apply prop_step_same|]. by exists y. }
  unfold or_flags, upd_sym at 1, mthen at 1 2. rewrite (run_get_sym _ _ _ H). simpl.
  fold (mark_valid s y k). pose proof (inside_start n s y k P F H V Cn B) as I.
  assert (Hcalc : ∀ t k, reads k s t → inside n s k →
    spec False (sym_calc_value_f n t) k (λ _ k', done_by t k k' ∧ valid_in k' t)).
  { intros t k2 R I2. apply IH; [apply I2..|by eapply pl_reads; [apply I2|]|apply I2|].
    intros u Hu Vu. apply (in_below n s k2 I2); [|done]. by eapply tc_rtc_r; [apply tc_once|]. }
  pose proof (mark_valid_lookup s y k) as H1.
  assert (G : ∀ m : K (), isp s (Some s) m (mark_valid s y k) (λ _ k', solved k' s ∧ marked_in k' s ∧ shown_in k' s) →
    spec False m (mark_valid s y k) (λ _ k', done_by s k k' ∧ valid_in k' s)).
  { intros m Hm. eapply spec_mono; [exact Hm|]. intros [] k' [S (Sv & Mk & Sh)].
    split; [by eapply done_by_start|]. destruct Sv as (z & ? & ? & _). by exists z. }
  destruct (sy_type y) eqn:T; apply G.
  - apply (solve_untyped n); auto.
  - apply (isp_symbol_logic n s _ Hcalc _ _ _ I H1). auto.
  - apply (isp_symbol_logic n s _ Hcalc _ _ _ I H1). auto.
  - apply (isp_symbol_string n s _ Hcalc _ _ _ I H1). auto.
  - apply (isp_symbol_string n s _ Hcalc _ _ _ I H1). auto.
  - apply (isp_symbol_string n s _ Hcalc _ _ _ I H1). auto.
  - apply (solve_untyped n); auto.
Qed.
