(* ===== verification/KSymTab.v ===== *)
(** * The symbol table: [sym_lookup], [sym_find], and the table expressions see

    The hash chains hold every symbol exactly once, by name and constness; a
    state in which every symbol is calculated is a table in the sense of
    [SymTab], with the laws of [SymTabOk], and [expr_calc_value] on it is the
    pure evaluation [expr_value]. *)
From S2P Require Import Prelude CLib KData KExpr KState KSymbol KSymFrame KSymRef KSymSolve.
Open Scope pr30_scope.

(** ** The invariant of the hash table *)

Definition bucket (k : kstate) (i : nat) : list sid := default [] (ks_hash k !! i).

(** Where a symbol of this name belongs; [None] for the reserved names. *)
Definition home (name : option cstr) : option nat :=
  match name with
  | None => Some 256
  | Some c =>
      match reserved (cs_text c) with Some _ => None | None => Some (name_hash (cs_text c)) end
  end.

Definition is_const (y : symbol) : bool := has_flag (sy_flags y) SYMBOL_CONST.

Record hash_ok (k : kstate) : Prop := {
  ho_bucket : ∀ i s, s ∈ bucket k i → ∃ y, ks_syms k !! s = Some y ∧ home (sy_name y) = Some i;
  ho_unique : ∀ s1 s2 y1 y2 c1 c2, s1 ∈ hash_syms k → s2 ∈ hash_syms k →
    ks_syms k !! s1 = Some y1 → ks_syms k !! s2 = Some y2 →
    sy_name y1 = Some c1 → sy_name y2 = Some c2 → cs_text c1 = cs_text c2 →
    is_const y1 = is_const y2 → s1 = s2;
  ho_all : ∀ s, is_Some (ks_syms k !! s) → s ≤ symbol_empty ∨ s ∈ hash_syms k;
  ho_fresh : ∀ s, is_Some (ks_syms k !! s) → s < ks_new_sym k;
  ho_start : symbol_empty < ks_new_sym k;
}.

Lemma name_hash_lt name : name_hash name < 256.
Proof. apply Nat.mod_upper_bound. lia. Qed.

Lemma home_lt name i : home name = Some i → i < 257.
Proof.
  destruct name as [c|]; simpl; [|intros [= <-]; lia].
  destruct (reserved _); [done|]. intros [= <-]. pose proof (name_hash_lt (cs_text c)). lia.
Qed.

Lemma elem_of_hash_syms k s : s ∈ hash_syms k ↔ ∃ i, i < 257 ∧ s ∈ bucket k i.
Proof.
  unfold hash_syms. rewrite list_elem_of_In, in_concat. split.
  - intros (l & Hl & Hs). apply in_map_iff in Hl as (i & <- & Hi%in_seq).
    exists i. split; [lia|]. by apply list_elem_of_In.
  - intros (i & Hi & Hs). exists (bucket k i). split; [|by apply list_elem_of_In].
    apply in_map_iff. exists i. split; [done|]. apply in_seq. lia.
Qed.

(** ** The chain search *)

Lemma find_chain_spec k l name isconst :
  (∀ s, s ∈ l → ∃ y c, ks_syms k !! s = Some y ∧ sy_name y = Some c) →
  ∃ o, find_chain l name isconst k = Done (o, k) ∧
    match o with
    | Some s => s ∈ l ∧ ∃ y c, ks_syms k !! s = Some y ∧ sy_name y = Some c ∧
        cs_text c = name ∧ is_const y = isconst
    | None => ∀ s y c, s ∈ l → ks_syms k !! s = Some y → sy_name y = Some c →
        cs_text c = name → is_const y ≠ isconst
    end.
Proof.
  intros Hl. induction l as [|s l IH]; simpl.
  { exists None. split; [done|]. intros s y c Hs. by apply elem_of_nil in Hs. }
  destruct (Hl s) as (y & c & H & N); [by left|].
  unfold mthen at 1. rewrite (run_get_sym _ _ _ H). unfold mthen at 1, mderef. rewrite N.
  fold (is_const y). destruct (bool_decide (cs_text c = name) && Bool.eqb (is_const y) isconst) eqn:B.
  - exists (Some s). split; [done|]. apply andb_true_iff in B as [B1%bool_decide_eq_true B2%eqb_prop].
    split; [by left|]. by exists y, c.
  - destruct IH as (o & E & Ho); [intros s' Hs'; apply Hl; by right|].
    exists o. split; [done|]. destruct o as [s'|]; [destruct Ho; split; [by right|done]|].
    intros s' y' c' [->|Hs']%elem_of_cons H' N' T' E'; [|by eapply Ho].
    simplify_eq. rewrite bool_decide_eq_true_2, eqb_reflx in B by done. done.
Qed.

Lemma bucket_named k i :
  hash_ok k → i < 256 → ∀ s, s ∈ bucket k i → ∃ y c, ks_syms k !! s = Some y ∧ sy_name y = Some c.
Proof.
  intros Ok Hi s Hs. destruct (ho_bucket k Ok i s Hs) as (y & H & Hh). exists y.
  destruct (sy_name y) as [c|]; [by exists c|]. simpl in Hh. simplify_eq. lia.
Qed.

(** ** A new symbol *)

Definition fresh_symbol (name : option cstr) (isconst : bool) : symbol :=
  Symbol name S_UNKNOWN (SValue VNull No) (SValue VNull No) No
    (if isconst then Z.lor SYMBOL_NEW SYMBOL_CONST else SYMBOL_NEW) [] None No None.

Definition with_symbol (name : option cstr) (isconst : bool) (i : nat) (k : kstate) : kstate :=
  ks_set_hash (<[i := ks_new_sym k :: bucket k i]> (ks_hash k))
    (ks_set_syms (<[ks_new_sym k := fresh_symbol name isconst]> (ks_syms k))
      (ks_set_new_sym (S (ks_new_sym k)) k)).

Lemma new_symbol_run name isconst i k :
  new_symbol name isconst i k = Done (ks_new_sym k, with_symbol name isconst i k).
Proof. done. Qed.

Lemma fresh_const name isconst : is_const (fresh_symbol name isconst) = isconst.
Proof. by destruct isconst. Qed.

Lemma bucket_with name isconst i k j :
  bucket (with_symbol name isconst i k) j = if decide (i = j) then ks_new_sym k :: bucket k j else bucket k j.
Proof.
  unfold bucket, with_symbol. simpl. case_decide as E; [subst; by rewrite lookup_insert_eq|].
  by rewrite lookup_insert_ne.
Qed.

Lemma hash_syms_with name isconst i k s :
  i < 257 → s ∈ hash_syms (with_symbol name isconst i k) ↔ s = ks_new_sym k ∨ s ∈ hash_syms k.
Proof.
  intros Hi. rewrite !elem_of_hash_syms. setoid_rewrite bucket_with. split.
  - intros (j & Hj & Hs). case_decide; [apply elem_of_cons in Hs as [->|Hs]|]; eauto.
  - intros [->|(j & Hj & Hs)].
    + exists i. rewrite decide_True by done. split; [done|by left].
    + exists j. split; [done|]. case_decide; [by right|done].
Qed.

Lemma new_symbol_ok name isconst i k :
  hash_ok k → home name = Some i →
  (∀ s y c c', s ∈ hash_syms k → ks_syms k !! s = Some y → sy_name y = Some c → name = Some c' →
     cs_text c = cs_text c' → is_const y ≠ isconst) →
  hash_ok (with_symbol name isconst i k).
Proof.
  intros [A1 A2 A3 A4 A5] Hh Hn. pose proof (home_lt _ _ Hh) as Hi.
  assert (Hne : ∀ s y, ks_syms k !! s = Some y → s ≠ ks_new_sym k).
  { intros s y H ->. specialize (A4 _ (ex_intro _ y H)). lia. }
  assert (L : ∀ s y, ks_syms (with_symbol name isconst i k) !! s = Some y →
    s = ks_new_sym k ∧ y = fresh_symbol name isconst ∨ ks_syms k !! s = Some y).
  { intros s y H. simpl in H. destruct (decide (s = ks_new_sym k)) as [->|];
      [rewrite lookup_insert_eq in H|rewrite lookup_insert_ne in H by done]; simplify_eq; auto. }
  split.
  - intros j s. rewrite bucket_with. intros Hs.
    assert (Hc : s = ks_new_sym k ∧ i = j ∨ s ∈ bucket k j).
    { case_decide; [apply elem_of_cons in Hs as [->|Hs]|]; auto. }
    destruct Hc as [[-> <-]|Hb].
    + exists (fresh_symbol name isconst). simpl. by rewrite lookup_insert_eq.
    + destruct (A1 _ _ Hb) as (y & H & E). exists y. simpl.
      rewrite lookup_insert_ne; [done|]. intros <-. by eapply Hne.
  - intros s1 s2 y1 y2 c1 c2 I1 I2 H1 H2 N1 N2 T E.
    apply hash_syms_with in I1, I2; [|done..].
    destruct (L _ _ H1) as [[-> ->]|H1'], (L _ _ H2) as [[-> ->]|H2']; [done|..].
    + destruct I2 as [->|I2]; [by destruct (Hne _ _ H2')|]. simpl in N1. rewrite fresh_const in E.
      by destruct (Hn s2 y2 c2 c1 I2 H2' N2 N1).
    + destruct I1 as [->|I1]; [by destruct (Hne _ _ H1')|]. simpl in N2. rewrite fresh_const in E.
      by destruct (Hn s1 y1 c1 c2 I1 H1' N1 N2).
    + destruct I1 as [->|I1]; [by destruct (Hne _ _ H1')|].
      destruct I2 as [->|I2]; [by destruct (Hne _ _ H2')|]. by eapply A2.
  - intros s [y H]. rewrite hash_syms_with by done.
    destruct (L _ _ H) as [[-> _]|H']; [auto|]. destruct (A3 s); eauto.
  - intros s [y H]. simpl. destruct (L _ _ H) as [[-> _]|H']; [lia|].
    specialize (A4 _ (ex_intro _ y H')). lia.
  - simpl. lia.
Qed.

(** ** [sym_lookup] and [sym_find] *)

(** [s] is the entry for this name and constness. *)
Definition entry (k : kstate) (name : string) (isconst : bool) (s : sid) : Prop :=
  match reserved name with
  | Some r => s = r
  | None => s ∈ hash_syms k ∧ ∃ y c, ks_syms k !! s = Some y ∧ sy_name y = Some c ∧
      cs_text c = name ∧ is_const y = isconst
  end.

Lemma hash_ok_strdup k n : hash_ok k → hash_ok (ks_set_new_str n k).
Proof. intros [A1 A2 A3 A4 A5]. by split. Qed.

(** An entry is in the chain of its name. *)
Lemma entry_bucket k name isconst s :
  hash_ok k → reserved name = None → entry k name isconst s → s ∈ bucket k (name_hash name).
Proof.
  intros Ok R. unfold entry. rewrite R. intros (Hs & y & c & H & N & T & _).
  apply elem_of_hash_syms in Hs as (i & _ & Hi). destruct (ho_bucket k Ok i s Hi) as (y' & H' & Hh).
  simplify_eq. rewrite N in Hh. simpl in Hh. rewrite R in Hh. by simplify_eq.
Qed.

Lemma lookup_found k name isconst s :
  hash_ok k → entry k name isconst s → sym_lookup (Some name) isconst k = Done (s, k).
Proof.
  intros Ok E. unfold sym_lookup. pose proof (entry_bucket k name isconst s Ok) as Hb.
  unfold entry in *. destruct (reserved name) as [r|] eqn:R; [by subst|].
  specialize (Hb eq_refl E). unfold mthen at 1, mgets. fold (bucket k (name_hash name)).
  destruct (find_chain_spec k (bucket k (name_hash name)) name isconst) as (o & F & Ho).
  { apply bucket_named; [done|apply name_hash_lt]. }
  unfold mthen. rewrite F. destruct E as (Hs & y & c & H & N & T & Cn). destruct o as [s'|].
  - destruct Ho as (Hs' & y' & c' & H' & N' & T' & C').
    assert (s' = s) as ->; [|done].
    eapply (ho_unique k Ok); eauto; [|congruence..].
    apply elem_of_hash_syms. exists (name_hash name). split; [|done]. pose proof (name_hash_lt name). lia.
  - by destruct (Ho s y c Hb H N T).
Qed.

Lemma find_found k name s :
  hash_ok k → entry k name false s → sym_find (Some name) k = Done (Some s, k).
Proof.
  intros Ok E. pose proof (lookup_found k name false s Ok E) as L. unfold sym_lookup in L. unfold sym_find.
  destruct (reserved name) as [r|] eqn:R; [by injection L as ->|].
  unfold mthen, mgets in *. fold (bucket k (name_hash name)) in *.
  destruct (find_chain_spec k (bucket k (name_hash name)) name false) as (o & F & Ho).
  { apply bucket_named; [done|apply name_hash_lt]. }
  rewrite F in *. destruct o as [s'|]; [by injection L as ->|].
  pose proof (entry_bucket k name false s Ok R E) as Hb. unfold entry in E. rewrite R in E.
  destruct E as (_ & y & c & H & N & T & Cn). by destruct (Ho s y c Hb H N T).
Qed.

Lemma find_missing k name :
  hash_ok k → (∀ s, ¬ entry k name false s) → sym_find (Some name) k = Done (None, k).
Proof.
  intros Ok Hn. unfold sym_find, entry in *. destruct (reserved name) as [r|]; [by destruct (Hn r)|].
  unfold mthen, mgets. fold (bucket k (name_hash name)).
  destruct (find_chain_spec k (bucket k (name_hash name)) name false) as (o & -> & Ho).
  { apply bucket_named; [done|apply name_hash_lt]. }
  destruct o as [s|]; [|done]. destruct Ho as (Hs & Hy). destruct (Hn s). split; [|done].
  apply elem_of_hash_syms. exists (name_hash name). split; [|done]. pose proof (name_hash_lt name). lia.
Qed.

Lemma lookup_spec k name isconst :
  hash_ok k →
  ∃ s k', sym_lookup (Some name) isconst k = Done (s, k') ∧ hash_ok k' ∧ entry k' name isconst s ∧
    (∀ t y, ks_syms k !! t = Some y → ks_syms k' !! t = Some y).
Proof.
  intros Ok. unfold sym_lookup, entry. destruct (reserved name) as [r|] eqn:R; [by exists r, k|].
  unfold mthen at 1, mgets. fold (bucket k (name_hash name)).
  destruct (find_chain_spec k (bucket k (name_hash name)) name isconst) as (o & F & Ho).
  { apply bucket_named; [done|apply name_hash_lt]. }
  unfold mthen. rewrite F. pose proof (name_hash_lt name) as Hlt. destruct o as [s|].
  { exists s, k. split_and!; [done|done| |by apply Ho|done]. apply elem_of_hash_syms.
    exists (name_hash name). split; [lia|by apply Ho]. }
  unfold strdup. set (k1 := ks_set_new_str _ k). set (c := CStr (ks_new_str k) name).
  rewrite new_symbol_run. exists (ks_new_sym k1), (with_symbol (Some c) isconst (name_hash name) k1).
  assert (Ok1 : hash_ok k1) by (by apply hash_ok_strdup). split_and!; [done| | | |].
  - apply new_symbol_ok; [done|simpl; by rewrite R|]. intros s y c1 c2 Hs H N [= <-] T.
    apply elem_of_hash_syms in Hs as (i & Hi & Hs). destruct (ho_bucket k1 Ok1 i s Hs) as (y' & H' & Hh).
    simplify_eq. rewrite N in Hh. simpl in Hh, T. rewrite T, R in Hh. simplify_eq. by eapply Ho.
  - apply hash_syms_with; [lia|by left].
  - exists (fresh_symbol (Some c) isconst), c. split; [apply lookup_insert_eq|].
    split_and!; [done..|apply fresh_const].
  - intros t y H. simpl. rewrite lookup_insert_ne; [done|]. intros <-.
    pose proof (ho_fresh k Ok _ (ex_intro _ y H)). lia.
Qed.

(** ** A calculated store as a table *)

Definition symtab_of (k : kstate) : SymTab := {|
  st_type s := from_option sy_type S_UNKNOWN (ks_syms k !! s);
  st_flags s := from_option sy_flags 0%Z (ks_syms k !! s);
  st_name s := let? y := ks_syms k !! s in cs_text <$> sy_name y;
  st_tri s := from_option (λ y, sv_tri (sy_curr y)) No (ks_syms k !! s);
  st_str s := from_option (λ y, default EmptyString (cval_text (string_value y))) EmptyString
                (ks_syms k !! s);
|}.

(** The static symbols, and the constants of the table. *)
Record consts_ok (k : kstate) : Prop := {
  co_yes : ∃ y, ks_syms k !! symbol_yes = Some y ∧ is_const y = true ∧ sy_name y = Some lit_y;
  co_mod : ∃ y, ks_syms k !! symbol_mod = Some y ∧ is_const y = true ∧ sy_name y = Some lit_m;
  co_no : ∃ y, ks_syms k !! symbol_no = Some y ∧ is_const y = true ∧ sy_name y = Some lit_n;
  co_empty : ∀ y, ks_syms k !! symbol_empty = Some y → is_const y = false ∧ sy_type y = S_UNKNOWN;
  co_type : ∀ s y, ks_syms k !! s = Some y → is_const y = true →
    sy_type y = S_UNKNOWN ∧ is_Some (sy_name y);
}.

Record calculated (k : kstate) : Prop := {
  ca_hash : hash_ok k;
  ca_consts : consts_ok k;
  ca_solved : ∀ s, is_Some (ks_syms k !! s) → solved k s;
}.

(** The value of a constant is its name. *)
Lemma const_value k s y c :
  calculated k → ks_syms k !! s = Some y → is_const y = true → sy_name y = Some c →
  sy_curr y = SValue (VStr c) (if decide (s = symbol_yes) then Yes
                               else if decide (s = symbol_mod) then Mod else No).
Proof.
  intros [_ Co So] H C N. destruct (So s) as (y' & H' & _ & E); [eauto|].
  assert (y' = y) as -> by congruence. destruct (co_type k Co s y H C) as [T _]. unfold equations in E. rewrite T in E.
  destruct E as (c' & N' & E). rewrite E. congruence.
Qed.

Lemma const_str k s y c :
  calculated k → ks_syms k !! s = Some y → is_const y = true → sy_name y = Some c →
  st_str (SymTab := symtab_of k) s = cs_text c.
Proof.
  intros Ca H C N. simpl. rewrite H. simpl. unfold string_value.
  destruct (co_type k (ca_consts k Ca) s y H C) as [-> _].
  by rewrite (const_value k s y c Ca H C N).
Qed.

(** The name of a constant tells which one it is. *)
Lemma const_home k s y c :
  calculated k → ks_syms k !! s = Some y → is_const y = true → sy_name y = Some c →
  match reserved (cs_text c) with Some r => s = r | None => s ∈ hash_syms k end.
Proof.
  intros [Ho Co _] H C N. destruct (ho_all k Ho s) as [Hs|Hs]; [eauto| |].
  - destruct Co as [(y0 & H0 & _ & N0) (y1 & H1 & _ & N1) (y2 & H2 & _ & N2) He _].
    assert (s = symbol_yes ∨ s = symbol_mod ∨ s = symbol_no ∨ s = symbol_empty) as [->|[->|[->| ->]]]
      by (unfold symbol_yes, symbol_mod, symbol_no, symbol_empty in *; lia).
    + assert (y0 = y) as -> by congruence. rewrite N0 in N. by simplify_eq.
    + assert (y1 = y) as -> by congruence. rewrite N1 in N. by simplify_eq.
    + assert (y2 = y) as -> by congruence. rewrite N2 in N. by simplify_eq.
    + destruct (He y H). congruence.
  - destruct (reserved _) eqn:R; [|done]. apply elem_of_hash_syms in Hs as (i & _ & Hi).
    destruct (ho_bucket k Ho i s Hi) as (y' & H' & Hh). assert (y' = y) as -> by congruence.
    rewrite N in Hh. simpl in Hh. by rewrite R in Hh.
Qed.

Lemma solved_not_mod k s y :
  solved k s → ks_syms k !! s = Some y → sy_type y = S_BOOLEAN → sv_tri (sy_curr y) ≠ Mod.
Proof.
  intros (y' & H' & _ & E) H T. assert (y' = y) as -> by congruence. unfold equations in E. rewrite T in E.
  destruct E as (_ & _ & E & _). unfold ref_logic in E. opt_step E. opt_step E. rewrite T in E.
  case_decide as D; simplify_eq; [congruence|]. intros Em. apply D. split; congruence.
Qed.

Lemma symtab_ok k : calculated k → SymTabOk (symtab_of k).
Proof.
  intros Ca. pose proof (ca_consts k Ca) as Co.
  destruct (co_yes k Co) as (y0 & H0 & C0 & N0), (co_mod k Co) as (y1 & H1 & C1 & N1),
    (co_no k Co) as (y2 & H2 & C2 & N2).
  split.
  - simpl. rewrite H0. simpl. by rewrite (const_value k _ _ _ Ca H0 C0 N0).
  - simpl. rewrite H1. simpl. by rewrite (const_value k _ _ _ Ca H1 C1 N1).
  - simpl. rewrite H2. simpl. by rewrite (const_value k _ _ _ Ca H2 C2 N2).
  - by rewrite (const_str k _ _ _ Ca H0 C0 N0).
  - by rewrite (const_str k _ _ _ Ca H1 C1 N1).
  - by rewrite (const_str k _ _ _ Ca H2 C2 N2).
  - intros s. simpl. destruct (ks_syms k !! s) as [y|] eqn:H; [|done]. simpl. intros C.
    by destruct (co_type k Co s y H C).
  - simpl. by rewrite H0.
  - simpl. by rewrite H1.
  - simpl. by rewrite H2.
  - intros s1 s2 F1 F2 E. simpl in F1, F2.
    destruct (ks_syms k !! s1) as [z1|] eqn:G1; [|done]. destruct (ks_syms k !! s2) as [z2|] eqn:G2; [|done].
    destruct (co_type k Co s1 z1 G1 F1) as [_ [c1 M1]], (co_type k Co s2 z2 G2 F2) as [_ [c2 M2]].
    rewrite (const_str k _ _ _ Ca G1 F1 M1), (const_str k _ _ _ Ca G2 F2 M2) in E.
    pose proof (const_home k _ _ _ Ca G1 F1 M1) as I1. pose proof (const_home k _ _ _ Ca G2 F2 M2) as I2.
    rewrite <-E in I2. destruct (reserved (cs_text c1)); [congruence|].
    eapply (ho_unique k (ca_hash k Ca)); eauto.
  - intros s. simpl. destruct (ks_syms k !! s) as [y|] eqn:H; [|done]. simpl. intros T.
    eapply solved_not_mod; eauto. apply (ca_solved k Ca). eauto.
  - intros s. simpl. destruct (ks_syms k !! s) as [y|] eqn:H; [|by intros [?|?]]. simpl.
    unfold string_value. by intros [-> | ->]; destruct (sv_tri (sy_curr y)).
Qed.

(** ** [expr_calc_value] on a calculated store *)

Lemma calc_valid_noop k s y :
  ks_syms k !! s = Some y → valid y = true → sym_calc_value s k = Done ((), k).
Proof.
  intros H V. unfold sym_calc_value, calc_fuel. simpl. unfold sym_calc_value_body, mthen at 1.
  rewrite (run_get_sym _ _ _ H). unfold valid in V. by rewrite V.
Qed.

Lemma calc_text k s :
  calculated k → is_Some (ks_syms k !! s) →
  ∃ y c, ks_syms k !! s = Some y ∧ valid y = true ∧ string_value y = VStr c ∧
    st_str (SymTab := symtab_of k) s = cs_text c.
Proof.
  intros Ca Hs. destruct (solved_text k s (ca_solved k Ca s Hs)) as (y & c & _ & H & V & T & _).
  exists y, c. split_and!; [done..|]. simpl. rewrite H. simpl. by rewrite T.
Qed.

Lemma expr_calc_pure k e :
  calculated k → (∀ s, s ∈ expr_syms e → is_Some (ks_syms k !! s)) → wf_expr e = true →
  expr_calc sym_calc_value e k = Done (expr_value (T := symtab_of k) e, k).
Proof.
  intros Ca. assert (Hc : ∀ s, is_Some (ks_syms k !! s) → sym_calc_value s k = Done ((), k)).
  { intros s Hs. destruct (calc_text k s Ca Hs) as (y & _ & H & V & _). by eapply calc_valid_noop. }
  assert (Ht : ∀ s, is_Some (ks_syms k !! s) → ∃ c, sym_get_string_value s k = Done (VStr c, k) ∧
    st_str (SymTab := symtab_of k) s = cs_text c).
  { intros s Hs. destruct (calc_text k s Ca Hs) as (y & c & H & V & T & E). exists c.
    rewrite (run_string_value _ _ _ H), T. done. }
  induction e as [l IHl r IHr|l IHl r IHr|l IHl|a b|a b| |s|]; intros Hs W; try done;
    cbn [expr_calc expr_value]; simpl in W.
  - apply andb_true_iff in W as [Wl Wr]. unfold mthen. rewrite IHl, IHr; [done|set_solver..].
  - apply andb_true_iff in W as [Wl Wr]. unfold mthen. rewrite IHl, IHr; [done|set_solver..].
  - unfold mthen. by rewrite IHl.
  - destruct (Ht a) as (ca & Ea & ->); [set_solver|]. destruct (Ht b) as (cb & Eb & ->); [set_solver|].
    unfold mthen. rewrite (Hc a), (Hc b), Ea, Eb; [done|set_solver..].
  - destruct (Ht a) as (ca & Ea & ->); [set_solver|]. destruct (Ht b) as (cb & Eb & ->); [set_solver|].
    unfold mthen. rewrite (Hc a), (Hc b), Ea, Eb; [done|set_solver..].
  - destruct (Hs s) as [y H]; [set_solver|]. unfold mthen. rewrite (Hc s) by eauto.
    unfold sym_get_tristate_value, mthen. rewrite (run_get_sym _ _ _ H). simpl. by rewrite H.
Qed.
