(* ===== verification/KSymDeps.v ===== *)
(** * [sym_check_deps] finds recursive dependencies

    The depth-first search over the dependencies marks symbols with the flags
    [SYMBOL_CHECK] (on the stack) and [SYMBOL_CHECKED] (visited).  It ends, and
    it stays silent exactly when nothing reachable lies on a cycle. *)
From S2P Require Import Prelude CLib KData KExpr KState KSymbol KSymFrame KSymRef.
Open Scope pr30_scope.

(** ** The dependencies it follows *)

Fixpoint dep_syms (e : expr) : list sid :=
  match e with
  | Eor l r | Eand l r => dep_syms l ++ dep_syms r
  | Enot l => dep_syms l
  | Eequal l r | Eunequal l r => [l; r]
  | Esymbol s => [s]
  | Echoice _ _ | Erange _ _ => []
  end.
Definition odep_syms (e : option expr) : list sid := from_option dep_syms [] e.

Definition prop_deps (choice : bool) (x : property) : list sid :=
  match pr_type x with
  | P_CHOICE | P_SELECT | P_DESELECT => []
  | P_DEFAULT => odep_syms (pr_visible x) ++ if choice then [] else odep_syms (pr_expr x)
  | _ => odep_syms (pr_visible x)
  end.
Definition sym_deps (k : kstate) (y : symbol) : list sid :=
  odep_syms (sy_rev_dep y) ++
  concat (map (λ p, from_option (prop_deps (is_choice y)) [] (ks_props k !! p)) (sy_prop y)).
(** [s] depends on [t]. *)
Definition depends (k : kstate) (s t : sid) : Prop :=
  ∃ y, ks_syms k !! s = Some y ∧ t ∈ sym_deps k y.

(** ** The part of a state the search keeps *)

Definition check_bits : Z := Z.lor SYMBOL_CHECK SYMBOL_CHECKED.
Definition sy_ccore (y : symbol) : symbol := sy_set_flags (clear_flag (sy_flags y) check_bits) y.
Definition ks_ccore (k : kstate) : kstate :=
  ks_set_syms (sy_ccore <$> ks_syms k) (ks_set_log [] k).

Definition on_stack (y : symbol) : bool := has_flag (sy_flags y) SYMBOL_CHECK.
Definition visited (y : symbol) : bool := has_flag (sy_flags y) SYMBOL_CHECKED.
Definition stack (k : kstate) (s : sid) : Prop := ∃ y, ks_syms k !! s = Some y ∧ on_stack y = true.
Definition seen (k : kstate) (s : sid) : Prop := ∃ y, ks_syms k !! s = Some y ∧ visited y = true.

(** The effect of a call: marks of the stack as before, more symbols seen,
    more output. *)
Record chframe (k k' : kstate) : Prop := {
  ch_core : ks_ccore k' = ks_ccore k;
  ch_stack : ∀ s, stack k' s ↔ stack k s;
  ch_seen : ∀ s, seen k s → seen k' s;
  ch_log : ks_log k `prefix_of` ks_log k';
}.

Lemma ccore_sym k k' s y :
  ks_ccore k' = ks_ccore k → ks_syms k !! s = Some y →
  ∃ y', ks_syms k' !! s = Some y' ∧ sy_ccore y' = sy_ccore y.
Proof.
  intros E H. assert (E' : sy_ccore <$> ks_syms k' = sy_ccore <$> ks_syms k).
  { by apply (f_equal ks_syms) in E. }
  assert (L : (sy_ccore <$> ks_syms k') !! s = Some (sy_ccore y)).
  { by rewrite E', lookup_fmap, H. }
  rewrite lookup_fmap in L. destruct (ks_syms k' !! s) as [y'|]; [|done]. apply (inj Some) in L. eauto.
Qed.
Lemma ccore_props k k' : ks_ccore k' = ks_ccore k → ks_props k' = ks_props k.
Proof. intros E. by apply (f_equal ks_props) in E. Qed.

Lemma sy_ccore_inv y y' :
  sy_ccore y' = sy_ccore y →
  sy_rev_dep y' = sy_rev_dep y ∧ sy_prop y' = sy_prop y ∧ is_choice y' = is_choice y.
Proof.
  destruct y as [? ? ? ? ? f], y' as [? ? ? ? ? f']. unfold sy_ccore. simpl. intros E. simplify_eq.
  split_and!; [done..|]. unfold is_choice. simpl. by apply (has_flag_masked f' f check_bits).
Qed.

Lemma ccore_depends k k' s t : ks_ccore k' = ks_ccore k → depends k s t → depends k' s t.
Proof.
  intros E (y & H & Ht). destruct (ccore_sym _ _ _ _ E H) as (y' & H' & (Er & Ep & Ec)%sy_ccore_inv).
  exists y'. split; [done|]. unfold sym_deps in *. by rewrite Er, Ep, Ec, (ccore_props _ _ E).
Qed.
Lemma ccore_tc k k' s t : ks_ccore k' = ks_ccore k → tc (depends k) s t → tc (depends k') s t.
Proof.
  intros E. induction 1 as [s t H|s u t H _ IH].
  - apply tc_once. by eapply ccore_depends.
  - eapply tc_l; [by eapply ccore_depends|done].
Qed.

Lemma chframe_refl k : chframe k k.
Proof. by split. Qed.
Lemma chframe_trans k1 k2 k3 : chframe k1 k2 → chframe k2 k3 → chframe k1 k3.
Proof.
  intros [A1 B1 C1 D1] [A2 B2 C2 D2]. split; [congruence| |auto|by etrans].
  intros s. by rewrite B2.
Qed.

(** A property whose expressions are dependency expressions, as far as the
    search looks at them. *)
Definition prop_wf (choice : bool) (x : property) : bool :=
  match pr_type x with
  | P_CHOICE | P_SELECT | P_DESELECT => true
  | P_DEFAULT => from_option wf_expr true (pr_visible x) && (choice || from_option wf_expr true (pr_expr x))
  | _ => from_option wf_expr true (pr_visible x)
  end.

(** All the pointers the search follows lead somewhere. *)
Record closed_deps (k : kstate) : Prop := {
  cd_props : ∀ s y p, ks_syms k !! s = Some y → p ∈ sy_prop y →
    ∃ x, ks_props k !! p = Some x ∧ prop_wf (is_choice y) x = true;
  cd_rev : ∀ s y, ks_syms k !! s = Some y → from_option wf_expr true (sy_rev_dep y) = true;
  cd_syms : ∀ s t, depends k s t → is_Some (ks_syms k !! t);
}.
Lemma closed_ccore k k' : ks_ccore k' = ks_ccore k → closed_deps k → closed_deps k'.
Proof.
  intros E [A A' B]. symmetry in E. split.
  - intros s y' p H' Hp. destruct (ccore_sym _ _ _ _ E H') as (y & H & (_ & Ep & Ec)%sy_ccore_inv).
    rewrite <-(ccore_props _ _ E), <-Ec. eapply A; [done|]. by rewrite Ep.
  - intros s y' H'. destruct (ccore_sym _ _ _ _ E H') as (y & H & (<- & _)%sy_ccore_inv). eauto.
  - intros s t Hd. apply (ccore_depends _ k) in Hd; [|done]. destruct (B _ _ Hd) as [y Hy].
    destruct (ccore_sym k k' t y (eq_sym E) Hy) as (? & ? & _). eauto.
Qed.

(** ** The number of symbols not seen *)

Definition unseen_set (k : kstate) : gset sid := dom (filter (λ p, visited p.2 = false) (ks_syms k)).
Definition unseen (k : kstate) : nat := size (unseen_set k).

Lemma elem_of_unseen k s :
  s ∈ unseen_set k ↔ ∃ y, ks_syms k !! s = Some y ∧ visited y = false.
Proof.
  unfold unseen_set. rewrite elem_of_dom. split.
  - intros [y H]. apply map_lookup_filter_Some in H as [? ?]. eauto.
  - intros (y & ? & ?). exists y. by apply map_lookup_filter_Some.
Qed.

Lemma unseen_frame k k' : ks_ccore k' = ks_ccore k → (∀ s, seen k s → seen k' s) →
  unseen_set k' ⊆ unseen_set k.
Proof.
  intros E Hs s. rewrite !elem_of_unseen. intros (y' & H' & N).
  destruct (ccore_sym k' k s y') as (y & H & _); [done..|]. exists y. split; [done|].
  destruct (visited y) eqn:V; [|done]. destruct (Hs s) as (? & ? & ?); [by exists y|]. congruence.
Qed.
Lemma unseen_le k k' : chframe k k' → unseen k' ≤ unseen k.
Proof. intros [C _ S _]. unfold unseen. apply subseteq_size. by apply unseen_frame. Qed.
Lemma unseen_bound k : unseen k ≤ size (ks_syms k).
Proof. unfold unseen, unseen_set. rewrite size_dom. apply map_subseteq_size, map_filter_subseteq. Qed.

(** ** Silence and noise *)

(** What has been visited and left is on no cycle. *)
Definition good (k : kstate) : Prop :=
  ∀ u, seen k u → ¬ stack k u → Acc (flip (depends k)) u.
(** The symbols on the stack depend on [s]. *)
Definition path (k : kstate) (s : sid) : Prop :=
  ∀ u, stack k u → u = s ∨ tc (depends k) u s.

Definition quiet (L : list sid) (r : option sid) (k k' : kstate) : Prop :=
  ks_log k' = ks_log k ∧ r = None ∧ good k' ∧ ∀ t, t ∈ L → seen k' t ∧ ¬ stack k' t.
Definition noisy (k k' : kstate) : Prop :=
  length (ks_log k) < length (ks_log k') ∧ ∃ u, tc (depends k) u u.

Lemma path_frame k k' s : chframe k k' → path k s → path k' s.
Proof.
  intros [C S _ _] P u Hu. apply S in Hu. destruct (P u Hu); [auto|right]. by eapply ccore_tc.
Qed.

Lemma noisy_after k k1 k' : chframe k1 k' → noisy k k1 → noisy k k'.
Proof. intros [_ _ _ [l E]] [L U]. split; [|done]. rewrite E, length_app. lia. Qed.
Lemma noisy_before k k1 k' : chframe k k1 → noisy k1 k' → noisy k k'.
Proof.
  intros [C _ _ [l E]] [L (u & U)]. split; [rewrite E, length_app in L; lia|].
  exists u. by eapply ccore_tc; [|done].
Qed.

Section Search.
Context (n : nat) (s : sid) (check : sid → K (option sid)).

Record searching (k : kstate) : Prop := {
  se_closed : closed_deps k;
  se_fuel : unseen k < n;
}.
Lemma searching_frame k k' : chframe k k' → searching k → searching k'.
Proof.
  intros F [A B]. split; [by eapply closed_ccore; [apply F|]|]. pose proof (unseen_le _ _ F). lia.
Qed.

(** A part of the search for [s] that visits [L]. *)
Definition visits (m : K (option sid)) (L : list sid) (k : kstate) : Prop :=
  spec False m k (λ r k', chframe k k' ∧ (good k → path k s → quiet L r k k' ∨ noisy k k')).

Context (Hcheck : ∀ t k, depends k s t → searching k → visits (check t) [t] k).

Lemma visits_none k : visits (mreturn None) [] k.
Proof.
  split; [apply chframe_refl|]. intros G _. left. split_and!; [done..|]. intros t Ht.
  by apply elem_of_nil in Ht.
Qed.

Lemma visits_seq (m1 m2 : K (option sid)) L1 L2 k :
  searching k → visits m1 L1 k → (∀ k1, searching k1 → chframe k k1 → visits m2 L2 k1) →
  visits (let! sym := m1 in match sym with Some s => mreturn (Some s) | None => m2 end) (L1 ++ L2) k.
Proof.
  intros Se H1 H2. eapply spec_bind; [exact H1|]. intros r k1 [F1 Q1]. destruct r as [u|].
  { split; [done|]. intros G P. destruct (Q1 G P) as [(_ & ? & _)|N]; [done|by right]. }
  eapply spec_mono; [apply H2; [by eapply searching_frame|done]|]. intros r k2 [F2 Q2]. simpl in *.
  split; [by eapply chframe_trans|]. intros G P.
  destruct (Q1 G P) as [(E1 & _ & G1 & A1)|N]; [|right; by eapply noisy_after].
  destruct (Q2 G1 (path_frame _ _ _ F1 P)) as [(E2 & -> & G2 & A2)|N]; [|right; by eapply noisy_before].
  left. split_and!; [congruence|done..|]. intros t [Ht|Ht]%elem_of_app; [|auto].
  destruct (A1 t Ht) as [A B]. split; [by apply (ch_seen _ _ F2)|]. by rewrite (ch_stack _ _ F2).
Qed.

Lemma visits_get_sym u y (f : symbol → K (option sid)) L k :
  ks_syms k !! u = Some y → visits (f y) L k → visits (mthen (get_sym u) f) L k.
Proof. intros H. unfold visits, spec, mthen, get_sym. by rewrite H. Qed.
Lemma visits_get_prop p x (f : property → K (option sid)) L k :
  ks_props k !! p = Some x → visits (f x) L k → visits (mthen (get_prop p) f) L k.
Proof. intros H. unfold visits, spec, mthen, get_prop. by rewrite H. Qed.

Lemma visits_expr e k :
  wf_expr e = true → (∀ t, t ∈ dep_syms e → depends k s t) → searching k →
  visits (check_expr check e) (dep_syms e) k.
Proof.
  revert k. induction e as [l IHl r IHr|l IHl r IHr|l IHl|a b|a b| |t|]; simpl; intros k W Hd Se; try done.
  - apply andb_true_iff in W as [Wl Wr]. apply visits_seq; [done|apply IHl; [done|set_solver|done]|].
    intros k1 S1 F1. apply IHr; [done| |done]. intros t Ht. eapply ccore_depends; [apply F1|set_solver].
  - apply andb_true_iff in W as [Wl Wr]. apply visits_seq; [done|apply IHl; [done|set_solver|done]|].
    intros k1 S1 F1. apply IHr; [done| |done]. intros t Ht. eapply ccore_depends; [apply F1|set_solver].
  - by apply IHl.
  - apply (visits_seq _ _ [a] [b]); [done|apply Hcheck; [set_solver|done]|].
    intros k1 S1 F1. apply Hcheck; [|done]. eapply ccore_depends; [apply F1|set_solver].
  - apply (visits_seq _ _ [a] [b]); [done|apply Hcheck; [set_solver|done]|].
    intros k1 S1 F1. apply Hcheck; [|done]. eapply ccore_depends; [apply F1|set_solver].
  - apply Hcheck; [set_solver|done].
Qed.

Lemma visits_oexpr e k :
  from_option wf_expr true e = true → (∀ t, t ∈ odep_syms e → depends k s t) → searching k →
  visits (sym_check_expr_deps check e) (odep_syms e) k.
Proof. destruct e; simpl; [apply visits_expr|]. intros _ _ _. apply visits_none. Qed.

Definition props_deps (k : kstate) (choice : bool) (l : list pid) : list sid :=
  concat (map (λ p, from_option (prop_deps choice) [] (ks_props k !! p)) l).

(** The last part of the loop body: the expression of a default. *)
Lemma visits_default choice x (rest : K (option sid)) Lr k :
  (∃ y, ks_syms k !! s = Some y ∧ is_choice y = choice) →
  pr_type x ≠ P_CHOICE ∧ pr_type x ≠ P_SELECT ∧ pr_type x ≠ P_DESELECT →
  prop_wf choice x = true → (∀ t, t ∈ prop_deps choice x → depends k s t) → searching k →
  (∀ k1, searching k1 → chframe k k1 → visits rest Lr k1) →
  visits
    (let! sym2 := sym_check_expr_deps check (pr_visible x) in
     match sym2 with
     | Some s2 => mreturn (Some s2)
     | None =>
         let! y := get_sym s in
         if decide (pr_type x ≠ P_DEFAULT ∨ is_choice y = true) then rest
         else
           let! sym2 := sym_check_expr_deps check (pr_expr x) in
           match sym2 with Some s2 => mreturn (Some s2) | None => rest end
     end) (prop_deps choice x ++ Lr) k.
Proof.
  intros (y & H & Hc) (T1 & T2 & T3) W Hd Se R.
  assert (D : ∃ M, prop_deps choice x = odep_syms (pr_visible x) ++ M ∧
    from_option wf_expr true (pr_visible x) = true ∧
    ((pr_type x ≠ P_DEFAULT ∨ choice = true) ∧ M = [] ∨
     (pr_type x = P_DEFAULT ∧ choice = false) ∧ M = odep_syms (pr_expr x) ∧ from_option wf_expr true (pr_expr x) = true)).
  { unfold prop_deps, prop_wf in *. destruct (pr_type x) eqn:T; try done;
      try (exists []; rewrite app_nil_r; split_and!; [done|done|left; split; [by left|done]]).
    apply andb_true_iff in W as [W1 W2]. destruct choice.
    - exists []. split_and!; [done..|]. left. split; [by right|done].
    - eexists. split_and!; [done..|]. right. by split_and!. }
  destruct D as (M & ED & Wv & Hm). rewrite ED in *. rewrite <-app_assoc.
  apply visits_seq; [done|apply visits_oexpr; [done|intros t Ht; apply Hd, elem_of_app; by left|done]|].
  intros k1 S1 F1. pose proof (ch_core _ _ F1) as C1.
  destruct (ccore_sym _ _ _ _ C1 H) as (y1 & H1 & (_ & _ & Ec)%sy_ccore_inv).
  eapply visits_get_sym; [done|]. rewrite Ec, Hc. destruct Hm as [[Hs ->]|([Ht ->] & -> & We)].
  - rewrite decide_True by done. by apply R.
  - rewrite decide_False by (intros [?|?]; done).
    apply visits_seq; [done|apply visits_oexpr; [done| |done]|].
    + intros t Hin. eapply ccore_depends; [exact C1|set_solver].
    + intros k2 S2 F2. apply R; [done|by eapply chframe_trans].
Qed.

Lemma visits_props choice l k :
  (∃ y, ks_syms k !! s = Some y ∧ is_choice y = choice) →
  (∀ p, p ∈ l → ∃ x, ks_props k !! p = Some x ∧ prop_wf choice x = true) →
  (∀ t, t ∈ props_deps k choice l → depends k s t) → searching k →
  visits (check_props check s l) (props_deps k choice l) k.
Proof.
  revert k. induction l as [|p l IH]; intros k Hy Hl Hd Se; [apply visits_none|].
  destruct (Hl p) as (x & Hx & W); [by left|].
  assert (E : props_deps k choice (p :: l) = prop_deps choice x ++ props_deps k choice l).
  { unfold props_deps. simpl. by rewrite Hx. }
  rewrite E in *. cbn [check_props].
  assert (R : ∀ k1, searching k1 → chframe k k1 → visits (check_props check s l) (props_deps k choice l) k1).
  { intros k1 S1 F1. pose proof (ch_core _ _ F1) as C1.
    assert (Ek : props_deps k choice l = props_deps k1 choice l).
    { unfold props_deps. by rewrite (ccore_props _ _ C1). }
    rewrite Ek. apply IH; [| | |done].
    - destruct Hy as (y & H & <-). destruct (ccore_sym _ _ _ _ C1 H) as (y1 & H1 & (_ & _ & Ec)%sy_ccore_inv).
      by exists y1.
    - intros q Hq. rewrite (ccore_props _ _ C1). apply Hl. by right.
    - intros t Ht. eapply ccore_depends; [exact C1|]. apply Hd, elem_of_app. right. by rewrite Ek. }
  eapply visits_get_prop; [done|]. case_decide as Sk.
  - replace (prop_deps choice x) with (@nil sid); [by apply R, chframe_refl|].
    unfold prop_deps. by destruct Sk as [-> |[-> | ->]].
  - apply visits_default; try done; [tauto|]. intros t Ht. apply Hd, elem_of_app. by left.
Qed.
End Search.

(** ** The recursion *)

Lemma Acc_ccore k k' u :
  ks_ccore k' = ks_ccore k → Acc (flip (depends k)) u → Acc (flip (depends k')) u.
Proof.
  intros E. induction 1 as [u _ IH]. constructor. intros t Ht. apply IH.
  unfold flip in *. by eapply ccore_depends.
Qed.

(** The store with other check flags on [s]. *)
Definition with_flags (s : sid) (f : Z → Z) (y : symbol) (k : kstate) : kstate :=
  ks_set_syms (<[s := sy_set_flags (f (sy_flags y)) y]> (ks_syms k)) k.

Lemma with_flags_core s f y k :
  ks_syms k !! s = Some y → clear_flag (f (sy_flags y)) check_bits = clear_flag (sy_flags y) check_bits →
  ks_ccore (with_flags s f y k) = ks_ccore k.
Proof.
  intros H E. unfold ks_ccore, with_flags, ks_set_syms. simpl. f_equal.
  rewrite fmap_insert. apply insert_id. rewrite lookup_fmap, H. simpl. f_equal.
  unfold sy_ccore. simpl. by rewrite E.
Qed.

Lemma with_flags_stack s f y k u :
  stack (with_flags s f y k) u ↔
  (u = s ∧ has_flag (f (sy_flags y)) SYMBOL_CHECK = true) ∨ (u ≠ s ∧ stack k u).
Proof.
  unfold stack, with_flags. simpl. destruct (decide (u = s)) as [->|Hne].
  - rewrite lookup_insert_eq. split; [intros (? & [= <-] & ?); auto|intros [[_ ?]|[? _]]; [eauto|done]].
  - rewrite lookup_insert_ne by done. split; [auto|intros [[? _]|[_ ?]]; done].
Qed.
Lemma with_flags_seen s f y k u :
  seen (with_flags s f y k) u ↔
  (u = s ∧ has_flag (f (sy_flags y)) SYMBOL_CHECKED = true) ∨ (u ≠ s ∧ seen k u).
Proof.
  unfold seen, with_flags. simpl. destruct (decide (u = s)) as [->|Hne].
  - rewrite lookup_insert_eq. split; [intros (? & [= <-] & ?); auto|intros [[_ ?]|[? _]]; [eauto|done]].
  - rewrite lookup_insert_ne by done. split; [auto|intros [[? _]|[_ ?]]; done].
Qed.

(** [s] as it is put on the stack and taken off it. *)
Definition enter (s : sid) : symbol → kstate → kstate := with_flags s (λ f, set_flag f check_bits).
Definition leave (s : sid) : symbol → kstate → kstate := with_flags s (λ f, clear_flag f SYMBOL_CHECK).

Lemma enter_stack s y k u : stack (enter s y k) u ↔ u = s ∨ (u ≠ s ∧ stack k u).
Proof. unfold enter. rewrite with_flags_stack, has_flag_set, orb_true_r. tauto. Qed.
Lemma enter_seen s y k u : seen (enter s y k) u ↔ u = s ∨ (u ≠ s ∧ seen k u).
Proof. unfold enter. rewrite with_flags_seen, has_flag_set, orb_true_r. tauto. Qed.
Lemma enter_core s y k : ks_syms k !! s = Some y → ks_ccore (enter s y k) = ks_ccore k.
Proof. intros H. apply with_flags_core; [done|]. by rewrite clear_set_masked. Qed.
Lemma leave_stack s y k u : stack (leave s y k) u ↔ u ≠ s ∧ stack k u.
Proof. unfold leave. rewrite with_flags_stack, has_flag_cleared. intuition done. Qed.
Lemma leave_seen s y k u : ks_syms k !! s = Some y → seen (leave s y k) u ↔ seen k u.
Proof.
  intros H. unfold leave. rewrite with_flags_seen, has_flag_clear by done. fold (visited y).
  split; [intros [[-> ?]|[_ ?]]; [by exists y|done]|].
  intros Hs. destruct (decide (u = s)) as [->|]; [|auto]. left. destruct Hs as (? & ? & ?). split; congruence.
Qed.
Lemma leave_core s y k : ks_syms k !! s = Some y → ks_ccore (leave s y k) = ks_ccore k.
Proof. intros H. apply with_flags_core; [done|]. by rewrite clear_clear_masked. Qed.

Lemma enter_unseen s y k :
  ks_syms k !! s = Some y → visited y = false → unseen (enter s y k) < unseen k.
Proof.
  intros H V. unfold unseen. apply subset_size. split.
  - apply unseen_frame; [by apply enter_core|]. intros u Hu. apply enter_seen.
    destruct (decide (u = s)); auto.
  - intros Hs. assert (Hin : s ∈ unseen_set k) by (apply elem_of_unseen; eauto).
    apply Hs, elem_of_unseen in Hin as (y' & H' & V').
    assert (E : seen (enter s y k) s) by (apply enter_seen; auto).
    destruct E as (? & ? & ?). congruence.
Qed.

(** The state in the middle of a call is as good as the one before it. *)
Lemma enter_good s y k :
  ks_syms k !! s = Some y → good k → good (enter s y k).
Proof.
  intros H G u Hu Hn. rewrite enter_stack in Hn. apply enter_seen in Hu as [->|[Hne Hu]]; [tauto|].
  apply (Acc_ccore k); [by apply enter_core|]. apply G; [done|]. tauto.
Qed.
Lemma enter_path s y k :
  ks_syms k !! s = Some y → (∀ u, stack k u → tc (depends k) u s) → path (enter s y k) s.
Proof.
  intros H P u [->|[_ Hu]]%enter_stack; [auto|right].
  eapply ccore_tc; [by apply enter_core|auto].
Qed.

(** The end of [sym_check_deps]: the chain is printed, [s] leaves the stack. *)
Lemma finish_run s r2 k y :
  ks_syms k !! s = Some y →
  ∃ r l, (let! sym2 :=
      match r2 with
      | None => mreturn None
      | Some s2 =>
          do! log (MsgChain s) in
          if decide (s2 = s) then do! log MsgChainEnd in mreturn None else mreturn (Some s2)
      end in
    do! clear_flags s SYMBOL_CHECK in
    mreturn sym2) k = Done (r, leave s y (ks_set_log (ks_log k ++ l) k)) ∧
    (r2 = None → r = None ∧ l = []).
Proof.
  intros H. unfold clear_flags, upd_sym, mthen. destruct r2 as [s2|]; simpl.
  - case_decide; simpl.
    + unfold get_sym. simpl. rewrite H. eexists _, [MsgChain s; MsgChainEnd].
      split; [|done]. simpl. unfold leave, with_flags. do 3 f_equal. simpl. by rewrite <-app_assoc.
    + unfold get_sym. simpl. rewrite H. by eexists _, [MsgChain s].
  - unfold get_sym. rewrite H. exists None, []. split; [|done]. simpl. rewrite app_nil_r. by destruct k.
Qed.

(** A complete call as a step from [k], given the search from [enter s y k]. *)
Lemma call_frame s y y2 k k2 l :
  ks_syms k !! s = Some y → on_stack y = false → chframe (enter s y k) k2 → ks_syms k2 !! s = Some y2 →
  chframe k (leave s y2 (ks_set_log (ks_log k2 ++ l) k2)).
Proof.
  intros H N [C S V [m L]] H2.
  assert (Ns : ¬ stack k s) by (intros (? & ? & ?); congruence). split.
  - rewrite leave_core by done. change (ks_ccore (ks_set_log _ k2)) with (ks_ccore k2).
    rewrite C. by apply enter_core.
  - intros u. rewrite leave_stack. change (stack (ks_set_log _ k2) u) with (stack k2 u).
    rewrite S, enter_stack. split; [tauto|]. intros Hu. split; [by intros ->|]. right.
    split; [by intros ->|done].
  - intros u Hu. rewrite leave_seen by done. change (stack (ks_set_log _ k2) u) with (stack k2 u).
    apply V, enter_seen. destruct (decide (u = s)); auto.
  - simpl. rewrite L. simpl. rewrite <-app_assoc. by eexists.
Qed.

Lemma call_good s y y2 k k2 :
  ks_syms k !! s = Some y → chframe (enter s y k) k2 → ks_syms k2 !! s = Some y2 → good k2 →
  (∀ t, depends k s t → seen k2 t ∧ ¬ stack k2 t) → good (leave s y2 k2).
Proof.
  intros H F H2 G A u Hu Hn. rewrite leave_stack in Hn. rewrite leave_seen in Hu by done.
  pose proof (leave_core s y2 k2 H2) as C2.
  apply (Acc_ccore k2); [done|]. destruct (decide (u = s)) as [->|Hne]; [|apply G; tauto].
  constructor. intros t Ht. unfold flip in Ht.
  destruct (A t) as [Hs Hk]; [|by apply G].
  eapply ccore_depends; [|done]. rewrite <-(enter_core s y k H). symmetry. apply F.
Qed.

Lemma spec_assoc (C : Prop) {A B D} (m : K A) (f : A → K B) (g : B → K D) k Q :
  spec C (mthen (mthen m f) g) k Q → spec C (mthen m (λ a, mthen (f a) g)) k Q.
Proof. unfold spec, mthen. by destruct (m k) as [[a k1]| |]. Qed.

(** The search proper, after [s] was put on the stack. *)
Lemma search_visits n s y k check :
  closed_deps k → unseen k < S n → ks_syms k !! s = Some y → visited y = false →
  (∀ t k, depends k s t → searching n k → visits s (check t) [t] k) →
  visits s
    (let! sym2 := sym_check_expr_deps check (sy_rev_dep y) in
     match sym2 with Some s2 => mreturn (Some s2) | None => check_props check s (sy_prop y) end)
    (sym_deps k y) (enter s y k).
Proof.
  intros Cl F H V Hc. pose proof (enter_core s y k H) as C. pose proof (enter_unseen s y k H V) as U.
  assert (Se : searching n (enter s y k)) by (split; [by eapply closed_ccore|lia]).
  assert (Hd : ∀ t, t ∈ sym_deps k y → depends (enter s y k) s t).
  { intros t Ht. eapply ccore_depends; [exact C|]. by exists y. }
  assert (Hy : ∃ y', ks_syms (enter s y k) !! s = Some y' ∧ is_choice y' = is_choice y).
  { destruct (ccore_sym _ _ _ _ C H) as (y' & H' & (_ & _ & ?)%sy_ccore_inv). by exists y'. }
  apply (visits_seq n); [done|apply (visits_oexpr n); [done| | |done]|].
  - apply (cd_rev k Cl s y H).
  - intros t Ht. apply Hd, elem_of_app. by left.
  - intros k1 S1 F1. pose proof (ch_core _ _ F1) as C1.
    assert (Ek : ∀ l, props_deps k (is_choice y) l = props_deps k1 (is_choice y) l).
    { intros l. unfold props_deps. by rewrite (ccore_props _ _ C1). }
    fold (props_deps k (is_choice y) (sy_prop y)). rewrite Ek.
    apply (visits_props n); [done| | | |done].
    + destruct Hy as (y' & H' & E'). destruct (ccore_sym _ _ _ _ C1 H') as (y1 & H1 & (_ & _ & E1)%sy_ccore_inv).
      exists y1. split; congruence.
    + intros p Hp. rewrite (ccore_props _ _ C1). by apply (cd_props k Cl s y p).
    + intros t Ht. eapply ccore_depends; [exact C1|]. apply Hd, elem_of_app. right. rewrite <-Ek in Ht. done.
Qed.

Lemma check_visits n s k :
  closed_deps k → unseen k < n → is_Some (ks_syms k !! s) →
  spec False (sym_check_deps_f n s) k (λ r k', chframe k k' ∧
    (good k → (∀ u, stack k u → tc (depends k) u s) → quiet [s] r k k' ∨ noisy k k')).
Proof.
  revert s k. induction n as [|n IH]; intros s k Cl F [y H]; [lia|]. cbn [sym_check_deps_f].
  unfold check_body. unfold spec, mthen at 1. rewrite (run_get_sym _ _ _ H).
  fold (on_stack y) (visited y). destruct (on_stack y) eqn:N.
  { simpl. split; [by split; [..|by eexists]|]. intros _ P. right. split; [simpl; rewrite length_app; simpl; lia|].
    exists s. apply P. by exists y. }
  destruct (visited y) eqn:V.
  { simpl. split; [apply chframe_refl|]. intros G _. left. split_and!; [done..|].
    intros t ->%list_elem_of_singleton. split; [by exists y|]. intros (? & ? & ?). congruence. }
  unfold or_flags, upd_sym at 1, mthen at 1 2. rewrite (run_get_sym _ _ _ H). simpl.
  change (ks_set_syms _ k) with (enter s y k).
  assert (Hc : ∀ t k, depends k s t → searching n k → visits s (sym_check_deps_f n t) [t] k).
  { intros t k1 Hd [Cl1 F1]. eapply spec_mono; [apply IH; [done..|by eapply cd_syms]|].
    intros r k2 [Fr Q]. split; [done|]. intros G P. apply Q; [done|]. intros u Hu.
    destruct (P u Hu) as [->|Ht]; [by apply tc_once|by eapply tc_r]. }
  pose proof (search_visits n s y k _ Cl F H V Hc) as Hv.
  eapply spec_assoc, spec_bind; [exact Hv|]. intros r2 k2 [F2 Q2]. simpl in F2, Q2.
  pose proof (ch_core _ _ F2) as C2. rewrite (enter_core s y k H) in C2.
  destruct (ccore_sym _ _ _ _ C2 H) as (y2 & H2 & _).
  destruct (finish_run s r2 k2 y2 H2) as (r & l & E & Hn). unfold spec. rewrite E.
  pose proof (call_frame s y y2 k k2 l H N F2 H2) as Fr. split; [done|]. intros G P.
  destruct (Q2 (enter_good s y k H G) (enter_path s y k H P)) as [(El & -> & G2 & A2)|Nz].
  - destruct (Hn eq_refl) as [-> ->]. left. rewrite app_nil_r in *.
    assert (ks_set_log (ks_log k2) k2 = k2) as Ek by (by destruct k2). rewrite Ek in *.
    split_and!; [done..| |].
    + apply (call_good s y y2 k k2 H F2 H2 G2). intros t (y' & H' & Ht). apply A2. assert (y' = y) as -> by congruence. done.
    + intros t ->%list_elem_of_singleton. rewrite leave_stack. split; [|tauto].
      apply (leave_seen s y2 k2 s H2), (ch_seen _ _ F2), enter_seen. auto.
  - right. destruct Nz as [L (u & U)]. split; [simpl in *; rewrite length_app; lia|].
    exists u. eapply ccore_tc; [symmetry; by apply enter_core|done].
Qed.

(** ** All symbols *)

Lemma acc_no_cycle k s : Acc (flip (depends k)) s → ¬ tc (depends k) s s.
Proof.
  induction 1 as [s _ IH]. intros Hs. inversion Hs as [? ? H|? t ? H Ht]; subst.
  - by apply (IH s).
  - apply (IH t); [done|]. by eapply tc_r.
Qed.

Definition clean (k : kstate) : Prop := good k ∧ ∀ u, ¬ stack k u.

Definition check_one (s : sid) : K () :=
  let! y := get_sym s in
  if decide (sy_type y = S_OTHER) then mreturn () else do! sym_check_deps s in mreturn ().

(** What a check of the symbols [l] tells. *)
Definition told (l : list sid) (k k' : kstate) : Prop :=
  ks_log k' = ks_log k ∧ clean k' ∧
    (∀ t y, t ∈ l → ks_syms k !! t = Some y → sy_type y ≠ S_OTHER → seen k' t)
  ∨ noisy k k'.

Lemma check_one_spec s k :
  closed_deps k → is_Some (ks_syms k !! s) →
  spec False (check_one s) k (λ _ k', chframe k k' ∧ (clean k → told [s] k k')).
Proof.
  intros Cl [y H]. unfold spec, check_one, mthen. rewrite (run_get_sym _ _ _ H). case_decide as T.
  { split; [apply chframe_refl|]. intros Cn. left. split_and!; [done|apply Cn..|].
    intros t z ->%list_elem_of_singleton Hz Tz. congruence. }
  assert (F : unseen k < calc_fuel k) by (unfold calc_fuel; pose proof (unseen_bound k); lia).
  pose proof (check_visits (calc_fuel k) s k Cl F (ex_intro _ y H)) as S. unfold spec in S.
  assert (E : sym_check_deps s k = sym_check_deps_f (calc_fuel k) s k) by done. rewrite E.
  destruct (sym_check_deps_f _ s k) as [[r k']| |]; [|done..]. destruct S as [Fr Q]. split; [done|].
  intros [G N]. destruct Q as [(El & _ & G' & A)|Nz]; [done|intros u Hu; by destruct (N u)| |by right].
  left. split_and!; [done| |].
  - split; [done|]. intros u. rewrite (ch_stack _ _ Fr). apply N.
  - intros t z Ht _ _. by apply A.
Qed.

Lemma sy_ccore_type y y' : sy_ccore y' = sy_ccore y → sy_type y' = sy_type y.
Proof. by intros E%(f_equal sy_type). Qed.

Lemma told_trans s l k k1 k2 :
  chframe k k1 → chframe k1 k2 → told [s] k k1 → (clean k1 → told l k1 k2) → told (s :: l) k k2.
Proof.
  intros F1 F2 [(L1 & C1 & A1)|N] T2; [|right; by eapply noisy_after].
  destruct (T2 C1) as [(L2 & C2 & A2)|N]; [|right; by eapply noisy_before].
  left. split_and!; [congruence|apply C2..|]. intros t y [->|Ht]%elem_of_cons H Ty.
  - apply (ch_seen _ _ F2). apply (A1 s y); [by apply list_elem_of_singleton|done..].
  - destruct (ccore_sym k k1 t y (ch_core _ _ F1) H) as (y1 & H1 & E%sy_ccore_type).
    apply (A2 t y1); [done..|congruence].
Qed.

Lemma check_list l k :
  closed_deps k → (∀ t, t ∈ l → is_Some (ks_syms k !! t)) →
  spec False (miter check_one l) k (λ _ k', chframe k k' ∧ (clean k → told l k k')).
Proof.
  revert k. induction l as [|s l IH]; intros k Cl Hl.
  { split; [apply chframe_refl|]. intros Cn. left. split_and!; [done|apply Cn..|]. intros t y Ht.
    by apply elem_of_nil in Ht. }
  simpl. eapply spec_bind; [apply check_one_spec; [done|apply Hl; by left]|].
  intros [] k1 [F1 T1]. eapply spec_mono; [apply IH|].
  - eapply closed_ccore; [apply F1|done].
  - intros t Ht. destruct (Hl t) as [z Hz]; [by right|].
    destruct (ccore_sym k k1 t z (ch_core _ _ F1) Hz) as (? & ? & _). eauto.
  - intros [] k2 [F2 T2]. split; [by eapply chframe_trans|]. intros Cn.
    apply (told_trans s l k k1); auto.
Qed.

Lemma clean_start k :
  (∀ s y, ks_syms k !! s = Some y → on_stack y = false ∧ visited y = false) → clean k.
Proof.
  intros H. split.
  - intros u (y & Hy & V). destruct (H u y Hy). congruence.
  - intros u (y & Hy & V). destruct (H u y Hy). congruence.
Qed.

(** All the symbols of the table. *)
Lemma check_all_told k :
  closed_deps k → (∀ t, t ∈ hash_syms k → is_Some (ks_syms k !! t)) →
  (∀ s y, ks_syms k !! s = Some y → on_stack y = false ∧ visited y = false) →
  ∃ k', check_all_deps k = Done ((), k') ∧ chframe k k' ∧
    (ks_log k' = ks_log k → ∀ s y, s ∈ hash_syms k → ks_syms k !! s = Some y → sy_type y ≠ S_OTHER →
       ¬ tc (depends k) s s) ∧
    (ks_log k' ≠ ks_log k → ∃ s, tc (depends k) s s).
Proof.
  intros Cl Hl Hm. pose proof (check_list (hash_syms k) k Cl Hl) as S. unfold spec in S.
  assert (E : check_all_deps k = miter check_one (hash_syms k) k) by done. rewrite E.
  destruct (miter check_one (hash_syms k) k) as [[[] k']| |]; [|done..]. destruct S as [F T].
  exists k'. split_and!; [done|done|..]; destruct (T (clean_start k Hm)) as [(L & [G N] & A)|[L U]].
  - intros _ s y Hs H Ty Cy. apply (acc_no_cycle k' s); [|eapply ccore_tc; [apply F|done]].
    apply G; [by eapply A|apply N].
  - intros L'. rewrite L' in L. lia.
  - done.
  - by intros _.
Qed.
