(* ===== verification/KSymUnique.v ===== *)
(** * The values do not depend on the order of the calculation

    A store in which every symbol is calculated fixes the value that any other
    store with the same configuration can give to a valid symbol. *)
From S2P Require Import Prelude CLib KData KExpr KState KSymbol KSymFrame KSymRef KSymSolve.
Open Scope pr30_scope.

(** ** Symbols with the same dependencies *)

Definition same_shape (y1 y2 : symbol) : Prop :=
  sy_type y1 = sy_type y2 ∧ sy_prop y1 = sy_prop y2 ∧ sy_rev_dep y1 = sy_rev_dep y2 ∧
  sy_rev_dep_inv y1 = sy_rev_dep_inv y2.

Lemma shape_ref k y1 y2 :
  same_shape y1 y2 →
  ref_visible k y1 = ref_visible k y2 ∧ ref_deselected k y1 = ref_deselected k y2 ∧
  ref_rev k y1 = ref_rev k y2 ∧ ref_default k y1 = ref_default k y2.
Proof.
  intros (Ht & Hp & Hr & Hi). unfold ref_visible, ref_rev, ref_default, ref_deselected.
  by rewrite Ht, Hp, Hr, Hi.
Qed.

Lemma ref_visible_deselected k y v :
  ref_visible k y = Some v → ∃ d, ref_deselected k y = Some d.
Proof. unfold ref_visible. intros H. opt_step H. opt_step H. eauto. Qed.

(** The bounds of a boolean or tristate symbol are those of any store that
    agrees on what it reads. *)
Lemma unique_bounds k1 k2 s y1 y2 :
  agree (reads k2 s) k2 k1 → ks_syms k1 !! s = Some y1 → ks_syms k2 !! s = Some y2 →
  same_shape y1 y2 → solved k1 s → solved k2 s →
  sy_type y1 = S_BOOLEAN ∨ sy_type y1 = S_TRISTATE →
  sy_visible y1 = sy_visible y2 ∧
  ∃ d, ref_deselected k1 y1 = Some d ∧ ref_deselected k1 y2 = Some d ∧
       (d = false → sy_rev_dep_tri y1 = sy_rev_dep_tri y2).
Proof.
  intros Ag H1 H2 Sh (z1 & L1 & _ & S1) (z2 & L2 & _ & S2) T.
  assert (z1 = y1) as -> by congruence. assert (z2 = y2) as -> by congruence.
  assert (Hy : ∀ t, t ∈ sym_reads k2 y2 → reads k2 s t) by (intros t Ht; by exists y2).
  destruct (shape_ref k1 y1 y2 Sh) as (Ev & Ed & Er & _). destruct Sh as (Et & _).
  assert (G : ref_visible k2 y2 = Some (sy_visible y2) ∧ ref_visible k1 y1 = Some (sy_visible y1) ∧
    (ref_deselected k2 y2 = Some false → ref_rev k2 y2 = Some (sy_rev_dep_tri y2)) ∧
    (ref_deselected k1 y1 = Some false → ref_rev k1 y1 = Some (sy_rev_dep_tri y1))).
  { unfold equations in S1, S2. rewrite <-Et in S2. destruct T as [T|T]; rewrite T in S1, S2; tauto. }
  destruct G as (V2 & V1 & R2 & R1). destruct (ref_visible_deselected _ _ _ V2) as [d D2].
  pose proof (ref_visible_stable _ _ _ Ag y2 Hy _ V2) as V2'.
  pose proof (ref_deselected_stable _ _ _ Ag y2 Hy _ D2) as D2'. split; [congruence|].
  exists d. split_and!; [congruence|done|]. intros ->.
  pose proof (ref_rev_stable _ _ _ Ag y2 Hy _ (R2 D2)) as R2'. rewrite <-Ed in D2'.
  specialize (R1 D2'). congruence.
Qed.

Lemma ref_logic_unique k y1 y2 d v1 v2 :
  sy_core y1 = sy_core y2 → sy_visible y1 = sy_visible y2 →
  ref_deselected k y1 = Some d → ref_deselected k y2 = Some d →
  (d = false → sy_rev_dep_tri y1 = sy_rev_dep_tri y2) →
  ref_logic k y1 = Some v1 → ref_logic k y2 = Some v2 → v1 = v2.
Proof.
  intros C V D1 D2 R. pose proof (ref_core k y2 y1 C) as (_ & _ & _ & Df).
  apply sy_core_inv in C as (_ & T & U & _ & _ & _ & Hv & _).
  unfold ref_logic. rewrite D1, D2, V, T, U, Hv, Df. destruct d; [congruence|].
  rewrite R by done. congruence.
Qed.

Lemma ref_string_unique k y1 y2 :
  sy_core y1 = sy_core y2 → sy_visible y1 = sy_visible y2 → ref_string k y1 = ref_string k y2.
Proof.
  intros C V. apply sy_core_inv in C as (_ & T & U & Pr & _ & _ & Hv & _).
  unfold ref_string, ref_plain, ref_range. by rewrite V, T, U, Pr, Hv.
Qed.

(** With the same settings too, the value is the same. *)
Lemma unique_value k1 k2 s y1 y2 :
  agree (reads k2 s) k2 k1 → ks_syms k1 !! s = Some y1 → ks_syms k2 !! s = Some y2 →
  sy_core y1 = sy_core y2 → solved k1 s → solved k2 s → val_eq y2 y1.
Proof.
  intros Ag H1 H2 C S1 S2. pose proof (sy_core_inv _ _ C) as (En & Et & _ & Ep & Er & Ei & _).
  pose proof (unique_bounds k1 k2 s y1 y2 Ag H1 H2 ltac:(by split_and!) S1 S2) as B.
  assert (Hy : ∀ t, t ∈ sym_reads k2 y2 → reads k2 s t) by (intros t Ht; by exists y2).
  destruct S1 as (z1 & L1 & _ & S1), S2 as (z2 & L2 & _ & S2). unfold equations in S1, S2.
  assert (z1 = y1) as -> by congruence. assert (z2 = y2) as -> by congruence.
  unfold val_eq, string_value. rewrite Et in S1 |- *. rewrite Et in B.
  assert (Lg : sy_type y2 = S_BOOLEAN ∨ sy_type y2 = S_TRISTATE →
    ref_logic k1 y1 = Some (sv_tri (sy_curr y1)) → ref_logic k2 y2 = Some (sv_tri (sy_curr y2)) →
    sv_tri (sy_curr y1) = sv_tri (sy_curr y2)).
  { intros T G1 G2. destruct (B T) as (V & d & D1 & D2 & R). eapply (ref_logic_unique k1 y1 y2 d); eauto.
    by apply (ref_logic_stable _ _ _ Ag y2 Hy). }
  assert (Sg : ∀ c1 c2, ref_visible k1 y1 = Some (sy_visible y1) → ref_visible k2 y2 = Some (sy_visible y2) →
    sy_curr y1 = SValue (VStr c1) No → ref_string k1 y1 = Some (cs_text c1) →
    sy_curr y2 = SValue (VStr c2) No → ref_string k2 y2 = Some (cs_text c2) →
    sv_tri (sy_curr y1) = sv_tri (sy_curr y2) ∧
    cval_text (sv_val (sy_curr y1)) = cval_text (sv_val (sy_curr y2))).
  { intros c1 c2 V1 V2 -> G1 -> G2. split; [done|]. simpl.
    apply (ref_visible_stable _ _ _ Ag y2 Hy) in V2. rewrite <-(proj1 (ref_core k1 y2 y1 C)) in V2.
    apply (ref_string_stable _ _ _ Ag y2 Hy) in G2.
    rewrite <-(ref_string_unique k1 y1 y2 C ltac:(congruence)) in G2. congruence. }
  destruct (sy_type y2).
  - destruct S1 as (c1 & N1 & ->), S2 as (c2 & N2 & ->). rewrite En in N1. by simplify_eq.
  - destruct S1 as (_ & _ & G1 & W1), S2 as (_ & _ & G2 & W2). rewrite W1, W2, Lg; auto.
  - destruct S1 as (_ & _ & G1 & W1), S2 as (_ & _ & G2 & W2). rewrite W1, W2, Lg; auto.
  - destruct S1 as (V1 & c1 & W1 & G1), S2 as (V2 & c2 & W2 & G2). destruct (Sg c1 c2); by auto.
  - destruct S1 as (V1 & c1 & W1 & G1), S2 as (V2 & c2 & W2 & G2). destruct (Sg c1 c2); by auto.
  - destruct S1 as (V1 & c1 & W1 & G1), S2 as (V2 & c2 & W2 & G2). destruct (Sg c1 c2); by auto.
  - destruct S1 as (c1 & N1 & ->), S2 as (c2 & N2 & ->). rewrite En in N1. by simplify_eq.
Qed.

(** ** Configurations that differ in the settings of some symbols *)

Record same_config (X : sid → Prop) (k1 k2 : kstate) : Prop := {
  sc_prop : pr_core <$> ks_props k1 = pr_core <$> ks_props k2;
  sc_sym : ∀ t y2, ks_syms k2 !! t = Some y2 →
    ∃ y1, ks_syms k1 !! t = Some y1 ∧ same_shape y1 y2 ∧ (¬ X t → sy_core y1 = sy_core y2);
}.

Lemma plain_sn k s : plain k → sn (reads k) s.
Proof.
  intros P. apply tc_finite_sn; [intros u; apply (pl_acyclic k P)|].
  exists (elements (dom (ks_syms k))). intros t Ht. apply elem_of_elements, elem_of_dom.
  induction Ht as [? ? Hr|? ? ? _ _ IH]; [|done]. by eapply pl_reads.
Qed.

Lemma unique_agree X k1 k2 s :
  plain k2 → same_config X k1 k2 → (∀ t, is_Some (ks_syms k1 !! t) → solved k1 t) →
  (∀ t, valid_in k2 t → solved k2 t) →
  (∀ x, X x → ¬ tc (reads k2) s x) → agree (reads k2 s) k2 k1.
Proof.
  intros P Sc A1 A2. induction (plain_sn k2 s P) as [s _ IH]. intros Hx. split; [|by apply (sc_prop _ _ _ Sc)].
  intros t y2 Ht Hs. destruct (ref_sym_valid _ _ _ Hs) as [V2 H2].
  assert (Xt : ¬ X t) by (intros Xt; by apply (Hx t Xt), tc_once).
  destruct (sc_sym _ _ _ Sc t y2 H2) as (y1 & H1 & _ & C). specialize (C Xt).
  assert (S1 : solved k1 t) by eauto. exists y1. split.
  - apply ref_sym_Some; [done|]. destruct S1 as (z & ? & ? & _). congruence.
  - eapply (unique_value k1 k2 t); eauto. apply IH; [done|]. intros x Xx Ht'.
    apply (Hx x Xx). by eapply tc_l.
Qed.
