(* ===== verification/KSymSet.v ===== *)
(** * Setting a value and calculating it again

    [sym_set_tristate_value] clears every calculated value and keeps the rest
    of the configuration; the next calculation of the symbol gives the value
    that was set. *)
From S2P Require Import Prelude CLib CStr KData KExpr KState KSymbol KSymFrame KSymRef KSymSolve KSymTab.
From S2P Require Import KSymUnique.
Open Scope pr30_scope.

(** Every valid symbol is solved. *)
Definition valid_solved (k : kstate) : Prop := ∀ s, valid_in k s → solved k s.

(** ** Changes of the marks of symbols and menus *)

(** Configuration and values are the same, the symbols of [D] may have lost
    their validity. *)
Record touch (D : sid → Prop) (k k' : kstate) : Prop := {
  to_core : ks_core k' = ks_core k;
  to_props : ks_props k' = ks_props k;
  to_sym : ∀ t y, ks_syms k !! t = Some y → ∃ y', ks_syms k' !! t = Some y' ∧ same_value y y' ∧
    (valid y' = true → valid y = true) ∧ (¬ D t → valid y' = valid y);
}.

Lemma touch_refl D k : touch D k k.
Proof. split; [done..|]. intros t y H. by exists y. Qed.
Lemma touch_trans D k1 k2 k3 : touch D k1 k2 → touch D k2 k3 → touch D k1 k3.
Proof.
  intros [C1 P1 S1] [C2 P2 S2]. split; [congruence..|]. intros t y H.
  destruct (S1 t y H) as (y1 & H1 & E1 & V1 & W1), (S2 t y1 H1) as (y2 & H2 & E2 & V2 & W2).
  exists y2. split_and!; [done|by eapply same_value_trans|auto|]. intros N. rewrite W2, W1; auto.
Qed.
Lemma touch_weaken (D E : sid → Prop) k k' : (∀ t, D t → E t) → touch D k k' → touch E k k'.
Proof.
  intros HD [C P S]. split; [done..|]. intros t y H. destruct (S t y H) as (y' & ? & ? & ? & W).
  exists y'. split_and!; auto.
Qed.
Lemma touch_exists D k k' t : touch D k k' → is_Some (ks_syms k !! t) → is_Some (ks_syms k' !! t).
Proof. intros T [y H]. destruct (to_sym _ _ _ T t y H) as (y' & ? & _). eauto. Qed.

(** Where a valid symbol of the new store comes from. *)
Lemma touch_back D k k' t y' :
  touch D k k' → ks_syms k' !! t = Some y' →
  ∃ y, ks_syms k !! t = Some y ∧ same_value y y' ∧ (valid y' = true → valid y = true) ∧
    (¬ D t → valid y' = valid y).
Proof.
  intros T H'. destruct (core_sym k' k t y' (eq_sym (to_core _ _ _ T)) H') as (y & H & _).
  destruct (to_sym _ _ _ T t y H) as (z & ? & ?). assert (z = y') as -> by congruence. eauto.
Qed.

(** ** What stays solved *)

Lemma same_value_ref k y y' :
  same_value y y' → ref_logic k y' = ref_logic k y ∧ ref_string k y' = ref_string k y.
Proof.
  intros (C & Ec & Ev & Er). pose proof (ref_core k y y' C) as (_ & R2 & _ & R4).
  split; [|by apply ref_string_unique]. pose proof (sy_core_inv _ _ C) as (_ & Et & Eu & _ & _ & _ & Eh & _).
  unfold ref_logic. by rewrite R2, R4, Ev, Er, Et, Eu, Eh.
Qed.

Lemma equations_same k s y y' : same_value y y' → equations k s y → equations k s y'.
Proof.
  intros Sv. unfold equations. destruct (same_value_ref k y y' Sv) as [-> ->].
  destruct Sv as (C & -> & -> & ->). destruct (ref_core k y y' C) as (-> & -> & -> & _).
  by pose proof (sy_core_inv _ _ C) as (-> & -> & _).
Qed.

Lemma solved_own k k' s y y' :
  agree (reads k s) k k' → ks_syms k !! s = Some y → ks_syms k' !! s = Some y' →
  same_value y y' → valid y' = true → solved k s → solved k' s.
Proof.
  intros Ag H H' Sv V (z & Hz & _ & E). assert (z = y) as -> by congruence. exists y'. split_and!; [done..|].
  apply (equations_same k' s y); [done|]. eapply equations_stable; [exact Ag| |done].
  intros t Ht. by exists y.
Qed.

Lemma same_value_eq y y' : same_value y y' → val_eq y y'.
Proof.
  intros (C & Ec & _). pose proof (sy_core_inv _ _ C) as (_ & Et & _).
  unfold val_eq, string_value. by rewrite Ec, Et.
Qed.

(** Marking symbols as changed spoils no value. *)
Lemma touch_solved k k' : touch (λ _, False) k k' → valid_solved k → valid_solved k'.
Proof.
  intros T A s (y' & H' & V'). destruct (touch_back _ _ _ _ _ T H') as (y & H & Sv & V & _).
  apply (solved_own k k' s y y'); [|done..|apply A; by exists y; auto].
  split; [|apply core_props, T]. intros t z _ Hz. destruct (ref_sym_valid _ _ _ Hz) as [(z0 & ? & Vz) ?].
  assert (z0 = z) as -> by congruence. destruct (to_sym _ _ _ T t z) as (z' & Hz' & E & _ & W); [done|].
  exists z'. split; [|by apply same_value_eq]. apply ref_sym_Some; [done|]. rewrite W; auto.
Qed.

(** A symbol without a type is solved whenever it was. *)
Lemma untyped_solved k k' s y y' :
  ks_syms k !! s = Some y → ks_syms k' !! s = Some y' → same_value y y' → valid y' = true →
  sy_type y = S_UNKNOWN ∨ sy_type y = S_OTHER → solved k s → solved k' s.
Proof.
  intros H H' Sv V T (z & Hz & _ & E). assert (z = y) as -> by congruence. exists y'. split_and!; [done..|].
  apply (equations_same k' s y); [done|]. unfold equations in *. by destruct T as [T|T]; rewrite T in *.
Qed.

(** ** Calculating one symbol and many *)

Definition const_valid (k : kstate) : Prop := valid_in k symbol_yes ∧ valid_in k symbol_mod.

Lemma done_valid s k k' u : done_by s k k' → valid_in k u → valid_in k' u.
Proof. intros D (y & H & V). exists y. rewrite (db_same _ _ _ D); [done|]. by exists y. Qed.

Lemma done_solved s k k' : done_by s k k' → valid_solved k → valid_solved k'.
Proof.
  intros D A u Vu. destruct (decide (valid_in k u)) as [V|N]; [|by apply (db_new _ _ _ D u)].
  eapply (solved_stable k); [|by apply (db_same _ _ _ D)|by apply A].
  apply agree_exact; [|apply core_props, D]. intros t _. apply (db_same _ _ _ D).
Qed.

Lemma calc_step k s :
  plain k → const_valid k → valid_solved k → is_Some (ks_syms k !! s) →
  ∃ k', sym_calc_value s k = Done ((), k') ∧ done_by s k k' ∧ valid_in k' s ∧ valid_solved k'.
Proof.
  intros P Cv A Hs. assert (F : invalid k < calc_fuel k).
  { unfold calc_fuel. pose proof (invalid_bound k). lia. }
  pose proof (calc_solves (calc_fuel k) s k P F Hs Cv (λ u _, A u)) as S. unfold spec in S.
  assert (E : sym_calc_value s k = sym_calc_value_f (calc_fuel k) s k) by done. rewrite E.
  destruct (sym_calc_value_f (calc_fuel k) s k) as [[[] k']| |]; [|done..].
  destruct S. exists k'. split_and!; [done..|]. by eapply done_solved.
Qed.

(** What calculating a list of symbols keeps and reaches. *)
Record calc_run (l : list sid) (k k' : kstate) : Prop := {
  cr_core : ks_core k' = ks_core k;
  cr_same : ∀ u, valid_in k u → ks_syms k' !! u = ks_syms k !! u;
  cr_valid : ∀ u, u ∈ l → valid_in k' u;
  cr_solved : valid_solved k';
}.

Lemma valid_kept k k' u :
  (∀ u, valid_in k u → ks_syms k' !! u = ks_syms k !! u) → valid_in k u → valid_in k' u.
Proof. intros S V. pose proof V as (y & H & ?). exists y. by rewrite S. Qed.

Lemma calc_list l k :
  plain k → const_valid k → valid_solved k → (∀ s, s ∈ l → is_Some (ks_syms k !! s)) →
  ∃ k', miter sym_calc_value l k = Done ((), k') ∧ calc_run l k k'.
Proof.
  revert k. induction l as [|s l IH]; intros k P Cv A Hl.
  { exists k. split; [done|]. split; [done..| |done]. intros u Hu. by apply elem_of_nil in Hu. }
  destruct (calc_step k s P Cv A) as (k1 & E1 & D1 & V1 & A1); [apply Hl; by left|].
  destruct (IH k1) as (k2 & E2 & R2); [by eapply plain_core; [apply D1|]| |done| |].
  - destruct Cv. split; by eapply done_valid.
  - intros u Hu. destruct (Hl u) as [y H]; [by right|].
    destruct (core_sym k k1 u y) as (? & ? & _); [apply D1|done|eauto].
  - exists k2. split; [simpl; unfold mthen; by rewrite E1|]. destruct R2 as [C2 S2 W2 A2].
    split; [rewrite C2; apply D1| | |done].
    + intros u Vu. rewrite S2 by (by eapply done_valid). by apply (db_same _ _ _ D1).
    + intros u [->|Hu]%elem_of_cons; [|auto]. by eapply valid_kept.
Qed.

(** ** Independence of the order *)

Lemma core_config X k1 k2 : ks_core k1 = ks_core k2 → same_config X k1 k2.
Proof.
  intros E. split; [by apply core_props|]. intros t y2 H2.
  destruct (core_sym k2 k1 t y2 E H2) as (y1 & H1 & C). exists y1. split_and!; [done| |done].
  pose proof (sy_core_inv _ _ C) as (_ & ? & _ & ? & ? & ? & _). by split_and!.
Qed.

Lemma order_value l1 l2 k k1 k2 s :
  plain k → (∀ t, is_Some (ks_syms k !! t) → t ∈ l1) → calc_run l1 k k1 → calc_run l2 k k2 →
  s ∈ l2 →
  ∃ y1 y2, ks_syms k1 !! s = Some y1 ∧ ks_syms k2 !! s = Some y2 ∧ val_eq y2 y1.
Proof.
  intros P L1 R1 R2 Hs. destruct (cr_valid _ _ _ R2 s Hs) as (y2 & H2 & V2).
  assert (C : ks_core k1 = ks_core k2) by (by rewrite (cr_core _ _ _ R1), (cr_core _ _ _ R2)).
  destruct (core_sym k2 k1 s y2 C H2) as (y1 & H1 & E). exists y1, y2. split_and!; [done..|].
  assert (A1 : ∀ t, is_Some (ks_syms k1 !! t) → solved k1 t).
  { intros t [z Hz]. apply (cr_solved _ _ _ R1), (cr_valid _ _ _ R1), L1.
    destruct (core_sym k1 k t z (eq_sym (cr_core _ _ _ R1)) Hz) as (? & ? & _). eauto. }
  apply (unique_value k1 k2 s y1 y2); [|done..|by eauto|apply (cr_solved _ _ _ R2); by exists y2].
  apply (unique_agree (λ _, False)); [|by apply core_config|done|apply R2|done].
  eapply plain_core; [apply R2|done].
Qed.

(** ** Marks *)

Lemma touch_upd D k s f :
  (∀ y, same_value y (f y)) → (∀ y, valid (f y) = true → valid y = true) →
  (∀ y, ¬ D s → valid (f y) = valid y) → is_Some (ks_syms k !! s) →
  spec False (upd_sym s f) k (λ _ k', touch D k k' ∧
    ∀ y, ks_syms k !! s = Some y → ks_syms k' !! s = Some (f y)).
Proof.
  intros Sv V W [y H]. unfold spec, upd_sym, mthen. rewrite (run_get_sym _ _ _ H). simpl. split; [split|].
  - unfold ks_core, ks_set_syms. simpl. f_equal. rewrite fmap_insert, (proj1 (Sv y)). apply insert_id.
    by rewrite lookup_fmap, H.
  - done.
  - intros t z Hz. simpl. destruct (decide (t = s)) as [->|Hne].
    + rewrite lookup_insert_eq. assert (z = y) as -> by congruence. exists (f y). split_and!; auto.
    + rewrite lookup_insert_ne by done. by exists z.
  - intros z Hz. assert (z = y) as -> by congruence. apply lookup_insert_eq.
Qed.

Lemma same_value_set y b : Z.ldiff b calc_bits = 0%Z → same_value y (sy_set_flags (set_flag (sy_flags y) b) y).
Proof. intros H. split_and!; try done. unfold sy_core. simpl. by rewrite clear_set_masked. Qed.
Lemma same_value_clear y b :
  Z.ldiff b calc_bits = 0%Z → same_value y (sy_set_flags (clear_flag (sy_flags y) b) y).
Proof. intros H. split_and!; try done. unfold sy_core. simpl. by rewrite clear_clear_masked. Qed.

Lemma touch_menu D k m f : (∀ z, mn_core (f z) = mn_core z) → is_Some (ks_menus k !! m) →
  spec False (upd_menu m f) k (λ _ k', touch D k k').
Proof.
  intros Hf [z Hz]. pose proof (fr_upd_menu (λ _, True) None m f Hf k Logic.I) as F.
  unfold spec, upd_menu, mthen, get_menu, mderef in F |- *. rewrite Hz in *. destruct F as [F _].
  split; [done..|]. intros t y H. by exists y.
Qed.

(** The properties of symbols exist, and their entries. *)
Definition props_there (k : kstate) : Prop := ∀ s y p, ks_syms k !! s = Some y → p ∈ sy_prop y →
  ∃ x, ks_props k !! p = Some x ∧ ∀ m, pr_menu x = Some m → is_Some (ks_menus k !! m).
Lemma plain_there k : plain k → props_there k.
Proof. intros P s y p H Hp. destruct (pl_props k P s y p H Hp) as (x & Hx & Hm & _). eauto. Qed.
Lemma there_core k k' : ks_core k' = ks_core k → props_there k → props_there k'.
Proof.
  intros C A s y' p H' Hp. destruct (core_sym k' k s y' (eq_sym C) H') as (y & H & (_ & _ & _ & Ep & _)%sy_core_inv).
  rewrite <-Ep in Hp. destruct (A s y p H Hp) as (x & Hx & Hm).
  destruct (core_prop k k' p x C Hx) as (x' & Hx' & (_ & _ & _ & _ & Em & _)%pr_core_inv). exists x'. split; [done|].
  intros m. rewrite Em. intros E. by eapply core_menu, Hm.
Qed.

Lemma spec_get_sym k s y {A} (f : symbol → K A) Q :
  ks_syms k !! s = Some y → spec False (f y) k Q → spec False (mthen (get_sym s) f) k Q.
Proof. intros H S. unfold spec, mthen. by rewrite (run_get_sym _ _ _ H). Qed.

(** A loop of steps that touch, over stores that stay well-formed. *)
Lemma touch_iter {A} D (f : A → K ()) (l : list A) k :
  props_there k → (∀ a k1, a ∈ l → props_there k1 → touch D k k1 → spec False (f a) k1 (λ _ k2, touch D k1 k2)) →
  spec False (miter f l) k (λ _ k', touch D k k').
Proof.
  intros P Hf. assert (G : ∀ k1, props_there k1 → touch D k k1 → spec False (miter f l) k1 (λ _ k', touch D k k')).
  2:{ apply G; [done|apply touch_refl]. }
  induction l as [|a l IH]; intros k1 P1 T1; [done|]. simpl.
  eapply spec_bind; [apply Hf; [by left|done..]|]. intros [] k2 T2. simpl in T2. apply IH.
  - intros b k3 Hb. apply Hf. by right.
  - by eapply there_core; [apply T2|].
  - by eapply touch_trans.
Qed.

Lemma touch_set_changed D k s :
  props_there k → is_Some (ks_syms k !! s) → spec False (sym_set_changed s) k (λ _ k', touch D k k').
Proof.
  intros P Hs. unfold sym_set_changed, or_flags. eapply spec_bind; [apply (touch_upd D); [..|done]|].
  - intros y. by apply same_value_set.
  - intros y. unfold valid. simpl. by rewrite has_flag_set, orb_false_r.
  - intros y _. unfold valid. simpl. by rewrite has_flag_set, orb_false_r.
  - intros [] k1 [T1 _]. destruct (touch_exists _ _ _ s T1 Hs) as [y H]. eapply spec_get_sym; [done|].
    assert (P1 : props_there k1) by (by eapply there_core; [apply T1|]).
    eapply spec_mono; [apply (touch_iter D); [done|]|intros ? ? T2; by eapply touch_trans].
    intros p k2 Hp P2 T2. destruct (to_sym _ _ _ T2 s y H) as (y2 & H2 & (C & _) & _).
    apply sy_core_inv in C as (_ & _ & _ & Ep & _). rewrite <-Ep in Hp.
    destruct (P2 s y2 p H2 Hp) as (x & Hx & Hm).
    unfold spec, mthen, get_prop. rewrite Hx. simpl. destruct (pr_menu x) as [m|].
    + by apply touch_menu; auto.
    + apply touch_refl.
Qed.

(** ** [sym_clear_all_valid] *)

(** What the table has to be like: the constants [y] and [m] are not in it, and
    a symbol that is not in it has no type. *)
Record listed (k : kstate) : Prop := {
  li_some : ∀ t, t ∈ hash_syms k → is_Some (ks_syms k !! t);
  li_yes : (symbol_yes ∉ hash_syms k) ∧ is_Some (ks_syms k !! symbol_yes);
  li_mod : (symbol_mod ∉ hash_syms k) ∧ is_Some (ks_syms k !! symbol_mod);
  li_all : ∀ t y, ks_syms k !! t = Some y → t ∈ hash_syms k ∨ sy_type y = S_UNKNOWN;
  li_modules : ∀ m, ks_modules_sym k = Some m → is_Some (ks_syms k !! m);
}.

Definition untyped (y : symbol) : Prop := sy_type y = S_UNKNOWN ∨ sy_type y = S_OTHER.
(** The constants are valid, and valid symbols without a type are solved. *)
Record untyped_solved_in (k : kstate) : Prop := {
  us_const : const_valid k;
  us_solved : ∀ s y, ks_syms k !! s = Some y → untyped y → valid y = true → solved k s;
}.
Lemma ready_untyped k : const_valid k → valid_solved k → untyped_solved_in k.
Proof. intros Cv A. split; [done|]. intros s y H _ V. apply A. by exists y. Qed.

Lemma core_exists k k' t : ks_core k' = ks_core k → is_Some (ks_syms k !! t) → is_Some (ks_syms k' !! t).
Proof. intros E [y H]. destruct (core_sym k k' t y E H) as (y' & ? & _). eauto. Qed.

Lemma listed_core k k' : ks_core k' = ks_core k → listed k → listed k'.
Proof.
  intros E [A B C D F]. assert (Eh : hash_syms k' = hash_syms k).
  { unfold hash_syms. by rewrite (f_equal ks_hash E : ks_hash k' = ks_hash k). }
  split; rewrite ?Eh.
  - intros t Ht. by apply (core_exists k), A.
  - destruct B. split; [done|by apply (core_exists k)].
  - destruct C. split; [done|by apply (core_exists k)].
  - intros t y' H'. destruct (core_sym k' k t y' (eq_sym E) H') as (y & H & (_ & <- & _)%sy_core_inv). eauto.
  - rewrite (f_equal ks_modules_sym E : ks_modules_sym k' = ks_modules_sym k). intros m Hm.
    by apply (core_exists k), F.
Qed.

Lemma listed_of k :
  hash_ok k → consts_ok k → (∀ m, ks_modules_sym k = Some m → is_Some (ks_syms k !! m)) → listed k.
Proof.
  intros Ho Co Hm.
  assert (N : ∀ s y c, ks_syms k !! s = Some y → sy_name y = Some c → is_Some (reserved (cs_text c)) →
    s ∉ hash_syms k).
  { intros s y c H En [r R] Hs. apply elem_of_hash_syms in Hs as (i & _ & Hi).
    destruct (ho_bucket k Ho i s Hi) as (y' & H' & Hh). assert (y' = y) as -> by congruence.
    rewrite En in Hh. simpl in Hh. by rewrite R in Hh. }
  destruct Co as [(y0 & H0 & C0 & N0) (y1 & H1 & C1 & N1) (y2 & H2 & C2 & N2) He Ht]. split; [| | | |done].
  - intros t Ht'. apply elem_of_hash_syms in Ht' as (i & _ & Hi).
    destruct (ho_bucket k Ho i t Hi) as (y & H & _). eauto.
  - split; [by apply (N _ _ _ H0 N0)|eauto].
  - split; [by apply (N _ _ _ H1 N1)|eauto].
  - intros t y H. destruct (ho_all k Ho t) as [Hle|]; [eauto| |by left]. right.
    assert (t = symbol_yes ∨ t = symbol_mod ∨ t = symbol_no ∨ t = symbol_empty) as [->|[->|[->| ->]]]
      by (unfold symbol_yes, symbol_mod, symbol_no, symbol_empty in *; lia).
    + assert (y0 = y) as -> by congruence. by apply (Ht _ _ H0).
    + assert (y1 = y) as -> by congruence. by apply (Ht _ _ H1).
    + assert (y2 = y) as -> by congruence. by apply (Ht _ _ H2).
    + by apply He.
Qed.

Lemma clear_list l k :
  (∀ t, t ∈ l → is_Some (ks_syms k !! t)) →
  spec False (miter (λ s, let! y := get_sym s in
      if decide (sy_type y = S_OTHER) then mreturn () else clear_flags s SYMBOL_VALID) l) k
    (λ _ k', touch (λ t, t ∈ l) k k' ∧
       ∀ t y', t ∈ l → ks_syms k' !! t = Some y' → sy_type y' ≠ S_OTHER → valid y' = false).
Proof.
  revert k. induction l as [|s l IH]; intros k Hl.
  { split; [apply touch_refl|]. intros t y' Ht. by apply elem_of_nil in Ht. }
  simpl. destruct (Hl s) as [y H]; [by left|].
  eapply (spec_bind _ _ _ _ _ (λ _ k1, touch (λ t, t = s) k k1 ∧
    ∀ y', ks_syms k1 !! s = Some y' → sy_type y' ≠ S_OTHER → valid y' = false)).
  - eapply spec_get_sym; [done|]. case_decide as T.
    + split; [apply touch_refl|]. intros y' H' N. congruence.
    + eapply spec_mono; [apply (touch_upd (λ t, t = s)); [..|eauto]|].
      * intros z. by apply same_value_clear.
      * intros z. unfold valid. simpl. by rewrite has_flag_cleared.
      * by intros z [].
      * intros [] k1 [T1 E]. split; [done|]. intros y' H' _. rewrite (E y H) in H'. simplify_eq.
        apply has_flag_cleared.
  - intros [] k1 [T1 N1]. eapply spec_mono; [apply IH|].
    + intros t Ht. eapply touch_exists; [done|]. apply Hl. by right.
    + intros [] k2 [T2 N2]. split.
      * eapply touch_trans; [eapply touch_weaken; [|exact T1]|eapply touch_weaken; [|exact T2]].
        -- intros t ->. by left.
        -- intros t Ht. by right.
      * intros t y2 [->|Ht]%elem_of_cons H2 T; [|by eauto].
        destruct (touch_back _ _ _ _ _ T2 H2) as (y1 & H1 & (C & _) & V & _).
        destruct (valid y2); [|done]. rewrite (N1 y1 H1) in V; [discriminate (V eq_refl)|].
        by apply sy_core_inv in C as (_ & <- & _).
Qed.

(** The symbols that are still valid have no type. *)
Lemma cleared_untyped k k1 :
  listed k → touch (λ t, t ∈ hash_syms k) k k1 →
  (∀ t y', t ∈ hash_syms k → ks_syms k1 !! t = Some y' → sy_type y' ≠ S_OTHER → valid y' = false) →
  ∀ t y', ks_syms k1 !! t = Some y' → valid y' = true → untyped y'.
Proof.
  intros Li T N t y' H' Vt. destruct (touch_back _ _ _ _ _ T H') as (y & H & Sv & _ & _).
  pose proof (sy_core_inv _ _ (proj1 Sv)) as (_ & Et & _).
  destruct (li_all k Li t y H) as [Ht|]; [|left; congruence].
  destruct (decide (sy_type y' = S_OTHER)) as [E|E]; [by right|]. by rewrite (N t y') in Vt.
Qed.

Lemma cleared_ok k k1 :
  listed k → untyped_solved_in k → touch (λ t, t ∈ hash_syms k) k k1 →
  (∀ t y', t ∈ hash_syms k → ks_syms k1 !! t = Some y' → sy_type y' ≠ S_OTHER → valid y' = false) →
  const_valid k1 ∧ valid_solved k1.
Proof.
  intros Li U T N.
  assert (V : ∀ t, t ∉ hash_syms k → valid_in k t → valid_in k1 t).
  { intros t Ht (y & H & Vy). destruct (to_sym _ _ _ T t y H) as (y' & H' & _ & _ & W). exists y'. by rewrite W. }
  split; [split; apply V; [apply (li_yes k Li)|apply U|apply (li_mod k Li)|apply U]|].
  intros t (y' & H' & Vt).
  destruct (touch_back _ _ _ _ _ T H') as (y & H & Sv & Vy & _).
  pose proof (sy_core_inv _ _ (proj1 Sv)) as (_ & Et & _).
  assert (Tu : untyped y).
  { pose proof (cleared_untyped k k1 Li T N t y' H' Vt) as Tu. unfold untyped in *. by rewrite <-Et. }
  apply (untyped_solved k k1 t y y'); [done..|]. apply (us_solved k U t y); auto.
Qed.

Lemma plain_count c k : plain k → plain (ks_set_change_count c k).
Proof. intros [A1 A2 A3 A4 A5 A6]. by split. Qed.

(** [solved] and its parts do not look at the counter. *)
Lemma count_ok c k : const_valid k ∧ valid_solved k → const_valid (ks_set_change_count c k) ∧
  valid_solved (ks_set_change_count c k).
Proof.
  intros [Cv A]. split; [done|]. intros s V. eapply (solved_stable k); [by apply agree_exact|done|by apply A].
Qed.

Lemma clear_all_spec k :
  plain k → listed k → untyped_solved_in k →
  ∃ k', sym_clear_all_valid k = Done ((), k') ∧
    ks_core k' = ks_core (ks_set_change_count (ks_change_count k + 1) k) ∧ const_valid k' ∧ valid_solved k' ∧
    ∀ u, valid_in k' u → marked_in k' u ∧ shown_in k' u.
Proof.
  intros P Li U. pose proof (clear_list (hash_syms k) k (li_some k Li)) as S. unfold spec in S.
  unfold sym_clear_all_valid, for_all_symbols. unfold mthen at 1 2, mgets at 1. cbv beta iota zeta.
  destruct (miter _ _ k) as [[[] k1]| |]; [|done..]. destruct S as [T N]. pose proof (to_core _ _ _ T) as C.
  pose proof (count_ok (ks_change_count k1 + 1) _ (cleared_ok k k1 Li U T N)) as [Cv A].
  unfold mthen, mmodify, mgets. set (k2 := ks_set_change_count (ks_change_count k1 + 1) k1) in *.
  assert (C2 : ks_core k2 = ks_core (ks_set_change_count (ks_change_count k + 1) k)).
  { unfold k2. rewrite (f_equal ks_change_count C : ks_change_count k1 = ks_change_count k).
    exact (f_equal (ks_set_change_count _) C). }
  assert (P2 : plain k2) by (by eapply plain_core, plain_count).
  assert (M2 : ∀ u y, valid_in k2 u → ks_syms k2 !! u = Some y → untyped y).
  { intros u y (z & Hz & Vz) H. assert (z = y) as -> by congruence. by apply (cleared_untyped k k1 Li T N u y). }
  destruct (ks_modules_sym k2) as [m|] eqn:Em.
  2: { exists k2. split_and!; [done..|]. intros u V. split; intros y H A1 A2; by destruct (M2 u y V H). }
  destruct (calc_step k2 m P2 Cv A) as (k3 & E & D & _ & A3).
  - apply (core_exists _ _ m C2). apply (li_modules k Li). rewrite <-Em.
    symmetry. exact (f_equal ks_modules_sym C).
  - exists k3. split_and!; [done|by rewrite (db_core _ _ _ D)| |done|].
    + destruct Cv. split; by eapply done_valid.
    + intros u Vu. destruct (decide (valid_in k2 u)) as [V|Nv]; [|by apply (db_mark _ _ _ D)].
      split; intros y H A1 A2; rewrite (db_same _ _ _ D u V) in H; by destruct (M2 u y V H).
Qed.

(** ** [sym_set_tristate_value] *)

Lemma within_range_inv y v :
  tristate_within_range y v = true → is_choice_value y = false →
  (sy_type y = S_BOOLEAN ∨ sy_type y = S_TRISTATE) ∧ sy_visible y ≠ No ∧
  (sy_type y = S_BOOLEAN → v ≠ Mod) ∧
  tri_leb (sy_rev_dep_tri y) v = true ∧ tri_leb v (sy_visible y) = true.
Proof.
  unfold tristate_within_range. intros H N. rewrite N in H. simpl in H.
  assert (T : get_type y = sy_type y).
  { unfold get_type. rewrite N. simpl. destruct (decide (sy_type y = S_TRISTATE)); congruence. }
  rewrite T in H. case_decide as Hv; [done|]. case_decide as Ht; [done|]. case_decide as Hb; [done|].
  destruct (tri_leb (sy_visible y) _); [done|]. apply andb_true_iff in H.
  split_and!; [|done| |apply H..].
  - destruct (decide (sy_type y = S_BOOLEAN)); [by left|]. destruct (decide (sy_type y = S_TRISTATE)); [by right|].
    by destruct Ht.
  - intros ? ->. by apply Hb.
Qed.

(** The value that a setting inside the bounds leads to. *)
Lemma logic_of_setting k y v d :
  ref_deselected k y = Some d → d = false → has_value y = true → sv_tri (sy_user y) = v →
  sy_visible y ≠ No → (sy_type y = S_BOOLEAN → v ≠ Mod) →
  tri_leb (sy_rev_dep_tri y) v = true → tri_leb v (sy_visible y) = true → ref_logic k y = Some v.
Proof.
  intros D -> Hv Hu Vis Hb L1 L2. unfold ref_logic. rewrite D, Hv, Hu.
  destruct (sy_visible y), (sy_rev_dep_tri y), v; try done; simpl;
    try (case_decide as X; [by destruct X as [_ X%Hb]|done]); done.
Qed.

Lemma logic_deselected k y v : ref_deselected k y = Some true → ref_logic k y = Some v → v = No.
Proof. unfold ref_logic. intros ->. case_decide as X; [by destruct X|congruence]. Qed.

Lemma tri_leb_no v : tri_leb No v = true.
Proof. by destruct v. Qed.

(** The value is between the lower bound and the larger of the two bounds; of a
    boolean symbol the bounds are not [m]. *)
Lemma logic_bounds k y v :
  ref_visible k y = Some (sy_visible y) → ref_rev k y = Some (sy_rev_dep_tri y) →
  ref_deselected k y = Some false → ref_logic k y = Some v →
  tri_leb (sy_rev_dep_tri y) v = true ∧
  (tri_or (sy_visible y) (sy_rev_dep_tri y) ≠ No →
     tri_leb v (tri_or (sy_visible y) (sy_rev_dep_tri y)) = true).
Proof.
  intros Gv Gr D Gl. unfold ref_visible in Gv. rewrite D in Gv. opt_step Gv.
  unfold ref_rev in Gr. opt_step Gr. unfold ref_logic in Gl. rewrite D in Gl. opt_step Gl.
  injection Gl as <-. injection Gv as Ev. injection Gr as Er. case_decide as N.
  - destruct (sy_visible y), (sy_rev_dep_tri y); try done. split; [|done].
    apply tri_leb_no.
  - opt_step E1. injection E1 as <-. clear E E0 E2 D.
    destruct (decide (sy_type y = S_BOOLEAN)) as [Tb|Tb].
    + rewrite Tb in *. destruct t, t0, t2, (sy_visible y), (sy_rev_dep_tri y); try discriminate; by split.
    + rewrite decide_False by (by intros []). destruct t2, (sy_visible y), (sy_rev_dep_tri y); by split.
Qed.

Lemma ref_bound_int32 k s b v : ref_bound k s b = Some v → int32 v.
Proof. unfold ref_bound. intros H. opt_step H. opt_step H. injection H as <-. apply wrap32_range. Qed.

(** The text of a number with a range is a number in the range. *)
Lemma string_in_range k y c base p x l r lo hi :
  sy_type y = S_INT ∧ base = 10%Z ∨ sy_type y = S_HEX ∧ base = 16%Z →
  ref_string k y = Some (cs_text c) → ref_first k P_RANGE (sy_prop y) = Some (Some p) →
  ks_props k !! p = Some x → pr_expr x = Some (Erange l r) →
  ref_bound k l base = Some lo → ref_bound k r base = Some hi → (lo <= hi)%Z →
  (lo <= strtoi (cs_text c) base <= hi)%Z.
Proof.
  intros T Gs Hp Hx He Hl Hr Hle. pose proof (ref_bound_int32 _ _ _ _ Hl). pose proof (ref_bound_int32 _ _ _ _ Hr).
  unfold ref_string in Gs. opt_step Gs. unfold ref_range in Gs.
  destruct T as [[T ->]|[T ->]]; rewrite T, Hp, Hx, He, Hl, Hr in Gs.
  - destruct (Z.leb_spec lo (strtoi s 10)); [destruct (Z.leb_spec (strtoi s 10) hi)|]; injection Gs as <-;
      [lia|rewrite strtoi_print_d by done; lia..].
  - destruct (Z.leb_spec lo (strtoi s 16)); [destruct (Z.leb_spec (strtoi s 16) hi)|]; injection Gs as <-;
      [lia|rewrite strtoi_print_x by done; lia..].
Qed.

Lemma visible_selected k y v : ref_visible k y = Some v → v ≠ No → ref_deselected k y = Some false.
Proof. unfold ref_visible. intros H N. opt_step H. opt_step H. destruct b; congruence. Qed.

Lemma value_of_setting k k2 s y y2 v :
  (∀ t, is_Some (ks_syms k !! t) → solved k t) → plain k2 → valid_solved k2 →
  same_config (λ t, t = s) k k2 → ks_syms k !! s = Some y → ks_syms k2 !! s = Some y2 →
  valid y2 = true → has_value y2 = true → sv_tri (sy_user y2) = v → is_choice_value y = false →
  tristate_within_range y v = true → sv_tri (sy_curr y2) = v.
Proof.
  intros A P2 A2 Sc H H2 V2 Hv Hu Nc R. apply within_range_inv in R as (T & Vis & Hb & L1 & L2); [|done].
  assert (Ag : agree (reads k2 s) k2 k).
  { apply (unique_agree (λ t, t = s)); [done..|]. intros x ->. by apply (pl_acyclic k2 P2). }
  destruct (sc_sym _ _ _ Sc s y2 H2) as (y0 & H0 & Sh & _). assert (y0 = y) as -> by congruence.
  assert (S2 : solved k2 s) by (apply A2; by exists y2).
  destruct (unique_bounds k k2 s y y2 Ag H H2 Sh) as (Ev & d & D1 & D2 & Er); [by eauto|done|done|].
  destruct S2 as (z & Hz & _ & E). assert (z = y2) as -> by congruence. destruct Sh as (Et & _).
  assert (G : ref_visible k2 y2 = Some (sy_visible y2) ∧ ref_logic k2 y2 = Some (sv_tri (sy_curr y2))).
  { unfold equations in E. rewrite Et in T. destruct T as [T|T]; rewrite T in E; tauto. }
  destruct G as [G1 G2]. rewrite Ev in Vis, L2. pose proof (visible_selected _ _ _ G1 Vis) as D.
  assert (Hy : ∀ t, t ∈ sym_reads k2 y2 → reads k2 s t) by (intros t Ht; by exists y2).
  pose proof (ref_deselected_stable _ _ _ Ag y2 Hy _ D) as D'. assert (d = false) as -> by congruence.
  rewrite Er in L1 by done. rewrite Et in Hb.
  rewrite (logic_of_setting k2 y2 v false) in G2; [congruence|done..].
Qed.

Definition set_sym (s : sid) (z : symbol) (k : kstate) : kstate :=
  ks_set_syms (<[s := z]> (ks_syms k)) k.
Definition no_new (y : symbol) : symbol := sy_set_flags (clear_flag (sy_flags y) SYMBOL_NEW) y.
Definition with_user (v : tristate) (y : symbol) : symbol := sy_set_user (sv_set_tri v (sy_user y)) y.

Lemma core_set k1 k0 s a b :
  ks_core k1 = ks_core k0 → sy_core a = sy_core b → ks_core (set_sym s a k1) = ks_core (set_sym s b k0).
Proof.
  intros E Eb.
  assert (F : ∀ z k, ks_core (set_sym s z k) = ks_set_syms (<[s := sy_core z]> (sy_core <$> ks_syms k)) (ks_core k)).
  { intros z k. unfold ks_core, set_sym, ks_set_syms. simpl. by rewrite fmap_insert. }
  rewrite !F, Eb. pose proof (f_equal ks_syms E) as E'. simpl in E'. by rewrite E', E.
Qed.

(** A record with the dependencies and the kind of another. *)
Definition same_kind (z y : symbol) : Prop :=
  same_shape z y ∧ sy_name z = sy_name y ∧ is_choice z = is_choice y ∧ is_choice_value z = is_choice_value y.

Lemma kind_no_new y : same_kind (no_new y) y.
Proof. unfold same_kind, same_shape, is_choice, is_choice_value. simpl. by rewrite !has_flag_clear. Qed.

Definition logic_type (y : symbol) : Prop := sy_type y = S_BOOLEAN ∨ sy_type y = S_TRISTATE.

Section SetSym.
Context (k : kstate) (s : sid) (y z : symbol).
Context (H : ks_syms k !! s = Some y) (Kd : same_kind z y) (T : logic_type y).

Lemma set_lookup t x : ks_syms (set_sym s z k) !! t = Some x →
  ∃ w, ks_syms k !! t = Some w ∧ same_kind x w ∧ (x = w ∨ logic_type x ∧ t = s).
Proof.
  simpl. destruct (decide (t = s)) as [->|Hne].
  - rewrite lookup_insert_eq. intros [= <-]. exists y. split_and!; [done..|]. right. split; [|done].
    unfold logic_type. destruct Kd as ((-> & _) & _). done.
  - rewrite lookup_insert_ne by done. intros Hx. exists x. split_and!; [done| |by left]. done.
Qed.
Lemma set_exists t : is_Some (ks_syms (set_sym s z k) !! t) ↔ is_Some (ks_syms k !! t).
Proof.
  simpl. destruct (decide (t = s)) as [->|Hne]; [rewrite lookup_insert_eq, H|by rewrite lookup_insert_ne].
  split; eauto.
Qed.
Lemma set_reads t u : reads (set_sym s z k) t u → reads k t u.
Proof.
  intros (x & Hx & Hu). destruct (set_lookup t x Hx) as (w & Hw & ((_ & Ep & Er & Ei) & _) & _).
  exists w. split; [done|]. unfold sym_reads in *. by rewrite <-Ep, <-Er, <-Ei.
Qed.

Lemma set_tc t u : tc (reads (set_sym s z k)) t u → tc (reads k) t u.
Proof.
  induction 1 as [a b R|a b c R _ IH]; [apply tc_once|eapply tc_l; [|done]]; by apply set_reads.
Qed.

Lemma plain_set : plain k → plain (set_sym s z k).
Proof.
  intros [A1 A2 A3 A4 A5 A6]. split.
  - intros t u R. apply set_exists. eapply A1. by apply set_reads.
  - intros t x p Hx Hp. destruct (set_lookup t x Hx) as (w & Hw & ((_ & Ep & _) & _) & _).
    rewrite Ep in Hp. by apply (A2 t w).
  - intros t x Hx. destruct (set_lookup t x Hx) as (w & Hw & ((-> & _) & -> & _) & _). by apply (A3 t).
  - intros t x Hx Hs. destruct (set_lookup t x Hx) as (w & Hw & _ & [->|[Tl _]]); [by apply (A4 t)|].
    unfold logic_type in Tl. intuition congruence.
  - intros t x Hx. destruct (set_lookup t x Hx) as (w & Hw & (_ & _ & -> & ->) & _). by apply (A5 t).
  - intros t Ht. by apply (A6 t), set_tc.
Qed.

Lemma listed_set : listed k → listed (set_sym s z k).
Proof.
  intros [A1 A2 A3 A4 A5]. split.
  - intros t Ht. by apply set_exists, A1.
  - destruct A2. split; [done|by apply set_exists].
  - destruct A3. split; [done|by apply set_exists].
  - intros t x Hx. destruct (set_lookup t x Hx) as (w & Hw & ((-> & _) & _) & _). by apply A4.
  - intros m Hm. by apply set_exists, A5.
Qed.

Lemma untyped_set : listed k → untyped_solved_in k → untyped_solved_in (set_sym s z k).
Proof.
  intros Li U.
  assert (V : ∀ t, t ∉ hash_syms k → valid_in k t → valid_in (set_sym s z k) t).
  { intros t Ht (w & Hw & Vw). exists w. split; [|done]. simpl. rewrite lookup_insert_ne; [done|]. intros <-.
    assert (w = y) as -> by congruence. destruct (li_all k Li s y Hw) as [|E]; [done|].
    unfold logic_type in T. rewrite E in T. by destruct T. }
  split; [split; apply V; [apply (li_yes k Li)|apply U|apply (li_mod k Li)|apply U]|].
  intros t x Hx Tx Vx. destruct (set_lookup t x Hx) as (w & Hw & _ & [->|[Tl _]]).
  - apply (untyped_solved k _ t w w); [done..|]. by apply (us_solved k U t w).
  - unfold untyped, logic_type in *. intuition congruence.
Qed.

Lemma config_set : same_config (λ t, t = s) k (set_sym s z k).
Proof.
  split; [done|]. intros t x Hx. destruct (set_lookup t x Hx) as (w & Hw & (Sh & _) & E). exists w.
  split_and!; [done| |].
  - destruct Sh as (? & ? & ? & ?). by split_and!.
  - intros N. destruct E as [->|[_ ?]]; done.
Qed.
End SetSym.

Definition unmarked : sid → Prop := λ _, False.

Lemma untyped_touch k k' : touch unmarked k k' → untyped_solved_in k → untyped_solved_in k'.
Proof.
  intros T U.
  assert (V : ∀ t, valid_in k t → valid_in k' t).
  { intros t (y & H & Vy). destruct (to_sym _ _ _ T t y H) as (y' & H' & _ & _ & W). exists y'. by rewrite W by (by intros []). }
  split; [split; apply V, U|]. intros t x Hx Tx Vx. destruct (touch_back _ _ _ _ _ T Hx) as (w & Hw & Sv & W & _).
  pose proof (sy_core_inv _ _ (proj1 Sv)) as (_ & Et & _). unfold untyped in Tx. rewrite Et in Tx.
  apply (untyped_solved k k' t w x); try done. apply (us_solved k U t w); auto.
Qed.

Lemma set_sym_id k s y : ks_syms k !! s = Some y → set_sym s y k = k.
Proof. intros H. unfold set_sym. rewrite insert_id by done. by destruct k. Qed.
Lemma set_set k s y z : set_sym s y (set_sym s z k) = set_sym s y k.
Proof. unfold set_sym, ks_set_syms. simpl. by rewrite insert_insert_eq. Qed.

Lemma clear_flag_id f a : has_flag f a = false → clear_flag f a = f.
Proof.
  unfold has_flag, clear_flag. rewrite negb_false_iff, Z.eqb_eq. intros E. apply Z.bits_inj'. intros n _.
  rewrite Z.ldiff_spec. assert (B : Z.testbit f n && Z.testbit a n = false).
  { by rewrite <-Z.land_spec, E, Z.bits_0. }
  by destruct (Z.testbit f n), (Z.testbit a n).
Qed.

Lemma clear_new_spec k s y :
  props_there k → ks_syms k !! s = Some y →
  spec False (clear_new s) k (λ _ k', touch unmarked (set_sym s (no_new y) k) k').
Proof.
  intros P H. unfold clear_new. eapply spec_get_sym; [done|]. unfold mwhen.
  destruct (has_flag (sy_flags y) SYMBOL_NEW) eqn:N.
  - unfold spec, clear_flags, upd_sym, mthen. rewrite (run_get_sym _ _ _ H). simpl.
    apply (touch_set_changed unmarked (set_sym s (no_new y) k) s).
    + intros t x p. simpl. destruct (decide (t = s)) as [->|N'].
      * rewrite lookup_insert_eq. intros [= <-]. apply (P s y p H).
      * rewrite lookup_insert_ne by done. apply (P t).
    + simpl. rewrite lookup_insert_eq. eauto.
  - simpl. unfold no_new. rewrite clear_flag_id by done.
    assert (E : sy_set_flags (sy_flags y) y = y) by (by destruct y).
    rewrite E, set_sym_id by done. apply touch_refl.
Qed.

(** The marks for writing are kept. *)
Definition wrote (k k' : kstate) : Prop :=
  ∀ t y', ks_syms k' !! t = Some y' → ∃ y, ks_syms k !! t = Some y ∧ writes y' = writes y.

Lemma mark_menus_syms (l : list pid) k k' :
  miter (λ p, let! x := get_prop p in
    match pr_menu x with
    | Some m => upd_menu m (λ x, mn_set_flags (set_flag (mn_flags x) MENU_CHANGED) x)
    | None => mreturn ()
    end) l k = Done ((), k') → ks_syms k' = ks_syms k.
Proof.
  revert k. induction l as [|p l IH]; intros k E; [by injection E as <-|]. simpl in E.
  unfold mthen at 1, mthen at 1, get_prop in E. destruct (ks_props k !! p) as [x|]; [|done]. simpl in E.
  destruct (pr_menu x) as [m|]; [|by apply IH]. unfold upd_menu, mthen at 1, get_menu in E.
  destruct (ks_menus k !! m) as [z|]; [|done]. simpl in E. by rewrite (IH _ E).
Qed.

Lemma clear_new_wrote k s k' : clear_new s k = Done ((), k') → wrote k k'.
Proof.
  unfold clear_new, mthen at 1, get_sym. destruct (ks_syms k !! s) as [y|] eqn:H; [|done]. simpl.
  unfold mwhen. destruct (has_flag (sy_flags y) SYMBOL_NEW).
  2: { intros [= <-] t z Hz. by exists z. }
  unfold clear_flags, sym_set_changed, or_flags, upd_sym, mthen, get_sym. rewrite H. simpl.
  rewrite lookup_insert_eq. simpl. rewrite lookup_insert_eq.
  intros E. apply mark_menus_syms in E. simpl in E. intros t z Hz. rewrite E in Hz.
  destruct (decide (t = s)) as [->|N].
  - rewrite lookup_insert_eq in Hz. injection Hz as <-. exists y. split; [done|]. unfold writes. simpl.
    by rewrite has_flag_set, has_flag_clear, orb_false_r.
  - rewrite !lookup_insert_ne in Hz by done. by exists z.
Qed.

Lemma touch_set_user k k1 s z y1 v :
  touch unmarked (set_sym s z k) k1 → ks_syms k1 !! s = Some y1 →
  touch unmarked (set_sym s (with_user v z) k) (set_sym s (with_user v y1) k1).
Proof.
  intros T H1. destruct (to_sym _ _ _ T s z) as (y' & H' & (C & Ec & Ev & Er) & V & W).
  { simpl. apply lookup_insert_eq. }
  assert (y' = y1) as -> by congruence.
  pose proof (f_equal (with_user v) C : sy_core (with_user v y1) = sy_core (with_user v z)) as Cu.
  split.
  - rewrite (core_set k1 (set_sym s z k) s _ (with_user v z)); [by rewrite set_set|apply T|done].
  - apply (to_props _ _ _ T).
  - intros t x Hx. simpl in Hx |- *. destruct (decide (t = s)) as [->|Hne].
    + rewrite lookup_insert_eq in Hx |- *. injection Hx as <-. exists (with_user v y1).
      split; [done|]. split; [exact (conj Cu (conj Ec (conj Ev Er)))|]. exact (conj V W).
    + rewrite lookup_insert_ne in Hx |- * by done. apply (to_sym _ _ _ T). simpl. by rewrite lookup_insert_ne.
Qed.

(** The configuration after the user has set [s] to [v]. *)
Definition set_to (s : sid) (v : tristate) (y : symbol) (k : kstate) : kstate :=
  set_sym s (with_user v (no_new y)) k.

Lemma kind_set_to v y : same_kind (with_user v (no_new y)) y.
Proof. exact (kind_no_new y). Qed.

Lemma set_all_changed_spec k :
  plain k → listed k → spec False sym_set_all_changed k (λ _ k', touch unmarked k k').
Proof.
  intros P Li. unfold sym_set_all_changed, for_all_symbols.
  apply (touch_iter unmarked (λ s, let! y := get_sym s in
    if decide (sy_type y = S_OTHER) then mreturn () else sym_set_changed s) (hash_syms k)); [by apply plain_there|].
  intros t k1 Ht P1 T1. destruct (touch_exists _ _ _ t T1 (li_some k Li t Ht)) as [y H].
  eapply spec_get_sym; [done|]. case_decide; [apply touch_refl|]. apply touch_set_changed; eauto.
Qed.

Section SetTristate.
Context (k : kstate) (s : sid) (y : symbol) (v : tristate).
Context (P : plain k) (Li : listed k) (U : untyped_solved_in k).
Context (H : ks_syms k !! s = Some y) (T : logic_type y).

Let k0 := set_to s v y k.

Lemma set_to_ok : plain k0 ∧ listed k0 ∧ untyped_solved_in k0.
Proof.
  pose proof (kind_set_to v y) as Kd.
  split_and!; [by eapply plain_set|by eapply listed_set|by eapply untyped_set].
Qed.

(** Clearing what was calculated, and marking every symbol when [modules_sym]
    is the one that was set. *)
Lemma set_finish k2 (b : bool) :
  touch unmarked k0 k2 →
  ∃ k', (do! (do! sym_clear_all_valid in
              let! modules_sym := mgets ks_modules_sym in
              mwhen (bool_decide (modules_sym = Some s)) sym_set_all_changed) in mreturn b) k2 =
        Done (b, k') ∧
    ks_core k' = ks_core (ks_set_change_count (ks_change_count k + 1) k0) ∧
    const_valid k' ∧ valid_solved k'.
Proof.
  intros T2. destruct set_to_ok as (P0 & L0 & U0). pose proof (to_core _ _ _ T2) as C2.
  destruct (clear_all_spec k2) as (k3 & E3 & C3 & Cv & A3 & _);
    [by eapply plain_core|by eapply listed_core|by eapply untyped_touch; [|exact U0]|].
  assert (C3' : ks_core k3 = ks_core (ks_set_change_count (ks_change_count k + 1) k0)).
  { rewrite C3, (f_equal ks_change_count C2 : ks_change_count k2 = ks_change_count k).
    exact (f_equal (ks_set_change_count _) C2). }
  unfold mthen at 1 2. rewrite E3. unfold mthen, mgets, mwhen. case_bool_decide; [|by exists k3].
  assert (P3 : plain k3) by (eapply plain_core; [exact C3'|by apply plain_count]).
  assert (L3 : listed k3).
  { eapply listed_core; [exact C3'|]. destruct L0 as [A1 A2 A4 A5 A6]. by split. }
  pose proof (set_all_changed_spec k3 P3 L3) as S. unfold spec in S.
  destruct (sym_set_all_changed k3) as [[[] k4]| |]; [|done..]. exists k4.
  split_and!; [done|by rewrite (to_core _ _ _ S)| |by eapply touch_solved].
  assert (V : ∀ u, valid_in k3 u → valid_in k4 u).
  { intros u (x & Hx & Vx). destruct (to_sym _ _ _ S u x Hx) as (x' & ? & _ & _ & W).
    exists x'. by rewrite W by (by intros []). }
  destruct Cv. split; auto.
Qed.

Lemma set_tristate_run :
  is_choice_value y = false → sv_tri (sy_curr y) = v ∨ tristate_within_range y v = true →
  ∃ k', sym_set_tristate_value s v k = Done (true, k') ∧
    if decide (sv_tri (sy_curr y) = v) then touch unmarked k0 k' ∧ wrote k k'
    else ks_core k' = ks_core (ks_set_change_count (ks_change_count k + 1) k0) ∧
         const_valid k' ∧ valid_solved k'.
Proof.
  intros Nc R. unfold sym_set_tristate_value, sym_get_tristate_value, sym_tristate_within_range.
  unfold mthen at 1 2 3 4, mreturn at 1 2. rewrite (run_get_sym _ _ _ H). simpl. rewrite (run_get_sym _ _ _ H). simpl.
  destruct (decide (sv_tri (sy_curr y) ≠ v ∧ tristate_within_range y v = false)) as [D|D].
  { destruct D. intuition congruence. }
  pose proof (clear_new_spec k s y (plain_there k P) H) as S. unfold spec in S. unfold mthen at 1.
  destruct (clear_new s k) as [[[] k1]| |] eqn:Ek; [|done..].
  destruct (to_sym _ _ _ S s (no_new y)) as (y1 & H1 & (C1 & _) & _); [simpl; apply lookup_insert_eq|].
  apply sy_core_inv in C1 as (_ & _ & _ & _ & _ & _ & _ & _ & Nc1).
  destruct (kind_no_new y) as (_ & _ & _ & Nc2). rewrite Nc2, Nc in Nc1.
  unfold mthen at 1. rewrite (run_get_sym _ _ _ H1). rewrite Nc1. simpl. unfold mthen at 1, mwhen at 1, mreturn at 1.
  unfold upd_sym, mthen at 1 2. rewrite (run_get_sym _ _ _ H1).
  pose proof (touch_set_user k k1 s _ y1 v S H1) as T2. unfold put_sym, mmodify.
  fold (with_user v y1) (set_sym s (with_user v y1) k1).
  destruct (decide (sv_tri (sy_curr y) = v)) as [E|E].
  - rewrite bool_decide_eq_false_2 by (by intros []). eexists. split_and!; [done..|].
    intros t x Hx. pose proof (clear_new_wrote k s k1 Ek) as W. simpl in Hx. destruct (decide (t = s)) as [->|N].
    + rewrite lookup_insert_eq in Hx. injection Hx as <-. exact (W s y1 H1).
    + rewrite lookup_insert_ne in Hx by done. by apply W.
  - rewrite bool_decide_eq_true_2 by done. by apply set_finish.
Qed.
End SetTristate.

(** ** Settings that are refused, and the toggle *)

Lemma set_tristate_refused k s y v :
  ks_syms k !! s = Some y → sv_tri (sy_curr y) ≠ v → tristate_within_range y v = false →
  sym_set_tristate_value s v k = Done (false, k).
Proof.
  intros H N R. unfold sym_set_tristate_value, sym_get_tristate_value, sym_tristate_within_range, mthen.
  rewrite (run_get_sym _ _ _ H). simpl. rewrite (run_get_sym _ _ _ H). simpl. by rewrite decide_True.
Qed.

Definition modules_ok (k : kstate) : Prop := ∀ m, ks_modules_sym k = Some m → is_Some (ks_syms k !! m).

Lemma calculated_ready k :
  calculated k → modules_ok k → listed k ∧ untyped_solved_in k ∧ valid_solved k.
Proof.
  intros Ca Mo. split_and!.
  - apply listed_of; [apply Ca..|done].
  - apply ready_untyped; [|intros s (y & H & _); apply (ca_solved k Ca); eauto].
    pose proof (listed_of k (ca_hash k Ca) (ca_consts k Ca) Mo) as Li.
    assert (V : ∀ s, is_Some (ks_syms k !! s) → valid_in k s).
    { intros s Hs. destruct (ca_solved k Ca s Hs) as (y & ? & ? & _). by exists y. }
    split; apply V; [apply (li_yes k Li)|apply (li_mod k Li)].
  - intros s (y & H & _). apply (ca_solved k Ca). eauto.
Qed.

(** Accepted settings take effect. *)
Lemma set_tristate_takes k s y v :
  plain k → calculated k → modules_ok k → ks_syms k !! s = Some y → logic_type y →
  sv_tri (sy_curr y) = v ∨ tristate_within_range y v = true →
  ∃ k' k'' y'', sym_set_tristate_value s v k = Done (true, k') ∧ sym_calc_value s k' = Done ((), k'') ∧
    ks_syms k'' !! s = Some y'' ∧ sv_tri (sy_curr y'') = v.
Proof.
  intros P Ca Mo H T R. destruct (calculated_ready k Ca Mo) as (Li & U & A).
  destruct (pl_choice k P s y H) as [_ Nc].
  destruct (set_tristate_run k s y v P Li U H T Nc R) as (k' & E & Q). exists k'.
  destruct (decide (sv_tri (sy_curr y) = v)) as [Ev|Ev].
  - destruct Q as [Q _]. destruct (to_sym _ _ _ Q s (with_user v (no_new y))) as (y' & H' & (_ & Ec & _) & _ & V).
    { simpl. apply lookup_insert_eq. }
    assert (V' : valid y' = true).
    { rewrite V by (by intros []). destruct (ca_solved k Ca s) as (z & Hz & Vz & _); [eauto|].
      assert (z = y) as -> by congruence. unfold valid in *. simpl. by rewrite has_flag_clear. }
    exists k', y'. split_and!; [done|by eapply calc_valid_noop|done|]. by rewrite Ec.
  - destruct Q as (C & Cv & A'). destruct (set_to_ok k s y v P Li U H T) as (P0 & _ & _).
    assert (P' : plain k') by (eapply plain_core; [exact C|by apply plain_count]).
    destruct (core_sym _ k' s (with_user v (no_new y)) C) as (y' & H' & Cy); [simpl; apply lookup_insert_eq|].
    destruct (calc_step k' s P' Cv A') as (k'' & E'' & D & (y'' & H'' & V'') & A''); [eauto|].
    exists k'', y''. split_and!; [done..|].
    destruct (core_sym k' k'' s y' (db_core _ _ _ D) H') as (z & Hz & Cz).
    assert (z = y'') as -> by congruence. rewrite Cy in Cz.
    apply sy_core_inv in Cz as (_ & _ & Eu & _ & _ & _ & Hv & _).
    assert (C'' : ks_core k'' = ks_core (ks_set_change_count (ks_change_count k + 1) (set_to s v y k))).
    { by rewrite (db_core _ _ _ D). }
    eapply (value_of_setting k k'' s y y'' v); try done.
    + apply (ca_solved k Ca).
    + eapply plain_core; [exact C''|by apply plain_count].
    + pose proof (config_set k s y _ H (kind_set_to v y) T) as [Sp Ss]. split.
      * etrans; [exact Sp|]. symmetry. by apply (core_props _ _ C'').
      * intros t x Hx. destruct (core_sym k'' _ t x (eq_sym C'') Hx) as (w & Hw & Cw).
        destruct (Ss t w Hw) as (w0 & Hw0 & Sh & Sc). exists w0. split; [done|].
        pose proof (sy_core_inv _ _ Cw) as (_ & ? & _ & ? & ? & ? & _). unfold same_shape in *.
        split; [intuition congruence|]. intros Nt. rewrite (Sc Nt). done.
    + rewrite Hv. unfold has_value. simpl. by rewrite has_flag_cleared.
    + by rewrite Eu.
    + by destruct R.
Qed.

(** The value [sym_toggle_tristate_value] ends at. *)
Definition toggled (y : symbol) : tristate :=
  let v := sv_tri (sy_curr y) in
  if tristate_within_range y (tri_next v) then tri_next v
  else if tristate_within_range y (tri_next (tri_next v)) then tri_next (tri_next v)
  else v.

Lemma toggle_step n k s y v w :
  plain k → calculated k → modules_ok k → ks_syms k !! s = Some y → logic_type y →
  sv_tri (sy_curr y) = v →
  if decide (tri_next w = v) then ∃ k', toggle_f (S n) s v w k = Done (v, k')
  else if tristate_within_range y (tri_next w) then ∃ k', toggle_f (S n) s v w k = Done (tri_next w, k')
  else toggle_f (S n) s v w k = toggle_f n s v (tri_next w) k.
Proof.
  intros P Ca Mo H T Ev. simpl. unfold mthen.
  assert (G : tri_next w = v ∨ tristate_within_range y (tri_next w) = true →
    ∃ k', sym_set_tristate_value s (tri_next w) k = Done (true, k')).
  { intros R. destruct (set_tristate_takes k s y (tri_next w) P Ca Mo H T) as (k' & _ & _ & E & _); [|eauto].
    rewrite Ev. intuition congruence. }
  case_decide as D.
  { destruct G as [k' ->]; [by left|]. rewrite D. by eexists. }
  destruct (tristate_within_range y (tri_next w)) eqn:R.
  - destruct G as [k' ->]; [by right|]. by eexists.
  - rewrite (set_tristate_refused k s y); [|done|congruence|done]. by rewrite decide_False by congruence.
Qed.

Lemma toggle_run k s y :
  plain k → calculated k → modules_ok k → ks_syms k !! s = Some y → logic_type y →
  ∃ k', sym_toggle_tristate_value s k = Done (toggled y, k').
Proof.
  intros P Ca Mo H T. unfold sym_toggle_tristate_value, sym_get_tristate_value, toggled.
  unfold mthen at 1 2. rewrite (run_get_sym _ _ _ H). unfold mreturn. set (v := sv_tri (sy_curr y)).
  assert (S := λ n w, toggle_step n k s y v w P Ca Mo H T eq_refl).
  pose proof (S 2 v) as S1. rewrite decide_False in S1 by (by destruct v).
  destruct (tristate_within_range y (tri_next v)); [done|]. rewrite S1.
  pose proof (S 1 (tri_next v)) as S2. rewrite decide_False in S2 by (by destruct v).
  destruct (tristate_within_range y (tri_next (tri_next v))); [done|]. rewrite S2.
  pose proof (S 0 (tri_next (tri_next v))) as S3. rewrite decide_True in S3 by (by destruct v). done.
Qed.
