(* ===== verification/KSymText.v ===== *)
(** * The texts of numbers

    The texts that [sprintf] makes of a number are valid texts of an int or
    hex symbol ([sym_string_valid]), and reading them gives the number back. *)
From S2P Require Import Prelude CLib CStr KData KState KSymbol.
From Stdlib Require Import Ascii.
Open Scope pr30_scope.
Local Open Scope Z_scope.

Definition base_digit (base : Z) (c : ascii) : bool := bool_decide (is_Some (digit_in base c)).

Lemma base_digit_char base d : 0 ≤ d < base → base ≤ 16 → base_digit base (digit_char d) = true.
Proof. intros Hd Hb. unfold base_digit. by rewrite digit_in_char. Qed.

(** All digits, and no leading zero. *)
Lemma print_digits_all base fuel n tl :
  1 < base ≤ 16 → 0 ≤ n < base ^ Z.of_nat (S fuel) → all_chars (base_digit base) tl = true →
  ∃ d r, 0 ≤ d < base ∧ print_digits base fuel n tl = String (digit_char d) r ∧
    all_chars (base_digit base) r = true ∧ (d = 0 → n = 0 ∧ r = tl).
Proof.
  intros Hb. revert n tl. induction fuel as [|fuel IH]; intros n tl Hn Ht;
    pose proof (Z.mod_pos_bound n base ltac:(lia)) as Hm; pose proof (Z.div_mod n base ltac:(lia)) as Hd.
  - rewrite Z.pow_1_r in Hn. exists n, tl. simpl. rewrite Z.div_small, Z.mod_small by lia. done.
  - cbn [print_digits]. destruct (Z.eqb_spec (n / base) 0) as [E|E].
    + exists (n mod base), tl. split_and!; [lia..|done|done|]. intros Z0. split; [|done]. rewrite Hd, E, Z0. lia.
    + destruct (IH (n / base) (String (digit_char (n mod base)) tl)) as (d & r & ? & -> & A & Zd).
      * split; [apply Z.div_pos; lia|]. apply Z.div_lt_upper_bound; [lia|].
        rewrite Nat2Z.inj_succ, Z.pow_succ_r in Hn by lia. lia.
      * simpl. rewrite base_digit_char by lia. done.
      * exists d, r. split_and!; [lia..|done|done|]. intros ->. by destruct Zd.
Qed.

Lemma base_digit_10 c : base_digit 10 c = true → isdigit c = true.
Proof.
  unfold base_digit, digit_in, digit_val. rewrite bool_decide_eq_true. destruct (isdigit c); [done|].
  unfold islower, isupper. intros [x H]. exfalso.
  repeat match type of H with context [if ?b then _ else _] => destruct b eqn:? end; try done; lia.
Qed.

Lemma digit_zero d : 0 ≤ d < 10 → (code (digit_char d) =? 48) = true → d = 0.
Proof.
  intros Hd. assert (H16 : 0 ≤ d < 16) by lia. revert d H16 Hd.
  apply (digit_char_all (λ d, 0 ≤ d < 10 → (code (digit_char d) =? 48) = true → d = 0)).
  repeat constructor; intros; (done || lia).
Qed.

Lemma print_d_pos n : 0 ≤ n ≤ 2 ^ 31 →
  ∃ d r, print_digits 10 31 n "" = String (digit_char d) r ∧ 0 ≤ d < 10 ∧
    all_chars isdigit r = true ∧ (d = 0 → r = ""%string).
Proof.
  intros Hn. destruct (print_digits_all 10 31 n "") as (d & r & ? & E & A & Z0).
  - done.
  - split; [lia|]. eapply Z.le_lt_trans; [apply Hn|]. done.
  - done.
  - exists d, r. split_and!; [done|lia..| |intros E0; by apply Z0].
    eapply all_chars_mono; [|exact A]. apply base_digit_10.
Qed.

#[local] Arguments print_digits : simpl never.

Lemma int_valid_print z : int32 z → int_valid (print_d z) = true.
Proof.
  unfold int32. intros Hz. unfold print_d.
  assert (G : ∀ d r, 0 ≤ d < 10 → all_chars isdigit r = true → (d = 0 → r = ""%string) →
    (if negb (isdigit (digit_char d)) then false
     else if (code (digit_char d) =? 48) && negb (bool_decide (r = ""%string)) then false
     else all_chars isdigit r) = true).
  { intros d r Hd A Z0. rewrite (base_digit_10 (digit_char d)) by (apply base_digit_char; lia). simpl.
    destruct (code (digit_char d) =? 48) eqn:E; [|done]. apply digit_zero in E; [|done].
    rewrite (Z0 E). done. }
  destruct (Z.ltb_spec z 0).
  - destruct (print_d_pos (- z)) as (d & r & -> & Hd & A & Z0); [lia|]. by apply G.
  - destruct (print_d_pos z) as (d & r & -> & Hd & A & Z0); [lia|].
    unfold int_valid. simpl char_at. destruct (digit_char_plain d) as (_ & -> & _); [lia|]. by apply G.
Qed.

Lemma hex_valid_print z : hex_valid ("0x" +:+ print_x z) = true.
Proof.
  unfold print_x. pose proof (Z.mod_pos_bound z (2 ^ 32) ltac:(lia)) as Hn.
  destruct (print_digits_all 16 31 (z mod 2 ^ 32) "") as (d & r & Hd & -> & A & _).
  - done.
  - split; [lia|]. eapply Z.lt_trans; [apply Hn|]. done.
  - done.
  - change (base_digit 16 (digit_char d) && all_chars (base_digit 16) r = true).
    by rewrite base_digit_char, A by lia.
Qed.
