(* ===== verification/KSymCheck.v ===== *)
(** * Decision procedures for the hypotheses on a store, and an example store

    Boolean versions of [plain], [closed_deps], [hash_ok] and [consts_ok], and
    a configuration made by running the modelled functions from the initial
    store. *)
From S2P Require Import Prelude CLib CStr KData KExpr KState KSymbol KSymFrame KSymRef KSymSolve KSymTab.
From S2P Require Import KSymDeps KSymSet.
Open Scope pr30_scope.

(** ** Checkers *)

Definition all_syms (k : kstate) (f : sid → symbol → bool) : bool :=
  forallb (λ p, f p.1 p.2) (map_to_list (ks_syms k)).

Lemma all_syms_ok k f s y : all_syms k f = true → ks_syms k !! s = Some y → f s y = true.
Proof.
  intros H Hs. unfold all_syms in H. rewrite forallb_forall in H. apply (H (s, y)).
  apply list_elem_of_In, elem_of_map_to_list. done.
Qed.

Lemma forallb_elem {A} (f : A → bool) l x : forallb f l = true → x ∈ l → f x = true.
Proof. rewrite forallb_forall. intros H Hx. by apply H, list_elem_of_In. Qed.

Definition exists_sym (k : kstate) (s : sid) : bool := bool_decide (is_Some (ks_syms k !! s)).

Definition prop_plain (k : kstate) (p : pid) : bool :=
  match ks_props k !! p with
  | None => false
  | Some x =>
      match pr_menu x with Some m => bool_decide (is_Some (ks_menus k !! m)) | None => true end &&
      match pr_type x with
      | P_RANGE => match pr_expr x with Some (Erange _ _) => true | _ => false end
      | P_DEFAULT => match pr_expr x with Some (Echoice (Some _) _) => false | _ => true end
      | _ => true
      end
  end.

(** [rank] decreases along every read. *)
Definition sym_plain (k : kstate) (rank : sid → nat) (s : sid) (y : symbol) : bool :=
  forallb (λ t, exists_sym k t && (rank t <? rank s)) (sym_reads k y) &&
  forallb (prop_plain k) (sy_prop y) &&
  match sy_type y with
  | S_UNKNOWN | S_OTHER => match sy_name y with Some _ => true | None => false end
  | S_STRING | S_INT | S_HEX =>
      negb (has_value y) || match sv_val (sy_user y) with VStr _ => true | _ => false end
  | _ => true
  end && negb (is_choice y) && negb (is_choice_value y).

Lemma sym_plain_inv k rank s y :
  sym_plain k rank s y = true →
  (∀ t, t ∈ sym_reads k y → is_Some (ks_syms k !! t) ∧ rank t < rank s) ∧
  (∀ p, p ∈ sy_prop y → prop_plain k p = true) ∧
  (sy_type y = S_UNKNOWN ∨ sy_type y = S_OTHER → is_Some (sy_name y)) ∧
  (sy_type y = S_STRING ∨ sy_type y = S_INT ∨ sy_type y = S_HEX → has_value y = true →
     ∃ c, sv_val (sy_user y) = VStr c) ∧
  is_choice y = false ∧ is_choice_value y = false.
Proof.
  unfold sym_plain. rewrite !andb_true_iff, !negb_true_iff. intros ((((A & B) & C) & D) & E).
  split_and!; try done.
  - intros t Ht. apply (forallb_elem _ _ _ A) in Ht. rewrite andb_true_iff in Ht.
    destruct Ht as [H1 H2%Nat.ltb_lt]. by apply bool_decide_eq_true in H1.
  - intros p. by apply forallb_elem.
  - intros [T|T]; rewrite T in C; destruct (sy_name y); eauto; done.
  - intros [T|[T|T]] Hv; rewrite T, Hv in C; destruct (sv_val (sy_user y)); eauto; done.
Qed.

Lemma plain_check k rank : all_syms k (sym_plain k rank) = true → plain k.
Proof.
  intros H. assert (Hs := λ s y L, sym_plain_inv k rank s y (all_syms_ok k _ s y H L)). split.
  - intros s t (y & L & Ht). by apply (Hs s y L).
  - intros s y p L Hp. destruct (Hs s y L) as (_ & Hpp & _). specialize (Hpp p Hp). unfold prop_plain in Hpp.
    destruct (ks_props k !! p) as [x|]; [|done]. exists x. apply andb_true_iff in Hpp as [Hm Ht].
    split_and!; [done|..].
    + intros m Em. rewrite Em in Hm. by apply bool_decide_eq_true in Hm.
    + intros T. rewrite T in Ht. destruct (pr_expr x) as [[]|]; eauto; done.
    + intros T l u E. by rewrite T, E in Ht.
  - intros s y L. apply (Hs s y L).
  - intros s y L. apply (Hs s y L).
  - intros s y L. apply (Hs s y L).
  - assert (D : ∀ s t, tc (reads k) s t → rank t < rank s).
    { induction 1 as [s t (y & L & Ht)|s u t (y & L & Ht) _ IH];
        pose proof (proj1 (Hs s y L) _ Ht) as [_ ?]; lia. }
    intros s Ht. specialize (D s s Ht). lia.
Qed.

Definition sym_closed (k : kstate) (s : sid) (y : symbol) : bool :=
  forallb (λ p, match ks_props k !! p with Some x => prop_wf (is_choice y) x | None => false end) (sy_prop y) &&
  from_option wf_expr true (sy_rev_dep y) && forallb (exists_sym k) (sym_deps k y).

Lemma closed_check k : all_syms k (sym_closed k) = true → closed_deps k.
Proof.
  intros H. assert (Hs := λ s y L, all_syms_ok k _ s y H L). unfold sym_closed in Hs.
  setoid_rewrite andb_true_iff in Hs. setoid_rewrite andb_true_iff in Hs. split.
  - intros s y p L Hp. destruct (Hs s y L) as ((A & _) & _). apply (forallb_elem _ _ _ A) in Hp.
    destruct (ks_props k !! p) as [x|]; [eauto|done].
  - intros s y L. apply (Hs s y L).
  - intros s t (y & L & Ht). destruct (Hs s y L) as (_ & A). apply (forallb_elem _ _ _ A) in Ht.
    by apply bool_decide_eq_true in Ht.
Qed.

Definition hash_check (k : kstate) : bool :=
  forallb (λ il : nat * list sid, forallb (λ s,
    match ks_syms k !! s with Some y => bool_decide (home (sy_name y) = Some il.1) | None => false end)
    il.2) (map_to_list (ks_hash k)) &&
  forallb (λ s1, forallb (λ s2,
    match ks_syms k !! s1, ks_syms k !! s2 with
    | Some y1, Some y2 =>
        match sy_name y1, sy_name y2 with
        | Some c1, Some c2 =>
            bool_decide (s1 = s2) ||
            negb (bool_decide (cs_text c1 = cs_text c2) && Bool.eqb (is_const y1) (is_const y2))
        | _, _ => true
        end
    | _, _ => true
    end) (hash_syms k)) (hash_syms k) &&
  all_syms k (λ s _, ((s <=? symbol_empty) || bool_decide (s ∈ hash_syms k)) && (s <? ks_new_sym k)) &&
  (symbol_empty <? ks_new_sym k).

Lemma hash_check_ok k : hash_check k = true → hash_ok k.
Proof.
  unfold hash_check. rewrite !andb_true_iff. intros (((A & B) & C) & D%Nat.ltb_lt). split; [| | | |done].
  - intros i s Hs. unfold bucket in Hs. destruct (ks_hash k !! i) as [l|] eqn:L; [|by apply elem_of_nil in Hs].
    apply elem_of_map_to_list in L. apply (forallb_elem _ _ _ A), (forallb_elem _ _ s) in L; [|done].
    simpl in L. destruct (ks_syms k !! s) as [y|]; [|done]. apply bool_decide_eq_true in L. eauto.
  - intros s1 s2 y1 y2 c1 c2 I1 I2 H1 H2 N1 N2 T E.
    apply (forallb_elem _ _ _ B), (forallb_elem _ _ s2) in I1; [|done].
    rewrite H1, H2, N1, N2, T, E, eqb_reflx in I1.
    apply orb_true_iff in I1 as [?%bool_decide_eq_true|I1]; [done|].
    by rewrite bool_decide_eq_true_2 in I1.
  - intros s [y H]. apply (all_syms_ok _ _ _ _ C) in H. apply andb_true_iff in H as [H _].
    apply orb_true_iff in H as [H%Nat.leb_le|H%bool_decide_eq_true]; auto.
  - intros s [y H]. apply (all_syms_ok _ _ _ _ C) in H. apply andb_true_iff in H as [_ H].
    by apply Nat.ltb_lt.
Qed.

Definition const_check (k : kstate) (s : sid) (c : cstr) : bool :=
  match ks_syms k !! s with
  | Some y => is_const y && bool_decide (sy_name y = Some c)
  | None => false
  end.
Definition consts_check (k : kstate) : bool :=
  const_check k symbol_yes lit_y && const_check k symbol_mod lit_m && const_check k symbol_no lit_n &&
  all_syms k (λ s y, (negb (s =? symbol_empty) || (negb (is_const y) && bool_decide (sy_type y = S_UNKNOWN))) &&
    (negb (is_const y) || (bool_decide (sy_type y = S_UNKNOWN) && bool_decide (is_Some (sy_name y))))).

Lemma consts_check_ok k : consts_check k = true → consts_ok k.
Proof.
  unfold consts_check, const_check. rewrite !andb_true_iff. intros (((A & B) & C) & D). split.
  - destruct (ks_syms k !! symbol_yes) as [y|]; [|done]. exists y. apply andb_true_iff in A as [? A].
    by apply bool_decide_eq_true in A.
  - destruct (ks_syms k !! symbol_mod) as [y|]; [|done]. exists y. apply andb_true_iff in B as [? B].
    by apply bool_decide_eq_true in B.
  - destruct (ks_syms k !! symbol_no) as [y|]; [|done]. exists y. apply andb_true_iff in C as [? C].
    by apply bool_decide_eq_true in C.
  - intros y H. apply (all_syms_ok _ _ _ _ D) in H. apply andb_true_iff in H as [H _]. simpl in H.
    by apply andb_true_iff in H as [H%negb_true_iff ?%bool_decide_eq_true].
  - intros s y H Hc. apply (all_syms_ok _ _ _ _ D) in H. apply andb_true_iff in H as [_ H].
    rewrite Hc in H. simpl in H. apply andb_true_iff in H as [H1%bool_decide_eq_true H2%bool_decide_eq_true].
    done.
Qed.

(** The equations of one symbol, decided. *)
Definition solved_check (k : kstate) (s : sid) (y : symbol) : bool :=
  valid y &&
  match sy_type y with
  | S_BOOLEAN | S_TRISTATE =>
      bool_decide (ref_visible k y = Some (sy_visible y)) &&
      (negb (bool_decide (ref_deselected k y = Some false)) ||
       bool_decide (ref_rev k y = Some (sy_rev_dep_tri y))) &&
      bool_decide (ref_logic k y = Some (sv_tri (sy_curr y))) &&
      bool_decide (sv_val (sy_curr y) = VStr lit_n)
  | S_STRING | S_INT | S_HEX =>
      bool_decide (ref_visible k y = Some (sy_visible y)) &&
      match sy_curr y with
      | SValue (VStr c) No => bool_decide (ref_string k y = Some (cs_text c))
      | _ => false
      end
  | S_UNKNOWN | S_OTHER =>
      match sy_name y with
      | Some c => bool_decide (sy_curr y = SValue (VStr c)
          (if decide (s = symbol_yes) then Yes else if decide (s = symbol_mod) then Mod else No))
      | None => false
      end
  end.

Lemma solved_check_ok k s y : ks_syms k !! s = Some y → solved_check k s y = true → solved k s.
Proof.
  intros H C. exists y. unfold equations. unfold solved_check in C. apply andb_true_iff in C as [V C].
  split_and!; [done..|].
  destruct (sy_type y); rewrite ?andb_true_iff, ?bool_decide_eq_true in C.
  - destruct (sy_name y) as [c|]; [|done]. apply bool_decide_eq_true in C. eauto.
  - destruct C as (((A & B) & C) & D). split_and!; [done| |done..]. intros E.
    rewrite bool_decide_eq_true_2 in B by done. by apply bool_decide_eq_true in B.
  - destruct C as (((A & B) & C) & D). split_and!; [done| |done..]. intros E.
    rewrite bool_decide_eq_true_2 in B by done. by apply bool_decide_eq_true in B.
  - destruct C as [A C]. split; [done|]. destruct (sy_curr y) as [[|c|] []]; try done.
    apply bool_decide_eq_true in C. eauto.
  - destruct C as [A C]. split; [done|]. destruct (sy_curr y) as [[|c|] []]; try done.
    apply bool_decide_eq_true in C. eauto.
  - destruct C as [A C]. split; [done|]. destruct (sy_curr y) as [[|c|] []]; try done.
    apply bool_decide_eq_true in C. eauto.
  - destruct (sy_name y) as [c|]; [|done]. apply bool_decide_eq_true in C. eauto.
Qed.

Lemma valid_solved_check k :
  all_syms k (λ s y, negb (valid y) || solved_check k s y) = true → valid_solved k.
Proof.
  intros C s (y & H & V). apply (all_syms_ok _ _ _ _ C) in H as Hc. rewrite V in Hc.
  by eapply solved_check_ok.
Qed.

Lemma calculated_check k :
  hash_check k && consts_check k && all_syms k (solved_check k) = true → calculated k.
Proof.
  rewrite !andb_true_iff. intros ((A & B) & C). split; [by apply hash_check_ok|by apply consts_check_ok|].
  intros s [y H]. eapply solved_check_ok; [done|]. by apply (all_syms_ok _ _ _ _ C).
Qed.

(** ** The initial store and an example *)

Definition static_symbol (c : cstr) (tri : tristate) (flags : Z) : symbol :=
  Symbol (Some c) S_UNKNOWN (SValue (VStr c) tri) (SValue VNull No) No flags [] None No None.

(** [symbol_yes], [symbol_mod], [symbol_no], [symbol_empty] and [rootmenu]. *)
Definition init_state : kstate := {|
  ks_syms :=
    <[symbol_yes := static_symbol lit_y Yes (Z.lor SYMBOL_YES SYMBOL_VALID)]>
    (<[symbol_mod := static_symbol lit_m Mod (Z.lor SYMBOL_MOD SYMBOL_VALID)]>
    (<[symbol_no := static_symbol lit_n No (Z.lor SYMBOL_NO SYMBOL_VALID)]>
    (<[symbol_empty := static_symbol lit_empty No SYMBOL_VALID]> ∅)));
  ks_props := ∅;
  ks_menus := <[0 := Menu None None None None None None 0]> ∅;
  ks_hash := ∅;
  ks_new_sym := 4; ks_new_prop := 0; ks_new_menu := 1; ks_new_str := 4;
  ks_change_count := 0; ks_modules_sym := None; ks_modules_val := No;
  ks_current_entry := 0; ks_current_menu := Some 0; ks_last_entry := (0, true);
  ks_log := [];
|}.

Definition final {A} (m : K A) (k : kstate) : kstate :=
  match m k with Done (_, k') => k' | _ => k end.

(** A symbol of type [t] with a prompt that is visible when [vis] is. *)
Definition config (name : string) (t : symbol_type) (prompt : bool) (vis : option expr) : K sid :=
  let! s := sym_lookup (Some name) false in
  do! upd_sym s (sy_set_type t) in
  let! p := prop_alloc P_PROMPT (Some s) in
  do! upd_prop p (λ x, Property (pr_sym x) P_PROMPT (if prompt then Some name else None) vis No None None) in
  mreturn s.

(** [FOO]: tristate, set to [m]; [BAR]: boolean, depends on [FOO], set to [y];
    [QUX]: tristate without prompt, selected by [BAR]; [BAZ]: int with the
    default 7 and the range 1 to 5. *)
Definition example_config : K () :=
  let! foo := config "FOO" S_TRISTATE true None in
  let! bar := config "BAR" S_BOOLEAN true (Some (Esymbol foo)) in
  let! qux := config "QUX" S_TRISTATE false None in
  do! upd_sym qux (sy_set_rev_dep (Some (Eand (Esymbol bar) (Esymbol foo)))) in
  let! baz := config "BAZ" S_INT false None in
  do! sym_add_default baz "7" in
  let! one := sym_lookup (Some "1"%string) true in
  let! five := sym_lookup (Some "5"%string) true in
  let! r := prop_alloc P_RANGE (Some baz) in
  do! upd_prop r (pr_set_expr (Some (expr_alloc_comp C_RANGE one five))) in
  do! upd_sym foo (λ y, sy_set_user (SValue VNull Mod) (sy_set_flags 0 y)) in
  upd_sym bar (λ y, sy_set_user (SValue VNull Yes) (sy_set_flags 0 y)).

Definition example : kstate := final example_config init_state.
(** The same with everything calculated. *)
Definition example_done : kstate := final (for_all_symbols sym_calc_value) example.

(** [BAZ] is read by nothing; [QUX] reads [BAR], which reads [FOO]. *)
Definition example_rank (s : sid) : nat :=
  match s with 4 => 1 | 5 => 2 | 6 => 3 | 7 => 1 | _ => 0 end.
