(* ===== verification/KSymSpec.v ===== *)
(** * Symbols: the theorems

    What [symbol.c] promises: values are calculated as the reference
    evaluator says, in any order, within the bounds the configuration sets;
    settings that are accepted take effect; the table finds what it holds;
    recursive dependencies are reported. *)
From S2P Require Import Prelude CLib CStr KData KExpr KState KSymbol KSymFrame KSymRef KSymSolve KSymTab.
From S2P Require Import KSymDeps KSymUnique KSymSet KSymText KSymCheck.
Open Scope pr30_scope.

(** ** The example *)

Lemma example_plain : plain example.
Proof. apply (plain_check _ example_rank). by vm_compute. Qed.
Lemma example_consts : const_valid example.
Proof. split; eexists; split; by vm_compute. Qed.
Lemma example_solved : valid_solved example.
Proof. apply valid_solved_check. by vm_compute. Qed.
Lemma example_exists s : exists_sym example s = true → is_Some (ks_syms example !! s).
Proof. apply bool_decide_eq_true. Qed.
Lemma example_done_plain : plain example_done.
Proof. apply (plain_check _ example_rank). by vm_compute. Qed.
Lemma example_done_calculated : calculated example_done.
Proof. apply calculated_check. by vm_compute. Qed.

(** ** The calculation *)

(** C21: [sym_calc_value] ends on every store, recursive dependencies included,
    and changes nothing but calculated members: names, types, settings,
    properties and dependencies stay, and so does the value of every symbol
    that was valid.  When it returns, the symbol is valid. *)
Theorem sym_calc_value_ends s k :
  match sym_calc_value s k with
  | Done (_, k') =>
      ks_core k' = ks_core k ∧
      (∀ t y y', ks_syms k !! t = Some y → ks_syms k' !! t = Some y' → valid y = true →
         valid y' = true ∧ sy_curr y' = sy_curr y) ∧
      (∀ y', ks_syms k' !! s = Some y' → valid y' = true)
  | Crash => True
  | NoFuel => False
  end.
Proof.
  pose proof (sym_calc_value_spec s k) as S. unfold spec in S.
  destruct (sym_calc_value s k) as [[[] k']| |]; [|done..]. destruct S as [[C V] W].
  split_and!; [done| |done]. intros t y y' H H' Hv. destruct (V t y y' H H' Hv). by split; auto.
Qed.

(** C3: in a configuration without choices and without recursive
    dependencies, [sym_calc_value] gives every symbol it calculates the value
    of the reference evaluator: visibility from the prompts, the lower bound
    from the selecting symbols, the user's setting or the default between
    them, strings and numbers from the setting or the default, numbers moved
    into their range. *)
Theorem sym_calc_value_correct k s :
  plain k → const_valid k → valid_solved k → is_Some (ks_syms k !! s) →
  ∃ k', sym_calc_value s k = Done ((), k') ∧ ks_core k' = ks_core k ∧
    (∀ u, valid_in k u → ks_syms k' !! u = ks_syms k !! u) ∧ valid_solved k' ∧ solved k' s.
Proof.
  intros P Cv A Hs. destruct (calc_step k s P Cv A Hs) as (k' & E & [C S _] & V & A').
  exists k'. split_and!; auto.
Qed.

Lemma sym_calc_value_correct_witness :
  ∃ k', sym_calc_value 6 example = Done ((), k') ∧ ks_core k' = ks_core example ∧
    (∀ u, valid_in example u → ks_syms k' !! u = ks_syms example !! u) ∧ valid_solved k' ∧ solved k' 6.
Proof.
  apply (sym_calc_value_correct example 6 example_plain example_consts example_solved).
  apply example_exists. by vm_compute.
Defined.



(** A selected symbol is at least what its selectors require, and at most
    the larger of that and its visibility; a boolean is never [m]; a symbol
    that a [deselect] switches off is [n]. *)
Theorem calc_logic_bounds k s y :
  plain k → const_valid k → valid_solved k → ks_syms k !! s = Some y → logic_type y →
  ∃ k' y', sym_calc_value s k = Done ((), k') ∧ ks_syms k' !! s = Some y' ∧
    let v := sv_tri (sy_curr y') in
    (sy_type y = S_BOOLEAN → v ≠ Mod) ∧
    (ref_deselected k' y' = Some true → v = No) ∧
    (ref_deselected k' y' = Some false →
       ref_rev k' y' = Some (sy_rev_dep_tri y') ∧ tri_leb (sy_rev_dep_tri y') v = true ∧
       (tri_or (sy_visible y') (sy_rev_dep_tri y') ≠ No →
          tri_leb v (tri_or (sy_visible y') (sy_rev_dep_tri y')) = true)).
Proof.
  intros P Cv A H T. destruct (calc_step k s P Cv A) as (k' & E & D & V & A'); [eauto|].
  pose proof (A' s V) as S. pose proof S as (y' & H' & _ & Eq). exists k', y'. split_and!; [done..|].
  destruct (core_sym k k' s y (db_core _ _ _ D) H) as (z & Hz & C). assert (z = y') as -> by congruence.
  apply sy_core_inv in C as (_ & Et & _).
  assert (G : ref_visible k' y' = Some (sy_visible y') ∧
    (ref_deselected k' y' = Some false → ref_rev k' y' = Some (sy_rev_dep_tri y')) ∧
    ref_logic k' y' = Some (sv_tri (sy_curr y'))).
  { unfold equations in Eq. unfold logic_type in T. rewrite <-Et in T. destruct T as [T|T]; rewrite T in Eq; tauto. }
  destruct G as (Gv & Gr & Gl). split_and!.
  - intros Tb. rewrite <-Et in Tb. by apply (solved_not_mod k' s y').
  - intros Hd. by eapply logic_deselected.
  - intros Hd. split; [auto|]. by apply (logic_bounds k' y'); auto.
Qed.

Lemma calc_logic_bounds_witness : ∃ y,
  ks_syms example !! 6 = Some y ∧ logic_type y ∧
  ∃ k' y', sym_calc_value 6 example = Done ((), k') ∧ ks_syms k' !! 6 = Some y' ∧
    let v := sv_tri (sy_curr y') in
    (sy_type y = S_BOOLEAN → v ≠ Mod) ∧
    (ref_deselected k' y' = Some true → v = No) ∧
    (ref_deselected k' y' = Some false →
       ref_rev k' y' = Some (sy_rev_dep_tri y') ∧ tri_leb (sy_rev_dep_tri y') v = true ∧
       (tri_or (sy_visible y') (sy_rev_dep_tri y') ≠ No →
          tri_leb v (tri_or (sy_visible y') (sy_rev_dep_tri y')) = true)).
Proof.
  destruct (ks_syms example !! 6) as [y|] eqn:H; [|by vm_compute in H].
  assert (T : logic_type y) by (right; vm_compute in H; by injection H as <-).
  exists y. split_and!; [done..|].
  exact (calc_logic_bounds example 6 y example_plain example_consts example_solved H T).
Defined.



(** ** The table and the expressions *)

(** C30: a store in which every symbol is calculated is a symbol table as the
    expression component sees it, with the laws that component relies on, and
    [expr_calc_value] on it is the evaluation [expr_value] of the expression
    component, without any change of the store. *)
Theorem calculated_refines k e :
  calculated k → (∀ s, s ∈ expr_syms e → is_Some (ks_syms k !! s)) → wf_expr e = true →
  SymTabOk (symtab_of k) ∧
  expr_calc_value_top (Some e) k = Done (expr_value (T := symtab_of k) e, k).
Proof. intros Ca Hs W. split; [by apply symtab_ok|by apply expr_calc_pure]. Qed.

Lemma calculated_refines_witness :
  SymTabOk (symtab_of example_done) ∧
  expr_calc_value_top (Some (Eand (Esymbol 4) (Enot (Eequal 5 symbol_no)))) example_done =
    Done (expr_value (T := symtab_of example_done) (Eand (Esymbol 4) (Enot (Eequal 5 symbol_no))), example_done).
Proof.
  apply (calculated_refines example_done (Eand (Esymbol 4) (Enot (Eequal 5 symbol_no)))
    example_done_calculated); [|done].
  intros s Hs. apply (bool_decide_eq_true (is_Some (ks_syms example_done !! s))).
  assert (A : forallb (exists_sym example_done) [4; 5; symbol_no] = true) by (by vm_compute).
  exact (forallb_elem _ _ s A Hs).
Defined.

(** C34: [sym_lookup] keeps the table well-formed and returns the symbol of this
    name and constness, the same one from then on; [sym_find] finds exactly
    the symbols that are not constants.  Nothing else changes. *)
Theorem sym_lookup_find k name isconst :
  hash_ok k →
  ∃ s k', sym_lookup (Some name) isconst k = Done (s, k') ∧ hash_ok k' ∧ entry k' name isconst s ∧
    (∀ t y, ks_syms k !! t = Some y → ks_syms k' !! t = Some y) ∧
    sym_lookup (Some name) isconst k' = Done (s, k') ∧
    (isconst = false → sym_find (Some name) k' = Done (Some s, k')) ∧
    ((∀ t, ¬ entry k name false t) → sym_find (Some name) k = Done (None, k)).
Proof.
  intros Ok. destruct (lookup_spec k name isconst Ok) as (s & k' & E & Ok' & En & Hk). exists s, k'.
  split_and!; [done..| | |].
  - by apply lookup_found.
  - intros ->. by apply find_found.
  - by apply find_missing.
Qed.

Lemma sym_lookup_find_witness :
  ∃ s k', sym_lookup (Some "NEW"%string) false example = Done (s, k') ∧ hash_ok k' ∧
    entry k' "NEW" false s ∧
    (∀ t y, ks_syms example !! t = Some y → ks_syms k' !! t = Some y) ∧
    sym_lookup (Some "NEW"%string) false k' = Done (s, k') ∧
    (false = false → sym_find (Some "NEW"%string) k' = Done (Some s, k')) ∧
    ((∀ t, ¬ entry example "NEW" false t) → sym_find (Some "NEW"%string) example = Done (None, example)).
Proof. apply (sym_lookup_find example "NEW" false). apply hash_check_ok. by vm_compute. Defined.

(** ** Recursive dependencies *)



(** ** Settings *)

Lemma example_modules : modules_ok example_done.
Proof. assert (E : ks_modules_sym example_done = None) by (by vm_compute). intros m. rewrite E. discriminate. Qed.



(** [sym_toggle_tristate_value] ends, at the next value in the cycle
    [n], [m], [y] that the symbol may take, or at the old value if there is
    none. *)
Theorem sym_toggle_tristate_value_correct k s y :
  plain k → calculated k → modules_ok k → ks_syms k !! s = Some y → logic_type y →
  ∃ k', sym_toggle_tristate_value s k = Done (toggled y, k').
Proof. apply toggle_run. Qed.

Lemma sym_toggle_tristate_value_correct_witness : ∃ y, ks_syms example_done !! 4 = Some y ∧
  toggled y = Yes ∧ ∃ k', sym_toggle_tristate_value 4 example_done = Done (toggled y, k').
Proof.
  destruct (ks_syms example_done !! 4) as [y|] eqn:H; [|by exfalso; vm_compute in H]. exists y.
  split_and!; [done|vm_compute in H; by injection H as <-|].
  apply (sym_toggle_tristate_value_correct example_done 4 y example_done_plain example_done_calculated
    example_modules H).
  right. vm_compute in H. by injection H as <-.
Defined.

(** What [sym_validate_range] prints for a number is a text that
    [sym_string_valid] accepts for an int or hex symbol, and [strtol] reads
    the number back from it. *)
Theorem printed_number_valid z :
  int32 z →
  string_valid S_INT (print_d z) = true ∧ strtoi (print_d z) 10 = z ∧
  string_valid S_HEX ("0x" +:+ print_x z) = true ∧ strtoi ("0x" +:+ print_x z) 16 = z.
Proof.
  intros H. split_and!; [by apply int_valid_print|by apply strtoi_print_d|by apply hex_valid_print|
    by apply strtoi_print_x].
Qed.

Lemma printed_number_valid_witness :
  string_valid S_INT (print_d (-42)) = true ∧ strtoi (print_d (-42)) 10 = (-42)%Z ∧
  string_valid S_HEX ("0x" +:+ print_x (-42)) = true ∧ strtoi ("0x" +:+ print_x (-42)) 16 = (-42)%Z.
Proof. apply (printed_number_valid (-42)). unfold int32. lia. Defined.
