(* ===== verification/KMenu.v ===== *)
(** * Menus: [scripts/config/menu.c]

    One definition per function.  The menu tree is the pointer structure of
    the code: [list] is the first entry below a menu, [next] the following
    entry.  File names and line numbers, which only messages show, are left
    out; a message is its place and the format string.  Expressions are
    values: the trees that [menu_finalize] hands from one place to another
    without a copy are not written to afterwards. *)
From S2P Require Import Prelude CLib KData KExpr KState KSymbol KSymRef KSymTab.
Open Scope pr30_scope.

(** The menu [rootmenu]. *)
Definition rootmenu : mid := 0.

(** ** Messages *)

Definition menu_warn (m : mid) (fmt : string) : K () := log (MsgMenu m fmt).
Definition prop_warn (p : pid) (fmt : string) : K () := log (MsgProp p fmt).

(** ** Building the tree *)

Definition menu_init : K () :=
  do! mmodify (ks_set_current_menu (Some rootmenu)) in
  do! mmodify (ks_set_current_entry rootmenu) in
  mmodify (ks_set_last_entry (rootmenu, true)).

(** [*last_entry_ptr = menu] *)
Definition set_last_entry (menu : mid) : K () :=
  let! (m, islist) := mgets ks_last_entry in
  upd_menu m (if islist : bool then mn_set_list (Some menu) else mn_set_next (Some menu)).

Definition menu_add_entry (sym : option sid) : K () :=
  let! menu := mgets ks_new_menu in
  let! current_menu := mgets ks_current_menu in
  do! mmodify (ks_set_new_menu (S menu)) in
  do! put_menu menu (Menu None current_menu None sym None None 0) in
  do! set_last_entry menu in
  do! mmodify (ks_set_last_entry (menu, false)) in
  mmodify (ks_set_current_entry menu).

Definition menu_end_entry : K () := mreturn ().

Definition menu_add_menu : K mid :=
  do! menu_end_entry in
  let! current_entry := mgets ks_current_entry in
  do! mmodify (ks_set_last_entry (current_entry, true)) in
  do! mmodify (ks_set_current_menu (Some current_entry)) in
  mreturn current_entry.

Definition menu_end_menu : K () :=
  let! current_menu := mgets ks_current_menu in
  let! current_menu := mderef current_menu in
  do! mmodify (ks_set_last_entry (current_menu, false)) in
  let! x := get_menu current_menu in
  mmodify (ks_set_current_menu (mn_parent x)).

Definition menu_add_dep (dep : option expr) : K () :=
  let! current_entry := mgets ks_current_entry in
  upd_menu current_entry (λ x, mn_set_dep (expr_alloc_and (mn_dep x) dep) x).

Definition menu_set_type (type : symbol_type) : K () :=
  let! current_entry := mgets ks_current_entry in
  let! x := get_menu current_entry in
  let! sym := mderef (mn_sym x) in
  let! y := get_sym sym in
  if decide (sy_type y = type) then mreturn ()
  else if decide (sy_type y = S_UNKNOWN) then upd_sym sym (sy_set_type type)
  else menu_warn current_entry "type of '%s' redefined from '%s' to '%s'\n".

Definition menu_add_prop (type : prop_type) (prompt : option string) (e dep : option expr) : K pid :=
  let! current_entry := mgets ks_current_entry in
  let! x := get_menu current_entry in
  let! prop := prop_alloc type (mn_sym x) in
  do! upd_prop prop (λ p, Property (pr_sym p) (pr_type p) prompt dep (pr_visible_tri p) e (Some current_entry)) in
  do! match prompt with
      | None => mreturn ()
      | Some _ =>
          do! match mn_prompt x with
              | Some _ => menu_warn current_entry "prompt redefined\n"
              | None => mreturn ()
              end in
          upd_menu current_entry (mn_set_prompt (Some prop))
      end in
  mreturn prop.

Definition menu_add_prompt (type : prop_type) (prompt : option string) (dep : option expr) : K pid :=
  menu_add_prop type prompt None dep.
Definition menu_add_expr (type : prop_type) (e dep : option expr) : K () :=
  do! menu_add_prop type None e dep in mreturn ().
Definition menu_add_symbol (type : prop_type) (sym : sid) (dep : option expr) : K () :=
  do! menu_add_prop type None (Some (expr_alloc_symbol sym)) dep in mreturn ().

(** ** Checks of the properties of a symbol *)

(** [sym_string_valid(sym, sym2->name)] with a name that is NULL. *)
Definition menu_range_valid_sym (sym sym2 : sid) : K bool :=
  let! y2 := get_sym sym2 in
  if decide (sy_type y2 = S_INT ∨ sy_type y2 = S_HEX) then mreturn true
  else if decide (sy_type y2 = S_UNKNOWN) then
    let! name := mderef (sy_name y2) in sym_string_valid sym (cs_text name)
  else mreturn false.

Definition is_logic (t : symbol_type) : bool := bool_decide (t = S_BOOLEAN ∨ t = S_TRISTATE).

(** The checks of a [select] ([de = false]) or [deselect]. *)
Definition check_select (de : bool) (sym : sid) (p : pid) : K () :=
  let! y := get_sym sym in
  let! sym2 := prop_get_symbol p in
  if negb (is_logic (sy_type y)) then
    prop_warn p (if de then "config symbol '%s' uses deselect, but is not boolean or tristate"
                 else "config symbol '%s' uses select, but is not boolean or tristate")
  else
    let! sym2 := mderef sym2 in
    let! y2 := get_sym sym2 in
    if decide (sy_type y2 = S_UNKNOWN) then
      prop_warn p (if de then "'deselect' used by config symbol '%s' refer to undefined symbol '%s'"
                   else "'select' used by config symbol '%s' refer to undefined symbol '%s'")
    else mwhen (negb (is_logic (sy_type y2)))
      (prop_warn p (if de then "'%s' has wrong type. 'deselect' only accept arguments of boolean and tristate type"
                    else "'%s' has wrong type. 'select' only accept arguments of boolean and tristate type")).

Definition check_prop (sym : sid) (p : pid) : K () :=
  let! y := get_sym sym in
  let! x := get_prop p in
  match pr_type x with
  | P_DEFAULT =>
      if decide (sy_type y = S_STRING ∨ sy_type y = S_INT ∨ sy_type y = S_HEX) then
        let! e := mderef (pr_expr x) in
        mwhen (negb (is_symbol e))
          (prop_warn p "default for config symbol '%' must be a single symbol")
      else mreturn ()
  | P_SELECT => check_select false sym p
  | P_DESELECT => check_select true sym p
  | P_RANGE =>
      do! mwhen (negb (bool_decide (sy_type y = S_INT ∨ sy_type y = S_HEX)))
            (prop_warn p "range is only allowed for int or hex symbols") in
      let! (l, r) := range_syms p in
      let! a := menu_range_valid_sym sym l in
      let! ok := if a then menu_range_valid_sym sym r else mreturn false in
      mwhen (negb ok) (prop_warn p "range is invalid")
  | _ => mreturn ()
  end.

Definition sym_check_prop (sym : sid) : K () :=
  let! y := get_sym sym in miter (check_prop sym) (sy_prop y).

(** ** [menu_finalize] *)

(** The functions of [expr.c] on a pointer that may be NULL, with the symbol
    table of the moment. *)
Definition expr_transform_k (e : option expr) : K (option expr) :=
  match e with
  | None => mreturn None
  | Some e =>
      let! T := mgets symtab_of in
      let! e := mderef (expr_transform (T := T) e) in mreturn (Some e)
  end.
Definition expr_eliminate_dups_k (e : option expr) : K (option expr) :=
  match e with
  | None => mreturn None
  | Some e =>
      let! T := mgets symtab_of in
      let! e := mderef (expr_eliminate_dups (T := T) e) in mreturn (Some e)
  end.
Definition expr_copy_k (e : option expr) : K (option expr) :=
  match e with
  | None => mreturn None
  | Some e => let! e := mderef (expr_copy e) in mreturn (Some e)
  end.
Definition expr_is_yes_k (e : option expr) : bool := from_option expr_is_yes true e.

(** [prompt ? prompt->visible.expr : other] *)
Definition prompt_visible (prompt : option pid) (other : option expr) : K (option expr) :=
  match prompt with
  | Some p => let! x := get_prop p in mreturn (pr_visible x)
  | None => mreturn other
  end.

(** [for (menu = first; menu; menu = menu->next)], where [body] tells whether
    to go on. *)
Fixpoint menu_loop (n : nat) (body : mid → K bool) (menu : option mid) : K () :=
  match menu with
  | None => mreturn ()
  | Some m =>
      match n with
      | O => mnofuel
      | S n =>
          let! go := body m in
          if go then let! x := get_menu m in menu_loop n body (mn_next x) else mreturn ()
      end
  end.
(** No list is longer than the number of menus. *)
Definition menu_fuel (k : kstate) : nat := S (size (ks_menus k)).
Definition for_menus (first : option mid) (body : mid → K bool) : K () :=
  λ k, menu_loop (menu_fuel k) body first k.

Definition opt_is_choice (sym : option sid) : K bool :=
  match sym with Some s => sym_is_choice s | None => mreturn false end.

(** The type of a choice and of its first value. *)
Definition choice_type (parent : mid) (sym : sid) (menu : mid) : K bool :=
  let! m := get_menu menu in
  match mn_sym m with
  | None => mreturn true
  | Some s =>
      do! mmodify (ks_set_current_entry parent) in
      let! v := get_sym s in
      do! menu_set_type (sy_type v) in
      do! mmodify (ks_set_current_entry menu) in
      let! y := get_sym sym in
      do! menu_set_type (sy_type y) in
      mreturn false
  end.

(** The dependency of one property of [menu], and the reverse dependencies it
    makes. *)
Definition prop_dep (menu : mid) (sym : option sid) (p : pid) : K () :=
  let! x := get_prop p in
  if decide (pr_menu x ≠ Some menu) then mreturn ()
  else
    let! dep := expr_transform_k (pr_visible x) in
    let! m := get_menu menu in
    let! menudep := expr_copy_k (mn_dep m) in
    let! dep := expr_eliminate_dups_k (expr_alloc_and menudep dep) in
    let! dep :=
      match sym with
      | Some s =>
          let! y := get_sym s in
          let! T := mgets symtab_of in
          mreturn (if decide (sy_type y = S_TRISTATE) then dep else expr_trans_bool (T := T) <$> dep)
      | None => mreturn dep
      end in
    do! upd_prop p (pr_set_visible dep) in
    do! (if decide (pr_type x = P_SELECT) then
           let! es := prop_get_symbol p in
           let! es := mderef es in
           let! s := mderef sym in
           let! c := expr_copy_k dep in
           upd_sym es (λ y, sy_set_rev_dep
             (expr_alloc_or (sy_rev_dep y) (expr_alloc_and (Some (expr_alloc_symbol s)) c)) y)
         else mreturn ()) in
    if decide (pr_type x = P_DESELECT) then
      let! es := prop_get_symbol p in
      let! es := mderef es in
      let! s := mderef sym in
      let! c := expr_copy_k dep in
      upd_sym es (λ y, sy_set_rev_dep_inv
        (expr_alloc_or (sy_rev_dep_inv y) (expr_alloc_and (Some (expr_alloc_symbol s)) c)) y)
    else mreturn ().

(** The dependency of the entry [menu] below a menu with [parentdep]. *)
Definition menu_dep (parentdep : option expr) (menu : mid) : K bool :=
  let! m := get_menu menu in
  let! basedep := expr_transform_k (mn_dep m) in
  let! pd := expr_copy_k parentdep in
  let! basedep := expr_eliminate_dups_k (expr_alloc_and pd basedep) in
  do! upd_menu menu (mn_set_dep basedep) in
  let! props :=
    match mn_sym m with
    | Some s => let! y := get_sym s in mreturn (sy_prop y)
    | None => mreturn (match mn_prompt m with Some p => [p] | None => [] end)
    end in
  do! miter (prop_dep menu (mn_sym m)) props in
  mreturn true.

(** [dep] and the comparison of the prompt of [sym] with [n] have nothing
    else in common than what makes the latter true. *)
Definition implied (dep basedep : option expr) : K bool :=
  let! dep := expr_transform_k (expr_trans_compare dep Q_UNEQUAL symbol_no) in
  let! dep := expr_eliminate_dups_k dep in
  let! dep2 := expr_copy_k basedep in
  let! T := mgets symtab_of in
  let! (_, dep2, _) := mderef (expr_eliminate_eq (T := T) dep dep2 0) in
  mreturn (expr_is_yes_k dep2).

Section Finalize.
(** The recursive call of [menu_finalize]. *)
Variable finalize : mid → K ().

(** [if (parent->list)]: the dependencies of the entries, then the entries. *)
Definition finalize_list (parent : mid) : K () :=
  let! x := get_menu parent in
  let! choice := opt_is_choice (mn_sym x) in
  let! parentdep :=
    match mn_sym x, choice with
    | Some s, true =>
        do! for_menus (mn_list x) (choice_type parent s) in
        mreturn (Some (expr_alloc_symbol s))
    | _, _ => prompt_visible (mn_prompt x) (mn_dep x)
    end in
  do! for_menus (mn_list x) (menu_dep parentdep) in
  for_menus (mn_list x) (λ menu, do! finalize menu in mreturn true).

(** The entries after [parent] that depend on its symbol; the result is the
    last of them. *)
Fixpoint adopt_loop (n : nat) (parent : mid) (sym : sid) (basedep : option expr)
    (menu last_menu : option mid) : K (option mid) :=
  match menu with
  | None => mreturn last_menu
  | Some m =>
      match n with
      | O => mnofuel
      | S n =>
          let! x := get_menu m in
          let! dep := prompt_visible (mn_prompt x) (mn_dep x) in
          if negb (from_option (λ e, expr_contains_symbol e sym) false dep) then mreturn last_menu
          else
            let! ok :=
              if from_option (λ e, expr_depends_symbol e sym) false dep then mreturn true
              else implied dep basedep in
            if ok then
              do! finalize m in
              do! upd_menu m (mn_set_parent (Some parent)) in
              let! x := get_menu m in
              adopt_loop n parent sym basedep (mn_next x) (Some m)
            else mreturn last_menu
      end
  end.

(** [parent->list = parent->next; parent->next = last_menu->next;
    last_menu->next = NULL;] *)
Definition adopt (parent last_menu : mid) : K () :=
  do! upd_menu parent (λ x, mn_set_list (mn_next x) x) in
  let! l := get_menu last_menu in
  do! upd_menu parent (mn_set_next (mn_next l)) in
  upd_menu last_menu (mn_set_next None).

(** [else if (sym)]: the following entries become a submenu. *)
Definition finalize_next (parent : mid) (sym : sid) : K () :=
  let! x := get_menu parent in
  let! basedep := prompt_visible (mn_prompt x) None in
  let! basedep := expr_transform_k (expr_trans_compare basedep Q_UNEQUAL symbol_no) in
  let! basedep := expr_eliminate_dups_k basedep in
  let! n := mgets menu_fuel in
  let! last_menu := adopt_loop n parent sym basedep (mn_next x) None in
  match last_menu with Some l => adopt parent l | None => mreturn () end.

(** [for (ep = &prop->expr; *ep; ep = &( *ep)->left.expr) ;] and the new node. *)
Fixpoint choice_append (e : expr) (s : sid) : option expr :=
  match e with
  | Echoice None s0 => Some (Echoice (Some (Echoice None s)) s0)
  | Echoice (Some l) s0 => let? l := choice_append l s in Some (Echoice (Some l) s0)
  | _ => None
  end.
Definition choice_append_null (e : option expr) (s : sid) : option expr :=
  match e with None => Some (Echoice None s) | Some e => choice_append e s end.

(** The entry [menu] of the choice [sym] becomes one of its values. *)
Definition choice_value (sym : sid) (menu : mid) (vs : sid) : K () :=
  do! or_flags vs SYMBOL_CHOICEVAL in
  let! m := get_menu menu in
  do! match mn_prompt m with
      | None => menu_warn menu "choice value must have a prompt"
      | Some _ => mreturn ()
      end in
  let! v := get_sym vs in
  do! miter (λ p,
        let! x := get_prop p in
        mwhen (bool_decide (pr_type x = P_PROMPT ∧ pr_menu x ≠ Some menu))
          (prop_warn p "choice values currently only support a single prompt")) (sy_prop v) in
  do! mmodify (ks_set_current_entry menu) in
  let! y := get_sym sym in
  do! menu_set_type (sy_type y) in
  do! menu_add_symbol P_CHOICE sym None in
  let! p := sym_get_choice_prop sym in
  let! p := mderef p in
  let! x := get_prop p in
  let! e := mderef (choice_append_null (pr_expr x) vs) in
  upd_prop p (pr_set_expr (Some e)).

(** The entries of a list get the parent [parent]; the result is the last. *)
Fixpoint hoist_loop (n : nat) (parent last_menu : mid) : K mid :=
  match n with
  | O => mnofuel
  | S n =>
      do! upd_menu last_menu (mn_set_parent (Some parent)) in
      let! x := get_menu last_menu in
      match mn_next x with
      | None => mreturn last_menu
      | Some m => hoist_loop n parent m
      end
  end.

(** The entries below [menu] become entries after it. *)
Definition hoist (parent menu first : mid) : K () :=
  let! n := mgets menu_fuel in
  let! last_menu := hoist_loop n parent first in
  let! x := get_menu menu in
  do! upd_menu last_menu (mn_set_next (mn_next x)) in
  do! upd_menu menu (λ x, mn_set_next (mn_list x) x) in
  upd_menu menu (mn_set_list None).

(** [menu->prompt && menu->prompt->text] *)
Definition has_prompt_text (m : menu) : K bool :=
  match mn_prompt m with
  | None => mreturn false
  | Some p => let! x := get_prop p in mreturn (bool_decide (pr_text x ≠ None))
  end.

Definition finalize_entry (parent : mid) (sym : option sid) (menu : mid) : K bool :=
  let! choice := opt_is_choice sym in
  let! m := get_menu menu in
  do! match sym, choice, mn_sym m with
      | Some s, true, Some vs => choice_value s menu vs
      | _, _, _ => mreturn ()
      end in
  let! m := get_menu menu in
  do! match mn_list m with
      | None => mreturn ()
      | Some first => let! b := has_prompt_text m in if b then mreturn () else hoist parent menu first
      end in
  mreturn true.

(** The warnings, once for each symbol. *)
Definition finalize_warn (parent : mid) (sym : sid) : K () :=
  let! y := get_sym sym in
  if has_flag (sy_flags y) SYMBOL_WARNED then mreturn ()
  else
    do! mwhen (bool_decide (sy_type y = S_UNKNOWN))
          (menu_warn parent "config symbol defined without type\n") in
    let! x := get_menu parent in
    do! mwhen (is_choice y && bool_decide (mn_prompt x = None))
          (menu_warn parent "choice must have a prompt\n") in
    do! sym_check_prop sym in
    or_flags sym SYMBOL_WARNED.

(** A symbol with a prompt is selected by its own prompt as [m]. *)
Definition finalize_rev_dep (parent : mid) (sym : sid) : K () :=
  let! y := get_sym sym in
  let! x := get_menu parent in
  match is_optional y, mn_prompt x with
  | false, Some p =>
      let! q := get_prop p in
      upd_sym sym (λ y, sy_set_rev_dep
        (expr_alloc_or (sy_rev_dep y)
           (expr_alloc_and (pr_visible q) (Some (expr_alloc_symbol symbol_mod)))) y)
  | _, _ => mreturn ()
  end.

Definition menu_finalize_body (parent : mid) : K () :=
  let! x := get_menu parent in
  let sym := mn_sym x in
  do! match mn_list x, sym with
      | Some _, _ => finalize_list parent
      | None, Some s => finalize_next parent s
      | None, None => mreturn ()
      end in
  let! x := get_menu parent in
  do! for_menus (mn_list x) (finalize_entry parent sym) in
  match sym with
  | Some s => do! finalize_warn parent s in finalize_rev_dep parent s
  | None => mreturn ()
  end.
End Finalize.

Fixpoint menu_finalize_f (n : nat) (parent : mid) : K () :=
  match n with
  | O => mnofuel
  | S n => menu_finalize_body (menu_finalize_f n) parent
  end.
(** Every menu is finalized once. *)
Definition menu_finalize (parent : mid) : K () := λ k, menu_finalize_f (menu_fuel k) parent k.

(** ** Queries *)

(** The loop over the children, where [visible] is the recursive call. *)
Fixpoint any_child (n : nat) (visible : mid → K bool) (child : option mid) : K bool :=
  match child with
  | None => mreturn false
  | Some c =>
      match n with
      | O => mnofuel
      | S n =>
          let! b := visible c in
          if b then mreturn true else let! x := get_menu c in any_child n visible (mn_next x)
      end
  end.

Fixpoint menu_is_visible_f (n : nat) (menu : mid) : K bool :=
  match n with
  | O => mnofuel
  | S n =>
      let! m := get_menu menu in
      match mn_prompt m with
      | None => mreturn false
      | Some p =>
          let! visible :=
            match mn_sym m with
            | Some s => do! sym_calc_value s in let! x := get_prop p in mreturn (pr_visible_tri x)
            | None => calc_prop_visible sym_calc_value p
            end in
          if decide (visible ≠ No) then mreturn true
          else
            match mn_sym m with
            | None => mreturn false
            | Some s =>
                let! tri := sym_get_tristate_value s in
                if decide (tri = No) then mreturn false
                else
                  let! m := get_menu menu in
                  let! fuel := mgets menu_fuel in
                  any_child fuel (menu_is_visible_f n) (mn_list m)
            end
      end
  end.
Definition menu_is_visible (menu : mid) : K bool := λ k, menu_is_visible_f (menu_fuel k) menu k.

Section Prompt.
(** The translation of a message. *)
Variable gettext : string → string.

Definition menu_get_prompt (menu : mid) : K (option string) :=
  let! m := get_menu menu in
  match mn_prompt m, mn_sym m with
  | Some p, _ => let! x := get_prop p in mreturn (gettext <$> pr_text x)
  | None, Some s => let! y := get_sym s in mreturn (gettext ∘ cs_text <$> sy_name y)
  | None, None => mreturn None
  end.
End Prompt.

Definition menu_get_root_menu (menu : option mid) : mid := rootmenu.

Fixpoint parent_menu_f (n : nat) (menu : mid) : K mid :=
  match n with
  | O => mnofuel
  | S n =>
      if decide (menu = rootmenu) then mreturn menu
      else
        let! m := get_menu menu in
        let! type :=
          match mn_prompt m with
          | Some p => let! x := get_prop p in mreturn (pr_type x)
          | None => mreturn P_UNKNOWN
          end in
        if decide (type = P_MENU) then mreturn menu
        else let! up := mderef (mn_parent m) in parent_menu_f n up
  end.
Definition menu_get_parent_menu (menu : mid) : K mid := λ k, parent_menu_f (menu_fuel k) menu k.
