(* ===== verification/KMenuInv.v ===== *)
(** * What [menu_finalize] needs of a store, and keeps

    The invariant [minv] of the objects that a parsed configuration consists
    of, and that each step of [menu_finalize] short of the changes to the
    menu lists runs without a crash, keeps the invariant and leaves the shape
    of the menu tree alone ([ext]). *)
From S2P Require Import Prelude CLib KData KExpr KExprFacts KExprEq KExprSimp KExprPass KExprSyms.
From S2P Require Import KState KSymbol KSymFrame KSymRef KSymTab KMenu.
Open Scope pr30_scope.

(** ** The invariant *)

Definition wf_null (e : option expr) : Prop := from_option wf_expr true e = true.
Definition sym_some (k : kstate) (s : sid) : Prop := is_Some (ks_syms k !! s).
(** A dependency expression over existing symbols. *)
Definition good (k : kstate) (e : option expr) : Prop := wf_null e ∧ over_null (sym_some k) e.

Lemma good_mono k k' e : (∀ s, sym_some k s → sym_some k' s) → good k e → good k' e.
Proof. intros H [W O]. split; [done|]. by eapply over_null_mono. Qed.

(** The first property of type [P_CHOICE]. *)
Fixpoint choice_prop (k : kstate) (l : list pid) : option pid :=
  match l with
  | [] => None
  | p :: l =>
      let? x := ks_props k !! p in
      if decide (pr_type x = P_CHOICE) then Some p else choice_prop k l
  end.

Definition prop_ok (k : kstate) (x : property) : Prop :=
  good k (pr_visible x) ∧ over_null (sym_some k) (pr_expr x) ∧
  (∀ m, pr_menu x = Some m → is_Some (ks_menus k !! m)) ∧
  match pr_type x with
  | P_DEFAULT => ∃ e, pr_expr x = Some e ∧ wf_expr e = true
  | P_SELECT | P_DESELECT => ∃ t, pr_expr x = Some (Esymbol t) ∧ sym_some k t
  | P_RANGE => ∃ l r, pr_expr x = Some (Erange l r) ∧
      ∀ t, t = l ∨ t = r → ∃ y, ks_syms k !! t = Some y ∧ is_Some (sy_name y)
  | _ => True
  end.

(** Nothing has been calculated, set or checked yet; the static symbols are
    born valid. *)
Definition state_bits : Z :=
  Z.lor (Z.lor SYMBOL_VALID SYMBOL_NEW) (Z.lor SYMBOL_CHECK SYMBOL_CHECKED).
Definition const_tri (s : sid) : tristate :=
  if decide (s = symbol_yes) then Yes else if decide (s = symbol_mod) then Mod else No.
Definition born (s : sid) (y : symbol) : Prop :=
  Z.land (sy_flags y) state_bits = (if decide (s ≤ symbol_empty) then SYMBOL_VALID else SYMBOL_NEW) ∧
  (s ≤ symbol_empty → ∃ c, sy_name y = Some c ∧ sy_curr y = SValue (VStr c) (const_tri s)).

(** There is a choice. *)
Definition some_choice (k : kstate) : Prop := ∃ c z, ks_syms k !! c = Some z ∧ is_choice z = true.

Record minv (k : kstate) : Prop := {
  mi_const : ∀ s, s = symbol_yes ∨ s = symbol_mod ∨ s = symbol_no →
    ∃ y, ks_syms k !! s = Some y ∧ is_const y = true;
  mi_type : ∀ s y, ks_syms k !! s = Some y → is_const y = true → sy_type y = S_UNKNOWN;
  mi_props : ∀ s y p, ks_syms k !! s = Some y → p ∈ sy_prop y → is_Some (ks_props k !! p);
  mi_choice : ∀ s y, ks_syms k !! s = Some y → is_choice y = true →
    ∃ p x, choice_prop k (sy_prop y) = Some p ∧ ks_props k !! p = Some x ∧
      is_Some (choice_values (pr_expr x));
  mi_value : ∀ s y, ks_syms k !! s = Some y → is_choice_value y = true → some_choice k;
  mi_prop : ∀ p x, ks_props k !! p = Some x → prop_ok k x;
  mi_sym : ∀ m x s, ks_menus k !! m = Some x → mn_sym x = Some s →
    ∃ y, ks_syms k !! s = Some y ∧ is_const y = false ∧ s ≠ symbol_empty;
  mi_prompt : ∀ m x p, ks_menus k !! m = Some x → mn_prompt x = Some p →
    ∃ q, ks_props k !! p = Some q ∧ pr_type q ≠ P_SELECT ∧ pr_type q ≠ P_DESELECT;
  mi_dep : ∀ m x, ks_menus k !! m = Some x → good k (mn_dep x);
  mi_rev : ∀ s y, ks_syms k !! s = Some y → good k (sy_rev_dep y) ∧ good k (sy_rev_dep_inv y);
  mi_born : ∀ s y, ks_syms k !! s = Some y → born s y;
  mi_empty : ∀ y, ks_syms k !! symbol_empty = Some y → is_const y = false ∧ sy_type y = S_UNKNOWN;
  mi_new : ∀ p, is_Some (ks_props k !! p) → p < ks_new_prop k;
}.

(** ** What stays *)

Definition mshape (x : menu) : option mid * option mid * option mid * option sid * option pid :=
  (mn_parent x, mn_list x, mn_next x, mn_sym x, mn_prompt x).
(** What the hash table goes by. *)
Definition ident (y : symbol) : option cstr * bool := (sy_name y, is_const y).

Record ext (k k' : kstate) : Prop := {
  ex_table : ks_hash k' = ks_hash k ∧ ks_new_sym k' = ks_new_sym k ∧ ident <$> ks_syms k' = ident <$> ks_syms k;
  ex_menu : mshape <$> ks_menus k' = mshape <$> ks_menus k;
  ex_sym : ∀ s y, ks_syms k !! s = Some y → ∃ y', ks_syms k' !! s = Some y' ∧
    is_choice y' = is_choice y ∧ is_const y' = is_const y ∧ ∃ l, sy_prop y' = sy_prop y ++ l;
  ex_prop : ∀ p x, ks_props k !! p = Some x → ∃ x', ks_props k' !! p = Some x' ∧ pr_type x' = pr_type x;
  ex_text : ∀ p x, ks_props k !! p = Some x → ∃ x', ks_props k' !! p = Some x' ∧ pr_text x' = pr_text x;
}.

Lemma ext_refl k : ext k k.
Proof. split; [done|done| | |]; intros; eexists; split_and!; eauto. exists []. by rewrite app_nil_r. Qed.
Lemma ext_trans k1 k2 k3 : ext k1 k2 → ext k2 k3 → ext k1 k3.
Proof.
  intros [(D1 & F1 & G1) A1 B1 C1 T1] [(D2 & F2 & G2) A2 B2 C2 T2]. split; [split_and!; congruence|congruence| | |].
  - intros s y H. destruct (B1 s y H) as (y1 & H1 & E1 & E1' & l1 & L1).
    destruct (B2 s y1 H1) as (y2 & H2 & E2 & E2' & l2 & L2). exists y2.
    split_and!; [done|congruence..|]. exists (l1 ++ l2). by rewrite L2, L1, app_assoc.
  - intros p x H. destruct (C1 p x H) as (x1 & H1 & E1), (C2 p x1 H1) as (x2 & H2 & E2).
    exists x2. split; congruence.
  - intros p x H. destruct (T1 p x H) as (x1 & H1 & E1), (T2 p x1 H1) as (x2 & H2 & E2).
    exists x2. split; congruence.
Qed.

Lemma ext_menu k k' m x : ext k k' → ks_menus k !! m = Some x →
  ∃ x', ks_menus k' !! m = Some x' ∧ mshape x' = mshape x.
Proof.
  intros E H. assert (L : (mshape <$> ks_menus k') !! m = Some (mshape x)).
  { by rewrite (ex_menu _ _ E), lookup_fmap, H. }
  rewrite lookup_fmap in L. destruct (ks_menus k' !! m) as [x'|]; [|done]. apply (inj Some) in L. eauto.
Qed.
Lemma ext_sym k k' s : ext k k' → sym_some k s → sym_some k' s.
Proof. intros E [y H]. destruct (ex_sym _ _ E s y H) as (y' & ? & _). by exists y'. Qed.
Lemma ext_good k k' e : ext k k' → good k e → good k' e.
Proof. intros E. apply good_mono. intros s. by apply ext_sym. Qed.
Lemma ext_prop k k' p : ext k k' → is_Some (ks_props k !! p) → is_Some (ks_props k' !! p).
Proof. intros E [x H]. destruct (ex_prop _ _ E p x H) as (x' & ? & _). by exists x'. Qed.
Lemma ext_size k k' : ext k k' → menu_fuel k' = menu_fuel k.
Proof.
  intros E. unfold menu_fuel. f_equal. rewrite <-(map_size_fmap mshape (ks_menus k')), (ex_menu _ _ E).
  by rewrite map_size_fmap.
Qed.

(** ** Runs that keep the invariant and the shape *)

Definition calm {A} (m : K A) (k : kstate) (Q : A → kstate → Prop) : Prop :=
  spec False m k (λ a k', minv k' ∧ ext k k' ∧ Q a k').

Lemma calm_ret {A} (a : A) k (Q : A → kstate → Prop) : minv k → Q a k → calm (mreturn a) k Q.
Proof. intros. split_and!; [done|apply ext_refl|done]. Qed.
Lemma calm_bind {A B} (m : K A) (f : A → K B) k R Q :
  calm m k R → (∀ a k1, minv k1 → ext k k1 → R a k1 → calm (f a) k1 Q) → calm (mthen m f) k Q.
Proof.
  intros Hm Hf. eapply spec_bind; [exact Hm|]. intros a k1 (I1 & E1 & R1).
  eapply spec_mono; [by apply Hf|]. intros b k2 (I2 & E2 & Q2). split_and!; [done|by eapply ext_trans|done].
Qed.
Lemma calm_mono {A} (m : K A) k (Q R : A → kstate → Prop) :
  calm m k R → (∀ a k', minv k' → ext k k' → R a k' → Q a k') → calm m k Q.
Proof. intros Hm H. eapply spec_mono; [exact Hm|]. intros a k' (? & ? & ?). split_and!; auto. Qed.
Lemma calm_gets {A B} (f : kstate → A) (g : A → K B) k Q : calm (g (f k)) k Q → calm (mthen (mgets f) g) k Q.
Proof. done. Qed.
Lemma calm_deref {A B} (o : option A) a (g : A → K B) k Q : o = Some a → calm (g a) k Q → calm (mthen (mderef o) g) k Q.
Proof. by intros ->. Qed.
Lemma calm_get_sym {B} s y (g : symbol → K B) k Q :
  ks_syms k !! s = Some y → calm (g y) k Q → calm (mthen (get_sym s) g) k Q.
Proof. intros H. unfold calm, spec, mthen, get_sym. by rewrite H. Qed.
Lemma calm_get_prop {B} p x (g : property → K B) k Q :
  ks_props k !! p = Some x → calm (g x) k Q → calm (mthen (get_prop p) g) k Q.
Proof. intros H. unfold calm, spec, mthen, get_prop. by rewrite H. Qed.
Lemma calm_get_menu {B} m x (g : menu → K B) k Q :
  ks_menus k !! m = Some x → calm (g x) k Q → calm (mthen (get_menu m) g) k Q.
Proof. intros H. unfold calm, spec, mthen, get_menu. by rewrite H. Qed.
Lemma calm_when (b : bool) (m : K ()) k (Q : () → kstate → Prop) :
  minv k → Q () k → (b = true → calm m k Q) → calm (mwhen b m) k Q.
Proof. intros I HQ Hm. destruct b; [auto|]. by apply calm_ret. Qed.
Lemma calm_iter {A} (f : A → K ()) (l : list A) k :
  minv k → (∀ a k1, a ∈ l → minv k1 → ext k k1 → calm (f a) k1 (λ _ _, True)) → calm (miter f l) k (λ _ _, True).
Proof.
  intros I Hf. assert (G : ∀ k1, minv k1 → ext k k1 → calm (miter f l) k1 (λ _ _, True)).
  2:{ apply G; [done|apply ext_refl]. }
  induction l as [|a l IH]; intros k1 I1 E1; [by apply calm_ret|]. simpl.
  eapply calm_bind; [apply Hf; [by left|done..]|]. intros [] k2 I2 E2 _. apply IH; [|done|by eapply ext_trans].
  intros b k3 Hb. apply Hf. by right.
Qed.

(** ** Single updates *)

Lemma prop_ok_mono k k' x :
  (∀ s y, ks_syms k !! s = Some y → ∃ y', ks_syms k' !! s = Some y' ∧ sy_name y' = sy_name y) →
  (∀ m, is_Some (ks_menus k !! m) → is_Some (ks_menus k' !! m)) →
  prop_ok k x → prop_ok k' x.
Proof.
  intros H Hm (W & O & M & E).
  assert (S : ∀ t, sym_some k t → sym_some k' t).
  { intros t [y Hy]. destruct (H t y Hy) as (y' & ? & _). by exists y'. }
  split_and!; [by eapply good_mono|by eapply over_null_mono|by auto|].
  destruct (pr_type x); try done.
  - destruct E as (t & ? & ?). exists t. auto.
  - destruct E as (t & ? & ?). exists t. auto.
  - destruct E as (l & r & El & Hl). exists l, r. split; [done|]. intros t Ht.
    destruct (Hl t Ht) as (y & Hy & Hn). destruct (H t y Hy) as (y' & ? & En). exists y'. by rewrite En.
Qed.

(** A change of a symbol that keeps its name, its properties and its kind. *)
Record sym_kept (k : kstate) (s : sid) (y y' : symbol) : Prop := {
  sk_choice : is_choice y' = is_choice y;
  sk_value : is_choice_value y' = true → is_choice_value y = true ∨ some_choice k;
  sk_const : is_const y' = is_const y;
  sk_name : sy_name y' = sy_name y;
  sk_type : is_const y = true ∨ s = symbol_empty → sy_type y' = sy_type y;
  sk_born : Z.land (sy_flags y') state_bits = Z.land (sy_flags y) state_bits;
  sk_curr : sy_curr y' = sy_curr y;
}.

Lemma upd_sym_ext k s y y' l :
  ks_syms k !! s = Some y → sym_kept k s y y' → sy_prop y' = sy_prop y ++ l →
  ext k (ks_set_syms (<[s := y']> (ks_syms k)) k).
Proof.
  intros H [A V B C D F _] P. split; [split_and!; [done..|]|done| |by eauto|by eauto].
  { simpl. rewrite fmap_insert. apply insert_id. rewrite lookup_fmap, H. unfold ident. simpl. congruence. }
  intros t z Hz. simpl. destruct (decide (t = s)) as [->|Hne].
  - rewrite lookup_insert_eq. assert (z = y) as -> by congruence. eauto 10.
  - rewrite lookup_insert_ne by done. exists z. split_and!; [done..|]. exists []. by rewrite app_nil_r.
Qed.

Lemma choice_prop_app k l1 l2 p : choice_prop k l1 = Some p → choice_prop k (l1 ++ l2) = Some p.
Proof. induction l1 as [|q l1 IH]; simpl; [done|]. intros H. opt_step H. case_decide; auto. Qed.

Lemma choice_prop_kept k k' l :
  (∀ p, pr_type <$> (ks_props k' !! p) = pr_type <$> (ks_props k !! p)) → choice_prop k' l = choice_prop k l.
Proof.
  intros H. induction l as [|p l IH]; [done|]. simpl. specialize (H p).
  destruct (ks_props k !! p) as [x|], (ks_props k' !! p) as [x'|]; try done.
  injection H as H. by rewrite H, IH.
Qed.

(** A symbol is written; the choice it may be has its values. *)
Lemma put_sym_minv k s y y' :
  minv k → ks_syms k !! s = Some y → sy_name y' = sy_name y → is_const y' = is_const y →
  (is_const y = true ∨ s = symbol_empty → sy_type y' = sy_type y) →
  Z.land (sy_flags y') state_bits = Z.land (sy_flags y) state_bits → sy_curr y' = sy_curr y →
  (is_choice y = true → is_choice y' = true) → (is_choice_value y' = true → is_choice_value y = true ∨ some_choice k) →
  good k (sy_rev_dep y') → good k (sy_rev_dep_inv y') →
  (∀ p, p ∈ sy_prop y' → is_Some (ks_props k !! p)) →
  (is_choice y' = true → ∃ p x, choice_prop k (sy_prop y') = Some p ∧ ks_props k !! p = Some x ∧
     is_Some (choice_values (pr_expr x))) →
  minv (ks_set_syms (<[s := y']> (ks_syms k)) k).
Proof.
  intros I H En Ec Et Eb Ev Hk Hv Gr Gi Hp Hc. set (k' := ks_set_syms _ k).
  assert (L : ∀ t z', ks_syms k' !! t = Some z' → t = s ∧ z' = y' ∨ ks_syms k !! t = Some z').
  { simpl. intros t z'. destruct (decide (t = s)) as [->|Hne]; [|rewrite lookup_insert_ne by done; auto].
    rewrite lookup_insert_eq. intros [= ->]. auto. }
  assert (L' : ∀ t z, ks_syms k !! t = Some z → ∃ z', ks_syms k' !! t = Some z' ∧ sy_name z' = sy_name z ∧ is_const z' = is_const z).
  { simpl. intros t z Hz. destruct (decide (t = s)) as [->|Hne].
    - rewrite lookup_insert_eq. assert (z = y) as -> by congruence. eauto.
    - rewrite lookup_insert_ne by done. eauto. }
  assert (Sm : ∀ t, sym_some k t → sym_some k' t).
  { intros t [z Hz]. destruct (L' t z Hz) as (z' & ? & _). by exists z'. }
  assert (Sc : some_choice k → some_choice k').
  { intros (c & z & Hz & Cz). destruct (decide (c = s)) as [->|Hne].
    - exists s, y'. split; [apply lookup_insert_eq|]. apply Hk. congruence.
    - exists c, z. simpl. by rewrite lookup_insert_ne. }
  split.
  - intros t Ht. destruct (mi_const k I t Ht) as (z & Hz & Cz). destruct (L' t z Hz) as (z' & Hz' & _ & E).
    exists z'. split; congruence.
  - intros t z' [[-> ->]|Hz]%L; [|by apply (mi_type k I t)]. rewrite Ec. intros Cz. rewrite Et by auto.
    by apply (mi_type k I s).
  - intros t z' p [[-> ->]|Hz]%L; [by apply Hp|]. by apply (mi_props k I t).
  - intros t z' [[-> ->]|Hz]%L Cz; rewrite (choice_prop_kept k) by done; [by apply Hc|]. by apply (mi_choice k I t).
  - intros t z' [[-> ->]|Hz]%L Vz; apply Sc; [|by apply (mi_value k I t z')].
    destruct (Hv Vz); [by apply (mi_value k I s y)|done].
  - intros p x Hx. eapply (prop_ok_mono k); [|done|by eapply mi_prop]. intros t z Hz.
    destruct (L' t z Hz) as (z' & ? & ? & _). eauto.
  - intros m x t Hm Ht. destruct (mi_sym k I m x t Hm Ht) as (z & Hz & Cz & Nz).
    destruct (L' t z Hz) as (z' & ? & _ & E). exists z'. split_and!; congruence.
  - apply (mi_prompt k I).
  - intros m x Hm. eapply (good_mono k); [done|]. by apply (mi_dep k I m).
  - intros t z' [[-> ->]|Hz]%L; [split; by eapply (good_mono k)|]. destruct (mi_rev k I t z' Hz). split; by eapply (good_mono k).
  - intros t z' [[-> ->]|Hz]%L; [|by apply (mi_born k I t)]. unfold born. rewrite Eb, En, Ev. by apply (mi_born k I s).
  - intros z' [[<- ->]|Hz]%L; [|by apply (mi_empty k I)]. rewrite Ec, Et by auto. by apply (mi_empty k I).
  - apply (mi_new k I).
Qed.

Lemma upd_sym_minv k s y y' l :
  minv k → ks_syms k !! s = Some y → sym_kept k s y y' → sy_prop y' = sy_prop y ++ l →
  good k (sy_rev_dep y') → good k (sy_rev_dep_inv y') →
  (∀ p, p ∈ l → is_Some (ks_props k !! p)) → minv (ks_set_syms (<[s := y']> (ks_syms k)) k).
Proof.
  intros I H [A V B C D E F] P Gr Gi Hl. apply (put_sym_minv k s y); try done; [by rewrite A|..]; rewrite P.
  - intros p [Hp|Hp]%elem_of_app; [by apply (mi_props k I s y)|auto].
  - rewrite A. intros Cy. destruct (mi_choice k I s y H Cy) as (p & x & Hp & Hx). exists p, x.
    split; [by apply choice_prop_app|done].
Qed.

Lemma calm_upd_sym s f k y :
  minv k → ks_syms k !! s = Some y → sym_kept k s y (f y) → sy_prop (f y) = sy_prop y →
  good k (sy_rev_dep (f y)) → good k (sy_rev_dep_inv (f y)) →
  calm (upd_sym s f) k (λ _ k', ks_syms k' !! s = Some (f y) ∧ ks_props k' = ks_props k).
Proof.
  intros I H Sk P Gr Gi. unfold calm, spec, upd_sym, mthen. rewrite (run_get_sym _ _ _ H). simpl.
  assert (P' : sy_prop (f y) = sy_prop y ++ []) by (by rewrite app_nil_r). split_and!.
  - eapply upd_sym_minv; eauto. intros p Hp. by apply elem_of_nil in Hp.
  - by eapply upd_sym_ext.
  - apply lookup_insert_eq.
  - done.
Qed.

(** A change of a property that keeps its type. *)
Lemma calm_upd_prop p f k x :
  minv k → ks_props k !! p = Some x → pr_type (f x) = pr_type x → pr_text (f x) = pr_text x → prop_ok k (f x) →
  (is_Some (choice_values (pr_expr x)) → is_Some (choice_values (pr_expr (f x)))) →
  calm (upd_prop p f) k (λ _ k', ks_syms k' = ks_syms k).
Proof.
  intros I H T Tx Ok Hc. unfold calm, spec, upd_prop, mthen, get_prop. rewrite H. simpl.
  set (k' := ks_set_props (<[p := f x]> (ks_props k)) k).
  assert (Lt : ∀ q, pr_type <$> (ks_props k' !! q) = pr_type <$> (ks_props k !! q)).
  { intros q. simpl. destruct (decide (q = p)) as [->|Hne]; [rewrite lookup_insert_eq, H; simpl; by rewrite T|].
    by rewrite lookup_insert_ne. }
  assert (Ls : ∀ q, is_Some (ks_props k !! q) ↔ is_Some (ks_props k' !! q)).
  { intros q. by rewrite <-(fmap_is_Some pr_type (ks_props k' !! q)), Lt, fmap_is_Some. }
  assert (Hne : ∀ q, q ≠ p → ks_props k' !! q = ks_props k !! q) by (intros q Hq; simpl; by rewrite lookup_insert_ne).
  assert (Hp : ks_props k' !! p = Some (f x)) by (simpl; apply lookup_insert_eq).
  split_and!; [split|split|done].
  - apply (mi_const k I).
  - apply (mi_type k I).
  - intros s y q Hy Hq. apply Ls. by apply (mi_props k I s y).
  - intros s y Hy Cy. destruct (mi_choice k I s y Hy Cy) as (q & z & Hq & Hz & Hv).
    rewrite (choice_prop_kept k k' _ Lt). exists q. destruct (decide (q = p)) as [->|Hn].
    + exists (f x). assert (z = x) as -> by congruence. auto.
    + exists z. rewrite Hne; auto.
  - apply (mi_value k I).
  - intros q z Hz. destruct (decide (q = p)) as [->|Hn].
    + rewrite Hp in Hz. injection Hz as <-. eapply (prop_ok_mono k); [by eauto|done|done].
    + rewrite Hne in Hz by done. eapply (prop_ok_mono k); [by eauto|done|]. by eapply mi_prop.
  - apply (mi_sym k I).
  - intros m z q Hm Hq. destruct (mi_prompt k I m z q Hm Hq) as (w & Hw & N1 & N2).
    pose proof (Lt q) as Lq. rewrite Hw in Lq. destruct (ks_props k' !! q) as [w'|]; [|done].
    injection Lq as Lq. exists w'. rewrite Lq. done.
  - apply (mi_dep k I).
  - apply (mi_rev k I).
  - apply (mi_born k I).
  - apply (mi_empty k I).
  - intros q Hq. apply (mi_new k I). by apply Ls.
  - done.
  - done.
  - intros s y Hy. exists y. split_and!; [done..|]. exists []. by rewrite app_nil_r.
  - intros q z Hz. pose proof (Lt q) as Lq. rewrite Hz in Lq. destruct (ks_props k' !! q) as [w'|]; [|done].
    injection Lq as Lq. eauto.
  - intros q z Hz. destruct (decide (q = p)) as [->|Hn]; [|exists z; by rewrite Hne].
    exists (f x). split; [done|]. congruence.
Qed.

(** A menu is written, new or not. *)
Lemma put_menu_minv k m x' :
  minv k →
  (∀ s, mn_sym x' = Some s → ∃ y, ks_syms k !! s = Some y ∧ is_const y = false ∧ s ≠ symbol_empty) →
  (∀ p, mn_prompt x' = Some p → ∃ q, ks_props k !! p = Some q ∧ pr_type q ≠ P_SELECT ∧ pr_type q ≠ P_DESELECT) →
  good k (mn_dep x') → minv (ks_set_menus (<[m := x']> (ks_menus k)) k).
Proof.
  intros I Hs Hp W. set (k' := ks_set_menus _ k).
  assert (L : ∀ n z', ks_menus k' !! n = Some z' → z' = x' ∨ ks_menus k !! n = Some z').
  { simpl. intros n z'. destruct (decide (n = m)) as [->|Hne]; [|rewrite lookup_insert_ne by done; auto].
    rewrite lookup_insert_eq. intros [= ->]. auto. }
  split; try apply I.
  - intros s y Hy Cy. destruct (mi_choice k I s y Hy Cy) as (q & z & Hq & Hz & Hv). exists q, z.
    rewrite (choice_prop_kept k) by done. done.
  - intros p q Hq. eapply (prop_ok_mono k); [by eauto| |by eapply mi_prop]. intros n [z Hz]. simpl.
    destruct (decide (n = m)) as [->|Hne]; [rewrite lookup_insert_eq; by eexists|rewrite lookup_insert_ne by done; by eexists].
  - intros n z' s [->|Hz]%L Es; [by apply Hs|]. by apply (mi_sym k I n z').
  - intros n z' p [->|Hz]%L Ep; [by apply Hp|]. by apply (mi_prompt k I n z').
  - intros n z' [->|Hz]%L; [done|]. by apply (mi_dep k I n).
Qed.

(** A change of a menu that keeps its symbol and its prompt. *)
Lemma upd_menu_minv k m x x' :
  minv k → ks_menus k !! m = Some x → mn_sym x' = mn_sym x → mn_prompt x' = mn_prompt x →
  good k (mn_dep x') → minv (ks_set_menus (<[m := x']> (ks_menus k)) k).
Proof.
  intros I H Es Ep W. apply put_menu_minv; [done|..|done].
  - intros s. rewrite Es. by apply (mi_sym k I m).
  - intros p. rewrite Ep. by apply (mi_prompt k I m).
Qed.

Lemma calm_upd_menu m f k x :
  minv k → ks_menus k !! m = Some x → mshape (f x) = mshape x → good k (mn_dep (f x)) →
  calm (upd_menu m f) k (λ _ k', ks_menus k' !! m = Some (f x) ∧ ks_syms k' = ks_syms k ∧ ks_props k' = ks_props k).
Proof.
  intros I H S W. unfold calm, spec, upd_menu, mthen, get_menu. rewrite H. simpl. pose proof S as S'.
  injection S' as _ _ _ Es Ep.
  split_and!; [by eapply upd_menu_minv|split; [done|..]|apply lookup_insert_eq|done|done].
  - simpl. rewrite fmap_insert, S. apply insert_id. by rewrite lookup_fmap, H.
  - intros s y Hy. exists y. split_and!; [done..|]. exists []. by rewrite app_nil_r.
  - intros p q Hq. eauto.
  - intros p q Hq. eauto.
Qed.

(** A change outside the three maps. *)
Definition same_maps (k k' : kstate) : Prop :=
  ks_syms k' = ks_syms k ∧ ks_props k' = ks_props k ∧ ks_menus k' = ks_menus k ∧ ks_new_prop k' = ks_new_prop k ∧
  ks_hash k' = ks_hash k ∧ ks_new_sym k' = ks_new_sym k.

Lemma minv_same k k' : same_maps k k' → minv k → minv k'.
Proof.
  intros (Es & Ep & Em & En & _) I.
  assert (G : ∀ e, good k e → good k' e) by (intros e; apply good_mono; unfold sym_some; by rewrite Es).
  split; rewrite ?Es, ?Ep, ?Em, ?En; try apply I.
  - intros s y Hy Cy. destruct (mi_choice k I s y Hy Cy) as (q & z & Hq & Hz & Hv). exists q, z.
    rewrite (choice_prop_kept k) by (intros; by rewrite Ep). done.
  - unfold some_choice. rewrite Es. apply (mi_value k I).
  - intros p x Hx. eapply (prop_ok_mono k); [rewrite Es; by eauto|by rewrite Em|]. by apply (mi_prop k I p).
  - intros m x Hx. by apply G, (mi_dep k I m).
  - intros t y Hy. split; by apply G, (mi_rev k I t).
Qed.
Lemma ext_same k k' : same_maps k k' → ext k k'.
Proof.
  intros (Es & Ep & Em & En & Eh & Ew). split; rewrite ?Es, ?Ep, ?Em; [done|done| |by eauto|by eauto].
  intros s y Hy. exists y. split_and!; [done..|]. exists []. by rewrite app_nil_r.
Qed.
Lemma calm_same {A} (m : K A) a k k' (Q : A → kstate → Prop) :
  m k = Done (a, k') → same_maps k k' → minv k → Q a k' → calm m k Q.
Proof. intros E S I HQ. unfold calm, spec. rewrite E. split_and!; [by eapply minv_same|by apply ext_same|done]. Qed.

(** ** The expression functions *)

(** A table with the types and flags of [T] and values of its own.  The
    simplifier looks at types, flags and names only, so it does the same on
    both, before any value is calculated. *)
Fixpoint xs (n : nat) : string := match n with O => EmptyString | S n => "x" +:+ xs n end.
Definition filled (T : SymTab) : SymTab := {|
  st_type := @st_type T;
  st_flags := @st_flags T;
  st_name := @st_name T;
  st_tri s := if decide (s = symbol_yes) then Yes else if decide (s = symbol_mod) then Mod else No;
  st_str s :=
    if decide (s = symbol_yes) then "y" else if decide (s = symbol_mod) then "m"
    else if decide (s = symbol_no ∨ @st_type T s ≠ S_UNKNOWN) then "n" else xs (S (S s));
|}.

Lemma xs_inj n m : xs n = xs m → n = m.
Proof. revert m. induction n as [|n IH]; intros [|m] H; simplify_eq/=; auto. Qed.

Definition tab_kind (T : SymTab) : Prop :=
  (∀ s, s = symbol_yes ∨ s = symbol_mod ∨ s = symbol_no → has_flag (@st_flags T s) SYMBOL_CONST = true) ∧
  (∀ s, has_flag (@st_flags T s) SYMBOL_CONST = true → @st_type T s = S_UNKNOWN).

Lemma filled_ok T : tab_kind T → SymTabOk (filled T).
Proof.
  intros [A B].
  assert (Ty : ∀ s, s = symbol_yes ∨ s = symbol_mod ∨ s = symbol_no → @st_type T s = S_UNKNOWN) by auto.
  split; try done; [apply A; auto..| | |].
  - intros s1 s2 F1 F2. simpl. rewrite (B s1 F1), (B s2 F2).
    repeat case_decide; try done; intros E; simplify_eq; try (by destruct_or?; congruence); by apply xs_inj in E as [= ->].
  - intros s Ts. simpl in Ts |- *. case_decide; [done|]. case_decide as D; [|done]. subst.
    rewrite (Ty symbol_mod) in Ts by auto. done.
  - intros s Ts. simpl in Ts |- *. case_decide as D; [subst; rewrite (Ty symbol_yes) in Ts by auto; by destruct Ts|].
    case_decide as D'; [subst; rewrite (Ty symbol_mod) in Ts by auto; by destruct Ts|].
    rewrite decide_True; [done|]. right. by destruct Ts as [-> | ->].
Qed.

Lemma dups_filled T e : expr_eliminate_dups (T := T) e = expr_eliminate_dups (T := filled T) e.
Proof. reflexivity. Qed.

Lemma minv_kind k : minv k → tab_kind (symtab_of k).
Proof.
  intros I. split.
  - intros s Hs. destruct (mi_const k I s Hs) as (y & H & C). simpl. by rewrite H.
  - intros s. simpl. destruct (ks_syms k !! s) as [y|] eqn:H; [|done]. simpl. apply (mi_type k I s y H).
Qed.

Lemma sym_const k s : minv k → s = symbol_yes ∨ s = symbol_mod ∨ s = symbol_no → sym_some k s.
Proof. intros I Hs. destruct (mi_const k I s Hs) as (y & ? & _). by exists y. Qed.

Lemma calm_transform e k :
  minv k → good k e → calm (expr_transform_k e) k (λ e' k', k' = k ∧ good k e').
Proof.
  intros I [W O]. destruct e as [e|]; [|by apply calm_ret]. unfold wf_null in W. simpl in W.
  destruct (transform_total (T := symtab_of k) (transform_weight e) e W) as [e' E]; [done|].
  apply calm_gets. eapply calm_deref; [exact E|]. apply calm_ret; [done|]. split; [done|].
  split; [exact (transform_wf _ _ _ E W)|]. by eapply over_transform; [apply sym_const; [done|tauto]..|exact E|].
Qed.

Lemma calm_dups e k :
  minv k → good k e → calm (expr_eliminate_dups_k e) k (λ e' k', k' = k ∧ good k e').
Proof.
  intros I [W O]. destruct e as [e|]; [|by apply calm_ret]. unfold wf_null in W. simpl in W.
  pose proof (filled_ok _ (minv_kind k I)) as Ok.
  destruct (dups_loop_ok (T := filled (symtab_of k)) (S (expr_size e)) e W) as (e' & E & W' & _); [lia|].
  apply calm_gets. eapply calm_deref; [rewrite dups_filled; exact E|]. apply calm_ret; [done|]. split; [done|].
  split; [done|]. by eapply over_dups; [apply sym_const; [done|tauto]..|exact E|].
Qed.

Lemma calm_copy e k : minv k → good k e → calm (expr_copy_k e) k (λ e' k', k' = k ∧ e' = e).
Proof.
  intros I [W O]. destruct e as [e|]; [|by apply calm_ret].
  eapply calm_deref; [by apply expr_copy_wf|]. by apply calm_ret.
Qed.

Lemma wf_alloc_and a b : wf_null a → wf_null b → wf_null (expr_alloc_and a b).
Proof. unfold wf_null. destruct a, b; simpl; intros; by rewrite ?andb_true_iff. Qed.
Lemma good_alloc_and k a b : good k a → good k b → good k (expr_alloc_and a b).
Proof. intros [W1 O1] [W2 O2]. split; [by apply wf_alloc_and|by apply over_null_and]. Qed.
Lemma good_alloc_or k a b : good k a → good k b → good k (expr_alloc_or a b).
Proof.
  intros [W1 O1] [W2 O2]. split; [|by apply over_null_or]. unfold wf_null in *.
  destruct a, b; simpl in *; by rewrite ?W1, ?W2.
Qed.
Lemma good_symbol k s : sym_some k s → good k (Some (expr_alloc_symbol s)).
Proof. by split. Qed.
Lemma wf_trans_bool T e : wf_expr e = true → wf_expr (expr_trans_bool (T := T) e) = true.
Proof.
  induction e; simpl; intros W; try done; rewrite ?andb_true_iff in *; try (by destruct W; auto).
  all: repeat case_match; done.
Qed.
Lemma wf_trans_compare e t : wf_null e → wf_null (expr_trans_compare e t symbol_no).
Proof.
  unfold wf_null. destruct e as [e|]; simpl; [|by destruct t].
  revert t. induction e as [l IHl r IHr|l IHl r IHr|l IHl| | | | |]; intros t W; simpl in *; try done.
  - apply andb_true_iff in W as [W1 W2]. specialize (IHl Q_EQUAL W1). specialize (IHr Q_EQUAL W2).
    destruct (trans_compare l Q_EQUAL symbol_no), (trans_compare r Q_EQUAL symbol_no); try done. simpl in *.
    destruct t; simpl; by rewrite IHl, IHr.
  - apply andb_true_iff in W as [W1 W2]. specialize (IHl Q_EQUAL W1). specialize (IHr Q_EQUAL W2).
    destruct (trans_compare l Q_EQUAL symbol_no), (trans_compare r Q_EQUAL symbol_no); try done. simpl in *.
    destruct t; simpl; by rewrite IHl, IHr.
  - by apply IHl.
  - by destruct t.
  - by destruct t.
  - by destruct t.
Qed.

Lemma good_trans_bool k T e : good k (Some e) → good k (Some (expr_trans_bool (T := T) e)).
Proof. intros [W O]. split; [by apply (wf_trans_bool T)|by apply (over_trans_bool (T := T) (sym_some k))]. Qed.
Lemma good_trans_compare k e t : minv k → good k e → good k (expr_trans_compare e t symbol_no).
Proof.
  intros I [W O]. split; [by apply wf_trans_compare|]. apply over_trans_compare; [|done]. apply sym_const; auto.
Qed.

(** ** The steps of [menu_finalize] that do not move menus *)

Lemma calm_log msg k : minv k → calm (log msg) k (λ _ _, True).
Proof. intros I. by eapply (calm_same _ ()). Qed.
Lemma calm_current m k : minv k → calm (mmodify (ks_set_current_entry m)) k (λ _ k', ks_current_entry k' = m).
Proof. intros I. by eapply (calm_same _ ()). Qed.

Lemma sym_kept_refl k s y y' :
  sy_flags y' = sy_flags y → sy_name y' = sy_name y → sy_type y' = sy_type y → sy_curr y' = sy_curr y →
  sym_kept k s y y'.
Proof. intros F N T C. split; unfold is_choice, is_choice_value, is_const; rewrite ?F; auto. Qed.

Lemma menu_sym k m x s : minv k → ks_menus k !! m = Some x → mn_sym x = Some s →
  ∃ y, ks_syms k !! s = Some y ∧ is_const y = false ∧ s ≠ symbol_empty.
Proof. intros I. apply (mi_sym k I). Qed.

(** The entry a menu has after steps that keep the shape. *)
Lemma ext_entry k k' m x : ext k k' → ks_menus k !! m = Some x →
  ∃ x', ks_menus k' !! m = Some x' ∧ mn_sym x' = mn_sym x ∧ mn_prompt x' = mn_prompt x ∧ mshape x' = mshape x.
Proof.
  intros E H. destruct (ext_menu _ _ _ _ E H) as (x' & H' & S). exists x'. pose proof S as S'.
  injection S' as _ _ _ Es Ep. done.
Qed.

Lemma calm_set_type_at t k x s m :
  minv k → ks_menus k !! ks_current_entry k = Some x → mn_sym x = Some s → ks_current_entry k = m →
  calm (menu_set_type t) k (λ _ k', ks_current_entry k' = m).
Proof.
  intros I H Hs <-. destruct (mi_sym k I _ x s H Hs) as (y & Hy & Cy & Ny). unfold menu_set_type.
  apply calm_gets. eapply calm_get_menu; [done|]. eapply calm_deref; [done|]. eapply calm_get_sym; [done|].
  case_decide; [by apply calm_ret|]. case_decide; [|by eapply (calm_same _ ())].
  pose proof (calm_upd_sym s (sy_set_type t) k y I Hy) as C. unfold calm, spec, upd_sym, mthen in *.
  rewrite (run_get_sym _ _ _ Hy) in *. simpl in *.
  destruct (mi_rev k I s y Hy) as [Gr Gi].
  destruct C as (? & ? & _); [split; try done; [by left|intros [?|?]; congruence]|done|done|done|]. by split_and!.
Qed.
Lemma calm_set_type t k x s :
  minv k → ks_menus k !! ks_current_entry k = Some x → mn_sym x = Some s →
  calm (menu_set_type t) k (λ _ _, True).
Proof. intros I H Hs. eapply calm_mono; [by eapply calm_set_type_at|done]. Qed.

Lemma calm_choice_type parent sym menu k x m :
  minv k → ks_menus k !! parent = Some x → mn_sym x = Some sym → ks_menus k !! menu = Some m →
  calm (choice_type parent sym menu) k (λ _ _, True).
Proof.
  intros I Hx Hs Hm. unfold choice_type. eapply calm_get_menu; [done|].
  destruct (mn_sym m) as [s|] eqn:Es; [|by apply calm_ret].
  eapply calm_bind; [by apply calm_current|]. intros [] k1 I1 E1 C1.
  destruct (ext_entry _ _ _ _ E1 Hx) as (x1 & Hx1 & Sx1 & _). destruct (ext_entry _ _ _ _ E1 Hm) as (m1 & Hm1 & Sm1 & _).
  destruct (mi_sym k1 I1 menu m1 s Hm1) as (v & Hv & _); [congruence|]. eapply calm_get_sym; [done|].
  eapply calm_bind; [eapply calm_set_type; [done|by rewrite C1|by rewrite Sx1]|]. intros [] k2 I2 E2 _.
  eapply calm_bind; [by apply calm_current|]. intros [] k3 I3 E3 C3.
  destruct (ext_entry _ _ _ _ (ext_trans _ _ _ E2 E3) Hx1) as (x3 & Hx3 & Sx3 & _).
  destruct (ext_entry _ _ _ _ (ext_trans _ _ _ E2 E3) Hm1) as (m3 & Hm3 & Sm3 & _).
  destruct (mi_sym k3 I3 parent x3 sym Hx3) as (y & Hy & _); [congruence|]. eapply calm_get_sym; [done|].
  eapply calm_bind; [eapply calm_set_type; [done|by rewrite C3|by rewrite Sm3, Sm1, Es]|].
  intros [] k4 I4 E4 _. by apply calm_ret.
Qed.

(** The symbol of a [select] or [deselect]. *)
Lemma calm_select {B} p x (g : sid → K B) k Q t :
  ks_props k !! p = Some x → pr_expr x = Some (Esymbol t) → calm (g t) k Q →
  calm (let! es := prop_get_symbol p in let! es := mderef es in g es) k Q.
Proof.
  intros H E C. unfold calm, spec, mthen, prop_get_symbol, mthen, get_prop. rewrite H. simpl. by rewrite E.
Qed.

Lemma prop_ok_select k x : prop_ok k x → pr_type x = P_SELECT ∨ pr_type x = P_DESELECT →
  ∃ t, pr_expr x = Some (Esymbol t) ∧ sym_some k t.
Proof. intros (_ & _ & _ & H) [T|T]; by rewrite T in H. Qed.

(** A new reverse dependency. *)
Lemma calm_rev_dep (set : option expr → symbol → symbol) (get : symbol → option expr) sym p x dep k :
  (∀ s e y, sym_kept k s y (set e y) ∧ sy_prop (set e y) = sy_prop y) →
  (∀ e y, good k e → good k (sy_rev_dep y) → good k (sy_rev_dep_inv y) →
     good k (get y) ∧ good k (sy_rev_dep (set e y)) ∧ good k (sy_rev_dep_inv (set e y))) →
  minv k → ks_props k !! p = Some x → pr_type x = P_SELECT ∨ pr_type x = P_DESELECT →
  (∃ s, sym = Some s ∧ sym_some k s) → good k dep →
  calm (let! es := prop_get_symbol p in
        let! es := mderef es in
        let! s := mderef sym in
        let! c := expr_copy_k dep in
        upd_sym es (λ y, set (expr_alloc_or (get y) (expr_alloc_and (Some (expr_alloc_symbol s)) c)) y))
    k (λ _ _, True).
Proof.
  intros Hset Hget I H T (s & -> & Hs) W. destruct (prop_ok_select k x) as (t & E & [y Hy]); [by eapply mi_prop|done|].
  eapply calm_select; [done..|]. eapply calm_deref; [done|].
  eapply calm_bind; [by apply calm_copy|]. intros c k1 I1 E1 [-> ->].
  destruct (mi_rev k I t y Hy) as [Gr Gi].
  assert (G : good k (expr_alloc_or (get y) (expr_alloc_and (Some (expr_alloc_symbol s)) dep))).
  { apply good_alloc_or; [by apply (Hget (sy_rev_dep y) y)|]. apply good_alloc_and; [by apply good_symbol|done]. }
  destruct (Hget _ y G Gr Gi) as (_ & G1 & G2).
  eapply calm_mono; [|done]. apply (calm_upd_sym t _ k y); [done|done|apply (Hset t)|apply (Hset t)|done|done].
Qed.

(** The same property with another type-preserving content. *)
Lemma ext_prop_type k k' p x : ext k k' → ks_props k !! p = Some x →
  ∃ x', ks_props k' !! p = Some x' ∧ pr_type x' = pr_type x.
Proof. intros E. apply (ex_prop _ _ E). Qed.

Definition selects (x : property) : Prop := pr_type x = P_SELECT ∨ pr_type x = P_DESELECT.

Lemma calm_prop_dep menu sym p k m x :
  minv k → ks_menus k !! menu = Some m → mn_sym m = sym → ks_props k !! p = Some x →
  (selects x → is_Some sym) → calm (prop_dep menu sym p) k (λ _ _, True).
Proof.
  intros I Hm Hs Hx Sel. unfold prop_dep. eapply calm_get_prop; [done|]. case_decide; [by apply calm_ret|].
  pose proof (mi_prop k I p x Hx) as (Wv & Oe & Om & Ok).
  eapply calm_bind; [by apply calm_transform|]. intros dep k1 I1 E1 [-> Wd].
  eapply calm_get_menu; [done|].
  eapply calm_bind; [apply calm_copy; [done|by eapply mi_dep]|]. intros md k1 I2 E2 [-> ->].
  eapply calm_bind; [apply calm_dups; [done|apply good_alloc_and; [by eapply mi_dep|done]]|].
  intros dep2 k1 I3 E3 [-> Wd2].
  eapply (calm_bind _ _ _ (λ e k', k' = k ∧ good k e)).
  { destruct sym as [s|]; [|by apply calm_ret]. destruct (mi_sym k I menu m s Hm Hs) as (y & Hy & _).
    eapply calm_get_sym; [done|]. apply calm_gets. apply calm_ret; [done|]. split; [done|].
    case_decide; [done|]. destruct dep2 as [e|]; [|done]. by apply good_trans_bool. }
  intros dep3 k1 I4 E4 [-> Wd3].
  eapply calm_bind; [by eapply (calm_upd_prop p (pr_set_visible dep3) k x)|]. intros [] k1 I5 E5 _.
  destruct (ext_prop_type _ _ _ _ E5 Hx) as (x1 & Hx1 & T1). apply (ext_good _ _ _ E5) in Wd3.
  assert (Hsym : ∀ k', ext k k' → selects x → ∃ s, sym = Some s ∧ sym_some k' s).
  { intros k' E' [s Es]%Sel. exists s. split; [done|]. eapply ext_sym; [done|].
    destruct (mi_sym k I menu m s Hm) as (y & ? & _); [congruence|]. by exists y. }
  eapply (calm_bind _ _ _ (λ _ _, True)).
  { case_decide as T; [|by apply calm_ret].
    apply (calm_rev_dep sy_set_rev_dep sy_rev_dep sym p x1); [|done|done|done|left; congruence| |done].
    - intros s e y. split; [by apply sym_kept_refl|done].
    - apply Hsym; [done|by left]. }
  intros [] k2 I6 E6 _. destruct (ext_prop_type _ _ _ _ E6 Hx1) as (x2 & Hx2 & T2). apply (ext_good _ _ _ E6) in Wd3.
  case_decide as T; [|by apply calm_ret].
  apply (calm_rev_dep sy_set_rev_dep_inv sy_rev_dep_inv sym p x2); [|done|done|done|right; congruence| |done].
  - intros s e y. split; [by apply sym_kept_refl|done].
  - apply Hsym; [by eapply ext_trans|by right].
Qed.

(** The properties of an entry. *)
Lemma entry_props k menu m l :
  minv k → ks_menus k !! menu = Some m →
  match mn_sym m with
  | Some s => ∃ y, ks_syms k !! s = Some y ∧ l = sy_prop y
  | None => l = match mn_prompt m with Some p => [p] | None => [] end
  end →
  ∀ p, p ∈ l → ∃ x, ks_props k !! p = Some x ∧ (selects x → is_Some (mn_sym m)).
Proof.
  intros I Hm Hl p Hp. destruct (mn_sym m) as [s|].
  - destruct Hl as (y & Hy & ->). destruct (mi_props k I s y p Hy Hp) as [x Hx]. exists x. split; [done|]. by eexists.
  - subst l. destruct (mn_prompt m) as [q|] eqn:Eq; [|by apply elem_of_nil in Hp].
    apply list_elem_of_singleton in Hp as ->. destruct (mi_prompt k I menu m q Hm Eq) as (x & Hx & N1 & N2).
    exists x. split; [done|]. by intros [?|?].
Qed.

Lemma calm_menu_dep parentdep menu k m :
  minv k → good k parentdep → ks_menus k !! menu = Some m →
  calm (menu_dep parentdep menu) k (λ go _, go = true).
Proof.
  intros I W Hm. unfold menu_dep. eapply calm_get_menu; [done|].
  eapply calm_bind; [apply calm_transform; [done|by eapply mi_dep]|]. intros b k1 I1 E1 [-> Wb].
  eapply calm_bind; [by apply calm_copy|]. intros pd k1 I2 E2 [-> ->].
  eapply calm_bind; [apply calm_dups; [done|by apply good_alloc_and]|]. intros b2 k1 I3 E3 [-> Wb2].
  eapply calm_bind; [by eapply (calm_upd_menu menu (mn_set_dep b2) k m)|]. intros [] k1 I4 E4 (Hm1 & Es & Ep).
  assert (Hs : ∀ s, mn_sym m = Some s → ∃ y, ks_syms k1 !! s = Some y).
  { intros s Es'. destruct (mi_sym k I menu m s Hm Es') as (y & Hy & _). exists y. by rewrite Es. }
  eapply (calm_bind _ _ _ (λ l k', k' = k1 ∧ match mn_sym m with
    | Some s => ∃ y, ks_syms k1 !! s = Some y ∧ l = sy_prop y
    | None => l = match mn_prompt m with Some p => [p] | None => [] end end)).
  { destruct (mn_sym m) as [s|]; [|by apply calm_ret]. destruct (Hs s eq_refl) as [y Hy].
    eapply calm_get_sym; [done|]. apply calm_ret; [done|]. split; [done|]. eauto. }
  intros l k2 I5 E5 [-> Hl]. pose proof (entry_props k1 menu _ l I4 Hm1 Hl) as Hp. simpl in Hp.
  eapply calm_bind; [apply calm_iter; [done|]|].
  - intros p k2 Hin I6 E6. destruct (Hp p Hin) as (x & Hx & Sel).
    destruct (ext_entry _ _ _ _ E6 Hm1) as (m2 & Hm2 & Sm2 & _). simpl in Sm2.
    destruct (ext_prop_type _ _ _ _ E6 Hx) as (x2 & Hx2 & T2).
    apply (calm_prop_dep menu (mn_sym m) p k2 m2 x2); [done..|]. unfold selects in *. by rewrite T2.
  - intros [] k2 I6 E6 _. by apply calm_ret.
Qed.

Lemma calm_prompt_visible k m x e :
  minv k → ks_menus k !! m = Some x → good k e →
  calm (prompt_visible (mn_prompt x) e) k (λ e' k', k' = k ∧ good k e').
Proof.
  intros I H W. unfold prompt_visible. destruct (mn_prompt x) as [p|] eqn:Ep; [|by apply calm_ret].
  destruct (mi_prompt k I m x p H Ep) as (q & Hq & _). eapply calm_get_prop; [done|]. apply calm_ret; [done|].
  split; [done|]. apply (mi_prop k I p q Hq).
Qed.

Lemma calm_implied dep basedep k :
  minv k → good k dep → good k basedep → calm (implied dep basedep) k (λ _ k', k' = k).
Proof.
  intros I W Wb. unfold implied.
  eapply calm_bind; [apply calm_transform; [done|by apply good_trans_compare]|]. intros d k1 I1 E1 [-> W1].
  eapply calm_bind; [by apply calm_dups|]. intros d2 k1 I2 E2 [-> W2].
  eapply calm_bind; [by apply calm_copy|]. intros b k1 I3 E3 [-> ->]. apply calm_gets.
  assert (G : is_Some (expr_eliminate_eq (T := symtab_of k) d2 basedep 0)).
  { destruct d2 as [a|], basedep as [b|]; [apply eliminate_eq_total; [apply W2|apply Wb]|by eexists..]. }
  destruct G as [[[a b] c] G]. eapply calm_deref; [done|]. by apply calm_ret.
Qed.

(** ** The checks *)

Lemma calm_range_valid sym sym2 k y y2 :
  minv k → ks_syms k !! sym = Some y → ks_syms k !! sym2 = Some y2 → is_Some (sy_name y2) →
  calm (menu_range_valid_sym sym sym2) k (λ _ k', k' = k).
Proof.
  intros I H H2 [c N]. unfold menu_range_valid_sym. eapply calm_get_sym; [done|].
  case_decide; [by apply calm_ret|]. case_decide; [|by apply calm_ret]. eapply calm_deref; [done|].
  eapply calm_get_sym; [done|]. by apply calm_ret.
Qed.

Lemma calm_check_select de sym p k y x :
  minv k → ks_syms k !! sym = Some y → ks_props k !! p = Some x → selects x →
  calm (check_select de sym p) k (λ _ _, True).
Proof.
  intros I H Hx Sel. destruct (prop_ok_select k x) as (t & E & [y2 Hy2]); [by eapply mi_prop|done|].
  unfold check_select. eapply calm_get_sym; [done|].
  assert (G : prop_get_symbol p k = Done (Some t, k)).
  { unfold prop_get_symbol, mthen, get_prop. rewrite Hx. simpl. by rewrite E. }
  eapply (calm_bind _ _ _ (λ o k', o = Some t ∧ k' = k)); [by eapply calm_same|]. intros o k1 I1 E1 [-> ->].
  destruct (negb _); [by apply calm_log|]. eapply calm_deref; [done|]. eapply calm_get_sym; [done|].
  case_decide; [by apply calm_log|]. apply calm_when; [done..|]. intros _. by apply calm_log.
Qed.

Lemma calm_check_prop sym p k y x :
  minv k → ks_syms k !! sym = Some y → ks_props k !! p = Some x → calm (check_prop sym p) k (λ _ _, True).
Proof.
  intros I H Hx. pose proof (mi_prop k I p x Hx) as (_ & _ & _ & Ok). unfold check_prop.
  eapply calm_get_sym; [done|]. eapply calm_get_prop; [done|]. destruct (pr_type x) eqn:T; try (by apply calm_ret).
  - case_decide; [|by apply calm_ret]. destruct Ok as (e & E & _). eapply calm_deref; [done|].
    apply calm_when; [done..|]. intros _. by apply calm_log.
  - eapply calm_check_select; [done..|by right].
  - eapply calm_check_select; [done..|by left].
  - destruct Ok as (l & r & E & Hn). destruct (Hn l) as (yl & Hl & Nl); [auto|]. destruct (Hn r) as (yr & Hr & Nr); [auto|].
    eapply (calm_bind _ _ _ (λ _ k', same_maps k k')).
    { unfold mwhen. destruct (negb _); [by eapply (calm_same _ ())|by apply calm_ret]. }
    intros [] k1 I1 E1 (Es & Ep & _). unfold range_syms.
    eapply (calm_bind _ _ _ (λ o k', o = (l, r) ∧ k' = k1)).
    { eapply calm_get_prop; [by rewrite Ep|]. rewrite E. by apply calm_ret. }
    intros o k2 I2 E2 [-> ->]. rewrite <-Es in H, Hl, Hr.
    eapply calm_bind; [by eapply calm_range_valid|]. intros a k2 I3 E3 ->.
    eapply (calm_bind _ _ _ (λ _ k', k' = k1)).
    { destruct a; [by eapply calm_range_valid|by apply calm_ret]. }
    intros b k2 I4 E4 ->. apply calm_when; [done..|]. intros _. by apply calm_log.
Qed.

Lemma calm_sym_check_prop sym k y :
  minv k → ks_syms k !! sym = Some y → calm (sym_check_prop sym) k (λ _ _, True).
Proof.
  intros I H. unfold sym_check_prop. eapply calm_get_sym; [done|]. apply calm_iter; [done|].
  intros p k1 Hp I1 E1. destruct (mi_props k I sym y p H Hp) as [x Hx].
  destruct (ext_prop _ _ p E1 (ex_intro _ x Hx)) as [x1 Hx1].
  destruct (ex_sym _ _ E1 sym y H) as (y1 & Hy1 & _). by eapply calm_check_prop.
Qed.

Lemma calm_or_flags s bits k y :
  minv k → ks_syms k !! s = Some y → Z.land bits SYMBOL_CHOICEVAL = 0%Z ∨ some_choice k → Z.land bits SYMBOL_CHOICE = 0%Z → Z.land bits SYMBOL_CONST = 0%Z →
  Z.land bits state_bits = 0%Z → calm (or_flags s bits) k (λ _ _, True).
Proof.
  intros I H Bv B1 B2 B3. destruct (mi_rev k I s y H) as [Gr Gi].
  eapply calm_mono; [|done]. apply (calm_upd_sym s _ k y); [done|done| |done|done|done].
  assert (F : ∀ b, Z.land bits b = 0%Z → has_flag bits b = false) by (intros b E; unfold has_flag; by rewrite E).
  split; try done; unfold is_choice, is_choice_value, is_const; simpl; rewrite ?has_flag_set.
  - by rewrite F, orb_false_r.
  - destruct Bv as [Bv|Bv]; [rewrite (F SYMBOL_CHOICEVAL), orb_false_r by done|]; auto.
  - by rewrite F, orb_false_r.
  -  unfold set_flag. by rewrite Z.land_lor_distr_l, B3, Z.lor_0_r.
Qed.

Lemma calm_finalize_warn parent sym k x y :
  minv k → ks_menus k !! parent = Some x → ks_syms k !! sym = Some y →
  calm (finalize_warn parent sym) k (λ _ _, True).
Proof.
  intros I Hx Hy. unfold finalize_warn. eapply calm_get_sym; [done|]. destruct (has_flag _ _); [by apply calm_ret|].
  eapply (calm_bind _ _ _ (λ _ _, True)); [apply calm_when; [done..|]; intros _; by apply calm_log|].
  intros [] k1 I1 E1 _. destruct (ext_menu _ _ _ _ E1 Hx) as (x1 & Hx1 & _).
  eapply calm_get_menu; [done|].
  eapply (calm_bind _ _ _ (λ _ _, True)); [apply calm_when; [done..|]; intros _; by apply calm_log|].
  intros [] k2 I2 E2 _. destruct (ex_sym _ _ (ext_trans _ _ _ E1 E2) sym y Hy) as (y2 & Hy2 & _).
  eapply calm_bind; [by eapply calm_sym_check_prop|]. intros [] k3 I3 E3 _.
  destruct (ex_sym _ _ E3 sym y2 Hy2) as (y3 & Hy3 & _). eapply calm_or_flags; try done. by left.
Qed.

Lemma calm_finalize_rev_dep parent sym k x y :
  minv k → ks_menus k !! parent = Some x → ks_syms k !! sym = Some y →
  calm (finalize_rev_dep parent sym) k (λ _ _, True).
Proof.
  intros I Hx Hy. unfold finalize_rev_dep. eapply calm_get_sym; [done|]. eapply calm_get_menu; [done|].
  destruct (is_optional y); [by apply calm_ret|]. destruct (mn_prompt x) as [p|] eqn:Ep; [|by apply calm_ret].
  destruct (mi_prompt k I parent x p Hx Ep) as (q & Hq & _). eapply calm_get_prop; [done|].
  destruct (mi_rev k I sym y Hy) as [Gr Gi]. destruct (mi_prop k I p q Hq) as (Gv & _).
  eapply calm_mono; [|done]. apply (calm_upd_sym sym _ k y); [done|done|by apply sym_kept_refl|done| |done].
  apply good_alloc_or; [done|]. apply good_alloc_and; [done|]. apply good_symbol, sym_const; auto.
Qed.

(** ** Choice values *)

Lemma choice_append_list e s l :
  choice_list e = Some l → ∃ e', choice_append e s = Some e' ∧ choice_list e' = Some (l ++ [s]).
Proof.
  revert l. induction e as [e IH] using choice_ind. intros l H.
  destruct e as [| | | | |[e'|] s0| |]; simpl in *; try done.
  - opt_step H. injection H as <-. destruct (IH e' s0 eq_refl l0 E) as (e2 & -> & E2).
    eexists. split; [done|]. simpl. by rewrite E2.
  - injection H as <-. by eexists.
Qed.

Lemma choice_append_null_list e s l :
  choice_values e = Some l →
  ∃ e', choice_append_null e s = Some e' ∧ choice_values (Some e') = Some (l ++ [s]).
Proof.
  destruct e as [e|]; simpl; [by apply choice_append_list|]. intros [= <-]. by eexists.
Qed.

Lemma choice_append_over (S : sid → Prop) e s e' :
  choice_append_null e s = Some e' → over_null S e → S s → over_null S (Some e').
Proof.
  destruct e as [e|]; simpl; [|by intros [= <-]]. revert e'. induction e as [e IH] using choice_ind. intros e' H O Hs.
  destruct e as [| | | | |[l|] s0| |]; simpl in *; try done.
  - opt_step H. injection H as <-. destruct O as [O1 O2]. split; [|done]. by eapply IH.
  - injection H as <-. simpl. tauto.
Qed.

(** A new property. *)
Definition new_prop_store (x : property) (k : kstate) : kstate :=
  ks_set_props (<[ks_new_prop k := x]> (ks_props k)) (ks_set_new_prop (S (ks_new_prop k)) k).

Lemma choice_prop_new k x l :
  minv k → (∀ p, p ∈ l → is_Some (ks_props k !! p)) → choice_prop (new_prop_store x k) l = choice_prop k l.
Proof.
  intros I Hl. induction l as [|p l IH]; [done|]. simpl.
  rewrite lookup_insert_ne; [rewrite IH; [done|]|].
  - intros q Hq. apply Hl. by right.
  - intros E. pose proof (mi_new k I p (Hl p ltac:(by left))). lia.
Qed.

Lemma new_prop_ok k x :
  minv k → prop_ok k x → minv (new_prop_store x k) ∧ ext k (new_prop_store x k).
Proof.
  intros I Ok. assert (N : ∀ p, is_Some (ks_props k !! p) → p ≠ ks_new_prop k).
  { intros p Hp ->. pose proof (mi_new k I _ Hp). lia. }
  assert (L : ∀ p q, ks_props k !! p = Some q → ks_props (new_prop_store x k) !! p = Some q).
  { intros p q Hq. simpl. rewrite lookup_insert_ne; [done|]. intros <-. by eapply N; eauto. }
  split; split; try apply I.
  - intros s y p Hy Hp. destruct (mi_props k I s y p Hy Hp) as [q Hq]. exists q. by apply L.
  - intros s y Hy Cy. destruct (mi_choice k I s y Hy Cy) as (p & q & Hp & Hq & Hc). exists p, q.
    rewrite choice_prop_new; [|done|intros p'; by apply (mi_props k I s y)]. auto.
  - intros p q Hq. simpl in Hq. destruct (decide (p = ks_new_prop k)) as [->|Hne].
    + rewrite lookup_insert_eq in Hq. injection Hq as <-. by eapply (prop_ok_mono k); eauto.
    + rewrite lookup_insert_ne in Hq by done. eapply (prop_ok_mono k); [by eauto|done|]. by eapply mi_prop.
  - intros m z p Hm Hp. destruct (mi_prompt k I m z p Hm Hp) as (q & Hq & ?). exists q. auto.
  - intros p. simpl. destruct (decide (p = ks_new_prop k)) as [->|Hne]; [lia|].
    rewrite lookup_insert_ne by done. intros Hp. pose proof (mi_new k I p Hp). lia.
  - done.
  - done.
  - intros s y Hy. exists y. split_and!; [done..|]. exists []. by rewrite app_nil_r.
  - intros p q Hq. exists q. auto.
  - intros p q Hq. exists q. auto.
Qed.

(** [menu_add_symbol(P_CHOICE, sym, NULL)] for a choice value. *)
Lemma add_symbol_run sym k m vs v :
  ks_menus k !! ks_current_entry k = Some m → mn_sym m = Some vs → ks_syms k !! vs = Some v →
  menu_add_symbol P_CHOICE sym None k =
  Done ((), ks_set_syms (<[vs := sy_set_prop (sy_prop v ++ [ks_new_prop k]) v]> (ks_syms k))
    (new_prop_store (Property (Some vs) P_CHOICE None None No (Some (expr_alloc_symbol sym))
       (Some (ks_current_entry k))) k)).
Proof.
  intros Hm Hs Hv. unfold menu_add_symbol, menu_add_prop, prop_alloc, mthen, mgets, get_menu. rewrite Hm. simpl.
  rewrite Hs. unfold mthen, upd_sym, mthen, get_sym. simpl. rewrite Hv. simpl.
  unfold upd_prop, mthen, get_prop. simpl. rewrite lookup_insert_eq. simpl.
  unfold new_prop_store, ks_set_props, ks_set_syms, ks_set_new_prop. simpl. by rewrite insert_insert_eq.
Qed.

(** A new property of the symbol [vs]. *)
Definition sym_prop_store (vs : sid) (v : symbol) (x : property) (k : kstate) : kstate :=
  ks_set_syms (<[vs := sy_set_prop (sy_prop v ++ [ks_new_prop k]) v]> (ks_syms k)) (new_prop_store x k).

Lemma sym_prop_ok k vs v x :
  minv k → ks_syms k !! vs = Some v → prop_ok k x →
  minv (sym_prop_store vs v x k) ∧ ext k (sym_prop_store vs v x k).
Proof.
  intros I Hv Ok. destruct (new_prop_ok k x I Ok) as [I1 E1]. unfold sym_prop_store.
  set (k1 := new_prop_store _ k) in *. change (ks_syms k) with (ks_syms k1) in *.
  destruct (mi_rev k1 I1 vs v Hv) as [Gr Gi]. split.
  - eapply (upd_sym_minv k1 vs v); [done..|by apply sym_kept_refl|done|done|done|].
    intros q ->%list_elem_of_singleton. simpl. rewrite lookup_insert_eq. by eexists.
  - eapply ext_trans; [exact E1|]. eapply (upd_sym_ext k1 vs v); [done|by apply sym_kept_refl|done].
Qed.

Lemma calm_add_symbol sym k m vs :
  minv k → ks_menus k !! ks_current_entry k = Some m → mn_sym m = Some vs → sym_some k sym →
  calm (menu_add_symbol P_CHOICE sym None) k (λ _ _, True).
Proof.
  intros I Hm Hs Hsym. destruct (mi_sym k I _ m vs Hm Hs) as (v & Hv & _). unfold calm, spec.
  rewrite (add_symbol_run sym k m vs v Hm Hs Hv).
  destruct (sym_prop_ok k vs v (Property (Some vs) P_CHOICE None None No (Some (expr_alloc_symbol sym))
    (Some (ks_current_entry k))) I Hv) as [I1 E1]; [|by split_and!].
  split_and!; [done|done| |done]. intros m' [= <-]. by eexists.
Qed.

Lemma run_choice_prop k l p : choice_prop k l = Some p → first_prop P_CHOICE l k = Done (Some p, k).
Proof.
  induction l as [|q l IH]; simpl; [done|]. intros H. opt_step H. unfold mthen, get_prop. rewrite E. simpl.
  case_decide; [by injection H as ->|auto].
Qed.

Lemma choice_prop_is k l p x : choice_prop k l = Some p → ks_props k !! p = Some x → pr_type x = P_CHOICE.
Proof.
  induction l as [|q l IH]; simpl; [done|]. intros H Hx. opt_step H. case_decide; [|auto].
  injection H as ->. congruence.
Qed.

Lemma calm_choice_value sym menu vs k m y :
  minv k → ks_menus k !! menu = Some m → mn_sym m = Some vs → ks_syms k !! sym = Some y → is_choice y = true →
  calm (choice_value sym menu vs) k (λ _ _, True).
Proof.
  intros I Hm Hs Hy Cy. unfold choice_value. destruct (mi_sym k I menu m vs Hm Hs) as (v & Hv & _).
  eapply calm_bind; [eapply calm_or_flags; try done; right; by exists sym, y|]. intros [] k1 I1 E1 _.
  destruct (ext_entry _ _ _ _ E1 Hm) as (m1 & Hm1 & Sm1 & _). eapply calm_get_menu; [done|].
  eapply (calm_bind _ _ _ (λ _ _, True)).
  { destruct (mn_prompt m1); [by apply calm_ret|by apply calm_log]. }
  intros [] k2 I2 E2 _. destruct (ex_sym _ _ (ext_trans _ _ _ E1 E2) vs v Hv) as (v2 & Hv2 & _).
  eapply calm_get_sym; [done|]. eapply calm_bind; [apply calm_iter; [done|]|].
  { intros p k3 Hp I3 E3. destruct (mi_props k2 I2 vs v2 p Hv2 Hp) as [x Hx].
    destruct (ext_prop_type _ _ _ _ E3 Hx) as (x3 & Hx3 & _). eapply calm_get_prop; [done|].
    apply calm_when; [done..|]. intros _. by apply calm_log. }
  intros [] k3 I3 E3 _. eapply calm_bind; [by apply calm_current|]. intros [] k4 I4 E4 C4.
  pose proof (ext_trans _ _ _ E1 (ext_trans _ _ _ E2 (ext_trans _ _ _ E3 E4))) as E14.
  destruct (ext_entry _ _ _ _ E14 Hm) as (m4 & Hm4 & Sm4 & _). rewrite Hs in Sm4.
  destruct (ex_sym _ _ E14 sym y Hy) as (y4 & Hy4 & _). eapply calm_get_sym; [done|].
  eapply (calm_bind _ _ _ (λ _ k', ks_current_entry k' = menu)); [|intros [] k5 I5 E5 C5].
  { eapply calm_set_type_at; [done|by rewrite C4|done|done]. }
  destruct (ext_entry _ _ _ _ E5 Hm4) as (m5 & Hm5 & Sm5 & _). rewrite Sm4 in Sm5.
  destruct (ex_sym _ _ (ext_trans _ _ _ E14 E5) sym y Hy) as (y5 & Hy5 & _).
  eapply calm_bind; [eapply calm_add_symbol; [done|by rewrite C5|done|by exists y5]|]. intros [] k6 I6 E6 _.
  destruct (ex_sym _ _ (ext_trans _ _ _ E14 (ext_trans _ _ _ E5 E6)) sym y Hy) as (y6 & Hy6 & Cy6 & _).
  rewrite Cy in Cy6. destruct (mi_choice k6 I6 sym y6 Hy6 Cy6) as (p & x & Hp & Hx & [l Hl]).
  eapply (calm_bind _ _ _ (λ o k', o = Some p ∧ k' = k6)).
  { unfold sym_get_choice_prop. eapply calm_get_sym; [done|]. eapply calm_same; [by apply run_choice_prop|done..]. }
  intros o k7 I7 E7 [-> ->]. eapply calm_deref; [done|]. eapply calm_get_prop; [done|].
  destruct (choice_append_null_list (pr_expr x) vs l Hl) as (e & He & Hle). eapply calm_deref; [done|].
  eapply calm_mono; [|done]. eapply calm_upd_prop; [done..| |intros _; by eexists].
  destruct (mi_prop k6 I6 p x Hx) as (W & O & Om & _). split_and!; [done| |done|].
  - eapply choice_append_over; [done..|]. eapply ext_sym; [|by exists v].
    eapply ext_trans; [exact E14|]. by eapply ext_trans.
  - simpl. by rewrite (choice_prop_is k6 (sy_prop y6) p x Hp Hx).
Qed.
