(* ===== verification/KMenuTree.v ===== *)
(** * The menu tree through [menu_finalize]

    [menu_finalize] turns entries that depend on the one before into a
    submenu and dissolves menus without a prompt.  Seen from above the tree
    stays the same: the entries in the order in which they are reached,
    parents first, are the same before and after, nothing is lost or visited
    twice, and every entry knows its parent. *)
From S2P Require Import Prelude CLib KData KExpr KState KSymbol KSymFrame KMenu KMenuInv.
Open Scope pr30_scope.

(** ** Lists of menus *)

(** [chain k p o l]: the entries that start at [o] all have the parent [p], and
    [l] lists them and the entries below them, each entry before those below
    it. *)
Inductive chain (k : kstate) : mid → option mid → list mid → Prop :=
  | chain_nil p : chain k p None []
  | chain_cons p m x lc ln :
      ks_menus k !! m = Some x → mn_parent x = Some p →
      chain k m (mn_list x) lc → chain k p (mn_next x) ln →
      chain k p (Some m) (m :: lc ++ ln).

(** [cut k p q o last l1 l2]: the same, but up to [last] the parent is [p] and
    after it [q]; [l1] ends with the entries below [last]. *)
Inductive cut (k : kstate) (p q : mid) : option mid → mid → list mid → list mid → Prop :=
  | cut_here m x lc ln :
      ks_menus k !! m = Some x → mn_parent x = Some p →
      chain k m (mn_list x) lc → chain k q (mn_next x) ln → cut k p q (Some m) m (m :: lc) ln
  | cut_next m x lc last l1 l2 :
      ks_menus k !! m = Some x → mn_parent x = Some p →
      chain k m (mn_list x) lc → cut k p q (mn_next x) last l1 l2 →
      cut k p q (Some m) last (m :: lc ++ l1) l2.

(** The pointers of an entry. *)
Definition links (k : kstate) (m : mid) : option (option mid * option mid * option mid) :=
  (λ x, (mn_parent x, mn_list x, mn_next x)) <$> ks_menus k !! m.

Lemma links_Some k m x : ks_menus k !! m = Some x → links k m = Some (mn_parent x, mn_list x, mn_next x).
Proof. unfold links. by intros ->. Qed.
Lemma links_inv k m a b c : links k m = Some (a, b, c) →
  ∃ x, ks_menus k !! m = Some x ∧ mn_parent x = a ∧ mn_list x = b ∧ mn_next x = c.
Proof. unfold links. destruct (ks_menus k !! m) as [x|]; [|done]. intros [= <- <- <-]. by exists x. Qed.

Lemma chain_in k p o l m : chain k p o l → m ∈ l → is_Some (ks_menus k !! m).
Proof.
  induction 1 as [|p n x lc ln H _ _ IHc _ IHn]; intros Hm; [by apply elem_of_nil in Hm|].
  apply elem_of_cons in Hm as [->|Hm]; [eauto|]. apply elem_of_app in Hm as [?|?]; auto.
Qed.

Lemma chain_frame k k' p o l : (∀ m, m ∈ l → links k' m = links k m) → chain k p o l → chain k' p o l.
Proof.
  intros F H. induction H as [|p m x lc ln H Hp _ IHc _ IHn]; [constructor|].
  pose proof (F m (list_elem_of_here _ _)) as E. rewrite (links_Some _ _ _ H) in E.
  apply links_inv in E as (x' & H' & Ep & El & En). rewrite <-El in IHc. rewrite <-En in IHn.
  econstructor; [done|congruence|apply IHc|apply IHn].
  - intros n Hn. apply F. right. apply elem_of_app. by left.
  - intros n Hn. apply F. right. apply elem_of_app. by right.
Qed.

Lemma cut_last k p q o last l1 l2 : cut k p q o last l1 l2 →
  last ∈ l1 ∧ ∃ x, ks_menus k !! last = Some x ∧ chain k q (mn_next x) l2.
Proof.
  induction 1 as [m x lc ln H Hp Hc Hn|m x lc last l1 l2 H Hp Hc _ [IH1 IH2]].
  - split; [left|eauto].
  - split; [|done]. right. apply elem_of_app. by right.
Qed.

(** The list up to [last] with another list behind it. *)
Lemma cut_join k k' p q o last l1 l2 o' l3 :
  cut k p q o last l1 l2 → NoDup l1 → (∀ m, m ∈ l1 → m ≠ last → links k' m = links k m) →
  (∀ x, ks_menus k !! last = Some x → links k' last = Some (mn_parent x, mn_list x, o')) →
  chain k' p o' l3 → chain k' p o (l1 ++ l3).
Proof.
  intros C. induction C as [m x lc ln H Hp Hc Hn|m x lc last l1 l2 H Hp Hc C IH]; intros Nd F L H3.
  - apply NoDup_cons in Nd as [Nm _]. destruct (links_inv _ _ _ _ _ (L x H)) as (x' & H' & Ep & El & En).
    simpl. econstructor; [done|congruence| |by rewrite En]. rewrite El. eapply chain_frame; [|done].
    intros n Hin. apply F; [by right|]. by intros ->.
  - destruct (cut_last _ _ _ _ _ _ _ C) as [Hl _].
    assert (Nd' : NoDup l1 ∧ m ≠ last ∧ ∀ n, n ∈ lc → n ≠ last).
    { apply NoDup_cons in Nd as [Nm Nd]. apply NoDup_app in Nd as (_ & D & N1). split_and!; [done| |].
      - intros ->. apply Nm, elem_of_app. by right.
      - intros n Hn ->. by apply (D last). }
    destruct Nd' as (N1 & Nm & Nc).
    pose proof (F m (list_elem_of_here _ _) Nm) as E. rewrite (links_Some _ _ _ H) in E.
    apply links_inv in E as (x' & H' & Ep & El & En). simpl. rewrite <-app_assoc.
    econstructor; [done|congruence| |].
    + rewrite El. eapply chain_frame; [|done]. intros n Hn. apply F; [|by auto]. right. apply elem_of_app. by left.
    + rewrite En. apply IH; [done| |done|done]. intros n Hn. apply F. right. apply elem_of_app. by right.
Qed.

Lemma cut_frame k k' p q o last l1 l2 :
  (∀ m, m ∈ l1 ++ l2 → links k' m = links k m) → cut k p q o last l1 l2 → cut k' p q o last l1 l2.
Proof.
  intros F C. induction C as [m x lc ln H Hp Hc Hn|m x lc last l1 l2 H Hp Hc C IH];
    pose proof (F m (list_elem_of_here _ _)) as E; rewrite (links_Some _ _ _ H) in E;
    apply links_inv in E as (x' & H' & Ep & El & En).
  - apply (cut_here k' p q m x'); [done|congruence| |].
    + rewrite El. eapply chain_frame; [|done]. intros n Hin. apply F. right. apply elem_of_app. by left.
    + rewrite En. eapply chain_frame; [|done]. intros n Hin. apply F. right. apply elem_of_app. by right.
  - apply (cut_next k' p q m x'); [done|congruence| |].
    + rewrite El. eapply chain_frame; [|done]. intros n Hin. apply F. right. rewrite !elem_of_app. auto.
    + rewrite En. apply IH. intros n Hin. apply F. right. rewrite elem_of_app in Hin. rewrite !elem_of_app. tauto.
Qed.

Lemma chain_nodup_fuel k p o l : chain k p o l → NoDup l → length l < menu_fuel k.
Proof.
  intros C N. unfold menu_fuel. rewrite <-(size_dom (ks_menus k)), <-(size_list_to_set l N (C := gset mid)).
  apply Nat.lt_succ_r. apply subseteq_size. intros m Hm. apply elem_of_list_to_set in Hm. apply elem_of_dom.
  by eapply chain_in.
Qed.

(** ** Steps that move menus *)

(** What persists while menus are moved. *)
Record pers (k k' : kstate) : Prop := {
  pe_table : ks_hash k' = ks_hash k ∧ ks_new_sym k' = ks_new_sym k ∧ ident <$> ks_syms k' = ident <$> ks_syms k;
  pe_menu : (λ x, (mn_sym x, mn_prompt x)) <$> ks_menus k' = (λ x, (mn_sym x, mn_prompt x)) <$> ks_menus k;
  pe_sym : ∀ s y, ks_syms k !! s = Some y → ∃ y', ks_syms k' !! s = Some y' ∧ is_choice y' = is_choice y;
  pe_text : ∀ p x, ks_props k !! p = Some x → ∃ x', ks_props k' !! p = Some x' ∧ pr_text x' = pr_text x;
}.
Lemma pers_refl k : pers k k.
Proof. split; eauto. Qed.
Lemma pers_trans k1 k2 k3 : pers k1 k2 → pers k2 k3 → pers k1 k3.
Proof.
  intros [(C1 & D1 & F1) A1 B1 T1] [(C2 & D2 & F2) A2 B2 T2]. split; [split_and!; congruence|congruence|..].
  - intros s y H. destruct (B1 s y H) as (y1 & H1 & E1). destruct (B2 s y1 H1) as (y2 & H2 & E2).
    exists y2. split; congruence.
  - intros p x H. destruct (T1 p x H) as (x1 & H1 & E1), (T2 p x1 H1) as (x2 & H2 & E2).
    exists x2. split; congruence.
Qed.
Lemma pers_entry k k' m x : pers k k' → ks_menus k !! m = Some x →
  ∃ x', ks_menus k' !! m = Some x' ∧ mn_sym x' = mn_sym x ∧ mn_prompt x' = mn_prompt x.
Proof.
  intros [_ E _ _] H. assert (L := f_equal (lookup m) E). rewrite !lookup_fmap, H in L.
  destruct (ks_menus k' !! m) as [x'|]; [|done]. injection L as E1 E2. eauto.
Qed.
Lemma pers_fuel k k' : pers k k' → menu_fuel k' = menu_fuel k.
Proof.
  intros [_ E _ _]. unfold menu_fuel. f_equal.
  rewrite <-(map_size_fmap (λ x, (mn_sym x, mn_prompt x)) (ks_menus k')), E. by rewrite map_size_fmap.
Qed.

(** The invariant holds and only the pointers of entries in [L] differ. *)
Record keeps (L : list mid) (k k' : kstate) : Prop := {
  ke_inv : minv k';
  ke_pers : pers k k';
  ke_links : ∀ m, m ∉ L → links k' m = links k m;
}.
Lemma keeps_refl L k : minv k → keeps L k k.
Proof. intros I. split; [done|apply pers_refl|done]. Qed.
Lemma keeps_trans L k1 k2 k3 : keeps L k1 k2 → keeps L k2 k3 → keeps L k1 k3.
Proof.
  intros [_ P1 L1] [I2 P2 L2]. split; [done|by eapply pers_trans|]. intros m Hm. rewrite L2, L1; done.
Qed.
Lemma keeps_weaken L L' k k' : (∀ m, m ∈ L → m ∈ L') → keeps L k k' → keeps L' k k'.
Proof. intros H [I P F]. split; [done..|]. intros m Hm. apply F. intros ?. by apply Hm, H. Qed.

Lemma keeps_good L k k' e : keeps L k k' → good k e → good k' e.
Proof.
  intros [_ P _]. apply good_mono. intros s [y H]. destruct (pe_sym _ _ P s y H) as (y' & ? & _). by exists y'.
Qed.
Lemma ext_keeps L k k' : minv k' → ext k k' → keeps L k k'.
Proof.
  intros I E. split; [done|split; [apply E|..]|].
  - assert (F := f_equal (fmap (λ s : option mid * option mid * option mid * option sid * option pid, (s.1.2, s.2)))
      (ex_menu _ _ E)). rewrite <-!map_fmap_compose in F. exact F.
  - intros s y H. destruct (ex_sym _ _ E s y H) as (y' & ? & ? & _). eauto.
  - apply E.
  - intros m _. unfold links. assert (F := f_equal (lookup m) (ex_menu _ _ E)). rewrite !lookup_fmap in F.
    destruct (ks_menus k' !! m), (ks_menus k !! m); simplify_eq/=; [|done]. unfold mshape in *. simpl. congruence.
Qed.
Lemma ext_links k k' m : ext k k' → links k' m = links k m.
Proof.
  intros E. unfold links. assert (F := f_equal (lookup m) (ex_menu _ _ E)). rewrite !lookup_fmap in F.
  destruct (ks_menus k' !! m), (ks_menus k !! m); simplify_eq/=; [|done]. unfold mshape in *. simpl. congruence.
Qed.
Lemma ext_chain k k' p o l : ext k k' → chain k p o l → chain k' p o l.
Proof. intros E. apply chain_frame. intros m _. by apply ext_links. Qed.

Lemma calm_keeps {A} L (m : K A) k Q :
  calm m k Q → spec False m k (λ a k', keeps L k k' ∧ ext k k' ∧ Q a k').
Proof. intros C. eapply spec_mono; [exact C|]. intros a k' (I & E & HQ). split_and!; [by apply ext_keeps|done..]. Qed.

(** A write of the pointers of one entry. *)
Lemma spec_upd_links m f k x :
  minv k → ks_menus k !! m = Some x → mn_sym (f x) = mn_sym x → mn_prompt (f x) = mn_prompt x →
  mn_dep (f x) = mn_dep x →
  spec False (upd_menu m f) k (λ _ k', keeps [m] k k' ∧
    links k' m = Some (mn_parent (f x), mn_list (f x), mn_next (f x)) ∧ ks_menus k' !! m = Some (f x)).
Proof.
  intros I H Es Ep Ed. unfold spec, upd_menu, mthen, get_menu. rewrite H. simpl. split_and!; [split|..].
  - eapply upd_menu_minv; [done..|]. rewrite Ed. by apply (mi_dep k I m).
  - split; [done| |by eauto|by eauto]. simpl. rewrite fmap_insert, Es, Ep. apply insert_id. by rewrite lookup_fmap, H.
  - intros n Hn. unfold links. simpl. rewrite lookup_insert_ne; [done|]. intros ->. by apply Hn; left.
  - unfold links. simpl. by rewrite lookup_insert_eq.
  - apply lookup_insert_eq.
Qed.

(** ** Loops *)

(** A loop whose body leaves the shape alone. *)
Lemma loop_calm body n k p o l :
  chain k p o l → length l ≤ n → minv k →
  (∀ m k1, m ∈ l → minv k1 → ext k k1 → calm (body m) k1 (λ _ _, True)) →
  calm (menu_loop n body o) k (λ _ _, True).
Proof.
  intros C Hn I Hb.
  assert (G : ∀ k1, minv k1 → ext k k1 → calm (menu_loop n body o) k1 (λ _ _, True)); [|by apply G; [|apply ext_refl]].
  revert n Hn Hb. induction C as [p|p m x lc ln H Hp _ _ Hc IH]; intros n Hn Hb k1 I1 E1.
  { destruct n; by apply calm_ret. }
  simpl in Hn. rewrite length_app in Hn. destruct n as [|n]; [lia|]. simpl.
  eapply calm_bind; [apply Hb; [left|done..]|]. intros go k2 I2 E2 _. destruct go; [|by apply calm_ret].
  pose proof (ext_trans _ _ _ E1 E2) as E12.
  destruct (ext_menu _ _ _ _ E12 H) as (x2 & H2 & S). injection S as _ _ Sn _ _.
  eapply calm_get_menu; [done|]. rewrite Sn. apply IH; [lia| |done|done].
  intros m' k3 Hm'. apply Hb. right. apply elem_of_app. by right.
Qed.

(** The entry [m], with the parent [par], after a step that keeps the order of
    the entries below it and behind it; those have the parent [p]. *)
Definition moved (par : option mid) (p m : mid) (l : list mid) (k' : kstate) : Prop :=
  ∃ x' lc' ln', ks_menus k' !! m = Some x' ∧ mn_parent x' = par ∧
    chain k' m (mn_list x') lc' ∧ chain k' p (mn_next x') ln' ∧ lc' ++ ln' = l.

(** A loop whose body moves entries below and behind the current one. *)
Lemma loop_moves body n k p o l :
  chain k p o l → NoDup l → length l ≤ n → minv k →
  (∀ m x lc ln k1, minv k1 → pers k k1 → NoDup (m :: lc ++ ln) → length (lc ++ ln) < length l →
     ks_menus k1 !! m = Some x → mn_parent x = Some p → chain k1 m (mn_list x) lc → chain k1 p (mn_next x) ln →
     spec False (body m) k1 (λ go k2, go = true ∧ keeps (m :: lc ++ ln) k1 k2 ∧ moved (Some p) p m (lc ++ ln) k2)) →
  spec False (menu_loop n body o) k (λ _ k', keeps l k k' ∧ chain k' p o l).
Proof.
  revert n k o. induction l as [l IH] using (induction_ltof1 _ length). unfold ltof in IH.
  intros n k o C Nd Hn I Hb. destruct C as [p|p m x lc ln H Hp Hc Hnx].
  { destruct n; (split; [by apply keeps_refl|constructor]). }
  destruct n as [|n]; [simpl in Hn; lia|]. simpl in Hn. simpl.
  eapply spec_bind; [eapply Hb; [done|apply pers_refl|done|simpl; lia|done..]|].
  intros go k1 (-> & K1 & x1 & lc1 & ln1 & H1 & Hp1 & Hc1 & Hn1 & E). rewrite <-E in *.
  unfold spec, mthen, get_menu. rewrite H1. simpl.
  assert (Nd1 : NoDup ln1 ∧ (m ∉ ln1) ∧ ∀ a, a ∈ lc1 → a ∉ ln1).
  { apply NoDup_cons in Nd as [Nm Nd]. apply NoDup_app in Nd as (_ & D & N1). split_and!; [done| |done].
    intros Hm. apply Nm, elem_of_app. by right. }
  destruct Nd1 as (N1 & Nm & Nc). pose proof (IH ln1) as IH1. unfold spec in IH1.
  rewrite length_app in Hn. simpl in IH1. rewrite length_app in IH1.
  specialize (IH1 ltac:(lia) n k1 (mn_next x1) Hn1 N1 ltac:(lia) (ke_inv _ _ _ K1)).
  destruct (menu_loop n body (mn_next x1) k1) as [[[] k2]| |].
  2,3: apply IH1; intros m' x' lc' ln' k3 I3 P3 Nd3 Ll; eapply Hb; [done| |done|];
    [eapply pers_trans; [apply K1|done]|simpl; rewrite !length_app in *; lia].
  destruct IH1 as [K2 C2].
  { intros m' x' lc' ln' k3 I3 P3 Nd3 Ll. eapply Hb; [done| |done|];
      [eapply pers_trans; [apply K1|done]|simpl; rewrite !length_app in *; lia]. }
  assert (F : ∀ a, a ∉ ln1 → links k2 a = links k1 a) by apply K2. split.
  - eapply keeps_trans; [exact K1|]. eapply keeps_weaken; [|exact K2]. intros a Ha. right. apply elem_of_app. by right.
  - pose proof (F m Nm) as Lm. rewrite (links_Some _ _ _ H1) in Lm.
    apply links_inv in Lm as (x2 & H2 & Ep2 & El2 & En2).
    econstructor; [done|congruence| |by rewrite En2]. rewrite El2. eapply chain_frame; [|done].
    intros a Ha. apply F. by apply Nc.
Qed.

(** ** Dissolving a menu *)

Lemma nodup_entry (m : mid) lc ln :
  NoDup (m :: lc ++ ln) →
  NoDup lc ∧ NoDup ln ∧ (m ∉ lc) ∧ (m ∉ ln) ∧ (∀ a, a ∈ lc → a ∉ ln) ∧ (∀ a, a ∈ ln → a ∉ lc).
Proof.
  intros Nd. apply NoDup_cons in Nd as [Nm Nd]. apply NoDup_app in Nd as (N1 & D & N2).
  rewrite elem_of_app in Nm. split_and!; [done|done|tauto|tauto|done|]. intros a H1 H2. by apply (D a).
Qed.

Lemma hoist_loop_spec n k q p f l :
  chain k q (Some f) l → NoDup l → length l ≤ n → minv k →
  spec False (hoist_loop n p f) k (λ last k', keeps l k k' ∧ cut k' p p (Some f) last l [] ∧
    ∀ x, ks_menus k' !! last = Some x → mn_next x = None).
Proof.
  revert k f l. induction n as [|n IH]; intros k f l C Nd Hn I;
    inversion C as [|? m x lc ln H Hp Hc Hnx]; subst; [simpl in Hn; lia|]. simpl in Hn. rewrite length_app in Hn.
  destruct (nodup_entry _ _ _ Nd) as (Nc & Nn & Mc & Mn & D & D').
  cbn [hoist_loop]. eapply spec_bind; [by apply (spec_upd_links f (mn_set_parent (Some p)) k x)|].
  intros [] k1 (K1 & L1 & H1). simpl in L1.
  assert (F1 : ∀ a, a ≠ f → links k1 a = links k a).
  { intros a Ha. apply K1. by intros ?%list_elem_of_singleton. }
  assert (Hc1 : chain k1 f (mn_list x) lc).
  { eapply chain_frame; [|done]. intros a Ha. apply F1. by intros ->. }
  assert (Hn1 : chain k1 q (mn_next x) ln).
  { eapply chain_frame; [|done]. intros a Ha. apply F1. by intros ->. }
  assert (K1' : keeps (f :: lc ++ ln) k k1) by (eapply keeps_weaken; [|exact K1]; intros a ->%list_elem_of_singleton; left).
  unfold spec, mthen, get_menu. rewrite H1. simpl.
  destruct (mn_next x) as [g|] eqn:En.
  - specialize (IH k1 g ln Hn1 Nn ltac:(lia) (ke_inv _ _ _ K1)). unfold spec in IH.
    destruct (hoist_loop n p g k1) as [[last k2]| |]; [|done..]. destruct IH as (K2 & C2 & N2).
    assert (Lf : links k2 f = links k1 f) by (by apply K2). rewrite (links_Some _ _ _ H1) in Lf. simpl in Lf.
    apply links_inv in Lf as (x2 & H2 & Ep2 & El2 & En2). split_and!; [| |done].
    + eapply keeps_trans; [exact K1'|]. eapply keeps_weaken; [|exact K2]. intros a Ha. right. apply elem_of_app. by right.
    + apply (cut_next k2 p p f x2); [done..| |by rewrite En2, En]. rewrite El2. eapply chain_frame; [|done].
      intros a Ha. apply K2. by apply D.
  - inversion Hn1; subst. rewrite app_nil_r in *. split_and!; [done| |].
    + eapply (cut_here k1 p p f); [done..|]. simpl. rewrite En. constructor.
    + intros y Hy. rewrite H1 in Hy. injection Hy as <-. done.
Qed.

Lemma hoist_spec k p menu x f lc ln :
  minv k → ks_menus k !! menu = Some x → mn_parent x = Some p → mn_list x = Some f →
  chain k menu (mn_list x) lc → chain k p (mn_next x) ln → NoDup (menu :: lc ++ ln) →
  spec False (hoist p menu f) k (λ _ k', keeps (menu :: lc ++ ln) k k' ∧ moved (Some p) p menu (lc ++ ln) k').
Proof.
  intros I H Hp Ef Hc Hn Nd. destruct (nodup_entry _ _ _ Nd) as (Nc & Nn & Mc & Mn & D & D').
  unfold hoist. unfold spec, mthen at 1, mgets. rewrite Ef in Hc.
  pose proof (chain_nodup_fuel _ _ _ _ Hc Nc) as Hf.
  eapply spec_bind; [apply (hoist_loop_spec _ k menu p f lc Hc Nc); [lia|done]|].
  intros last k1 (K1 & C1 & _). destruct (cut_last _ _ _ _ _ _ _ C1) as (Hl & xl & Hxl & _).
  assert (Lm : links k1 menu = links k menu) by (by apply K1). rewrite (links_Some _ _ _ H) in Lm.
  apply links_inv in Lm as (x1 & H1 & Ep1 & El1 & En1). unfold spec, mthen at 1, get_menu. rewrite H1. simpl.
  eapply spec_bind; [by apply (spec_upd_links last (mn_set_next (mn_next x1)) k1 xl (ke_inv _ _ _ K1))|].
  intros [] k2 (K2 & L2 & _). simpl in L2. assert (Ne : menu ≠ last) by (by intros ->).
  assert (L2m : links k2 menu = links k1 menu) by (apply K2; by intros ?%list_elem_of_singleton).
  rewrite (links_Some _ _ _ H1) in L2m. apply links_inv in L2m as (x2 & H2 & Ep2 & El2 & En2).
  eapply spec_bind; [by apply (spec_upd_links menu (λ x, mn_set_next (mn_list x) x) k2 x2 (ke_inv _ _ _ K2))|].
  intros [] k3 (K3 & L3 & H3). simpl in L3.
  eapply spec_mono; [by apply (spec_upd_links menu (mn_set_list None) k3 _ (ke_inv _ _ _ K3) H3)|].
  intros [] k4 (K4 & L4 & H4). simpl in L4, H4.
  assert (F4 : ∀ a, a ≠ menu → links k4 a = links k2 a).
  { intros a Ha. rewrite (ke_links _ _ _ K4), (ke_links _ _ _ K3); [done|by intros ?%list_elem_of_singleton..]. }
  split.
  - eapply keeps_trans; [eapply keeps_weaken; [|exact K1]; intros a Ha; right; apply elem_of_app; by left|].
    eapply keeps_trans; [eapply keeps_weaken; [|exact K2]; intros a ->%list_elem_of_singleton; right; apply elem_of_app; by left|].
    eapply keeps_trans; [eapply keeps_weaken; [|exact K3]|eapply keeps_weaken; [|exact K4]];
      intros a ->%list_elem_of_singleton; left.
  - eexists _, [], (lc ++ ln). split_and!; [exact H4|simpl; congruence|constructor| |done].
    simpl. rewrite El2, El1, Ef. eapply (cut_join k1 k4); [exact C1|done|..].
    + intros a Ha Hne. rewrite F4 by (by intros ->). apply K2. by intros ?%list_elem_of_singleton.
    + intros y Hy. assert (y = xl) as -> by congruence. rewrite F4 by done. by rewrite L2.
    + rewrite En1. eapply chain_frame; [|exact Hn]. intros a Ha. rewrite F4 by (by intros ->).
      rewrite (ke_links _ _ _ K2) by (intros ->%list_elem_of_singleton; by apply (D last)).
      apply K1. by apply D'.
Qed.

Lemma calm_has_prompt k m x : minv k → ks_menus k !! m = Some x → calm (has_prompt_text x) k (λ _ k', k' = k).
Proof.
  intros I H. unfold has_prompt_text. destruct (mn_prompt x) as [p|] eqn:Ep; [|by apply calm_ret].
  destruct (mi_prompt k I m x p H Ep) as (q & Hq & _). eapply calm_get_prop; [done|]. by apply calm_ret.
Qed.

Definition sym_there (k : kstate) (sym : option sid) : Prop :=
  match sym with Some s => is_Some (ks_syms k !! s) | None => True end.

Lemma calm_is_choice k sym :
  minv k → sym_there k sym →
  calm (opt_is_choice sym) k (λ b k', k' = k ∧ match sym with
    | Some s => ∃ y, ks_syms k !! s = Some y ∧ b = is_choice y | None => b = false end).
Proof.
  intros I H. destruct sym as [s|]; [|by apply calm_ret]. destruct H as [y H].
  unfold opt_is_choice, sym_is_choice. eapply calm_get_sym; [done|]. apply calm_ret; [done|]. eauto.
Qed.

Lemma finalize_entry_spec k p sym m x lc ln :
  minv k → sym_there k sym → NoDup (m :: lc ++ ln) → ks_menus k !! m = Some x → mn_parent x = Some p →
  chain k m (mn_list x) lc → chain k p (mn_next x) ln →
  spec False (finalize_entry p sym m) k (λ go k', go = true ∧ keeps (m :: lc ++ ln) k k' ∧ moved (Some p) p m (lc ++ ln) k').
Proof.
  intros I Hs Nd H Hp Hc Hn. unfold finalize_entry.
  eapply spec_bind; [by apply calm_is_choice|]. intros ch k0 (_ & _ & -> & Hch).
  unfold spec, mthen at 1, get_menu. rewrite H. simpl.
  assert (C : calm match sym, ch, mn_sym x with
    | Some s, true, Some vs => choice_value s m vs | _, _, _ => mreturn () end k (λ _ _, True)).
  { destruct sym as [s|]; [|by apply calm_ret]. destruct Hch as (y & Hy & ->).
    destruct (is_choice y) eqn:Cy; [|by apply calm_ret]. destruct (mn_sym x) as [vs|] eqn:Ev; [|by apply calm_ret].
    by eapply calm_choice_value. }
  eapply spec_bind; [exact (calm_keeps (m :: lc ++ ln) _ _ _ C)|]. intros [] k1 (K1 & E1 & _).
  destruct (ext_menu _ _ _ _ E1 H) as (x1 & H1 & S). injection S as Sp Sl Sn _ _.
  unfold spec, mthen at 1, get_menu. rewrite H1. simpl.
  apply (ext_chain _ _ _ _ _ E1) in Hc, Hn. rewrite <-Sl in Hc. rewrite <-Sn in Hn.
  assert (Here : ∀ k2, k2 = k1 → true = true ∧ keeps (m :: lc ++ ln) k k2 ∧ moved (Some p) p m (lc ++ ln) k2).
  { intros k2 ->. split_and!; [done..|]. exists x1, lc, ln. split_and!; [done|congruence|done..]. }
  eapply (spec_bind _ _ _ _ _ (λ _ k2, keeps (m :: lc ++ ln) k k2 ∧ moved (Some p) p m (lc ++ ln) k2)).
  - destruct (mn_list x1) as [f|] eqn:Ef; [|by apply Here].
    eapply spec_bind; [apply (calm_has_prompt k1 m x1); [apply K1|done]|]. intros b k2 (_ & _ & ->).
    destruct b; [by apply Here|]. eapply spec_mono; [eapply (hoist_spec k1 p m x1 f lc ln)|].
    + apply K1.
    + done.
    + congruence.
    + done.
    + by rewrite Ef.
    + done.
    + done.
    + intros [] k2 [K2 M2]. split; [by eapply keeps_trans|done].
  - intros [] k2 [K2 M2]. done.
Qed.

(** ** The recursion *)

Section Recursion.
Context (finalize : mid → K ()) (n : nat).
(** The recursive call, for smaller trees. *)
Context (Hf : ∀ p m x lc ln k, minv k → ks_menus k !! m = Some x → mn_parent x = Some p →
  chain k m (mn_list x) lc → chain k p (mn_next x) ln → NoDup (m :: lc ++ ln) → length (lc ++ ln) < n →
  spec False (finalize m) k (λ _ k', keeps (m :: lc ++ ln) k k' ∧ moved (Some p) p m (lc ++ ln) k')).

Lemma adopt_loop_spec fuel k parent q sym basedep o l last :
  minv k → good k basedep → chain k q o l → NoDup l → length l ≤ fuel → length l ≤ n →
  spec False (adopt_loop finalize fuel parent sym basedep o last) k (λ r k', keeps l k k' ∧
    (r = last ∧ chain k' q o l ∨
     ∃ m l1 l2, r = Some m ∧ l1 ++ l2 = l ∧ cut k' parent q o m l1 l2)).
Proof.
  revert k o l last. induction fuel as [|fuel IH]; intros k o l last I W C Nd Hl Hn;
    destruct C as [q|q m x lc ln H Hp Hc Hnx];
    try (by split; [apply keeps_refl|left; split; [done|constructor]]); simpl in Hl, Hn; [lia|].
  cbn [adopt_loop]. unfold spec, mthen at 1, get_menu. rewrite H. simpl.
  eapply spec_bind; [apply (calm_prompt_visible k m x); [done..|by apply (mi_dep k I m)]|].
  intros dep k1 (_ & _ & -> & Wd).
  assert (Stop : keeps (m :: lc ++ ln) k k ∧ (last = last ∧ chain k q (Some m) (m :: lc ++ ln) ∨
    ∃ m' l1 l2, last = Some m' ∧ l1 ++ l2 = m :: lc ++ ln ∧ cut k parent q (Some m) m' l1 l2)).
  { split; [by apply keeps_refl|]. left. split; [done|]. by econstructor. }
  destruct (negb _); [exact Stop|].
  eapply (spec_bind _ _ _ _ _ (λ _ k', k' = k)).
  { destruct (from_option _ _ _); [done|]. eapply spec_mono; [by apply calm_implied|]. by intros a k' (_ & _ & ?). }
  intros ok k1 ->. destruct ok; [|exact Stop].
  eapply spec_bind; [apply (Hf q m x lc ln k I H Hp Hc Hnx Nd); lia|].
  intros [] k1 (K1 & x1 & lc1 & ln1 & H1 & Hp1 & Hc1 & Hn1 & E). rewrite <-E in *.
  destruct (nodup_entry _ _ _ Nd) as (Nc & Nn & Mc & Mn & D & D').
  eapply spec_bind; [by apply (spec_upd_links m (mn_set_parent (Some parent)) k1 x1 (ke_inv _ _ _ K1))|].
  intros [] k2 (K2 & L2 & H2). simpl in L2. unfold spec, mthen, get_menu. rewrite H2. simpl.
  assert (F2 : ∀ a, a ≠ m → links k2 a = links k1 a) by (intros a Ha; apply K2; by intros ?%list_elem_of_singleton).
  assert (Hc2 : chain k2 m (mn_list x1) lc1) by (eapply chain_frame; [|done]; intros a Ha; apply F2; by intros ->).
  assert (Hn2 : chain k2 q (mn_next x1) ln1) by (eapply chain_frame; [|done]; intros a Ha; apply F2; by intros ->).
  rewrite length_app in Hl, Hn.
  assert (W2 : good k2 basedep) by (by eapply keeps_good, keeps_good).
  specialize (IH k2 (mn_next x1) ln1 (Some m) (ke_inv _ _ _ K2) W2 Hn2 Nn ltac:(lia) ltac:(lia)). unfold spec in IH.
  destruct (adopt_loop finalize fuel parent sym basedep (mn_next x1) (Some m) k2) as [[r k3]| |]; [|done..].
  destruct IH as [K3 R]. split.
  { eapply keeps_trans; [exact K1|]. eapply keeps_trans;
      [eapply keeps_weaken; [|exact K2]; intros a ->%list_elem_of_singleton; left|].
    eapply keeps_weaken; [|exact K3]. intros a Ha. right. apply elem_of_app. by right. }
  assert (L3 : links k3 m = links k2 m) by (by apply K3). rewrite (links_Some _ _ _ H2) in L3. simpl in L3.
  apply links_inv in L3 as (x3 & H3 & Ep3 & El3 & En3). right.
  assert (Hc3 : chain k3 m (mn_list x3) lc1).
  { rewrite El3. eapply chain_frame; [|done]. intros a Ha. apply K3. by apply D. }
  destruct R as [[-> C3]|(m' & l1 & l2 & -> & E' & C3)].
  - exists m, (m :: lc1), ln1. split_and!; [done..|]. eapply cut_here; [done..|]. by rewrite En3.
  - exists m', (m :: lc1 ++ l1), l2. split_and!; [done| |]; [simpl; by rewrite <-app_assoc, E'|].
    eapply cut_next; [done..|]. by rewrite En3.
Qed.

Lemma adopt_spec k par p m x last l1 l2 :
  minv k → ks_menus k !! m = Some x → mn_parent x = par → cut k m p (mn_next x) last l1 l2 →
  NoDup (m :: l1 ++ l2) →
  spec False (adopt m last) k (λ _ k', keeps (m :: l1 ++ l2) k k' ∧ moved par p m (l1 ++ l2) k').
Proof.
  intros I H Hp C Nd. destruct (cut_last _ _ _ _ _ _ _ C) as (Hl & xl & Hxl & Hr).
  destruct (nodup_entry _ _ _ Nd) as (N1 & N2 & M1 & M2 & D & D'). assert (Ne : m ≠ last) by (by intros ->).
  unfold adopt.
  eapply spec_bind; [by apply (spec_upd_links m (λ x, mn_set_list (mn_next x) x) k x)|].
  intros [] k1 (K1 & L1 & H1). simpl in L1, H1.
  assert (Lx : links k1 last = links k last) by (apply K1; by intros ?%list_elem_of_singleton).
  rewrite (links_Some _ _ _ Hxl) in Lx. apply links_inv in Lx as (x1 & Hx1 & Ep1 & El1 & En1).
  unfold spec, mthen at 1, get_menu. rewrite Hx1. simpl.
  eapply spec_bind; [by apply (spec_upd_links m (mn_set_next (mn_next x1)) k1 _ (ke_inv _ _ _ K1) H1)|].
  intros [] k2 (K2 & L2 & H2). simpl in L2, H2.
  assert (Ly : links k2 last = links k1 last) by (apply K2; by intros ?%list_elem_of_singleton).
  rewrite (links_Some _ _ _ Hx1) in Ly. apply links_inv in Ly as (x2 & Hx2 & Ep2 & El2 & En2).
  eapply spec_mono; [by apply (spec_upd_links last (mn_set_next None) k2 x2 (ke_inv _ _ _ K2))|].
  intros [] k3 (K3 & L3 & _). simpl in L3.
  assert (F : ∀ a, a ≠ m → a ≠ last → links k3 a = links k a).
  { intros a Ha Hb. rewrite (ke_links _ _ _ K3), (ke_links _ _ _ K2), (ke_links _ _ _ K1);
      [done|by intros ?%list_elem_of_singleton..]. }
  assert (Lm : links k3 m = links k2 m) by (apply K3; by intros ?%list_elem_of_singleton).
  rewrite (links_Some _ _ _ H2) in Lm. simpl in Lm. apply links_inv in Lm as (x3 & H3 & Ep3 & El3 & En3). split.
  - eapply keeps_trans; [eapply keeps_weaken; [|exact K1]; intros a ->%list_elem_of_singleton; left|].
    eapply keeps_trans; [eapply keeps_weaken; [|exact K2]; intros a ->%list_elem_of_singleton; left|].
    eapply keeps_weaken; [|exact K3]; intros a ->%list_elem_of_singleton. right. apply elem_of_app. by left.
  - exists x3, l1, l2. split_and!; [done|congruence| | |done].
    + rewrite El3, <-(app_nil_r l1). eapply (cut_join k k3); [exact C|done| | |constructor].
      * intros a Ha Hb. apply F; [by intros ->|done].
      * intros y Hy. assert (y = xl) as -> by congruence. rewrite L3. congruence.
    + rewrite En3, En1. eapply chain_frame; [|exact Hr]. intros a Ha.
      apply F; [by intros ->|]. intros ->. by apply (D last).
Qed.

Lemma finalize_next_spec k par p m x s ln :
  minv k → ks_menus k !! m = Some x → mn_parent x = par → mn_list x = None → chain k p (mn_next x) ln →
  NoDup (m :: ln) → length ln ≤ n →
  spec False (finalize_next finalize m s) k (λ _ k', keeps (m :: ln) k k' ∧ moved par p m ln k').
Proof.
  intros I H Hp El Hn Nd Hl. unfold finalize_next. unfold spec, mthen at 1, get_menu. rewrite H. simpl.
  eapply spec_bind; [by apply (calm_prompt_visible k m x)|]. intros b k1 (_ & _ & -> & W).
  eapply spec_bind; [apply calm_transform; [done|by apply good_trans_compare]|]. intros b1 k1 (_ & _ & -> & W1).
  eapply spec_bind; [by apply calm_dups|]. intros b2 k1 (_ & _ & -> & W2).
  unfold spec, mthen at 1, mgets. apply NoDup_cons in Nd as [Nm Nd]. pose proof (chain_nodup_fuel _ _ _ _ Hn Nd) as Hf'.
  eapply spec_bind; [apply (adopt_loop_spec _ k m p s b2 (mn_next x) ln None I W2 Hn Nd); lia|].
  intros r k1 (K1 & R). assert (Lm : links k1 m = links k m) by (by apply K1).
  rewrite (links_Some _ _ _ H) in Lm. apply links_inv in Lm as (x1 & H1 & Ep1 & El1 & En1).
  assert (K1' : keeps (m :: ln) k k1) by (eapply keeps_weaken; [|exact K1]; intros a Ha; by right).
  destruct R as [[-> C]|(last & l1 & l2 & -> & <- & C)].
  - split; [done|]. exists x1, [], ln. split_and!; [done|congruence|rewrite El1, El; constructor|by rewrite En1|done].
  - rewrite <-En1 in C. eapply spec_mono; [apply (adopt_spec k1 par p m x1 last l1 l2 (ke_inv _ _ _ K1)); [done|congruence|done|]|].
    + by apply NoDup_cons.
    + intros [] k2 [K2 M2]. split; [by eapply keeps_trans|done].
Qed.

Lemma finalize_list_spec k m x lc :
  minv k → ks_menus k !! m = Some x → chain k m (mn_list x) lc → NoDup (m :: lc) → length lc ≤ n →
  spec False (finalize_list finalize m) k (λ _ k', keeps lc k k' ∧ chain k' m (mn_list x) lc).
Proof.
  intros I H Hc Nd Hl. apply NoDup_cons in Nd as [Nm Nd]. pose proof (chain_nodup_fuel _ _ _ _ Hc Nd) as Hf'.
  unfold finalize_list. unfold spec, mthen at 1, get_menu. rewrite H. simpl.
  assert (Sy : sym_there k (mn_sym x)).
  { unfold sym_there. destruct (mn_sym x) as [s|] eqn:Es; [|done].
    destruct (mi_sym k I m x s H Es) as (y & ? & _). eauto. }
  eapply spec_bind; [by apply calm_is_choice|]. intros ch k0 (_ & _ & -> & _).
  eapply (spec_bind _ _ _ _ _ (λ e k1, minv k1 ∧ ext k k1 ∧ good k1 e)).
  { destruct (mn_sym x) as [s|] eqn:Es; [destruct ch|].
    - eapply spec_bind; [apply (loop_calm _ _ k m (mn_list x) lc Hc); [lia|done|]|].
      + intros c k1 Hin I1 E1. destruct (chain_in _ _ _ _ _ Hc Hin) as [z Hz].
        destruct (ext_entry _ _ _ _ E1 H) as (x1 & H1 & S1 & _). destruct (ext_menu _ _ _ _ E1 Hz) as (z1 & Hz1 & _).
        apply (calm_choice_type m s c k1 x1 z1); [done..|congruence|done].
      + intros [] k1 (I1 & E1 & _). split_and!; [done|done|]. apply good_symbol. by eapply ext_sym.
    - eapply spec_mono; [apply (calm_prompt_visible k m x); [done..|by apply (mi_dep k I m)]|].
      intros e k1 (I1 & E1 & -> & W). done.
    - eapply spec_mono; [apply (calm_prompt_visible k m x); [done..|by apply (mi_dep k I m)]|].
      intros e k1 (I1 & E1 & -> & W). done. }
  intros pd k1 (I1 & E1 & W). pose proof (ext_chain _ _ _ _ _ E1 Hc) as Hc1.
  eapply spec_bind; [unfold for_menus; apply (loop_calm _ _ k1 m (mn_list x) lc Hc1); [rewrite (ext_size _ _ E1); lia|done|]|].
  { intros c k2 Hin I2 E2. destruct (chain_in _ _ _ _ _ Hc1 Hin) as [z Hz].
    destruct (ext_menu _ _ _ _ E2 Hz) as (z2 & Hz2 & _). apply (ext_good _ _ _ E2) in W.
    eapply calm_mono; [by eapply calm_menu_dep|done]. }
  intros [] k2 (I2 & E2 & _). pose proof (ext_chain _ _ _ _ _ E2 Hc1) as Hc2.
  pose proof (ext_trans _ _ _ E1 E2) as E12.
  eapply spec_mono; [unfold for_menus; apply (loop_moves _ _ k2 m (mn_list x) lc Hc2 Nd); [rewrite (ext_size _ _ E12); lia|done|]|].
  { intros c z lcc lnc k3 I3 P3 Nd3 Ll Hz Hpz Hcz Hnz.
    eapply spec_bind; [apply (Hf m c z lcc lnc k3 I3 Hz Hpz Hcz Hnz Nd3); lia|].
    intros [] k4 [K4 M4]. done. }
  intros [] k3 [K3 C3]. split; [|done]. eapply keeps_trans; [by apply ext_keeps|done].
Qed.

(** The part of [menu_finalize] before the loop over the entries below. *)
Lemma body_first k par p m x lc ln :
  minv k → ks_menus k !! m = Some x → mn_parent x = par →
  chain k m (mn_list x) lc → chain k p (mn_next x) ln → NoDup (m :: lc ++ ln) → length (lc ++ ln) ≤ n →
  spec False (match mn_list x, mn_sym x with
              | Some _, _ => finalize_list finalize m
              | None, Some s => finalize_next finalize m s
              | None, None => mreturn ()
              end) k (λ _ k', keeps (m :: lc ++ ln) k k' ∧ moved par p m (lc ++ ln) k').
Proof.
  intros I H Hp Hc Hn Nd Hl. destruct (nodup_entry _ _ _ Nd) as (Nc & Nn & Mc & Mn & D & D').
  rewrite length_app in Hl. destruct (mn_list x) as [f|] eqn:El.
  - rewrite <-El in Hc. eapply spec_mono; [apply (finalize_list_spec k m x lc I H Hc); [by apply NoDup_cons|lia]|].
    intros [] k1 [K1 C1]. split; [eapply keeps_weaken; [|exact K1]; intros a Ha; right; apply elem_of_app; by left|].
    assert (Lm : links k1 m = links k m) by (by apply K1). rewrite (links_Some _ _ _ H) in Lm.
    apply links_inv in Lm as (x1 & H1 & Ep1 & El1 & En1). exists x1, lc, ln.
    split_and!; [done|congruence|by rewrite El1| |done]. rewrite En1. eapply chain_frame; [|done].
    intros a Ha. apply K1. by apply D'.
  - inversion Hc; subst lc. destruct (mn_sym x) as [s|].
    + by apply (finalize_next_spec k par p m x s ln).
    + split; [by apply keeps_refl|]. exists x, [], ln. rewrite El. split_and!; try done.
Qed.

(** The loop over the entries below. *)
Lemma body_loop k par p m x lc ln sym :
  minv k → sym_there k sym → ks_menus k !! m = Some x → mn_parent x = par →
  chain k m (mn_list x) lc → chain k p (mn_next x) ln → NoDup (m :: lc ++ ln) →
  spec False (for_menus (mn_list x) (finalize_entry m sym)) k
    (λ _ k', keeps (m :: lc ++ ln) k k' ∧ moved par p m (lc ++ ln) k').
Proof.
  intros I Sy H Hp Hc Hn Nd. destruct (nodup_entry _ _ _ Nd) as (Nc & Nn & Mc & Mn & D & D').
  pose proof (chain_nodup_fuel _ _ _ _ Hc Nc) as Hf'.
  eapply spec_mono; [unfold for_menus; apply (loop_moves _ _ k m (mn_list x) lc Hc Nc); [lia|done|]|].
  { intros c z lcc lnc k3 I3 P3 Nd3 Ll Hz Hpz Hcz Hnz. apply (finalize_entry_spec k3 m sym c z); try done.
    unfold sym_there in *. destruct sym as [s|]; [|done]. destruct Sy as [y Hy].
    destruct (pe_sym _ _ P3 s y Hy) as (y3 & ? & _). eauto. }
  intros [] k2 [K2 C2]. assert (Lm : links k2 m = links k m) by (by apply K2). rewrite (links_Some _ _ _ H) in Lm.
  apply links_inv in Lm as (x2 & H2 & Ep2 & El2 & En2). split.
  - eapply keeps_weaken; [|exact K2]. intros a Ha. right. apply elem_of_app. by left.
  - exists x2, lc, ln. split_and!; [done|congruence|by rewrite El2| |done]. rewrite En2. eapply chain_frame; [|done].
    intros a Ha. apply K2. by apply D'.
Qed.

Lemma moved_ext par p m l k k' : ext k k' → moved par p m l k → moved par p m l k'.
Proof.
  intros E (x & lc & ln & H & Hp & Hc & Hn & El). destruct (ext_menu _ _ _ _ E H) as (x' & H' & S).
  injection S as Sp Sl Sn _ _. exists x', lc, ln.
  split_and!; [done|congruence|rewrite Sl; by eapply ext_chain|rewrite Sn; by eapply ext_chain|done].
Qed.

Lemma body_spec k par p m x lc ln :
  minv k → ks_menus k !! m = Some x → mn_parent x = par →
  chain k m (mn_list x) lc → chain k p (mn_next x) ln → NoDup (m :: lc ++ ln) → length (lc ++ ln) ≤ n →
  spec False (menu_finalize_body finalize m) k (λ _ k', keeps (m :: lc ++ ln) k k' ∧ moved par p m (lc ++ ln) k').
Proof.
  intros I H Hp Hc Hn Nd Hl. unfold menu_finalize_body. unfold spec, mthen at 1, get_menu. rewrite H. simpl.
  eapply spec_bind; [by apply (body_first k par p m x lc ln)|].
  intros [] k1 (K1 & x1 & lc1 & ln1 & H1 & Hp1 & Hc1 & Hn1 & E). rewrite <-E in *.
  unfold spec, mthen at 1, get_menu. rewrite H1. simpl.
  assert (Sy : ∀ k', pers k k' → sym_there k' (mn_sym x)).
  { intros k' P'. unfold sym_there. destruct (mn_sym x) as [s|] eqn:Es; [|done].
    destruct (mi_sym k I m x s H Es) as (y & Hy & _). destruct (pe_sym _ _ P' s y Hy) as (y1 & ? & _). eauto. }
  eapply spec_bind; [apply (body_loop k1 par p m x1 lc1 ln1); [apply K1|apply Sy, K1|done..]|].
  intros [] k2 [K2 M2]. pose proof (keeps_trans _ _ _ _ K1 K2) as K12. specialize (Sy k2 (ke_pers _ _ _ K12)).
  destruct (mn_sym x) as [s|]; [|done]. destruct Sy as [y2 Hy2]. destruct M2 as (x2 & ? & ? & H2 & M2).
  assert (C : calm (do! finalize_warn m s in finalize_rev_dep m s) k2 (λ _ _, True)).
  { eapply calm_bind; [eapply calm_finalize_warn; [apply K12|done..]|]. intros [] k3 I3 E3 _.
    destruct (ext_menu _ _ _ _ E3 H2) as (x3' & H3 & _). destruct (ex_sym _ _ E3 s y2 Hy2) as (y3 & Hy3 & _).
    by eapply calm_finalize_rev_dep. }
  eapply spec_mono; [exact C|]. intros [] k3 (I3 & E3 & _). split.
  - eapply keeps_trans; [exact K12|by apply ext_keeps].
  - eapply moved_ext; [exact E3|]. eexists _, _, _. eauto.
Qed.
End Recursion.

Lemma finalize_spec n par p m x lc ln k :
  minv k → ks_menus k !! m = Some x → mn_parent x = par →
  chain k m (mn_list x) lc → chain k p (mn_next x) ln → NoDup (m :: lc ++ ln) → length (lc ++ ln) < n →
  spec False (menu_finalize_f n m) k (λ _ k', keeps (m :: lc ++ ln) k k' ∧ moved par p m (lc ++ ln) k').
Proof.
  revert par p m x lc ln k. induction n as [|n IH]; intros par p m x lc ln k I H Hp Hc Hn Nd Hl; [lia|].
  apply (body_spec (menu_finalize_f n) n) with (x := x); [|done..|lia].
  intros p' m' x' lc' ln' k' I' H' Hp' Hc' Hn' Nd' Hl'. by eapply IH.
Qed.

Lemma menu_finalize_spec par p m x lc ln k :
  minv k → ks_menus k !! m = Some x → mn_parent x = par →
  chain k m (mn_list x) lc → chain k p (mn_next x) ln → NoDup (m :: lc ++ ln) →
  spec False (menu_finalize m) k (λ _ k', keeps (m :: lc ++ ln) k k' ∧ moved par p m (lc ++ ln) k').
Proof.
  intros I H Hp Hc Hn Nd.
  assert (Hl : length (lc ++ ln) < menu_fuel k).
  { apply NoDup_cons in Nd as [_ Nd]. unfold menu_fuel.
    rewrite <-(size_dom (ks_menus k)), <-(size_list_to_set (lc ++ ln) Nd (C := gset mid)).
    apply Nat.lt_succ_r, subseteq_size. intros a Ha. apply elem_of_list_to_set, elem_of_app in Ha.
    apply elem_of_dom. destruct Ha as [Ha|Ha]; [exact (chain_in _ _ _ _ _ Hc Ha)|exact (chain_in _ _ _ _ _ Hn Ha)]. }
  exact (finalize_spec (menu_fuel k) par p m x lc ln k I H Hp Hc Hn Nd Hl).
Qed.

(** The entries from [o] on, with the parent [p], in the order of [chain]. *)
Fixpoint preorder (n : nat) (k : kstate) (p : mid) (o : option mid) : option (list mid) :=
  match o with
  | None => Some []
  | Some m =>
      match n with
      | O => None
      | S n =>
          let? x := ks_menus k !! m in
          if decide (mn_parent x = Some p) then
            let? lc := preorder n k m (mn_list x) in
            let? ln := preorder n k p (mn_next x) in
            Some (m :: lc ++ ln)
          else None
      end
  end.

Lemma preorder_chain n k p o l : preorder n k p o = Some l → chain k p o l.
Proof.
  revert p o l. induction n as [|n IH]; intros p [m|] l; simpl; try done; intros H; simplify_eq; try constructor.
  opt_step H. case_decide; [|done]. opt_step H. opt_step H. injection H as <-. econstructor; eauto.
Qed.

(** [menu_finalize] of the root of a well-formed tree. *)
Lemma finalize_root k x l :
  minv k → ks_menus k !! rootmenu = Some x → mn_next x = None →
  chain k rootmenu (mn_list x) l → NoDup (rootmenu :: l) →
  ∃ k' x', menu_finalize rootmenu k = Done ((), k') ∧ keeps (rootmenu :: l) k k' ∧
    ks_menus k' !! rootmenu = Some x' ∧ mn_next x' = None ∧ chain k' rootmenu (mn_list x') l.
Proof.
  intros I H Hn Hc Nd.
  assert (S : ∀ p, spec False (menu_finalize rootmenu) k (λ _ k', keeps (rootmenu :: l ++ []) k k' ∧
    moved (mn_parent x) p rootmenu (l ++ []) k')).
  { intros p. apply (menu_finalize_spec _ _ _ x); try done; [rewrite Hn; constructor|by rewrite app_nil_r]. }
  pose proof (S 0) as S0. pose proof (S 1) as S1. unfold spec in S0, S1.
  destruct (menu_finalize rootmenu k) as [[[] k']| |]; [|done..].
  destruct S0 as (K0 & x0 & lc0 & ln0 & H0 & _ & C0 & N0 & E0), S1 as (_ & x1 & lc1 & ln1 & H1 & _ & _ & N1 & _).
  assert (x1 = x0) as -> by congruence.
  assert (Nx : mn_next x0 = None).
  { destruct (mn_next x0) as [m|]; [|done]. inversion N0; inversion N1; subst. congruence. }
  rewrite Nx in N0. inversion N0; subst ln0. rewrite !app_nil_r in E0. subst lc0.
  exists k', x0. by rewrite app_nil_r in K0.
Qed.
