(* ===== verification/KCalc.v ===== *)
(** * Calculations as steps of a store

    Whatever is calculated in a well-formed store without choices, what was
    valid stays as it is and what becomes valid is solved.  [runs] is for
    computations that do nothing else, [menu_vis] is the reference for
    [menu_is_visible]. *)
From S2P Require Import Prelude CLib KData KExpr KExprFacts KState KSymbol KSymFrame KSymRef KSymSolve KSymTab.
From S2P Require Import KSymUnique KSymSet KMenu KMenuInv KMenuTree.
From Stdlib Require Import Ascii.
Open Scope pr30_scope.

(** ** Steps *)

Record ready (k : kstate) : Prop := {
  re_plain : plain k;
  re_const : const_valid k;
  re_solved : valid_solved k;
}.

(** [visible.tri] of a property is what it was, or what its condition comes to. *)
Definition props_kept (k k' : kstate) : Prop :=
  ∀ p x', ks_props k' !! p = Some x' →
    (∃ x, ks_props k !! p = Some x ∧ pr_visible_tri x' = pr_visible_tri x) ∨
    ref_null k' (pr_visible x') = Some (pr_visible_tri x').

(** [k'] comes from [k] by calculations. *)
Record calced (k k' : kstate) : Prop := {
  cd_core : ks_core k' = ks_core k;
  cd_same : ∀ u, valid_in k u → ks_syms k' !! u = ks_syms k !! u;
  cd_mark : ∀ u, valid_in k' u → ¬ valid_in k u → marked_in k' u ∧ shown_in k' u;
  cd_prop : props_kept k k';
  cd_solved : valid_solved k → valid_solved k';
}.

(** The prompts of all valid symbols are calculated. *)
Definition prompted (k : kstate) : Prop := ∀ u, valid_in k u → shown_in k u.

Lemma calced_refl k : calced k k.
Proof. split; try done. intros p x H. left. by exists x. Qed.
Lemma calced_valid k k' u : calced k k' → valid_in k u → valid_in k' u.
Proof. intros C V. by eapply valid_kept; [apply (cd_same _ _ C)|]. Qed.
Lemma calced_agree P k k' : calced k k' → agree P k k'.
Proof. intros C. apply agree_exact; [|apply core_props, C]. intros t _. apply (cd_same _ _ C). Qed.
Lemma calced_null k k' e v : calced k k' → ref_null k e = Some v → ref_null k' e = Some v.
Proof. intros C. apply (ref_null_stable (λ _, True)); [by apply calced_agree|done]. Qed.
Lemma calced_expr k k' e v : calced k k' → ref_expr k e = Some v → ref_expr k' e = Some v.
Proof. exact (calced_null k k' (Some e) v). Qed.

Lemma shown_calced k k' l : calced k k' → shown k l → shown k' l.
Proof.
  intros C Sh p x' Hp H' Tx. destruct (cd_prop _ _ C p x' H') as [(x & H & E)|E]; [|done]. rewrite E.
  destruct (core_prop k k' p x (cd_core _ _ C) H) as (z & Hz & Cz). assert (z = x') as -> by congruence.
  apply pr_core_inv in Cz as (_ & Et & -> & _). eapply calced_null; [done|]. apply (Sh p); [done..|]. congruence.
Qed.

Lemma calced_trans k1 k2 k3 : calced k1 k2 → calced k2 k3 → calced k1 k3.
Proof.
  intros D1 D2. pose proof D1 as [C1 S1 M1 Q1 A1]. pose proof D2 as [C2 S2 M2 Q2 A2]. split; [congruence| | | |auto].
  - intros u V. rewrite S2, S1; [done..|]. by apply (calced_valid k1).
  - intros u V3 N. destruct (decide (valid_in k2 u)) as [V2|N2]; [|auto].
    destruct (M1 u V2 N) as [Ma Sh]. split; intros y H; rewrite S2 in H by done; [by apply Ma|].
    intros T1 T2. eapply shown_calced; [done|by apply Sh].
  - intros p x3 H3. destruct (Q2 p x3 H3) as [(x2 & H2 & E2)|E]; [|by right].
    destruct (Q1 p x2 H2) as [(x1 & H1 & E1)|E]; [left; exists x1; split; congruence|right].
    destruct (core_prop k2 k3 p x2 C2 H2) as (z & Hz & Cz). assert (z = x3) as -> by congruence.
    apply pr_core_inv in Cz as (_ & _ & -> & _). rewrite E2. by eapply calced_null.
Qed.
Lemma calced_ready k k' : calced k k' → ready k → ready k'.
Proof.
  intros D [P [Cy Cm] A]. split; [by eapply plain_core; [apply D|]| |by apply D].
  split; by apply (calced_valid k).
Qed.
Lemma calced_prompted k k' : calced k k' → prompted k → prompted k'.
Proof.
  intros D Pr u V. destruct (decide (valid_in k u)) as [Vk|N]; [|by apply (cd_mark _ _ D)].
  intros y H. rewrite (cd_same _ _ D) in H by done. intros T1 T2. eapply shown_calced; [done|]. by apply (Pr u).
Qed.
Lemma calced_exists k k' s : calced k k' → is_Some (ks_syms k !! s) → is_Some (ks_syms k' !! s).
Proof. intros D. apply core_exists, D. Qed.

Lemma core_calced k k' :
  ks_core k' = ks_core k → ks_syms k' = ks_syms k → props_kept k k' → calced k k'.
Proof.
  intros C E Q. split; [done|by rewrite E| |done|].
  - intros u (y & H & V) N. destruct N. exists y. by rewrite <-E.
  - intros A s (y & H & V). rewrite E in H.
    eapply (solved_stable k); [|by rewrite E|apply A; by exists y].
    apply agree_exact; [|by apply core_props]. intros t _ _. by rewrite E.
Qed.

(** Calculations for a valid symbol. *)
Lemma istep_calced s k k' : istep None s k k' → calced k k'.
Proof.
  intros [C S N M Q _]. split; [done|by intros u; apply S|done| |].
  - intros p x H. destruct (Q p x H) as [?|[_ ?]]; auto.
  - intros A u V. destruct (decide (valid_in k u)) as [Vk|Nu]; [|by apply N].
    eapply (solved_stable k); [|by apply S|by apply A].
    apply agree_exact; [|by apply core_props]. intros t _. by apply S.
Qed.

(** ** Computations that calculate *)

Definition runs {A} (m : K A) (k : kstate) (Q : A → kstate → Prop) : Prop :=
  ready k → ∃ a k', m k = Done (a, k') ∧ calced k k' ∧ Q a k'.

Lemma runs_ret {A} (a : A) k (Q : A → kstate → Prop) : Q a k → runs (mreturn a) k Q.
Proof. intros H R. exists a, k. split_and!; [done|apply calced_refl|done]. Qed.
Lemma runs_bind {A B} (m : K A) (f : A → K B) k P Q :
  runs m k P → (∀ a k1, calced k k1 → P a k1 → runs (f a) k1 Q) → runs (mthen m f) k Q.
Proof.
  intros Hm Hf R. destruct (Hm R) as (a & k1 & E1 & D1 & H1).
  destruct (Hf a k1 D1 H1 (calced_ready _ _ D1 R)) as (b & k2 & E2 & D2 & H2).
  exists b, k2. rewrite (mthen_done _ _ _ _ _ E1). split_and!; [done|by eapply calced_trans|done].
Qed.
Lemma runs_mono {A} (m : K A) k (P Q : A → kstate → Prop) :
  runs m k P → (∀ a k', calced k k' → P a k' → Q a k') → runs m k Q.
Proof. intros H HQ R. destruct (H R) as (a & k' & ? & ? & ?). exists a, k'. auto. Qed.

Lemma runs_pure {A B} (m : K A) (a : A) (f : A → K B) k Q :
  m k = Done (a, k) → runs (f a) k Q → runs (mthen m f) k Q.
Proof.
  intros E H R. destruct (H R) as (b & k' & E' & D & HQ). exists b, k'. by rewrite (mthen_done _ _ _ _ _ E).
Qed.
Lemma runs_get_sym {A} s y (f : symbol → K A) k Q :
  ks_syms k !! s = Some y → runs (f y) k Q → runs (mthen (get_sym s) f) k Q.
Proof. intros H. eapply runs_pure. by apply run_get_sym. Qed.

Lemma calc_inside s k : ready k → valid_in k s → inside (calc_fuel k) s k.
Proof.
  intros [P Cv A] V. split; [done| |done|by intros u _; apply A|done].
  unfold calc_fuel. pose proof (invalid_bound k). lia.
Qed.
Lemma calc_of n s t k : reads k s t → inside n s k →
  spec False (sym_calc_value t) k (λ _ k', done_by t k k' ∧ valid_in k' t).
Proof.
  intros R I. apply calc_solves; [apply I| |by eapply pl_reads; [apply I|]|apply I|].
  - unfold calc_fuel. pose proof (invalid_bound k). lia.
  - intros u Hu Vu. apply (in_below n s k I); [|done]. by eapply tc_rtc_r; [apply tc_once|].
Qed.
(** What is shown for the calculation of [s] holds when [s] is calculated. *)
Lemma runs_isp {A} s (m : K A) k (Q : A → kstate → Prop) :
  valid_in k s → (inside (calc_fuel k) s k → isp s None m k Q) → runs m k Q.
Proof.
  intros V H R. specialize (H (calc_inside s k R V)). unfold isp, spec in H.
  destruct (m k) as [[a k']| |]; [|done..]. destruct H as [S HQ]. exists a, k'.
  split_and!; [done|by eapply istep_calced|done].
Qed.

Lemma runs_calc s k : is_Some (ks_syms k !! s) → runs (sym_calc_value s) k (λ _ k', valid_in k' s).
Proof.
  intros Hs [P Cv A]. destruct (calc_step k s P Cv A Hs) as (k' & E & D & V & A'). exists (), k'.
  split_and!; [done| |done]. split; try apply D; [|done].
  intros p x H. destruct (db_prop _ _ _ D p x H) as [?|[_ ?]]; auto.
Qed.

Lemma runs_string_value s k : valid_in k s →
  runs (let! v := sym_get_string_value s in deref_str v) k (λ t k', k' = k ∧ ∃ y, ks_syms k !! s = Some y ∧
    cval_text (string_value y) = Some t).
Proof.
  intros V R. destruct (solved_text k s (re_solved k R s V)) as (y & c & c' & H & _ & Es & _).
  exists (cs_text c), k. rewrite (mthen_done _ _ _ _ _ (run_string_value k s y H)), Es.
  split_and!; [done|apply calced_refl|done|]. exists y. by rewrite Es.
Qed.

Lemma runs_compare l r (f : string → string → tristate) k :
  is_Some (ks_syms k !! l) → is_Some (ks_syms k !! r) →
  runs (do! sym_calc_value l in
        do! sym_calc_value r in
        let! str1 := sym_get_string_value l in
        let! str2 := sym_get_string_value r in
        let! a := deref_str str1 in
        let! b := deref_str str2 in
        mreturn (f a b)) k (λ v k', ∃ a b, ref_str k' l = Some a ∧ ref_str k' r = Some b ∧ v = f a b).
Proof.
  intros Hl Hr. eapply runs_bind; [by apply runs_calc|]. intros [] k1 D1 V1.
  eapply runs_bind; [apply runs_calc; by eapply calced_exists|]. intros [] k2 D2 V2 R2.
  pose proof (calced_valid _ _ _ D2 V1) as V1'.
  destruct (solved_text k2 l (re_solved k2 R2 l V1')) as (y1 & c1 & _ & H1 & W1 & E1 & _).
  destruct (solved_text k2 r (re_solved k2 R2 r V2)) as (y2 & c2 & _ & H2 & W2 & E2 & _).
  exists (f (cs_text c1) (cs_text c2)), k2. rewrite (mthen_done _ _ _ _ _ (run_string_value k2 l y1 H1)).
  rewrite (mthen_done _ _ _ _ _ (run_string_value k2 r y2 H2)), E1, E2. split_and!; [done|apply calced_refl|].
  exists (cs_text c1), (cs_text c2). unfold ref_str. by rewrite (ref_sym_Some _ _ _ H1 W1), (ref_sym_Some _ _ _ H2 W2), E1, E2.
Qed.

Lemma runs_tristate s k : is_Some (ks_syms k !! s) →
  runs (do! sym_calc_value s in sym_get_tristate_value s) k (λ v k', ref_tri k' s = Some v).
Proof.
  intros Hs. eapply runs_bind; [by apply runs_calc|]. intros [] k1 D1 (y & H & V).
  eapply runs_get_sym; [done|]. apply runs_ret. unfold ref_tri. by rewrite (ref_sym_Some _ _ _ H V).
Qed.

Lemma runs_log m k : runs (log m) k (λ _ _, True).
Proof. intros R. eexists _, _. split_and!; [done|apply core_calced; [done..|]|done]. intros p x H. left. by exists x. Qed.

Lemma runs_expr e k :
  (∀ t, t ∈ expr_syms e → is_Some (ks_syms k !! t)) →
  runs (expr_calc sym_calc_value e) k (λ v k', ref_expr k' e = Some v).
Proof.
  revert k. induction e as [l IHl r IHr|l IHl r IHr|l IHl|l r|l r|l s|s|l r]; intros k Hs; cbn [expr_calc ref_expr].
  1,2: eapply runs_bind; [apply IHl; intros t Ht; apply Hs; simpl; apply elem_of_app; by left|];
    intros a k1 D1 E1; eapply runs_bind;
    [apply IHr; intros t Ht; apply (calced_exists k); [done|]; apply Hs; simpl; apply elem_of_app; by right|];
    intros b k2 D2 E2; apply runs_ret; by rewrite (calced_expr _ _ _ _ D2 E1), E2.
  - eapply runs_bind; [by apply IHl|]. intros v k1 _ E. apply runs_ret. by rewrite E.
  - eapply runs_mono; [apply (runs_compare l r (λ a b, if decide (a = b) then Yes else No)); apply Hs; [by left|by right; left]|].
    by intros v k' _ (a & b & -> & -> & ->).
  - eapply runs_mono; [apply (runs_compare l r (λ a b, if decide (a = b) then No else Yes)); apply Hs; [by left|by right; left]|].
    by intros v k' _ (a & b & -> & -> & ->).
  - eapply runs_bind; [apply runs_log|]. intros [] k1 _ _. by apply runs_ret.
  - apply runs_tristate, Hs. by left.
  - eapply runs_bind; [apply runs_log|]. intros [] k1 _ _. by apply runs_ret.
Qed.

(** The condition of a prompt. *)
Lemma runs_prop_visible p x k :
  ks_props k !! p = Some x → (∀ t, t ∈ oexpr_syms (pr_visible x) → is_Some (ks_syms k !! t)) →
  runs (calc_prop_visible sym_calc_value p) k (λ v k', ref_null k' (pr_visible x) = Some v).
Proof.
  intros Hx Hs. unfold calc_prop_visible.
  eapply runs_pure; [unfold get_prop; by rewrite Hx|].
  eapply (runs_bind _ _ _ (λ v k', ref_null k' (pr_visible x) = Some v)).
  { unfold expr_calc_value. destruct (pr_visible x) as [e|]; [by apply runs_expr|by apply runs_ret]. }
  intros v k1 D1 E1 R1. destruct (core_prop k k1 p x (cd_core _ _ D1) Hx) as (x1 & Hx1 & Cx).
  set (k2 := ks_set_props (<[p := pr_set_visible_tri v x1]> (ks_props k1)) k1).
  assert (C2 : ks_core k2 = ks_core k1).
  { unfold k2, ks_core, ks_set_props. simpl. rewrite fmap_insert, insert_id; [done|]. rewrite lookup_fmap, Hx1.
    by destruct x1. }
  assert (E2 : ref_null k2 (pr_visible x) = Some v).
  { eapply (ref_null_stable (λ _, True) k1); [|done..]. apply agree_exact; [done|by apply core_props]. }
  exists v, k2. split_and!; [|apply core_calced; [done..|]|done].
  - unfold upd_prop, mthen, get_prop. rewrite Hx1. done.
  - intros q z Hz. simpl in Hz. destruct (decide (q = p)) as [->|N].
    + rewrite lookup_insert_eq in Hz. injection Hz as <-. right. simpl.
      by apply pr_core_inv in Cx as (_ & _ & -> & _).
    + rewrite lookup_insert_ne in Hz by done. left. by exists z.
Qed.

(** ** The visibility of menu entries *)

(** An entry ([inl]) and the entries of a list ([inr]), as the code decides: by
    the prompt, or else by the entries below if the value of the symbol is not
    [n]. *)
Inductive vis (k : kstate) : mid + option mid → bool → Prop :=
  | vis_no_prompt m x : ks_menus k !! m = Some x → mn_prompt x = None → vis k (inl m) false
  | vis_prompt m x p q v :
      ks_menus k !! m = Some x → mn_prompt x = Some p → ks_props k !! p = Some q →
      ref_null k (pr_visible q) = Some v → v ≠ No → vis k (inl m) true
  | vis_comment m x p q :
      ks_menus k !! m = Some x → mn_prompt x = Some p → ks_props k !! p = Some q →
      ref_null k (pr_visible q) = Some No → mn_sym x = None → vis k (inl m) false
  | vis_off m x p q s :
      ks_menus k !! m = Some x → mn_prompt x = Some p → ks_props k !! p = Some q →
      ref_null k (pr_visible q) = Some No → mn_sym x = Some s → ref_tri k s = Some No → vis k (inl m) false
  | vis_kids m x p q s t b :
      ks_menus k !! m = Some x → mn_prompt x = Some p → ks_props k !! p = Some q →
      ref_null k (pr_visible q) = Some No → mn_sym x = Some s → ref_tri k s = Some t → t ≠ No →
      vis k (inr (mn_list x)) b → vis k (inl m) b
  | vis_none : vis k (inr None) false
  | vis_first c : vis k (inl c) true → vis k (inr (Some c)) true
  | vis_next c x b :
      vis k (inl c) false → ks_menus k !! c = Some x → vis k (inr (mn_next x)) b → vis k (inr (Some c)) b.
Abbreviation menu_vis k m b := (vis k (inl m) b).

Lemma vis_unique k i b b' : vis k i b → vis k i b' → b = b'.
Proof.
  intros V. revert b'. induction V; intros b' V'; inversion V'; subst; simplify_eq; eauto;
    match goal with IH : ∀ b', vis k ?i b' → ?c = b', H : vis k ?i ?d |- _ => specialize (IH d H); congruence end.
Qed.

Definition same_links (k k' : kstate) : Prop := mn_core <$> ks_menus k' = mn_core <$> ks_menus k.

Lemma links_menu k k' m x : same_links k k' → ks_menus k !! m = Some x →
  ∃ x', ks_menus k' !! m = Some x' ∧ mn_sym x' = mn_sym x ∧ mn_prompt x' = mn_prompt x ∧
    mn_list x' = mn_list x ∧ mn_next x' = mn_next x ∧ mn_parent x' = mn_parent x.
Proof.
  intros A H. assert (L : mn_core <$> ks_menus k' !! m = mn_core <$> ks_menus k !! m) by (by rewrite <-!lookup_fmap, A).
  rewrite H in L. destruct (ks_menus k' !! m) as [x'|]; [|done]. exists x'. split; [done|].
  split_and!; [by injection (f_equal (option_map mn_sym) L)|by injection (f_equal (option_map mn_prompt) L)|
    by injection (f_equal (option_map mn_list) L)|by injection (f_equal (option_map mn_next) L)|
    by injection (f_equal (option_map mn_parent) L)].
Qed.
Lemma links_fuel k k' : same_links k k' → menu_fuel k' = menu_fuel k.
Proof. intros A. unfold menu_fuel. f_equal. rewrite <-(map_size_fmap mn_core (ks_menus k')), A. by rewrite map_size_fmap. Qed.
Lemma links_chain k k' p o l : same_links k k' → chain k p o l → chain k' p o l.
Proof.
  intros A. induction 1 as [p|p m x lc ln H Hp _ IHc _ IHn]; [constructor|].
  destruct (links_menu k k' m x A H) as (x' & H' & _ & _ & El & En & Ep).
  apply chain_cons with x'; [done|congruence|by rewrite El|by rewrite En].
Qed.
Lemma calced_links k k' : calced k k' → same_links k k'.
Proof. intros D. exact (f_equal ks_menus (cd_core _ _ D)). Qed.

Section Stable.
Context (k k' : kstate) (Li : same_links k k') (Ag : agree (λ _, True) k k').

Lemma vis_stable i b : vis k i b → vis k' i b.
Proof using Li Ag.
  assert (Nl : ∀ q q' v, pr_core q' = pr_core q → ref_null k (pr_visible q) = Some v → ref_null k' (pr_visible q') = Some v).
  { intros q q' v (_ & _ & -> & _)%pr_core_inv. by apply (ref_null_stable _ _ _ Ag). }
  assert (Tr : ∀ s t, ref_tri k s = Some t → ref_tri k' s = Some t).
  { intros s t. by apply (ref_expr_stable _ _ _ Ag (Esymbol s)). }
  induction 1 as [m x H Hp|m x p q v H Hp Hq E N|m x p q H Hp Hq E Hs|m x p q s H Hp Hq E Hs Et|
    m x p q s t b H Hp Hq E Hs Et N _ IH| |c _ IH|c x b _ IH1 H _ IH2].
  6: constructor. 6: by constructor.
  all: destruct (links_menu k k' _ x Li H) as (x' & H' & Es & Ep & El & En & _).
  all: try (destruct (agree_prop _ _ _ p q Ag Hq) as (q' & Hq' & Cq)).
  - eapply vis_no_prompt; [done|congruence].
  - eapply vis_prompt; [done|by rewrite Ep|done|by eapply Nl|done].
  - eapply vis_comment; [done|by rewrite Ep|done|by eapply Nl|congruence].
  - eapply vis_off; [done|by rewrite Ep|done|by eapply Nl|by rewrite Es|auto].
  - eapply vis_kids; [done|by rewrite Ep|done|by eapply Nl|by rewrite Es|by apply Tr|done|by rewrite El].
  - eapply vis_next; [done..|by rewrite En].
Qed.
End Stable.

Lemma vis_calced k k' i b : calced k k' → vis k i b → vis k' i b.
Proof. intros D. apply vis_stable; [by apply calced_links|by apply calced_agree]. Qed.

(** What an entry needs so that its visibility can be calculated. *)
Definition askable (k : kstate) (m : mid) : Prop :=
  ∃ x, ks_menus k !! m = Some x ∧ ∀ p, mn_prompt x = Some p → ∃ q, ks_props k !! p = Some q ∧
    match mn_sym x with
    | Some s => ∃ y, ks_syms k !! s = Some y ∧ sy_type y ≠ S_UNKNOWN ∧ sy_type y ≠ S_OTHER ∧ p ∈ sy_prop y ∧ is_Some (pr_text q)
    | None => ∀ u, u ∈ oexpr_syms (pr_visible q) → is_Some (ks_syms k !! u)
    end.

Lemma runs_prompt_visible m x p q k :
  askable k m → ks_menus k !! m = Some x → mn_prompt x = Some p → ks_props k !! p = Some q → prompted k →
  runs (match mn_sym x with
        | Some s => do! sym_calc_value s in let! x := get_prop p in mreturn (pr_visible_tri x)
        | None => calc_prop_visible sym_calc_value p
        end) k (λ v k', ref_null k' (pr_visible q) = Some v ∧ ∀ s, mn_sym x = Some s → valid_in k' s).
Proof.
  intros (x0 & H0 & A) H Hp Hq Pr. assert (x0 = x) as -> by congruence. destruct (A p Hp) as (q0 & Hq0 & E).
  assert (q0 = q) as -> by congruence. destruct (mn_sym x) as [s|].
  - destruct E as (y & Hy & T1 & T2 & Hin & Tx). eapply runs_bind; [apply runs_calc; eauto|].
    intros [] k1 D1 V1. destruct (core_prop k k1 p q (cd_core _ _ D1) Hq) as (q1 & Hq1 & Cq).
    eapply runs_pure; [unfold get_prop; by rewrite Hq1|]. apply runs_ret. split; [|by intros ? [= <-]].
    pose proof (calced_prompted _ _ D1 Pr s V1) as Sh.
    destruct (core_sym k k1 s y (cd_core _ _ D1) Hy) as (y1 & Hy1 & (_ & Et & _ & Ep & _)%sy_core_inv).
    apply pr_core_inv in Cq as (_ & Etx & Ev & _). rewrite <-Ev. apply (Sh y1 Hy1) with p; congruence.
  - eapply runs_mono; [by apply runs_prop_visible|]. intros v k' _ Ev. by split.
Qed.

Lemma askable_core k k' m : ks_core k' = ks_core k → askable k m → askable k' m.
Proof.
  intros C (x & H & A). destruct (links_menu k k' m x (f_equal ks_menus C) H) as (x' & H' & Es & Ep & _).
  exists x'. split; [done|]. intros p. rewrite Ep. intros Hp. destruct (A p Hp) as (q & Hq & E).
  destruct (core_prop k k' p q C Hq) as (q' & Hq' & (_ & Et & Ev & _)%pr_core_inv). exists q'. split; [done|].
  rewrite Es, Et, Ev. destruct (mn_sym x) as [s|].
  - destruct E as (y & Hy & E). destruct (core_sym k k' s y C Hy) as (y' & Hy' & (_ & Ety & _ & Epr & _)%sy_core_inv).
    exists y'. by rewrite Ety, Epr.
  - intros u Hu. by apply (core_exists k), E.
Qed.

(** One entry, when the entries below it can be looked at. *)
Lemma runs_visible_one d m x k :
  ks_menus k !! m = Some x → askable k m → prompted k →
  (∀ k1, calced k k1 → prompted k1 →
     runs (any_child (menu_fuel k1) (menu_is_visible_f d) (mn_list x)) k1 (λ b k', vis k' (inr (mn_list x)) b)) →
  runs (menu_is_visible_f (S d) m) k (λ b k', vis k' (inl m) b ∧ (b = true → ∀ s, mn_sym x = Some s → valid_in k' s)).
Proof.
  intros H As Pr Hk. cbn [menu_is_visible_f]. eapply runs_pure; [unfold get_menu; by rewrite H|].
  destruct (mn_prompt x) as [p|] eqn:Hp; [|apply runs_ret; split; [by eapply vis_no_prompt|done]].
  pose proof As as (x0 & H0 & A). assert (x0 = x) as -> by congruence. destruct (A p Hp) as (q & Hq & _).
  eapply runs_bind; [by apply (runs_prompt_visible m x p q)|]. intros v k1 D1 [Ev Vs].
  destruct (links_menu k k1 m x (calced_links _ _ D1) H) as (x1 & H1 & Es1 & Ep1 & El1 & _).
  destruct (core_prop k k1 p q (cd_core _ _ D1) Hq) as (q1 & Hq1 & (_ & _ & Ev1 & _)%pr_core_inv).
  rewrite <-Ev1 in Ev. case_decide as Hv; [apply runs_ret; split; [|by intros _]; eapply vis_prompt; [done|by rewrite Ep1|done..]|].
  subst v. destruct (mn_sym x) as [s|] eqn:Hs.
  2: { apply runs_ret. split; [|done]. eapply vis_comment; [done|by rewrite Ep1|done..]. }
  destruct (Vs s eq_refl) as (y & Hy & Vy).
  eapply runs_pure; [unfold sym_get_tristate_value, mthen; by rewrite (run_get_sym _ _ _ Hy)|].
  assert (Et : ref_tri k1 s = Some (sv_tri (sy_curr y))) by (unfold ref_tri; by rewrite (ref_sym_Some _ _ _ Hy Vy)).
  case_decide as Ht; [apply runs_ret; split; [|done]; eapply vis_off; [done|by rewrite Ep1|done..|congruence]|].
  eapply runs_pure; [unfold get_menu; by rewrite H1|]. rewrite El1. eapply runs_pure; [done|].
  eapply runs_mono; [apply Hk; [done|by eapply calced_prompted]|].
  intros b k2 D2 V2. split; [|intros _ ? [= <-]; eapply calced_valid; [done|]; by exists y].
  destruct (links_menu k1 k2 m x1 (calced_links _ _ D2) H1) as (x2 & H2 & Es2 & Ep2 & El2 & _).
  destruct (core_prop k1 k2 p q1 (cd_core _ _ D2) Hq1) as (q2 & Hq2 & (_ & _ & Ev2 & _)%pr_core_inv).
  eapply (vis_kids _ m x2 p q2 s); [done|congruence|done| |congruence|by apply (calced_expr _ _ (Esymbol s) _ D2)|done|].
  - rewrite Ev2. by eapply calced_null.
  - by rewrite El2, El1.
Qed.

Lemma runs_kids k0 p o l :
  chain k0 p o l → (∀ m, m ∈ l → askable k0 m) → length l < menu_fuel k0 →
  ∀ k n d, calced k0 k → prompted k → length l ≤ n → length l ≤ d →
  runs (any_child n (menu_is_visible_f d) o) k (λ b k', vis k' (inr o) b).
Proof.
  induction 1 as [p|p m x lc ln H Hp Hc IHc Hn IHn]; intros As Lf k n d D Pr Hln Hd.
  { destruct n; apply runs_ret; constructor. }
  simpl in Lf, Hln, Hd. rewrite length_app in Lf, Hln, Hd. destruct n as [|n]; [lia|]. destruct d as [|d]; [lia|].
  destruct (links_menu k0 k m x (calced_links _ _ D) H) as (x' & H' & _ & _ & El & En & _). cbn [any_child].
  eapply runs_bind; [apply (runs_visible_one d m x' k H'); [|done|]|].
  - eapply askable_core; [apply D|]. apply As. by left.
  - intros k1 D1 Pr1. rewrite El. apply IHc; [|lia|by eapply calced_trans|done| |lia].
    + intros i Hi. apply As. right. apply elem_of_app. by left.
    + rewrite (links_fuel k0 k1); [lia|]. apply calced_links. by eapply calced_trans.
  - intros b k1 D1 [V1 _]. destruct b; [apply runs_ret; by constructor|].
    destruct (links_menu k k1 m x' (calced_links _ _ D1) H') as (x1 & H1 & _ & _ & _ & En1 & _).
    eapply runs_pure; [unfold get_menu; by rewrite H1|]. rewrite En1, En.
    eapply runs_mono; [apply (IHn ltac:(intros i Hi; apply As; right; apply elem_of_app; by right) ltac:(lia) k1 n (S d));
      [by eapply calced_trans|by eapply calced_prompted|lia..]|].
    intros b k2 D2 V2. destruct (links_menu k1 k2 m x1 (calced_links _ _ D2) H1) as (x2 & H2 & _ & _ & _ & En2 & _).
    eapply vis_next; [by eapply vis_calced|done|]. by rewrite En2, En1, En.
Qed.

(** [menu_is_visible] ends, and decides [menu_vis]. *)
Lemma runs_visible m x lc k :
  ks_menus k !! m = Some x → chain k m (mn_list x) lc → askable k m → (∀ i, i ∈ lc → askable k i) →
  length lc < size (ks_menus k) → prompted k →
  runs (menu_is_visible m) k (λ b k', menu_vis k' m b ∧ (b = true → ∀ s, mn_sym x = Some s → valid_in k' s)).
Proof.
  intros H Hc Am Al Lf Pr. unfold menu_is_visible, menu_fuel. apply runs_visible_one; [done..|].
  intros k1 D1 Pr1. apply (runs_kids k m _ lc); [done..|unfold menu_fuel; lia|done|done| |lia].
  rewrite (links_fuel k k1) by (by apply calced_links). unfold menu_fuel. lia.
Qed.
