(* ===== verification/KMenuSpec.v ===== *)
(** * Menus: the theorems

    What [menu.c] promises about the menu tree, with decision procedures for
    the hypotheses and an example made by the functions themselves. *)
From S2P Require Import Prelude CLib KData KExpr KExprFacts KExprSimp KExprDups KExprPass KExprSyms.
From S2P Require Import KState KSymbol KSymFrame KSymRef KSymTab KSymCheck KMenu KMenuInv KMenuTree.
Open Scope pr30_scope.

(** ** Deciding the hypotheses *)

Fixpoint over_check (f : sid → bool) (e : expr) : bool :=
  match e with
  | Eor l r | Eand l r => over_check f l && over_check f r
  | Enot l => over_check f l
  | Eequal l r | Eunequal l r | Erange l r => f l && f r
  | Esymbol s => f s
  | Echoice l s => match l with Some l => over_check f l | None => true end && f s
  end.
Definition good_check (k : kstate) (e : option expr) : bool :=
  from_option wf_expr true e && from_option (over_check (exists_sym k)) true e.

Lemma over_check_ok k e : over_check (exists_sym k) e = true → over (sym_some k) e.
Proof.
  assert (F : ∀ s, exists_sym k s = true → sym_some k s) by (intros s H; by apply bool_decide_eq_true in H).
  revert e. fix IH 1. intros [l r|l r|l|l r|l r|[l|] s|s|l r]; simpl; rewrite ?andb_true_iff; intuition auto.
Qed.
Lemma over_null_check_ok k e : from_option (over_check (exists_sym k)) true e = true → over_null (sym_some k) e.
Proof. destruct e; [|done]. apply over_check_ok. Qed.
Lemma good_check_ok k e : good_check k e = true → good k e.
Proof. unfold good_check. rewrite andb_true_iff. intros [W O]. split; [done|]. by apply over_null_check_ok. Qed.

Definition prop_ok_check (k : kstate) (x : property) : bool :=
  good_check k (pr_visible x) && from_option (over_check (exists_sym k)) true (pr_expr x) &&
  match pr_menu x with Some m => bool_decide (is_Some (ks_menus k !! m)) | None => true end &&
  match pr_type x with
  | P_DEFAULT => match pr_expr x with Some e => wf_expr e | None => false end
  | P_SELECT | P_DESELECT => match pr_expr x with Some (Esymbol t) => exists_sym k t | _ => false end
  | P_RANGE =>
      match pr_expr x with
      | Some (Erange l r) =>
          forallb (λ t, match ks_syms k !! t with
                        | Some y => match sy_name y with Some _ => true | None => false end
                        | None => false
                        end) [l; r]
      | _ => false
      end
  | _ => true
  end.

Lemma prop_ok_check_ok k x : prop_ok_check k x = true → prop_ok k x.
Proof.
  unfold prop_ok_check. rewrite !andb_true_iff. intros (((W & O) & Hm) & H).
  split_and!; [by apply good_check_ok|by apply over_null_check_ok| |].
  { intros m E. rewrite E in Hm. by apply bool_decide_eq_true in Hm. }
  clear W O Hm. destruct (pr_type x); try done; destruct (pr_expr x) as [e|]; try done.
  - by exists e.
  - destruct e; try done. eexists. split; [done|]. by apply bool_decide_eq_true in H.
  - destruct e; try done. eexists. split; [done|]. by apply bool_decide_eq_true in H.
  - destruct e as [| | | | | | |l r]; try done. exists l, r. split; [done|]. intros t Ht.
    apply (forallb_elem _ _ t) in H; [|destruct Ht as [-> | ->]; [left|right; left]].
    cbv beta in H. destruct (ks_syms k !! t) as [y|]; [|done]. exists y. split; [done|].
    destruct (sy_name y); [by eexists|done].
Qed.

Definition sym_menu_check (k : kstate) (s : sid) (y : symbol) : bool :=
  (negb (is_const y) || bool_decide (sy_type y = S_UNKNOWN)) &&
  (good_check k (sy_rev_dep y) && good_check k (sy_rev_dep_inv y) &&
   Z.eqb (Z.land (sy_flags y) state_bits) (if decide (s ≤ symbol_empty) then SYMBOL_VALID else SYMBOL_NEW) &&
   (negb (s <=? symbol_empty) ||
    match sy_name y with Some c => bool_decide (sy_curr y = SValue (VStr c) (const_tri s)) | None => false end) &&
   (negb (s =? symbol_empty) || negb (is_const y) && bool_decide (sy_type y = S_UNKNOWN))) &&
  forallb (λ p, bool_decide (is_Some (ks_props k !! p))) (sy_prop y) &&
  (negb (is_choice y) ||
   match choice_prop k (sy_prop y) with
   | Some p => match ks_props k !! p with
               | Some x => bool_decide (is_Some (choice_values (pr_expr x)))
               | None => false
               end
   | None => false
   end).

Lemma sym_menu_check_ok k s y : sym_menu_check k s y = true →
  (is_const y = true → sy_type y = S_UNKNOWN) ∧
  (good k (sy_rev_dep y) ∧ good k (sy_rev_dep_inv y) ∧ born s y ∧
   (s = symbol_empty → is_const y = false ∧ sy_type y = S_UNKNOWN)) ∧
  (∀ p, p ∈ sy_prop y → is_Some (ks_props k !! p)) ∧
  (is_choice y = true → ∃ p x, choice_prop k (sy_prop y) = Some p ∧ ks_props k !! p = Some x ∧
     is_Some (choice_values (pr_expr x))).
Proof.
  unfold sym_menu_check. rewrite !andb_true_iff. intros (((A & (((R1 & R2) & R3) & R7) & R4) & B) & C). split_and!.
  - intros Hc. rewrite Hc in A. by apply bool_decide_eq_true in A.
  - by apply good_check_ok.
  - by apply good_check_ok.
  - split; [by apply Z.eqb_eq in R3|]. intros L%Nat.leb_le. rewrite L in R7. simpl in R7.
    destruct (sy_name y) as [c|]; [|done]. exists c. by apply bool_decide_eq_true in R7.
  - intros ->. apply andb_true_iff in R4 as [R5%negb_true_iff R6%bool_decide_eq_true]. done.
  - intros p Hp. apply (forallb_elem _ _ _ B) in Hp. by apply bool_decide_eq_true in Hp.
  - intros Hc. rewrite Hc in C. simpl in C.
    destruct (choice_prop k (sy_prop y)) as [p|]; [|done]. destruct (ks_props k !! p) as [x|] eqn:Hx; [|done].
    exists p, x. by apply bool_decide_eq_true in C.
Qed.

Definition menu_check (k : kstate) (m : menu) : bool :=
  match mn_sym m with
  | Some s => match ks_syms k !! s with Some y => negb (is_const y) && negb (s =? symbol_empty) | None => false end
  | None => true
  end &&
  match mn_prompt m with
  | Some p =>
      match ks_props k !! p with
      | Some q => negb (bool_decide (pr_type q = P_SELECT)) && negb (bool_decide (pr_type q = P_DESELECT))
      | None => false
      end
  | None => true
  end && good_check k (mn_dep m).

Definition minv_check (k : kstate) : bool :=
  forallb (λ s, match ks_syms k !! s with Some y => is_const y | None => false end)
    [symbol_yes; symbol_mod; symbol_no] &&
  (all_syms k (sym_menu_check k) && all_syms k (λ _ y, negb (is_choice_value y))) &&
  forallb (λ px : pid * property, prop_ok_check k px.2 && (px.1 <? ks_new_prop k)) (map_to_list (ks_props k)) &&
  forallb (λ mx : mid * menu, menu_check k mx.2) (map_to_list (ks_menus k)).

Lemma menu_check_ok k m : menu_check k m = true →
  (∀ s, mn_sym m = Some s → ∃ y, ks_syms k !! s = Some y ∧ is_const y = false ∧ s ≠ symbol_empty) ∧
  (∀ p, mn_prompt m = Some p → ∃ q, ks_props k !! p = Some q ∧ pr_type q ≠ P_SELECT ∧ pr_type q ≠ P_DESELECT) ∧
  good k (mn_dep m).
Proof.
  unfold menu_check. rewrite !andb_true_iff. intros ((A & B) & C). split_and!; [| |by apply good_check_ok].
  - intros s Hs. rewrite Hs in A. destruct (ks_syms k !! s) as [y|]; [|done]. exists y.
    apply andb_true_iff in A as [A1%negb_true_iff A2%negb_true_iff]. by apply Nat.eqb_neq in A2.
  - intros p Hp. rewrite Hp in B. destruct (ks_props k !! p) as [q|]; [|done]. exists q.
    by rewrite andb_true_iff, !negb_true_iff, !bool_decide_eq_false in B.
Qed.

Lemma minv_check_ok k : minv_check k = true → minv k.
Proof.
  unfold minv_check. rewrite !andb_true_iff. intros (((A & B & V) & C) & D).
  assert (B' := λ s y H, sym_menu_check_ok k s y (all_syms_ok k _ s y B H)).
  assert (C' : ∀ p x, ks_props k !! p = Some x → prop_ok k x ∧ p < ks_new_prop k).
  { intros p x H. apply elem_of_map_to_list in H. apply (forallb_elem _ _ _ C), andb_true_iff in H as [H1 H2].
    split; [by apply prop_ok_check_ok|by apply Nat.ltb_lt in H2]. }
  assert (D' : ∀ m x, ks_menus k !! m = Some x → menu_check k x = true).
  { intros m x H. apply elem_of_map_to_list in H. by apply (forallb_elem _ _ _ D) in H. }
  split.
  - intros s Hs. apply (forallb_elem _ _ s) in A; [|by destruct Hs as [->|[-> | ->]]; repeat constructor].
    cbv beta in A. destruct (ks_syms k !! s) as [y|]; [|done]. eauto.
  - intros s y H. apply (B' s y H).
  - intros s y p H. apply (B' s y H).
  - intros s y H. apply (B' s y H).
  - intros s y H Vy. apply (all_syms_ok k _ s y V) in H. by rewrite Vy in H.
  - intros p x H. by apply (C' p x).
  - intros m x s H. apply (menu_check_ok k x (D' m x H)).
  - intros m x p H. apply (menu_check_ok k x (D' m x H)).
  - intros m x H. apply (menu_check_ok k x (D' m x H)).
  - intros s y H. split; apply (B' s y H).
  - intros s y H. apply (B' s y H).
  - intros y H. by apply (B' symbol_empty y H).
  - intros p [x H]. by apply (C' p x).
Qed.

(** ** An example *)

Definition make_entry (name : string) (t : symbol_type) (dep : option expr) : K sid :=
  let! s := sym_lookup (Some name) false in
  do! menu_add_entry (Some s) in
  do! menu_set_type t in
  do! menu_add_prompt P_PROMPT (Some name) None in
  do! menu_add_dep dep in
  mreturn s.

(** [FOO]; [BAR], which depends on [FOO] and selects [QUX]; [BAZ] inside
    [if FOO]; [QUX]; a choice between [ONE] and [TWO]. *)
Definition menu_config : K () :=
  do! menu_init in
  do! menu_add_prompt P_MENU (Some "OpenWrt Configuration"%string) None in
  let! foo := make_entry "FOO" S_TRISTATE None in
  let! bar := make_entry "BAR" S_BOOLEAN (Some (Esymbol foo)) in
  let! qux := sym_lookup (Some "QUX"%string) false in
  do! menu_add_symbol P_SELECT qux None in
  do! menu_add_entry None in
  do! menu_add_dep (Some (Esymbol foo)) in
  do! menu_add_menu in
  let! baz := make_entry "BAZ" S_TRISTATE None in
  do! menu_end_menu in
  let! qux := make_entry "QUX" S_BOOLEAN None in
  let! ch := sym_lookup None false in
  do! or_flags ch SYMBOL_CHOICE in
  do! menu_add_entry (Some ch) in
  do! menu_add_expr P_CHOICE None None in
  do! menu_add_prompt P_PROMPT (Some "Which"%string) None in
  do! menu_add_menu in
  let! one := make_entry "ONE" S_BOOLEAN None in
  let! two := make_entry "TWO" S_BOOLEAN None in
  menu_end_menu.
Definition menu_example : kstate := final menu_config init_state.

Definition menu_list_of (k : kstate) (m : mid) : option mid := from_option mn_list None (ks_menus k !! m).
Definition menu_next_of (k : kstate) (m : mid) : option mid := from_option mn_next None (ks_menus k !! m).

(** ** The tree *)

(** C7: on a parsed configuration [menu_finalize] of the root menu ends
    without a crash and keeps the configuration well-formed.  The entries in
    the order in which they are reached, parents first, are the same as
    before: none is lost, duplicated or moved in front of another.  Every
    entry has the right parent, and no entry changes its symbol or prompt. *)
Theorem menu_finalize_correct k x l :
  minv k → ks_menus k !! rootmenu = Some x → mn_next x = None →
  chain k rootmenu (mn_list x) l → NoDup (rootmenu :: l) →
  ∃ k' x', menu_finalize rootmenu k = Done ((), k') ∧ minv k' ∧
    ks_menus k' !! rootmenu = Some x' ∧ mn_next x' = None ∧ chain k' rootmenu (mn_list x') l ∧
    ∀ m y, ks_menus k !! m = Some y →
      ∃ y', ks_menus k' !! m = Some y' ∧ mn_sym y' = mn_sym y ∧ mn_prompt y' = mn_prompt y.
Proof.
  intros I H Hn Hc Nd. destruct (finalize_root k x l I H Hn Hc Nd) as (k' & x' & E & Ke & H' & Hn' & Hc').
  exists k', x'. split_and!; [done|apply Ke|done..|]. intros m y Hm. by apply (pers_entry _ _ _ _ (ke_pers _ _ _ Ke)).
Qed.

Lemma menu_finalize_correct_witness :
  ∃ x, ks_menus menu_example !! rootmenu = Some x ∧
  ∃ k' x', menu_finalize rootmenu menu_example = Done ((), k') ∧ minv k' ∧
    ks_menus k' !! rootmenu = Some x' ∧ mn_next x' = None ∧ chain k' rootmenu (mn_list x') (seq 1 8) ∧
    ∀ m y, ks_menus menu_example !! m = Some y →
      ∃ y', ks_menus k' !! m = Some y' ∧ mn_sym y' = mn_sym y ∧ mn_prompt y' = mn_prompt y.
Proof.
  destruct (ks_menus menu_example !! rootmenu) as [x|] eqn:H; [|exfalso; by vm_compute in H].
  exists x. split; [done|]. apply (menu_finalize_correct menu_example x (seq 1 8)).
  - apply minv_check_ok. by vm_compute.
  - done.
  - vm_compute in H. by injection H as <-.
  - assert (E : mn_list x = menu_list_of menu_example rootmenu) by (unfold menu_list_of; by rewrite H).
    rewrite E. apply (preorder_chain 20). by vm_compute.
  - apply (NoDup_ListNoDup (seq 0 9)), seq_NoDup.
Defined.
