(* ===== verification/KToken.v ===== *)
(** * The tokens of [scripts/config/zconf.y] and the keywords of [zconf.gperf] *)
From S2P Require Import Prelude CLib KData.
Open Scope pr30_scope.

Inductive token : Set :=
  | T_MAINMENU | T_MENU | T_ENDMENU | T_SOURCE | T_CHOICE | T_ENDCHOICE | T_COMMENT | T_CONFIG | T_MENUCONFIG
  | T_HELP | T_HELPTEXT | T_IF | T_ENDIF | T_DEPENDS | T_REQUIRES | T_OPTIONAL | T_PROMPT | T_TYPE | T_DEFAULT
  | T_DESELECT | T_SELECT | T_RANGE | T_ON | T_RESET | T_WORD | T_WORD_QUOTE | T_UNEQUAL | T_CLOSE_PAREN
  | T_OPEN_PAREN | T_EOL | T_OR | T_AND | T_EQUAL | T_NOT.
#[export] Instance token_eq_dec : EqDecision token.
Proof. solve_decision. Defined.

(** [struct kconf_id], with [TF_COMMAND] and [TF_PARAM] of [flags] apart. *)
Record kconf_id : Set := KconfId {
  kid_name : string;
  kid_token : token;
  kid_command : bool;
  kid_param : bool;
  kid_stype : symbol_type;
}.
#[export] Instance kconf_id_eq_dec : EqDecision kconf_id.
Proof. solve_decision. Defined.

Definition command_id (name : string) (t : token) : kconf_id := KconfId name t true false S_UNKNOWN.
Definition typed_id (name : string) (t : token) (stype : symbol_type) : kconf_id := KconfId name t true false stype.

Definition kconf_ids : list kconf_id := [
  command_id "mainmenu" T_MAINMENU;
  command_id "menu" T_MENU;
  command_id "endmenu" T_ENDMENU;
  command_id "source" T_SOURCE;
  command_id "choice" T_CHOICE;
  command_id "endchoice" T_ENDCHOICE;
  command_id "comment" T_COMMENT;
  command_id "config" T_CONFIG;
  command_id "menuconfig" T_MENUCONFIG;
  command_id "help" T_HELP;
  KconfId "if" T_IF true true S_UNKNOWN;
  command_id "endif" T_ENDIF;
  command_id "depends" T_DEPENDS;
  command_id "requires" T_REQUIRES;
  command_id "optional" T_OPTIONAL;
  command_id "reset" T_RESET;
  typed_id "default" T_DEFAULT S_UNKNOWN;
  command_id "prompt" T_PROMPT;
  typed_id "tristate" T_TYPE S_TRISTATE;
  typed_id "def_tristate" T_DEFAULT S_TRISTATE;
  typed_id "bool" T_TYPE S_BOOLEAN;
  typed_id "boolean" T_TYPE S_BOOLEAN;
  typed_id "def_bool" T_DEFAULT S_BOOLEAN;
  typed_id "def_boolean" T_DEFAULT S_BOOLEAN;
  typed_id "int" T_TYPE S_INT;
  typed_id "hex" T_TYPE S_HEX;
  typed_id "string" T_TYPE S_STRING;
  command_id "deselect" T_DESELECT;
  command_id "select" T_SELECT;
  command_id "enable" T_SELECT;
  command_id "range" T_RANGE;
  KconfId "on" T_ON false true S_UNKNOWN
].

(** The keyword with exactly this text. *)
Definition kconf_id_lookup (text : string) : option kconf_id :=
  find (λ id, bool_decide (kid_name id = text)) kconf_ids.
