(* ===== verification/KParse.v ===== *)
(** * Reading a configuration description: the actions of [scripts/config/zconf.y]

    A derivation of the grammar is a tree with one constructor per production;
    the actions run over it in the order in which the parser reduces, that is
    left to right and bottom up.  (The trees allow some nestings that the
    grammar does not, such as a menu directly in a choice.)  A tree stands for a text in which the parser
    meets no [error] token: the productions with one, and a block that is still
    open at the end of the text, are left to bison's recovery, which is not
    modelled.  The statements of a file
    named by [source] follow the statement itself, as the scanner delivers
    them. *)
From S2P Require Import Prelude CLib KData KExpr KState KSymbol KSymCheck KMenu KToken.
Open Scope pr30_scope.

(** ** Derivations *)

(** [T_WORD] or [T_WORD_QUOTE] where the grammar has [symbol]. *)
Record word : Set := Word { w_quoted : bool; w_text : string }.

Inductive pexpr : Set :=
  | PSymbol (w : word)
  | PEqual (a b : word)
  | PUnequal (a b : word)
  | PParen (e : pexpr)
  | PNot (e : pexpr)
  | POr (a b : pexpr)
  | PAnd (a b : pexpr).

(** [if_expr]: empty or [T_IF expr]. *)
Definition pif : Set := option pexpr.
(** [prompt_stmt_opt]: empty or [prompt if_expr]. *)
Definition pprompt : Set := option (string * pif).

(** A member of [config_option_list].  The argument [stype] is that of the
    keyword ([bool], [tristate], ...; [default], [def_bool], ...). *)
Inductive config_option : Set :=
  | CType (stype : symbol_type) (p : pprompt)
  | CPrompt (prompt : string) (c : pif)
  | CDefault (stype : symbol_type) (e : pexpr) (c : pif)
  | CDeselect (name : string) (c : pif)
  | CSelect (name : string) (c : pif)
  | CRange (a b : word) (c : pif)
  | CDepends (e : pexpr)
  | CHelp (text : string)
  | CEol.

(** A member of [choice_option_list]. *)
Inductive choice_option : Set :=
  | ChPrompt (prompt : string) (c : pif)
  | ChType (stype : symbol_type) (p : pprompt)
  | ChOptional
  | ChReset (c : pif)
  | ChDefault (stype : symbol_type) (name : string) (c : pif)
  | ChDepends (e : pexpr)
  | ChHelp (text : string)
  | ChEol.

(** A member of [depends_list]: [Some] expression, or an empty line. *)
Definition depend : Set := option pexpr.

(** [end], and whether it is in the file in which the block starts. *)
Record pend : Set := PEnd { pe_token : token; pe_same_file : bool }.

(** [common_stmt], [choice_stmt] and [menu_stmt]. *)
Inductive stmt : Set :=
  | SEol
  | SIf (e : pexpr) (block : list stmt) (fin : pend)
  | SComment (prompt : string) (deps : list depend)
  | SConfig (menuconfig : bool) (name : string) (opts : list config_option)
  | SSource (prompt : string)
  | SChoice (opts : list choice_option) (block : list stmt) (fin : pend)
  | SMenu (prompt : string) (deps : list depend) (block : list stmt) (fin : pend).

(** A member of the outermost [stmt_list]. *)
Inductive top : Set :=
  | TStmt (s : stmt)
  | TMainmenu (prompt : string)
  | TEnd (t : token).

(** ** The state of the parser *)

(** The store, [zconfnerrs], [help] of the symbols, the messages of
    [zconf_error] and [zconfprint] (without their place). *)
Record parser : Set := Parser {
  ps_k : kstate;
  ps_nerrs : nat;
  ps_help : gmap sid string;
  ps_out : list string;
}.
Definition ps_set_k (k : kstate) (p : parser) : parser := Parser k (ps_nerrs p) (ps_help p) (ps_out p).
Abbreviation P := (M parser).

Definition lift {A} (m : K A) : P A := λ p,
  match m (ps_k p) with
  | Done (a, k) => Done (a, ps_set_k k p)
  | Crash => Crash
  | NoFuel => NoFuel
  end.

(** ** Errors *)

Definition zconfprint (text : string) : P () :=
  mmodify (λ p, Parser (ps_k p) (ps_nerrs p) (ps_help p) (ps_out p ++ [text])).
Definition zconfnerrs_incr : P () :=
  mmodify (λ p, Parser (ps_k p) (S (ps_nerrs p)) (ps_help p) (ps_out p)).
Definition zconf_error (text : string) : P () := do! zconfnerrs_incr in zconfprint text.
(** [YYERROR]: the parser goes into error recovery and reports an error; that
    it skips to the end of the next line as well makes no difference to the
    exit of [conf_parse]. *)
Definition yyerror : P () := zconf_error "invalid option".

Definition zconf_tokenname (t : token) : string :=
  match t with
  | T_MENU => "menu"
  | T_ENDMENU => "endmenu"
  | T_CHOICE => "choice"
  | T_ENDCHOICE => "endchoice"
  | T_IF => "if"
  | T_ENDIF => "endif"
  | T_DEPENDS => "depends"
  | _ => "<token>"
  end.

Definition zconf_endtoken (id : pend) (starttoken endtoken : token) : P bool :=
  if decide (pe_token id ≠ endtoken) then
    do! zconf_error ("unexpected '" +:+ zconf_tokenname (pe_token id) +:+ "' within " +:+
                     zconf_tokenname starttoken +:+ " block") in
    do! zconfnerrs_incr in
    mreturn false
  else if negb (pe_same_file id) then
    do! zconf_error ("'" +:+ zconf_tokenname (pe_token id) +:+ "' in different file than '" +:+
                     zconf_tokenname starttoken +:+ "'") in
    do! zconfprint ("location of the '" +:+ zconf_tokenname starttoken +:+ "'") in
    do! zconfnerrs_incr in
    mreturn false
  else mreturn true.

(** ** Expressions *)

Definition run_symbol (w : word) : K sid := sym_lookup (Some (w_text w)) (w_quoted w).

Fixpoint run_expr (e : pexpr) : K expr :=
  match e with
  | PSymbol w => let! s := run_symbol w in mreturn (expr_alloc_symbol s)
  | PEqual a b =>
      let! l := run_symbol a in let! r := run_symbol b in mreturn (expr_alloc_comp C_EQUAL l r)
  | PUnequal a b =>
      let! l := run_symbol a in let! r := run_symbol b in mreturn (expr_alloc_comp C_UNEQUAL l r)
  | PParen e => run_expr e
  | PNot e => let! x := run_expr e in mreturn (expr_alloc_one x)
  | POr a b => let! x := run_expr a in let! y := run_expr b in mreturn (expr_alloc_two B_OR x y)
  | PAnd a b => let! x := run_expr a in let! y := run_expr b in mreturn (expr_alloc_two B_AND x y)
  end.

Definition run_if_expr (c : pif) : K (option expr) :=
  match c with
  | None => mreturn None
  | Some e => let! x := run_expr e in mreturn (Some x)
  end.

Definition run_prompt_opt (p : pprompt) : K () :=
  match p with
  | None => mreturn ()
  | Some (text, c) =>
      let! dep := run_if_expr c in
      do! menu_add_prompt P_PROMPT (Some text) dep in mreturn ()
  end.

Definition run_depends (e : pexpr) : K () :=
  let! x := run_expr e in menu_add_dep (Some x).

(** [current_entry->sym->help = $2] *)
Definition run_help (text : string) : P () :=
  let! e := mgets (ks_current_entry ∘ ps_k) in
  let! x := lift (get_menu e) in
  let! s := mderef (mn_sym x) in
  mmodify (λ p, Parser (ps_k p) (ps_nerrs p) (<[s := text]> (ps_help p)) (ps_out p)).

(** ** [config] and [menuconfig] *)

Definition config_entry_start (name : string) : K () :=
  let! sym := sym_lookup (Some name) false in
  do! or_flags sym SYMBOL_OPTIONAL in
  menu_add_entry (Some sym).

Definition run_config_option (o : config_option) : P () :=
  match o with
  | CType stype p => do! lift (run_prompt_opt p) in lift (menu_set_type stype)
  | CPrompt prompt c =>
      let! dep := lift (run_if_expr c) in
      do! lift (menu_add_prompt P_PROMPT (Some prompt) dep) in mreturn ()
  | CDefault stype e c =>
      let! x := lift (run_expr e) in
      let! dep := lift (run_if_expr c) in
      do! lift (menu_add_expr P_DEFAULT (Some x) dep) in
      if decide (stype ≠ S_UNKNOWN) then lift (menu_set_type stype) else mreturn ()
  | CDeselect name c =>
      let! dep := lift (run_if_expr c) in
      let! s := lift (sym_lookup (Some name) false) in
      lift (menu_add_symbol P_DESELECT s dep)
  | CSelect name c =>
      let! dep := lift (run_if_expr c) in
      let! s := lift (sym_lookup (Some name) false) in
      lift (menu_add_symbol P_SELECT s dep)
  | CRange a b c =>
      let! l := lift (run_symbol a) in
      let! r := lift (run_symbol b) in
      let! dep := lift (run_if_expr c) in
      lift (menu_add_expr P_RANGE (Some (expr_alloc_comp C_RANGE l r)) dep)
  | CDepends e => lift (run_depends e)
  | CHelp text => run_help text
  | CEol => mreturn ()
  end.

(** [config_stmt] after the entry is made. *)
Definition config_stmt_end : P () := lift menu_end_entry.

(** [menuconfig_stmt]: [current_entry->prompt->type = P_MENU]. *)
Definition menuconfig_stmt_end : P () :=
  let! e := mgets (ks_current_entry ∘ ps_k) in
  let! x := lift (get_menu e) in
  do! match mn_prompt x with
      | Some p => lift (upd_prop p (λ q, Property (pr_sym q) P_MENU (pr_text q) (pr_visible q)
                                          (pr_visible_tri q) (pr_expr q) (pr_menu q)))
      | None => zconfprint "warning: menuconfig statement without prompt"
      end in
  lift menu_end_entry.

(** ** [choice] *)

Definition choice_start : K () :=
  let! sym := sym_lookup None false in
  do! or_flags sym SYMBOL_CHOICE in
  do! menu_add_entry (Some sym) in
  menu_add_expr P_CHOICE None None.

Definition run_choice_option (o : choice_option) : P () :=
  match o with
  | ChPrompt prompt c =>
      let! dep := lift (run_if_expr c) in
      do! lift (menu_add_prompt P_PROMPT (Some prompt) dep) in mreturn ()
  | ChType stype p =>
      do! lift (run_prompt_opt p) in
      if decide (stype = S_BOOLEAN ∨ stype = S_TRISTATE) then lift (menu_set_type stype) else yyerror
  | ChOptional =>
      let! e := mgets (ks_current_entry ∘ ps_k) in
      let! x := lift (get_menu e) in
      let! s := mderef (mn_sym x) in
      lift (or_flags s SYMBOL_OPTIONAL)
  | ChReset c =>
      let! dep := lift (run_if_expr c) in
      do! lift (menu_add_prop P_RESET None None dep) in mreturn ()
  | ChDefault stype name c =>
      let! dep := lift (run_if_expr c) in
      if decide (stype = S_UNKNOWN) then
        let! s := lift (sym_lookup (Some name) false) in
        lift (menu_add_symbol P_DEFAULT s dep)
      else yyerror
  | ChDepends e => lift (run_depends e)
  | ChHelp text => run_help text
  | ChEol => mreturn ()
  end.

(** ** Statements *)

Definition run_depend (d : depend) : K () :=
  match d with Some e => run_depends e | None => mreturn () end.

Definition if_entry (e : pexpr) : K () :=
  let! x := run_expr e in
  do! menu_add_entry None in
  do! menu_add_dep (Some x) in
  do! menu_add_menu in mreturn ().

(** [menu] and [comment]. *)
Definition prompt_entry (type : prop_type) (prompt : string) : K () :=
  do! menu_add_entry None in
  do! menu_add_prompt type (Some prompt) None in mreturn ().

(** [if_end], [choice_end] and [menu_end]. *)
Definition block_end (fin : pend) (starttoken endtoken : token) : P () :=
  let! ok := zconf_endtoken fin starttoken endtoken in
  if ok then lift menu_end_menu else mreturn ().

Fixpoint run_stmt (s : stmt) : P () :=
  match s with
  | SEol => mreturn ()
  | SIf e block fin =>
      do! lift (if_entry e) in
      do! miter run_stmt block in
      block_end fin T_IF T_ENDIF
  | SComment prompt deps =>
      do! lift (prompt_entry P_COMMENT prompt) in
      do! lift (miter run_depend deps) in
      lift menu_end_entry
  | SConfig menuconfig name opts =>
      do! lift (config_entry_start name) in
      do! miter run_config_option opts in
      if menuconfig then menuconfig_stmt_end else config_stmt_end
  | SSource _ => mreturn ()
  | SChoice opts block fin =>
      do! lift choice_start in
      do! miter run_choice_option opts in
      do! lift menu_add_menu in
      do! miter run_stmt block in
      block_end fin T_CHOICE T_ENDCHOICE
  | SMenu prompt deps block fin =>
      do! lift (prompt_entry P_MENU prompt) in
      do! lift (miter run_depend deps) in
      do! lift menu_add_menu in
      do! miter run_stmt block in
      block_end fin T_MENU T_ENDMENU
  end.

Definition run_top (t : top) : P () :=
  match t with
  | TStmt s => run_stmt s
  | TMainmenu _ => mreturn ()
  | TEnd _ => zconf_error "unexpected end statement"
  end.

Definition zconfparse (input : list top) : P () := miter run_top input.

(** ** [conf_parse] *)

Inductive parse_result : Set := Parsed | Exited (code : nat).

Section Parse.
(** What [getenv] and [uname] tell [sym_init]. *)
Context (arch version : option string) (release : string).

(** The calls before [zconfparse]. *)
Definition parse_init : K () :=
  do! sym_init false arch version release in
  do! menu_init in
  let! m := sym_lookup (Some "MODULES"%string) false in
  do! mmodify (ks_set_modules_sym (Some m)) in
  let! p := menu_add_prompt P_MENU (Some "OpenWrt Configuration"%string) None in
  upd_menu rootmenu (mn_set_prompt (Some p)).

(** The calls after it. *)
Definition parse_finish : K () :=
  do! menu_finalize rootmenu in
  do! check_all_deps in
  mmodify (ks_set_change_count 1).

Definition conf_parse (input : list top) : P parse_result :=
  do! lift parse_init in
  do! zconfparse input in
  let! nerrs := mgets ps_nerrs in
  if decide (nerrs ≠ 0) then mreturn (Exited 1)
  else do! lift parse_finish in mreturn Parsed.
End Parse.

(** The parser before it has read anything. *)
Definition parser_start : parser := Parser init_state 0 ∅ [].
