(* ===== verification/KParseInv.v ===== *)
(** * The store while a configuration description is read

    The invariant [binv] of the store between the actions of the parser, and
    for each function the actions call: it does not crash, keeps the
    invariant, and what it adds. *)
From S2P Require Import Prelude CLib KData KExpr KExprFacts KExprSyms.
From S2P Require Import KState KSymbol KSymFrame KSymRef KSymTab KMenu KMenuInv.
Open Scope pr30_scope.

(** ** Runs that end *)

Lemma yields_get_sym {B} s y (g : symbol → K B) k Q :
  ks_syms k !! s = Some y → yields (g y) k Q → yields (mthen (get_sym s) g) k Q.
Proof. intros H. unfold yields, mthen, get_sym. by rewrite H. Qed.
Lemma yields_get_menu {B} m x (g : menu → K B) k Q :
  ks_menus k !! m = Some x → yields (g x) k Q → yields (mthen (get_menu m) g) k Q.
Proof. intros H. unfold yields, mthen, get_menu. by rewrite H. Qed.
Lemma calm_runs {A} (m : K A) k Q : calm m k Q → yields m k (λ a k', minv k' ∧ ext k k' ∧ Q a k').
Proof. unfold calm, spec. intros H. destruct (m k) as [[a k']| |] eqn:E; [|done..]. by exists a, k'. Qed.

(** ** The invariant *)

(** Exactly the choices have no name, and each has an entry; [o] is a symbol
    that has no name yet and is no choice either. *)
Definition sym_entry (k : kstate) (s : sid) : Prop := ∃ m x, ks_menus k !! m = Some x ∧ mn_sym x = Some s.
Definition names (o : option sid) (k : kstate) : Prop := ∀ s y, ks_syms k !! s = Some y →
  (sy_name y = None → is_choice y = true ∨ o = Some s) ∧
  (is_choice y = true → sy_name y = None ∧ sym_entry k s).

Record binv_at (o : option sid) (k : kstate) : Prop := {
  bi_minv : minv k;
  bi_hash : hash_ok k;
  bi_consts : consts_ok k;
  bi_static : ∀ s, s ∈ hash_syms k → symbol_empty < s;
  bi_menus : ∀ m, is_Some (ks_menus k !! m) → m < ks_new_menu k;
  bi_entry : is_Some (ks_menus k !! ks_current_entry k);
  bi_last : is_Some (ks_menus k !! (ks_last_entry k).1);
  bi_names : names o k;
}.
Arguments bi_minv {o} k _.
Arguments bi_hash {o} k _.
Arguments bi_consts {o} k _.
Arguments bi_static {o} k _.
Arguments bi_menus {o} k _.
Arguments bi_entry {o} k _.
Arguments bi_last {o} k _.
Arguments bi_names {o} k _.
Notation binv := (binv_at None).

Lemma names_step o k k' :
  (∀ s y', ks_syms k' !! s = Some y' → ∃ y, ks_syms k !! s = Some y ∧ sy_name y' = sy_name y ∧ is_choice y' = is_choice y) →
  (∀ s, sym_entry k s → sym_entry k' s) → names o k → names o k'.
Proof.
  intros H E N s y' H'. destruct (H s y' H') as (y & Hy & -> & ->). destruct (N s y Hy) as [A B].
  split; [done|]. intros C. destruct (B C). auto.
Qed.
Lemma names_syms o k k' :
  ks_syms k' = ks_syms k → (∀ s, sym_entry k s → sym_entry k' s) → names o k → names o k'.
Proof. intros Es. apply names_step. rewrite Es. eauto. Qed.
Lemma entry_menus k k' : ks_menus k' = ks_menus k → ∀ s, sym_entry k s → sym_entry k' s.
Proof. unfold sym_entry. by intros ->. Qed.

Definition same_table (k k' : kstate) : Prop :=
  ks_hash k' = ks_hash k ∧ ks_new_sym k' = ks_new_sym k ∧ ident <$> ks_syms k' = ident <$> ks_syms k.

Lemma same_table_old k k' s y' : same_table k k' → ks_syms k' !! s = Some y' →
  ∃ y, ks_syms k !! s = Some y ∧ ident y' = ident y.
Proof.
  intros (_ & _ & E) H. assert (L := f_equal (lookup s) E). rewrite !lookup_fmap, H in L. simpl in L.
  destruct (ks_syms k !! s) as [y|]; [|done]. injection L as L1 L2. exists y. split; [done|]. unfold ident. congruence.
Qed.
Lemma same_table_back k k' : same_table k k' → same_table k' k.
Proof. intros (A & B & C). split_and!; congruence. Qed.

Lemma ident_inv y y' : ident y' = ident y → sy_name y' = sy_name y ∧ is_const y' = is_const y.
Proof. unfold ident. intros [= A B]. done. Qed.

(** The hash table goes by names and kinds only. *)
Lemma hash_ok_same k k' : same_table k k' → hash_ok k → hash_ok k'.
Proof.
  intros S Ok. pose proof (same_table_back _ _ S) as S'. pose proof S as (Eh & En & _).
  assert (Eb : ∀ i, bucket k' i = bucket k i) by (intros i; unfold bucket; by rewrite Eh).
  assert (Es : hash_syms k' = hash_syms k) by (unfold hash_syms; by rewrite Eh).
  assert (B : ∀ s, is_Some (ks_syms k' !! s) → is_Some (ks_syms k !! s)).
  { intros s [y' H']. destruct (same_table_old _ _ _ _ S H') as (y & ? & _). eauto. }
  split.
  - intros i s. rewrite Eb. intros Hs. destruct (ho_bucket k Ok i s Hs) as (y & H & Hh).
    destruct (same_table_old _ _ _ _ S' H) as (y' & H' & [Ny _]%ident_inv). exists y'. by rewrite <-Ny.
  - intros s1 s2 y1' y2' c1 c2. rewrite Es. intros I1 I2 H1 H2 N1 N2 T E.
    destruct (same_table_old _ _ _ _ S H1) as (y1 & G1 & [M1 C1]%ident_inv).
    destruct (same_table_old _ _ _ _ S H2) as (y2 & G2 & [M2 C2]%ident_inv).
    apply (ho_unique k Ok s1 s2 y1 y2 c1 c2); congruence.
  - intros s Hs. rewrite Es. apply (ho_all k Ok). auto.
  - intros s Hs. rewrite En. apply (ho_fresh k Ok). auto.
  - rewrite En. apply (ho_start k Ok).
Qed.

Lemma static_same k k' :
  same_table k k' → (∀ s, s ∈ hash_syms k → symbol_empty < s) → ∀ s, s ∈ hash_syms k' → symbol_empty < s.
Proof. intros (E & _) H s. unfold hash_syms. rewrite E. apply H. Qed.

Lemma consts_ok_same k k' : same_table k k' → minv k' → consts_ok k → consts_ok k'.
Proof.
  intros S I Co. pose proof (same_table_back _ _ S) as S'.
  assert (G : ∀ s c, (∃ y, ks_syms k !! s = Some y ∧ is_const y = true ∧ sy_name y = Some c) →
    ∃ y, ks_syms k' !! s = Some y ∧ is_const y = true ∧ sy_name y = Some c).
  { intros s c (y & H & C & N). destruct (same_table_old _ _ _ _ S' H) as (y' & H' & [A B]%ident_inv).
    exists y'. split_and!; congruence. }
  split; [apply G, Co..|apply I|]. intros s y' H' C. split; [by apply (mi_type k' I s)|].
  destruct (same_table_old _ _ _ _ S H') as (y & H & [A B]%ident_inv). rewrite A.
  apply (co_type k Co s y H). congruence.
Qed.

(** The entries of the hash table that stay. *)
Definition keeps_entries (k k' : kstate) : Prop := ∀ name c s, entry k name c s → entry k' name c s.

Lemma same_table_entries k k' : same_table k k' → keeps_entries k k'.
Proof.
  intros S name c s. unfold entry. destruct (reserved name); [done|]. intros (Hs & y & n & H & N & T & C).
  destruct (same_table_old _ _ _ _ (same_table_back _ _ S) H) as (y' & H' & [A B]%ident_inv). split.
  - unfold hash_syms in *. by rewrite (proj1 S).
  - exists y', n. split_and!; congruence.
Qed.

(** ** New symbols *)

Section WithSymbol.
Context (name : option cstr) (c : bool) (i : nat) (k : kstate).
Context (I : minv k) (Ok : hash_ok k).
Let k' := with_symbol name c i k.

Lemma with_old s y : ks_syms k !! s = Some y → ks_syms k' !! s = Some y.
Proof using Ok.
  intros H. simpl. rewrite lookup_insert_ne; [done|]. intros <-. pose proof (ho_fresh k Ok _ (ex_intro _ y H)). lia.
Qed.
Lemma with_inv s y : ks_syms k' !! s = Some y →
  ks_syms k !! s = Some y ∨ s = ks_new_sym k ∧ y = fresh_symbol name c.
Proof.
  simpl. intros H. destruct (decide (s = ks_new_sym k)) as [->|Hne].
  - rewrite lookup_insert_eq in H. injection H as <-. auto.
  - rewrite lookup_insert_ne in H by done. auto.
Qed.
Lemma with_some s : sym_some k s → sym_some k' s.
Proof using Ok. intros [y H]. exists y. by apply with_old. Qed.

Lemma with_minv : minv k'.
Proof using I Ok.
  pose proof (ho_start k Ok) as Hst. split.
  - intros s Hs. destruct (mi_const k I s Hs) as (y & H & C). exists y. split; [by apply with_old|done].
  - intros s y [H|[-> ->]]%with_inv; [by apply (mi_type k I s)|done].
  - intros s y p [H|[-> ->]]%with_inv Hp; [by apply (mi_props k I s y)|by apply elem_of_nil in Hp].
  - intros s y [H|[-> ->]]%with_inv Cy; [|by destruct c].
    destruct (mi_choice k I s y H Cy) as (p & x & Hp & Hx & Hv). exists p, x. by rewrite (choice_prop_kept k).
  - intros s y [H|[-> ->]]%with_inv Vy; [|by destruct c].
    destruct (mi_value k I s y H Vy) as (t & z & Hz & Cz). exists t, z. split; [by apply with_old|done].
  - intros p x Hx. apply (prop_ok_mono k); [|done|by apply (mi_prop k I p)].
    intros s y H. exists y. split; [by apply with_old|done].
  - intros m x s Hm Hs. destruct (mi_sym k I m x s Hm Hs) as (y & H & ?). exists y. split; [by apply with_old|done].
  - apply (mi_prompt k I).
  - intros m x Hm. apply (good_mono k); [apply with_some|by apply (mi_dep k I m)].
  - intros s y [H|[-> ->]]%with_inv; [|done].
    destruct (mi_rev k I s y H). split; (apply (good_mono k); [apply with_some|done]).
  - intros s y [H|[-> ->]]%with_inv; [by apply (mi_born k I)|]. unfold born. rewrite decide_False by lia.
    split; [by destruct c|lia].
  - intros y [H|[E _]]%with_inv; [by apply (mi_empty k I)|]. lia.
  - apply (mi_new k I).
Qed.

Lemma with_consts : (c = true → is_Some name) → consts_ok k → consts_ok k'.
Proof using I Ok.
  intros Hc Co.
  assert (G : ∀ s n, (∃ y, ks_syms k !! s = Some y ∧ is_const y = true ∧ sy_name y = Some n) →
    ∃ y, ks_syms k' !! s = Some y ∧ is_const y = true ∧ sy_name y = Some n).
  { intros s n (y & H & ?). exists y. split; [by apply with_old|done]. }
  split; [apply G, Co..|apply with_minv|]. intros s y [H|[-> ->]]%with_inv; [by apply (co_type k Co s)|].
  rewrite fresh_const. intros ->. split; [done|]. by apply Hc.
Qed.

Lemma with_entries : i < 257 → keeps_entries k k'.
Proof using Ok.
  intros Hi n b s. unfold entry. destruct (reserved n); [done|]. intros (Hs & y & d & H & ?). split.
  - apply hash_syms_with; [done|by right].
  - exists y, d. split; [by apply with_old|done].
Qed.
End WithSymbol.

(** [sym_lookup] finds a symbol or makes one. *)
Lemma lookup_cases k name c :
  hash_ok k →
  ∃ s k', sym_lookup (Some name) c k = Done (s, k') ∧ hash_ok k' ∧ entry k' name c s ∧
    (k' = k ∨ ∃ d, s = ks_new_sym k ∧
       k' = with_symbol (Some d) c (name_hash name) (ks_set_new_str (S (ks_new_str k)) k)).
Proof.
  intros Ok. destruct (lookup_spec k name c Ok) as (s & k' & E & Ok' & En & _). exists s, k'. split_and!; [done..|].
  unfold sym_lookup in E. destruct (reserved name); [injection E; auto|]. unfold mthen at 1, mgets in E.
  destruct (find_chain_spec k (default [] (ks_hash k !! name_hash name)) name c) as (o & F & _).
  { apply (bucket_named k (name_hash name)); [done|apply name_hash_lt]. }
  unfold mthen in E. rewrite F in E. destruct o as [t|]; [injection E; auto|].
  unfold strdup in E. rewrite new_symbol_run in E. injection E as <- <-. right. eexists. split; reflexivity.
Qed.

(** A step that makes symbols, or changes their types and flags. *)
Definition same_sym (y y' : symbol) : Prop :=
  ident y' = ident y ∧ is_choice y' = is_choice y ∧ sy_prop y' = sy_prop y.
Record quiet (k k' : kstate) : Prop := {
  qu_syms : ∀ s y, ks_syms k !! s = Some y → ∃ y', ks_syms k' !! s = Some y' ∧ same_sym y y';
  qu_props : ks_props k' = ks_props k;
  qu_menus : ks_menus k' = ks_menus k;
  qu_new : ks_new_prop k' = ks_new_prop k ∧ ks_new_menu k' = ks_new_menu k;
  qu_current : ks_current_entry k' = ks_current_entry k ∧ ks_current_menu k' = ks_current_menu k ∧
    ks_last_entry k' = ks_last_entry k;
  qu_entries : keeps_entries k k';
}.
Lemma quiet_refl k : quiet k k.
Proof. split; try done; [intros s y H; by exists y|by intros n c s]. Qed.
Lemma quiet_trans k1 k2 k3 : quiet k1 k2 → quiet k2 k3 → quiet k1 k3.
Proof.
  intros [A1 B1 C1 [D1 D1'] (E1 & F1 & G1) H1] [A2 B2 C2 [D2 D2'] (E2 & F2 & G2) H2].
  split; [|congruence..|split; congruence|split_and!; congruence|].
  { intros s y H. destruct (A1 s y H) as (y1 & Hy1 & (? & ? & ?)). destruct (A2 s y1 Hy1) as (y2 & Hy2 & (? & ? & ?)).
    exists y2. split; [done|]. unfold same_sym. split_and!; congruence. }
  intros n c s He. by apply H2, H1.
Qed.

Lemma with_names name c i k :
  names None k → hash_ok k →
  names (match name with Some _ => None | None => Some (ks_new_sym k) end) (with_symbol name c i k).
Proof.
  intros N Ok s y [H|[-> ->]]%with_inv.
  - destruct (N s y H) as [A B]. split; [|done]. intros E. destruct (A E) as [?|?]; [by left|done].
  - split; [|by destruct c]. intros E. right. simpl in E. by rewrite E.
Qed.

Lemma with_binv name c i k :
  binv k → hash_ok (with_symbol name c i k) → (c = true → is_Some name) → i < 257 →
  binv_at (match name with Some _ => None | None => Some (ks_new_sym k) end) (with_symbol name c i k) ∧
  quiet k (with_symbol name c i k).
Proof.
  intros [I Ok Co St M E L N] Ok' Hc Hi. split; split; try done.
  - by apply with_minv.
  - by apply with_consts.
  - intros s [->|Hs]%hash_syms_with; [apply (ho_start k Ok)|by apply St|done].
  - by apply with_names.
  - intros s y H. exists y. split; [by apply with_old|done].
  - by apply with_entries.
Qed.
Lemma strdup_binv k n : binv k → binv (ks_set_new_str n k) ∧ quiet k (ks_set_new_str n k).
Proof.
  intros [I Ok Co St M E L N]. split; [split; try done|split; try done; [intros s y H; by exists y|by intros ? ? ?]].
  - by apply (minv_same k).
  - by apply hash_ok_strdup.
  - by apply (consts_ok_same k); [|apply (minv_same k)|].
Qed.

(** What [sym_lookup] of a name returns. *)
Definition named (k : kstate) (s : sid) : Prop := ∃ y, ks_syms k !! s = Some y ∧ is_Some (sy_name y).

Lemma entry_named k name c s : consts_ok k → entry k name c s → named k s.
Proof.
  intros [(y0 & H0 & _ & N0) (y1 & H1 & _ & N1) (y2 & H2 & _ & N2) _ _]. unfold entry.
  destruct (reserved name) as [r|] eqn:R; [|intros (_ & y & d & H & N & _); by exists y; rewrite N].
  intros ->. unfold reserved in R. repeat case_decide; simplify_eq; [exists y0|exists y1|exists y2]; by rewrite ?N0, ?N1, ?N2.
Qed.

Lemma yields_lookup name c k :
  binv k → yields (sym_lookup (Some name) c) k (λ s k', binv k' ∧ quiet k k' ∧ entry k' name c s ∧ named k' s).
Proof.
  intros B. destruct (lookup_cases k name c (bi_hash k B)) as (s & k' & E & Ok & En & Hc).
  apply (yields_done _ _ s k' _ E). assert (G : binv k' ∧ quiet k k').
  { destruct Hc as [->|(d & -> & ->)]; [split; [done|apply quiet_refl]|].
    destruct (strdup_binv k (S (ks_new_str k)) B) as [B1 Q1].
    destruct (with_binv (Some d) c (name_hash name) _ B1 Ok) as [B2 Q2]; [by eexists|pose proof (name_hash_lt name); lia|].
    split; [done|]. by eapply quiet_trans. }
  destruct G as [G1 G2]. split_and!; [done..|]. eapply entry_named; [apply G1|done].
Qed.

(** ** Steps on one symbol *)

(** A step that is calm and leaves menus and properties alone. *)
Lemma calm_quiet {A} (m : K A) k a k' :
  binv k → m k = Done (a, k') → minv k' → ext k k' →
  (∀ s y, ks_syms k !! s = Some y → ∃ y', ks_syms k' !! s = Some y' ∧ sy_prop y' = sy_prop y) →
  ks_props k' = ks_props k → ks_menus k' = ks_menus k →
  ks_new_prop k' = ks_new_prop k ∧ ks_new_menu k' = ks_new_menu k →
  ks_current_entry k' = ks_current_entry k ∧ ks_current_menu k' = ks_current_menu k ∧
    ks_last_entry k' = ks_last_entry k → binv k' ∧ quiet k k'.
Proof.
  intros [I Ok Co St M E L N] Hm I' X Hs Ep Em [En1 En2] (Ec1 & Ec2 & Ec3).
  assert (S : same_table k k') by apply X. split; split; try done.
  - by apply (hash_ok_same k).
  - by apply (consts_ok_same k).
  - by apply (static_same k).
  - by rewrite Em, En2.
  - by rewrite Em, Ec1.
  - by rewrite Em, Ec3.
  - eapply names_step; [|by apply entry_menus|done]. intros s y' H'. destruct (same_table_old _ _ _ _ S H') as (y & H & [Ey _]%ident_inv).
    destruct (ex_sym _ _ X s y H) as (z & Hz & C & _). assert (z = y') as -> by congruence. eauto.
  - intros s y H. destruct (ex_sym _ _ X s y H) as (y' & H' & C & Cc & _). exists y'. split; [done|].
    destruct (Hs s y H) as (z & Hz & Pz). assert (z = y') as -> by congruence.
    destruct (same_table_old _ _ _ _ S H') as (y0 & H0 & Id). assert (y0 = y) as -> by congruence. done.
  - by apply same_table_entries.
Qed.

Lemma upd_sym_quiet s f k y :
  binv k → ks_syms k !! s = Some y → sym_kept k s y (f y) → sy_prop (f y) = sy_prop y →
  sy_rev_dep (f y) = sy_rev_dep y → sy_rev_dep_inv (f y) = sy_rev_dep_inv y →
  yields (upd_sym s f) k (λ _ k', binv k' ∧ quiet k k').
Proof.
  intros B H Sk P R1 R2. pose proof (bi_minv k B) as I. destruct (mi_rev k I s y H) as [Gr Gi].
  assert (C := calm_upd_sym s f k y I H Sk P). rewrite R1, R2 in C. specialize (C Gr Gi). apply calm_runs in C.
  destruct C as ([] & k' & E & I' & X & _). pose proof E as E'.
  apply (yields_done _ _ () k'); [done|]. eapply calm_quiet; try done.
  all: unfold upd_sym, mthen in E'; rewrite (run_get_sym _ _ _ H) in E'; injection E' as <-; try done.
  intros t z Hz. simpl. destruct (decide (t = s)) as [->|Hne].
  - rewrite lookup_insert_eq. exists (f y). split; congruence.
  - rewrite lookup_insert_ne by done. by exists z.
Qed.

Lemma yields_or_flags s bits k y :
  binv k → ks_syms k !! s = Some y → Z.land bits SYMBOL_CHOICEVAL = 0%Z → Z.land bits SYMBOL_CHOICE = 0%Z → Z.land bits SYMBOL_CONST = 0%Z →
  Z.land bits state_bits = 0%Z → yields (or_flags s bits) k (λ _ k', binv k' ∧ quiet k k').
Proof.
  intros B H B0 B1 B2 B3. eapply (upd_sym_quiet s _ k y); try done.
  assert (F : ∀ b, Z.land bits b = 0%Z → has_flag bits b = false) by (intros b E; unfold has_flag; by rewrite E).
  split; try done; unfold is_choice, is_choice_value, is_const; simpl; [rewrite has_flag_set, F, orb_false_r by done; auto..|].
  unfold set_flag. by rewrite Z.land_lor_distr_l, B3, Z.lor_0_r.
Qed.

Lemma yields_log msg k : binv k → yields (log msg) k (λ _ k', binv k' ∧ quiet k k').
Proof.
  intros B. eapply yields_done; [done|]. eapply (calm_quiet (log msg)); try done.
  - by apply (minv_same k); [|apply B].
  - by apply ext_same.
  - intros s y H. by exists y.
Qed.

Lemma yields_set_type t k x s :
  binv k → ks_menus k !! ks_current_entry k = Some x → mn_sym x = Some s →
  yields (menu_set_type t) k (λ _ k', binv k' ∧ quiet k k').
Proof.
  intros B H Hs. destruct (mi_sym k (bi_minv k B) _ x s H Hs) as (y & Hy & Cy & Ny). unfold menu_set_type.
  apply yields_gets. eapply yields_get_menu; [done|]. eapply yields_deref; [done|]. eapply yields_get_sym; [done|].
  case_decide as E; [apply yields_ret; split; [done|apply quiet_refl]|]. case_decide as E'; [|by apply yields_log].
  apply (upd_sym_quiet s (sy_set_type t) k y); try done. split; try done; [by left|intros [?|?]; congruence].
Qed.

(** ** Steps on the current entry *)

(** A change of one menu. *)
Lemma put_menu_binv k m x' :
  binv k → is_Some (ks_menus k !! m) →
  (∀ s, mn_sym x' = Some s → ∃ y, ks_syms k !! s = Some y ∧ is_const y = false ∧ s ≠ symbol_empty) →
  (∀ p, mn_prompt x' = Some p → ∃ q, ks_props k !! p = Some q ∧ pr_type q ≠ P_SELECT ∧ pr_type q ≠ P_DESELECT) →
  good k (mn_dep x') → (∀ x, ks_menus k !! m = Some x → mn_sym x' = mn_sym x) →
  binv (ks_set_menus (<[m := x']> (ks_menus k)) k).
Proof.
  intros [I Ok Co St M E L N] Hm H1 H2 G Es. set (k' := ks_set_menus _ k).
  assert (S : ∀ n, is_Some (ks_menus k' !! n) ↔ is_Some (ks_menus k !! n)).
  { intros n. simpl. destruct (decide (n = m)) as [->|Hne]; [|by rewrite lookup_insert_ne].
    rewrite lookup_insert_eq. split; [done|by eexists]. }
  assert (I' : minv k') by (by apply put_menu_minv). split; [done|..].
  - by apply (hash_ok_same k).
  - by apply (consts_ok_same k).
  - by apply (static_same k).
  - intros n Hn. apply M. by apply S.
  - by apply S.
  - by apply S.
  - apply (names_syms None k); [done| |done]. intros s (n & z & Hz & Hs). destruct (decide (n = m)) as [->|Hne].
    + exists m, x'. split; [apply lookup_insert_eq|]. by rewrite (Es z Hz).
    + exists n, z. simpl. by rewrite lookup_insert_ne.
Qed.

Lemma yields_add_dep k x e :
  binv k → ks_menus k !! ks_current_entry k = Some x → good k (Some e) →
  yields (menu_add_dep (Some e)) k (λ _ k', binv k' ∧ k' = ks_set_menus
    (<[ks_current_entry k := mn_set_dep (expr_alloc_and (mn_dep x) (Some e)) x]> (ks_menus k)) k).
Proof.
  intros B H G. unfold menu_add_dep. apply yields_gets. unfold upd_menu. eapply yields_get_menu; [done|].
  eapply yields_done; [done|]. split; [|done]. pose proof (bi_minv k B) as I. apply put_menu_binv; [done|by eexists|..]; simpl.
  - intros s. by eapply (mi_sym k I _ x).
  - intros p. by eapply (mi_prompt k I _ x).
  - apply good_alloc_and; [by eapply (mi_dep k I _ x)|done].
  - intros z Hz. by assert (z = x) as -> by congruence.
Qed.

(** The effect of a new property [X] of the entry [e], which was [x] and is
    now [x']. *)
Record added (e : mid) (x x' : menu) (X : property) (k k' : kstate) : Prop := {
  ad_props : ks_props k' = <[ks_new_prop k := X]> (ks_props k);
  ad_new : ks_new_prop k' = S (ks_new_prop k) ∧ ks_new_menu k' = ks_new_menu k;
  ad_sym : ∀ s y, ks_syms k !! s = Some y → ∃ y', ks_syms k' !! s = Some y' ∧ ident y' = ident y ∧
    is_choice y' = is_choice y ∧
    sy_prop y' = sy_prop y ++ (if decide (mn_sym x = Some s) then [ks_new_prop k] else []);
  ad_menus : ks_menus k' = <[e := x']> (ks_menus k);
  ad_current : ks_current_entry k' = ks_current_entry k ∧ ks_current_menu k' = ks_current_menu k ∧
    ks_last_entry k' = ks_last_entry k;
  ad_entries : keeps_entries k k';
}.

(** The store after [prop_alloc] and the assignments to the new property. *)
Definition prop_store (o : option sid) (X : property) (k : kstate) : kstate :=
  match o with
  | Some s => match ks_syms k !! s with Some y => sym_prop_store s y X k | None => k end
  | None => new_prop_store X k
  end.

Lemma add_prop_run type prompt ex dep k x :
  ks_menus k !! ks_current_entry k = Some x → (∀ s, mn_sym x = Some s → is_Some (ks_syms k !! s)) →
  menu_add_prop type prompt ex dep k =
  (do! match prompt with
       | None => mreturn ()
       | Some _ =>
           do! match mn_prompt x with
               | Some _ => menu_warn (ks_current_entry k) "prompt redefined\n"
               | None => mreturn ()
               end in
           upd_menu (ks_current_entry k) (mn_set_prompt (Some (ks_new_prop k)))
       end in
   mreturn (ks_new_prop k))
    (prop_store (mn_sym x) (Property (mn_sym x) type prompt dep No ex (Some (ks_current_entry k))) k).
Proof.
  intros Hm Hs. unfold menu_add_prop, prop_alloc. unfold mthen at 1, mgets at 1. unfold mthen at 1, get_menu at 1.
  rewrite Hm. cbn [mderef]. destruct (mn_sym x) as [s|].
  - destruct (Hs s eq_refl) as [y Hy]. unfold prop_store. rewrite Hy.
    unfold mthen at 1. unfold mthen at 1, mgets at 1. unfold mthen at 1, mmodify at 1. unfold mthen at 1, put_prop, mmodify.
    unfold mthen at 1. unfold upd_sym, mthen at 1, get_sym. simpl. rewrite Hy. simpl.
    unfold mthen at 1. unfold upd_prop, mthen at 1, get_prop. simpl. rewrite lookup_insert_eq. simpl.
    unfold sym_prop_store, new_prop_store, ks_set_props, ks_set_syms, ks_set_new_prop. simpl. by rewrite insert_insert_eq.
  - unfold prop_store. unfold mthen at 1. unfold mthen at 1, mgets at 1. unfold mthen at 1, mmodify at 1.
    unfold mthen at 1, put_prop, mmodify. unfold mthen at 1, mreturn at 1. simpl.
    unfold mthen at 1. unfold upd_prop, mthen at 1, get_prop. simpl. rewrite lookup_insert_eq. simpl.
    unfold new_prop_store, ks_set_props, ks_set_new_prop. simpl. by rewrite insert_insert_eq.
Qed.

Lemma prop_store_binv n o X k :
  binv_at n k → prop_ok k X → (∀ s, o = Some s → is_Some (ks_syms k !! s)) → binv_at n (prop_store o X k).
Proof.
  intros [I Ok Co St M E L N] Px Hs. assert (G : minv (prop_store o X k) ∧ ext k (prop_store o X k)).
  { unfold prop_store. destruct o as [s|]; [|by apply new_prop_ok]. destruct (Hs s eq_refl) as [y Hy]. rewrite Hy.
    by apply sym_prop_ok. }
  destruct G as [I' X']. assert (S : same_table k (prop_store o X k)) by apply X'.
  assert (Em : ks_menus (prop_store o X k) = ks_menus k) by (unfold prop_store; destruct o as [s|]; [destruct (ks_syms k !! s)|]; done).
  split; [done|by apply (hash_ok_same k)|by apply (consts_ok_same k)|by apply (static_same k)|..].
  4:{ eapply names_step; [|by apply entry_menus|done]. intros s y' H'.
      destruct (same_table_old _ _ _ _ S H') as (y & H & [Ey _]%ident_inv).
      destruct (ex_sym _ _ X' s y H) as (z & Hz & C & _). assert (z = y') as -> by congruence. eauto. }
  all: unfold prop_store; destruct o as [s|]; [destruct (ks_syms k !! s)|]; done.
Qed.

Lemma prop_store_added n o X k x :
  binv_at n k → prop_ok k X → (∀ s, o = Some s → is_Some (ks_syms k !! s)) → mn_sym x = o →
  ks_menus k !! ks_current_entry k = Some x → added (ks_current_entry k) x x X k (prop_store o X k).
Proof.
  intros B Px Hs Ho Hx. rewrite <-Ho in *.
  assert (P : ks_props (prop_store (mn_sym x) X k) = <[ks_new_prop k := X]> (ks_props k) ∧
    ks_new_prop (prop_store (mn_sym x) X k) = S (ks_new_prop k)).
  { unfold prop_store. destruct (mn_sym x) as [s|]; [|done]. destruct (Hs s eq_refl) as [y Hy]. by rewrite Hy. }
  assert (R : ks_menus (prop_store (mn_sym x) X k) = ks_menus k ∧
    ks_new_menu (prop_store (mn_sym x) X k) = ks_new_menu k ∧
    ks_current_entry (prop_store (mn_sym x) X k) = ks_current_entry k ∧
    ks_current_menu (prop_store (mn_sym x) X k) = ks_current_menu k ∧
    ks_last_entry (prop_store (mn_sym x) X k) = ks_last_entry k ∧ same_table k (prop_store (mn_sym x) X k)).
  { unfold prop_store. destruct (mn_sym x) as [s|]; [|done]. destruct (Hs s eq_refl) as [y Hy]. rewrite Hy.
    split_and!; [done..|]. by apply (sym_prop_ok k s y X (bi_minv k B) Hy Px). }
  destruct P as [P1 P2], R as (R1 & R2 & R3 & R4 & R5 & R6).
  split; [done|done| | |done|by apply same_table_entries].
  - intros s y Hy. unfold prop_store. destruct (mn_sym x) as [t|].
    + destruct (Hs t eq_refl) as [z Hz]. rewrite Hz. simpl. destruct (decide (s = t)) as [->|Hne].
      * assert (z = y) as -> by congruence. rewrite lookup_insert_eq, decide_True by done. eexists. by split_and!.
      * rewrite lookup_insert_ne, decide_False by congruence. exists y. rewrite app_nil_r. done.
    + exists y. rewrite app_nil_r. done.
  - by rewrite R1, insert_id.
Qed.

Lemma added_quiet e x x' X k k1 k2 : added e x x' X k k1 → quiet k1 k2 → added e x x' X k k2.
Proof.
  intros [A1 [A2 A2'] A3 A4 (A5 & A6 & A7) A8] [Q1 Q2 Q3 [Q4 Q4'] (Q5 & Q6 & Q7) Q8]. split.
  - congruence.
  - split; congruence.
  - intros s y H. destruct (A3 s y H) as (y1 & H1 & I1 & C1 & P1). destruct (Q1 s y1 H1) as (y2 & H2 & I2 & C2 & P2).
    exists y2. split_and!; congruence.
  - congruence.
  - split_and!; congruence.
  - intros n c s En. by apply Q8, A8.
Qed.

Lemma added_menu e x x1 x2 X k k1 :
  added e x x1 X k k1 → added e x x2 X k (ks_set_menus (<[e := x2]> (ks_menus k1)) k1).
Proof. intros [A1 A2 A3 A4 A5 A6]. split; try done. simpl. by rewrite A4, insert_insert_eq. Qed.

Definition with_prompt (prompt : option string) (p : pid) (x : menu) : menu :=
  match prompt with Some _ => mn_set_prompt (Some p) x | None => x end.

Lemma yields_add_prop type prompt ex dep k x :
  binv k → ks_menus k !! ks_current_entry k = Some x →
  prop_ok k (Property (mn_sym x) type prompt dep No ex (Some (ks_current_entry k))) →
  (is_Some prompt → type ≠ P_SELECT ∧ type ≠ P_DESELECT) →
  yields (menu_add_prop type prompt ex dep) k (λ p k', p = ks_new_prop k ∧ binv k' ∧
    added (ks_current_entry k) x (with_prompt prompt (ks_new_prop k) x)
      (Property (mn_sym x) type prompt dep No ex (Some (ks_current_entry k))) k k').
Proof.
  intros B Hx Px Hp. set (X := Property _ _ _ _ _ _ _).
  assert (Hs : ∀ s, mn_sym x = Some s → is_Some (ks_syms k !! s)).
  { intros s Es. destruct (mi_sym k (bi_minv k B) _ x s Hx Es) as (y & ? & _). eauto. }
  unfold yields. rewrite (add_prop_run type prompt ex dep k x Hx Hs). fold X.
  pose proof (prop_store_binv _ (mn_sym x) X k B Px Hs) as B1.
  pose proof (prop_store_added _ (mn_sym x) X k x B Px Hs eq_refl Hx) as A1.
  set (k1 := prop_store (mn_sym x) X k) in *.
  eapply (yields_bind _ _ _ (λ _ k', binv k' ∧ added (ks_current_entry k) x
    (with_prompt prompt (ks_new_prop k) x) X k k')).
  2:{ intros [] k2 G. by apply yields_ret. }
  destruct prompt as [text|]; [|by apply yields_ret].
  eapply (yields_bind _ _ _ (λ _ k2, binv k2 ∧ added (ks_current_entry k) x x X k k2)).
  { destruct (mn_prompt x); [|by apply yields_ret]. eapply yields_mono; [by apply yields_log|]. intros _ k2 [B2 Q2].
    split; [done|]. by eapply added_quiet. }
  intros [] k2 [B2 A2]. unfold upd_menu.
  assert (H2 : ks_menus k2 !! ks_current_entry k = Some x) by (rewrite (ad_menus _ _ _ _ _ _ A2); apply lookup_insert_eq).
  eapply yields_get_menu; [done|]. eapply yields_done; [done|]. split; [|by eapply added_menu].
  pose proof (bi_minv k2 B2) as I2. apply put_menu_binv; [done|by eexists|..]; simpl.
  - intros s. by eapply (mi_sym k2 I2 _ x).
  - intros p [= <-]. exists X. rewrite (ad_props _ _ _ _ _ _ A2), lookup_insert_eq. split; [done|]. apply Hp. by eexists.
  - by eapply (mi_dep k2 I2 _ x).
  - intros z Hz. by assert (z = x) as -> by congruence.
Qed.

(** ** A new entry *)

(** [*last_entry_ptr] *)
Definition slot_of (x : menu) (b : bool) : option mid := if b then mn_list x else mn_next x.
Definition slot_set (b : bool) (m : mid) (x : menu) : menu :=
  (if b then mn_set_list (Some m) else mn_set_next (Some m)) x.

Definition entry_store (sym : option sid) (xl : menu) (k : kstate) : kstate :=
  ks_set_current_entry (ks_new_menu k) (ks_set_last_entry (ks_new_menu k, false)
    (ks_set_menus (<[(ks_last_entry k).1 := slot_set (ks_last_entry k).2 (ks_new_menu k) xl]>
       (<[ks_new_menu k := Menu None (ks_current_menu k) None sym None None 0]> (ks_menus k)))
      (ks_set_new_menu (S (ks_new_menu k)) k))).

Lemma add_entry_run sym k xl :
  ks_menus k !! (ks_last_entry k).1 = Some xl → (ks_last_entry k).1 < ks_new_menu k →
  menu_add_entry sym k = Done ((), entry_store sym xl k).
Proof.
  intros Hl Lt. unfold menu_add_entry, set_last_entry, mthen, mgets, mmodify, put_menu, mmodify, upd_menu, mthen, get_menu.
  cbn [ks_last_entry ks_set_menus ks_set_new_menu ks_menus].
  assert (Ne : ks_new_menu k ≠ (ks_last_entry k).1) by lia.
  unfold entry_store. destruct (ks_last_entry k) as [m b]. simpl in *. rewrite lookup_insert_ne, Hl by done. by destruct b.
Qed.

Lemma yields_add_entry o sym k xl :
  binv_at o k → ks_menus k !! (ks_last_entry k).1 = Some xl →
  (∀ s, sym = Some s → ∃ y, ks_syms k !! s = Some y ∧ is_const y = false ∧ s ≠ symbol_empty) →
  yields (menu_add_entry sym) k (λ _ k', binv_at o k' ∧ k' = entry_store sym xl k).
Proof.
  intros B Hl Hs. eapply yields_done; [apply add_entry_run; [done|apply (bi_menus k B); by exists xl]|]. split; [|done]. pose proof B as [I Ok Co St M E L N].
  set (n := ks_new_menu k) in *. pose proof (M _ (ex_intro _ xl Hl)) as Ll.
  assert (I1 : minv (ks_set_menus (<[n := Menu None (ks_current_menu k) None sym None None 0]> (ks_menus k)) k)).
  { apply put_menu_minv; done. }
  assert (I2 : minv (ks_set_menus (<[(ks_last_entry k).1 := slot_set (ks_last_entry k).2 n xl]>
    (<[n := Menu None (ks_current_menu k) None sym None None 0]> (ks_menus k))) k)).
  { apply (put_menu_minv _ (ks_last_entry k).1 (slot_set (ks_last_entry k).2 n xl)) in I1; [done|..]; destruct (ks_last_entry k) as [m []]; simpl.
    1,2: intros s; by eapply (mi_sym k I _ xl).
    1,2: intros p; by eapply (mi_prompt k I _ xl).
    all: by eapply (mi_dep k I _ xl). }
  assert (I3 : minv (entry_store sym xl k)) by (eapply minv_same; [|exact I2]; done).
  assert (Hin : ∀ m, is_Some (ks_menus (entry_store sym xl k) !! m) ↔ m = n ∨ is_Some (ks_menus k !! m)).
  { intros m. unfold entry_store. simpl. fold n. destruct (decide (m = (ks_last_entry k).1)) as [->|N1].
    - rewrite lookup_insert_eq. split; [|by eexists]. right. by eexists.
    - rewrite lookup_insert_ne by done. destruct (decide (m = n)) as [->|N2].
      + rewrite lookup_insert_eq. split; [by left|by eexists].
      + rewrite lookup_insert_ne by done. tauto. }
  split; [done|by apply (hash_ok_same k)|by apply (consts_ok_same k)|by apply (static_same k)|..].
  - intros m. rewrite Hin. unfold entry_store. simpl. fold n. intros [->|Hm]; [lia|]. specialize (M m Hm). lia.
  - apply Hin. by left.
  - apply Hin. by left.
  - apply (names_syms o k); [done| |done]. intros s (m & z & Hz & Es). unfold sym_entry, entry_store. simpl. fold n.
    destruct (decide (m = (ks_last_entry k).1)) as [->|N1].
    + eexists _, _. split; [apply lookup_insert_eq|]. assert (z = xl) as -> by congruence. by destruct (ks_last_entry k) as [? []].
    + exists m, z. rewrite !lookup_insert_ne; [done| |done]. specialize (M m (ex_intro _ z Hz)). lia.
Qed.
