(* ===== verification/KParseTree.v ===== *)
(** * What the store says about the description that was read

    [says k m h]: the menu entry [m] of the store is the entry [h] of the
    description, with its parent, symbol, properties and dependencies.  The
    actions for an entry build it up option by option ([building]). *)
From S2P Require Import Prelude CLib KData KExpr KExprFacts KExprSyms.
From S2P Require Import KState KSymbol KSymFrame KSymRef KSymTab KMenu KMenuInv KParse KParseInv.
Open Scope pr30_scope.

(** ** Expressions of the description and of the store *)

Definition wdenotes (k : kstate) (w : word) (s : sid) : Prop := entry k (w_text w) (w_quoted w) s.

Fixpoint denotes (k : kstate) (p : pexpr) (e : expr) : Prop :=
  match p with
  | PSymbol w => ∃ s, e = Esymbol s ∧ wdenotes k w s
  | PEqual a b => ∃ s t, e = Eequal s t ∧ wdenotes k a s ∧ wdenotes k b t
  | PUnequal a b => ∃ s t, e = Eunequal s t ∧ wdenotes k a s ∧ wdenotes k b t
  | PParen p => denotes k p e
  | PNot p => ∃ x, e = Enot x ∧ denotes k p x
  | POr p q => ∃ x y, e = Eor x y ∧ denotes k p x ∧ denotes k q y
  | PAnd p q => ∃ x y, e = Eand x y ∧ denotes k p x ∧ denotes k q y
  end.
Definition odenotes (k : kstate) (c : pif) (o : option expr) : Prop :=
  match c, o with
  | Some p, Some e => denotes k p e
  | None, None => True
  | _, _ => False
  end.

(** The expression of a property. *)
Inductive pform : Set :=
  | FNone
  | FExpr (e : pexpr)
  | FSymbol (name : string)
  | FRange (a b : word).
Definition fdenotes (k : kstate) (f : pform) (o : option expr) : Prop :=
  match f with
  | FNone => o = None
  | FExpr p => ∃ e, o = Some e ∧ denotes k p e
  | FSymbol n => ∃ s, o = Some (Esymbol s) ∧ entry k n false s
  | FRange a b => ∃ s t, o = Some (Erange s t) ∧ wdenotes k a s ∧ wdenotes k b t
  end.

(** ** Entries of the description *)

Record prop_spec : Set := PSpec {
  ps_type : prop_type;
  ps_text : option string;
  ps_form : pform;
  ps_cond : pif;
}.
Inductive head_sym : Set := HConfig (name : string) | HChoice | HNone.
Record head : Set := Head {
  hd_parent : mid;
  hd_sym : head_sym;
  hd_props : list prop_spec;
  hd_deps : list pexpr;
}.
Definition hd_add (ps : list prop_spec) (ds : list pexpr) (h : head) : head :=
  Head (hd_parent h) (hd_sym h) (hd_props h ++ ps) (hd_deps h ++ ds).

Definition prompt_spec (p : pprompt) : list prop_spec :=
  match p with Some (text, c) => [PSpec P_PROMPT (Some text) FNone c] | None => [] end.
Definition option_props (o : config_option) : list prop_spec :=
  match o with
  | CType _ p => prompt_spec p
  | CPrompt text c => [PSpec P_PROMPT (Some text) FNone c]
  | CDefault _ e c => [PSpec P_DEFAULT None (FExpr e) c]
  | CDeselect name c => [PSpec P_DESELECT None (FSymbol name) c]
  | CSelect name c => [PSpec P_SELECT None (FSymbol name) c]
  | CRange a b c => [PSpec P_RANGE None (FRange a b) c]
  | CDepends _ | CHelp _ | CEol => []
  end.
Definition option_deps (o : config_option) : list pexpr :=
  match o with CDepends e => [e] | _ => [] end.
Definition choice_props (o : choice_option) : list prop_spec :=
  match o with
  | ChPrompt text c => [PSpec P_PROMPT (Some text) FNone c]
  | ChType _ p => prompt_spec p
  | ChReset c => [PSpec P_RESET None FNone c]
  | ChDefault stype name c =>
      if decide (stype = S_UNKNOWN) then [PSpec P_DEFAULT None (FSymbol name) c] else []
  | ChOptional | ChDepends _ | ChHelp _ | ChEol => []
  end.
Definition choice_deps (o : choice_option) : list pexpr :=
  match o with ChDepends e => [e] | _ => [] end.

(** [menuconfig] makes a menu of the last prompt. *)
Definition has_text (p : prop_spec) : bool := match ps_text p with Some _ => true | None => false end.
Fixpoint promote (l : list prop_spec) : list prop_spec :=
  match l with
  | [] => []
  | p :: l =>
      if existsb has_text l then p :: promote l
      else if has_text p then PSpec P_MENU (ps_text p) (ps_form p) (ps_cond p) :: l
      else p :: l
  end.

(** The entries of a list of statements below [parent], in the order of the
    text, when the first of them gets the number [n]; [f] does this for one
    statement. *)
Fixpoint heads_with (f : mid → mid → stmt → list head) (parent n : mid) (l : list stmt) : list head :=
  match l with
  | [] => []
  | s :: l => f parent n s ++ heads_with f parent (n + length (f parent n s)) l
  end.
Fixpoint heads_stmt (parent n : mid) (s : stmt) : list head :=
  match s with
  | SEol | SSource _ => []
  | SIf e block _ => Head parent HNone [] [e] :: heads_with heads_stmt n (S n) block
  | SComment prompt deps =>
      [Head parent HNone [PSpec P_COMMENT (Some prompt) FNone None] (omap id deps)]
  | SConfig menuconfig name opts =>
      let props := concat (map option_props opts) in
      [Head parent (HConfig name) (if menuconfig then promote props else props) (concat (map option_deps opts))]
  | SChoice opts block _ =>
      Head parent HChoice (PSpec P_CHOICE None FNone None :: concat (map choice_props opts))
        (concat (map choice_deps opts)) :: heads_with heads_stmt n (S n) block
  | SMenu prompt deps block _ =>
      Head parent HNone [PSpec P_MENU (Some prompt) FNone None] (omap id deps) :: heads_with heads_stmt n (S n) block
  end.
Definition heads_list := heads_with heads_stmt.
Fixpoint heads_top (n : mid) (l : list top) : list head :=
  match l with
  | [] => []
  | TStmt s :: l => heads_stmt rootmenu n s ++ heads_top (n + length (heads_stmt rootmenu n s)) l
  | _ :: l => heads_top n l
  end.

(** ** Entries of the store *)

(** The properties a symbol has from the entry [e]. *)
Definition own (k : kstate) (e : mid) (l : list pid) : list pid :=
  filter (λ p, (ks_props k !! p ≫= pr_menu) = Some e) l.

Definition prop_says (k : kstate) (e : mid) (sp : prop_spec) (p : pid) : Prop :=
  ∃ x, ks_props k !! p = Some x ∧ pr_menu x = Some e ∧ pr_type x = ps_type sp ∧ pr_text x = ps_text sp ∧
    fdenotes k (ps_form sp) (pr_expr x) ∧ odenotes k (ps_cond sp) (pr_visible x).

(** The last property with a prompt. *)
Fixpoint last_prompt (sps : list prop_spec) (l : list pid) (o : option pid) : option pid :=
  match sps, l with
  | sp :: sps, p :: l => last_prompt sps l (if has_text sp then Some p else o)
  | _, _ => o
  end.

Definition deps_say (k : kstate) (ds : list pexpr) (o : option expr) : Prop :=
  ∃ es, Forall2 (denotes k) ds es ∧ o = fold_left (λ o e, expr_alloc_and o (Some e)) es None.

Definition sym_says (k : kstate) (e : mid) (hs : head_sym) (o : option sid) (l : list pid) : Prop :=
  match hs with
  | HNone => o = None
  | HConfig n => ∃ s y, o = Some s ∧ entry k n false s ∧ ks_syms k !! s = Some y ∧ l = own k e (sy_prop y)
  | HChoice => ∃ s y, o = Some s ∧ ks_syms k !! s = Some y ∧ sy_name y = None ∧ is_choice y = true ∧
      l = own k e (sy_prop y)
  end.

Definition says (k : kstate) (e : mid) (h : head) : Prop :=
  ∃ x l, ks_menus k !! e = Some x ∧ mn_parent x = Some (hd_parent h) ∧ deps_say k (hd_deps h) (mn_dep x) ∧
    Forall2 (prop_says k e) (hd_props h) l ∧ NoDup l ∧ mn_prompt x = last_prompt (hd_props h) l None ∧
    sym_says k e (hd_sym h) (mn_sym x) l.

(** ** What later steps leave alone *)

Lemma denotes_mono k k' p e : keeps_entries k k' → denotes k p e → denotes k' p e.
Proof.
  intros K. revert e.
  induction p as [w|a b|a b|p IH|p IH|p IHp q IHq|p IHp q IHq]; simpl; intros e; unfold wdenotes; [| | |by auto|..].
  - intros (s & ? & ?). exists s. auto.
  - intros (s & t & ? & ? & ?). exists s, t. auto.
  - intros (s & t & ? & ? & ?). exists s, t. auto.
  - intros (x & ? & ?). exists x. auto.
  - intros (x & y & ? & ? & ?). exists x, y. auto.
  - intros (x & y & ? & ? & ?). exists x, y. auto.
Qed.
Lemma odenotes_mono k k' c o : keeps_entries k k' → odenotes k c o → odenotes k' c o.
Proof. destruct c, o; simpl; try done. apply denotes_mono. Qed.
Lemma fdenotes_mono k k' f o : keeps_entries k k' → fdenotes k f o → fdenotes k' f o.
Proof.
  intros K. destruct f; simpl; [done|..].
  - intros (e' & ? & ?). exists e'. eauto using denotes_mono.
  - intros (s & ? & ?). exists s. auto.
  - intros (s & t & ? & ? & ?). exists s, t. unfold wdenotes in *. auto.
Qed.

Definition mbody (x : menu) : option mid * option sid * option pid * option expr :=
  (mn_parent x, mn_sym x, mn_prompt x, mn_dep x).
Definition props_kept (k k' : kstate) : Prop := ∀ p x, ks_props k !! p = Some x → ks_props k' !! p = Some x.

Lemma prop_says_mono k k' e sp p : props_kept k k' → keeps_entries k k' → prop_says k e sp p → prop_says k' e sp p.
Proof.
  intros P K (x & H & ? & ? & ? & F & O). exists x.
  split_and!; [by apply P|done|done|done|by eapply fdenotes_mono|by eapply odenotes_mono].
Qed.
Lemma props_say_mono k k' e sps l :
  props_kept k k' → keeps_entries k k' → Forall2 (prop_says k e) sps l → Forall2 (prop_says k' e) sps l.
Proof. intros P K F. eapply Forall2_impl; [done|]. intros sp p. by apply prop_says_mono. Qed.
Lemma deps_say_mono k k' ds o : keeps_entries k k' → deps_say k ds o → deps_say k' ds o.
Proof.
  intros K (es & F & E). exists es. split; [|done]. eapply Forall2_impl; [done|]. intros p e. by apply denotes_mono.
Qed.

(** A symbol with the same properties from the entry [e]. *)
Definition owns_kept (e : mid) (k k' : kstate) : Prop := ∀ s y, ks_syms k !! s = Some y →
  ∃ y', ks_syms k' !! s = Some y' ∧ ident y' = ident y ∧ (is_choice y = true → is_choice y' = true) ∧
    own k' e (sy_prop y') = own k e (sy_prop y).

Lemma sym_says_mono k k' e hs o l :
  owns_kept e k k' → keeps_entries k k' → sym_says k e hs o l → sym_says k' e hs o l.
Proof.
  intros Ow K. destruct hs as [n| |]; simpl; [| |done].
  - intros (s & y & -> & En & H & ->). destruct (Ow s y H) as (y' & H' & _ & _ & E). exists s, y'. rewrite E. split_and!; auto.
  - intros (s & y & -> & H & N & C & ->). destruct (Ow s y H) as (y' & H' & [N' _]%ident_inv & C' & E).
    exists s, y'. rewrite E, N'. split_and!; auto.
Qed.

Lemma says_mono k k' e h :
  (∀ x, ks_menus k !! e = Some x → ∃ x', ks_menus k' !! e = Some x' ∧ mbody x' = mbody x) →
  owns_kept e k k' → props_kept k k' → keeps_entries k k' → says k e h → says k' e h.
Proof.
  intros Hm Ow P K (x & l & H & Hp & Hd & Hl & Nd & Ho & Hs). destruct (Hm x H) as (x' & H' & [= E1 E2 E3 E4]).
  exists x', l. rewrite E1, E2, E3, E4. split_and!; [done|done|by eapply deps_say_mono| |done|done|by eapply sym_says_mono].
  by eapply props_say_mono.
Qed.

Lemma own_app k e l1 l2 : own k e (l1 ++ l2) = own k e l1 ++ own k e l2.
Proof. unfold own. by rewrite filter_app. Qed.
Lemma own_kept k k' e l :
  props_kept k k' → (∀ p, p ∈ l → is_Some (ks_props k !! p)) → own k' e l = own k e l.
Proof.
  intros P. unfold own. induction l as [|p l IH]; intros Hl; [done|].
  destruct (Hl p) as [x Hx]; [by left|]. rewrite !filter_cons, Hx, (P p x Hx).
  rewrite IH; [done|]. intros q Hq. apply Hl. by right.
Qed.
Lemma own_other k e l :
  (∀ p, p ∈ l → ∃ x m, ks_props k !! p = Some x ∧ pr_menu x = Some m ∧ m ≠ e) → own k e l = [].
Proof.
  unfold own. induction l as [|p l IH]; intros Hl; [done|].
  destruct (Hl p) as (x & m & Hx & Hm & Ne); [by left|]. rewrite filter_cons, Hx. simpl. rewrite Hm.
  rewrite decide_False by congruence. apply IH. intros q Hq. apply Hl. by right.
Qed.

(** The effect of a whole statement on what was there before. *)
Record grows (k k' : kstate) : Prop := {
  gr_sym : ∀ s y, ks_syms k !! s = Some y → ∃ y' l, ks_syms k' !! s = Some y' ∧ ident y' = ident y ∧
    (is_choice y = true → is_choice y' = true) ∧ sy_prop y' = sy_prop y ++ l ∧
    ∀ p, p ∈ l → ∃ x m, ks_props k' !! p = Some x ∧ pr_menu x = Some m ∧ ks_new_menu k ≤ m;
  gr_prop : props_kept k k';
  gr_menu : ∀ m x, ks_menus k !! m = Some x → ∃ x', ks_menus k' !! m = Some x' ∧ mbody x' = mbody x;
  gr_new : ks_new_menu k ≤ ks_new_menu k';
  gr_entries : keeps_entries k k';
}.

Lemma grows_refl k : grows k k.
Proof.
  split; [|by intros ? ?|by eauto|lia|by intros ? ? ?]. intros s y H. exists y, []. rewrite app_nil_r. split_and!; try done.
  intros p Hp. by apply elem_of_nil in Hp.
Qed.
Lemma grows_trans k1 k2 k3 : grows k1 k2 → grows k2 k3 → grows k1 k3.
Proof.
  intros [A1 B1 C1 D1 E1] [A2 B2 C2 D2 E2]. split.
  - intros s y H. destruct (A1 s y H) as (y1 & l1 & H1 & I1 & Ch1 & P1 & L1).
    destruct (A2 s y1 H1) as (y2 & l2 & H2 & I2 & Ch2 & P2 & L2). exists y2, (l1 ++ l2).
    split_and!; [done|congruence|auto|by rewrite P2, P1, app_assoc|].
    intros p [Hp|Hp]%elem_of_app.
    + destruct (L1 p Hp) as (x & m & Hx & Hm & ?). exists x, m. auto.
    + destruct (L2 p Hp) as (x & m & Hx & Hm & ?). exists x, m. split_and!; [done..|lia].
  - intros p x H. auto.
  - intros m x H. destruct (C1 m x H) as (x1 & H1 & S1), (C2 m x1 H1) as (x2 & H2 & S2). exists x2. split; congruence.
  - lia.
  - intros n c s H. by apply E2, E1.
Qed.

Lemma grows_says k k' e h : binv k → grows k k' → says k e h → says k' e h.
Proof.
  intros B G S. assert (He : e < ks_new_menu k).
  { destruct S as (x & l & H & _). apply (bi_menus k B). eauto. }
  apply (says_mono k); [apply G| |apply G|apply G|done].
  intros s y H. destruct (gr_sym _ _ G s y H) as (y' & l & H' & Id & Ch & P & L). exists y'. split_and!; [done..|].
  rewrite P, own_app, (own_other k' e l), app_nil_r.
  - apply own_kept; [apply G|]. intros p. by apply (mi_props k (bi_minv k B) s y).
  - intros p Hp. destruct (L p Hp) as (x & m & Hx & Hm & ?). exists x, m. split_and!; [done..|lia].
Qed.

(** ** An entry under construction *)

Definition ptrs (x : menu) : option mid * option mid := (mn_list x, mn_next x).

(** The pointers of the entries of [k]: in [k'] the entry [e] hangs at the
    place where [k] had its [last_entry_ptr]. *)
Definition hung (e : mid) (k k' : kstate) : Prop := ∀ m x, ks_menus k !! m = Some x →
  ∃ x', ks_menus k' !! m = Some x' ∧
    ptrs x' = ptrs (if decide (m = (ks_last_entry k).1) then slot_set (ks_last_entry k).2 e x else x).

(** The entry was made in [k0] and has got the options in [h] so far. *)
Record building (k0 k : kstate) (h : head) : Prop := {
  bu_start : binv k0;
  bu_inv : binv k;
  bu_grows : grows k0 k;
  bu_entry : ks_current_entry k = ks_new_menu k0;
  bu_new : ks_new_menu k = S (ks_new_menu k0);
  bu_cur : ks_current_menu k = ks_current_menu k0;
  bu_last : ks_last_entry k = (ks_new_menu k0, false);
  bu_ptrs : ptrs <$> ks_menus k !! ks_new_menu k0 = Some (None, None);
  bu_hung : hung (ks_new_menu k0) k0 k;
  bu_says : says k (ks_new_menu k0) h;
}.

Lemma building_menu k0 k h : building k0 k h → ∃ x, ks_menus k !! ks_current_entry k = Some x.
Proof. intros B. rewrite (bu_entry _ _ _ B). destruct (bu_says _ _ _ B) as (x & l & H & _). eauto. Qed.

(** A step that changes the entry and adds to the rest. *)
Lemma building_step k0 k k' h h' x x' :
  building k0 k h → binv k' → grows k0 k' → says k' (ks_new_menu k0) h' →
  ks_menus k !! ks_new_menu k0 = Some x → ks_menus k' = <[ks_new_menu k0 := x']> (ks_menus k) → ptrs x' = ptrs x →
  ks_new_menu k' = ks_new_menu k →
  ks_current_entry k' = ks_current_entry k ∧ ks_current_menu k' = ks_current_menu k ∧
    ks_last_entry k' = ks_last_entry k → building k0 k' h'.
Proof.
  intros [B0 B G En Nw Cu La Pt Hu Sa] B' G' Sa' Hx Em Ep En' (Ec1 & Ec2 & Ec3). split; [done|done|done|congruence..| | |done].
  - rewrite Em, lookup_insert_eq. rewrite Hx in Pt. simpl in *. congruence.
  - intros m y Hy. destruct (Hu m y Hy) as (y' & Hy' & E). exists y'. split; [|done].
    rewrite Em, lookup_insert_ne; [done|]. pose proof (bi_menus k0 B0 m (ex_intro _ y Hy)). lia.
Qed.

Lemma quiet_props_kept k k' : quiet k k' → props_kept k k'.
Proof. intros Q p x. by rewrite (qu_props _ _ Q). Qed.
Lemma quiet_own k k' e l : quiet k k' → own k' e l = own k e l.
Proof. intros Q. unfold own. by rewrite (qu_props _ _ Q). Qed.

Lemma grows_quiet k0 k k' : grows k0 k → quiet k k' → grows k0 k'.
Proof.
  intros [A B C D E] Q. split.
  - intros s y H. destruct (A s y H) as (y1 & l & H1 & I1 & C1 & P1 & L1).
    destruct (qu_syms _ _ Q s y1 H1) as (y2 & H2 & I2 & C2 & P2). exists y2, l.
    split_and!; [done|congruence|rewrite C2; auto|congruence|]. by rewrite (qu_props _ _ Q).
  - intros p x H. rewrite (qu_props _ _ Q). auto.
  - by rewrite (qu_menus _ _ Q).
  - by rewrite (proj2 (qu_new _ _ Q)).
  - intros n c s H. by apply (qu_entries _ _ Q), E.
Qed.

Lemma says_quiet k k' e h : quiet k k' → says k e h → says k' e h.
Proof.
  intros Q. apply says_mono; [rewrite (qu_menus _ _ Q); by eauto| |by apply quiet_props_kept|apply Q].
  intros s y H. destruct (qu_syms _ _ Q s y H) as (y' & H' & I' & C' & P'). exists y'.
  split_and!; [done..|by rewrite C'|by rewrite P', (quiet_own k)].
Qed.

Lemma building_quiet k0 k k' h : building k0 k h → binv k' → quiet k k' → building k0 k' h.
Proof.
  intros B B' Q. destruct (building_menu _ _ _ B) as [x Hx]. rewrite (bu_entry _ _ _ B) in Hx.
  eapply (building_step k0 k k' h h x x); try done.
  - eapply grows_quiet; [apply B|done].
  - eapply says_quiet; [done|apply B].
  - by rewrite (qu_menus _ _ Q), insert_id.
  - apply Q.
  - apply Q.
Qed.

Lemma deps_say_add k ds d o e :
  deps_say k ds o → denotes k d e → deps_say k (ds ++ [d]) (expr_alloc_and o (Some e)).
Proof.
  intros (es & F & ->) H. exists (es ++ [e]). split; [apply Forall2_app; [done|by constructor]|]. by rewrite fold_left_app.
Qed.

Lemma hd_add_nil h : hd_add [] [] h = h.
Proof. destruct h. unfold hd_add. simpl. by rewrite !app_nil_r. Qed.

Lemma building_dep k0 k h d e :
  building k0 k h → denotes k d e → good k (Some e) →
  yields (menu_add_dep (Some e)) k (λ _ k', building k0 k' (hd_add [] [d] h)).
Proof.
  intros B D G. destruct (building_menu _ _ _ B) as [x Hx].
  eapply yields_mono; [by apply (yields_add_dep k x e); [apply B|..]|]. intros [] k' [B' ->].
  rewrite (bu_entry _ _ _ B) in *. set (k' := ks_set_menus _ k) in *. pose proof (bu_start _ _ _ B) as B0.
  assert (K : keeps_entries k k') by (by intros ? ? ?). assert (Pk : props_kept k k') by (by intros ? ?).
  eapply (building_step k0 k k'); try done.
  - destruct (bu_grows _ _ _ B) as [A1 A2 A3 A4 A5]. split; try done. intros m y Hy.
    destruct (A3 m y Hy) as (y' & Hy' & E). exists y'. split; [|done]. simpl. rewrite lookup_insert_ne; [done|].
    pose proof (bi_menus k0 B0 m (ex_intro _ y Hy)). lia.
  - destruct (bu_says _ _ _ B) as (x0 & l & H & Hp & Hd & Hl & Nd & Ho & Hs). assert (x0 = x) as -> by congruence.
    exists (mn_set_dep (expr_alloc_and (mn_dep x) (Some e)) x), l. simpl. rewrite lookup_insert_eq, app_nil_r.
    split_and!; try done; [|..].
    + eapply (deps_say_mono k); [done|]. by apply deps_say_add.
    + by eapply (props_say_mono k).
Qed.

(** *** A new property *)

Lemma last_prompt_app sps l sp p o :
  length sps = length l → last_prompt (sps ++ [sp]) (l ++ [p]) o = if has_text sp then Some p else last_prompt sps l o.
Proof.
  revert l o. induction sps as [|sp0 sps IH]; intros [|p0 l] o E; simplify_eq/=; [done|]. by rewrite IH.
Qed.

Lemma added_props_kept e x x' X k k' : minv k → added e x x' X k k' → props_kept k k'.
Proof.
  intros I A p q H. rewrite (ad_props _ _ _ _ _ _ A), lookup_insert_ne; [done|]. intros <-.
  pose proof (mi_new k I _ (ex_intro _ q H)). lia.
Qed.

Lemma grows_added o1 o2 k0 k k' x x' X :
  binv_at o1 k0 → binv_at o2 k → grows k0 k → added (ks_new_menu k0) x x' X k k' → pr_menu X = Some (ks_new_menu k0) → grows k0 k'.
Proof.
  intros B0 B [A1 A2 A3 A4 A5] Ad Mx. pose proof (added_props_kept _ _ _ _ _ _ (bi_minv k B) Ad) as Pk. split.
  - intros s y H. destruct (A1 s y H) as (y1 & l & H1 & I1 & C1 & P1 & L1).
    destruct (ad_sym _ _ _ _ _ _ Ad s y1 H1) as (y2 & H2 & I2 & C2 & P2).
    exists y2, (l ++ if decide (mn_sym x = Some s) then [ks_new_prop k] else []).
    split_and!; [done|congruence|rewrite C2; auto|by rewrite P2, P1, app_assoc|].
    intros p [Hp|Hp]%elem_of_app.
    + destruct (L1 p Hp) as (z & m & Hz & Hm & ?). exists z, m. split_and!; [by apply Pk|done..].
    + case_decide; [apply list_elem_of_singleton in Hp as ->|by apply elem_of_nil in Hp].
      exists X, (ks_new_menu k0). rewrite (ad_props _ _ _ _ _ _ Ad), lookup_insert_eq. done.
  - intros p z H. by apply Pk, A2.
  - intros m z H. destruct (A3 m z H) as (z' & H' & E). exists z'. split; [|done].
    rewrite (ad_menus _ _ _ _ _ _ Ad), lookup_insert_ne; [done|]. pose proof (bi_menus k0 B0 m (ex_intro _ z H)). lia.
  - by rewrite (proj2 (ad_new _ _ _ _ _ _ Ad)).
  - intros n c s H. by apply (ad_entries _ _ _ _ _ _ Ad), A5.
Qed.

Lemma own_added e x x' X k k' s y y' :
  minv k → added e x x' X k k' → pr_menu X = Some e → ks_syms k !! s = Some y → ks_syms k' !! s = Some y' →
  mn_sym x = Some s → own k' e (sy_prop y') = own k e (sy_prop y) ++ [ks_new_prop k].
Proof.
  intros I A Mx H H' Es. destruct (ad_sym _ _ _ _ _ _ A s y H) as (z & Hz & _ & _ & P).
  assert (z = y') as -> by congruence. rewrite P, decide_True, own_app by done. f_equal.
  - apply own_kept; [by eapply added_props_kept|]. intros p. by apply (mi_props k I s y).
  - unfold own. rewrite filter_cons, (ad_props _ _ _ _ _ _ A), lookup_insert_eq. simpl. by rewrite Mx, decide_True.
Qed.

Lemma building_prop k0 k h type prompt ex dep f c :
  building k0 k h → fdenotes k f ex → odenotes k c dep →
  (∀ x, prop_ok k (Property (mn_sym x) type prompt dep No ex (Some (ks_current_entry k)))) →
  (is_Some prompt → type ≠ P_SELECT ∧ type ≠ P_DESELECT) →
  yields (menu_add_prop type prompt ex dep) k (λ _ k', building k0 k' (hd_add [PSpec type prompt f c] [] h)).
Proof.
  intros B F O Px Ht. destruct (building_menu _ _ _ B) as [x Hx].
  eapply yields_mono; [by apply (yields_add_prop type prompt ex dep k x); [apply B|..]|]. intros p k' (-> & B' & A).
  rewrite (bu_entry _ _ _ B) in *. set (X := Property _ _ _ _ _ _ _) in *. set (sp := PSpec type prompt f c).
  pose proof (bu_start _ _ _ B) as B0. pose proof (bu_inv _ _ _ B) as Bk. pose proof (bi_minv k Bk) as I.
  pose proof (added_props_kept _ _ _ _ _ _ I A) as Pk. pose proof (ad_entries _ _ _ _ _ _ A) as Ke.
  eapply (building_step k0 k k' h _ x); [done|done| | |done|apply A|by destruct prompt|apply A|apply A].
  - eapply grows_added; [done|done|apply B|done..].
  - destruct (bu_says _ _ _ B) as (x0 & l & H & Hp & Hd & Hl & Nd & Ho & Hs). assert (x0 = x) as -> by congruence.
    assert (Ex : ∀ q, q ∈ l → is_Some (ks_props k !! q)).
    { intros q Hq. apply list_elem_of_lookup in Hq as [i Hi]. destruct (Forall2_lookup_r _ _ _ _ _ Hl Hi) as (? & _ & z & Hz & _). eauto. }
    exists (with_prompt prompt (ks_new_prop k) x), (l ++ [ks_new_prop k]).
    rewrite (ad_menus _ _ _ _ _ _ A), lookup_insert_eq. simpl. rewrite app_nil_r. split_and!.
    + done.
    + by destruct prompt.
    + apply (deps_say_mono k); [done|]. by destruct prompt.
    + apply Forall2_app; [by apply (props_say_mono k)|]. constructor; [|constructor]. exists X.
      rewrite (ad_props _ _ _ _ _ _ A), lookup_insert_eq. split_and!; [done..|by apply (fdenotes_mono k)|by apply (odenotes_mono k)].
    + apply NoDup_app. split_and!; [done| |apply NoDup_singleton]. intros q Hq ->%list_elem_of_singleton.
      pose proof (mi_new k I _ (Ex _ Hq)). lia.
    + rewrite last_prompt_app by (by eapply Forall2_length). unfold has_text, sp. simpl. by destruct prompt.
    + assert (Es : mn_sym (with_prompt prompt (ks_new_prop k) x) = mn_sym x) by (by destruct prompt). rewrite Es.
      destruct (hd_sym h) as [n| |]; simpl in *; [| |done].
      * destruct Hs as (s & y & Ex' & En & Hy & ->). destruct (ad_sym _ _ _ _ _ _ A s y Hy) as (y' & Hy' & _).
        exists s, y'. split_and!; [done|by apply Ke|done|]. symmetry. by eapply own_added.
      * destruct Hs as (s & y & Ex' & Hy & Nm & Ch & ->). destruct (ad_sym _ _ _ _ _ _ A s y Hy) as (y' & Hy' & [N' _]%ident_inv & C' & _).
        exists s, y'. split_and!; [done|done|congruence|congruence|]. symmetry. by eapply own_added.
Qed.
