(* ===== verification/KParseOpts.v ===== *)
(** * The actions for the options of an entry

    Expressions, prompts, dependencies and the other options: each action
    ends without a crash and adds what the option says to the entry under
    construction. *)
From S2P Require Import Prelude CLib KData KExpr KExprFacts KExprSyms.
From S2P Require Import KState KSymbol KSymFrame KSymRef KSymTab KMenu KMenuInv KParse KParseInv KParseTree.
Open Scope pr30_scope.

(** ** Expressions *)

Lemma entry_some k n c s : binv k → entry k n c s → sym_some k s.
Proof. intros B E. destruct (entry_named k n c s (bi_consts k B) E) as (y & H & _). by exists y. Qed.

Lemma denotes_good k p e : binv k → denotes k p e → good k (Some e).
Proof.
  intros B. revert e. induction p as [w|a b|a b|p IH|p IH|p IHp q IHq|p IHp q IHq]; simpl; intros e; unfold wdenotes.
  - intros (s & -> & E). split; [done|]. by eapply entry_some.
  - intros (s & t & -> & E1 & E2). split; [done|]. split; by eapply entry_some.
  - intros (s & t & -> & E1 & E2). split; [done|]. split; by eapply entry_some.
  - apply IH.
  - intros (x & -> & [W O]%IH). done.
  - intros (x & y & -> & [W1 O1]%IHp & [W2 O2]%IHq). split; [|done]. unfold wf_null in *. simpl in *. by rewrite W1, W2.
  - intros (x & y & -> & [W1 O1]%IHp & [W2 O2]%IHq). split; [|done]. unfold wf_null in *. simpl in *. by rewrite W1, W2.
Qed.
Lemma odenotes_good k c o : binv k → odenotes k c o → good k o.
Proof. intros B. destruct c as [p|], o as [e|]; simpl; [by apply denotes_good|done..]. Qed.

(** A run that makes symbols only. *)
Definition reads {A} (m : K A) (k : kstate) (Q : A → kstate → Prop) : Prop :=
  yields m k (λ a k', binv k' ∧ quiet k k' ∧ Q a k').

Lemma reads_ret {A} (a : A) k (Q : A → kstate → Prop) : binv k → Q a k → reads (mreturn a) k Q.
Proof. intros. apply yields_ret. split_and!; [done|apply quiet_refl|done]. Qed.
Lemma reads_bind {A B} (m : K A) (f : A → K B) k R Q :
  reads m k R → (∀ a k', binv k' → quiet k k' → R a k' → reads (f a) k' Q) → reads (mthen m f) k Q.
Proof.
  intros Hm Hf. eapply yields_bind; [exact Hm|]. intros a k1 (B1 & Q1 & R1).
  eapply yields_mono; [by apply Hf|]. intros b k2 (B2 & Q2 & R2). split_and!; [done|by eapply quiet_trans|done].
Qed.

Lemma reads_symbol w k : binv k → reads (run_symbol w) k (λ s k', wdenotes k' w s).
Proof. intros B. eapply yields_mono; [by apply yields_lookup|]. by intros s k' (? & ? & ? & _). Qed.
Lemma wdenotes_mono k k' w s : quiet k k' → wdenotes k w s → wdenotes k' w s.
Proof. intros Q. apply (qu_entries _ _ Q). Qed.

Lemma reads_expr p k : binv k → reads (run_expr p) k (λ e k', denotes k' p e).
Proof.
  assert (Dm : ∀ k k' p e, quiet k k' → denotes k p e → denotes k' p e).
  { intros k1 k2 q e Q. apply denotes_mono, Q. }
  revert k. induction p as [w|a b|a b|p IH|p IH|p IHp q IHq|p IHp q IHq]; intros k B; simpl.
  - eapply reads_bind; [by apply reads_symbol|]. intros s k1 B1 _ D. apply reads_ret; [done|]. eauto.
  - eapply reads_bind; [by apply reads_symbol|]. intros s k1 B1 _ D1.
    eapply reads_bind; [by apply reads_symbol|]. intros t k2 B2 Q2 D2. apply reads_ret; [done|].
    exists s, t. eauto using wdenotes_mono.
  - eapply reads_bind; [by apply reads_symbol|]. intros s k1 B1 _ D1.
    eapply reads_bind; [by apply reads_symbol|]. intros t k2 B2 Q2 D2. apply reads_ret; [done|].
    exists s, t. eauto using wdenotes_mono.
  - by apply IH.
  - eapply reads_bind; [by apply IH|]. intros x k1 B1 _ D. apply reads_ret; [done|]. eauto.
  - eapply reads_bind; [by apply IHp|]. intros x k1 B1 _ D1. eapply reads_bind; [by apply IHq|].
    intros y k2 B2 Q2 D2. apply reads_ret; [done|]. exists x, y. eauto.
  - eapply reads_bind; [by apply IHp|]. intros x k1 B1 _ D1. eapply reads_bind; [by apply IHq|].
    intros y k2 B2 Q2 D2. apply reads_ret; [done|]. exists x, y. eauto.
Qed.

Lemma reads_if c k : binv k → reads (run_if_expr c) k (λ o k', odenotes k' c o).
Proof.
  intros B. destruct c as [p|]; [|by apply reads_ret]. simpl. eapply reads_bind; [by apply reads_expr|].
  intros e k1 B1 _ D. by apply reads_ret.
Qed.

(** ** Steps of the store *)

(** Symbols are made, then a step on the entry follows. *)
Lemma building_reads {A B} (m : K A) (f : A → K B) k0 k h R Q :
  building k0 k h → reads m k R →
  (∀ a k', building k0 k' h → R a k' → yields (f a) k' Q) → yields (mthen m f) k Q.
Proof.
  intros Bu Hm Hf. eapply yields_bind; [exact Hm|]. intros a k' (B' & Q' & R'). apply Hf; [|done].
  by eapply building_quiet.
Qed.

(** The properties of each kind are well-formed. *)
Lemma prop_ok_plain k type prompt ex dep m x :
  good k dep → over_null (sym_some k) ex → is_Some (ks_menus k !! m) →
  match type with
  | P_DEFAULT => ∃ e, ex = Some e ∧ wf_expr e = true
  | P_SELECT | P_DESELECT => ∃ t, ex = Some (Esymbol t) ∧ sym_some k t
  | P_RANGE => ∃ l r, ex = Some (Erange l r) ∧ ∀ t, t = l ∨ t = r → ∃ y, ks_syms k !! t = Some y ∧ is_Some (sy_name y)
  | _ => True
  end → prop_ok k (Property (mn_sym x) type prompt dep No ex (Some m)).
Proof. intros G O Hm Ht. split_and!; [done..| |done]. by intros m' [= <-]. Qed.

Lemma building_entry k0 k h : building k0 k h → is_Some (ks_menus k !! ks_current_entry k).
Proof. intros B. destruct (building_menu _ _ _ B) as [x Hx]. by exists x. Qed.

Lemma building_prompt k0 k h type text c dep :
  building k0 k h → odenotes k c dep → type = P_PROMPT ∨ type = P_MENU ∨ type = P_COMMENT →
  yields (menu_add_prompt type (Some text) dep) k
    (λ _ k', building k0 k' (hd_add [PSpec type (Some text) FNone c] [] h)).
Proof.
  intros Bu D Ht. pose proof (bu_inv _ _ _ Bu) as B. apply building_prop; try done.
  - intros x. apply prop_ok_plain; [by eapply odenotes_good|done|by eapply building_entry|].
    by destruct Ht as [->|[-> | ->]].
  - intros _. by destruct Ht as [->|[-> | ->]].
Qed.

Lemma building_prompt_opt k0 k h p :
  building k0 k h → yields (run_prompt_opt p) k (λ _ k', building k0 k' (hd_add (prompt_spec p) [] h)).
Proof.
  intros Bu. destruct p as [[text c]|]; simpl; [|apply yields_ret; by rewrite hd_add_nil].
  eapply building_reads; [done|by apply reads_if, Bu|]. intros dep k1 Bu1 D.
  eapply yields_bind; [apply (building_prompt k0 k1 h P_PROMPT text c dep); auto|]. intros ? k2 Bu2. by apply yields_ret.
Qed.

Lemma building_depends k0 k h p :
  building k0 k h → yields (run_depends p) k (λ _ k', building k0 k' (hd_add [] [p] h)).
Proof.
  intros Bu. eapply building_reads; [done|by apply reads_expr, Bu|]. intros e k1 Bu1 D.
  apply building_dep; [done..|]. apply (denotes_good k1 p e); [apply (bu_inv _ _ _ Bu1)|done].
Qed.

Definition has_sym (h : head) : Prop := hd_sym h ≠ HNone.

Lemma building_sym k0 k h : building k0 k h → has_sym h →
  ∃ x s, ks_menus k !! ks_current_entry k = Some x ∧ mn_sym x = Some s.
Proof.
  intros Bu Hh. rewrite (bu_entry _ _ _ Bu). destruct (bu_says _ _ _ Bu) as (x & l & H & _ & _ & _ & _ & _ & Hs).
  exists x. unfold has_sym in Hh. destruct (hd_sym h); [| |done].
  - destruct Hs as (s & y & E & _). eauto.
  - destruct Hs as (s & y & E & _). eauto.
Qed.

Lemma building_type k0 k h t :
  building k0 k h → has_sym h → yields (menu_set_type t) k (λ _ k', building k0 k' h).
Proof.
  intros Bu Hh. destruct (building_sym _ _ _ Bu Hh) as (x & s & Hx & Hs).
  eapply yields_mono; [apply (yields_set_type t k x s); [apply Bu|done..]|]. intros _ k' [B' Q']. by eapply building_quiet.
Qed.

Lemma building_expr k0 k h type ex dep f c :
  building k0 k h → fdenotes k f ex → odenotes k c dep → over_null (sym_some k) ex →
  match type with
  | P_DEFAULT => ∃ e, ex = Some e ∧ wf_expr e = true
  | P_SELECT | P_DESELECT => ∃ t, ex = Some (Esymbol t) ∧ sym_some k t
  | P_RANGE => ∃ l r, ex = Some (Erange l r) ∧ ∀ t, t = l ∨ t = r → ∃ y, ks_syms k !! t = Some y ∧ is_Some (sy_name y)
  | _ => True
  end →
  yields (menu_add_expr type ex dep) k (λ _ k', building k0 k' (hd_add [PSpec type None f c] [] h)).
Proof.
  intros Bu F O Ov Ht. apply (yields_bind _ _ _ (λ _ k', building k0 k' (hd_add [PSpec type None f c] [] h)));
    [|intros ? k' Bu'; by apply yields_ret].
  apply building_prop; [done..| |by intros [? ?]]. intros x.
  apply prop_ok_plain; [eapply odenotes_good; [apply Bu|done]|done|by eapply building_entry|done].
Qed.

Lemma building_symbol k0 k h type s dep n c :
  building k0 k h → entry k n false s → odenotes k c dep → type = P_SELECT ∨ type = P_DESELECT ∨ type = P_DEFAULT →
  yields (menu_add_symbol type s dep) k (λ _ k', building k0 k' (hd_add [PSpec type None (FSymbol n) c] [] h)).
Proof.
  intros Bu E O Ht. pose proof (entry_some k n false s (bu_inv _ _ _ Bu) E) as Hs.
  apply building_expr; [done|by exists s|done|done|]. destruct Ht as [->|[-> | ->]]; by eexists.
Qed.

(** ** Options *)

Definition pbuild (k0 : kstate) (n : nat) (h : head) (p : parser) : Prop :=
  building k0 (ps_k p) h ∧ ps_nerrs p = n.

Lemma yields_lift {A} (m : K A) p Q :
  yields m (ps_k p) Q → yields (lift m) p (λ a p', Q a (ps_k p') ∧ ps_nerrs p' = ps_nerrs p).
Proof.
  intros (a & k' & E & H). exists a, (ps_set_k k' p). split; [|done]. unfold lift. by rewrite E.
Qed.

(** A step of the store. *)
Lemma pbuild_lift {A} (m : K A) k0 n h h' p :
  pbuild k0 n h p → (building k0 (ps_k p) h → yields m (ps_k p) (λ _ k', building k0 k' h')) →
  yields (lift m) p (λ _ p', pbuild k0 n h' p').
Proof.
  intros [Bu <-] Hm. eapply yields_mono; [by apply yields_lift, Hm|]. intros a p' [Bu' En]. by split.
Qed.
(** Symbols are made first. *)
Lemma pbuild_reads {A B} (m : K A) (f : A → P B) k0 n h p R Q :
  pbuild k0 n h p → reads m (ps_k p) R →
  (∀ a p', pbuild k0 n h p' → quiet (ps_k p) (ps_k p') → R a (ps_k p') → yields (f a) p' Q) →
  yields (mthen (lift m) f) p Q.
Proof.
  intros [Bu <-] Hm Hf. eapply yields_bind; [by apply yields_lift|]. intros a p' [(B' & Q' & R') En]. apply Hf; [|done..].
  split; [|done]. by eapply building_quiet.
Qed.
Lemma pbuild_ret {A} (a : A) k0 n h h' p : pbuild k0 n h p → h' = h → yields (mreturn a) p (λ _ p', pbuild k0 n h' p').
Proof. intros H ->. by apply yields_ret. Qed.
Lemma pbuild_inv k0 n h p : pbuild k0 n h p → binv (ps_k p).
Proof. intros [Bu _]. apply (bu_inv _ _ _ Bu). Qed.

Lemma reads_name n k : binv k → reads (sym_lookup (Some n) false) k (λ s k', entry k' n false s).
Proof. intros B. eapply yields_mono; [by apply yields_lookup|]. by intros s k' (? & ? & ? & _). Qed.

Lemma help_ok text k0 n h p : pbuild k0 n h p → has_sym h → yields (run_help text) p (λ _ p', pbuild k0 n h p').
Proof.
  intros [Bu En] Hh. destruct (building_sym _ _ _ Bu Hh) as (x & s & Hx & Hs). unfold run_help. apply yields_gets. simpl.
  unfold yields, mthen, lift, get_menu. rewrite Hx. simpl. rewrite Hs. simpl. by exists (), (Parser (ps_k p) (ps_nerrs p) (<[s:=text]> (ps_help p)) (ps_out p)).
Qed.

Lemma prompt_ok text c k0 n h p :
  pbuild k0 n h p →
  yields (let! dep := lift (run_if_expr c) in
        do! lift (menu_add_prompt P_PROMPT (Some text) dep) in mreturn ()) p
    (λ _ p', pbuild k0 n (hd_add [PSpec P_PROMPT (Some text) FNone c] [] h) p').
Proof.
  intros Bu. eapply pbuild_reads; [done|by apply reads_if, (pbuild_inv _ _ _ _ Bu)|]. intros dep p1 Bu1 _ D.
  eapply yields_bind; [eapply pbuild_lift; [done|]; intros Bk; apply (building_prompt k0 _ h P_PROMPT text c dep); auto|].
  intros ? p2 Bu2. by apply yields_ret.
Qed.

Lemma select_ok type name c k0 n h p :
  pbuild k0 n h p → type = P_SELECT ∨ type = P_DESELECT →
  yields (let! dep := lift (run_if_expr c) in
        let! s := lift (sym_lookup (Some name) false) in
        lift (menu_add_symbol type s dep)) p
    (λ _ p', pbuild k0 n (hd_add [PSpec type None (FSymbol name) c] [] h) p').
Proof.
  intros Bu Ht. eapply pbuild_reads; [done|by apply reads_if, (pbuild_inv _ _ _ _ Bu)|]. intros dep p1 Bu1 _ D.
  eapply pbuild_reads; [done|by apply reads_name, (pbuild_inv _ _ _ _ Bu1)|]. intros s p2 Bu2 Q2 E.
  apply (odenotes_mono _ _ _ _ (qu_entries _ _ Q2)) in D.
  eapply pbuild_lift; [done|]. intros Bk. apply building_symbol; try done. tauto.
Qed.

Lemma default_ok stype e c k0 n h p :
  pbuild k0 n h p → has_sym h →
  yields (run_config_option (CDefault stype e c)) p
    (λ _ p', pbuild k0 n (hd_add [PSpec P_DEFAULT None (FExpr e) c] [] h) p').
Proof.
  intros Bu Hh. simpl. eapply pbuild_reads; [done|by apply reads_expr, (pbuild_inv _ _ _ _ Bu)|]. intros x p1 Bu1 _ D1.
  eapply pbuild_reads; [done|by apply (reads_if c), (pbuild_inv _ _ _ _ Bu1)|]. intros dep p2 Bu2 Q2 D2.
  apply (denotes_mono _ _ _ _ (qu_entries _ _ Q2)) in D1.
  pose proof (denotes_good _ _ _ (pbuild_inv _ _ _ _ Bu2) D1) as [W O].
  eapply yields_bind.
  { eapply pbuild_lift; [done|]. intros Bk. 
    apply (building_expr k0 _ h P_DEFAULT (Some x) dep (FExpr e) c); [done|by exists x|done|done|by exists x]. }
  intros ? p3 Bu3. case_decide; [|by apply yields_ret]. apply (pbuild_lift _ _ _ _ _ _ Bu3). intros Bk. by apply building_type.
Qed.

Lemma range_ok a b c k0 n h p :
  pbuild k0 n h p →
  yields (run_config_option (CRange a b c)) p
    (λ _ p', pbuild k0 n (hd_add [PSpec P_RANGE None (FRange a b) c] [] h) p').
Proof.
  intros Bu. simpl. eapply pbuild_reads; [done|by apply reads_symbol, (pbuild_inv _ _ _ _ Bu)|]. intros l p1 Bu1 _ D1.
  eapply pbuild_reads; [done|by apply (reads_symbol b), (pbuild_inv _ _ _ _ Bu1)|]. intros r p2 Bu2 Q2 D2.
  eapply pbuild_reads; [done|by apply (reads_if c), (pbuild_inv _ _ _ _ Bu2)|]. intros dep p3 Bu3 Q3 D3.
  apply (wdenotes_mono _ _ _ _ Q2), (wdenotes_mono _ _ _ _ Q3) in D1. apply (wdenotes_mono _ _ _ _ Q3) in D2.
  pose proof (pbuild_inv _ _ _ _ Bu3) as B3.
  eapply pbuild_lift; [done|]. intros Bk. apply building_expr; [done|by exists l, r|done|..].
  - split; by eapply entry_some.
  - exists l, r. split; [done|]. intros t [-> | ->]; (eapply entry_named; [apply B3|done]).
Qed.

Lemma config_option_ok o k0 n h p :
  pbuild k0 n h p → has_sym h →
  yields (run_config_option o) p (λ _ p', pbuild k0 n (hd_add (option_props o) (option_deps o) h) p').
Proof.
  intros Bu Hh. destruct o as [t q|text c|t e c|name c|name c|a b c|e|text|].
  - simpl. eapply yields_bind; [eapply pbuild_lift; [done|]; intros Bk; by apply building_prompt_opt|].
    intros ? p1 Bu1. apply (pbuild_lift _ _ _ _ _ _ Bu1). intros Bk. by apply building_type.
  - by apply prompt_ok.
  - by apply default_ok.
  - apply select_ok; auto.
  - apply select_ok; auto.
  - by apply range_ok.
  - simpl. eapply pbuild_lift; [done|]. by apply building_depends.
  - simpl. rewrite hd_add_nil. by apply help_ok.
  - eapply pbuild_ret; [done|]. apply hd_add_nil.
Qed.

(** The errors an option of a choice causes. *)
Definition choice_errs (o : choice_option) : nat :=
  match o with
  | ChType t _ => if decide (t = S_BOOLEAN ∨ t = S_TRISTATE) then 0 else 1
  | ChDefault t _ _ => if decide (t = S_UNKNOWN) then 0 else 1
  | _ => 0
  end.

Lemma yyerror_ok k0 n h p : pbuild k0 n h p → yields yyerror p (λ _ p', pbuild k0 (S n) h p').
Proof. intros [Bu <-]. by eexists (), _. Qed.

Lemma choice_option_ok o k0 n h p :
  pbuild k0 n h p → has_sym h →
  yields (run_choice_option o) p
    (λ _ p', pbuild k0 (n + choice_errs o) (hd_add (choice_props o) (choice_deps o) h) p').
Proof.
  intros Bu Hh. destruct o as [text c|t q| |c|t name c|e|text|]; simpl choice_errs; rewrite ?Nat.add_0_r.
  - by apply prompt_ok.
  - simpl. eapply yields_bind; [eapply pbuild_lift; [done|]; intros Bk; by apply building_prompt_opt|].
    intros ? p1 Bu1. case_decide; [rewrite Nat.add_0_r|rewrite Nat.add_1_r; by apply yyerror_ok].
    apply (pbuild_lift _ _ _ _ _ _ Bu1). intros Bk. by apply building_type.
  - simpl. rewrite hd_add_nil. destruct Bu as [Bu En]. destruct (building_sym _ _ _ Bu Hh) as (x & s & Hx & Hs).
    apply yields_gets. simpl. unfold yields, mthen at 1, lift at 1, get_menu. rewrite Hx. simpl. unfold mthen at 1. rewrite Hs. simpl.
    destruct (mi_sym _ (bi_minv _ (bu_inv _ _ _ Bu)) _ x s Hx Hs) as (y & Hy & _).
    destruct p as [k ne he out]. simpl in *. apply (pbuild_lift _ k0 n h h (Parser k ne he out)); [done|]. intros _.
    eapply yields_mono; [apply (yields_or_flags s SYMBOL_OPTIONAL k y); [apply Bu|done..]|]. intros _ k' [B' Q'].
    by eapply building_quiet.
  - simpl. eapply pbuild_reads; [done|by apply reads_if, (pbuild_inv _ _ _ _ Bu)|]. intros dep p1 Bu1 _ D.
    eapply yields_bind;
      [apply (pbuild_lift _ k0 n h (hd_add [PSpec P_RESET None FNone c] [] h) _ Bu1); intros Bk|intros ? p2 Bu2; by apply yields_ret].
    apply (building_prop k0 _ h P_RESET None None dep FNone c); [done..| |by intros [? ?]]. intros x.
    apply prop_ok_plain; [apply (odenotes_good _ c); [apply Bk|done]|done|by eapply building_entry|done].
  - simpl. eapply pbuild_reads; [done|by apply reads_if, (pbuild_inv _ _ _ _ Bu)|]. intros dep p1 Bu1 _ D.
    case_decide; [rewrite Nat.add_0_r|rewrite Nat.add_1_r, hd_add_nil; by apply yyerror_ok].
    eapply pbuild_reads; [done|by apply reads_name, (pbuild_inv _ _ _ _ Bu1)|]. intros s p2 Bu2 Q2 E.
    apply (odenotes_mono _ _ _ _ (qu_entries _ _ Q2)) in D.
    eapply pbuild_lift; [done|]. intros Bk. apply building_symbol; try done. tauto.
  - simpl. eapply pbuild_lift; [done|]. by apply building_depends.
  - simpl. rewrite hd_add_nil. by apply help_ok.
  - eapply pbuild_ret; [done|]. apply hd_add_nil.
Qed.
