(* ===== verification/KParseEntry.v ===== *)
(** * The actions that make an entry

    [config], [menuconfig], [choice], [menu], [if] and [comment]: a new entry
    hangs behind the last one and is under construction. *)
From S2P Require Import Prelude CLib KData KExpr KExprFacts KExprSyms.
From S2P Require Import KState KSymbol KSymFrame KSymRef KSymTab KMenu KMenuInv KParse KParseInv KParseTree KParseOpts.
Open Scope pr30_scope.

(** ** The new entry *)

Lemma own_fresh k e l : binv k → ks_new_menu k ≤ e → (∀ p, p ∈ l → is_Some (ks_props k !! p)) → own k e l = [].
Proof.
  intros B He Hl. unfold own. induction l as [|p l IH]; [done|]. destruct (Hl p) as [x Hx]; [by left|].
  rewrite filter_cons, Hx. simpl. rewrite decide_False; [apply IH; intros q Hq; apply Hl; by right|].
  intros E. destruct (mi_prop k (bi_minv k B) p x Hx) as (_ & _ & M & _).
  pose proof (bi_menus k B e (M e E)). lia.
Qed.

(** What [menu_add_entry] is given for each kind of entry. *)
Definition entry_sym (k : kstate) (hs : head_sym) (o : option sid) : Prop :=
  match hs with
  | HNone => o = None
  | HConfig n => ∃ s, o = Some s ∧ entry k n false s
  | HChoice => ∃ s y, o = Some s ∧ ks_syms k !! s = Some y ∧ sy_name y = None ∧ is_choice y = true
  end.

Lemma entry_store_grows n o xl k :
  binv_at n k → ks_menus k !! (ks_last_entry k).1 = Some xl → grows k (entry_store o xl k).
Proof.
  intros B Hl. split; [|by intros ? ?| |simpl; lia|by intros ? ? ?].
  - intros s y H. exists y, []. rewrite app_nil_r. split_and!; try done. intros p Hp. by apply elem_of_nil in Hp.
  - intros m x H. unfold entry_store. simpl. pose proof (bi_menus k B m (ex_intro _ x H)) as Lm.
    destruct (decide (m = (ks_last_entry k).1)) as [->|Hne].
    + rewrite lookup_insert_eq. eexists. split; [done|]. assert (x = xl) as -> by congruence.
      by destruct (ks_last_entry k) as [? []].
    + rewrite !lookup_insert_ne by lia. by exists x.
Qed.

Lemma entry_store_says hs o xl k c :
  binv k → ks_menus k !! (ks_last_entry k).1 = Some xl → ks_current_menu k = Some c → entry_sym k hs o →
  says (entry_store o xl k) (ks_new_menu k) (Head c hs [] []).
Proof.
  intros B Hl Hc Ho. pose proof (bi_menus k B _ (ex_intro _ xl Hl)) as Ll.
  assert (Hown : ∀ s y, ks_syms k !! s = Some y → own (entry_store o xl k) (ks_new_menu k) (sy_prop y) = []).
  { intros s y Hy. change (own (entry_store o xl k)) with (own k). apply own_fresh; [done|lia|].
    intros p. by apply (mi_props k (bi_minv k B) s y). }
  exists (Menu None (Some c) None o None None 0), []. unfold entry_store at 1. simpl. rewrite lookup_insert_ne by lia.
  rewrite lookup_insert_eq, Hc. split_and!; [done|done|by exists []|constructor|constructor|done|].
  destruct hs as [n| |]; simpl in *; [| |done].
  - destruct Ho as (s & -> & E). destruct (entry_some k n false s B E) as [y Hy]. exists s, y.
    split_and!; [done|done|done|]. by rewrite (Hown s y).
  - destruct Ho as (s & y & -> & Hy & N & C). exists s, y. split_and!; [done..|]. by rewrite (Hown s y).
Qed.

Lemma begin_building hs o k c :
  binv k → ks_current_menu k = Some c → entry_sym k hs o →
  (∀ s, o = Some s → ∃ y, ks_syms k !! s = Some y ∧ is_const y = false ∧ s ≠ symbol_empty) →
  yields (menu_add_entry o) k (λ _ k', building k k' (Head c hs [] [])).
Proof.
  intros B Hc Ho Hs. destruct (bi_last k B) as [xl Hl]. pose proof (bi_menus k B _ (ex_intro _ xl Hl)) as Ll.
  eapply yields_mono; [by apply (yields_add_entry None o k xl)|]. intros _ k' [B' ->]. split; try done.
  - by eapply entry_store_grows.
  - unfold entry_store. simpl. rewrite lookup_insert_ne, lookup_insert_eq by lia. done.
  - intros m x H. pose proof (bi_menus k B m (ex_intro _ x H)) as Lm. unfold entry_store. simpl. case_decide as E.
    + subst m. rewrite lookup_insert_eq. eexists. split; [done|]. by assert (x = xl) as -> by congruence.
    + rewrite !lookup_insert_ne by lia. by exists x.
  - by apply entry_store_says.
Qed.

(** Symbols made before the entry. *)
Lemma quiet_grows k k' : quiet k k' → grows k k'.
Proof. intros Q. eapply grows_quiet; [apply grows_refl|done]. Qed.

Lemma building_from k0 k k' h : binv k0 → quiet k0 k → building k k' h → building k0 k' h.
Proof.
  intros B0 Q [B B' G En Nw Cu La Pt Hu Sa]. destruct (qu_new _ _ Q) as [_ E1], (qu_current _ _ Q) as (_ & E2 & E3).
  rewrite E1 in *. split; [done|done| |done|done|congruence|done|done| |done].
  - eapply grows_trans; [by apply quiet_grows|done].
  - intros m x Hm. rewrite <-E3. apply Hu. by rewrite (qu_menus _ _ Q).
Qed.

(** A symbol for [config]. *)
Lemma entry_config k n s : binv k → reserved n = None → entry k n false s →
  ∃ y, ks_syms k !! s = Some y ∧ is_const y = false ∧ s ≠ symbol_empty.
Proof.
  intros B R E. unfold entry in E. rewrite R in E. destruct E as (Hs & y & d & H & _ & _ & C). exists y.
  split_and!; [done..|]. pose proof (bi_static k B s Hs). lia.
Qed.

Lemma quiet_current k k' c : quiet k k' → ks_current_menu k = Some c → ks_current_menu k' = Some c.
Proof. intros Q. by rewrite (proj1 (proj2 (qu_current _ _ Q))). Qed.

Lemma config_begin name k c :
  binv k → ks_current_menu k = Some c → reserved name = None →
  yields (config_entry_start name) k (λ _ k', building k k' (Head c (HConfig name) [] [])).
Proof.
  intros B Hc R. unfold config_entry_start. eapply yields_bind; [by apply reads_name|]. intros s k1 (B1 & Q1 & E1).
  destruct (entry_config k1 name s B1 R E1) as (y & Hy & Cy & Ny).
  eapply yields_bind; [by apply (yields_or_flags s SYMBOL_OPTIONAL k1 y)|]. intros ? k2 [B2 Q2].
  pose proof (qu_entries _ _ Q2 _ _ _ E1) as E2. pose proof (quiet_trans _ _ _ Q1 Q2) as Q.
  eapply yields_mono; [apply (begin_building (HConfig name) (Some s) k2 c); [done|by apply (quiet_current k)|by exists s|]|].
  - intros t [= <-]. by apply (entry_config k2 name).
  - intros ? k3 Bu. by eapply building_from.
Qed.

Lemma plain_begin k c :
  binv k → ks_current_menu k = Some c → yields (menu_add_entry None) k (λ _ k', building k k' (Head c HNone [] [])).
Proof. intros B Hc. by apply begin_building. Qed.

Lemma prompt_begin type text k c :
  binv k → ks_current_menu k = Some c → type = P_MENU ∨ type = P_COMMENT →
  yields (prompt_entry type text) k (λ _ k', building k k' (Head c HNone [PSpec type (Some text) FNone None] [])).
Proof.
  intros B Hc Ht. unfold prompt_entry. eapply yields_bind; [by apply plain_begin|]. intros ? k1 Bu.
  eapply yields_bind; [apply (building_prompt k k1 _ type text None None Bu); [done|tauto]|].
  intros ? k2 Bu2. by apply yields_ret.
Qed.

(** ** [choice] *)

(** A symbol with a list of choice values is marked as a choice. *)
Definition flagged (s : sid) (y : symbol) (k : kstate) : kstate :=
  ks_set_syms (<[s := sy_set_flags (set_flag (sy_flags y) SYMBOL_CHOICE) y]> (ks_syms k)) k.

Lemma flagged_table s y k : ks_syms k !! s = Some y → same_table k (flagged s y k).
Proof.
  intros H. split_and!; [done..|]. simpl. rewrite fmap_insert. apply insert_id. rewrite lookup_fmap, H. unfold ident. simpl.
  do 2 f_equal. unfold is_const. simpl. by rewrite has_flag_set, orb_false_r.
Qed.

Lemma flagged_binv s y k p x :
  binv_at (Some s) k → sy_name y = None → sym_entry k s → ks_syms k !! s = Some y → choice_prop k (sy_prop y) = Some p → ks_props k !! p = Some x →
  is_Some (choice_values (pr_expr x)) → binv (flagged s y k).
Proof.
  intros B Hn He H Hp Hx Hv. pose proof B as [I Ok Co St M E L N]. pose proof (flagged_table s y k H) as S.
  destruct (mi_rev k I s y H) as [Gr Gi].
  assert (I' : minv (flagged s y k)).
  { apply (put_sym_minv k s y); try done; simpl.
    - unfold is_const. simpl. by rewrite has_flag_set, orb_false_r.
    - unfold set_flag. rewrite Z.land_lor_distr_l. apply Z.lor_0_r.
    - intros _. unfold is_choice. simpl. by rewrite has_flag_set, orb_true_r.
    - unfold is_choice_value. simpl. rewrite has_flag_set, orb_false_r. by left.
    - intros q. by apply (mi_props k I s y).
    - intros _. eauto. }
  split; [done|by apply (hash_ok_same k)|by apply (consts_ok_same k)|by apply (static_same k)|done..|].
  intros t z. simpl. destruct (decide (t = s)) as [->|Hne].
  - rewrite lookup_insert_eq. intros [= <-]. split; [intros _; left|done].
    unfold is_choice. simpl. by rewrite has_flag_set, orb_true_r.
  - rewrite lookup_insert_ne by done. intros Hz. destruct (N t z Hz) as [A C]. split; [|exact C].
    intros Nz. destruct (A Nz) as [?|[= ?]]; [by left|congruence].
Qed.

Lemma grows_flagged k0 k s y : ks_syms k !! s = Some y → grows k0 k → grows k0 (flagged s y k).
Proof.
  intros H G. split; [|apply G..|].
  - intros t z Hz. destruct (gr_sym _ _ G t z Hz) as (z' & l & Hz' & Id & Ch & P & L). simpl.
    destruct (decide (t = s)) as [->|Hne].
    + assert (z' = y) as -> by congruence. rewrite lookup_insert_eq. eexists _, l. split; [done|].
      split_and!; [|intros _|done|done].
      * rewrite <-Id. unfold ident. simpl. f_equal. unfold is_const. simpl. by rewrite has_flag_set, orb_false_r.
      * unfold is_choice. simpl. by rewrite has_flag_set, orb_true_r.
    + rewrite lookup_insert_ne by done. eauto 10.
  - intros n c t E. apply (same_table_entries _ _ (flagged_table s y k H)), (gr_entries _ _ G n c t E).
Qed.

(** The store after the actions of [choice]: a new symbol, an entry for it,
    an empty list of values, and the mark. *)
Definition choice_store (xl : menu) (k : kstate) : kstate :=
  let s := ks_new_sym k in
  let k1 := entry_store (Some s) xl (with_symbol None false 256 k) in
  let X := Property (Some s) P_CHOICE None None No None (Some (ks_new_menu k)) in
  flagged s (sy_set_prop [ks_new_prop k] (fresh_symbol None false)) (prop_store (Some s) X k1).

Lemma choice_start_run k xl :
  ks_menus k !! (ks_last_entry k).1 = Some xl → (ks_last_entry k).1 < ks_new_menu k →
  choice_start k = Done ((), choice_store xl k).
Proof.
  intros Hl Lt. unfold choice_start. unfold sym_lookup. set (s := ks_new_sym k). set (y0 := fresh_symbol None false).
  rewrite (mthen_done _ _ _ _ _ (new_symbol_run None false 256 k)).
  set (k1 := with_symbol None false 256 k).
  assert (H1 : ks_syms k1 !! s = Some y0) by apply lookup_insert_eq.
  assert (E1 : or_flags s SYMBOL_CHOICE k1 = Done ((), flagged s y0 k1)).
  { unfold or_flags, upd_sym, mthen. by rewrite (run_get_sym _ _ _ H1). }
  rewrite (mthen_done _ _ _ _ _ E1).
  assert (E2 : menu_add_entry (Some s) (flagged s y0 k1) = Done ((), entry_store (Some s) xl (flagged s y0 k1))).
  { by apply add_entry_run. }
  rewrite (mthen_done _ _ _ _ _ E2). set (kA := entry_store (Some s) xl (flagged s y0 k1)).
  set (x := Menu None (ks_current_menu k) None (Some s) None None 0).
  assert (Hx : ks_menus kA !! ks_current_entry kA = Some x).
  { unfold kA, entry_store. simpl. rewrite lookup_insert_ne by lia. by rewrite lookup_insert_eq. }
  assert (Hs : ks_syms kA !! s = Some (sy_set_flags (set_flag (sy_flags y0) SYMBOL_CHOICE) y0)).
  { unfold kA. simpl. apply lookup_insert_eq. }
  unfold menu_add_expr, mthen at 1. rewrite (add_prop_run P_CHOICE None None None kA x Hx).
  2:{ intros t [= <-]. by rewrite Hs. }
  unfold mthen, mreturn. do 2 f_equal. unfold choice_store. fold s k1. unfold prop_store. cbn [mn_sym x]. rewrite Hs.
  assert (Hs1 : ks_syms (entry_store (Some s) xl k1) !! s = Some y0) by (simpl; apply lookup_insert_eq). rewrite Hs1.
  unfold flagged, sym_prop_store, new_prop_store, kA, entry_store, flagged, ks_set_syms, ks_set_props, ks_set_new_prop. simpl.
  by rewrite !insert_insert_eq.
Qed.

Lemma choice_begin k c :
  binv k → ks_current_menu k = Some c →
  yields choice_start k (λ _ k', building k k' (Head c HChoice [PSpec P_CHOICE None FNone None] [])).
Proof.
  intros B Hc. destruct (bi_last k B) as [xl Hl]. pose proof (bi_menus k B _ (ex_intro _ xl Hl)) as Ll.
  eapply yields_done; [by apply choice_start_run|]. unfold choice_store. cbv zeta.
  set (s := ks_new_sym k). set (e := ks_new_menu k). set (k1 := with_symbol None false 256 k).
  destruct (with_binv None false 256 k B) as [B1 Q1]; [|done|lia|].
  { by apply (new_symbol_ok None false 256 k (bi_hash k B)). }
  fold k1 in B1, Q1.
  assert (H1 : ks_syms k1 !! s = Some (fresh_symbol None false)) by apply lookup_insert_eq.
  destruct (yields_add_entry _ (Some s) k1 xl B1) as (a & kA & _ & BA & ->); [done| |].
  { intros t [= <-]. eexists. split_and!; [done..|]. pose proof (ho_start k (bi_hash k B)). unfold s. lia. }
  set (kA := entry_store (Some s) xl k1) in *. set (X := Property _ _ _ _ _ _ _).
  set (x := Menu None (Some c) None (Some s) None None 0).
  assert (Hx : ks_menus kA !! ks_current_entry kA = Some x).
  { unfold kA, entry_store. simpl. rewrite lookup_insert_ne by lia. rewrite lookup_insert_eq, Hc. done. }
  assert (Px : prop_ok kA X) by (apply (prop_ok_plain kA P_CHOICE None None None e x); try done; by eexists).
  assert (Hs : ∀ t, Some s = Some t → is_Some (ks_syms kA !! t)) by (intros t [= <-]; by eexists).
  pose proof (prop_store_binv _ (Some s) X kA BA Px Hs) as BB.
  pose proof (prop_store_added _ (Some s) X kA x BA Px Hs eq_refl Hx) as AB.
  set (kB := prop_store (Some s) X kA) in *. change (ks_current_entry kA) with e in AB, Hx.
  set (y1 := sy_set_prop [ks_new_prop k] (fresh_symbol None false)).
  assert (HB : ks_syms kB !! s = Some y1).
  { unfold kB, prop_store. change (ks_syms kA) with (ks_syms k1). rewrite H1. simpl. by rewrite lookup_insert_eq. }
  assert (HX : ks_props kB !! ks_new_prop k = Some X) by (rewrite (ad_props _ _ _ _ _ _ AB); apply lookup_insert_eq).
  assert (G1 : grows k1 kB).
  { apply (grows_added (Some s) (Some s) k1 kA kB x x X); [done|done|by eapply entry_store_grows|exact AB|done]. }
  destruct (ad_current _ _ _ _ _ _ AB) as (C1 & C2 & C3). pose proof (ad_menus _ _ _ _ _ _ AB) as MB.
  rewrite insert_id in MB by done.
  assert (HxB : ks_menus (flagged s y1 kB) !! ks_new_menu k = Some x) by (change (ks_menus kB !! e = Some x); by rewrite MB).
  split; [done| |apply grows_flagged; [done|eapply grows_trans; [by apply quiet_grows|done]]|done|apply (ad_new _ _ _ _ _ _ AB)|done|done| | |].
  - apply (flagged_binv s y1 kB (ks_new_prop k) X); [done|done|by exists e, x; rewrite MB|done| |done|by eexists]. simpl. by rewrite HX.
  - by rewrite HxB.
  - intros m z Hm. simpl. rewrite MB. pose proof (bi_menus k B m (ex_intro _ z Hm)) as Lm. unfold kA, entry_store. simpl.
    case_decide as E; [subst m; rewrite lookup_insert_eq|rewrite !lookup_insert_ne by lia; by exists z].
    eexists. split; [done|]. by assert (z = xl) as -> by (unfold k1 in Hm; simpl in Hm; congruence).
  - exists x, [ks_new_prop k]. split_and!; [exact HxB|done|by exists []| |apply NoDup_singleton|done|].
    + constructor; [|constructor]. exists X. simpl. by rewrite HX.
    + eexists s, _. split_and!; [done|apply lookup_insert_eq|done|done|]. unfold own. simpl.
      by rewrite filter_cons, HX, decide_True.
Qed.
