(* ===== verification/KParseMenu.v ===== *)
(** * [menuconfig]: the last prompt of the entry becomes a menu *)
From S2P Require Import Prelude CLib KData KExpr KExprFacts KExprSyms.
From S2P Require Import KState KSymbol KSymFrame KSymRef KSymTab KMenu KMenuInv KParse KParseInv KParseTree KParseOpts.
Open Scope pr30_scope.

Definition pr_to_menu (q : property) : property :=
  Property (pr_sym q) P_MENU (pr_text q) (pr_visible q) (pr_visible_tri q) (pr_expr q) (pr_menu q).
Definition menu_prop_store (p : pid) (x : property) (k : kstate) : kstate :=
  ks_set_props (<[p := pr_to_menu x]> (ks_props k)) k.

Section ToMenu.
Context (k : kstate) (p : pid) (x : property).
Context (B : binv k) (Hx : ks_props k !! p = Some x) (Ht : pr_type x = P_PROMPT).
Let k' := menu_prop_store p x k.

Lemma to_menu_lookup q : ks_props k' !! q = if decide (q = p) then Some (pr_to_menu x) else ks_props k !! q.
Proof. simpl. case_decide as E; [subst; apply lookup_insert_eq|by rewrite lookup_insert_ne]. Qed.

Lemma to_menu_choice l : choice_prop k' l = choice_prop k l.
Proof using Hx Ht.
  induction l as [|q l IH]; [done|]. simpl. destruct (decide (q = p)) as [->|Hne].
  - rewrite lookup_insert_eq, Hx. simpl. by rewrite Ht, !decide_False, IH by done.
  - by rewrite lookup_insert_ne, IH.
Qed.

Lemma to_menu_minv : minv k'.
Proof using B Hx Ht.
  pose proof (bi_minv k B) as I.
  assert (L : ∀ q z, ks_props k !! q = Some z → is_Some (ks_props k' !! q)).
  { intros q z Hz. rewrite to_menu_lookup. case_decide; by eexists. }
  split; try apply I.
  - intros s y q Hy Hq. destruct (mi_props k I s y q Hy Hq) as [z Hz]. by eapply L.
  - intros s y Hy Cy. destruct (mi_choice k I s y Hy Cy) as (q & z & Hq & Hz & Hv). rewrite to_menu_choice.
    assert (q ≠ p); [|exists q, z; by rewrite to_menu_lookup, decide_False].
    intros ->. pose proof (choice_prop_is k _ _ _ Hq Hx). congruence.
  - intros q z. rewrite to_menu_lookup. case_decide as E.
    + intros [= <-]. destruct (mi_prop k I p x Hx) as (G & O & M & _). done.
    + intros Hz. by apply (mi_prop k I q).
  - intros m z q Hm Hq. destruct (mi_prompt k I m z q Hm Hq) as (w & Hw & Nw). rewrite to_menu_lookup.
    case_decide; [by eexists|by exists w].
  - intros q [z Hz]. apply (mi_new k I). rewrite to_menu_lookup in Hz. case_decide; [subst; by eexists|by eexists].
Qed.

Lemma to_menu_binv : binv k'.
Proof using B Hx Ht.
  pose proof to_menu_minv as I'. destruct B as [I Ok Co St M E L N].
  split; [done|by apply (hash_ok_same k)|by apply (consts_ok_same k)|by apply (static_same k)|done..].
Qed.
End ToMenu.

(** ** The last prompt *)

Lemma last_prompt_none sps l o :
  existsb has_text sps = false → length sps = length l → last_prompt sps l o = o.
Proof.
  revert l o. induction sps as [|sp sps IH]; intros [|p l] o H E; simplify_eq/=; [done|].
  apply orb_false_iff in H as [-> H]. auto.
Qed.
Lemma last_prompt_some sps l o :
  existsb has_text sps = true → length sps = length l → ∃ q, last_prompt sps l o = Some q ∧ q ∈ l.
Proof.
  revert l o. induction sps as [|sp sps IH]; intros [|p l] o H E; simplify_eq/=.
  destruct (existsb has_text sps) eqn:Et.
  - destruct (IH l (if has_text sp then Some p else o)) as (q & Hq & Hin); [done..|]. exists q. split; [done|by right].
  - rewrite orb_false_r in H. rewrite H. rewrite last_prompt_none by done. exists p. split; [done|by left].
Qed.
Lemma promote_none sps : existsb has_text sps = false → promote sps = sps.
Proof. destruct sps as [|sp sps]; [done|]. simpl. intros [-> ->]%orb_false_iff. done. Qed.
Lemma promote_text sps : map has_text (promote sps) = map has_text sps.
Proof.
  induction sps as [|sp sps IH]; [done|]. simpl. destruct (existsb has_text sps); [simpl; by rewrite IH|].
  destruct (has_text sp) eqn:E; simpl; [|by rewrite E]. unfold has_text at 1. simpl. by unfold has_text in E; rewrite E.
Qed.
Lemma last_prompt_text sps sps' l o : map has_text sps = map has_text sps' → last_prompt sps l o = last_prompt sps' l o.
Proof.
  revert sps' l o. induction sps as [|sp sps IH]; intros [|sp' sps'] [|p l] o E; simpl in *; try done.
  injection E as E1 E2. rewrite E1. by apply IH.
Qed.

Lemma prop_says_other k p x e sp q :
  q ≠ p → prop_says k e sp q → prop_says (menu_prop_store p x k) e sp q.
Proof.
  intros Hne (z & Hz & ? & ? & ? & F & O). exists z. assert (K : keeps_entries k (menu_prop_store p x k)) by (by intros ? ? ?).
  split_and!; [by rewrite to_menu_lookup, decide_False|done|done|done|by apply (fdenotes_mono k)|by apply (odenotes_mono k)].
Qed.

Lemma props_say_other k p x e sps l :
  p ∉ l → Forall2 (prop_says k e) sps l → Forall2 (prop_says (menu_prop_store p x k) e) sps l.
Proof.
  intros Np F. induction F as [|sp q sps l H F IH]; [constructor|]. apply not_elem_of_cons in Np as [N1 N2].
  constructor; [|auto]. by apply prop_says_other.
Qed.

Lemma promote_says k e sps l o q x :
  Forall2 (prop_says k e) sps l → NoDup l → existsb has_text sps = true →
  last_prompt sps l o = Some q → ks_props k !! q = Some x →
  Forall2 (prop_says (menu_prop_store q x k) e) (promote sps) l.
Proof.
  intros F. revert o. induction F as [|sp p sps l Hsp F IH]; intros o Nd T Hl Hx; [done|].
  apply NoDup_cons in Nd as [Np Nd]. pose proof (Forall2_length _ _ _ F) as El. simpl in *.
  destruct (existsb has_text sps) eqn:Et.
  - constructor; [|by eapply IH]. apply prop_says_other; [|done].
    destruct (last_prompt_some sps l (if has_text sp then Some p else o) Et El) as (q' & Hq' & Hin).
    intros ->. by assert (q' = q) as -> by congruence.
  - rewrite orb_false_r in T. rewrite T, last_prompt_none in Hl by done. rewrite T. injection Hl as <-. constructor.
    + destruct Hsp as (z & Hz & Hm & Hty & Htx & Hf & Hv). assert (z = x) as -> by congruence.
      assert (K : keeps_entries k (menu_prop_store p x k)) by (by intros ? ? ?).
      exists (pr_to_menu x). rewrite to_menu_lookup, decide_True by done.
      split_and!; [done|done|done|done|by apply (fdenotes_mono k)|by apply (odenotes_mono k)].
    + by apply props_say_other.
Qed.

(** ** The action *)

Definition hd_promote (h : head) : head := Head (hd_parent h) (hd_sym h) (promote (hd_props h)) (hd_deps h).
(** The prompts of a [config] statement. *)
Definition prompts_only (h : head) : Prop := ∀ sp, sp ∈ hd_props h → has_text sp = true → ps_type sp = P_PROMPT.

Lemma last_prompt_spec k e sps l o q :
  Forall2 (prop_says k e) sps l → existsb has_text sps = true → last_prompt sps l o = Some q →
  ∃ sp, sp ∈ sps ∧ has_text sp = true ∧ prop_says k e sp q.
Proof.
  intros F. revert o. induction F as [|sp p sps l Hsp F IH]; intros o T Hl; [done|].
  pose proof (Forall2_length _ _ _ F) as El. simpl in *. destruct (existsb has_text sps) eqn:Et.
  - destruct (IH _ eq_refl Hl) as (sp' & Hin & ?). exists sp'. split; [by right|done].
  - rewrite orb_false_r in T. rewrite T, last_prompt_none in Hl by done. injection Hl as <-.
    exists sp. split; [by left|done].
Qed.

Lemma own_to_menu k p x e l : ks_props k !! p = Some x → own (menu_prop_store p x k) e l = own k e l.
Proof.
  intros Hx. unfold own. induction l as [|q l IH]; [done|]. rewrite !filter_cons, IH, to_menu_lookup.
  destruct (decide (q = p)) as [->|]; [|done]. by rewrite Hx.
Qed.

Lemma building_promote k0 k h q x :
  building k0 k h → prompts_only h → ks_menus k !! ks_new_menu k0 = Some x → mn_prompt x = Some q →
  yields (upd_prop q pr_to_menu) k (λ _ k', building k0 k' (hd_promote h)).
Proof.
  intros Bu Po Hx Hq. pose proof (bu_start _ _ _ Bu) as B0. pose proof (bu_inv _ _ _ Bu) as B.
  destruct (bu_says _ _ _ Bu) as (x0 & l & H & Hp & Hd & Hl & Nd & Ho & Hs). assert (x0 = x) as -> by congruence.
  pose proof (Forall2_length _ _ _ Hl) as El. rewrite Ho in Hq.
  assert (T : existsb has_text (hd_props h) = true).
  { destruct (existsb has_text (hd_props h)) eqn:Et; [done|]. by rewrite last_prompt_none in Hq. }
  destruct (last_prompt_spec _ _ _ _ _ _ Hl T Hq) as (sp & Hin & Tsp & z & Hz & Hm & Hty & _).
  rewrite (Po sp Hin Tsp) in Hty. eapply yields_done; [unfold upd_prop, mthen, get_prop; rewrite Hz; done|].
  change (building k0 (menu_prop_store q z k) (hd_promote h)).
  assert (Kp : keeps_entries k (menu_prop_store q z k)) by (by intros ? ? ?).
  eapply (building_step k0 k _ h _ x x); [done|by apply to_menu_binv| | |done|by rewrite insert_id|done..].
  - destruct (bu_grows _ _ _ Bu) as [A1 A2 A3 A4 A5]. assert (Nq : ∀ w, ks_props k0 !! q ≠ Some w).
    { intros w Hw. assert (w = z) as -> by (pose proof (A2 q w Hw); congruence).
      destruct (mi_prop k0 (bi_minv k0 B0) q z Hw) as (_ & _ & M & _). pose proof (bi_menus k0 B0 _ (M _ Hm)). lia. }
    split; [|intros p w Hw; rewrite to_menu_lookup, decide_False; [by apply A2|intros ->; by eapply Nq]|done..].
    intros s y Hy. destruct (A1 s y Hy) as (y' & l' & Hy' & Id & Ch & P & L). exists y', l'. split_and!; [done..|].
    intros p Hp'. destruct (L p Hp') as (w & m & Hw & Hwm & Le). rewrite to_menu_lookup. case_decide as E; [|eauto].
    exists (pr_to_menu z), m. split_and!; [done|simpl; congruence|done].
  - exists x, l. simpl. split_and!; [done|done|by apply (deps_say_mono k)|by eapply promote_says|done| |].
    + rewrite (last_prompt_text _ (hd_props h)); [done|apply promote_text].
    + eapply sym_says_mono; [|exact Kp|exact Hs]. intros s y Hy. exists y. by rewrite own_to_menu.
Qed.

Lemma menuconfig_end_ok k0 n h p :
  pbuild k0 n h p → prompts_only h → yields menuconfig_stmt_end p (λ _ p', pbuild k0 n (hd_promote h) p').
Proof.
  intros [Bu En] Po. destruct (bu_says _ _ _ Bu) as (x & l & H & Hp & Hd & Hl & Nd & Ho & Hs).
  pose proof (Forall2_length _ _ _ Hl) as El. unfold menuconfig_stmt_end. apply yields_gets. simpl.
  rewrite (bu_entry _ _ _ Bu). unfold yields, mthen at 1, lift at 1, get_menu. rewrite H. simpl.
  destruct p as [k ne he out]. simpl in *. change (ps_set_k k (Parser k ne he out)) with (Parser k ne he out).
  eapply yields_bind; [|intros ? p1 Bu1; exact (pbuild_ret () _ _ _ _ _ Bu1 eq_refl)].
  destruct (mn_prompt x) as [q|] eqn:Eq.
  - apply (pbuild_lift _ k0 n h _ (Parser k ne he out)); [done|]. intros _. by eapply building_promote.
  - eapply yields_done; [done|]. split; [|done]. simpl. destruct (existsb has_text (hd_props h)) eqn:Et.
    + destruct (last_prompt_some _ l None Et El) as (q & Hq & _). congruence.
    + unfold hd_promote. rewrite promote_none by done. by destruct h.
Qed.
