(* ===== verification/KParseStmt.v ===== *)
(** * Statements: the tree the actions build

    Every list of statements whose [config] names are no constants runs
    without a crash, keeps the invariant and counts its errors; without
    errors, the new entries hang behind the last one in the order and the
    nesting of the text, and say what the text says. *)
From S2P Require Import Prelude CLib KData KExpr KExprFacts KExprSyms.
From S2P Require Import KState KSymbol KSymFrame KSymRef KSymTab KMenu KMenuInv KMenuTree.
From S2P Require Import KToken KParse KParseInv KParseTree KParseOpts KParseEntry KParseMenu.
Open Scope pr30_scope.

(** ** Errors and names *)

Definition end_errs (fin : pend) (endtoken : token) : nat :=
  if decide (pe_token fin = endtoken) then if pe_same_file fin then 0 else 2 else 2.

Fixpoint errs_stmt (s : stmt) : nat :=
  match s with
  | SIf _ block fin => list_sum (map errs_stmt block) + end_errs fin T_ENDIF
  | SChoice opts block fin =>
      list_sum (map choice_errs opts) + list_sum (map errs_stmt block) + end_errs fin T_ENDCHOICE
  | SMenu _ _ block fin => list_sum (map errs_stmt block) + end_errs fin T_ENDMENU
  | _ => 0
  end.
Definition errs_top (t : top) : nat :=
  match t with TStmt s => errs_stmt s | TMainmenu _ => 0 | TEnd _ => 1 end.

(** No [config] statement is for [y], [m] or [n]. *)
Fixpoint names_ok (s : stmt) : bool :=
  match s with
  | SIf _ block _ | SChoice _ block _ | SMenu _ _ block _ => forallb names_ok block
  | SConfig _ name _ => bool_decide (reserved name = None)
  | _ => true
  end.
Definition names_top (t : top) : bool := match t with TStmt s => names_ok s | _ => true end.

(** Induction over statements. *)
Section StmtInd.
Context (Q : stmt → Prop).
Context (H1 : Q SEol) (H2 : ∀ e b f, Forall Q b → Q (SIf e b f)) (H3 : ∀ t d, Q (SComment t d))
  (H4 : ∀ m n o, Q (SConfig m n o)) (H5 : ∀ t, Q (SSource t)) (H6 : ∀ o b f, Forall Q b → Q (SChoice o b f))
  (H7 : ∀ t d b f, Forall Q b → Q (SMenu t d b f)).
Fixpoint stmt_rec' (s : stmt) : Q s :=
  let all := fix all (l : list stmt) : Forall Q l :=
    match l with [] => Forall_nil_2 _ | s :: l => Forall_cons_2 _ _ _ (stmt_rec' s) (all l) end in
  match s with
  | SEol => H1
  | SIf e b f => H2 e b f (all b)
  | SComment t d => H3 t d
  | SConfig m n o => H4 m n o
  | SSource t => H5 t
  | SChoice o b f => H6 o b f (all b)
  | SMenu t d b f => H7 t d b f (all b)
  end.
End StmtInd.

(** ** The way up from the current menu *)

Fixpoint up (k : kstate) (d : nat) (m : mid) : Prop :=
  match d with
  | O => is_Some (ks_menus k !! m)
  | S d => ∃ x p, ks_menus k !! m = Some x ∧ mn_parent x = Some p ∧ up k d p
  end.
Definition deep (k : kstate) (d : nat) : Prop := ∃ m, ks_current_menu k = Some m ∧ up k d m.

Lemma up_less k d m : up k (S d) m → up k d m.
Proof.
  revert m. induction d as [|d IH]; intros m (x & p & H & Hp & U); [by exists x|]. exists x, p. split_and!; [done..|]. by apply IH.
Qed.
Lemma up_grows k k' d m : grows k k' → up k d m → up k' d m.
Proof.
  intros G. revert m. induction d as [|d IH]; intros m.
  - intros [x H]. destruct (gr_menu _ _ G m x H) as (x' & ? & _). by exists x'.
  - intros (x & p & H & Hp & U). destruct (gr_menu _ _ G m x H) as (x' & H' & [= E _ _ _]). exists x', p.
    split_and!; [done|congruence|auto].
Qed.

(** ** What is in place *)

Definition slot (k : kstate) (l : mid * bool) : option mid := ks_menus k !! l.1 ≫= λ x, slot_of x l.2.

(** The pointers of the old entries: only the last one has changed. *)
Definition tip (hs : list head) (k : kstate) : option mid :=
  match hs with [] => None | _ => Some (ks_new_menu k) end.
Definition hung_at (o : option mid) (k k' : kstate) : Prop := ∀ m x, ks_menus k !! m = Some x →
  ∃ x', ks_menus k' !! m = Some x' ∧
    ptrs x' = ptrs (match o with
                    | Some e => if decide (m = (ks_last_entry k).1) then slot_set (ks_last_entry k).2 e x else x
                    | None => x
                    end).

(** The entries [hs] are in place below [c], at the place where [k] ends. *)
Record placed (c : mid) (hs : list head) (k k' : kstate) : Prop := {
  pl_cur : ks_current_menu k' = ks_current_menu k;
  pl_new : ks_new_menu k' = ks_new_menu k + length hs;
  pl_hung : hung_at (tip hs k) k k';
  pl_chain : chain k' c (slot k' (ks_last_entry k)) (seq (ks_new_menu k) (length hs));
  pl_end : slot k' (ks_last_entry k') = None;
  pl_says : ∀ i h, hs !! i = Some h → says k' (ks_new_menu k + i) h;
}.

(** One statement: nothing, or one entry with the entries below it. *)
Definition placed1 (c : mid) (hs : list head) (k k' : kstate) : Prop :=
  match hs with
  | [] => k' = k
  | _ =>
      ks_current_menu k' = ks_current_menu k ∧ ks_new_menu k' = ks_new_menu k + length hs ∧
      hung_at (tip hs k) k k' ∧ ks_last_entry k' = (ks_new_menu k, false) ∧
      (∃ x, ks_menus k' !! ks_new_menu k = Some x ∧ mn_parent x = Some c ∧ mn_next x = None ∧
         chain k' (ks_new_menu k) (mn_list x) (seq (S (ks_new_menu k)) (length hs - 1))) ∧
      (∀ i h, hs !! i = Some h → says k' (ks_new_menu k + i) h)
  end.

Lemma hung_at_none k k' m x : hung_at None k k' → ks_menus k !! m = Some x → ∃ x', ks_menus k' !! m = Some x' ∧ ptrs x' = ptrs x.
Proof. intros H. apply H. Qed.

Lemma placed_nil c k : slot k (ks_last_entry k) = None → placed c [] k k.
Proof.
  intros E. split; [done|simpl; lia|intros m x H; by exists x|rewrite E; constructor|done|done].
Qed.

(** The chain below an entry is not touched by entries added elsewhere. *)
Lemma chain_kept k k' p o l :
  grows k k' → (∀ m x, m ∈ l → ks_menus k !! m = Some x → ∃ x', ks_menus k' !! m = Some x' ∧ ptrs x' = ptrs x) →
  chain k p o l → chain k' p o l.
Proof.
  intros G F C. apply (chain_frame k); [|done]. intros m Hm. destruct (chain_in _ _ _ _ _ C Hm) as [x H].
  destruct (F m x Hm H) as (x' & H' & [= E1 E2]). destruct (gr_menu _ _ G m x H) as (x'' & H'' & [= E3 _ _ _]).
  assert (x'' = x') as -> by congruence. rewrite (links_Some _ _ _ H), (links_Some _ _ _ H'). congruence.
Qed.

(** The entries behind the one a statement makes are elsewhere. *)
Lemma hung_behind e o k k' m x :
  hung_at o k k' → ks_last_entry k = (e, false) → ks_menus k !! m = Some x →
  ∃ x', ks_menus k' !! m = Some x' ∧ mn_list x' = mn_list x ∧ (m ≠ e → mn_next x' = mn_next x).
Proof.
  intros Hu Hl H. destruct (Hu m x H) as (x' & H' & E). exists x'. split; [done|]. destruct o as [f|].
  - rewrite Hl in E. simpl in E. case_decide; injection E as E1 E2; split; done.
  - injection E as E1 E2. done.
Qed.

Lemma slot_hung k k' e x :
  hung_at (Some e) k k' → ks_menus k !! (ks_last_entry k).1 = Some x → slot k' (ks_last_entry k) = Some e.
Proof.
  intros Hu H. destruct (Hu _ _ H) as (x' & H' & E). rewrite decide_True in E by done. unfold slot. rewrite H'. simpl.
  destruct (ks_last_entry k) as [m b]. simpl in *. injection E as E1 E2. by destruct b; simpl in *.
Qed.

Lemma slot_same k k' m b x x' :
  ks_menus k !! m = Some x → ks_menus k' !! m = Some x' → ptrs x' = ptrs x → slot k' (m, b) = slot k (m, b).
Proof. intros H H' [= E1 E2]. unfold slot. simpl. rewrite H, H'. by destruct b. Qed.

Lemma placed_cons c hs1 hs2 k k1 k2 :
  binv k → binv k1 → grows k k1 → grows k1 k2 →
  placed1 c hs1 k k1 → placed c hs2 k1 k2 → placed c (hs1 ++ hs2) k k2.
Proof.
  intros B B1 G1 G2 P1 P2. destruct hs1 as [|h1 hs1]; [simpl in P1; by subst k1|].
  destruct P1 as (C1 & N1 & U1 & L1 & (x & Hx & Px & Nx & Cx) & S1). set (e := ks_new_menu k) in *.
  destruct (bi_last k B) as [xl Hl]. pose proof (bi_menus k B _ (ex_intro _ xl Hl)) as Ll. fold e in Ll.
  assert (F : ∀ m z, m ≠ e → ks_menus k1 !! m = Some z → ∃ z', ks_menus k2 !! m = Some z' ∧ ptrs z' = ptrs z).
  { intros m z Hne Hz. destruct (hung_behind e _ _ _ _ _ (pl_hung _ _ _ _ P2) L1 Hz) as (z' & Hz' & E1 & E2).
    exists z'. split; [done|]. unfold ptrs. rewrite E1, E2; done. }
  assert (Hu : hung_at (Some e) k k2).
  { intros m z Hz. destruct (U1 m z Hz) as (z1 & Hz1 & E1). destruct (F m z1) as (z2 & Hz2 & E2); [|done|].
    - pose proof (bi_menus k B m (ex_intro _ z Hz)). lia.
    - exists z2. split; [done|]. by rewrite E2, E1. }
  split; [| |done| |apply P2|].
  - by rewrite (pl_cur _ _ _ _ P2), C1.
  - rewrite (pl_new _ _ _ _ P2), N1, length_app. fold e. lia.
  - rewrite (slot_hung k k2 e xl Hu Hl), length_app. simpl length. fold e.
    destruct (hung_behind e _ _ _ _ _ (pl_hung _ _ _ _ P2) L1 Hx) as (x2 & Hx2 & El & _).
    destruct (gr_menu _ _ G2 _ _ Hx) as (x2' & Hx2' & [= Ep _ _ _]). assert (x2' = x2) as -> by congruence.
    pose proof (pl_chain _ _ _ _ P2) as Cn. rewrite L1, N1 in Cn. unfold slot in Cn. simpl in Cn. rewrite Hx2 in Cn. simpl in Cn.
    replace (seq e (S (length hs1) + length hs2)) with (e :: seq (S e) (length hs1) ++ seq (e + S (length hs1)) (length hs2)).
    + econstructor; [exact Hx2|congruence| |exact Cn]. rewrite El. simpl in Cx. rewrite Nat.sub_0_r in Cx.
      apply (chain_kept k1); [done| |done]. intros m z Hm. apply F. apply elem_of_seq in Hm. lia.
    + simpl. by rewrite Nat.add_succ_r, <-Nat.add_succ_l, <-seq_app.
  - intros i h Hi. apply lookup_app_Some in Hi as [Hi|[Le Hi]].
    + eapply grows_says; [exact B1|done|by apply S1].
    + apply (pl_says _ _ _ _ P2) in Hi. rewrite N1 in Hi. fold e in Hi.
      fold e. by replace (e + i) with (e + length (h1 :: hs1) + (i - length (h1 :: hs1))) by lia.
Qed.

(** ** One statement *)

Definition post (pl : mid → list head → kstate → kstate → Prop) (hs : mid → mid → list head) (ne : nat)
    (p p' : parser) : Prop :=
  let k := ps_k p in let k' := ps_k p' in
  binv k' ∧ grows k k' ∧ (∀ d, deep k d → deep k' d) ∧ ps_nerrs p' = ps_nerrs p + ne ∧
  (ne = 0 → slot k (ks_last_entry k) = None → ∀ c, ks_current_menu k = Some c → pl c (hs c (ks_new_menu k)) k k').

Lemma building_placed k k' h c : building k k' h → hd_parent h = c → placed1 c [h] k k'.
Proof.
  intros Bu <-. pose proof Bu as [B B' G En Nw Cu La Pt Hu Sa]. split_and!; [done|simpl; lia|exact Hu|done| |].
  - destruct Sa as (x & l & H & Hp & _). rewrite H in Pt. injection Pt as E1 E2. exists x. rewrite E1. split_and!; try done. constructor.
  - intros [|i] h' Hi; [|done]. injection Hi as <-. by rewrite Nat.add_0_r.
Qed.

Lemma building_deep k k' h d : building k k' h → deep k d → deep k' d.
Proof.
  intros Bu (m & Hm & U). exists m. rewrite (bu_cur _ _ _ Bu). split; [done|]. eapply up_grows; [apply Bu|done].
Qed.

(** A statement that ends with the entry. *)
Lemma entry_post k0 n hs p p' h c :
  pbuild k0 n h p' → ps_k p = k0 → ps_nerrs p = n → ks_current_menu k0 = Some c →
  hd_parent h = c → hs c (ks_new_menu k0) = [h] → post placed1 hs 0 p p'.
Proof.
  intros [Bu En] <- <- Hc Hp Hh. split_and!; [apply Bu|apply Bu| |by rewrite Nat.add_0_r|].
  - intros d. by eapply building_deep.
  - intros _ _ c' Hc'. assert (c' = c) as -> by congruence. rewrite Hh. by apply building_placed.
Qed.

(** *** Blocks *)

(** After [menu_add_menu]. *)
Definition opened (k : kstate) : kstate :=
  ks_set_current_menu (Some (ks_current_entry k)) (ks_set_last_entry (ks_current_entry k, true) k).
Lemma open_ok k : yields menu_add_menu k (λ _ k', k' = opened k).
Proof. by exists (ks_current_entry k), (opened k). Qed.
(** After [menu_end_menu]. *)
Definition closed (m : mid) (x : menu) (k : kstate) : kstate :=
  ks_set_current_menu (mn_parent x) (ks_set_last_entry (m, false) k).

Lemma opened_binv k : binv k → binv (opened k).
Proof.
  intros [I Ok Co St M E L N]. assert (I' : minv (opened k)) by (by apply (minv_same k)). split; try done.
  - by apply (hash_ok_same k).
  - by apply (consts_ok_same k).
Qed.
Lemma closed_binv m x k : binv k → ks_menus k !! m = Some x → binv (closed m x k).
Proof.
  intros [I Ok Co St M E L N] H. assert (I' : minv (closed m x k)) by (by apply (minv_same k)). split; try done.
  - by apply (hash_ok_same k).
  - by apply (consts_ok_same k).
Qed.

Lemma same_grows k k' :
  ks_syms k' = ks_syms k → ks_props k' = ks_props k → ks_menus k' = ks_menus k → ks_new_menu k' = ks_new_menu k →
  ks_hash k' = ks_hash k → grows k k'.
Proof.
  intros E1 E2 E3 E4 E5. assert (K : keeps_entries k k').
  { intros n c s. unfold entry, hash_syms. by rewrite E1, E5. }
  split; [|by intros p x; rewrite E2|rewrite E3; by eauto|lia|done].
  intros s y H. exists y, []. rewrite E1, app_nil_r. split_and!; try done. intros p Hp. by apply elem_of_nil in Hp.
Qed.

Lemma says_same k k' e h :
  ks_syms k' = ks_syms k → ks_props k' = ks_props k → ks_menus k' = ks_menus k → ks_hash k' = ks_hash k →
  says k e h → says k' e h.
Proof.
  intros E1 E2 E3 E4. apply says_mono; [rewrite E3; by eauto| |by intros p x; rewrite E2|].
  - intros s y H. exists y. rewrite E1. split_and!; [done..|]. unfold own. by rewrite E2.
  - intros n c s. unfold entry, hash_syms. by rewrite E1, E4.
Qed.

Lemma chain_same k k' p o l : ks_menus k' = ks_menus k → chain k p o l → chain k' p o l.
Proof. intros E. apply chain_frame. intros m _. unfold links. by rewrite E. Qed.

(** The entry with the entries of its block. *)
Lemma block_placed k0 k1 k3 h hs x c :
  building k0 k1 h → hd_parent h = c → ks_current_menu k0 = Some c → grows (opened k1) k3 →
  placed (ks_new_menu k0) hs (opened k1) k3 → ks_menus k3 !! ks_new_menu k0 = Some x →
  placed1 c (h :: hs) k0 (closed (ks_new_menu k0) x k3).
Proof.
  intros Bu Hp Hc G P Hx. pose proof Bu as [B0 B1 G1 En Nw Cu La Pt Hu Sa]. set (e := ks_new_menu k0) in *.
  assert (Lo : ks_last_entry (opened k1) = (e, true)) by (simpl; by rewrite En).
  pose proof (pl_new _ _ _ _ P) as N3. change (ks_new_menu (opened k1)) with (ks_new_menu k1) in N3. rewrite Nw in N3.
  pose proof Sa as (x1 & l & Hx1 & Hp1 & _). rewrite Hx1 in Pt. injection Pt as P1 P2.
  destruct (gr_menu _ _ G e x1 Hx1) as (x' & Hx' & [= Ep _ _ _]). assert (x' = x) as -> by congruence.
  assert (Nx : mn_next x = None).
  { destruct (pl_hung _ _ _ _ P e x1 Hx1) as (z & Hz & Ez). assert (z = x) as -> by congruence. rewrite Lo in Ez. simpl in Ez.
    destruct (tip hs (opened k1)); [rewrite decide_True in Ez by done|]; injection Ez as _ ->; done. }
  assert (Cx : chain k3 e (mn_list x) (seq (S e) (length hs))).
  { pose proof (pl_chain _ _ _ _ P) as C. rewrite Lo in C. unfold slot in C. simpl in C. rewrite Hx in C. simpl in C. by rewrite Nw in C. }
  split_and!.
  - simpl. congruence.
  - simpl. rewrite N3. fold e. lia.
  - intros m z Hz. destruct (Hu m z Hz) as (z1 & Hz1 & E1). destruct (pl_hung _ _ _ _ P m z1 Hz1) as (z2 & Hz2 & E2).
    exists z2. split; [done|]. transitivity (ptrs z1); [|exact E1]. rewrite E2. pose proof (bi_menus k0 B0 m (ex_intro _ z Hz)).
    destruct (tip hs (opened k1)); [|done]. rewrite Lo, decide_False; [done|simpl; lia].
  - done.
  - exists x. split_and!; [done|congruence|done|]. simpl. rewrite Nat.sub_0_r. by apply (chain_same k3).
  - intros [|i] h' Hi; simpl in Hi.
    + injection Hi as <-. fold e. rewrite Nat.add_0_r. apply (says_same k3); [done..|].
      eapply grows_says; [by apply opened_binv|exact G|]. by apply (says_same k1).
    + apply (pl_says _ _ _ _ P) in Hi. change (ks_new_menu (opened k1)) with (ks_new_menu k1) in Hi. rewrite Nw in Hi.
      fold e. replace (e + S i) with (S e + i) by lia. by apply (says_same k3).
Qed.

(** The end of a block. *)
Lemma block_end_ok fin st en p :
  binv (ps_k p) → deep (ps_k p) 0 →
  yields (block_end fin st en) p (λ _ p', ps_nerrs p' = ps_nerrs p + end_errs fin en ∧
    if decide (end_errs fin en = 0)
    then ∃ m x, ks_current_menu (ps_k p) = Some m ∧ ks_menus (ps_k p) !! m = Some x ∧ ps_k p' = closed m x (ps_k p)
    else ps_k p' = ps_k p).
Proof.
  intros B (m & Hm & [x Hx]). unfold block_end, zconf_endtoken, end_errs. destruct fin as [tok same]. simpl.
  destruct (decide (tok = en)) as [->|Hne].
  - rewrite decide_False by naive_solver. destruct same; simpl.
    + assert (E : menu_end_menu (ps_k p) = Done ((), closed m x (ps_k p))).
      { unfold menu_end_menu, mthen at 1, mgets. rewrite Hm. unfold mthen at 1, mderef at 1. unfold mthen, mmodify, get_menu. simpl. by rewrite Hx. }
      exists (), (ps_set_k (closed m x (ps_k p)) p). split; [|split; [simpl; lia|by exists m, x]].
      unfold mthen, mreturn, lift. by rewrite E.
    + eexists (), _. split; [done|]. simpl. split; [lia|done].
  - rewrite decide_True by done. eexists (), _. split; [done|]. simpl. split; [lia|done].
Qed.

(** The block of an entry, from the state after [menu_add_menu] to its end. *)
Lemma block_post fin st en ne hs (block : P ()) p0 p2 k1 h c :
  building (ps_k p0) k1 h → hd_parent h = c → ks_current_menu (ps_k p0) = Some c → ps_k p2 = opened k1 →
  (∀ p, binv (ps_k p) → deep (ps_k p) 0 → yields block p (λ _ p', post placed hs ne p p')) →
  yields (do! block in block_end fin st en) p2 (λ _ p',
    binv (ps_k p') ∧ grows (ps_k p0) (ps_k p') ∧ (∀ d, deep (ps_k p0) d → deep (ps_k p') d) ∧
    ps_nerrs p' = ps_nerrs p2 + (ne + end_errs fin en) ∧
    (ne + end_errs fin en = 0 →
       placed1 c (h :: hs (ks_new_menu (ps_k p0)) (S (ks_new_menu (ps_k p0)))) (ps_k p0) (ps_k p'))).
Proof.
  intros Bu Hp Hc E2 Hb. set (k0 := ps_k p0) in *. set (e := ks_new_menu k0). pose proof Bu as [B0 B1 G1 En Nw Cu La Pt Hu Sa].
  pose proof Sa as (x1 & l & Hx1 & Hp1 & _). fold e in Hx1.
  assert (Go : grows k1 (opened k1)) by (by apply same_grows).
  assert (D2 : ∀ d, deep k0 d → deep (opened k1) (S d)).
  { intros d (m & Hm & U). exists e. split; [simpl; by rewrite En|]. exists x1, c. split_and!; [done|congruence|].
    assert (m = c) as -> by congruence. eapply up_grows; [|done]. by eapply grows_trans. }
  assert (Lo : ks_last_entry (opened k1) = (e, true)) by (simpl; by rewrite En).
  eapply yields_bind; [apply Hb; rewrite E2; [by apply opened_binv|]|].
  { exists e. split; [simpl; by rewrite En|]. by exists x1. }
  intros [] p3 (B3 & G3 & D3 & N3 & P3). rewrite E2 in *. set (k3 := ps_k p3) in *.
  assert (D0 : deep k3 0).
  { apply D3. exists e. split; [simpl; by rewrite En|]. by exists x1. }
  assert (G03 : grows k0 k3) by (eapply grows_trans; [exact G1|]; by eapply grows_trans).
  eapply yields_mono; [by apply block_end_ok|]. intros [] p4 [N4 K4]. fold k3 in K4. case_decide as Ee.
  - destruct K4 as (m & x & Hm & Hx & ->). split_and!.
    + by apply closed_binv.
    + eapply grows_trans; [exact G03|]. by apply same_grows.
    + intros d Hd. destruct (D3 _ (D2 d Hd)) as (m' & Hm' & x' & q & Hx' & Hq & U). assert (m' = m) as -> by congruence.
      assert (x' = x) as -> by congruence. exists q. split; [by simpl|]. eapply up_grows; [|done]. by apply same_grows.
    + lia.
    + intros Hz. assert (P := P3 ltac:(lia)). rewrite Lo in P. unfold slot in P at 1. simpl in P. rewrite Hx1 in P. simpl in P.
      fold e in Pt, En, Nw. rewrite Hx1 in Pt. injection Pt as Pt1 Pt2. specialize (P Pt1 e). rewrite En in P. specialize (P eq_refl). rewrite Nw in P.
      assert (m = e) as -> by (rewrite (pl_cur _ _ _ _ P) in Hm; simpl in Hm; congruence). by apply (block_placed k0 k1).
  - rewrite K4. split_and!; [done|done| |lia|lia]. intros d Hd. destruct (D3 _ (D2 d Hd)) as (m & Hm & U).
    exists m. split; [done|]. by apply up_less.
Qed.

(** *** Lists of options *)

Lemma hd_add_add ps1 ds1 ps2 ds2 h : hd_add ps2 ds2 (hd_add ps1 ds1 h) = hd_add (ps1 ++ ps2) (ds1 ++ ds2) h.
Proof. unfold hd_add. simpl. by rewrite !app_assoc. Qed.

Lemma depends_list_ok deps k0 k h :
  building k0 k h → yields (miter run_depend deps) k (λ _ k', building k0 k' (hd_add [] (omap id deps) h)).
Proof.
  revert k h. induction deps as [|[e|] deps IH]; intros k h Bu; simpl.
  - apply yields_ret. by rewrite hd_add_nil.
  - eapply yields_bind; [by apply building_depends|]. intros ? k1 Bu1. eapply yields_mono; [exact (IH _ _ Bu1)|].
    intros ? k2 Bu2. by rewrite hd_add_add in Bu2.
  - exact (IH k h Bu).
Qed.

Lemma config_options_ok opts k0 n h p :
  pbuild k0 n h p → has_sym h →
  yields (miter run_config_option opts) p
    (λ _ p', pbuild k0 n (hd_add (concat (map option_props opts)) (concat (map option_deps opts)) h) p').
Proof.
  revert p h. induction opts as [|o opts IH]; intros p h Bu Hh; simpl; [apply yields_ret; by rewrite hd_add_nil|].
  eapply yields_bind; [by apply config_option_ok|]. intros ? p1 Bu1. eapply yields_mono; [exact (IH _ _ Bu1 Hh)|].
  intros ? p2 Bu2. by rewrite hd_add_add in Bu2.
Qed.

Lemma choice_options_ok opts k0 n h p :
  pbuild k0 n h p → has_sym h →
  yields (miter run_choice_option opts) p
    (λ _ p', pbuild k0 (n + list_sum (map choice_errs opts))
       (hd_add (concat (map choice_props opts)) (concat (map choice_deps opts)) h) p').
Proof.
  revert p n h. induction opts as [|o opts IH]; intros p n h Bu Hh; simpl.
  { apply yields_ret. by rewrite hd_add_nil, Nat.add_0_r. }
  eapply yields_bind; [by apply choice_option_ok|]. intros ? p1 Bu1. eapply yields_mono; [exact (IH _ _ _ Bu1 Hh)|].
  intros ? p2 Bu2. by rewrite hd_add_add, <-Nat.add_assoc in Bu2.
Qed.

Lemma config_prompts opts c name :
  prompts_only (hd_add (concat (map option_props opts)) (concat (map option_deps opts)) (Head c (HConfig name) [] [])).
Proof.
  intros sp Hin T. simpl in Hin. apply list_elem_of_In, in_concat in Hin as (l & Hl & Hsp).
  apply in_map_iff in Hl as (o & <- & _). destruct o as [t [[? ?]|]|? ?|? ? ?|? ?|? ?|? ? ?|?|?|]; simpl in Hsp; try done;
    destruct Hsp as [<-|[]]; done.
Qed.

(** *** All statements *)

Definition stmt_ok (s : stmt) : Prop := names_ok s = true → ∀ p, binv (ps_k p) → deep (ps_k p) 0 →
  yields (run_stmt s) p (λ _ p', post placed1 (λ c n, heads_stmt c n s) (errs_stmt s) p p').

Lemma placed1_end c hs k k' : slot k (ks_last_entry k) = None → placed1 c hs k k' →
  slot k' (ks_last_entry k') = None ∧ ks_current_menu k' = ks_current_menu k ∧ ks_new_menu k' = ks_new_menu k + length hs.
Proof.
  intros E. destruct hs as [|h hs]; [intros ->; simpl; split_and!; [done|done|lia]|].
  intros (C & N & _ & L & (x & Hx & _ & Nx & _) & _). split_and!; [|done|done]. rewrite L. unfold slot. simpl. by rewrite Hx.
Qed.

Lemma stmts_ok l p :
  Forall stmt_ok l → forallb names_ok l = true → binv (ps_k p) → deep (ps_k p) 0 →
  yields (miter run_stmt l) p (λ _ p', post placed (λ c n, heads_list c n l) (list_sum (map errs_stmt l)) p p').
Proof.
  intros F. revert p. induction F as [|s l Hs F IH]; intros p Nm B D.
  { apply yields_ret. split_and!; [done|apply grows_refl|done|simpl; lia|]. intros _ E c Hc. by apply placed_nil. }
  apply andb_true_iff in Nm as [N1 N2]. cbn [miter].
  eapply yields_bind; [by apply Hs|]. intros [] p1 (B1 & G1 & D1 & E1 & P1).
  eapply yields_mono; [apply IH; [done|done|by apply D1]|]. intros [] p2 (B2 & G2 & D2 & E2 & P2).
  split_and!; [done|by eapply grows_trans|by auto|simpl; lia|]. simpl. intros Hz Es c Hc.
  specialize (P1 ltac:(lia) Es c Hc). destruct (placed1_end _ _ _ _ Es P1) as (Es1 & C1 & Nw1).
  specialize (P2 ltac:(lia) Es1 c ltac:(congruence)). rewrite Nw1 in P2.
  exact (placed_cons _ _ _ _ _ _ B B1 G1 G2 P1 P2).
Qed.

Lemma skip_post p hs : hs = (λ _ _, []) → binv (ps_k p) → post placed1 hs 0 p p.
Proof. intros -> B. split_and!; [done|apply grows_refl|done|lia|]. by intros _ _ c _. Qed.

(** The entry of a block statement is built, the block opened and run. *)
Lemma block_stmt_post fin st en ne ne0 nt hs hsf (block : P ()) p0 p2 k1 h c :
  building (ps_k p0) k1 h → hd_parent h = c → ks_current_menu (ps_k p0) = Some c → ps_k p2 = opened k1 →
  ps_nerrs p2 = ps_nerrs p0 + ne0 → nt = ne0 + ne + end_errs fin en →
  hsf c (ks_new_menu (ps_k p0)) = h :: hs (ks_new_menu (ps_k p0)) (S (ks_new_menu (ps_k p0))) →
  (∀ p, binv (ps_k p) → deep (ps_k p) 0 → yields block p (λ _ p', post placed hs ne p p')) →
  yields (do! block in block_end fin st en) p2
    (λ _ p', post placed1 hsf nt p0 p').
Proof.
  intros Bu Hp Hc E2 N2 -> Eh Hb. eapply yields_mono; [by apply (block_post fin st en ne hs block p0 p2 k1 h c)|].
  intros [] p' (B & G & D & N & P). split_and!; [done|done|done|lia|]. intros Hz _ c' Hc'.
  assert (c' = c) as -> by congruence. rewrite Eh. apply P. lia.
Qed.

(** [if]: the expression, the entry, its dependency and [menu_add_menu]. *)
Lemma reads_expr_entry e k c :
  binv k → ks_current_menu k = Some c →
  yields (if_entry e) k (λ _ k', ∃ k1, building k k1 (Head c HNone [] [e]) ∧ k' = opened k1).
Proof.
  intros B Hc. unfold if_entry. eapply yields_bind; [by apply (reads_expr e)|]. intros x k1 (B1 & Q1 & D1).
  eapply yields_bind; [by apply (plain_begin k1 c); [|apply (quiet_current k)]|]. intros ? k2 Bu2.
  apply (denotes_mono _ _ _ _ (gr_entries _ _ (bu_grows _ _ _ Bu2))) in D1.
  eapply yields_bind; [apply (building_dep k1 k2 _ e x Bu2 D1), (denotes_good k2 e x); [apply Bu2|done]|]. intros ? k3 Bu3.
  eapply yields_done; [done|]. exists k3. split; [|done]. by eapply building_from.
Qed.

Lemma all_stmts_ok s : stmt_ok s.
Proof.
  induction s as [|e b fin IH|text deps|mc name opts|text|opts b fin IH|text deps b fin IH] using stmt_rec';
    intros Nm p B [c [Hc U]].
  - apply yields_ret. by apply skip_post.
  - cbn [run_stmt].
    assert (Hb : ∀ q, binv (ps_k q) → deep (ps_k q) 0 → yields (miter run_stmt b) q
      (λ _ q', post placed (λ c n, heads_list c n b) (list_sum (map errs_stmt b)) q q')) by (intros q; by apply stmts_ok).
    eapply yields_bind; [apply yields_lift, (reads_expr_entry e (ps_k p) c); done|].
    intros [] p2 [(k1 & Bu & E2) N2]. eapply (block_stmt_post fin T_IF T_ENDIF (list_sum (map errs_stmt b)) 0 _ (λ c n, heads_list c n b) _ _ p p2 k1 _ c); try done. lia.
  - cbn [run_stmt]. eapply yields_bind; [apply yields_lift; by apply (prompt_begin P_COMMENT text _ c); auto|].
    intros ? p1 [Bu1 N1]. eapply yields_bind; [apply yields_lift; by apply depends_list_ok|].
    intros ? p2 [Bu2 N2]. eapply yields_done; [done|]. eapply (entry_post (ps_k p) (ps_nerrs p)); [split; [exact Bu2|simpl; congruence]|done..].
  - cbn [run_stmt]. eapply yields_bind; [apply yields_lift; apply (config_begin name _ c); [done..|]|].
    { by apply bool_decide_eq_true in Nm. }
    intros ? p1 [Bu1 N1]. eapply yields_bind; [by apply (config_options_ok opts (ps_k p) (ps_nerrs p))|].
    intros ? p2 Bu2. destruct mc.
    + eapply yields_mono; [apply (menuconfig_end_ok _ _ _ _ Bu2), config_prompts|].
      intros ? p3 Bu3. exact (entry_post _ _ _ p p3 _ c Bu3 eq_refl eq_refl Hc eq_refl eq_refl).
    + eapply yields_done; [done|]. exact (entry_post _ _ _ p _ _ c Bu2 eq_refl eq_refl Hc eq_refl eq_refl).
  - apply yields_ret. by apply skip_post.
  - cbn [run_stmt].
    assert (Hb : ∀ q, binv (ps_k q) → deep (ps_k q) 0 → yields (miter run_stmt b) q
      (λ _ q', post placed (λ c n, heads_list c n b) (list_sum (map errs_stmt b)) q q')) by (intros q; by apply stmts_ok).
    eapply yields_bind; [apply yields_lift; by apply (choice_begin _ c)|]. intros ? p1 [Bu1 N1].
    eapply yields_bind; [by apply (choice_options_ok opts (ps_k p) (ps_nerrs p))|]. intros ? p2 [Bu2 N2].
    eapply yields_bind; [apply yields_lift, open_ok|].
    intros ? p3 [E3 N3]. eapply (block_stmt_post fin T_CHOICE T_ENDCHOICE (list_sum (map errs_stmt b)) (list_sum (map choice_errs opts)) _ (λ c n, heads_list c n b) _ _ p p3 (ps_k p2) _ c); try done. congruence.
  - cbn [run_stmt].
    assert (Hb : ∀ q, binv (ps_k q) → deep (ps_k q) 0 → yields (miter run_stmt b) q
      (λ _ q', post placed (λ c n, heads_list c n b) (list_sum (map errs_stmt b)) q q')) by (intros q; by apply stmts_ok).
    eapply yields_bind; [apply yields_lift; by apply (prompt_begin P_MENU text _ c); auto|].
    intros ? p1 [Bu1 N1]. eapply yields_bind; [apply yields_lift; by apply depends_list_ok|]. intros ? p2 [Bu2 N2].
    eapply yields_bind; [apply yields_lift, open_ok|].
    intros ? p3 [E3 N3]. eapply (block_stmt_post fin T_MENU T_ENDMENU (list_sum (map errs_stmt b)) 0 _ (λ c n, heads_list c n b) _ _ p p3 (ps_k p2) _ c); try done. lia.
Qed.
