(* ===== verification/KParseRun.v ===== *)
(** * [conf_parse] from beginning to end

    The symbols of the environment and the root menu, the statements of the
    description, [menu_finalize] and the check for recursive dependencies. *)
From S2P Require Import Prelude CLib CStr KData KExpr KExprFacts KExprSyms.
From S2P Require Import KState KSymbol KSymFrame KSymRef KSymTab KSymDeps KSymCheck KMenu KMenuInv KMenuTree KMenuSpec.
From S2P Require Import KParse KParseInv KParseTree KParseOpts KParseEntry KParseMenu KParseStmt.
Open Scope pr30_scope.

(** ** The outermost list *)

Lemma top_list_ok l p :
  forallb names_top l = true → binv (ps_k p) → deep (ps_k p) 0 → ks_current_menu (ps_k p) = Some rootmenu →
  yields (zconfparse l) p (λ _ p',
    binv (ps_k p') ∧ grows (ps_k p) (ps_k p') ∧ ps_nerrs p' = ps_nerrs p + list_sum (map errs_top l) ∧
    (list_sum (map errs_top l) = 0 → slot (ps_k p) (ks_last_entry (ps_k p)) = None →
       placed rootmenu (heads_top (ks_new_menu (ps_k p)) l) (ps_k p) (ps_k p'))).
Proof.
  intros Nm B D Hc.
  assert (G : yields (zconfparse l) p (λ _ p',
    binv (ps_k p') ∧ grows (ps_k p) (ps_k p') ∧ ps_nerrs p' = ps_nerrs p + list_sum (map errs_top l) ∧
    (list_sum (map errs_top l) = 0 → slot (ps_k p) (ks_last_entry (ps_k p)) = None → ks_current_menu (ps_k p) = Some rootmenu →
       placed rootmenu (heads_top (ks_new_menu (ps_k p)) l) (ps_k p) (ps_k p')))).
  2:{ eapply yields_mono; [exact G|]. intros [] p' (B' & G' & N' & P'). split_and!; auto. }
  clear Hc. revert p B D. unfold zconfparse. induction l as [|t l IH]; intros p B D.
  { apply yields_ret. split_and!; [done|apply grows_refl|simpl; lia|]. intros _ E _. by apply placed_nil. }
  simpl in Nm. apply andb_true_iff in Nm as [N1 N2]. specialize (IH N2). cbn [miter].
  destruct t as [s|text|tok].
  - eapply yields_bind; [by apply all_stmts_ok|]. intros [] p1 (B1 & G1 & D1 & E1 & P1).
    eapply yields_mono; [apply IH; [done|by apply D1]|]. intros [] p2 (B2 & G2 & E2 & P2).
    split_and!; [done|by eapply grows_trans|simpl; lia|]. simpl. intros Hz Es Hc.
    specialize (P1 ltac:(lia) Es rootmenu Hc). destruct (placed1_end _ _ _ _ Es P1) as (Es1 & C1 & Nw1).
    specialize (P2 ltac:(lia) Es1 ltac:(congruence)). rewrite Nw1 in P2.
    exact (placed_cons _ _ _ _ _ _ B B1 G1 G2 P1 P2).
  - by apply IH.
  - eapply (yields_bind _ _ _ (λ _ p', ps_k p' = ps_k p ∧ ps_nerrs p' = S (ps_nerrs p))); [by eapply yields_done|].
    intros [] p1 [E1 E2]. rewrite <-E1 in B, D. eapply yields_mono; [by apply IH|]. rewrite E1, E2.
    intros [] p2 (B2 & G2 & N2' & P2). split_and!; [done|done|simpl; lia|simpl; lia].
Qed.

(** ** The symbols of the environment *)

(** A step that leaves the menus alone. *)
Definition same_menus (k k' : kstate) : Prop :=
  ks_menus k' = ks_menus k ∧ ks_new_menu k' = ks_new_menu k ∧ ks_current_entry k' = ks_current_entry k ∧
  ks_current_menu k' = ks_current_menu k ∧ ks_last_entry k' = ks_last_entry k.
Lemma quiet_menus k k' : quiet k k' → same_menus k k'.
Proof. intros Q. unfold same_menus. rewrite (qu_menus _ _ Q). by destruct (qu_new _ _ Q), (qu_current _ _ Q) as (? & ? & ?). Qed.
Lemma same_menus_trans k1 k2 k3 : same_menus k1 k2 → same_menus k2 k3 → same_menus k1 k3.
Proof. intros (? & ? & ? & ? & ?) (? & ? & ? & ? & ?). unfold same_menus. split_and!; congruence. Qed.

(** The property of a default without a value, as [prop_alloc] leaves it, and
    with one. *)
Definition default_prop (s : sid) (e : option expr) : property := Property (Some s) P_DEFAULT None None No e None.

Lemma default_prop_ok k s t : sym_some k t → prop_ok k (default_prop s (Some (Esymbol t))).
Proof. intros H. split_and!; [done|done|done|]. by exists (Esymbol t). Qed.

(** The store with the property and a new symbol, in either order. *)
Lemma sym_prop_commute s y X d c i n k :
  s ≠ ks_new_sym k →
  with_symbol d c i (ks_set_new_str n (sym_prop_store s y X k)) =
  sym_prop_store s y X (with_symbol d c i (ks_set_new_str n k)).
Proof.
  destruct k as [k1 k2 k3 k4 k5 k6 k7 k8 k9 k10 k11 k12 k13 k14 k15]. intros Ne.
  cbv [with_symbol sym_prop_store new_prop_store ks_set_new_str ks_set_hash ks_set_new_sym ks_set_syms ks_set_props
    ks_set_new_prop ks_syms ks_props ks_menus ks_hash ks_new_sym ks_new_prop ks_new_menu ks_new_str ks_change_count
    ks_modules_sym ks_modules_val ks_current_entry ks_current_menu ks_last_entry ks_log bucket] in *.
  by rewrite insert_insert_ne.
Qed.
Lemma default_store_commute s y X d c i n k :
  hash_ok k → ks_syms k !! s = Some y →
  with_symbol d c i (ks_set_new_str n (prop_store (Some s) X k)) =
  prop_store (Some s) X (with_symbol d c i (ks_set_new_str n k)).
Proof.
  intros Ok H. assert (Ne : s ≠ ks_new_sym k) by (pose proof (ho_fresh k Ok s (ex_intro _ y H)); lia).
  unfold prop_store at 1. rewrite H, sym_prop_commute by done. 
  unfold prop_store. by rewrite (with_old d c i (ks_set_new_str n k) (hash_ok_strdup _ _ Ok) s y H).
Qed.

Lemma default_store_set s y e k :
  ks_syms k !! s = Some y →
  upd_prop (ks_new_prop k) (pr_set_expr e) (prop_store (Some s) (default_prop s None) k) =
  Done ((), prop_store (Some s) (default_prop s e) k).
Proof.
  intros H. unfold upd_prop, mthen, get_prop, prop_store. rewrite H. simpl. rewrite lookup_insert_eq. simpl.
  unfold put_prop, mmodify, sym_prop_store, new_prop_store, ks_set_syms, ks_set_props, ks_set_new_prop. simpl. by rewrite insert_insert_eq.
Qed.

Lemma default_alloc s y k :
  ks_syms k !! s = Some y →
  prop_alloc P_DEFAULT (Some s) k = Done (ks_new_prop k, prop_store (Some s) (default_prop s None) k).
Proof.
  intros H. unfold prop_alloc, mthen, mgets, mmodify, put_prop, mmodify, upd_sym, mthen, get_sym. simpl. by rewrite H.
Qed.

Lemma prop_store_same o X k :
  (∀ s, o = Some s → is_Some (ks_syms k !! s)) →
  same_table k (prop_store o X k) ∧ same_menus k (prop_store o X k).
Proof.
  intros Hs. unfold prop_store. destruct o as [s|]; [|done]. destruct (Hs s eq_refl) as [y Hy]. rewrite Hy.
  split; [|done]. split_and!; [done..|]. simpl. rewrite fmap_insert. apply insert_id. by rewrite lookup_fmap, Hy.
Qed.

(** [sym_lookup] while the property is there without its value. *)
Lemma lookup_beside s y X def k :
  binv k → ks_syms k !! s = Some y →
  ∃ t k2, sym_lookup (Some def) true (prop_store (Some s) X k) = Done (t, prop_store (Some s) X k2) ∧
    binv k2 ∧ quiet k k2 ∧ sym_some k2 t.
Proof.
  intros B Hy. pose proof (bi_hash k B) as Ok.
  assert (Same : ∀ k, is_Some (ks_syms k !! s) → same_table k (prop_store (Some s) X k)).
  { intros k0 H0. by apply prop_store_same; intros ? [= <-]. }
  assert (T : same_table k (prop_store (Some s) X k)) by (apply Same; by eexists).
  destruct (lookup_cases (prop_store (Some s) X k) def true) as (t & k1 & E & Ok1 & En & Hc).
  { by apply (hash_ok_same k). }
  destruct Hc as [->|(d & -> & ->)].
  - exists t, k. split_and!; [done|done|apply quiet_refl|]. apply (same_table_entries _ _ (same_table_back _ _ T)) in En.
    destruct (entry_named _ _ _ _ (bi_consts k B) En) as (z & Hz & _). by exists z.
  - rewrite (default_store_commute s y) in E, Ok1 by done.
    set (n := S (ks_new_str (prop_store (Some s) X k))) in *.
    set (k2 := with_symbol (Some d) true (name_hash def) (ks_set_new_str n k)) in *.
    destruct (strdup_binv k n B) as [B1 Q1].
    assert (H2 : ks_syms k2 !! s = Some y) by (apply (with_old _ _ _ (ks_set_new_str n k)); [by apply hash_ok_strdup|done]).
    assert (Ok2 : hash_ok k2) by (apply (hash_ok_same (prop_store (Some s) X k2)); [apply same_table_back, Same; by eexists|done]).
    destruct (with_binv (Some d) true (name_hash def) _ B1 Ok2) as [B2 Q2]; [by eexists|pose proof (name_hash_lt def); lia|].
    exists (ks_new_sym k), k2. split_and!; [|done|by eapply quiet_trans|].
    + rewrite E. do 2 f_equal. by apply T.
    + exists (fresh_symbol (Some d) true). apply lookup_insert_eq.
Qed.

Lemma yields_add_default s def k :
  binv k → is_Some (ks_syms k !! s) →
  yields (sym_add_default s def) k (λ _ k', binv k' ∧ same_menus k k' ∧ keeps_entries k k').
Proof.
  intros B [y Hy]. unfold sym_add_default, yields. rewrite (mthen_done _ _ _ _ _ (default_alloc s y k Hy)).
  destruct (lookup_beside s y (default_prop s None) def k B Hy) as (t & k2 & E & B2 & Q & Ht).
  rewrite (mthen_done _ _ _ _ _ E). destruct (qu_syms _ _ Q s y Hy) as (y2 & Hy2 & _).
  rewrite <-(proj1 (qu_new _ _ Q)), (default_store_set s y2) by done.
  assert (Hs : ∀ s', Some s = Some s' → is_Some (ks_syms k2 !! s')) by (intros ? [= <-]; by eexists).
  destruct (prop_store_same (Some s) (default_prop s (Some (Esymbol t))) k2 Hs) as [T M].
  eexists _, _. split; [done|]. split_and!.
  - by apply prop_store_binv; [|apply default_prop_ok|].
  - eapply same_menus_trans; [by apply quiet_menus|done].
  - intros n c s' En. by apply (same_table_entries _ _ T), (qu_entries _ _ Q).
Qed.

(** A new symbol of the environment. *)
Lemma yields_auto name def k :
  reserved name = None → binv k → yields (auto_symbol name def) k (λ _ k', binv k' ∧ same_menus k k').
Proof.
  intros R B. unfold auto_symbol. eapply yields_bind; [by apply yields_lookup|]. intros s k1 (B1 & Q1 & En & Na).
  unfold entry in En. rewrite R in En. destruct En as (Hs & y & n & H & N & T & C).
  eapply yields_bind.
  { apply (upd_sym_quiet s (sy_set_type S_STRING) k1 y); try done. split; try done; [by left|].
    intros [?|?]; [congruence|]. pose proof (bi_static k1 B1 s Hs). lia. }
  intros [] k2 [B2 Q2]. destruct (qu_syms _ _ Q2 s y H) as (y2 & H2 & _).
  eapply yields_bind; [by apply (yields_or_flags s SYMBOL_AUTO k2 y2)|]. intros [] k3 [B3 Q3].
  destruct (qu_syms _ _ Q3 s y2 H2) as (y3 & H3 & _).
  assert (M : same_menus k k3) by (by apply quiet_menus, (quiet_trans _ k1); [|apply (quiet_trans _ k2)]).
  destruct def as [def|]; [|by apply yields_ret].
  eapply yields_mono; [apply yields_add_default; [done|by eexists]|]. intros [] k4 (B4 & M4 & _).
  split; [done|]. by eapply same_menus_trans.
Qed.

Lemma yields_sym_init arch version release k :
  binv k → yields (sym_init false arch version release) k (λ _ k', binv k' ∧ same_menus k k').
Proof.
  intros B. unfold sym_init. eapply yields_bind; [by apply yields_auto|]. intros [] k1 [B1 M1].
  eapply yields_bind; [by apply yields_auto|]. intros [] k2 [B2 M2].
  eapply yields_bind; [by apply yields_auto|]. intros [] k3 [B3 M3].
  apply yields_ret. split; [done|]. by do 2 (eapply same_menus_trans; [done|]).
Qed.

(** ** The store before the first statement *)

Lemma binv_same k k' :
  ks_syms k' = ks_syms k → ks_props k' = ks_props k → ks_menus k' = ks_menus k → ks_hash k' = ks_hash k →
  ks_new_sym k' = ks_new_sym k → ks_new_prop k' = ks_new_prop k → ks_new_menu k' = ks_new_menu k →
  is_Some (ks_menus k !! ks_current_entry k') → is_Some (ks_menus k !! (ks_last_entry k').1) → binv k → binv k'.
Proof.
  intros E1 E2 E3 E4 E5 E6 E7 He Hl [I Ok Co St M E L N]. assert (I' : minv k') by (by apply (minv_same k)).
  assert (T : same_table k k') by (split_and!; congruence). split; try congruence.
  - by apply (hash_ok_same k).
  - by apply (consts_ok_same k).
  - by apply (static_same k).
  - rewrite E3, E7. apply M.
  - apply (names_syms None k); [done|by apply entry_menus|done].
Qed.

Lemma init_binv : binv init_state.
Proof.
  split.
  - apply minv_check_ok. by vm_compute.
  - apply hash_check_ok. by vm_compute.
  - apply consts_check_ok. by vm_compute.
  - intros s Hs. vm_compute in Hs. by apply elem_of_nil in Hs.
  - intros m [x H]. destruct (decide (m = 0)) as [->|Hne]; [simpl; lia|]. simpl in H. by rewrite lookup_insert_ne in H.
  - by eexists.
  - by eexists.
  - intros s y H. assert (A : all_syms init_state (λ _ y, negb (is_choice y) && negb (bool_decide (sy_name y = None))) = true) by (by vm_compute).
    apply (all_syms_ok _ _ _ _ A), andb_true_iff in H as [C%negb_true_iff D%negb_true_iff].
    split; [by apply bool_decide_eq_false in D|congruence].
Qed.

(** The root menu is there, with its title and nothing below it. *)
Definition begun (k : kstate) : Prop :=
  binv k ∧ ks_new_menu k = 1 ∧ ks_current_menu k = Some rootmenu ∧ ks_last_entry k = (rootmenu, true) ∧
  ∃ x p X, ks_menus k !! rootmenu = Some x ∧ mn_list x = None ∧ mn_next x = None ∧ mn_parent x = None ∧
    mn_sym x = None ∧ mn_prompt x = Some p ∧ ks_props k !! p = Some X ∧ pr_type X = P_MENU ∧
    pr_text X = Some "OpenWrt Configuration"%string.

Lemma title_ok k x :
  binv k → ks_current_entry k = rootmenu → ks_menus k !! rootmenu = Some x → mn_sym x = None →
  yields (let! p := menu_add_prompt P_MENU (Some "OpenWrt Configuration"%string) None in
        upd_menu rootmenu (mn_set_prompt (Some p))) k (λ _ k', binv k' ∧ ks_new_menu k' = ks_new_menu k ∧
    ks_current_menu k' = ks_current_menu k ∧ ks_last_entry k' = ks_last_entry k ∧
    ∃ p X, ks_menus k' !! rootmenu = Some (mn_set_prompt (Some p) x) ∧ ks_props k' !! p = Some X ∧
      pr_type X = P_MENU ∧ pr_text X = Some "OpenWrt Configuration"%string).
Proof.
  intros B He Hx Hs. unfold menu_add_prompt. eapply yields_bind.
  { apply (yields_add_prop P_MENU _ None None k x); [done|by rewrite He| |done]. rewrite Hs. split_and!; try done.
    intros m [= <-]. exists x. by rewrite He. }
  intros p k1 (-> & B1 & A). rewrite He in A. simpl in A. set (X := Property _ _ _ _ _ _ _) in A.
  set (x1 := mn_set_prompt _ x) in A.
  assert (Hp : ks_props k1 !! ks_new_prop k = Some X) by (rewrite (ad_props _ _ _ _ _ _ A); apply lookup_insert_eq).
  assert (Hm : ks_menus k1 !! rootmenu = Some x1) by (rewrite (ad_menus _ _ _ _ _ _ A); apply lookup_insert_eq).
  unfold upd_menu. eapply yields_get_menu; [done|]. eapply yields_done; [done|]. pose proof (bi_minv k1 B1) as I1. split.
  { apply put_menu_binv; [done|by eexists|..]; simpl.
    - intros s. by rewrite Hs.
    - intros q [= <-]. by exists X.
    - by apply (mi_dep k1 I1 rootmenu x1).
    - intros z Hz. by assert (z = x1) as -> by congruence. }
  destruct (ad_new _ _ _ _ _ _ A) as [_ ?], (ad_current _ _ _ _ _ _ A) as (_ & ? & ?). split_and!; [done..|].
  exists (ks_new_prop k), X. split_and!; try done. apply lookup_insert_eq.
Qed.

Lemma parse_init_ok arch version release :
  yields (parse_init arch version release) init_state (λ _ k', begun k').
Proof.
  unfold parse_init. eapply yields_bind; [apply yields_sym_init, init_binv|]. intros b k1 [B1 (M1 & M2 & M3 & M4 & M5)].
  assert (H1 : ks_menus k1 !! rootmenu = Some (Menu None None None None None None 0)) by (rewrite M1; apply lookup_insert_eq).
  eapply (yields_bind _ _ _ (λ _ k2, binv k2 ∧ same_menus init_state k2)).
  { eapply yields_done; [done|]. split; [|done].
    by apply (binv_same k1); try done; eexists. }
  intros [] k2 [B2 M6]. eapply yields_bind; [by apply yields_lookup|]. intros m k3 (B3 & Q3 & _ & _).
  pose proof (same_menus_trans _ _ _ M6 (quiet_menus _ _ Q3)) as (N1 & N2 & N3 & N4 & N5). apply yields_modify.
  set (k4 := ks_set_modules_sym (Some m) k3).
  assert (H3 : ks_menus k3 !! rootmenu = Some (Menu None None None None None None 0)) by (rewrite N1; apply lookup_insert_eq).
  assert (B4 : binv k4) by (by apply (binv_same k3); try done; apply B3).
  eapply yields_mono; [by apply (title_ok k4)|].
  intros [] k5 (B5 & E1 & E2 & E3 & p & X & Hx & Hp & Tp & Tx). split_and!; [done|by rewrite E1|by rewrite E2|by rewrite E3|].
  eexists _, p, X. by split_and!.
Qed.
