(* ===== verification/KParseDone.v ===== *)
(** * What [conf_parse] leaves behind

    [menu_finalize] and the check for recursive dependencies on the tree that
    the statements have built, and what the result is good for: the entries
    in their order, a closed dependency relation, and without choices a store
    on which values can be calculated and settings read. *)
From S2P Require Import Prelude CLib CStr KData KExpr KExprFacts KExprSyms.
From S2P Require Import KState KSymbol KSymFrame KSymRef KSymSolve KSymTab KSymDeps KMenu KMenuInv KMenuTree.
From S2P Require Import KParse KParseInv KParseTree KParseStmt KParseRun.
Open Scope pr30_scope.

(** ** The dependencies are closed *)

Lemma over_deps S e t : over S e → t ∈ dep_syms e → S t.
Proof.
  induction e as [l IHl r IHr|l IHl r IHr|l IHl| | | | |]; simpl; intros H Ht; try (by apply elem_of_nil in Ht).
  - apply elem_of_app in Ht as [Ht|Ht]; [apply IHl|apply IHr]; by destruct H.
  - apply elem_of_app in Ht as [Ht|Ht]; [apply IHl|apply IHr]; by destruct H.
  - by apply IHl.
  - apply elem_of_cons in Ht as [->|Ht%list_elem_of_singleton]; [|subst]; apply H.
  - apply elem_of_cons in Ht as [->|Ht%list_elem_of_singleton]; [|subst]; apply H.
  - by apply list_elem_of_singleton in Ht as ->.
Qed.
Lemma over_null_deps S e t : over_null S e → t ∈ odep_syms e → S t.
Proof. destruct e as [e|]; [apply over_deps|]. intros _ Ht. by apply elem_of_nil in Ht. Qed.

Lemma prop_ok_deps k c x t : prop_ok k x → t ∈ prop_deps c x → sym_some k t.
Proof.
  intros ([_ V] & O & _). unfold prop_deps. destruct (pr_type x); try (by intros ?%elem_of_nil); try exact (over_null_deps _ _ _ V).
  intros [Ht|Ht]%elem_of_app; [exact (over_null_deps _ _ _ V Ht)|].
  destruct c; [by apply elem_of_nil in Ht|exact (over_null_deps _ _ _ O Ht)].
Qed.

Lemma minv_closed k : minv k → closed_deps k.
Proof.
  intros I. split.
  - intros s y p H Hp. destruct (mi_props k I s y p H Hp) as [x Hx]. exists x. split; [done|].
    destruct (mi_prop k I p x Hx) as ([V _] & _ & _ & T). unfold wf_null in V. unfold prop_wf.
    destruct (pr_type x); try done. destruct T as (e & -> & W). simpl. by rewrite V, W, orb_true_r.
  - intros s y H. apply (mi_rev k I s y H).
  - intros s t (y & H & Ht). unfold sym_deps in Ht. apply elem_of_app in Ht as [Ht|Ht].
    + destruct (mi_rev k I s y H) as [[_ O] _]. exact (over_null_deps _ _ _ O Ht).
    + apply list_elem_of_In, in_concat in Ht as (l & (p & <- & Hp%list_elem_of_In)%in_map_iff & Ht%list_elem_of_In).
      destruct (mi_props k I s y p H Hp) as [x Hx]. rewrite Hx in Ht. eapply prop_ok_deps; [by eapply mi_prop|exact Ht].
Qed.

(** The marks of a symbol whose state is as it was born. *)
Lemma born_flag s y b :
  born s y → Z.land state_bits b = b →
  has_flag (sy_flags y) b = has_flag (if decide (s ≤ symbol_empty) then SYMBOL_VALID else SYMBOL_NEW) b.
Proof.
  intros [B _] E. unfold has_flag. rewrite <-B, <-Z.land_assoc, E. done.
Qed.
Lemma minv_unmarked k s y : minv k → ks_syms k !! s = Some y → on_stack y = false ∧ visited y = false.
Proof.
  intros I H. pose proof (mi_born k I s y H) as B. unfold on_stack, visited.
  rewrite !(born_flag s y) by done. by case_decide.
Qed.

(** ** Entries after [menu_finalize] *)

(** The text of the last prompt. *)
Definition title (h : head) : option string := last (omap ps_text (hd_props h)).

Definition shows_sym (k : kstate) (hs : head_sym) (o : option sid) : Prop :=
  match hs with
  | HConfig n => ∃ s, o = Some s ∧ entry k n false s
  | HChoice => ∃ s y, o = Some s ∧ ks_syms k !! s = Some y ∧ sy_name y = None ∧ is_choice y = true
  | HNone => o = None
  end.
Definition shows_text (k : kstate) (o : option pid) (t : option string) : Prop :=
  match o with
  | Some p => ∃ q, ks_props k !! p = Some q ∧ pr_text q = t ∧ is_Some t
  | None => t = None
  end.
(** The entry [e] is for the symbol and has the prompt of the statement. *)
Definition shows (k : kstate) (e : mid) (h : head) : Prop :=
  ∃ x, ks_menus k !! e = Some x ∧ shows_sym k (hd_sym h) (mn_sym x) ∧ shows_text k (mn_prompt x) (title h).

Lemma last_prompt_shown k e sps l o t :
  Forall2 (prop_says k e) sps l → shows_text k o t →
  shows_text k (last_prompt sps l o) (from_option Some t (last (omap ps_text sps))).
Proof.
  intros F. revert o t. induction F as [|sp p sps l Hp F IH]; intros o t Ho; [done|]. simpl.
  destruct Hp as (x & Hx & _ & _ & Et & _). unfold has_text. destruct (ps_text sp) as [u|].
  - assert (G : shows_text k (Some p) (Some u)) by (by exists x).
    specialize (IH _ _ G). rewrite last_cons. change (list_omap _ _ ps_text sps) with (omap ps_text sps).
    by destruct (last (omap ps_text sps)).
  - by apply IH.
Qed.

Lemma says_shows k e h : says k e h → shows k e h.
Proof.
  intros (x & l & H & _ & _ & F & _ & Ep & Es). exists x. split_and!; [done| |].
  - destruct (hd_sym h); simpl in *; [destruct Es as (s & y & ? & ? & _); eauto| |done].
    destruct Es as (s & y & ? & ? & ? & ? & _). by exists s, y.
  - rewrite Ep. assert (G : shows_text k None None) by done. pose proof (last_prompt_shown k e _ _ _ _ F G) as T.
    unfold title. by destruct (last (omap ps_text (hd_props h))).
Qed.

Lemma shows_mono k k' e h :
  keeps_entries k k' →
  (∀ x, ks_menus k !! e = Some x → ∃ x', ks_menus k' !! e = Some x' ∧ mn_sym x' = mn_sym x ∧ mn_prompt x' = mn_prompt x) →
  (∀ s y, ks_syms k !! s = Some y → ∃ y', ks_syms k' !! s = Some y' ∧ sy_name y' = sy_name y ∧ is_choice y' = is_choice y) →
  (∀ p q, ks_props k !! p = Some q → ∃ q', ks_props k' !! p = Some q' ∧ pr_text q' = pr_text q) →
  shows k e h → shows k' e h.
Proof.
  intros K Hm Hs Hp (x & H & S & T). destruct (Hm x H) as (x' & H' & Es & Ep). exists x'. rewrite Es, Ep.
  split_and!; [done| |].
  - destruct (hd_sym h); simpl in *; [| |done].
    + destruct S as (s & ? & ?). exists s. auto.
    + destruct S as (s & y & ? & Hy & Ny & Cy). destruct (Hs s y Hy) as (y' & ? & ? & ?). exists s, y'. split_and!; congruence.
  - destruct (mn_prompt x) as [p|]; [|done]. destruct T as (q & Hq & Et & Ht).
    destruct (Hp p q Hq) as (q' & Hq' & E). exists q'. split_and!; [done|congruence|done].
Qed.

Lemma shows_pers k k' e h : pers k k' → shows k e h → shows k' e h.
Proof.
  intros P. pose proof P as [T _ Ch Tx]. apply shows_mono; [by apply same_table_entries| | |done].
  - intros x. by apply pers_entry.
  - intros s y H. destruct (Ch s y H) as (y' & H' & C). exists y'. split_and!; [done| |done].
    destruct (same_table_old _ _ _ _ T H') as (z & Hz & [N _]%ident_inv). congruence.
Qed.

(** ** The check changes marks only *)

Lemma ccore_table k k' : ks_ccore k' = ks_ccore k → same_table k k'.
Proof.
  intros E. split_and!; [exact (f_equal ks_hash E)|exact (f_equal ks_new_sym E)|].
  assert (F := f_equal (fmap ident) (f_equal ks_syms E)). simpl in F. rewrite <-!map_fmap_compose in F.
  assert (G : ∀ y, (ident ∘ sy_ccore) y = ident y).
  { intros y. unfold ident, compose, is_const. simpl. f_equal. by rewrite has_flag_clear. }
  by rewrite !(map_fmap_ext (ident ∘ sy_ccore) ident) in F by (intros; apply G).
Qed.

Lemma shows_checked k k' e h : ks_ccore k' = ks_ccore k → shows k e h → shows k' e h.
Proof.
  intros E. pose proof (ccore_table _ _ E) as T. apply shows_mono; [by apply same_table_entries| | |].
  - intros x. rewrite (f_equal ks_menus E : ks_menus k' = ks_menus k). eauto.
  - intros s y H. destruct (ccore_sym _ _ _ _ E H) as (y' & H' & C). exists y'.
    split_and!; [done| |by apply sy_ccore_inv]. destruct (same_table_old _ _ _ _ T H') as (z & Hz & [N _]%ident_inv). congruence.
  - intros p q. rewrite (ccore_props _ _ E). eauto.
Qed.

(** ** The whole run *)

(** The entries 1, 2, ... are below the root menu, in the order of the
    numbers. *)
Definition laid (k : kstate) (n : nat) : Prop :=
  ∃ x, ks_menus k !! rootmenu = Some x ∧ mn_next x = None ∧ chain k rootmenu (mn_list x) (seq 1 n).

Lemma begun_laid hs k k' : begun k → placed rootmenu hs k k' → laid k' (length hs).
Proof.
  intros (B & Nw & Cu & La & x & p & X & Hx & Ls & Nx & _) P.
  destruct (pl_hung _ _ _ _ P rootmenu x Hx) as (x' & Hx' & E). exists x'. split; [done|].
  pose proof (pl_chain _ _ _ _ P) as C. rewrite Nw, La in C. unfold slot in C. simpl in C. rewrite Hx' in C. split; [|exact C].
  rewrite La in E. destruct (tip hs k) as [e|]; simpl in E; injection E as _ E2; simpl in E2; congruence.
Qed.

Section Run.
Context (arch version : option string) (release : string).

Lemma parse_runs input :
  forallb names_top input = true →
  ∃ p0 p1, lift (parse_init arch version release) parser_start = Done ((), p0) ∧ zconfparse input p0 = Done ((), p1) ∧
    binv (ps_k p1) ∧ ps_nerrs p1 = list_sum (map errs_top input) ∧
    (list_sum (map errs_top input) = 0 → laid (ps_k p1) (length (heads_top 1 input)) ∧
       (∀ i h, heads_top 1 input !! i = Some h → says (ps_k p1) (S i) h) ∧
       ∀ m x, ks_menus (ps_k p1) !! m = Some x → is_Some (mn_sym x) → ∃ i, m = S i ∧ i < length (heads_top 1 input)).
Proof.
  intros Nm. destruct (parse_init_ok arch version release) as ([] & k0 & E0 & Bg).
  set (p0 := ps_set_k k0 parser_start). pose proof Bg as (B & Nw & Cu & La & x & p & X & Hx & Ls & Nx & _ & Sx & _).
  destruct (top_list_ok input p0 Nm B) as ([] & p1 & E1 & B1 & G1 & N1 & P1); [|done|].
  { exists rootmenu. split; [done|]. by exists x. }
  exists p0, p1. split_and!; [unfold lift; simpl; by rewrite E0|done|done|by rewrite N1|].
  intros Hz. assert (Es : slot k0 (ks_last_entry k0) = None) by (rewrite La; unfold slot; simpl; by rewrite Hx).
  specialize (P1 Hz Es). simpl in P1. rewrite Nw in P1. split_and!; [by eapply begun_laid|..].
  - intros i h Hi. apply (pl_says _ _ _ _ P1) in Hi. by rewrite Nw in Hi.
  - intros m z Hm Hs. pose proof (bi_menus _ B1 m (ex_intro _ z Hm)) as Lm. rewrite (pl_new _ _ _ _ P1), Nw in Lm.
    destruct m as [|i]; [|exists i; split; [done|lia]]. destruct (gr_menu _ _ G1 0 x Hx) as (x' & Hx' & [= _ E _ _]).
    pose proof (eq_trans (eq_sym Hm) Hx') as [= ->]. rewrite E, Sx in Hs. by destruct Hs.
Qed.

(** What [parse_finish] makes of a well-formed tree. *)
Record finished (k kf k' : kstate) : Prop := {
  fi_final : menu_finalize rootmenu k = Done ((), kf);
  fi_pers : pers k kf;
  fi_minv : minv kf;
  fi_core : ks_ccore k' = ks_ccore (ks_set_change_count 1 kf);
  fi_log : ks_log kf `prefix_of` ks_log k';
  fi_silent : ks_log k' = ks_log kf → ∀ s y, s ∈ hash_syms k' → ks_syms k' !! s = Some y → sy_type y ≠ S_OTHER →
    ¬ tc (depends k') s s;
  fi_told : ks_log k' ≠ ks_log kf → ∃ s, tc (depends k') s s;
}.

Lemma parse_finish_ok k n :
  binv k → laid k n → ∃ kf k', parse_finish k = Done ((), k') ∧ finished k kf k' ∧ laid k' n.
Proof.
  intros B (x & Hx & Nx & Ch). assert (Nd : NoDup (rootmenu :: seq 1 n)) by (apply (NoDup_ListNoDup (seq 0 (S n))), seq_NoDup).
  destruct (finalize_root k x _ (bi_minv k B) Hx Nx Ch Nd) as (kf & xf & E & Ke & Hxf & Nxf & Cf).
  pose proof (ke_inv _ _ _ Ke) as If. pose proof (ke_pers _ _ _ Ke) as Pf.
  assert (Ok : hash_ok kf) by (apply (hash_ok_same k); [apply Pf|apply B]).
  destruct (check_all_told kf (minv_closed kf If)) as (kc & Ec & F & Si & To).
  { intros t Ht. apply elem_of_hash_syms in Ht as (i & _ & Hi). destruct (ho_bucket kf Ok i t Hi) as (y & Hy & _). by exists y. }
  { intros s y Hy. by apply (minv_unmarked kf s y). }
  set (k' := ks_set_change_count 1 kc). exists kf, k'. split; [|split; [split|]].
  - unfold parse_finish, mthen. by rewrite E, Ec.
  - done.
  - done.
  - done.
  - exact (f_equal (ks_set_change_count 1) (ch_core _ _ F)).
  - apply F.
  - change (ks_log kc = ks_log kf → ∀ s y, s ∈ hash_syms kc → ks_syms kc !! s = Some y → sy_type y ≠ S_OTHER → ¬ tc (depends kc) s s).
    intros El s y Hs Hy Ty Cy. destruct (ccore_sym kc kf s y (eq_sym (ch_core _ _ F)) Hy) as (z & Hz & Cz%sy_ccore_type).
    apply (Si El s z); [|done|congruence|by apply (ccore_tc kc); [symmetry; apply F|]].
    unfold hash_syms in *. by rewrite <-(f_equal ks_hash (ch_core _ _ F) : ks_hash kc = ks_hash kf).
  - intros El. destruct (To El) as [s Hs]. exists s. change (tc (depends kc) s s). by apply (ccore_tc kf); [apply F|].
  - exists xf. assert (Em : ks_menus k' = ks_menus kf) by exact (f_equal ks_menus (ch_core _ _ F)).
    rewrite Em. split_and!; [done..|]. by apply (chain_same kf).
Qed.

(** The whole of [conf_parse]. *)
Lemma conf_parse_runs input :
  forallb names_top input = true →
  ∃ p0 p1, lift (parse_init arch version release) parser_start = Done ((), p0) ∧ zconfparse input p0 = Done ((), p1) ∧
    binv (ps_k p1) ∧
    (list_sum (map errs_top input) ≠ 0 → conf_parse arch version release input parser_start = Done (Exited 1, p1)) ∧
    (list_sum (map errs_top input) = 0 → ∃ kf k',
       conf_parse arch version release input parser_start = Done (Parsed, ps_set_k k' p1) ∧
       finished (ps_k p1) kf k' ∧ laid k' (length (heads_top 1 input)) ∧
       (∀ i h, heads_top 1 input !! i = Some h → says (ps_k p1) (S i) h) ∧
       ∀ m x, ks_menus (ps_k p1) !! m = Some x → is_Some (mn_sym x) → ∃ i, m = S i ∧ i < length (heads_top 1 input)).
Proof.
  intros Nm. destruct (parse_runs input Nm) as (p0 & p1 & E0 & E1 & B & N & G).
  assert (R : conf_parse arch version release input parser_start =
    (if decide (ps_nerrs p1 ≠ 0) then mreturn (Exited 1) else do! lift parse_finish in mreturn Parsed) p1).
  { unfold conf_parse. by rewrite (mthen_done _ _ _ _ _ E0), (mthen_done _ _ _ _ _ E1). }
  exists p0, p1. split_and!; [done..|intros Ne|intros Hz]; rewrite R, N.
  - by rewrite decide_True.
  - destruct (G Hz) as (L & Sa & Bo). destruct (parse_finish_ok (ps_k p1) _ B L) as (kf & k' & Ef & F & L').
    exists kf, k'. split_and!; [|done..]. rewrite decide_False by lia. unfold mthen, lift. by rewrite Ef.
Qed.

(** The result is a table in order, whose entries are those of the text. *)
Lemma finished_hash k kf k' : binv k → finished k kf k' → hash_ok k'.
Proof.
  intros B F. apply (hash_ok_same (ks_set_change_count 1 kf)); [apply ccore_table, F|].
  apply (hash_ok_same k); [apply (fi_pers _ _ _ F)|apply B].
Qed.
Lemma finished_shows k kf k' e h : finished k kf k' → says k e h → shows k' e h.
Proof.
  intros F S. apply (shows_checked (ks_set_change_count 1 kf)); [apply F|].
  exact (shows_pers k kf e h (fi_pers _ _ _ F) (says_shows k e h S)).
Qed.
End Run.
