(* ===== verification/KLex.v ===== *)
(** * The scanner of [scripts/config/zconf.l]

    One step function per start condition; in each, the rule that flex takes:
    the one with the longest match (trailing context counted), the first one
    of equals.  Files and their stack, and [file_lookup] of [util.c]. *)
From S2P Require Import Prelude CLib CStr KData KToken.
From Stdlib Require Import Ascii.
Open Scope pr30_scope.

(** ** Lexemes *)

(** A token with what is in [zconflval]. *)
Inductive lexeme : Set :=
  | LId (id : kconf_id)
  | LStr (t : token) (s : string)
  | LTok (t : token).
#[export] Instance lexeme_eq_dec : EqDecision lexeme.
Proof. solve_decision. Defined.
Definition token_of (l : lexeme) : token :=
  match l with LId id => kid_token id | LStr t _ | LTok t => t end.

(** ** The state *)

Inductive start_condition : Set := INITIAL | COMMAND | HELP | STRING | PARAM.

(** [struct file]; files are told apart by their names ([file_lookup]). *)
Record file : Set := File {
  fl_name : string;
  fl_parent : option string;
  fl_lineno : Z;
  fl_busy : bool;
  fl_scanned : bool;
}.

(** The string that is being read: what [text] points to, [text_size] and
    [text_asize]. *)
Record textbuf : Set := Textbuf { tx_cells : list ascii; tx_size : nat; tx_asize : nat }.

Record scanner : Set := Scanner {
  sc_start : start_condition;
  sc_in : string;               (** what is left of the current buffer *)
  sc_bufs : option (list string);  (** [current_buf]: what is left of the buffers below it *)
  sc_file_list : list file;
  sc_file : option string;      (** [current_file] *)
  sc_text : textbuf;
  sc_last_ts : nat;
  sc_first_ts : nat;
  sc_pos : option string * Z;   (** [current_pos] *)
  sc_out : list string;
}.
Abbreviation L := (M scanner).

Definition sc_set_start (c : start_condition) (s : scanner) : scanner :=
  Scanner c (sc_in s) (sc_bufs s) (sc_file_list s) (sc_file s) (sc_text s) (sc_last_ts s) (sc_first_ts s) (sc_pos s) (sc_out s).
Definition sc_set_in (t : string) (s : scanner) : scanner :=
  Scanner (sc_start s) t (sc_bufs s) (sc_file_list s) (sc_file s) (sc_text s) (sc_last_ts s) (sc_first_ts s) (sc_pos s) (sc_out s).
Definition sc_set_bufs (l : option (list string)) (s : scanner) : scanner :=
  Scanner (sc_start s) (sc_in s) l (sc_file_list s) (sc_file s) (sc_text s) (sc_last_ts s) (sc_first_ts s) (sc_pos s) (sc_out s).
Definition sc_set_files (l : list file) (s : scanner) : scanner :=
  Scanner (sc_start s) (sc_in s) (sc_bufs s) l (sc_file s) (sc_text s) (sc_last_ts s) (sc_first_ts s) (sc_pos s) (sc_out s).
Definition sc_set_file (f : option string) (s : scanner) : scanner :=
  Scanner (sc_start s) (sc_in s) (sc_bufs s) (sc_file_list s) f (sc_text s) (sc_last_ts s) (sc_first_ts s) (sc_pos s) (sc_out s).
Definition sc_set_text (b : textbuf) (s : scanner) : scanner :=
  Scanner (sc_start s) (sc_in s) (sc_bufs s) (sc_file_list s) (sc_file s) b (sc_last_ts s) (sc_first_ts s) (sc_pos s) (sc_out s).
Definition sc_set_ts (l f : nat) (s : scanner) : scanner :=
  Scanner (sc_start s) (sc_in s) (sc_bufs s) (sc_file_list s) (sc_file s) (sc_text s) l f (sc_pos s) (sc_out s).
Definition sc_set_pos (p : option string * Z) (s : scanner) : scanner :=
  Scanner (sc_start s) (sc_in s) (sc_bufs s) (sc_file_list s) (sc_file s) (sc_text s) (sc_last_ts s) (sc_first_ts s) p (sc_out s).
Definition sc_print (t : string) (s : scanner) : scanner :=
  Scanner (sc_start s) (sc_in s) (sc_bufs s) (sc_file_list s) (sc_file s) (sc_text s) (sc_last_ts s) (sc_first_ts s) (sc_pos s) (sc_out s ++ [t]).

Definition BEGIN (c : start_condition) : L () := mmodify (sc_set_start c).
Definition advance (rest : string) : L () := mmodify (sc_set_in rest).

(** ** Files *)

Definition find_file (name : string) (l : list file) : option file := find (λ f, bool_decide (fl_name f = name)) l.
Definition file_lookup (name : string) : L string :=
  let! l := mgets sc_file_list in
  match find_file name l with
  | Some f => mreturn (fl_name f)
  | None => do! mmodify (sc_set_files (File name None 0 false false :: l)) in mreturn name
  end.

Definition get_file (name : string) : L file := let! l := mgets sc_file_list in mderef (find_file name l).
Definition upd_file (name : string) (f : file → file) : L () :=
  do! get_file name in
  mmodify (λ s, sc_set_files (map (λ x, if bool_decide (fl_name x = name) then f x else x) (sc_file_list s)) s).

Definition current_file : L string := let! f := mgets sc_file in mderef f.
(** [current_file->lineno++] *)
Definition lineno_incr : L () :=
  let! f := current_file in
  upd_file f (λ x, File (fl_name x) (fl_parent x) (fl_lineno x + 1) (fl_busy x) (fl_scanned x)).

Definition zconf_lineno : L Z := mgets (λ s, (sc_pos s).2).
Definition zconf_curname : L string := mgets (λ s, default "<none>"%string (sc_pos s).1).

(** ** Strings *)

Definition START_STRSIZE : nat := 16.

Section Scanner.
(** What memory from [malloc] and [realloc] holds. *)
Context (junk : nat → ascii).
Definition fresh_cells (n : nat) : list ascii := map junk (seq 0 n).

Definition new_string : L () :=
  mmodify (sc_set_text (Textbuf (<[0 := NUL]> (fresh_cells START_STRSIZE)) 0 START_STRSIZE)).

(** The array of a string, enlarged if the new characters do not fit. *)
Definition grow (b : textbuf) (size : nat) : textbuf :=
  let new_size := tx_size b + size + 1 in
  if tx_asize b <? new_size then
    let new_size := Z.to_nat (Z.land (Z.of_nat (new_size + (START_STRSIZE - 1))) (- Z.of_nat START_STRSIZE)) in
    Textbuf (take new_size (tx_cells b) ++ drop (length (tx_cells b)) (fresh_cells new_size)) (tx_size b) new_size
  else b.
(** [memcpy] of the characters and the 0 behind them; both have to be inside. *)
Definition put_text (b : textbuf) (str : string) : option textbuf :=
  let n := tx_size b + String.length str in
  if n <? length (tx_cells b) then
    Some (Textbuf (take (tx_size b) (tx_cells b) ++ la str ++ NUL :: drop (S n) (tx_cells b)) n (tx_asize b))
  else None.
Definition append_string (str : string) : L () :=
  let! b := mgets sc_text in
  let! b := mderef (put_text (grow b (String.length str)) str) in
  mmodify (sc_set_text b).

(** [text_size] and [text_asize] stay. *)
Definition alloc_string (str : string) : L () :=
  mmodify (λ s, sc_set_text (Textbuf (la str ++ [NUL]) (tx_size (sc_text s)) (tx_asize (sc_text s))) s).

(** The C string [text]. *)
Definition text_string : L string := let! b := mgets sc_text in mderef (cstr_of (tx_cells b)).

(** ** Help texts *)

Definition zconf_starthelp : L () :=
  do! new_string in
  do! mmodify (sc_set_ts 0 0) in
  BEGIN HELP.
(** The string in [zconflval]. *)
Definition zconf_endhelp : L string :=
  let! s := text_string in
  do! BEGIN INITIAL in
  mreturn s.

(** ** Ends of files *)

Definition zconf_endfile : L () :=
  let! f := current_file in
  do! upd_file f (λ x, File (fl_name x) (fl_parent x) (fl_lineno x) false true) in
  let! x := get_file f in
  do! mmodify (sc_set_file (fl_parent x)) in
  let! bufs := mgets sc_bufs in
  let! bufs := mderef bufs in
  match bufs with
  | rest :: bufs => do! advance rest in mmodify (sc_set_bufs (Some bufs))
  | [] => mmodify (sc_set_bufs None)
  end.

(** ** The rules *)

(** What the action of a rule does: it returns a token, goes on with [str],
    or ends the input. *)
Inductive action : Set := Return (l : lexeme) | Again (str : ascii) | Terminate.

Definition is_blank (c : ascii) : bool := isc c " " || isc c "009".
Definition in_range (a b c : ascii) : bool := (nat_of_ascii a <=? nat_of_ascii c) && (nat_of_ascii c <=? nat_of_ascii b).
Definition is_n (c : ascii) : bool :=
  in_range "A" "Z" c || in_range "a" "z" c || in_range "0" "9" c || isc c "_".
Definition is_word (c : ascii) : bool := is_n c || isc c "-" || isc c "/" || isc c ".".
Definition is_nl (c : ascii) : bool := isc c nl.
Definition is_quote (c : ascii) : bool := isc c "'" || isc c dq.

(** The longest prefix of characters in a class, and the rest. *)
Definition span (f : ascii → bool) (s : string) : string * string := break_at (λ c, negb (f c)) s.
Definition starts (f : ascii → bool) (s : string) : bool :=
  match s with String c _ => f c | EmptyString => false end.

(** [<<EOF>>] of [INITIAL] and [COMMAND]. *)
Definition rule_eof : L action :=
  let! f := mgets sc_file in
  match f with
  | Some _ => do! zconf_endfile in mreturn (Return (LTok T_EOL))
  | None => mreturn Terminate
  end.

Definition end_line (rest : string) : L action :=
  do! advance rest in
  do! lineno_incr in
  mreturn (Return (LTok T_EOL)).

Definition step_initial (str : ascii) : L action :=
  let! s := mgets sc_in in
  let '(ws, r) := span is_blank s in
  match r with
  | EmptyString =>
      match ws with
      | EmptyString => rule_eof
      | _ => do! advance r in do! BEGIN COMMAND in mreturn (Again str)
      end
  | String c r' =>
      if is_nl c then end_line r'
      else if isc c "#" then
        match (break_at is_nl r').2 with
        | String _ r'' => end_line r''
        | EmptyString => do! advance EmptyString in mreturn (Again str)
        end
      else do! advance r in do! BEGIN COMMAND in mreturn (Again str)
  end.

Definition step_command (str : ascii) : L action :=
  let! s := mgets sc_in in
  match s with
  | EmptyString => rule_eof
  | String c r =>
      if is_nl c then do! BEGIN INITIAL in end_line r
      else if is_n c then
        let '(yytext, rest) := span is_n s in
        do! advance rest in
        do! BEGIN PARAM in
        let! f := current_file in
        let! x := get_file f in
        do! mmodify (sc_set_pos (Some f, fl_lineno x)) in
        match kconf_id_lookup yytext with
        | Some id =>
            if kid_command id then mreturn (Return (LId id))
            else do! alloc_string yytext in let! t := text_string in mreturn (Return (LStr T_WORD t))
        | None => do! alloc_string yytext in let! t := text_string in mreturn (Return (LStr T_WORD t))
        end
      else do! advance r in mreturn (Again str)
  end.

Definition param_word (yytext rest : string) (str : ascii) : L action :=
  do! advance rest in
  if decide (yytext = "---"%string) then mreturn (Again str)
  else
    match kconf_id_lookup yytext with
    | Some id =>
        if kid_param id then mreturn (Return (LId id))
        else do! alloc_string yytext in let! t := text_string in mreturn (Return (LStr T_WORD t))
    | None => do! alloc_string yytext in let! t := text_string in mreturn (Return (LStr T_WORD t))
    end.

(** An operator of one or two characters. *)
Definition operator (s : string) : option (token * string) :=
  match s with
  | String c r =>
      if isc c "&" then if starts (λ d, isc d "&") r then Some (T_AND, tail_of r) else None
      else if isc c "|" then if starts (λ d, isc d "|") r then Some (T_OR, tail_of r) else None
      else if isc c "(" then Some (T_OPEN_PAREN, r)
      else if isc c ")" then Some (T_CLOSE_PAREN, r)
      else if isc c "!" then if starts (λ d, isc d "=") r then Some (T_UNEQUAL, tail_of r) else Some (T_NOT, r)
      else if isc c "=" then Some (T_EQUAL, r)
      else None
  | EmptyString => None
  end.

Definition step_param (str : ascii) : L action :=
  let! s := mgets sc_in in
  match s with
  | EmptyString => do! BEGIN INITIAL in mreturn (Again str)
  | String c r =>
      match operator s with
      | Some (t, rest) => do! advance rest in mreturn (Return (LTok t))
      | None =>
          if is_quote c then
            do! advance r in do! new_string in do! BEGIN STRING in mreturn (Again c)
          else if is_nl c then do! BEGIN INITIAL in end_line r
          else if is_word c then let '(yytext, rest) := span is_word s in param_word yytext rest str
          else if isc c "#" then do! advance (break_at is_nl r).2 in mreturn (Again str)
          else if isc c bs && starts is_nl r then
            do! advance (tail_of r) in do! lineno_incr in mreturn (Again str)
          else do! advance r in mreturn (Again str)
      end
  end.

(** [return T_WORD_QUOTE], or on if the string goes on. *)
Definition quoted_end (rest : string) (str : ascii) : L action :=
  do! advance rest in
  if starts is_nl rest then let! t := text_string in mreturn (Return (LStr T_WORD_QUOTE t))
  else mreturn (Again str).

Definition is_plain (c : ascii) : bool := negb (is_quote c) && negb (isc c bs) && negb (is_nl c).

Definition step_string (str : ascii) : L action :=
  let! s := mgets sc_in in
  match s with
  | EmptyString => do! BEGIN INITIAL in mreturn (Again str)
  | String c r =>
      if is_nl c then
        do! advance r in
        let! name := zconf_curname in
        let! line := zconf_lineno in
        do! mmodify (sc_print (name +:+ ":" +:+ print_d line +:+ ":warning: multi-line strings not supported" +:+ String nl "")) in
        do! lineno_incr in
        do! BEGIN INITIAL in
        mreturn (Return (LTok T_EOL))
      else if is_quote c then
        do! advance r in
        if isc str c then
          do! BEGIN PARAM in let! t := text_string in mreturn (Return (LStr T_WORD_QUOTE t))
        else do! append_string (String c "") in mreturn (Again str)
      else if isc c bs then
        match r with
        | String d r' =>
            if is_nl d then do! append_string "" in quoted_end r str
            else do! append_string (String d "") in quoted_end r' str
        | EmptyString => do! append_string "" in quoted_end r str
        end
      else
        let '(yytext, rest) := span is_plain s in
        do! append_string yytext in quoted_end rest str
  end.

(** The column behind some blanks. *)
Fixpoint columns (ts : nat) (ws : string) : nat :=
  match ws with
  | EmptyString => ts
  | String c ws => columns (if isc c "009" then Z.to_nat (Z.land (Z.of_nat ts) (Z.lnot 7)) + 8 else ts + 1) ws
  end.
Fixpoint spaces (n : nat) : string := match n with O => EmptyString | S n => String " " (spaces n) end.
(** [while (ts > 8)] *)
Fixpoint append_spaces (n ts : nat) : L () :=
  match n with
  | O => mnofuel
  | S n =>
      if 8 <? ts then do! append_string (spaces 8) in append_spaces n (ts - 8)
      else append_string (spaces ts)
  end.

Definition help_text : L action := let! t := zconf_endhelp in mreturn (Return (LStr T_HELPTEXT t)).

Definition help_indent (ws rest : string) (str : ascii) : L action :=
  do! advance rest in
  let ts := columns 0 ws in
  let! first_ts := mgets sc_first_ts in
  do! mmodify (sc_set_ts ts first_ts) in
  if first_ts =? 0 then mreturn (Again str)
  else if ts <? first_ts then help_text
  else do! append_spaces (S ts) (ts - first_ts) in mreturn (Again str).

Definition step_help (str : ascii) : L action :=
  let! s := mgets sc_in in
  let '(ws, r) := span is_blank s in
  match r with
  | EmptyString =>
      match ws with EmptyString => help_text | _ => help_indent ws r str end
  | String c r' =>
      if is_nl c then
        do! advance r' in
        do! lineno_incr in
        if starts (λ d, negb (is_blank d) && negb (is_nl d)) r' then help_text
        else do! append_string (String nl "") in mreturn (Again str)
      else
        match ws with
        | EmptyString =>
            let '(yytext, rest) := break_at is_nl s in
            do! advance rest in
            do! append_string yytext in
            let! last_ts := mgets sc_last_ts in
            let! first_ts := mgets sc_first_ts in
            do! mwhen (first_ts =? 0) (mmodify (sc_set_ts last_ts last_ts)) in
            mreturn (Again str)
        | _ => help_indent ws r str
        end
  end.

Definition step (str : ascii) : L action :=
  let! c := mgets sc_start in
  match c with
  | INITIAL => step_initial str
  | COMMAND => step_command str
  | PARAM => step_param str
  | STRING => step_string str
  | HELP => step_help str
  end.

(** What is before the scanner: characters of the current buffer and of those
    below it, and how far the start condition is from the end of a file. *)
Definition weight (c : start_condition) : nat := match c with COMMAND => 0 | INITIAL => 1 | _ => 2 end.
Definition below (b : option (list string)) : nat :=
  match b with None => 0 | Some l => 4 + sum_list_with (λ t, 8 * String.length t + 4) l end.
Definition ahead (s : scanner) : nat := 8 * String.length (sc_in s) + weight (sc_start s) + below (sc_bufs s).

Fixpoint zconflex_f (n : nat) (str : ascii) : L (option lexeme) :=
  match n with
  | O => mnofuel
  | S n =>
      let! a := step str in
      match a with
      | Return l => mreturn (Some l)
      | Again str => zconflex_f n str
      | Terminate => mreturn None
      end
  end.
(** One call of the scanner; [None] at the end of the input. *)
Definition zconflex : L (option lexeme) := λ s, zconflex_f (S (ahead s)) NUL s.

(** ** Files to scan *)

(** The result of [glob]. *)
Inductive globbed : Set := GLOB_OK (paths : list string) | GLOB_NOMATCH | GLOB_NOSPACE | GLOB_ABORTED.

(** The file that [zconf_fopen] finds, and [glob]. *)
Context (fopen : string → option string) (glob : string → globbed).

(** [false]: [exit(1)] *)
Definition zconf_initscan (name : string) : L bool :=
  match fopen name with
  | None => do! mmodify (sc_print ("can't find file " +:+ name +:+ String nl "")) in mreturn false
  | Some text =>
      do! advance text in
      do! mmodify (sc_set_bufs (Some [])) in
      let! f := file_lookup name in
      do! mmodify (sc_set_file (Some f)) in
      do! upd_file f (λ x, File (fl_name x) (fl_parent x) 1 true false) in
      mreturn true
  end.

Definition lex_message (text : string) : L () :=
  let! name := zconf_curname in
  let! line := zconf_lineno in
  mmodify (sc_print (name +:+ ":" +:+ print_d line +:+ ": " +:+ text +:+ String nl "")).

(** One turn of the loop: the file becomes the current one. *)
Definition push_file (filename : string) : L bool :=
  let! f := file_lookup filename in
  let! rest := mgets sc_in in
  let! bufs := mgets sc_bufs in
  let! bufs := mderef bufs in
  match fopen filename with
  | None => do! lex_message ("can't open file " +:+ String dq filename +:+ String dq "") in mreturn false
  | Some text =>
      do! mmodify (sc_set_bufs (Some (rest :: bufs))) in
      do! advance text in
      let! x := get_file f in
      if fl_busy x then
        do! mmodify (sc_print ("recursive scan (" +:+ filename +:+ ")?" +:+ String nl "")) in mreturn false
      else if fl_scanned x then
        do! mmodify (sc_print ("file " +:+ filename +:+ " already scanned?" +:+ String nl "")) in mreturn false
      else
        let! parent := mgets sc_file in
        do! upd_file f (λ x, File (fl_name x) parent 1 true (fl_scanned x)) in
        do! mmodify (sc_set_file (Some f)) in
        mreturn true
  end.
(** From the last path to the first. *)
Fixpoint push_files (paths : list string) : L bool :=
  match paths with
  | [] => mreturn true
  | f :: paths =>
      let! ok := push_files paths in
      if ok then push_file f else mreturn false
  end.

Definition zconf_nextfile (name : string) : L bool :=
  match glob name with
  | GLOB_NOMATCH => mreturn true
  | GLOB_NOSPACE => do! lex_message ("glob failed: failed to allocate memory " +:+ String dq name +:+ String dq "") in mreturn false
  | GLOB_ABORTED => do! lex_message ("glob failed: read error " +:+ String dq name +:+ String dq "") in mreturn false
  | GLOB_OK paths => push_files paths
  end.

(** ** The tokens the parser gets *)

(** The calls into the scanner from the actions that end with a line:
    [help_start] and [source_stmt], which are reduced before the next token is
    read; [line] has the tokens of the line before its [T_EOL].  (On a line of
    this form that the grammar does not allow where it is, the parser reports
    an error instead.)  [false]: [exit(1)] *)
Definition at_eol (line : list lexeme) : L bool :=
  match line with
  | [LId id] => if decide (kid_token id = T_HELP) then do! zconf_starthelp in mreturn true else mreturn true
  | [LId id; LStr _ name] => if decide (kid_token id = T_SOURCE) then zconf_nextfile name else mreturn true
  | _ => mreturn true
  end.

(** Help texts and line ends end a line of tokens. *)
Definition ends_line (l : lexeme) : bool :=
  match token_of l with T_EOL | T_HELPTEXT => true | _ => false end.

(** All tokens, each with [current_file] after it is read; [None] if the
    program exits. *)
Fixpoint tokens (n : nat) (line : list lexeme) : L (option (list (lexeme * option string))) :=
  match n with
  | O => mnofuel
  | S n =>
      let! o := zconflex in
      match o with
      | None => mreturn (Some [])
      | Some l =>
          let! f := mgets sc_file in
          let! ok := if decide (token_of l = T_EOL) then at_eol line else mreturn true in
          if ok : bool then
            let! rest := tokens n (if ends_line l then [] else line ++ [l]) in
            mreturn (cons (l, f) <$> rest)
          else mreturn None
      end
  end.

(** The tokens of the file [name] and of all that it sources. *)
Definition scan_tokens (n : nat) (name : string) : L (option (list (lexeme * option string))) :=
  let! ok := zconf_initscan name in
  if ok : bool then tokens n [] else mreturn None.
End Scanner.

(** The scanner before anything is read. *)
Definition scanner_start : scanner :=
  Scanner INITIAL EmptyString None [] None (Textbuf [] 0 0) 0 0 (None, 0%Z) [].
