(* ===== verification/KGram.v ===== *)
(** * The grammar of [scripts/config/zconf.y]: from tokens to derivations

    A parser for the token sequences of the grammar that need no error
    recovery, with the conflicts resolved as bison resolves them: by the
    precedences in expressions, and for a [T_EOL] by shifting.  Lines without
    a statement have no action and no part in the trees it makes.  A
    sequence outside the grammar is [None]: what bison's error recovery does
    with it is not modelled. *)
From S2P Require Import Prelude CLib CStr KData KToken KParse KLex.
Open Scope pr30_scope.

(** Tokens with [current_file] after each. *)
Abbreviation toks := (list (lexeme * option string)).

(** ** Expressions *)

Definition p_symbol (ts : toks) : option (word * toks) :=
  match ts with
  | (LStr T_WORD s, _) :: r => Some (Word false s, r)
  | (LStr T_WORD_QUOTE s, _) :: r => Some (Word true s, r)
  | _ => None
  end.

(** [expr], by precedence: operands of [||], operands of [&&], the rest. *)
Fixpoint p_expr (n : nat) (ts : toks) : option (pexpr * toks) :=
  match n with
  | O => None
  | S n => let? (a, r) := p_and n ts in p_or_rest n a r
  end
with p_or_rest (n : nat) (a : pexpr) (ts : toks) : option (pexpr * toks) :=
  match n with
  | O => None
  | S n =>
      match ts with
      | (LTok T_OR, _) :: r => let? (b, r) := p_and n r in p_or_rest n (POr a b) r
      | _ => Some (a, ts)
      end
  end
with p_and (n : nat) (ts : toks) : option (pexpr * toks) :=
  match n with
  | O => None
  | S n => let? (a, r) := p_not n ts in p_and_rest n a r
  end
with p_and_rest (n : nat) (a : pexpr) (ts : toks) : option (pexpr * toks) :=
  match n with
  | O => None
  | S n =>
      match ts with
      | (LTok T_AND, _) :: r => let? (b, r) := p_not n r in p_and_rest n (PAnd a b) r
      | _ => Some (a, ts)
      end
  end
with p_not (n : nat) (ts : toks) : option (pexpr * toks) :=
  match n with
  | O => None
  | S n =>
      match ts with
      | (LTok T_NOT, _) :: r => let? (e, r) := p_not n r in Some (PNot e, r)
      | (LTok T_OPEN_PAREN, _) :: r =>
          let? (e, r) := p_expr n r in
          match r with (LTok T_CLOSE_PAREN, _) :: r => Some (PParen e, r) | _ => None end
      | _ =>
          let? (a, r) := p_symbol ts in
          match r with
          | (LTok T_EQUAL, _) :: r => let? (b, r) := p_symbol r in Some (PEqual a b, r)
          | (LTok T_UNEQUAL, _) :: r => let? (b, r) := p_symbol r in Some (PUnequal a b, r)
          | _ => Some (PSymbol a, r)
          end
      end
  end.

(** ** Parts of lines *)

Definition p_eol (ts : toks) : option toks := match ts with (LTok T_EOL, _) :: r => Some r | _ => None end.
Definition p_word (ts : toks) : option (string * toks) :=
  match ts with (LStr T_WORD s, _) :: r => Some (s, r) | _ => None end.
Definition p_prompt (ts : toks) : option (string * toks) :=
  let? (w, r) := p_symbol ts in Some (w_text w, r).
Definition p_if_expr (n : nat) (ts : toks) : option (pif * toks) :=
  match ts with
  | (LId id, _) :: r =>
      if decide (kid_token id = T_IF) then let? (e, r) := p_expr n r in Some (Some e, r) else Some (None, ts)
  | _ => Some (None, ts)
  end.
Definition p_prompt_stmt_opt (n : nat) (ts : toks) : option (pprompt * toks) :=
  match p_prompt ts with
  | Some (s, r) => let? (c, r) := p_if_expr n r in Some (Some (s, c), r)
  | None => Some (None, ts)
  end.
(** [depends], behind the keyword [t]. *)
Definition p_depends (n : nat) (t : token) (ts : toks) : option (pexpr * toks) :=
  let ts :=
    match t, ts with
    | T_DEPENDS, (LId id, _) :: r => if decide (kid_token id = T_ON) then r else ts
    | _, _ => ts
    end in
  let? (e, r) := p_expr n ts in let? r := p_eol r in Some (e, r).
(** [help], behind the keyword. *)
Definition p_help (ts : toks) : option (string * toks) :=
  let? r := p_eol ts in
  match r with (LStr T_HELPTEXT s, _) :: r => Some (s, r) | _ => None end.
(** [if_expr T_EOL] *)
Definition p_if_eol (n : nat) (ts : toks) : option (pif * toks) :=
  let? (c, r) := p_if_expr n ts in let? r := p_eol r in Some (c, r).

(** ** Lists of options *)

(** One option, behind its keyword; [None] inside for a keyword that is no
    option. *)
Definition p_config_option (n : nat) (id : kconf_id) (ts : toks) : option (option (config_option * toks)) :=
  match kid_token id with
  | T_TYPE => let? (p, r) := p_prompt_stmt_opt n ts in let? r := p_eol r in Some (Some (CType (kid_stype id) p, r))
  | T_PROMPT => let? (s, r) := p_prompt ts in let? (c, r) := p_if_eol n r in Some (Some (CPrompt s c, r))
  | T_DEFAULT =>
      let? (e, r) := p_expr n ts in let? (c, r) := p_if_eol n r in Some (Some (CDefault (kid_stype id) e c, r))
  | T_DESELECT => let? (s, r) := p_word ts in let? (c, r) := p_if_eol n r in Some (Some (CDeselect s c, r))
  | T_SELECT => let? (s, r) := p_word ts in let? (c, r) := p_if_eol n r in Some (Some (CSelect s c, r))
  | T_RANGE =>
      let? (a, r) := p_symbol ts in let? (b, r) := p_symbol r in
      let? (c, r) := p_if_eol n r in Some (Some (CRange a b c, r))
  | (T_DEPENDS | T_REQUIRES) as t => let? (e, r) := p_depends n t ts in Some (Some (CDepends e, r))
  | T_HELP => let? (s, r) := p_help ts in Some (Some (CHelp s, r))
  | _ => Some None
  end.

Definition p_choice_option (n : nat) (id : kconf_id) (ts : toks) : option (option (choice_option * toks)) :=
  match kid_token id with
  | T_PROMPT => let? (s, r) := p_prompt ts in let? (c, r) := p_if_eol n r in Some (Some (ChPrompt s c, r))
  | T_TYPE => let? (p, r) := p_prompt_stmt_opt n ts in let? r := p_eol r in Some (Some (ChType (kid_stype id) p, r))
  | T_OPTIONAL => let? r := p_eol ts in Some (Some (ChOptional, r))
  | T_RESET => let? (c, r) := p_if_eol n ts in Some (Some (ChReset c, r))
  | T_DEFAULT =>
      let? (s, r) := p_word ts in let? (c, r) := p_if_eol n r in Some (Some (ChDefault (kid_stype id) s c, r))
  | (T_DEPENDS | T_REQUIRES) as t => let? (e, r) := p_depends n t ts in Some (Some (ChDepends e, r))
  | T_HELP => let? (s, r) := p_help ts in Some (Some (ChHelp s, r))
  | _ => Some None
  end.

Definition p_depend (n : nat) (id : kconf_id) (ts : toks) : option (option (depend * toks)) :=
  match kid_token id with
  | (T_DEPENDS | T_REQUIRES) as t => let? (e, r) := p_depends n t ts in Some (Some (Some e, r))
  | _ => Some None
  end.

(** [config_option_list], [choice_option_list] and [depends_list]. *)
Fixpoint p_list {A} (opt : nat → kconf_id → toks → option (option (A * toks))) (n : nat) (ts : toks)
    : option (list A * toks) :=
  match n with
  | O => None
  | S n =>
      match ts with
      | (LTok T_EOL, _) :: r => p_list opt n r
      | (LId id, _) :: r =>
          let? o := opt n id r in
          match o with
          | Some (x, r) => let? (l, r) := p_list opt n r in Some (x :: l, r)
          | None => Some ([], ts)
          end
      | _ => Some ([], ts)
      end
  end.

(** ** Statements *)

Definition is_end (t : token) : bool := match t with T_ENDMENU | T_ENDCHOICE | T_ENDIF => true | _ => false end.

(** [end], for a block that starts in the file [f]. *)
Definition p_end (f : option string) (ts : toks) : option (pend * toks) :=
  match ts with
  | (LId id, _) :: (LTok T_EOL, f') :: r =>
      if is_end (kid_token id) then Some (PEnd (kid_token id) (bool_decide (f' = f)), r) else None
  | _ => None
  end.

Fixpoint skip_eols (ts : toks) : toks := match ts with (LTok T_EOL, _) :: r => skip_eols r | _ => ts end.
(** [current_file] when the next token is known. *)
Definition file_at (ts : toks) : option string := match ts with (_, f) :: _ => f | [] => None end.

(** The statements of a block, or of [choice_block], which has no menus and
    choices of its own. *)
Fixpoint p_block (n : nat) (choice : bool) (ts : toks) : option (list stmt * toks) :=
  match n with
  | O => None
  | S n =>
      match ts with
      | (LTok T_EOL, _) :: r => p_block n choice r
      | (LId id, _) :: r =>
          match kid_token id with
          | T_IF =>
              let? (e, r) := p_expr n r in
              let? r := p_eol r in
              let r := skip_eols r in
              let? (b, r') := p_block n false r in
              let? (fin, r') := p_end (file_at r) r' in
              let? (l, r') := p_block n choice r' in
              Some (SIf e b fin :: l, r')
          | T_COMMENT =>
              let? (s, r) := p_prompt r in
              let? r := p_eol r in
              let? (deps, r) := p_list p_depend n r in
              let? (l, r) := p_block n choice r in
              Some (SComment s deps :: l, r)
          | (T_CONFIG | T_MENUCONFIG) as t =>
              let? (s, r) := p_word r in
              let? r := p_eol r in
              let? (opts, r) := p_list p_config_option n r in
              let? (l, r) := p_block n choice r in
              Some (SConfig (bool_decide (t = T_MENUCONFIG)) s opts :: l, r)
          | T_SOURCE =>
              let? (s, r) := p_prompt r in
              let? r := p_eol r in
              let? (l, r) := p_block n choice r in
              Some (SSource s :: l, r)
          | T_CHOICE =>
              if choice then None
              else
                let f := file_at r in
                let? r := p_eol r in
                let? (opts, r) := p_list p_choice_option n r in
                let? (b, r) := p_block n true r in
                let? (fin, r) := p_end f r in
                let? (l, r) := p_block n choice r in
                Some (SChoice opts b fin :: l, r)
          | T_MENU =>
              if choice then None
              else
                let? (s, r) := p_prompt r in
                let f := file_at r in
                let? r := p_eol r in
                let? (deps, r) := p_list p_depend n r in
                let? (b, r) := p_block n false r in
                let? (fin, r) := p_end f r in
                let? (l, r) := p_block n choice r in
                Some (SMenu s deps b fin :: l, r)
          | _ => Some ([], ts)
          end
      | _ => Some ([], ts)
      end
  end.

(** [input]; between the statements [mainmenu] and stray ends. *)
Fixpoint p_input (n : nat) (ts : toks) : option (list top) :=
  match n with
  | O => None
  | S n =>
      let? (l, r) := p_block n false ts in
      match r with
      | [] => Some (map TStmt l)
      | (LId id, _) :: r =>
          if decide (kid_token id = T_MAINMENU) then
            let? (s, r) := p_prompt r in
            let? r := p_eol r in
            let? rest := p_input n r in
            Some (map TStmt l ++ TMainmenu s :: rest)
          else if is_end (kid_token id) then
            let? r := p_eol r in
            let? rest := p_input n r in
            Some (map TStmt l ++ TEnd (kid_token id) :: rest)
          else None
      | _ => None
      end
  end.

(** More than the grammar nests. *)
Definition parse_tokens (ts : toks) : option (list top) := p_input (8 * length ts + 8) ts.
