(* ===== verification/KGramFacts.v ===== *)
(** * The tokens of a derivation, and that they determine it

    The yield of each kind of tree, and that [parse_tokens] finds the tree
    again, up to the lines without a statement, which have no action. *)
From S2P Require Import Prelude CLib CStr KData KState KToken KParse KParseStmt KLex KGram.
Open Scope pr30_scope.

(** ** Yields *)

Definition key (name : string) : lexeme :=
  match kconf_id_lookup name with Some id => LId id | None => LTok T_EOL end.
Definition eol : lexeme := LTok T_EOL.

Definition y_word (w : word) : lexeme := LStr (if w_quoted w then T_WORD_QUOTE else T_WORD) (w_text w).
Definition y_quoted (s : string) : lexeme := LStr T_WORD_QUOTE s.

Fixpoint y_expr (e : pexpr) : list lexeme :=
  match e with
  | PSymbol w => [y_word w]
  | PEqual a b => [y_word a; LTok T_EQUAL; y_word b]
  | PUnequal a b => [y_word a; LTok T_UNEQUAL; y_word b]
  | PParen e => LTok T_OPEN_PAREN :: y_expr e ++ [LTok T_CLOSE_PAREN]
  | PNot e => LTok T_NOT :: y_expr e
  | POr a b => y_expr a ++ LTok T_OR :: y_expr b
  | PAnd a b => y_expr a ++ LTok T_AND :: y_expr b
  end.
Definition y_if (c : pif) : list lexeme := match c with Some e => key "if" :: y_expr e | None => [] end.
Definition y_prompt_opt (p : pprompt) : list lexeme :=
  match p with Some (s, c) => y_quoted s :: y_if c | None => [] end.

Definition type_name (t : symbol_type) : string :=
  match t with
  | S_BOOLEAN => "bool" | S_TRISTATE => "tristate" | S_INT => "int" | S_HEX => "hex" | S_STRING => "string"
  | S_UNKNOWN | S_OTHER => ""
  end.
Definition default_name (t : symbol_type) : string :=
  match t with S_UNKNOWN => "default" | S_BOOLEAN => "def_bool" | S_TRISTATE => "def_tristate" | _ => "" end.

Definition y_depends (e : pexpr) : list lexeme := key "depends" :: key "on" :: y_expr e ++ [eol].
Definition y_help (s : string) : list lexeme := [key "help"; eol; LStr T_HELPTEXT s].

Definition y_option (o : config_option) : list lexeme :=
  match o with
  | CType t p => key (type_name t) :: y_prompt_opt p ++ [eol]
  | CPrompt s c => key "prompt" :: y_quoted s :: y_if c ++ [eol]
  | CDefault t e c => key (default_name t) :: y_expr e ++ y_if c ++ [eol]
  | CDeselect s c => key "deselect" :: LStr T_WORD s :: y_if c ++ [eol]
  | CSelect s c => key "select" :: LStr T_WORD s :: y_if c ++ [eol]
  | CRange a b c => key "range" :: y_word a :: y_word b :: y_if c ++ [eol]
  | CDepends e => y_depends e
  | CHelp s => y_help s
  | CEol => [eol]
  end.
Definition y_choice_option (o : choice_option) : list lexeme :=
  match o with
  | ChPrompt s c => key "prompt" :: y_quoted s :: y_if c ++ [eol]
  | ChType t p => key (type_name t) :: y_prompt_opt p ++ [eol]
  | ChOptional => [key "optional"; eol]
  | ChReset c => key "reset" :: y_if c ++ [eol]
  | ChDefault t s c => key (default_name t) :: LStr T_WORD s :: y_if c ++ [eol]
  | ChDepends e => y_depends e
  | ChHelp s => y_help s
  | ChEol => [eol]
  end.
Definition y_depend (d : depend) : list lexeme := match d with Some e => y_depends e | None => [eol] end.
Definition y_end (fin : pend) : list lexeme := [key (zconf_tokenname (pe_token fin)); eol].

Fixpoint y_stmt (s : stmt) : list lexeme :=
  match s with
  | SEol => [eol]
  | SIf e b fin => key "if" :: y_expr e ++ eol :: concat (map y_stmt b) ++ y_end fin
  | SComment s deps => key "comment" :: y_quoted s :: eol :: concat (map y_depend deps)
  | SConfig mc s opts =>
      key (if mc then "menuconfig" else "config") :: LStr T_WORD s :: eol :: concat (map y_option opts)
  | SSource s => [key "source"; y_quoted s; eol]
  | SChoice opts b fin =>
      key "choice" :: eol :: concat (map y_choice_option opts) ++ concat (map y_stmt b) ++ y_end fin
  | SMenu s deps b fin =>
      key "menu" :: y_quoted s :: eol :: concat (map y_depend deps) ++ concat (map y_stmt b) ++ y_end fin
  end.
Definition y_top (t : top) : list lexeme :=
  match t with
  | TStmt s => y_stmt s
  | TMainmenu s => [key "mainmenu"; y_quoted s; eol]
  | TEnd t => [key (zconf_tokenname t); eol]
  end.
Definition y_input (l : list top) : list lexeme := concat (map y_top l).

(** ** Trees of the grammar *)

(** Precedence: [||] at level 0 only, [&&] up to level 1, to the left. *)
Fixpoint norm (lv : nat) (e : pexpr) : bool :=
  match e with
  | POr a b => (lv =? 0) && norm 0 a && norm 1 b
  | PAnd a b => (lv <=? 1) && norm 1 a && norm 2 b
  | PNot e => norm 2 e
  | PParen e => norm 0 e
  | _ => true
  end.
Definition norm_if (c : pif) : bool := match c with Some e => norm 0 e | None => true end.
Definition norm_prompt (p : pprompt) : bool := match p with Some (_, c) => norm_if c | None => true end.
Definition has_name (f : symbol_type → string) (t : symbol_type) : bool := negb (bool_decide (f t = EmptyString)).

Definition norm_option (o : config_option) : bool :=
  match o with
  | CType t p => has_name type_name t && norm_prompt p
  | CPrompt _ c | CDeselect _ c | CSelect _ c | CRange _ _ c => norm_if c
  | CDefault t e c => has_name default_name t && norm 0 e && norm_if c
  | CDepends e => norm 0 e
  | CHelp _ | CEol => true
  end.
Definition norm_choice_option (o : choice_option) : bool :=
  match o with
  | ChPrompt _ c | ChReset c => norm_if c
  | ChType t p => has_name type_name t && norm_prompt p
  | ChDefault t _ c => has_name default_name t && norm_if c
  | ChDepends e => norm 0 e
  | ChOptional | ChHelp _ | ChEol => true
  end.
Definition norm_depend (d : depend) : bool := match d with Some e => norm 0 e | None => true end.
Definition norm_end (fin : pend) : bool := is_end (pe_token fin) && pe_same_file fin.
Definition is_common (s : stmt) : bool := match s with SChoice _ _ _ | SMenu _ _ _ _ => false | _ => true end.

Fixpoint norm_stmt (s : stmt) : bool :=
  match s with
  | SEol | SSource _ => true
  | SIf e b fin => norm 0 e && forallb norm_stmt b && norm_end fin
  | SComment _ deps => forallb norm_depend deps
  | SConfig _ _ opts => forallb norm_option opts
  | SChoice opts b fin => forallb norm_choice_option opts && forallb norm_stmt b && forallb is_common b && norm_end fin
  | SMenu _ deps b fin => forallb norm_depend deps && forallb norm_stmt b && norm_end fin
  end.
Definition norm_top (t : top) : bool :=
  match t with TStmt s => norm_stmt s | TMainmenu _ => true | TEnd t => is_end t end.

(** Without the empty lines. *)
Definition strip_option (o : config_option) : list config_option := match o with CEol => [] | _ => [o] end.
Definition strip_choice (o : choice_option) : list choice_option := match o with ChEol => [] | _ => [o] end.
Definition strip_depend (d : depend) : list depend := match d with None => [] | _ => [d] end.
Fixpoint strip_stmt (s : stmt) : list stmt :=
  match s with
  | SEol => []
  | SIf e b fin => [SIf e (concat (map strip_stmt b)) fin]
  | SComment s deps => [SComment s (concat (map strip_depend deps))]
  | SConfig mc s opts => [SConfig mc s (concat (map strip_option opts))]
  | SSource s => [SSource s]
  | SChoice opts b fin => [SChoice (concat (map strip_choice opts)) (concat (map strip_stmt b)) fin]
  | SMenu s deps b fin => [SMenu s (concat (map strip_depend deps)) (concat (map strip_stmt b)) fin]
  end.
Definition strip_top (t : top) : list top := match t with TStmt s => map TStmt (strip_stmt s) | _ => [t] end.
Definition strip (l : list top) : list top := concat (map strip_top l).

(** ** Expressions *)

Section Parse.
Context (f : option string).
Definition at_file (l : list lexeme) : toks := map (λ x, (x, f)) l.
Lemma at_app l1 l2 : at_file (l1 ++ l2) = at_file l1 ++ at_file l2.
Proof. apply map_app. Qed.
Lemma at_cons x l : at_file (x :: l) = (x, f) :: at_file l.
Proof. done. Qed.

(** The next token is not one of [l]. *)
Definition not_next (l : list token) (r : toks) : Prop :=
  match r with (LTok t, _) :: _ => t ∉ l | _ => True end.

Lemma p_symbol_ok w r : p_symbol ((y_word w, f) :: r) = Some (w, r).
Proof. by destruct w as [[] s]. Qed.

Definition not_parses (e : pexpr) : Prop := ∀ n r,
  4 * length (at_file (y_expr e) ++ r) + 1 ≤ n → not_next [T_EQUAL; T_UNEQUAL] r →
  p_not n (at_file (y_expr e) ++ r) = Some (e, r).
Definition and_parses (e : pexpr) : Prop := ∀ n r x,
  4 * length (at_file (y_expr e) ++ r) + 2 ≤ n → not_next [T_EQUAL; T_UNEQUAL] r →
  (∀ m, 4 * length r + 1 ≤ m → p_and_rest m e r = Some x) → p_and n (at_file (y_expr e) ++ r) = Some x.
Definition or_parses (e : pexpr) : Prop := ∀ n r x,
  4 * length (at_file (y_expr e) ++ r) + 3 ≤ n → not_next [T_EQUAL; T_UNEQUAL; T_AND] r →
  (∀ m, 4 * length r + 1 ≤ m → p_or_rest m e r = Some x) → p_expr n (at_file (y_expr e) ++ r) = Some x.

Lemma y_expr_pos e : 0 < length (y_expr e).
Proof. induction e; simpl; rewrite ?length_app; simpl; lia. Qed.
Lemma at_length l : length (at_file l) = length l.
Proof. apply length_map. Qed.

Lemma and_of_not e : not_parses e → and_parses e.
Proof.
  intros H n r x Hn Hr Hx. rewrite length_app, at_length in *. pose proof (y_expr_pos e).
  destruct n as [|n]; [lia|]. simpl. rewrite H; [apply Hx; lia|rewrite length_app, at_length; lia|done].
Qed.
Lemma or_of_and e : and_parses e → or_parses e.
Proof.
  intros H n r x Hn Hr Hx. rewrite length_app, at_length in *. pose proof (y_expr_pos e).
  destruct n as [|n]; [lia|]. simpl. rewrite (H n r (e, r)).
  - apply Hx. lia.
  - rewrite length_app, at_length. lia.
  - destruct r as [|[[| |t] g] r]; try done. simpl in *. set_solver.
  - intros m Hm. destruct m as [|m]; [lia|]. simpl. destruct r as [|[[| |t] g] r]; try done.
    simpl in Hr. destruct t; try done. set_solver.
Qed.

Lemma or_full e n r :
  or_parses e → 4 * length (at_file (y_expr e) ++ r) + 3 ≤ n → not_next [T_EQUAL; T_UNEQUAL; T_AND; T_OR] r →
  p_expr n (at_file (y_expr e) ++ r) = Some (e, r).
Proof.
  intros H Hn Hr. apply H; [done| |].
  - destruct r as [|[[| |t] g] r]; try done. simpl in *. set_solver.
  - intros m Hm. destruct m as [|m]; [lia|]. simpl. destruct r as [|[[| |t] g] r]; try done.
    simpl in Hr. destruct t; try done. set_solver.
Qed.

Lemma not_paren e : or_parses e → not_parses (PParen e).
Proof.
  intros H n r Hn _. cbn [y_expr] in *. rewrite at_cons, at_app, <-app_comm_cons, <-app_assoc in *.
  simpl length in Hn. destruct n as [|n]; [lia|]. simpl. simpl in Hn.
  rewrite (or_full e n _ H); [done|simpl; lia|]. simpl. set_solver.
Qed.

Lemma expr_parses e :
  (norm 2 e = true → not_parses e) ∧ (norm 1 e = true → and_parses e) ∧ (norm 0 e = true → or_parses e).
Proof.
  assert (Leaf : ∀ e, not_parses e → (norm 2 e = true → not_parses e) ∧ (norm 1 e = true → and_parses e) ∧
    (norm 0 e = true → or_parses e)) by (auto using and_of_not, or_of_and).
  induction e as [w|a b|a b|e (IH2 & IH1 & IH0)|e (IH2 & IH1 & IH0)|a (A2 & A1 & A0) b (B2 & B1 & B0)|a (A2 & A1 & A0) b (B2 & B1 & B0)].
  - apply Leaf. intros n r Hn Hr. destruct n as [|n]; [simpl in Hn; lia|]. destruct w as [[] s]; simpl;
      (destruct r as [|[[| |t] g] r]; try done; simpl in Hr; destruct t; try done; set_solver).
  - apply Leaf. intros n r Hn Hr. destruct n as [|n]; [simpl in Hn; lia|]. by destruct a as [[] s], b as [[] s'].
  - apply Leaf. intros n r Hn Hr. destruct n as [|n]; [simpl in Hn; lia|]. by destruct a as [[] s], b as [[] s'].
  - simpl. split_and!; intros N; specialize (IH0 N); auto using not_paren, and_of_not, or_of_and.
  - assert (G : norm 2 e = true → not_parses (PNot e)).
    { intros N n r Hn Hr. simpl in Hn. destruct n as [|n]; [lia|]. simpl. by rewrite IH2 by (done || lia). }
    simpl. split_and!; auto using and_of_not, or_of_and.
  - simpl. split_and!; [done..|]. intros [Na Nb]%andb_true_iff. specialize (A0 Na). specialize (B1 Nb).
    intros n r x Hn Hr Hx. cbn [y_expr] in *. rewrite at_app, at_cons, <-app_assoc, <-app_comm_cons in *.
    apply A0; [done|simpl; set_solver|]. intros m Hm. simpl in Hm. destruct m as [|m]; [lia|]. simpl.
    rewrite (B1 m r (b, r)); [|lia| |].
    + apply Hx. rewrite length_app in Hm. lia.
    + destruct r as [|[[| |t] g] r]; try done. simpl in *. set_solver.
    + intros m' Hm'. destruct m' as [|m']; [lia|]. simpl. destruct r as [|[[| |t] g] r]; try done.
      simpl in Hr. destruct t; try done. set_solver.
  - assert (G : norm 1 a && norm 2 b = true → and_parses (PAnd a b)).
    { intros [Na Nb]%andb_true_iff. specialize (A1 Na). specialize (B2 Nb).
      intros n r x Hn Hr Hx. cbn [y_expr] in *. rewrite at_app, at_cons, <-app_assoc, <-app_comm_cons in *.
      apply A1; [done|simpl; set_solver|]. intros m Hm. simpl in Hm. destruct m as [|m]; [lia|]. simpl.
      rewrite B2; [|lia|done]. apply Hx. rewrite length_app in Hm. lia. }
    simpl. split_and!; [done|done|]. intros N. by apply or_of_and, G.
Qed.

Lemma p_expr_ok e n r :
  norm 0 e = true → 4 * length (at_file (y_expr e) ++ r) + 3 ≤ n → not_next [T_EQUAL; T_UNEQUAL; T_AND; T_OR] r →
  p_expr n (at_file (y_expr e) ++ r) = Some (e, r).
Proof. intros N. by apply or_full, (expr_parses e). Qed.

(** ** Lines *)

Ltac at_norm :=
  repeat match goal with
    | H : context [at_file (_ ++ _)] |- _ => rewrite at_app in H
    | H : context [at_file (_ :: _)] |- _ => rewrite at_cons in H
    | H : context [(_ ++ _) ++ _] |- _ => rewrite <-app_assoc in H
    | H : context [(_ :: _) ++ _] |- _ => rewrite <-app_comm_cons in H
    | |- context [at_file (_ ++ _)] => rewrite at_app
    | |- context [at_file (_ :: _)] => rewrite at_cons
    | |- context [(_ ++ _) ++ _] => rewrite <-app_assoc
    | |- context [(_ :: _) ++ _] => rewrite <-app_comm_cons
    end.

(** Behind a complete line, or where a condition may follow. *)
Definition op_tokens : list token := [T_EQUAL; T_UNEQUAL; T_AND; T_OR].

Lemma p_if_eol_ok c n r :
  norm_if c = true → 4 * length (at_file (y_if c ++ [eol]) ++ r) + 3 ≤ n →
  p_if_eol n (at_file (y_if c ++ [eol]) ++ r) = Some (c, r).
Proof.
  intros N Hn. unfold p_if_eol. destruct c as [e|]; [|done]. cbn [y_if] in *. at_norm.
  unfold p_if_expr. change (key "if") with (LId (KconfId "if" T_IF true true S_UNKNOWN)).
  cbn [kid_token]. rewrite decide_True by done. rewrite p_expr_ok; [done|done|simpl in *; lia|simpl; set_solver].
Qed.

Lemma y_if_next c r : not_next op_tokens (at_file (y_if c ++ [eol]) ++ r).
Proof. destruct c; [done|]. simpl. set_solver. Qed.

Lemma p_prompt_opt_ok p n r :
  norm_prompt p = true → 4 * length (at_file (y_prompt_opt p ++ [eol]) ++ r) + 3 ≤ n →
  (let? (p, r) := p_prompt_stmt_opt n (at_file (y_prompt_opt p ++ [eol]) ++ r) in let? r := p_eol r in Some (p, r)) =
  Some (p, r).
Proof.
  intros N Hn. destruct p as [[s c]|]; [|done]. cbn [y_prompt_opt] in *. rewrite <-app_comm_cons, at_cons, <-app_comm_cons in *.
  unfold p_prompt_stmt_opt, p_prompt. cbn [p_symbol y_quoted w_text].
  assert (E := p_if_eol_ok c n r N). unfold p_if_eol in E. simpl in Hn.
  specialize (E ltac:(lia)). destruct (p_if_expr n (at_file (y_if c ++ [eol]) ++ r)) as [[c' r']|]; [|done].
  destruct (p_eol r') as [r''|]; [|done]. congruence.
Qed.

Lemma p_depends_ok e n r :
  norm 0 e = true → 4 * length (at_file (key "on" :: y_expr e ++ [eol]) ++ r) + 3 ≤ n →
  p_depends n T_DEPENDS (at_file (key "on" :: y_expr e ++ [eol]) ++ r) = Some (e, r).
Proof.
  intros N Hn. unfold p_depends. at_norm.
  change (key "on") with (LId (KconfId "on" T_ON false true S_UNKNOWN)). cbn [kid_token]. rewrite decide_True by done.
  rewrite p_expr_ok; [done|done|simpl in *; lia|simpl; set_solver].
Qed.

(** ** Lists of options *)

Section Options.
Context {A : Type} (opt : nat → kconf_id → toks → option (option (A * toks))).
Context (y : A → list lexeme) (st : A → list A) (nm : A → bool).

(** An empty line, or an option that is found again. *)
Definition option_parses (x : A) : Prop :=
  (y x = [eol] ∧ st x = []) ∨
  (∃ id l, y x = LId id :: l ∧ st x = [x] ∧
     ∀ n r, 4 * length (at_file l ++ r) + 3 ≤ n → opt n id (at_file l ++ r) = Some (Some (x, r))).
(** What follows is no option. *)
Definition stops (r : toks) : Prop :=
  match skip_eols r with (LId id, _) :: r' => ∀ n, opt n id r' = Some None | _ => True end.

Lemma p_list_end n r : stops r → 4 * length r + 1 ≤ n → p_list opt n r = Some ([], skip_eols r).
Proof.
  revert n. induction r as [|[l g] r IH]; intros n S Hn; (destruct n as [|n]; [simpl in Hn; lia|]); [done|].
  simpl in Hn. destruct l as [id|t s|t]; [|done|].
  - simpl. unfold stops in S. simpl in S. by rewrite S.
  - destruct t; try done. simpl. apply IH; [exact S|lia].
Qed.

Lemma p_list_ok (Hopt : ∀ x, nm x = true → option_parses x) l n r :
  forallb nm l = true → stops r → 4 * length (at_file (concat (map y l)) ++ r) + 4 ≤ n →
  p_list opt n (at_file (concat (map y l)) ++ r) = Some (concat (map st l), skip_eols r).
Proof.
  intros N S. revert n. induction l as [|x l IH]; intros n Hn; [apply p_list_end; [done|simpl in Hn; lia]|].
  simpl in N. apply andb_true_iff in N as [Nx N]. specialize (IH N). simpl concat in *. at_norm.
  destruct n as [|n]; [simpl in Hn; lia|]. destruct (Hopt x Nx) as [[Ey Es]|(id & k & Ey & Es & Ok)]; rewrite Ey, Es in *.
  - simpl. apply IH. simpl in Hn. lia.
  - at_norm. simpl in Hn. simpl p_list. rewrite Ok by lia. rewrite IH; [done|]. rewrite length_app in Hn. lia.
Qed.
End Options.

(** An option behind its keyword: the parts of its line one by one. *)
Ltac by_key :=
  right; eexists _, _; split; [reflexivity|]; split; [reflexivity|]; intros n r Hn;
  unfold p_config_option, p_choice_option, p_depend; cbn [kid_token kid_stype typed_id command_id].
Ltac shift :=
  repeat (rewrite ?at_cons, <-?app_comm_cons in *);
  cbn [p_prompt p_symbol p_word y_quoted w_text]; rewrite ?p_symbol_ok; cbn [length] in *.

Lemma typed_line {B} p n r (k : pprompt → toks → B) (x : B) :
  norm_prompt p = true → 4 * length (at_file (y_prompt_opt p ++ [eol]) ++ r) + 3 ≤ n → k p r = x →
  (let? (p, r) := p_prompt_stmt_opt n (at_file (y_prompt_opt p ++ [eol]) ++ r) in let? r := p_eol r in Some (Some (k p r))) =
  Some (Some x).
Proof.
  intros N Hn Hk. pose proof (p_prompt_opt_ok p n r N Hn) as E.
  destruct (p_prompt_stmt_opt n (at_file (y_prompt_opt p ++ [eol]) ++ r)) as [[p' r']|]; [|done].
  destruct (p_eol r') as [r''|]; [|done]. injection E as -> ->. by rewrite Hk.
Qed.

Lemma config_option_parses o : norm_option o = true → option_parses p_config_option y_option strip_option o.
Proof.
  destruct o as [t p|s c|t e c|s c|s c|a b c|e|s|]; simpl; intros N.
  - apply andb_true_iff in N as [Nt Np]. destruct t; try done; by_key; by apply (typed_line p n r (λ p r, (CType _ p, r))).
  - by_key. shift. by rewrite p_if_eol_ok by (done || lia).
  - rewrite !andb_true_iff in N. destruct N as [[Nt Ne] Nc]. destruct t; try done; by_key;
      (rewrite at_app, <-app_assoc in *; rewrite p_expr_ok by (done || lia || apply y_if_next);
       rewrite length_app in Hn; by rewrite p_if_eol_ok by (done || lia)).
  - by_key. shift. by rewrite p_if_eol_ok by (done || lia).
  - by_key. shift. by rewrite p_if_eol_ok by (done || lia).
  - by_key. rewrite !at_cons, <-!app_comm_cons in *. cbn [length] in Hn. rewrite p_symbol_ok, p_symbol_ok. by rewrite p_if_eol_ok by (done || lia).
  - by_key. by rewrite p_depends_ok by (done || lia).
  - by_key. done.
  - by left.
Qed.

Lemma choice_option_parses o : norm_choice_option o = true → option_parses p_choice_option y_choice_option strip_choice o.
Proof.
  destruct o as [s c|t p| |c|t s c|e|s|]; simpl; intros N.
  - by_key. shift. by rewrite p_if_eol_ok by (done || lia).
  - apply andb_true_iff in N as [Nt Np]. destruct t; try done; by_key; by apply (typed_line p n r (λ p r, (ChType _ p, r))).
  - by_key. done.
  - by_key. by rewrite p_if_eol_ok by (done || lia).
  - apply andb_true_iff in N as [Nt Nc]. destruct t; try done; by_key; shift; by rewrite p_if_eol_ok by (done || lia).
  - by_key. by rewrite p_depends_ok by (done || lia).
  - by_key. done.
  - by left.
Qed.

Lemma depend_parses d : norm_depend d = true → option_parses p_depend y_depend strip_depend d.
Proof.
  destruct d as [e|]; simpl; intros N; [|by left]. by_key. by rewrite p_depends_ok by (done || lia).
Qed.

(** ** Statements *)

(** [p_block] makes [x] of what follows the empty lines. *)
Definition blocks (c : bool) (r : toks) (x : list stmt * toks) : Prop :=
  ∀ m, 4 * length (skip_eols r) + 5 ≤ m → p_block m c (skip_eols r) = Some x.

Lemma blocks_at c r x m : blocks c r x → 4 * length r + 5 ≤ m → p_block m c r = Some x.
Proof.
  unfold blocks. revert m. induction r as [|[l g] r IH]; intros m H Hm; [by apply H|].
  destruct l as [id|t s|t]; try (by apply H). destruct t; try (by apply H).
  simpl in Hm. destruct m as [|m]; [lia|]. simpl. apply IH; [exact H|lia].
Qed.

(** A statement, the end of a block or of the input follows. *)
Definition is_start (t : token) : bool :=
  match t with
  | T_MAINMENU | T_MENU | T_ENDMENU | T_SOURCE | T_CHOICE | T_ENDCHOICE | T_COMMENT | T_CONFIG | T_MENUCONFIG
  | T_IF | T_ENDIF => true
  | _ => false
  end.
Definition next_stmt (r : toks) : Prop :=
  match skip_eols r with (LId id, _) :: _ => is_start (kid_token id) = true | _ => True end.

Lemma next_stops r : next_stmt r → stops p_config_option r ∧ stops p_choice_option r ∧ stops p_depend r.
Proof.
  unfold next_stmt, stops. destruct (skip_eols r) as [|[[id| |] g] r']; try done. intros S.
  split_and!; intros n; unfold p_config_option, p_choice_option, p_depend; by destruct (kid_token id).
Qed.

Lemma end_key fin : norm_end fin = true → ∃ id, y_end fin = [LId id; eol] ∧ kid_token id = pe_token fin ∧ is_end (pe_token fin) = true.
Proof. destruct fin as [[] []]; try done; intros _; by eexists. Qed.
Lemma p_end_ok fin r : norm_end fin = true → p_end f (at_file (y_end fin) ++ r) = Some (fin, r).
Proof.
  intros N. destruct (end_key fin N) as (id & E & Ek & Is). rewrite E. simpl. rewrite Ek, Is.
  apply andb_true_iff in N as [_ N]. destruct fin as [t []]; [|done]. by rewrite bool_decide_eq_true_2.
Qed.
Lemma end_blocks c fin r : norm_end fin = true →
  blocks c (at_file (y_end fin) ++ r) ([], at_file (y_end fin) ++ r) ∧ next_stmt (at_file (y_end fin) ++ r).
Proof.
  intros N. destruct (end_key fin N) as (id & E & Ek & Is). rewrite E. split.
  - intros m Hm. destruct m as [|m]; [simpl in Hm; lia|]. simpl. rewrite Ek. by destruct (pe_token fin).
  - unfold next_stmt. simpl. rewrite Ek. by destruct (pe_token fin).
Qed.

Definition stmt_parses (s : stmt) : Prop := ∀ c r l' r',
  norm_stmt s = true → (c = true → is_common s = true) → next_stmt r → blocks c r (l', r') →
  blocks c (at_file (y_stmt s) ++ r) (strip_stmt s ++ l', r').

Lemma stmt_next s r : next_stmt r → next_stmt (at_file (y_stmt s) ++ r).
Proof. intros H. by destruct s as [| | |[]| | |]. Qed.

Lemma stmts_parse l c r l' r' :
  Forall stmt_parses l → forallb norm_stmt l = true → (c = true → forallb is_common l = true) → next_stmt r →
  blocks c r (l', r') →
  blocks c (at_file (concat (map y_stmt l)) ++ r) (concat (map strip_stmt l) ++ l', r') ∧
  next_stmt (at_file (concat (map y_stmt l)) ++ r).
Proof.
  intros F N C Nx B. induction F as [|s l Hs F IH]; [done|]. simpl in N. apply andb_true_iff in N as [Ns N].
  destruct IH as [IH Nx']; [done|intros E; specialize (C E); simpl in C; by apply andb_true_iff in C as [_ ?]|].
  simpl concat. rewrite at_app, <-!app_assoc. split; [|by apply stmt_next].
  apply Hs; [done| |done|done]. intros E. specialize (C E). simpl in C. by apply andb_true_iff in C as [? _].
Qed.

Lemma skip_le r : length (skip_eols r) ≤ length r.
Proof. induction r as [|[l g] r IH]; [done|]. destruct l as [|? ?|[]]; simpl in *; lia. Qed.

(** A block with its end. *)
Lemma inner_blocks b fin c r :
  Forall stmt_parses b → forallb norm_stmt b = true → (c = true → forallb is_common b = true) → norm_end fin = true →
  let ts := at_file (concat (map y_stmt b)) ++ at_file (y_end fin) ++ r in
  blocks c ts (concat (map strip_stmt b), at_file (y_end fin) ++ r) ∧ next_stmt ts.
Proof.
  intros F N C Ne ts. destruct (end_blocks c fin r Ne) as [B Nx].
  destruct (stmts_parse b c _ _ _ F N C Nx B) as [G Gx]. by rewrite app_nil_r in G.
Qed.

Lemma file_skip l r : Exists (λ x, token_of x ≠ T_EOL) l → file_at (skip_eols (at_file l ++ r)) = f.
Proof. induction 1 as [x l H|x l H IH]; destruct x as [|? ?|[]]; done. Qed.

Lemma if_parses e b fin : Forall stmt_parses b → stmt_parses (SIf e b fin).
Proof.
  intros F c r l' r' N _ Nx B m Hm. simpl in N. rewrite !andb_true_iff in N. destruct N as [[Ne Nb] Nf].
  cbn [y_stmt] in *. at_norm. destruct m as [|m]; [simpl in Hm; lia|].
  change (key "if") with (LId (KconfId "if" T_IF true true S_UNKNOWN)) in *. cbn [skip_eols] in *.
  cbn [p_block kid_token]. cbn [length] in Hm.
  rewrite p_expr_ok; [|done|lia|simpl; set_solver]. cbn [p_eol eol].
  destruct (inner_blocks b fin false r F Nb) as [Bb _]; [done|done|].
  set (ts := at_file (concat (map y_stmt b)) ++ at_file (y_end fin) ++ r) in *.
  assert (Hf : file_at (skip_eols ts) = f).
  { unfold ts. rewrite app_assoc, <-at_app. apply file_skip, Exists_app. right.
    destruct (end_key fin Nf) as (id & -> & Ek & Is). left. simpl. rewrite Ek. by destruct (pe_token fin). }
  rewrite Hf. pose proof (skip_le ts) as Ls. rewrite length_app in Hm. simpl in Hm.
  rewrite (Bb m) by lia. rewrite p_end_ok by done. rewrite (blocks_at c r (l', r') m B); [done|].
  unfold ts in Hm. rewrite !length_app in Hm. lia.
Qed.

Lemma comment_parses s deps : stmt_parses (SComment s deps).
Proof.
  intros c r l' r' N _ Nx B m Hm. simpl in N. destruct (next_stops r Nx) as (_ & _ & St).
  cbn [y_stmt] in *. at_norm. destruct m as [|m]; [simpl in Hm; lia|].
  change (key "comment") with (LId (command_id "comment" T_COMMENT)) in *. cbn [skip_eols length] in *.
  cbn [p_block kid_token command_id p_prompt p_symbol y_quoted w_text p_eol eol].
  rewrite (p_list_ok p_depend y_depend strip_depend norm_depend depend_parses) by (done || lia).
  rewrite (B m); [done|]. rewrite length_app in Hm. pose proof (skip_le r). lia.
Qed.

Lemma config_parses mc s opts : stmt_parses (SConfig mc s opts).
Proof.
  intros c r l' r' N _ Nx B m Hm. simpl in N. destruct (next_stops r Nx) as (St & _ & _).
  cbn [y_stmt] in *. at_norm. destruct m as [|m]; [simpl in Hm; lia|].
  assert (E : ∃ id, key (if mc then "menuconfig" else "config") = LId id ∧
    kid_token id = if mc then T_MENUCONFIG else T_CONFIG) by (by destruct mc; eexists).
  destruct E as (id & Ei & Ek). rewrite Ei in *. cbn [skip_eols length] in *. cbn [p_block]. rewrite Ek.
  assert (G : (let? (l, r) := p_list p_config_option m (at_file (concat (map y_option opts)) ++ r) in
      let? (l', r) := p_block m c r in Some (SConfig mc s l :: l', r)) =
      Some (SConfig mc s (concat (map strip_option opts)) :: l', r')).
  { rewrite (p_list_ok p_config_option y_option strip_option norm_option config_option_parses) by (done || lia).
    rewrite (B m); [done|]. rewrite length_app in Hm. pose proof (skip_le r). lia. }
  by destruct mc.
Qed.

Lemma source_parses s : stmt_parses (SSource s).
Proof.
  intros c r l' r' _ _ Nx B m Hm. cbn [y_stmt] in *. at_norm. destruct m as [|m]; [simpl in Hm; lia|].
  change (key "source") with (LId (command_id "source" T_SOURCE)) in *. cbn [skip_eols length] in *.
  cbn [p_block kid_token command_id p_prompt p_symbol y_quoted w_text p_eol eol].
  simpl in Hm. simpl. rewrite (blocks_at c r (l', r') m B) by lia. done.
Qed.

Lemma choice_parses opts b fin : Forall stmt_parses b → stmt_parses (SChoice opts b fin).
Proof.
  intros F c r l' r' N C Nx B m Hm. simpl in N. rewrite !andb_true_iff in N. destruct N as [[[No Nb] Cb] Nf].
  destruct c; [by specialize (C eq_refl)|].
  cbn [y_stmt] in *. at_norm. destruct m as [|m]; [simpl in Hm; lia|].
  change (key "choice") with (LId (command_id "choice" T_CHOICE)) in *. cbn [skip_eols length] in *.
  cbn [p_block kid_token command_id file_at p_eol eol].
  destruct (inner_blocks b fin true r F Nb) as [Bb Nxb]; [done|done|]. destruct (next_stops _ Nxb) as (_ & St & _).
  rewrite (p_list_ok p_choice_option y_choice_option strip_choice norm_choice_option choice_option_parses) by (done || lia).
  set (ts := at_file (concat (map y_stmt b)) ++ at_file (y_end fin) ++ r) in *.
  pose proof (skip_le ts) as Ls. rewrite length_app in Hm. rewrite (Bb m) by lia. rewrite p_end_ok by done.
  rewrite (blocks_at false r (l', r') m B); [done|]. unfold ts in Hm. rewrite !length_app in Hm. lia.
Qed.

Lemma menu_parses s deps b fin : Forall stmt_parses b → stmt_parses (SMenu s deps b fin).
Proof.
  intros F c r l' r' N C Nx B m Hm. simpl in N. rewrite !andb_true_iff in N. destruct N as [[No Nb] Nf].
  destruct c; [by specialize (C eq_refl)|].
  cbn [y_stmt] in *. at_norm. destruct m as [|m]; [simpl in Hm; lia|].
  change (key "menu") with (LId (command_id "menu" T_MENU)) in *. cbn [skip_eols length] in *.
  cbn [p_block kid_token command_id p_prompt p_symbol y_quoted w_text file_at p_eol eol].
  destruct (inner_blocks b fin false r F Nb) as [Bb Nxb]; [done|done|]. destruct (next_stops _ Nxb) as (_ & _ & St).
  rewrite (p_list_ok p_depend y_depend strip_depend norm_depend depend_parses) by (done || lia).
  set (ts := at_file (concat (map y_stmt b)) ++ at_file (y_end fin) ++ r) in *.
  pose proof (skip_le ts) as Ls. rewrite length_app in Hm. rewrite (Bb m) by lia. rewrite p_end_ok by done.
  rewrite (blocks_at false r (l', r') m B); [done|]. unfold ts in Hm. rewrite !length_app in Hm. lia.
Qed.

Lemma all_stmts_parse s : stmt_parses s.
Proof.
  induction s as [|e b fin F|s deps|mc s opts|s|opts b fin F|s deps b fin F] using stmt_rec'.
  - intros c r l' r' _ _ _ B. exact B.
  - by apply if_parses.
  - apply comment_parses.
  - apply config_parses.
  - apply source_parses.
  - by apply choice_parses.
  - by apply menu_parses.
Qed.

(** ** The whole input *)

(** What [p_input] makes of the tokens behind the first statements. *)
Definition tail_parses (r : toks) (x : list top) : Prop := ∀ n, 4 * length r + 5 ≤ n →
  match r with
  | [] => x = []
  | (LId id, _) :: r' =>
      if decide (kid_token id = T_MAINMENU) then
        ∃ s r'' y, p_prompt r' = Some (s, r'') ∧ ∃ r3, p_eol r'' = Some r3 ∧ p_input n r3 = Some y ∧ x = TMainmenu s :: y
      else is_end (kid_token id) = true ∧ ∃ r'' y, p_eol r' = Some r'' ∧ p_input n r'' = Some y ∧ x = TEnd (kid_token id) :: y
  | _ => False
  end.

Lemma p_input_ok n ts l r x :
  blocks false ts (l, r) → tail_parses r x → length r ≤ length ts → 4 * length ts + 6 ≤ n → p_input n ts = Some (map TStmt l ++ x).
Proof.
  intros B T Lr Hn. destruct n as [|n]; [lia|]. simpl. rewrite (blocks_at _ _ _ n B) by lia.
  specialize (T n ltac:(lia)). destruct r as [|[[id| |] g] r']; try done; [by subst x; rewrite app_nil_r|].
  case_decide.
  - destruct T as (s & r'' & y & -> & r3 & -> & -> & ->). done.
  - destruct T as (-> & r'' & y & -> & -> & ->). done.
Qed.

Lemma input_blocks l r :
  forallb norm_top l = true → skip_eols r = [] →
  ∃ l1 r1 x, blocks false (at_file (y_input l) ++ r) (l1, r1) ∧ tail_parses r1 x ∧
    length r1 ≤ length (at_file (y_input l) ++ r) ∧ strip l = map TStmt l1 ++ x ∧ next_stmt (at_file (y_input l) ++ r).
Proof.
  intros N E. induction l as [|t l IH].
  { exists [], [], []. simpl. split_and!; [|done|lia|done|by unfold next_stmt; rewrite E].
    intros m Hm. rewrite E in *. destruct m as [|m]; [lia|]. done. }
  simpl in N. apply andb_true_iff in N as [Nt N]. destruct (IH N) as (l1 & r1 & x & B & T & Lr & Es & Nx). clear IH.
  unfold y_input in *. simpl concat. rewrite at_app, <-app_assoc. set (ts := at_file (concat (map y_top l)) ++ r) in *.
  assert (G : ∀ n, 4 * length ts + 6 ≤ n → p_input n ts = Some (strip l)).
  { intros n Hn. rewrite Es. by eapply p_input_ok. }
  unfold strip in *. simpl concat. destruct t as [s|s|t].
  - exists (strip_stmt s ++ l1), r1, x. split_and!.
    + by apply all_stmts_parse.
    + done.
    + rewrite length_app. lia.
    + cbn [strip_top]. by rewrite Es, map_app, app_assoc.
    + by apply stmt_next.
  - exists [], (at_file (y_top (TMainmenu s)) ++ ts), (TMainmenu s :: strip l). split_and!; [| |done|done|done].
    + intros m Hm. destruct m as [|m]; [simpl in Hm; lia|]. done.
    + intros n Hn. simpl. eexists _, _, _. split; [done|]. eexists. split; [done|]. split; [apply G; simpl in Hn; lia|done].
  - assert (K : ∃ id, key (zconf_tokenname t) = LId id ∧ kid_token id = t) by (destruct t; try done; by eexists).
    destruct K as (id & Ek & Et). simpl in Nt. exists [], (at_file (y_top (TEnd t)) ++ ts), (TEnd t :: strip l).
    cbn [y_top]. rewrite Ek. split_and!; [| |done|done|].
    + intros m Hm. destruct m as [|m]; [simpl in Hm; lia|]. simpl. rewrite Et. by destruct t.
    + intros n Hn. simpl. rewrite Et. rewrite decide_False by (by destruct t). split; [done|].
      eexists _, _. split; [done|]. split; [apply G; simpl in Hn; lia|done].
    + unfold next_stmt. simpl. rewrite Et. by destruct t.
Qed.

Lemma parse_tokens_ok l r :
  forallb norm_top l = true → skip_eols r = [] → parse_tokens (at_file (y_input l) ++ r) = Some (strip l).
Proof.
  intros N E. destruct (input_blocks l r N E) as (l1 & r1 & x & B & T & Lr & -> & _). eapply p_input_ok; [done..|]. lia.
Qed.
End Parse.

(** ** Lines without a statement have no effect *)

Lemma miter_app {St A} (g : A → M St ()) l1 l2 s : miter g (l1 ++ l2) s = mthen (miter g l1) (λ _, miter g l2) s.
Proof.
  revert s. induction l1 as [|x l1 IH]; intros s; [done|]. simpl. unfold mthen. destruct (g x s) as [[[] s']| |]; [|done..].
  rewrite IH. done.
Qed.
Lemma miter_one {St A} (g : A → M St ()) x s : miter g [x] s = g x s.
Proof. simpl. unfold mthen, mreturn. by destruct (g x s) as [[[] s']| |]. Qed.
Lemma miter_strip {St A} (g : A → M St ()) (st : A → list A) l s :
  (∀ x s, x ∈ l → miter g (st x) s = g x s) → miter g (concat (map st l)) s = miter g l s.
Proof.
  intros H. revert s. induction l as [|x l IH]; intros s; [done|]. simpl. rewrite miter_app. unfold mthen.
  rewrite H by (by left). destruct (g x s) as [[[] s']| |]; [|done..]. apply IH. intros y t Hy. apply H. by right.
Qed.

Lemma depends_strip d : ∀ k, miter run_depend (strip_depend d) k = run_depend d k.
Proof. intros k. destruct d; [apply miter_one|done]. Qed.
Lemma options_strip o : ∀ p, miter run_config_option (strip_option o) p = run_config_option o p.
Proof. intros p. destruct o; try apply miter_one. done. Qed.
Lemma choices_strip o : ∀ p, miter run_choice_option (strip_choice o) p = run_choice_option o p.
Proof. intros p. destruct o; try apply miter_one. done. Qed.

(** Runs that agree step by step. *)
Lemma mthen_eq {St A B} (m m' : M St A) (k k' : A → M St B) s :
  m s = m' s → (∀ a s', k a s' = k' a s') → mthen m k s = mthen m' k' s.
Proof. intros E H. unfold mthen. rewrite E. destruct (m' s) as [[a s']| |]; auto. Qed.
Lemma lift_eq {A} (m m' : K A) p : m (ps_k p) = m' (ps_k p) → lift m p = lift m' p.
Proof. intros E. unfold lift. by rewrite E. Qed.

Lemma stmt_strip s : ∀ p, miter run_stmt (strip_stmt s) p = run_stmt s p.
Proof.
  induction s as [|e b fin F|s deps|mc s opts|s|opts b fin F|s deps b fin F] using stmt_rec'; intros p; [done|..];
    cbn [strip_stmt]; rewrite miter_one; cbn [run_stmt]; try done.
  all: assert (Hb : ∀ b, Forall (λ s, ∀ p, miter run_stmt (strip_stmt s) p = run_stmt s p) b →
    ∀ p, miter run_stmt (concat (map strip_stmt b)) p = miter run_stmt b p)
    by (intros b0 F0 p0; apply miter_strip; intros x q Hx; by apply (proj1 (Forall_forall _ _) F0)).
  all: assert (Hd : ∀ deps p, miter run_depend (concat (map strip_depend deps)) p = miter run_depend deps p)
    by (intros d0 p0; apply miter_strip; intros; apply depends_strip).
  - apply mthen_eq; [done|]. intros _ q. apply mthen_eq; [by apply Hb|done].
  - apply mthen_eq; [done|]. intros _ q. apply mthen_eq; [apply lift_eq, Hd|done].
  - apply mthen_eq; [done|]. intros _ q. apply mthen_eq; [|done]. apply miter_strip. intros; apply options_strip.
  - apply mthen_eq; [done|]. intros _ q. apply mthen_eq; [apply miter_strip; intros; apply choices_strip|].
    intros _ q'. apply mthen_eq; [done|]. intros _ q2. apply mthen_eq; [by apply Hb|done].
  - apply mthen_eq; [done|]. intros _ q. apply mthen_eq; [apply lift_eq, Hd|].
    intros _ q'. apply mthen_eq; [done|]. intros _ q2. apply mthen_eq; [by apply Hb|done].
Qed.

Lemma zconfparse_strip l p : zconfparse (strip l) p = zconfparse l p.
Proof.
  apply miter_strip. intros t q _. destruct t as [s|s|t]; [|apply miter_one..]. cbn [strip_top run_top].
  rewrite <-stmt_strip. generalize (strip_stmt s). intros b. revert q. induction b as [|x b IH]; intros q; [done|].
  simpl. apply mthen_eq; [done|]. intros [] q'. apply IH.
Qed.
Lemma conf_parse_strip arch version release l p :
  conf_parse arch version release (strip l) p = conf_parse arch version release l p.
Proof. unfold conf_parse. apply mthen_eq; [done|]. intros _ q. apply mthen_eq; [apply zconfparse_strip|done]. Qed.
