(* ===== verification/KLexFacts.v ===== *)
(** * The scanner: every call ends, and strings are kept in their arrays *)
From S2P Require Import Prelude CLib CStr KData KToken KLex.
From Stdlib Require Import Ascii.
Open Scope pr30_scope.

(** ** Spans *)

Lemma break_spec g s a b : break_at g s = (a, b) →
  s = a +:+ b ∧ all_chars (λ c, negb (g c)) a = true ∧ (b = EmptyString ∨ starts g b = true).
Proof.
  revert a b. induction s as [|c s IH]; intros a b; simpl; [intros [= <- <-]; auto|].
  destruct (g c) eqn:E; [intros [= <- <-]; split_and!; [done|done|right; done]|].
  destruct (break_at g s) as [a' b'] eqn:B. intros [= <- <-]. destruct (IH a' b' eq_refl) as (-> & A & H).
  split_and!; [done|simpl; by rewrite E|done].
Qed.
Lemma break_app g a b : all_chars (λ c, negb (g c)) a = true → b = EmptyString ∨ starts g b = true → break_at g (a +:+ b) = (a, b).
Proof.
  intros A H. induction a as [|c a IH]; simpl in *.
  - destruct H as [->|H]; [done|]. destruct b as [|c b]; [done|]. simpl in *. by rewrite H.
  - apply andb_true_iff in A as [C A]. apply negb_true_iff in C. rewrite C. by rewrite (IH A).
Qed.
Lemma break_length g s : String.length (break_at g s).1 + String.length (break_at g s).2 = String.length s.
Proof. destruct (break_at g s) as [a b] eqn:E. destruct (break_spec _ _ _ _ E) as (-> & _). by rewrite string_length_app. Qed.
Lemma span_head g c s : g c = true → (span g (String c s)).1 = String c (span g s).1 ∧ (span g (String c s)).2 = (span g s).2.
Proof. intros H. unfold span. simpl. rewrite H. simpl. by destruct (break_at _ s). Qed.

(** ** Every call ends *)

(** A step that leaves the input, the start condition and the buffers alone. *)
Definition keeps_in {A} (m : L A) : Prop := ∀ s,
  match m s with
  | Done (_, s') => sc_start s' = sc_start s ∧ sc_in s' = sc_in s ∧ sc_bufs s' = sc_bufs s ∧ sc_file s' = sc_file s
  | Crash => True
  | NoFuel => False
  end.
Lemma keeps_bind {A B} (m : L A) (k : A → L B) : keeps_in m → (∀ a, keeps_in (k a)) → keeps_in (mthen m k).
Proof.
  intros Hm Hk s. specialize (Hm s). unfold mthen. destruct (m s) as [[a s']| |]; [|done..].
  specialize (Hk a s'). destruct (k a s') as [[b s'']| |]; [|done..]. intuition congruence.
Qed.
Lemma keeps_ret {A} (a : A) : keeps_in (mreturn a).
Proof. intros s. done. Qed.
Lemma keeps_gets {A} (g : scanner → A) : keeps_in (mgets g).
Proof. intros s. done. Qed.
Lemma keeps_modify (g : scanner → scanner) :
  (∀ s, sc_start (g s) = sc_start s ∧ sc_in (g s) = sc_in s ∧ sc_bufs (g s) = sc_bufs s ∧ sc_file (g s) = sc_file s) → keeps_in (mmodify g).
Proof. intros H s. apply H. Qed.
Lemma keeps_deref {A} (o : option A) : keeps_in (mderef o).
Proof. intros s. by destruct o. Qed.
Lemma keeps_when b (m : L ()) : keeps_in m → keeps_in (mwhen b m).
Proof. destruct b; [done|]. intros _. apply keeps_ret. Qed.
Ltac keeps := repeat first
  [ apply keeps_bind; intros | apply keeps_ret | apply keeps_gets | apply keeps_deref | apply keeps_when
  | by apply keeps_modify ].

Lemma keeps_upd_file name g : keeps_in (upd_file name g).
Proof. unfold upd_file, get_file. keeps. Qed.
Lemma keeps_lineno : keeps_in lineno_incr.
Proof. unfold lineno_incr, current_file, upd_file, get_file. keeps. Qed.
Lemma keeps_append junk str : keeps_in (append_string junk str).
Proof. unfold append_string. keeps. Qed.
Lemma keeps_text : keeps_in text_string.
Proof. unfold text_string. keeps. Qed.
Lemma keeps_spaces junk n ts : ts < n → keeps_in (append_spaces junk n ts).
Proof.
  revert ts. induction n as [|n IH]; intros ts Hn; [lia|]. simpl. destruct (Nat.ltb_spec 8 ts); [|apply keeps_append].
  apply keeps_bind; [apply keeps_append|]. intros _. apply IH. lia.
Qed.

(** An action in the parser may follow on the end of a line. *)
Definition margin (a : action) : nat :=
  match a with Return l => if decide (token_of l = T_EOL) then 2 else 0 | _ => 0 end.
Lemma margin_le a : margin a ≤ 2.
Proof. destruct a as [l| |]; simpl; [case_decide|..]; lia. Qed.

(** ** Ends of texts *)

(** A text that ends with a newline that is not escaped, or is empty; [p] is
    the character before it. *)
Fixpoint whole (p : ascii) (t : string) : bool :=
  match t with
  | EmptyString => true
  | String c EmptyString => is_nl c && negb (isc p bs)
  | String c r => whole c r
  end.
Lemma whole_tail p c r : whole p (String c r) = true → whole nl r = true.
Proof. destruct r as [|d [|e r]]; simpl; [done| |done]. rewrite !andb_true_iff. by intros [-> _]. Qed.
Lemma whole_suffix p a r : whole p (a +:+ r) = true → whole p r = true ∨ whole nl r = true.
Proof.
  revert p. induction a as [|c a IH]; intros p; [by left|]. intros H%whole_tail. right. by destruct (IH nl H).
Qed.
Lemma whole_after a r : whole nl (a +:+ r) = true → whole nl r = true.
Proof. intros H%whole_suffix. tauto. Qed.
Lemma whole_rest a r : whole nl (a +:+ r) = true → a ≠ EmptyString → all_chars (λ c, negb (is_nl c)) a = true → r ≠ EmptyString.
Proof.
  generalize nl at 1. induction a as [|c a IH]; intros p H N A; [done|]. simpl in A. apply andb_true_iff in A as [C A]. intros ->.
  rewrite string_app_nil in *. destruct a as [|d a]; [|by apply (IH c)]. simpl in H. by rewrite (proj1 (negb_true_iff _) C) in H.
Qed.

(** ** Steps *)

(** A step from input [t] in the start condition [c]: the buffers and the
    files stay, and [P] holds of the action, the start condition and the input
    after it. *)
Definition goes (m : L action) (c : start_condition) (t : string) (P : action → start_condition → string → Prop) : Prop := ∀ s,
  sc_start s = c → sc_in s = t →
  match m s with
  | Done (a, s') => sc_bufs s' = sc_bufs s ∧ sc_file s' = sc_file s ∧ P a (sc_start s') (sc_in s')
  | NoFuel => False
  | Crash => True
  end.
Section Goes.
Context (c : start_condition) (t : string) (P : action → start_condition → string → Prop).
Lemma goes_keep {A} (m : L A) k : keeps_in m → (∀ a, goes (k a) c t P) → goes (mthen m k) c t P.
Proof.
  intros Hm Hk s Hc Ht. specialize (Hm s). unfold mthen. destruct (m s) as [[a s']| |]; [|done..].
  destruct Hm as (Hc' & Ht' & Hb & Hf). rewrite <- Hb, <- Hf. apply Hk; congruence.
Qed.
Lemma goes_advance r k : goes (k ()) c r P → goes (mthen (advance r) k) c t P.
Proof. intros H s Hc Ht. by apply (H (sc_set_in r s)). Qed.
Lemma goes_begin c' k : goes (k ()) c' t P → goes (mthen (BEGIN c') k) c t P.
Proof. intros H s Hc Ht. by apply (H (sc_set_start c' s)). Qed.
Lemma goes_in k : goes (k t) c t P → goes (mthen (mgets sc_in) k) c t P.
Proof. intros H s Hc Ht. unfold mthen, mgets. rewrite Ht. by apply H. Qed.
Lemma goes_ret a : P a c t → goes (mreturn a) c t P.
Proof. intros H s Hc Ht. simpl. by rewrite Hc, Ht. Qed.
End Goes.

Ltac goes := repeat first
  [ apply goes_ret | apply goes_in | apply goes_advance | apply goes_begin
  | apply goes_keep; [first [apply keeps_lineno | apply keeps_append | apply keeps_text | solve [keeps]] | intros] ].

Definition in_line (c : start_condition) : bool := match c with PARAM | STRING => true | _ => false end.

(** What a step is: there is less before it; a text that is whole stays so;
    a line that has begun goes on to its end; and only a line end, a help text
    or the first word of a line is returned elsewhere. *)
Definition on_line (t : string) (c' : start_condition) (t' : string) : Prop :=
  in_line c' = true ∧ (whole nl t = true → t' ≠ EmptyString).
Definition moved (c : start_condition) (t : string) (a : action) (c' : start_condition) (t' : string) : Prop :=
  8 * String.length t' + weight c' + margin a < 8 * String.length t + weight c ∧
  (whole nl t = true → whole nl t' = true) ∧
  match a with
  | Return l => token_of l = T_EOL ∨ c = HELP ∧ token_of l = T_HELPTEXT ∨ on_line t c' t'
  | Again _ =>
      if in_line c then on_line t c' t' ∨ t = EmptyString ∧ c' = INITIAL ∧ t' = EmptyString
      else in_line c' = false
  | Terminate => False
  end.

Lemma moved_eol c t c' t' x : 8 * String.length t' + weight c' + 2 < 8 * String.length t + weight c → t = x +:+ t' → moved c t (Return (LTok T_EOL)) c' t'.
Proof. intros H E. split_and!; [done| |by left]. rewrite E. apply whole_after. Qed.
(** The characters [x] of a line are read. *)
Lemma moved_on c t a c' t' x : t = x +:+ t' → x ≠ EmptyString → all_chars (λ c, negb (is_nl c)) x = true → in_line c' = true →
  in_line c = true ∨ (∃ l, a = Return l) → a ≠ Terminate → moved c t a c' t'.
Proof.
  intros E N A C' C T. split_and!.
  - pose proof (margin_le a). destruct x as [|d x]; [done|]. rewrite E. simpl. rewrite string_length_app. destruct c', c; simpl; lia.
  - rewrite E. apply whole_after.
  - assert (O : on_line t c' t') by (split; [done|]; rewrite E; intros H; by apply (whole_rest x)).
    destruct a as [l|d|]; [by right; right| |done]. destruct C as [->|[l ?]]; [by left|done].
Qed.
Lemma moved_skip c t str c' t' x : 8 * String.length t' + weight c' < 8 * String.length t + weight c → t = x +:+ t' → in_line c = false → in_line c' = false →
  moved c t (Again str) c' t'.
Proof. intros H E C C'. split_and!; [simpl; lia|rewrite E; apply whole_after|by rewrite C]. Qed.

Lemma span_spec g s a b : span g s = (a, b) → s = a +:+ b ∧ all_chars g a = true.
Proof.
  intros E. destruct (break_spec _ _ _ _ E) as (-> & A & _). split; [done|]. revert A. apply all_chars_mono. intros c. by rewrite negb_involutive.
Qed.
Lemma span_cons g c r a b : g c = true → span g (String c r) = (a, b) → a ≠ EmptyString.
Proof. intros H E. destruct (span_head g c r H) as [R _]. rewrite E in R. simpl in R. by rewrite R. Qed.
Lemma n_not_nl c : is_n c = true → negb (is_nl c) = true.
Proof. destruct (is_nl c) eqn:E; [|done]. apply isc_true in E as ->. done. Qed.
Lemma word_not_nl c : is_word c = true → negb (is_nl c) = true.
Proof. destruct (is_nl c) eqn:E; [|done]. apply isc_true in E as ->. done. Qed.
Lemma plain_not_nl c : is_plain c = true → negb (is_nl c) = true.
Proof. unfold is_plain. rewrite !andb_true_iff. tauto. Qed.

Section Steps.
Context (junk : nat → ascii) (str : ascii).

Lemma end_line_moves c0 t0 c t r x : t0 = x +:+ r → 8 * String.length r + weight c + 2 < 8 * String.length t0 + weight c0 →
  goes (end_line r) c t (moved c0 t0).
Proof. intros E H. unfold end_line. goes. by apply (moved_eol _ _ _ _ x). Qed.

Lemma step_initial_moves t : t ≠ EmptyString → goes (step_initial str) INITIAL t (moved INITIAL t).
Proof.
  intros N. unfold step_initial. apply goes_in. destruct (span is_blank t) as [ws r] eqn:S. destruct (span_spec _ _ _ _ S) as [E _].
  pose proof (f_equal String.length E) as H. rewrite string_length_app in H. destruct r as [|c r]; simpl in H.
  - destruct ws as [|w ws]; [by subst t|]. simpl in H. goes. apply (moved_skip _ _ _ _ _ (String w ws)); simpl; [lia|done..].
  - assert (E1 : t = (ws +:+ String c "") +:+ r) by (by rewrite E, <- string_app_assoc).
    destruct (is_nl c); [apply (end_line_moves _ _ _ _ _ _ E1); simpl; lia|]. destruct (isc c "#").
    + destruct (break_at is_nl r) as [y q] eqn:B. destruct (break_spec _ _ _ _ B) as (-> & _). rewrite string_length_app in H. destruct q as [|d q]; simpl in *.
      * goes. apply (moved_skip _ _ _ _ _ t); simpl; [lia|by rewrite string_app_nil|done..].
      * apply (end_line_moves _ _ _ _ _ (ws +:+ String c y +:+ String d "")); [|simpl; lia]. rewrite E. by rewrite <- !string_app_assoc.
    + goes. apply (moved_skip _ _ _ _ _ ws); simpl; [lia|done..].
Qed.
Lemma step_command_moves t : t ≠ EmptyString → goes (step_command str) COMMAND t (moved COMMAND t).
Proof.
  intros Nt. unfold step_command. apply goes_in. destruct t as [|c r]; [done|].
  destruct (is_nl c). { apply goes_begin, (end_line_moves _ _ _ _ _ (String c "")); simpl; [done|lia]. }
  destruct (is_n c) eqn:N; [|goes; apply (moved_skip _ _ _ _ _ (String c "")); simpl; [lia|done..]].
  destruct (span is_n _) as [y r'] eqn:E. destruct (span_spec _ _ _ _ E) as [Et A]. pose proof (span_cons _ _ _ _ _ N E) as Ny.
  assert (M : ∀ l, moved COMMAND (String c r) (Return l) PARAM r').
  { intros l. apply (moved_on _ _ _ _ _ y); [done..| | |right; by exists l|done]; [|done]. revert A. apply all_chars_mono, n_not_nl. }
  unfold current_file, get_file. goes. destruct (kconf_id_lookup y) as [id|]; [destruct (kid_command id)|]; unfold alloc_string; goes; apply M.
Qed.
Lemma starts_with x r : starts (λ d, isc d x) r = true → r = String x (tail_of r).
Proof. destruct r as [|d r]; [done|]. simpl. by intros ->%isc_true. Qed.
Lemma operator_spec s t r : operator s = Some (t, r) → ∃ x, s = x +:+ r ∧ x ≠ EmptyString ∧ all_chars (λ c, negb (is_nl c)) x = true.
Proof.
  unfold operator. destruct s as [|c s]; [done|].
  assert (One : ∀ k, String k s = String k "" +:+ s) by done.
  assert (Two : ∀ x k, starts (λ d, isc d x) s = true → String k s = String k (String x "") +:+ tail_of s) by (intros x k H; by rewrite (starts_with x s H) at 1).
  destruct (isc c "&") eqn:E1; [destruct (starts _ s) eqn:S; [|done]|destruct (isc c "|") eqn:E2; [destruct (starts _ s) eqn:S; [|done]|
    destruct (isc c "(") eqn:E3; [|destruct (isc c ")") eqn:E4; [|destruct (isc c "!") eqn:E5; [destruct (starts _ s) eqn:S|destruct (isc c "=") eqn:E6; [|done]]]]]];
    intros [= <- <-]; match goal with H : isc c _ = true |- _ => apply isc_true in H as -> end;
    eexists; (split; [first [by apply Two|by apply One]|done]).
Qed.
Lemma step_param_moves t : goes (step_param junk str) PARAM t (moved PARAM t).
Proof.
  unfold step_param. apply goes_in. destruct t as [|c r].
  { goes. split_and!; [simpl; lia|done|by right]. }
  assert (M : ∀ a x c' t', String c r = x +:+ t' → x ≠ EmptyString → all_chars (λ c, negb (is_nl c)) x = true → in_line c' = true →
    a ≠ Terminate → moved PARAM (String c r) a c' t') by (intros; by apply (moved_on _ _ _ _ _ x); auto).
  destruct (operator (String c r)) as [[t r']|] eqn:O.
  { goes. destruct (operator_spec _ _ _ O) as (x & E & Nx & A). by apply (M _ x). }
  assert (One : is_nl c = false → ∀ d c', in_line c' = true → moved PARAM (String c r) (Again d) c' r).
  { intros N d c' C'. apply (M _ (String c "")); [done..| |done|done]. simpl. by rewrite N. }
  destruct (is_quote c) eqn:Q.
  { unfold new_string. goes. apply One; [|done]. destruct (is_nl c) eqn:N; [|done]. by apply isc_true in N as ->. }
  destruct (is_nl c) eqn:N. { apply goes_begin, (end_line_moves _ _ _ _ _ (String c "")); simpl; [done|lia]. }
  destruct (is_word c) eqn:W.
  { destruct (span is_word (String c r)) as [y r'] eqn:E. destruct (span_spec _ _ _ _ E) as [Et A]. pose proof (span_cons _ _ _ _ _ W E) as Ny.
    apply (all_chars_mono _ _ _ word_not_nl) in A. assert (M' : ∀ a, a ≠ Terminate → moved PARAM (String c r) a PARAM r') by (intros a Ha; by apply (M a y)).
    unfold param_word, alloc_string. apply goes_advance. case_decide; [|destruct (kconf_id_lookup y) as [id|]; [destruct (kid_param id)|]]; goes; by apply M'. }
  destruct (isc c "#").
  { goes. destruct (break_at is_nl r) as [y q] eqn:B. destruct (break_spec _ _ _ _ B) as (-> & A & _). apply (M _ (String c y)); [done..| |done|done]. simpl. by rewrite N. }
  destruct (isc c bs && starts is_nl r) eqn:B; [|goes; by apply One]. goes. apply andb_true_iff in B as [->%isc_true B].
  destruct r as [|d r]; [done|]. simpl in B. apply isc_true in B as ->. simpl tail_of. split_and!; [simpl; lia|by apply (whole_after (String bs (String nl "")))|].
  left. split; [done|]. by destruct r.
Qed.
Lemma quoted_end_moves r t0 t x : t0 = x +:+ r → x ≠ EmptyString → (whole nl t0 = true → r ≠ EmptyString) → goes (quoted_end r str) STRING t (moved STRING t0).
Proof.
  intros E N H. unfold quoted_end. assert (M : ∀ a, a ≠ Terminate → moved STRING t0 a STRING r).
  { intros a Ha. split_and!; [|rewrite E; apply whole_after|].
    - pose proof (margin_le a). destruct x as [|d x]; [done|]. rewrite E. simpl. rewrite string_length_app. lia.
    - destruct a; [by right; right|by left|done]. }
  apply goes_advance. destruct (starts is_nl r); goes; by apply M.
Qed.
Lemma step_string_moves t : goes (step_string junk str) STRING t (moved STRING t).
Proof.
  unfold step_string. apply goes_in. destruct t as [|c r]. { goes. split_and!; [simpl; lia|done|by right]. }
  destruct (is_nl c) eqn:N.
  { unfold zconf_curname, zconf_lineno. goes. apply (moved_eol _ _ _ _ (String c "")); [simpl; lia|done]. }
  assert (A : all_chars (λ c, negb (is_nl c)) (String c "") = true) by (simpl; by rewrite N).
  destruct (is_quote c) eqn:Q. { apply goes_advance. destruct (isc str c); goes; apply (moved_on _ _ _ _ _ (String c "")); auto. }
  destruct (isc c bs) eqn:B.
  - destruct r as [|d r]; [|destruct (is_nl d) eqn:D].
    + apply goes_keep; [apply keeps_append|]. intros. apply (quoted_end_moves _ _ _ (String c "")); [done..|]. simpl. by rewrite N.
    + apply goes_keep; [apply keeps_append|]. intros. by apply (quoted_end_moves _ _ _ (String c "")).
    + apply goes_keep; [apply keeps_append|]. intros. apply (quoted_end_moves _ _ _ (String c (String d ""))); [done..|].
      intros W. apply (whole_rest (String c (String d "")) r W); [done|]. simpl. by rewrite N, D.
  - destruct (span is_plain (String c r)) as [y r'] eqn:E. destruct (span_spec _ _ _ _ E) as [Et Ay].
    assert (Ny : y ≠ EmptyString) by (apply (span_cons is_plain c r y r'); [|done]; unfold is_plain; by rewrite Q, B, N).
    apply goes_keep; [apply keeps_append|]. intros. apply (quoted_end_moves _ _ _ y); [done..|]. rewrite Et. intros W.
    apply (whole_rest y r' W Ny). revert Ay. apply all_chars_mono, plain_not_nl.
Qed.
Lemma help_text_moves t0 t x : t0 = x +:+ t → goes help_text HELP t (moved HELP t0).
Proof.
  intros E s Hc Ht. unfold help_text, zconf_endhelp, text_string, mthen, mgets, mderef, BEGIN, mmodify, mreturn. destruct (cstr_of _); [|done]. simpl. rewrite Ht.
  split_and!; [done..|]. split_and!; [|rewrite E; apply whole_after|by right; left]. rewrite E, string_length_app. simpl. lia.
Qed.
Lemma moved_help t0 t x d : t0 = x +:+ t → x ≠ EmptyString → moved HELP t0 (Again d) HELP t.
Proof.
  intros E N. apply (moved_skip _ _ _ _ _ x); [|done..]. destruct x as [|e x]; [done|]. rewrite E. simpl. rewrite string_length_app. lia.
Qed.
Lemma help_indent_moves ws r t0 t : t0 = ws +:+ r → ws ≠ EmptyString → goes (help_indent junk ws r str) HELP t (moved HELP t0).
Proof.
  intros E N. unfold help_indent. apply goes_advance, goes_keep; [apply keeps_gets|]. intros f. apply goes_keep; [by apply keeps_modify|]. intros.
  destruct (f =? 0); [goes; by apply (moved_help _ _ ws)|]. destruct (_ <? f); [by apply (help_text_moves _ _ ws)|].
  apply goes_keep; [apply keeps_spaces; lia|]. intros. goes. by apply (moved_help _ _ ws).
Qed.
Lemma step_help_moves t : goes (step_help junk str) HELP t (moved HELP t).
Proof.
  unfold step_help. apply goes_in. destruct (span is_blank t) as [ws r] eqn:S. destruct (span_spec _ _ _ _ S) as [E _]. destruct r as [|c r].
  { destruct ws; [by apply (help_text_moves _ _ "")|by apply help_indent_moves]. }
  destruct (is_nl c) eqn:N.
  { assert (E1 : t = (ws +:+ String c "") +:+ r) by (by rewrite E, <- string_app_assoc).
    apply goes_advance, goes_keep; [apply keeps_lineno|]. intros. destruct (starts _ r); [by apply (help_text_moves _ _ _ E1)|].
    goes. apply (moved_help _ _ _ _ E1). by destruct ws. }
  destruct ws; [|by apply help_indent_moves]. destruct (break_at is_nl t) as [y r'] eqn:B. destruct (break_spec _ _ _ _ B) as (Et & _).
  goes. all: apply (moved_help _ _ y); [done|]. all: intros ->; simpl in *; subst t; simpl in B; rewrite N in B; by destruct (break_at is_nl r).
Qed.

(** The ends of files are in [INITIAL] and [COMMAND]. *)
Definition at_eof (c : start_condition) (t : string) : bool :=
  match c, t with (INITIAL | COMMAND), EmptyString => true | _, _ => false end.
Lemma step_moves c t : at_eof c t = false → goes (step junk str) c t (moved c t).
Proof.
  intros H s Hc Ht. unfold step, mthen at 1, mgets. rewrite Hc. destruct c.
  - apply step_initial_moves; [by intros ->|done..].
  - apply step_command_moves; [by intros ->|done..].
  - by apply step_help_moves.
  - by apply step_string_moves.
  - by apply step_param_moves.
Qed.
Lemma step_eof s : at_eof (sc_start s) (sc_in s) = true → step junk str s = rule_eof s.
Proof.
  unfold at_eof, step, step_initial, step_command, mthen, mgets. destruct (sc_start s), (sc_in s) eqn:E; intros H; try done; by rewrite ?E.
Qed.
Lemma rule_eof_shrinks s : sc_in s = EmptyString →
  match rule_eof s with Done (a, s') => a = Terminate ∨ ahead s' + margin a < ahead s | NoFuel => False | Crash => True end.
Proof.
  intros Ht. unfold rule_eof, mthen at 1, mgets. destruct (sc_file s) as [f|] eqn:F; [|by left].
  unfold zconf_endfile, current_file, upd_file, get_file, advance, mthen, mgets, mderef, mmodify, mreturn. rewrite F.
  destruct (find_file f (sc_file_list s)) as [x|]; [|done]. simpl. destruct (find_file f _) as [x'|]; [|done]. simpl.
  destruct (sc_bufs s) as [[|r l]|] eqn:B; [..|done]; simpl; right; unfold ahead; simpl; rewrite B, Ht; simpl; lia.
Qed.
(** After a step of the scanner there is less before it. *)
Lemma step_shrinks s :
  match step junk str s with
  | Done (a, s') => a = Terminate ∨ ahead s' + margin a < ahead s
  | NoFuel => False
  | Crash => True
  end.
Proof.
  destruct (at_eof (sc_start s) (sc_in s)) eqn:E.
  - rewrite (step_eof s E). apply rule_eof_shrinks. unfold at_eof in E. by destruct (sc_start s), (sc_in s).
  - pose proof (step_moves _ _ E s eq_refl eq_refl) as H. destruct (step junk str s) as [[a s']| |]; [|done..].
    destruct H as (B & _ & H & _). right. unfold ahead. rewrite B. lia.
Qed.
End Steps.

Section Calls.
Context (junk : nat → ascii).
Lemma zconflex_f_ends n str s : ahead s < n → zconflex_f junk n str s ≠ NoFuel.
Proof.
  revert str s. induction n as [|n IH]; intros str s H; [lia|]. simpl. unfold mthen. pose proof (step_shrinks junk str s) as D.
  destruct (step junk str s) as [[[l|str'|] s']| |]; [done| |done..]. apply IH. destruct D; [done|lia].
Qed.
(** More fuel does not change what a call returns. *)
Lemma zconflex_f_more n k str s : n ≤ k → zconflex_f junk n str s ≠ NoFuel → zconflex_f junk k str s = zconflex_f junk n str s.
Proof.
  revert k str s. induction n as [|n IH]; intros k str s H; [done|]. destruct k as [|k]; [lia|]. simpl. unfold mthen.
  destruct (step junk str s) as [[[l|str'|] s']| |]; [done| |done..]. apply IH. lia.
Qed.
Lemma zconflex_ends s : zconflex junk s ≠ NoFuel.
Proof. unfold zconflex. apply zconflex_f_ends. lia. Qed.
(** With any fuel that gives a result. *)
Lemma zconflex_result n s r : zconflex_f junk n NUL s = r → r ≠ NoFuel → zconflex junk s = r.
Proof.
  intros <- H. unfold zconflex. destruct (decide (n ≤ S (ahead s))) as [Hle|Hgt].
  - by apply zconflex_f_more.
  - symmetry. apply zconflex_f_more; [lia|]. apply zconflex_ends.
Qed.
Lemma zconflex_f_shrinks n str s l s' : zconflex_f junk n str s = Done (Some l, s') → ahead s' + margin (Return l) < ahead s.
Proof.
  revert str s. induction n as [|n IH]; intros str s; [done|]. cbn [zconflex_f]. unfold mthen. pose proof (step_shrinks junk str s) as D.
  destruct (step junk str s) as [[[l'|str'|] s1]| |]; [| |done..].
  - intros [= -> ->]. by destruct D.
  - intros H%IH. destruct D; [done|lia].
Qed.
End Calls.
