(* ===== verification/KLexSafe.v ===== *)
(** * The scanner: what it keeps true of its state

    Strings stay in their arrays, the files and the buffers that are open
    match, and no call dereferences a null pointer. *)
From S2P Require Import Prelude CLib CStr KData KToken KLex KLexFacts.
From Stdlib Require Import Ascii.
Open Scope pr30_scope.

(** ** Strings *)

(** The array has the text and the 0 behind it, and its size is known. *)
Definition holds (b : textbuf) (t : string) : Prop :=
  tx_size b = String.length t ∧ tx_asize b = length (tx_cells b) ∧ ∃ r, tx_cells b = la t ++ NUL :: r.

Lemma round_up n : let m := Z.to_nat (Z.land (Z.of_nat (n + (START_STRSIZE - 1))) (- Z.of_nat START_STRSIZE)) in n ≤ m < n + 16.
Proof.
  change (- Z.of_nat START_STRSIZE)%Z with (Z.lnot (Z.ones 4)). rewrite <- Z.ldiff_land, Z.ldiff_ones_r by done.
  rewrite Z.shiftl_mul_pow2, Z.shiftr_div_pow2 by done. unfold START_STRSIZE. simpl Nat.sub.
  change (2 ^ 4)%Z with 16%Z. pose proof (Z.div_mod (Z.of_nat (n + 15)) 16 ltac:(done)).
  pose proof (Z.mod_pos_bound (Z.of_nat (n + 15)) 16 ltac:(done)). simpl. lia.
Qed.

Section Strings.
Context (junk : nat → ascii).

Lemma grow_holds b t n : holds b t →
  holds (grow junk b n) t ∧ String.length t + n < length (tx_cells (grow junk b n)) ∧ tx_asize b ≤ tx_asize (grow junk b n).
Proof.
  intros (Sz & A & r & C). unfold grow. destruct (Nat.ltb_spec (tx_asize b) (tx_size b + n + 1)) as [H|H].
  - pose proof (round_up (tx_size b + n + 1)) as R. cbv zeta in R.
    set (m := Z.to_nat _) in *. assert (length (tx_cells b) ≤ m) by lia.
    assert (E : length (tx_cells b ++ drop (length (tx_cells b)) (fresh_cells junk m)) = m).
    { unfold fresh_cells. rewrite length_app, length_drop, length_map, length_seq. lia. }
    unfold holds. cbn [tx_cells tx_size tx_asize]. rewrite take_ge by lia.
    split_and!; [done|lia| |lia|lia]. exists (r ++ drop (length (tx_cells b)) (fresh_cells junk m)).
    rewrite C at 1. by rewrite <- app_assoc.
  - split_and!; [|lia|lia]. split_and!; [done..|]. by exists r.
Qed.
Lemma put_holds b t str : holds b t → String.length t + String.length str < length (tx_cells b) →
  ∃ b', put_text b str = Some b' ∧ holds b' (t +:+ str).
Proof.
  intros (Sz & A & r & C) H. unfold put_text. rewrite Sz. destruct (Nat.ltb_spec (String.length t + String.length str) (length (tx_cells b))); [|lia].
  eexists. split; [done|]. unfold holds. simpl. rewrite string_length_app.
  assert (T : take (String.length t) (tx_cells b) = la t) by (by rewrite C, <- la_length, take_app_length).
  rewrite T. split_and!; [done| |].
  - rewrite A, !length_app, !la_length. simpl. rewrite length_drop. lia.
  - exists (drop (S (String.length t + String.length str)) (tx_cells b)). by rewrite la_app, <- app_assoc.
Qed.

(** [append_string] writes inside the array, at the end of the text. *)
Lemma append_holds str s t : holds (sc_text s) t →
  ∃ b, append_string junk str s = Done ((), sc_set_text b s) ∧ holds b (t +:+ str).
Proof.
  intros H. destruct (grow_holds _ _ (String.length str) H) as (G & L & _). destruct (put_holds _ _ str G L) as (b & E & Hb).
  exists b. split; [|done]. unfold append_string, mthen, mgets, mderef. by rewrite E.
Qed.
Lemma new_holds s : ∃ b, new_string junk s = Done ((), sc_set_text b s) ∧ holds b "".
Proof.
  eexists. split; [done|]. unfold holds, START_STRSIZE, fresh_cells. simpl. split_and!; [done..|]. by eexists.
Qed.
Lemma holds_text b t s : sc_text s = b → holds b t → without [NUL] t = true → text_string s = Done (t, s).
Proof.
  intros <- (_ & _ & r & C) H. unfold text_string, mthen, mgets, mderef. rewrite C. by rewrite cstr_of_app.
Qed.
Lemma holds_some s t : holds (sc_text s) t → ∃ u, text_string s = Done (u, s).
Proof.
  intros (_ & _ & r & C). unfold text_string, mthen, mgets, mderef. rewrite C.
  destruct (cstr_ended (la t ++ NUL :: r) (length (la t)) (lookup_here _ _ _)) as (u & E & _). exists u. by rewrite E.
Qed.
Lemma alloc_text str s : ∃ b u, (do! alloc_string str in text_string) s = Done (u, sc_set_text b s) ∧ (without [NUL] str = true → u = str).
Proof.
  unfold alloc_string, text_string, mthen, mmodify, mgets, mderef. simpl.
  destruct (cstr_ended (la str ++ [NUL]) (length (la str)) (lookup_here _ _ _)) as (u & E & _). rewrite E. do 2 eexists. split; [done|].
  intros N. pose proof (cstr_of_app str [] N). congruence.
Qed.
End Strings.

(** ** Files *)

Lemma find_file_name f l x : find_file f l = Some x → fl_name x = f ∧ x ∈ l.
Proof. intros [H E]%find_some. apply bool_decide_eq_true in E. split; [done|by apply list_elem_of_In]. Qed.
Lemma find_file_upd (u : file → file) f g l : (∀ x, fl_name (u x) = fl_name x) →
  find_file f (map (λ x, if bool_decide (fl_name x = g) then u x else x) l)
  = (λ x, if bool_decide (f = g) then u x else x) <$> find_file f l.
Proof.
  intros N. induction l as [|x l IH]; [done|]. simpl. unfold find_file in *. simpl.
  destruct (bool_decide_reflect (fl_name x = g)) as [E|E].
  - rewrite N. destruct (bool_decide_reflect (fl_name x = f)) as [F|F]; [|done]. simpl. by rewrite bool_decide_true by congruence.
  - destruct (bool_decide_reflect (fl_name x = f)) as [F|F]; [|done]. simpl. by rewrite bool_decide_false by congruence.
Qed.
Lemma upd_file_ok f u s x : find_file f (sc_file_list s) = Some x →
  upd_file f u s = Done ((), sc_set_files (map (λ y, if bool_decide (fl_name y = f) then u y else y) (sc_file_list s)) s).
Proof. intros E. unfold upd_file, get_file, mthen, mgets, mderef. by rewrite E. Qed.

Lemma current_is s f : sc_file s = Some f → current_file s = Done (f, s).
Proof. intros E. unfold current_file, mthen, mgets, mderef. by rewrite E. Qed.
Lemma get_file_is s f x : find_file f (sc_file_list s) = Some x → get_file f s = Done (x, s).
Proof. intros E. unfold get_file, mthen, mgets, mderef. by rewrite E. Qed.

(** The open files, from the current one to the top-level one. *)
Fixpoint stacked (l : list file) (o : option string) (fs : list string) : Prop :=
  match fs with
  | [] => o = None
  | f :: fs => o = Some f ∧ ∃ x, find_file f l = Some x ∧ fl_busy x = true ∧ stacked l (fl_parent x) fs
  end.
Lemma stacked_ext l l' o fs : stacked l o fs →
  (∀ f x, f ∈ fs → find_file f l = Some x → fl_busy x = true →
    ∃ x', find_file f l' = Some x' ∧ fl_parent x' = fl_parent x ∧ fl_busy x' = true) →
  stacked l' o fs.
Proof.
  revert o. induction fs as [|f fs IH]; intros o; simpl; [done|]. intros (-> & x & F & B & S) H. split; [done|].
  destruct (H f x ltac:(by left) F B) as (x' & F' & P & B'). exists x'. split_and!; [done..|]. rewrite P. apply IH; [done|].
  intros g y Hg. apply H. by right.
Qed.

(** ** The invariant *)

Definition in_string (c : start_condition) : bool := match c with STRING | HELP => true | _ => false end.

Record scan_ok (s : scanner) (fs : list string) : Prop := {
  so_stack : stacked (sc_file_list s) (sc_file s) fs;
  so_nodup : NoDup fs;
  so_bufs : match sc_bufs s with None => 0 | Some l => S (length l) end = length fs;
  so_done : fs = [] → sc_in s = EmptyString;
  so_text : in_string (sc_start s) = true → ∃ t, holds (sc_text s) t;
}.

Section Kept.
Context (s : scanner) (fs : list string) (O : scan_ok s fs).
Lemma ok_in r : (fs = [] → r = EmptyString) → scan_ok (sc_set_in r s) fs.
Proof. intros H. destruct O. by split. Qed.
Lemma ok_start c : (in_string c = true → ∃ t, holds (sc_text s) t) → scan_ok (sc_set_start c s) fs.
Proof. intros H. destruct O. by split. Qed.
Lemma ok_out c : in_string c = false → scan_ok (sc_set_start c s) fs.
Proof. intros H. apply ok_start. by rewrite H. Qed.
Lemma ok_text b t : holds b t → scan_ok (sc_set_text b s) fs.
Proof. intros H. destruct O. split; [done..|]. by exists t. Qed.
Lemma ok_any b : in_string (sc_start s) = false → scan_ok (sc_set_text b s) fs.
Proof. intros H. destruct O. split; [done..|]. simpl. by rewrite H. Qed.
Lemma ok_ts l f : scan_ok (sc_set_ts l f s) fs.
Proof. destruct O. by split. Qed.
Lemma ok_pos p : scan_ok (sc_set_pos p s) fs.
Proof. destruct O. by split. Qed.
Lemma ok_print t : scan_ok (sc_print t s) fs.
Proof. destruct O. by split. Qed.
Lemma ok_file : fs ≠ [] → ∃ f x, sc_file s = Some f ∧ f ∈ fs ∧ find_file f (sc_file_list s) = Some x.
Proof.
  intros H. destruct O as [St _ _ _ _]. destruct fs as [|f fs']; [done|]. destruct St as (E & x & F & _). exists f, x. split_and!; [done|by left|done].
Qed.
Lemma ok_more c r : sc_in s = String c r → fs ≠ [].
Proof. intros E ->. by rewrite (so_done _ _ O) in E. Qed.
End Kept.

Section Safe.
Context (junk : nat → ascii).

(** What a step keeps beside the invariant. *)
Definition same_scan (s s' : scanner) : Prop :=
  sc_start s' = sc_start s ∧ sc_in s' = sc_in s ∧ sc_text s' = sc_text s ∧ sc_first_ts s' = sc_first_ts s ∧ sc_file s' = sc_file s.
Lemma lineno_ok s fs : scan_ok s fs → fs ≠ [] → yields lineno_incr s (λ _ s', scan_ok s' fs ∧ same_scan s s').
Proof.
  intros O N. destruct (ok_file s fs O N) as (f & x & E & _ & F). unfold lineno_incr.
  eapply yields_done; [rewrite (mthen_done _ _ _ _ _ (current_is _ _ E)); by apply (upd_file_ok _ _ _ x)|]. split; [|done]. destruct O as [St ND B D T]. split; [|done..].
  simpl. apply (stacked_ext _ _ _ _ St). intros g y _ G Y. rewrite find_file_upd by done. rewrite G. simpl.
  eexists. split; [done|]. by destruct (bool_decide (g = f)).
Qed.

(** A step that ends in a state with the invariant. *)
Definition safe (m : L action) (s : scanner) : Prop := yields m s (λ _ s', ∃ fs, scan_ok s' fs).
Lemma safe_ret a s fs : scan_ok s fs → safe (mreturn a) s.
Proof. intros O. apply yields_ret. by exists fs. Qed.
Lemma safe_append str k s fs : scan_ok s fs → in_string (sc_start s) = true →
  (∀ b t, holds b t → scan_ok (sc_set_text b s) fs → safe k (sc_set_text b s)) → safe (do! append_string junk str in k) s.
Proof.
  intros O I H. destruct (so_text _ _ O I) as (t & Ht). destruct (append_holds junk str s t Ht) as (b & E & Hb).
  eapply yields_bind; [apply (yields_done _ _ _ _ (λ _ s', s' = sc_set_text b s) E); done|]. intros _ ? ->.
  apply (H b (t +:+ str)); [done|]. by apply (ok_text _ _ O b (t +:+ str)).
Qed.
Lemma safe_text (g : string → action) s fs : scan_ok s fs → in_string (sc_start s) = true →
  safe (let! t := text_string in mreturn (g t)) s.
Proof.
  intros O I. destruct (so_text _ _ O I) as (t & Ht). destruct (holds_some s t Ht) as (u & E).
  eapply yields_bind; [apply (yields_done _ _ _ _ (λ _ s', s' = s) E); done|]. intros v ? ->. by apply (safe_ret _ _ fs).
Qed.
Lemma safe_word y s fs : scan_ok s fs → in_string (sc_start s) = false →
  safe (do! alloc_string y in let! t := text_string in mreturn (Return (LStr T_WORD t))) s.
Proof.
  intros O I. destruct (alloc_text y s) as (b & u & E & _). unfold mthen in E. unfold safe, yields, mthen. simpl in *.
  destruct (text_string _) as [[v s']| |]; simplify_eq. simpl. do 2 eexists. split; [done|]. exists fs. by apply ok_any.
Qed.
Lemma safe_line r s fs : scan_ok s fs → fs ≠ [] → safe (end_line r) s.
Proof.
  intros O N. apply yields_modify. eapply yields_bind; [apply lineno_ok; [apply (ok_in _ _ O); done|done]|].
  intros _ s' [O' _]. by apply (safe_ret _ _ fs).
Qed.
Lemma safe_eof s fs : scan_ok s fs → sc_in s = EmptyString → safe rule_eof s.
Proof.
  intros O I. destruct (decide (fs = [])) as [->|N].
  { unfold rule_eof. apply yields_gets. rewrite (so_stack _ _ O). by apply (safe_ret _ _ []). }
  destruct fs as [|f fs]; [done|]. destruct O as [(E & x & F & B & St) ND Bu D T]. unfold rule_eof.
  apply yields_gets. rewrite E. unfold zconf_endfile, current_file.
  assert (F' := find_file_upd (λ x, File (fl_name x) (fl_parent x) (fl_lineno x) false true) f f (sc_file_list s) ltac:(done)).
  rewrite F, bool_decide_true in F' by done. simpl in F'.
  unfold safe, yields, mthen, mgets, mderef. rewrite E, (upd_file_ok _ _ _ _ F). unfold get_file, mthen, mgets, mderef. simpl. rewrite F'. simpl.
  apply NoDup_cons in ND as [Nf ND].
  assert (St' : stacked (map (λ y, if bool_decide (fl_name y = f) then File (fl_name y) (fl_parent y) (fl_lineno y) false true else y) (sc_file_list s)) (fl_parent x) fs).
  { apply (stacked_ext _ _ _ _ St). intros g y Hg G Y. exists y. rewrite find_file_upd by done. rewrite G. simpl.
    rewrite bool_decide_false by congruence. done. }
  destruct (sc_bufs s) as [[|r l]|]; simpl in Bu; [..|done]; simpl; do 2 eexists; (split; [done|]); exists fs; split; simpl; try done; try lia.
  intros ->. simpl in Bu. lia.
Qed.

Lemma step_initial_safe str s fs : scan_ok s fs → sc_start s = INITIAL → safe (step_initial str) s.
Proof.
  intros O C. unfold step_initial. apply yields_gets. destruct (span is_blank (sc_in s)) as [ws r] eqn:E.
  destruct (break_spec _ _ _ _ E) as (A & _). destruct r as [|c r].
  - destruct ws as [|w ws]; [by apply (safe_eof s fs)|]. do 2 apply yields_modify. apply (safe_ret _ _ fs), ok_out; [by apply ok_in|done].
  - assert (N : fs ≠ []) by (destruct ws; by apply (ok_more s fs O _ _ A)).
    destruct (is_nl c); [by apply (safe_line _ _ fs)|]. destruct (isc c "#").
    + destruct (break_at is_nl r).2; [|by apply (safe_line _ _ fs)]. apply yields_modify, (safe_ret _ _ fs). by apply ok_in.
    + do 2 apply yields_modify. apply (safe_ret _ _ fs), ok_out; [by apply ok_in|done].
Qed.
Lemma step_command_safe str s fs : scan_ok s fs → sc_start s = COMMAND → safe (step_command str) s.
Proof.
  intros O C. unfold step_command. apply yields_gets. destruct (sc_in s) as [|c r] eqn:E; [by apply (safe_eof s fs)|].
  pose proof (ok_more s fs O _ _ E) as N. destruct (is_nl c).
  { apply yields_modify, (safe_line _ _ fs); [by apply ok_out|done]. }
  destruct (is_n c); [|apply yields_modify, (safe_ret _ _ fs), ok_in; done].
  destruct (span is_n _) as [y r']. do 2 apply yields_modify. destruct (ok_file s fs O N) as (f & x & F & _ & G).
  set (s1 := sc_set_start PARAM (sc_set_in r' s)). unfold safe, yields. rewrite (mthen_done _ _ _ _ _ (current_is s1 f F)).
  rewrite (mthen_done _ _ _ _ _ (get_file_is s1 f x G)). apply yields_modify.
  assert (O' : scan_ok (sc_set_pos (Some f, fl_lineno x) s1) fs) by (apply ok_pos, ok_out; [by apply ok_in|done]).
  destruct (kconf_id_lookup y) as [id|]; [destruct (kid_command id); [by apply (safe_ret _ _ fs)|]|]; by apply (safe_word _ _ fs).
Qed.
Lemma step_param_safe str s fs : scan_ok s fs → sc_start s = PARAM → safe (step_param junk str) s.
Proof.
  intros O C. unfold step_param. apply yields_gets. destruct (sc_in s) as [|c r] eqn:E.
  { apply yields_modify, (safe_ret _ _ fs). by apply ok_out. }
  pose proof (ok_more s fs O _ _ E) as N. destruct (operator _) as [[t r']|].
  { apply yields_modify, (safe_ret _ _ fs), ok_in; done. }
  destruct (is_quote c).
  { apply yields_modify. destruct (new_holds junk (sc_set_in r s)) as (b & Eb & Hb). unfold safe, yields. rewrite (mthen_done _ _ _ _ _ Eb).
    do 2 eexists. split; [done|]. exists fs. apply ok_start; [|by exists EmptyString]. apply (ok_text _ _) with EmptyString; [by apply ok_in|done]. }
  destruct (is_nl c). { apply yields_modify, (safe_line _ _ fs); [by apply ok_out|done]. }
  destruct (is_word c).
  { destruct (span is_word _) as [y r']. unfold param_word. apply yields_modify.
    assert (O' : scan_ok (sc_set_in r' s) fs) by (by apply ok_in). assert (I : in_string (sc_start (sc_set_in r' s)) = false) by (simpl; by rewrite C).
    case_decide; [by apply (safe_ret _ _ fs)|].
    destruct (kconf_id_lookup y) as [id|]; [destruct (kid_param id); [by apply (safe_ret _ _ fs)|]|]; by apply (safe_word _ _ fs). }
  destruct (isc c "#"); [apply yields_modify, (safe_ret _ _ fs), ok_in; done|]. destruct (_ && _).
  - apply yields_modify. eapply yields_bind; [apply lineno_ok; [by apply ok_in|done]|]. intros _ s' [O' _]. by apply (safe_ret _ _ fs).
  - apply yields_modify, (safe_ret _ _ fs), ok_in; done.
Qed.
Lemma quoted_end_safe r str s fs : scan_ok s fs → fs ≠ [] → in_string (sc_start s) = true → safe (quoted_end r str) s.
Proof.
  intros O N I. unfold quoted_end. apply yields_modify. assert (O' : scan_ok (sc_set_in r s) fs) by (by apply ok_in).
  destruct (starts is_nl r); [|by apply (safe_ret _ _ fs)]. by apply (safe_text (λ t, Return (LStr T_WORD_QUOTE t)) _ fs).
Qed.
Lemma quoted_safe y r str s fs : scan_ok s fs → fs ≠ [] → in_string (sc_start s) = true →
  safe (do! append_string junk y in quoted_end r str) s.
Proof. intros O N I. apply (safe_append _ _ _ fs); [done..|]. intros b t _ O'. by apply (quoted_end_safe _ _ _ fs). Qed.
Lemma step_string_safe str s fs : scan_ok s fs → sc_start s = STRING → safe (step_string junk str) s.
Proof.
  intros O C. assert (I : in_string (sc_start s) = true) by (by rewrite C). unfold step_string. apply yields_gets.
  destruct (sc_in s) as [|c r] eqn:E. { apply yields_modify, (safe_ret _ _ fs). by apply ok_out. }
  pose proof (ok_more s fs O _ _ E) as N. destruct (is_nl c).
  { apply yields_modify. do 2 apply yields_gets. apply yields_modify.
    eapply yields_bind; [apply lineno_ok; [apply ok_print, ok_in; done|done]|]. intros _ s' [O' _].
    apply yields_modify, (safe_ret _ _ fs). by apply ok_out. }
  destruct (is_quote c).
  { apply yields_modify. destruct (isc str c).
    - destruct (so_text _ _ O I) as (t & Ht). destruct (holds_some (sc_set_start PARAM (sc_set_in r s)) t Ht) as (u & Eu).
      apply yields_modify. eapply yields_done; [by rewrite (mthen_done _ _ _ _ _ Eu)|]. exists fs. apply ok_out; [by apply ok_in|done].
    - apply (safe_append _ _ _ fs); [by apply ok_in|done|]. intros b t _ O'. by apply (safe_ret _ _ fs). }
  destruct (isc c bs); [|destruct (span is_plain _) as [y r']; by apply (quoted_safe _ _ _ _ fs)].
  destruct r as [|d r]; [|destruct (is_nl d)]; by apply (quoted_safe _ _ _ _ fs).
Qed.
Lemma help_text_safe s fs : scan_ok s fs → in_string (sc_start s) = true → safe help_text s.
Proof.
  intros O I. destruct (so_text _ _ O I) as (t & Ht). destruct (holds_some s t Ht) as (u & E).
  unfold help_text, zconf_endhelp, safe, yields, mthen. rewrite E. do 2 eexists. split; [done|]. exists fs. by apply ok_out.
Qed.
Lemma append_spaces_safe n ts k s fs : ts < n → scan_ok s fs → in_string (sc_start s) = true →
  (∀ s', scan_ok s' fs → safe k s') → safe (do! append_spaces junk n ts in k) s.
Proof.
  revert ts s. induction n as [|n IH]; intros ts s Hn O I H; [lia|]. simpl. destruct (Nat.ltb_spec 8 ts).
  - pose proof (safe_append (spaces 8) (do! append_spaces junk n (ts - 8) in k) s fs O I) as A. unfold safe, yields, mthen in *.
    destruct A as (a & s' & E & Q).
    { intros b t _ O'. apply IH; [lia|done..]. }
    exists a, s'. split; [|done]. destruct (append_string _ _ s) as [[? ?]| |]; done.
  - apply (safe_append _ _ _ fs); [done..|]. intros b t _ O'. by apply H.
Qed.
Lemma help_indent_safe ws r str s fs : scan_ok s fs → fs ≠ [] → sc_start s = HELP → safe (help_indent junk ws r str) s.
Proof.
  intros O N C. unfold help_indent. apply yields_modify, yields_gets, yields_modify.
  assert (O' : scan_ok (sc_set_ts (columns 0 ws) (sc_first_ts (sc_set_in r s)) (sc_set_in r s)) fs) by (by apply ok_ts, ok_in).
  assert (I : in_string (sc_start (sc_set_ts (columns 0 ws) (sc_first_ts (sc_set_in r s)) (sc_set_in r s))) = true) by (simpl; by rewrite C).
  destruct (_ =? 0); [by apply (safe_ret _ _ fs)|]. destruct (_ <? _); [by apply (help_text_safe _ fs)|].
  apply (append_spaces_safe _ _ _ _ fs); [lia|done..|]. intros s' Os. by apply (safe_ret _ _ fs).
Qed.
Lemma step_help_safe str s fs : scan_ok s fs → sc_start s = HELP → safe (step_help junk str) s.
Proof.
  intros O C. assert (I : in_string (sc_start s) = true) by (by rewrite C). unfold step_help. apply yields_gets.
  destruct (span is_blank (sc_in s)) as [ws r] eqn:E. destruct (break_spec _ _ _ _ E) as (A & _). destruct r as [|c r].
  { destruct ws as [|w ws]; [by apply (help_text_safe s fs)|]. apply (help_indent_safe _ _ _ _ fs); [done| |done]. by apply (ok_more s fs O _ _ A). }
  assert (N : fs ≠ []) by (destruct ws; by apply (ok_more s fs O _ _ A)). destruct (is_nl c).
  { apply yields_modify. eapply yields_bind; [apply lineno_ok; [by apply ok_in|done]|]. intros _ s' [O' (C' & _)]. simpl in C'.
    assert (I' : in_string (sc_start s') = true) by (by rewrite C', C).
    destruct (starts _ r); [by apply (help_text_safe _ fs)|]. apply (safe_append _ _ _ fs); [done..|]. intros b t _ O2. by apply (safe_ret _ _ fs). }
  destruct ws as [|w ws]; [|by apply (help_indent_safe _ _ _ _ fs)]. destruct (break_at is_nl (sc_in s)) as [y r'].
  apply yields_modify, (safe_append _ _ _ fs); [by apply ok_in|done|]. intros b t _ O'. do 2 apply yields_gets.
  destruct (_ =? 0); [|by apply (safe_ret _ _ fs)]. apply yields_modify. apply (safe_ret _ _ fs). by apply ok_ts.
Qed.
Lemma step_safe str s fs : scan_ok s fs → safe (step junk str) s.
Proof.
  intros O. unfold step. apply yields_gets. destruct (sc_start s) eqn:C.
  - by apply (step_initial_safe _ _ fs).
  - by apply (step_command_safe _ _ fs).
  - by apply (step_help_safe _ _ fs).
  - by apply (step_string_safe _ _ fs).
  - by apply (step_param_safe _ _ fs).
Qed.

(** A call of the scanner ends in a state with the invariant. *)
Lemma zconflex_f_safe n str s fs : scan_ok s fs → ahead s < n → yields (zconflex_f junk n str) s (λ _ s', ∃ fs, scan_ok s' fs).
Proof.
  revert str s fs. induction n as [|n IH]; intros str s fs O Hn; [lia|]. simpl. unfold yields, mthen.
  pose proof (step_shrinks junk str s) as D. destruct (step_safe str s fs O) as (a & s' & E & fs' & O'). rewrite E in *.
  destruct a as [l|str'|]; [by eauto| |by eauto]. apply (IH str' s' fs'); [done|]. destruct D; [done|lia].
Qed.
End Safe.
