(* ===== verification/KLexRun.v ===== *)
(** * Scanning a tree of files

    Whatever files a description sources, the scan ends: each file is read at
    most once.  If the top-level file ends with its line, no pointer is null
    where it is used. *)
From S2P Require Import Prelude CLib CStr KData KToken KLex KLexFacts KLexSafe.
From Stdlib Require Import Ascii.
Open Scope pr30_scope.

(** ** Files that were not read *)

Definition fresh (l : list file) (f : string) : bool :=
  match find_file f l with Some x => negb (fl_busy x) && negb (fl_scanned x) | None => true end.

Definition stale {A} (m : L A) : Prop := ∀ s a s', m s = Done (a, s') →
  ∀ f, fresh (sc_file_list s') f = true → fresh (sc_file_list s) f = true.
Lemma stale_bind {A B} (m : L A) (k : A → L B) : stale m → (∀ a, stale (k a)) → stale (mthen m k).
Proof.
  intros Hm Hk s b s'. unfold mthen. destruct (m s) as [[a s1]| |] eqn:E; [|done..]. intros E' f F.
  apply (Hm _ _ _ E), (Hk _ _ _ _ E'), F.
Qed.
Lemma stale_same {A} (m : L A) : (∀ s, match m s with Done (_, s') => sc_file_list s' = sc_file_list s | _ => True end) → stale m.
Proof. intros H s a s' E f. specialize (H s). rewrite E in H. by rewrite H. Qed.
Lemma stale_upd name u : (∀ x, fl_name (u x) = fl_name x ∧ (fl_busy (u x) || fl_scanned (u x) = false → fl_busy x || fl_scanned x = false)) →
  stale (upd_file name u).
Proof.
  intros H s a s'. unfold upd_file, get_file, mthen, mgets, mderef. destruct (find_file name (sc_file_list s)) as [x|]; [|done].
  intros [= <- <-] f. simpl. unfold fresh. rewrite find_file_upd by apply H. destruct (find_file f (sc_file_list s)) as [y|]; [|done]. simpl.
  case_bool_decide; [|done]. rewrite <- !negb_orb, !negb_true_iff. apply H.
Qed.
Lemma stale_deref {A} (o : option A) : stale (mderef o).
Proof. apply stale_same. intros s. by destruct o. Qed.
Ltac stale := repeat first
  [ apply stale_upd; intros; split; [done|]; simpl; (done || tauto)
  | apply stale_bind; intros
  | progress unfold end_line, rule_eof, zconf_endfile, current_file, get_file, lineno_incr, append_string, alloc_string,
      text_string, new_string, param_word, quoted_end, help_text, help_indent, zconf_endhelp, zconf_curname, zconf_lineno, mwhen
  | apply stale_same; intros; done
  | apply stale_deref
  | case_match ].
Section Stale.
Context (junk : nat → ascii).
Lemma stale_spaces n ts : stale (append_spaces junk n ts).
Proof.
  revert ts. induction n as [|n IH]; intros ts; [done|]. cbn [append_spaces].
  case_match; [apply (stale_bind (append_string junk _)); [stale|]; intros; apply IH|stale].
Qed.
Lemma stale_step str : stale (step junk str).
Proof.
  unfold step. apply stale_bind; [by apply stale_same|]. intros [].
  - unfold step_initial. stale.
  - unfold step_command. stale.
  - unfold step_help. stale. all: apply stale_spaces.
  - unfold step_string. stale.
  - unfold step_param. stale.
Qed.
Lemma stale_zconflex_f n str : stale (zconflex_f junk n str).
Proof.
  revert str. induction n as [|n IH]; intros str; [done|]. simpl. apply stale_bind; [apply stale_step|]. intros []; [by apply stale_same|apply IH|by apply stale_same].
Qed.
End Stale.

(** ** Sourced files *)

Section Files.
Context (junk : nat → ascii) (fopen : string → option string) (glob : string → globbed).
(** The files there are. *)
Context (names : list string) (Hopen : ∀ f t, fopen f = Some t → f ∈ names).

Definition file_size (f : string) : nat := 8 * String.length (default EmptyString (fopen f)) + 8.
Definition to_open (l : list file) : nat := sum_list_with (λ f, if fresh l f then file_size f else 0) names.
(** All that may still be read. *)
Definition to_read (s : scanner) : nat := ahead s + to_open (sc_file_list s).

Lemma sum_fresh_le l l' ns : (∀ f, fresh l' f = true → fresh l f = true) →
  sum_list_with (λ f, if fresh l' f then file_size f else 0) ns ≤ sum_list_with (λ f, if fresh l f then file_size f else 0) ns.
Proof.
  intros H. induction ns as [|f ns IH]; simpl; [lia|]. specialize (H f).
  destruct (fresh l' f); [rewrite H by done|destruct (fresh l f)]; lia.
Qed.
Lemma to_open_total l : to_open l ≤ sum_list_with file_size names.
Proof. unfold to_open. clear Hopen. induction names as [|g ns IH]; simpl; [lia|]. destruct (fresh l g); lia. Qed.
Lemma to_open_le l l' : (∀ f, fresh l' f = true → fresh l f = true) → to_open l' ≤ to_open l.
Proof. apply sum_fresh_le. Qed.
Lemma to_open_lt l l' f : (∀ g, fresh l' g = true → fresh l g = true) → f ∈ names → fresh l f = true → fresh l' f = false →
  to_open l' + file_size f ≤ to_open l.
Proof.
  intros H Hf F F'. unfold to_open. clear Hopen. induction names as [|g ns IH]; simpl; [by apply elem_of_nil in Hf|].
  apply elem_of_cons in Hf as [<-|Hf].
  - rewrite F, F'. pose proof (sum_fresh_le l l' ns H). lia.
  - specialize (IH Hf). specialize (H g). destruct (fresh l' g); [rewrite H by done|destruct (fresh l g)]; lia.
Qed.

(** The current file when a file is looked up. *)
Lemma file_lookup_run f s : ∃ l, file_lookup f s = Done (f, sc_set_files l s) ∧
  (∀ g, g ≠ f → find_file g l = find_file g (sc_file_list s)) ∧
  ∃ x, find_file f l = Some x ∧ default (File f None 0 false false) (find_file f (sc_file_list s)) = x.
Proof.
  unfold file_lookup, mthen, mgets. destruct (find_file f (sc_file_list s)) as [x|] eqn:E.
  - exists (sc_file_list s). destruct (find_file_name _ _ _ E) as [-> _]. split_and!; [by destruct s|done|]. by exists x.
  - eexists. split_and!; [done| |].
    + intros g Hg. unfold find_file. simpl. by rewrite bool_decide_false by congruence.
    + unfold find_file. simpl. rewrite bool_decide_true by done. by eexists.
Qed.

(** The state after a file was opened. *)
Record pushed (f t : string) (bufs : list string) (s s' : scanner) : Prop := {
  pu_start : sc_start s' = sc_start s;
  pu_text : sc_text s' = sc_text s;
  pu_in : sc_in s' = t;
  pu_bufs : sc_bufs s' = Some (sc_in s :: bufs);
  pu_file : sc_file s' = Some f;
  pu_new : ∃ x, find_file f (sc_file_list s') = Some x ∧ fl_parent x = sc_file s ∧ fl_busy x = true;
  pu_others : ∀ g, g ≠ f → find_file g (sc_file_list s') = find_file g (sc_file_list s);
}.
Lemma push_file_run f s bufs : sc_bufs s = Some bufs →
  yields (push_file fopen f) s (λ ok s',
    if ok then ∃ t, fopen f = Some t ∧ fresh (sc_file_list s) f = true ∧ pushed f t bufs s s'
    else fopen f = None ∨ fresh (sc_file_list s) f = false).
Proof.
  intros B. unfold push_file. destruct (file_lookup_run f s) as (l & E & Ho & x & Fx & Dx).
  unfold yields. rewrite (mthen_done _ _ _ _ _ E). apply yields_gets, yields_gets. simpl. rewrite B. apply (yields_deref _ bufs); [done|].
  destruct (fopen f) as [t|]; [|by eapply yields_done; [done|left]]. do 2 apply yields_modify.
  set (s1 := sc_set_in t _). unfold yields. rewrite (mthen_done _ _ _ _ _ (get_file_is s1 f x Fx)).
  assert (Fr : fresh (sc_file_list s) f = negb (fl_busy x) && negb (fl_scanned x)).
  { unfold fresh. destruct (find_file f (sc_file_list s)) as [y|]; simpl in Dx; by subst x. }
  destruct (fl_busy x); [by eapply yields_done; [done|right]|]. destruct (fl_scanned x); [by eapply yields_done; [done|right]|].
  apply yields_gets. unfold yields. cbv beta. rewrite (mthen_done _ _ _ _ _ (upd_file_ok f _ s1 x Fx)). apply yields_modify, yields_ret.
  exists t. split_and!; [done..|]. split; simpl; try done.
  - rewrite find_file_upd by done. rewrite Fx. simpl. rewrite bool_decide_true by done. by eexists.
  - intros g Hg. rewrite find_file_upd by done. rewrite bool_decide_false by done. rewrite <- (Ho g Hg). by destruct (find_file g l).
Qed.
Lemma push_file_fresh p t s bufs : sc_bufs s = Some bufs → fopen p = Some t → fresh (sc_file_list s) p = true →
  ∃ s', push_file fopen p s = Done (true, s') ∧ pushed p t bufs s s'.
Proof.
  intros B T F. destruct (push_file_run p s bufs B) as (ok & s' & E & H). exists s'. destruct ok; [|destruct H; congruence].
  destruct H as (t' & T' & _ & P). assert (t' = t) as -> by congruence. done.
Qed.

Lemma push_fresh f t bufs s s' g : pushed f t bufs s s' → fresh (sc_file_list s') g = true → fresh (sc_file_list s) g = true ∧ g ≠ f.
Proof.
  intros P. unfold fresh. destruct (decide (g = f)) as [->|N].
  - destruct (pu_new _ _ _ _ _ P) as (x & -> & _ & B). by rewrite B.
  - rewrite (pu_others _ _ _ _ _ P g N). done.
Qed.
Lemma push_to_read f t bufs s s' : sc_bufs s = Some bufs → fopen f = Some t → fresh (sc_file_list s) f = true → pushed f t bufs s s' → to_read s' < to_read s.
Proof.
  intros B T F P. unfold to_read. pose proof (to_open_lt (sc_file_list s) (sc_file_list s') f) as U.
  specialize (U (λ g H, proj1 (push_fresh _ _ _ _ _ g P H)) (Hopen f t T) F). rewrite <- not_true_iff_false in U.
  specialize (U (λ H, proj2 (push_fresh _ _ _ _ _ f P H) eq_refl)). unfold file_size in U. rewrite T in U. simpl in U.
  unfold ahead. rewrite (pu_start _ _ _ _ _ P), (pu_in _ _ _ _ _ P), (pu_bufs _ _ _ _ _ P), B. simpl. lia.
Qed.
Lemma push_ok f t bufs s s' fs : sc_bufs s = Some bufs → fresh (sc_file_list s) f = true → pushed f t bufs s s' → scan_ok s fs → scan_ok s' (f :: fs).
Proof.
  intros B F P [St ND Bu D T].
  assert (Hf : ∀ g x, find_file g (sc_file_list s) = Some x → fl_busy x = true → g ≠ f).
  { intros g x G X ->. unfold fresh in F. rewrite G, X in F. done. }
  assert (Nf : f ∉ fs).
  { intros Hin. clear -St Hin Hf. revert St. generalize (sc_file s). induction fs as [|g gs IH]; intros o; [by apply elem_of_nil in Hin|].
    intros (-> & x & G & X & St). apply elem_of_cons in Hin as [<-|Hin]; [by apply (Hf f x)|by apply (IH Hin _ St)]. }
  destruct (pu_new _ _ _ _ _ P) as (x & X & Pa & Bx). split.
  - split; [apply (pu_file _ _ _ _ _ P)|]. exists x. split_and!; [done..|]. rewrite Pa. apply (stacked_ext _ _ _ _ St).
    intros g y Hg G Y. exists y. rewrite (pu_others _ _ _ _ _ P); [done|congruence].
  - by apply NoDup_cons.
  - rewrite (pu_bufs _ _ _ _ _ P). rewrite B in Bu. simpl in *. lia.
  - done.
  - rewrite (pu_start _ _ _ _ _ P), (pu_text _ _ _ _ _ P). done.
Qed.

(** The rest of the top-level file is whole. *)
Definition bottom (s : scanner) : Prop :=
  match sc_bufs s with None => True | Some l => whole nl (List.last l (sc_in s)) = true end.

Lemma last_below (x : string) l d : List.last (x :: l) d = List.last l x.
Proof. revert x d. induction l as [|y l IH]; intros x d; [done|]. change (List.last (y :: l) d = List.last (y :: l) x). by rewrite !IH. Qed.

(** What the parser does in the scanner. *)
Record called (n : nat) (s s' : scanner) : Prop := {
  ca_read : to_read s' ≤ to_read s + n;
  ca_ok : ∀ fs, scan_ok s fs → ∃ fs', scan_ok s' fs';
  ca_bottom : bottom s → bottom s';
  ca_bufs : is_Some (sc_bufs s) → is_Some (sc_bufs s');
}.
Lemma called_refl n s : called n s s.
Proof. split; [lia|eauto|done|done]. Qed.
Definition outcome_at (s : scanner) (n : nat) (P : Prop) (r : outcome (bool * scanner)) : Prop :=
  match r with
  | Done (ok, s') => ok = true → called n s s'
  | Crash => P
  | NoFuel => False
  end.

Lemma push_called f t bufs s s' : sc_bufs s = Some bufs → fopen f = Some t → fresh (sc_file_list s) f = true → pushed f t bufs s s' → called 0 s s'.
Proof.
  intros B T F P. split.
  - pose proof (push_to_read f t bufs s s' B T F P). lia.
  - intros fs O. exists (f :: fs). by apply (push_ok f t bufs s s').
  - unfold bottom. by rewrite B, (pu_bufs _ _ _ _ _ P), last_below.
  - rewrite (pu_bufs _ _ _ _ _ P). by eexists.
Qed.
Lemma push_files_run paths s : outcome_at s 0 (sc_bufs s = None) (push_files fopen paths s).
Proof.
  induction paths as [|f paths IH]; simpl; [intros _; apply called_refl|]. unfold mthen at 1.
  destruct (push_files fopen paths s) as [[ok s1]| |]; [|done..]. simpl in IH. destruct ok; [|done]. specialize (IH eq_refl).
  destruct (sc_bufs s1) as [bufs|] eqn:B.
  - destruct (push_file_run f s1 bufs B) as (ok & s2 & -> & H). simpl. intros ->. destruct H as (t & T & F & P).
    pose proof (push_called f t bufs s1 s2 B T F P) as [C1 C2 C3 C4]. destruct IH as [I1 I2 I3 I4]. split; [lia| |by auto|by auto].
    intros fs O. destruct (I2 fs O) as (fs1 & O1). eauto.
  - unfold push_file, mthen at 1. destruct (file_lookup_run f s1) as (l & -> & _). unfold mthen, mgets. simpl. rewrite B. simpl.
    destruct (sc_bufs s) eqn:Bs; [|done]. destruct (ca_bufs _ _ _ IH) as [? E]; [by eexists|]. congruence.
Qed.
Lemma zconf_nextfile_run name s : outcome_at s 0 (sc_bufs s = None) (zconf_nextfile fopen glob name s).
Proof. unfold zconf_nextfile. destruct (glob name) as [paths| | |]; [apply push_files_run|intros _; apply called_refl|done|done]. Qed.
Lemma starthelp_called s : ∃ s', zconf_starthelp junk s = Done ((), s') ∧ called 2 s s' ∧ sc_bufs s' = sc_bufs s.
Proof.
  unfold zconf_starthelp, mthen. destruct (new_holds junk s) as (b & -> & H). eexists. split; [done|]. split; [|done]. split; [|..|done|done].
  - unfold to_read, ahead. simpl. lia.
  - intros fs O. exists fs. apply ok_start; [|by exists EmptyString]. apply ok_ts. by apply (ok_text _ _ O b EmptyString).
Qed.
Lemma at_eol_run line s : outcome_at s 2 (line ≠ [] ∧ sc_bufs s = None) (at_eol junk fopen glob line s).
Proof.
  assert (R : outcome_at s 2 (line ≠ [] ∧ sc_bufs s = None) (Done (true, s))) by (intros _; apply called_refl).
  unfold at_eol. destruct line as [|[id|t u|t] [|[id'|t' u'|t'] [|? ?]]]; try done.
  - case_decide; [|done]. unfold mthen. destruct (starthelp_called s) as (s' & -> & C & _). by intros _.
  - case_decide; [|done]. pose proof (zconf_nextfile_run u' s) as N. destruct (zconf_nextfile fopen glob u' s) as [[ok s']| |]; simpl in *; [|by split|done].
    intros E. destruct (N E) as [N1 N2 N3 N4]. split; [lia|done..].
Qed.

(** ** All tokens *)

Lemma zconflex_called s l s' : zconflex junk s = Done (Some l, s') → to_read s' + margin (Return l) < to_read s.
Proof.
  intros E. pose proof (zconflex_f_shrinks junk _ _ _ _ _ E) as H.
  pose proof (to_open_le (sc_file_list s) (sc_file_list s') (stale_zconflex_f junk _ _ _ _ _ E)). unfold to_read. lia.
Qed.
(** The scan of a tree of files ends. *)
Lemma tokens_end n line s : to_read s < n → tokens junk fopen glob n line s ≠ NoFuel.
Proof.
  revert line s. induction n as [|n IH]; intros line s Hn; [lia|]. cbn [tokens]. unfold mthen at 1.
  pose proof (zconflex_ends junk s) as Z. destruct (zconflex junk s) as [[[l|] s1]| |] eqn:E; [|done..].
  pose proof (zconflex_called s l s1 E) as H. unfold margin in H. unfold mthen at 1, mgets. unfold mthen at 1.
  assert (C : outcome_at s1 (if decide (token_of l = T_EOL) then 2 else 0) True ((if decide (token_of l = T_EOL) then at_eol junk fopen glob line else mreturn true) s1)).
  { case_decide; [|intros _; apply called_refl]. pose proof (at_eol_run line s1) as A. destruct (at_eol _ _ _ _ _) as [[ok s2]| |]; simpl in *; tauto. }
  match type of C with outcome_at _ _ _ ?r => destruct r as [[[] s2]| |]; [|done..] end. pose proof (ca_read _ _ _ (C eq_refl)) as C1. unfold mthen.
  specialize (IH (if ends_line l then [] else line ++ [l]) s2). destruct (tokens _ _ _ n _ s2) as [[? ?]| |]; [done|done|]. apply IH. case_decide; lia.
Qed.

(** A line that has begun, and also the end of a file inside it. *)
Definition begun_line (s : scanner) : Prop :=
  ∃ l, sc_bufs s = Some l ∧ in_line (sc_start s) = true ∧ (l = [] → sc_in s ≠ EmptyString).
Definition ending_line (s : scanner) : Prop :=
  begun_line s ∨ ∃ r l, sc_bufs s = Some (r :: l) ∧ sc_start s = INITIAL ∧ sc_in s = EmptyString.

Lemma ok_bufs s fs l : scan_ok s fs → sc_bufs s = Some l → sc_file s ≠ None.
Proof. intros [St _ Bu _ _] B E. rewrite B in Bu. destruct fs as [|f fs]; [done|]. destruct St as [E' _]. congruence. Qed.
Lemma rule_eof_line s fs a s' : scan_ok s fs → sc_in s = EmptyString → rule_eof s = Done (a, s') →
  (bottom s → bottom s') ∧ (a = Terminate ∨ a = Return (LTok T_EOL) ∧ ∀ r l, sc_bufs s = Some (r :: l) → sc_file s' ≠ None).
Proof.
  intros O I. unfold rule_eof, mthen at 1, mgets. destruct (sc_file s) as [f|] eqn:F; [|intros [= <- <-]; by auto].
  destruct O as [St _ Bu _ _]. destruct fs as [|f' fs]; [by rewrite F in St|]. destruct St as (F' & x & X & Bx & St). rewrite F in F'. injection F' as <-.
  unfold zconf_endfile, mthen at 1. unfold mthen at 1. rewrite (current_is s f F). unfold mthen at 1. rewrite (upd_file_ok _ _ _ _ X).
  unfold mthen at 1. erewrite get_file_is; [|simpl; rewrite find_file_upd by done; by rewrite X].
  rewrite bool_decide_true by done. unfold mthen, mmodify, mgets, mderef. simpl.
  destruct (sc_bufs s) as [[|r l]|] eqn:B; [..|done]; simpl; intros [= <- <-]; (split; [|right; split; [done|]]); unfold bottom; rewrite ?B; simpl; try done.
  - intros H. rewrite <- (last_below r l (sc_in s)). exact H.
  - intros _ _ _. simpl in Bu. destruct fs as [|g fs]; [done|]. destruct St as [-> _]. done.
Qed.
Lemma step_line str s fs a s' : scan_ok s fs → bottom s → step junk str s = Done (a, s') →
  bottom s' ∧
  match a with
  | Again _ => ending_line s → ending_line s'
  | Return l => (token_of l = T_EOL → ending_line s → sc_file s' ≠ None) ∧ (ends_line l = false → begun_line s')
  | Terminate => True
  end.
Proof.
  intros O Bo E. destruct (at_eof (sc_start s) (sc_in s)) eqn:A.
  - rewrite (step_eof _ _ _ A) in E. assert (I : sc_in s = EmptyString) by (unfold at_eof in A; by destruct (sc_start s), (sc_in s)).
    destruct (rule_eof_line _ _ _ _ O I E) as [B M]. split; [by apply B|]. destruct M as [->|[-> H]]; [done|]. simpl. split; [|done]. intros _ [(l & _ & L & _)|(r & l & Bs & _)].
    + unfold at_eof in A. by destruct (sc_start s).
    + by apply (H r l).
  - pose proof (step_moves junk str _ _ A s eq_refl eq_refl) as H. rewrite E in H. destruct H as (Eb & Ef & Me & Wh & M). split.
    { unfold bottom in *. rewrite Eb. destruct (sc_bufs s) as [[|r l]|]; [by apply Wh| |done]. by rewrite last_below in *. }
    assert (Le : ∀ l, sc_bufs s = Some l → on_line (sc_in s) (sc_start s') (sc_in s') → begun_line s').
    { intros l Bs [L W]. exists l. rewrite Eb. split_and!; [done..|]. intros ->. apply W. unfold bottom in Bo. by rewrite Bs in Bo. }
    destruct a as [l|d|]; [split| |done].
    + intros _ J. rewrite Ef. destruct J as [(l' & Bs & _)|(r & l' & Bs & _)]; by apply (ok_bufs s fs _ O Bs).
    + unfold ends_line. intros N. destruct M as [T|[[_ T]|L]]; [by rewrite T in N..|]. destruct (sc_bufs s) as [l'|] eqn:Bs; [by apply (Le l')|].
      exfalso. assert (I : sc_in s = EmptyString). { apply (so_done _ _ O). pose proof (so_bufs _ _ O) as Bu. rewrite Bs in Bu. by destruct fs. }
      rewrite I in Me. destruct L as [L _]. simpl in Me. destruct (sc_start s'), (sc_start s); simpl in *; try done; lia.
    + intros [(l & Bs & L & N)|(r & l & Bs & S & I)]; [|by rewrite S, I in A]. rewrite L in M. destruct M as [M|(I & S' & I')]; [left; by apply (Le l)|].
      right. destruct l as [|r l]; [by destruct N|]. exists r, l. by rewrite Eb.
Qed.
Lemma zconflex_f_line n str s fs o s' : scan_ok s fs → bottom s → zconflex_f junk n str s = Done (o, s') →
  bottom s' ∧ ∀ l, o = Some l → (token_of l = T_EOL → ending_line s → sc_file s' ≠ None) ∧ (ends_line l = false → begun_line s').
Proof.
  revert str s fs. induction n as [|n IH]; intros str s fs O Bo; [done|]. simpl. unfold mthen.
  destruct (step_safe junk str s fs O) as (a & s1 & E & fs1 & O1). rewrite E. destruct (step_line _ _ _ _ _ O Bo E) as [Bo1 M].
  destruct a as [l|str'|].
  - intros [= <- <-]. split; [done|]. by intros ? [= <-].
  - intros E'. destruct (IH _ _ _ O1 Bo1 E') as [Bo2 H]. split; [done|]. intros l Ho. destruct (H l Ho) as [H1 H2]. split; [|done]. auto.
  - intros [= <- <-]. done.
Qed.

(** No call of the scanner dereferences a null pointer or leaves an array. *)
Lemma tokens_safe n line s fs : scan_ok s fs → bottom s → (line ≠ [] → begun_line s) → to_read s < n →
  yields (tokens junk fopen glob n line) s (λ _ _, True).
Proof.
  revert line s fs. induction n as [|n IH]; intros line s fs O Bo Li Hn; [lia|]. cbn [tokens].
  destruct (zconflex_f_safe junk (S (ahead s)) NUL s fs O ltac:(lia)) as (o & s1 & E & fs1 & O1).
  destruct (zconflex_f_line _ _ _ _ _ _ O Bo E) as [Bo1 M]. unfold yields. rewrite (mthen_done _ _ _ _ _ (E : zconflex junk s = _)).
  destruct o as [l|]; [|by apply yields_ret]. pose proof (zconflex_called s l s1 E) as H. unfold margin in H. destruct (M l eq_refl) as [M1 M2].
  apply yields_gets. eapply yields_bind with (R := λ ok s2, ok = true → ∃ fs2, scan_ok s2 fs2 ∧ bottom s2 ∧ to_read s2 < n ∧ (ends_line l = false → begun_line s2)).
  - case_decide as T; [|apply yields_ret; intros _; exists fs1; split_and!; [done..|lia|done]]. pose proof (at_eol_run line s1) as A. unfold yields.
    destruct (at_eol _ _ _ _ _) as [[ok s2]| |]; simpl in A; [|destruct A as [Hl B1]|done].
    + do 2 eexists. split; [done|]. intros E2. destruct (A E2) as [C1 C2 C3 _]. destruct (C2 fs1 O1) as (fs2 & O2). exists fs2. split_and!; [done|by apply C3|lia|].
      unfold ends_line. by rewrite T.
    + exfalso. apply (M1 T); [left; by apply Li|]. pose proof (so_bufs _ _ O1) as Bu. rewrite B1 in Bu. destruct fs1; [apply (so_stack _ _ O1)|done].
  - intros ok s2 R. destruct ok; [|by apply yields_ret]. destruct (R eq_refl) as (fs2 & O2 & Bo2 & Hr & Be).
    eapply yields_bind; [apply (IH _ s2 fs2); [done..| |done]|intros; by apply yields_ret]. destruct (ends_line l); [done|by auto].
Qed.
End Files.
