(* ===== verification/KLexPrint.v ===== *)
(** * Texts of tokens: what is printed is what is scanned *)
From S2P Require Import Prelude CLib CStr KData KToken KLex KLexFacts KLexSafe KLexRun.
From Stdlib Require Import Ascii.
Open Scope pr30_scope.

(** ** Printing *)

(** [print_quoted_string] of [zconf.y]: a backslash before each quote. *)
Fixpoint escape_quotes (s : string) : string :=
  match s with
  | EmptyString => EmptyString
  | String c r => if isc c dq then String bs (String dq (escape_quotes r)) else String c (escape_quotes r)
  end.
Definition print_quoted_string (s : string) : string := String dq (escape_quotes s +:+ String dq "").

Definition operator_text (t : token) : string :=
  match t with
  | T_AND => "&&" | T_OR => "||" | T_OPEN_PAREN => "(" | T_CLOSE_PAREN => ")" | T_NOT => "!" | T_EQUAL => "=" | T_UNEQUAL => "!="
  | _ => ""
  end.

(** The lines of a help text, behind a tab each. *)
Fixpoint help_out (bol : bool) (t : string) : string :=
  match t with
  | EmptyString => EmptyString
  | String c r =>
      if is_nl c then String c (help_out true r)
      else if bol then String "009" (String c (help_out false r)) else String c (help_out false r)
  end.

Definition lexeme_out (l : lexeme) : string :=
  match l with
  | LId id => kid_name id
  | LStr T_WORD_QUOTE s => print_quoted_string s
  | LStr _ s => s
  | LTok t => operator_text t
  end.
Definition is_nil {A} (l : list A) : bool := match l with [] => true | _ => false end.
Fixpoint out (bol : bool) (ls : list lexeme) : string :=
  match ls with
  | [] => EmptyString
  | LTok T_EOL :: r => String nl (out true r)
  | LStr T_HELPTEXT t :: r => help_out true t +:+ (if is_nil r then EmptyString else String nl "") +:+ out true r
  | l :: r => (if bol then lexeme_out l else String " " (lexeme_out l)) +:+ out false r
  end.

(** ** Sequences that have a text *)

Definition word_ok (w : string) : bool :=
  negb (bool_decide (w = EmptyString)) && all_chars is_word w && negb (bool_decide (w = "---"%string)) &&
  match kconf_id_lookup w with Some id => negb (kid_param id) | None => true end.
Definition id_ok (id : kconf_id) : bool := bool_decide (kconf_id_lookup (kid_name id) = Some id).
Definition param_ok (l : lexeme) : bool :=
  match l with
  | LId id => id_ok id && kid_param id
  | LStr T_WORD w => word_ok w
  | LStr T_WORD_QUOTE s => without [bs; nl; NUL] s
  | LTok (T_AND | T_OR | T_OPEN_PAREN | T_CLOSE_PAREN | T_NOT | T_EQUAL | T_UNEQUAL) => true
  | _ => false
  end.
(** A line of a help text: spaces, and then something else; [first]: no spaces. *)
Fixpoint help_line_ok (first : bool) (t : string) : bool :=
  match t with
  | EmptyString => false
  | String c r => if isc c " " then negb first && help_line_ok first r else negb (is_blank c) && negb (is_nl c) && without [NUL] t
  end.
Fixpoint help_text_ok_f (n : nat) (first : bool) (t : string) : bool :=
  match n with
  | O => false
  | S n =>
      let '(a, b) := break_at is_nl t in
      (bool_decide (a = EmptyString) || help_line_ok first a) &&
      match b with String _ r => help_text_ok_f n (first && bool_decide (a = EmptyString)) r | EmptyString => true end
  end.
Definition help_text_ok (t : string) : bool := help_text_ok_f (S (String.length t)) true t.

(** At the start of a line, in a line ([true]: that is [help] so far), or
    where a help text is. *)
Inductive mode : Set := Bol | InLine (help : bool) | Help.
Fixpoint lex_ok (m : mode) (ls : list lexeme) : bool :=
  match m, ls with
  | Bol, [] => true
  | Bol, LTok T_EOL :: r => lex_ok Bol r
  | Bol, LId id :: r =>
      id_ok id && kid_command id &&
      lex_ok (InLine (bool_decide (kid_token id = T_HELP))) r
  | InLine h, LTok T_EOL :: r => lex_ok (if h then Help else Bol) r
  | InLine _, l :: r => param_ok l && lex_ok (InLine false) r
  | Help, LStr T_HELPTEXT t :: r => help_text_ok t && match r with [] | LId _ :: _ => lex_ok Bol r | _ => false end
  | _, _ => false
  end.

Definition next_mode (m : mode) (l : lexeme) : mode :=
  match m, l with
  | Bol, LId id => InLine (bool_decide (kid_token id = T_HELP))
  | InLine h, LTok T_EOL => if h then Help else Bol
  | InLine _, _ => InLine false
  | _, _ => Bol
  end.
Lemma lex_ok_next m l r : lex_ok m (l :: r) = true → lex_ok (next_mode m l) r = true.
Proof.
  destruct m as [|h|], l as [id|t u|t]; simpl; try done.
  - rewrite !andb_true_iff. tauto.
  - by destruct t.
  - rewrite !andb_true_iff. tauto.
  - rewrite !andb_true_iff. tauto.
  - destruct t; rewrite ?andb_true_iff; tauto.
  - destruct t; try done. rewrite andb_true_iff. intros [_ H]. destruct r as [|[] ?]; done.
Qed.

(** ** Scanning *)

Section Print.
Context (junk : nat → ascii).

Lemma mthen_modify {St B} (g : St → St) (k : () → M St B) s : mthen (mmodify g) k s = k () (g s).
Proof. done. Qed.

(** A call of the scanner with enough fuel. *)
Definition scans (str : ascii) (s : scanner) (l : option lexeme) (s' : scanner) : Prop :=
  ∃ n, zconflex_f junk n str s = Done (l, s').
Lemma scans_again str s str' s1 l s' : step junk str s = Done (Again str', s1) → scans str' s1 l s' → scans str s l s'.
Proof. intros E [n H]. exists (S n). simpl. unfold mthen. by rewrite E. Qed.
Lemma scans_return str s l s' : step junk str s = Done (Return l, s') → scans str s (Some l) s'.
Proof. intros E. exists 1. simpl. unfold mthen. by rewrite E. Qed.
Lemma scans_zconflex s l s' : scans NUL s l s' → zconflex junk s = Done (l, s').
Proof. intros [n H]. by apply (zconflex_result junk n). Qed.

(** The files below, each the parent of the one before. *)
Fixpoint links (l : list file) (f : string) (below : list (string * string)) : Prop :=
  match below with
  | [] => ∃ x, find_file f l = Some x ∧ fl_parent x = None
  | (g, _) :: r => (∃ x, find_file f l = Some x ∧ fl_parent x = Some g) ∧ links l g r
  end.
Lemma links_find l f below : links l f below → ∃ x, find_file f l = Some x ∧ fl_parent x = fst <$> head below.
Proof. destruct below as [|[g t] r]; simpl; [done|]. by intros [H _]. Qed.
Lemma links_ext l l' f below :
  (∀ g x, find_file g l = Some x → ∃ x', find_file g l' = Some x' ∧ fl_parent x' = fl_parent x) → links l f below → links l' f below.
Proof.
  intros H. revert f. induction below as [|[g t] r IH]; intros f; simpl.
  - intros (x & X & P). destruct (H f x X) as (x' & X' & P'). exists x'. by rewrite P'.
  - intros [(x & X & P) Li]. split; [|by apply IH]. destruct (H f x X) as (x' & X' & P'). exists x'. by rewrite P'.
Qed.

(** The scanner in file [f] above the files and texts [below]; the files
    [unread] were not read. *)
Context (f : string) (below : list (string * string)) (unread : list string).
Record stands (c : start_condition) (t : string) (s : scanner) : Prop := {
  st_start : sc_start s = c;
  st_in : sc_in s = t;
  st_bufs : sc_bufs s = Some (map snd below);
  st_file : sc_file s = Some f;
  st_list : links (sc_file_list s) f below;
  st_unread : Forall (λ g, fresh (sc_file_list s) g = true) unread;
}.
Lemma stands_in c t s r : stands c t s → stands c r (sc_set_in r s).
Proof. intros []. by split. Qed.
Lemma stands_start c t s c' : stands c t s → stands c' t (sc_set_start c' s).
Proof. intros []. by split. Qed.
Lemma stands_text c t s b : stands c t s → stands c t (sc_set_text b s).
Proof. intros []. by split. Qed.
Lemma stands_pos c t s p : stands c t s → stands c t (sc_set_pos p s).
Proof. intros []. by split. Qed.
Lemma stands_ts c t s a b : stands c t s → stands c t (sc_set_ts a b s).
Proof. intros []. by split. Qed.
Lemma stands_lineno c t s : stands c t s → ∃ l, lineno_incr s = Done ((), sc_set_files l s) ∧ stands c t (sc_set_files l s).
Proof.
  intros [? ? ? F Li Un]. destruct (links_find _ _ _ Li) as (x & X & _). unfold lineno_incr. rewrite (mthen_done _ _ _ _ _ (current_is s f F)), (upd_file_ok _ _ _ _ X).
  eexists. split; [done|]. split; [done..| |]; simpl.
  - apply (links_ext (sc_file_list s)); [|done]. intros g y Y. rewrite find_file_upd by done. rewrite Y. simpl. eexists. split; [done|]. by case_bool_decide.
  - apply (Forall_impl _ _ _ Un). intros g. unfold fresh. rewrite find_file_upd by done. destruct (find_file g (sc_file_list s)); [|done]. simpl. by case_bool_decide.
Qed.
Lemma stands_step c t s str : stands c t s → step junk str s =
  match c with
  | INITIAL => step_initial str | COMMAND => step_command str | PARAM => step_param junk str
  | STRING => step_string junk str | HELP => step_help junk str
  end s.
Proof. intros [C _ _ _ _ _]. unfold step, mthen, mgets. by rewrite C. Qed.
Lemma stands_gets {B} c t s (k : string → L B) : stands c t s → mthen (mgets sc_in) k s = k t s.
Proof. intros [_ I _ _ _ _]. unfold mthen, mgets. by rewrite I. Qed.

Lemma end_line_run c t r s : stands c t s → ∃ s', end_line r s = Done (Return (LTok T_EOL), s') ∧ stands c r s'.
Proof.
  intros S. unfold end_line, mthen at 1, advance, mmodify. destruct (stands_lineno c r (sc_set_in r s)) as (l & E & S'); [by apply (stands_in _ t)|].
  rewrite (mthen_done _ _ _ _ _ E). by eexists.
Qed.

(** An empty line, and the end of a line. *)
Lemma scan_eol_bol r s : stands INITIAL (String nl r) s → ∃ s', scans NUL s (Some (LTok T_EOL)) s' ∧ stands INITIAL r s'.
Proof.
  intros S. destruct (end_line_run _ _ r s S) as (s' & E & S'). exists s'. split; [|done]. apply scans_return.
  rewrite (stands_step _ _ _ _ S). unfold step_initial. by rewrite (stands_gets _ _ _ _ S).
Qed.
Lemma scan_eol r s : stands PARAM (String nl r) s → ∃ s', scans NUL s (Some (LTok T_EOL)) s' ∧ stands INITIAL r s'.
Proof.
  intros S. destruct (end_line_run _ _ r _ (stands_start _ _ _ INITIAL S)) as (s' & E & S'). exists s'. split; [|done]. apply scans_return.
  rewrite (stands_step _ _ _ _ S). unfold step_param. by rewrite (stands_gets _ _ _ _ S).
Qed.

(** What follows in a line. *)
Definition ends_word (t : string) : bool := starts (λ c, isc c " " || is_nl c) t.
Lemma ends_word_stop g t : g " "%char = false → g nl = false → ends_word t = true → starts (λ c, negb (g c)) t = true.
Proof.
  intros H1 H2. destruct t as [|c t]; [done|]. simpl. rewrite orb_true_iff. intros [E%isc_true|E%isc_true]; subst c; by rewrite ?H1, ?H2.
Qed.
Lemma span_word g w t : all_chars g w = true → g " "%char = false → g nl = false → ends_word t = true → span g (w +:+ t) = (w, t).
Proof.
  intros A H1 H2 E. apply break_app; [|right; by apply (ends_word_stop g)]. revert A. apply all_chars_mono. intros c. by rewrite negb_involutive.
Qed.

Lemma id_names : forallb (λ id, all_chars is_n (kid_name id) && negb (bool_decide (kid_name id = EmptyString))) kconf_ids = true.
Proof. vm_compute. reflexivity. Qed.
Lemma id_name id : id_ok id = true → all_chars is_n (kid_name id) = true ∧ kid_name id ≠ EmptyString.
Proof.
  intros H%bool_decide_eq_true. apply find_some in H as [Hin _]. pose proof (proj1 (forallb_forall _ _) id_names id Hin) as H.
  apply andb_true_iff in H as [H1 H2]. split; [done|]. apply negb_true_iff, bool_decide_eq_false in H2. done.
Qed.
Lemma n_first c : is_n c = true → is_blank c = false ∧ is_nl c = false ∧ isc c "#" = false.
Proof.
  intros H. split_and!; apply not_true_iff_false; intros E.
  - apply orb_true_iff in E as [E%isc_true|E%isc_true]; by subst c.
  - by apply isc_true in E as ->.
  - by apply isc_true in E as ->.
Qed.

(** The command a line begins with. *)
Lemma scan_command id r s : id_ok id = true → kid_command id = true → ends_word r = true → stands INITIAL (kid_name id +:+ r) s →
  ∃ s', scans NUL s (Some (LId id)) s' ∧ stands PARAM r s'.
Proof.
  intros I C E S. destruct (id_name id I) as [A N]. apply bool_decide_eq_true in I.
  destruct (kid_name id) as [|c w] eqn:W; [done|]. simpl in A. pose proof A as Aw. apply andb_true_iff in A as [Hc _]. destruct (n_first c Hc) as (B & Hl & H).
  set (s1 := sc_set_start COMMAND (sc_set_in (String c w +:+ r) s)).
  assert (S1 : stands COMMAND (String c w +:+ r) s1) by (apply (stands_start INITIAL), (stands_in _ (String c w +:+ r)), S).
  set (s2 := sc_set_start PARAM (sc_set_in r s1)).
  assert (S2 : stands PARAM r s2) by (apply (stands_start COMMAND), (stands_in _ (String c w +:+ r)), S1).
  destruct (links_find _ _ _ (st_list _ _ _ S2)) as (x & X & _).
  exists (sc_set_pos (Some f, fl_lineno x) s2). split; [|by apply stands_pos].
  eapply scans_again with (s1 := s1).
  - rewrite (stands_step _ _ _ _ S). unfold step_initial. rewrite (stands_gets _ _ _ _ S). unfold span. simpl. rewrite B. simpl. by rewrite Hl, H.
  - apply scans_return. rewrite (stands_step _ _ _ _ S1). unfold step_command. rewrite (stands_gets _ _ _ _ S1).
    change (String c w +:+ r) with (String c (w +:+ r)). lazy beta iota. rewrite Hl, Hc. change (String c (w +:+ r)) with (String c w +:+ r). rewrite (span_word is_n (String c w) r); [|done..].
    unfold advance, BEGIN. rewrite !mthen_modify. fold s2.
    rewrite (mthen_done _ _ _ _ _ (current_is s2 f (st_file _ _ _ S2))), (mthen_done _ _ _ _ _ (get_file_is s2 f x X)), I, C. done.
Qed.

(** *** In a line *)

Lemma scan_space r s l s' : stands PARAM (String " " r) s → scans NUL (sc_set_in r s) l s' → scans NUL s l s'.
Proof.
  intros S H. eapply scans_again; [|exact H]. rewrite (stands_step _ _ _ _ S). unfold step_param. by rewrite (stands_gets _ _ _ _ S).
Qed.

Lemma word_first c r : is_word c = true → operator (String c r) = None ∧ is_quote c = false ∧ is_nl c = false.
Proof.
  intros H. assert (N : ∀ d, is_word d = false → isc c d = false) by (intros d Hd; apply isc_false; intros ->; congruence).
  unfold operator, is_quote, is_nl. by rewrite !N by done.
Qed.
Lemma word_nul w : all_chars is_word w = true → without [NUL] w = true.
Proof. apply all_chars_mono. intros c H. apply bool_decide_eq_true. intros ->%list_elem_of_singleton. done. Qed.
Lemma n_word w : all_chars is_n w = true → all_chars is_word w = true.
Proof. apply all_chars_mono. intros c H. unfold is_word. by rewrite H. Qed.

(** A word in a line goes to [param_word]. *)
Lemma step_word w r s : w ≠ EmptyString → all_chars is_word w = true → ends_word r = true → stands PARAM (w +:+ r) s →
  step junk NUL s = param_word w r NUL s.
Proof.
  intros N A E S. rewrite (stands_step _ _ _ _ S). unfold step_param. rewrite (stands_gets _ _ _ _ S).
  pose proof (span_word is_word w r A eq_refl eq_refl E) as Sp. destruct w as [|c w]; [done|]. pose proof A as A'. simpl in A'. apply andb_true_iff in A' as [Hc _].
  change (String c w +:+ r) with (String c (w +:+ r)) in *. lazy beta iota. destruct (word_first c (w +:+ r) Hc) as (-> & -> & ->). by rewrite Hc, Sp.
Qed.
Lemma scan_word w r s : word_ok w = true → ends_word r = true → stands PARAM (w +:+ r) s →
  ∃ s', scans NUL s (Some (LStr T_WORD w)) s' ∧ stands PARAM r s'.
Proof.
  intros W E S. unfold word_ok in W. rewrite !andb_true_iff in W. destruct W as [[[N%negb_true_iff%bool_decide_eq_false A] D%negb_true_iff%bool_decide_eq_false] K].
  pose proof (step_word w r s N A E S) as St. unfold param_word, advance in St. rewrite mthen_modify, decide_False in St by done.
  destruct (alloc_text w (sc_set_in r s)) as (b & u & Ea & Eu). rewrite (Eu (word_nul w A)) in Ea.
  exists (sc_set_text b (sc_set_in r s)). split; [|apply stands_text; by apply (stands_in _ (w +:+ r))]. apply scans_return. rewrite St.
  assert (T : (do! alloc_string w in let! t := text_string in mreturn (Return (LStr T_WORD t))) (sc_set_in r s) = Done (Return (LStr T_WORD w), sc_set_text b (sc_set_in r s))).
  { unfold mthen in Ea |- *. simpl in *. by rewrite Ea. }
  destruct (kconf_id_lookup w) as [id|]; [|done]. by rewrite (proj1 (negb_true_iff _) K).
Qed.
Lemma scan_id id r s : id_ok id = true → kid_param id = true → ends_word r = true → stands PARAM (kid_name id +:+ r) s →
  ∃ s', scans NUL s (Some (LId id)) s' ∧ stands PARAM r s'.
Proof.
  intros I C E S. destruct (id_name id I) as [A N]. apply bool_decide_eq_true in I.
  exists (sc_set_in r s). split; [|by apply (stands_in _ (kid_name id +:+ r))]. apply scans_return. rewrite (step_word _ r s N (n_word _ A) E S).
  unfold param_word, advance. rewrite mthen_modify, decide_False, I, C; [done|]. intros D. rewrite D in A. done.
Qed.
Lemma scan_operator t r s : operator_text t ≠ EmptyString → ends_word r = true → stands PARAM (operator_text t +:+ r) s →
  ∃ s', scans NUL s (Some (LTok t)) s' ∧ stands PARAM r s'.
Proof.
  intros N E S. exists (sc_set_in r s). split; [|by apply (stands_in _ (operator_text t +:+ r))]. apply scans_return.
  rewrite (stands_step _ _ _ _ S). unfold step_param. rewrite (stands_gets _ _ _ _ S). destruct t; try done.
  destruct r as [|c r]; [done|]. simpl in *. rewrite orb_true_iff in E. destruct E as [E%isc_true|E%isc_true]; by subst c.
Qed.

(** *** Quoted strings *)

Lemma scan_close r s t : stands STRING (String dq r) s → holds (sc_text s) t → without [NUL] t = true →
  ∃ s', scans dq s (Some (LStr T_WORD_QUOTE t)) s' ∧ stands PARAM r s'.
Proof.
  intros S H N. exists (sc_set_start PARAM (sc_set_in r s)). split; [|apply (stands_start STRING), (stands_in _ (String dq r)), S].
  apply scans_return. rewrite (stands_step _ _ _ _ S). unfold step_string. rewrite (stands_gets _ _ _ _ S). lazy beta iota.
  change (is_nl dq) with false. change (is_quote dq) with true. lazy beta iota. unfold advance, BEGIN. rewrite mthen_modify. change (isc dq dq) with true. lazy beta iota. rewrite mthen_modify.
  by rewrite (mthen_done _ _ _ _ _ (holds_text _ t (sc_set_start PARAM (sc_set_in r s)) eq_refl H N)).
Qed.

Lemma append_on c t0 y s t : stands c t0 s → holds (sc_text s) t →
  ∃ b, append_string junk y s = Done ((), sc_set_text b s) ∧ stands c t0 (sc_set_text b s) ∧ holds b (t +:+ y).
Proof. intros S H. destruct (append_holds junk y s t H) as (b & E & Hb). exists b. split_and!; [done|by apply stands_text|done]. Qed.
Lemma quoted_again t0 y r s t str : stands STRING t0 s → holds (sc_text s) t → starts is_nl r = false →
  ∃ s', (do! append_string junk y in quoted_end r str) s = Done (Again str, s') ∧ stands STRING r s' ∧ holds (sc_text s') (t +:+ y).
Proof.
  intros S H N. destruct (append_on _ _ y s t S H) as (b & E & S' & Hb). rewrite (mthen_done _ _ _ _ _ E). unfold quoted_end, advance. rewrite mthen_modify, N.
  eexists. split; [done|]. split; [by apply (stands_in _ t0)|done].
Qed.
Lemma escape_plain a v : all_chars is_plain a = true → escape_quotes (a +:+ v) = a +:+ escape_quotes v.
Proof.
  induction a as [|c a IH]; [done|]. simpl. rewrite andb_true_iff. intros [P A]. unfold is_plain, is_quote in P. rewrite !andb_true_iff, !negb_true_iff, orb_false_iff in P.
  destruct P as [[[_ ->] _] _]. by rewrite IH.
Qed.
(** What follows a character in a quoted string. *)
Lemma escape_next v r : without [bs; nl; NUL] v = true → starts is_nl (escape_quotes v +:+ String dq r) = false.
Proof.
  destruct v as [|c v]; [done|]. unfold without. simpl. rewrite andb_true_iff. intros [H%bool_decide_eq_true _]. destruct (isc c dq); [done|]. simpl.
  apply isc_false. intros ->. apply H. by right; left.
Qed.
Lemma not_plain c : c ∉ [bs; nl; NUL] → is_plain c = false → c = dq ∨ c = "'"%char.
Proof.
  intros H P. unfold is_plain, is_quote in P. assert (isc c bs = false) as E1 by (apply isc_false; intros ->; apply H; by left).
  assert (is_nl c = false) as E2 by (apply isc_false; intros ->; apply H; by right; left). rewrite E1, E2 in P. simpl in P.
  destruct (isc c "'") eqn:Q; [right; by apply isc_true|]. destruct (isc c dq) eqn:D; [left; by apply isc_true|done].
Qed.
(** One step in a string: [y] is read and what stands before the scanner is
    [v], the text is longer by [x]. *)
Definition reads_on (s : scanner) (t x v : string) : Prop :=
  ∃ s1, step junk dq s = Done (Again dq, s1) ∧ stands STRING v s1 ∧ holds (sc_text s1) (t +:+ x).
Lemma read_plain a v t s : a ≠ EmptyString → all_chars is_plain a = true → starts (λ c, negb (is_plain c)) v = true → starts is_nl v = false →
  stands STRING (a +:+ v) s → holds (sc_text s) t → reads_on s t a v.
Proof.
  intros Na A Sv Nv S H. destruct (quoted_again _ a v s t dq S H Nv) as (s1 & E1 & S1 & H1). exists s1. split; [|done]. rewrite <- E1.
  rewrite (stands_step _ _ _ _ S). unfold step_string. rewrite (stands_gets _ _ _ _ S).
  assert (Sp : span is_plain (a +:+ v) = (a, v)).
  { apply break_app; [|by right]. revert A. apply all_chars_mono. intros d. by rewrite negb_involutive. }
  destruct a as [|c a]; [done|]. simpl in A. apply andb_true_iff in A as [P _]. unfold is_plain in P. rewrite !andb_true_iff, !negb_true_iff in P. destruct P as [[P1 P2] P3].
  change (String c a +:+ v) with (String c (a +:+ v)) in *. lazy beta iota. by rewrite P1, P2, P3, Sp.
Qed.
Lemma read_escaped v t s : starts is_nl v = false → stands STRING (String bs (String dq v)) s → holds (sc_text s) t → reads_on s t (String dq "") v.
Proof.
  intros Nv S H. destruct (quoted_again _ (String dq "") v s t dq S H Nv) as (s1 & E1 & S1 & H1). exists s1. split; [|done].
  rewrite <- E1, (stands_step _ _ _ _ S). unfold step_string. by rewrite (stands_gets _ _ _ _ S).
Qed.
Lemma read_other v t s : stands STRING (String "'" v) s → holds (sc_text s) t → reads_on s t (String "'" "") v.
Proof.
  intros S H. destruct (append_on _ _ (String "'" "") _ t (stands_in _ _ _ v S) H) as (b & E1 & S1 & H1). eexists. split; [|split; [exact S1|done]].
  rewrite (stands_step _ _ _ _ S). unfold step_string. rewrite (stands_gets _ _ _ _ S). unfold mthen in E1 |- *; simpl in *. by rewrite E1.
Qed.

(** Splits a string that is not empty as the scanner reads it. *)
Lemma first_read u r t s : u ≠ EmptyString → without [bs; nl; NUL] u = true → stands STRING (escape_quotes u +:+ String dq r) s → holds (sc_text s) t →
  ∃ x v, u = x +:+ v ∧ x ≠ EmptyString ∧ reads_on s t x (escape_quotes v +:+ String dq r).
Proof.
  intros Nu U S H. destruct u as [|c u]; [done|]. pose proof U as U'. unfold without in U'. simpl in U'. apply andb_true_iff in U' as [Hc%bool_decide_eq_true U'].
  destruct (is_plain c) eqn:P.
  - destruct (span is_plain (String c u)) as [a v] eqn:Sp. destruct (span_spec _ _ _ _ Sp) as [E A]. pose proof (span_cons _ _ _ _ _ P Sp) as Na.
    exists a, v. split_and!; [done..|]. rewrite E in S, U. rewrite without_app, andb_true_iff in U. destruct U as [_ Uv].
    rewrite (escape_plain a v A), <- string_app_assoc in S. apply read_plain; [done..| |by apply escape_next|done|done].
    destruct (break_spec _ _ _ _ Sp) as (_ & _ & [->|Sv]); [done|]. destruct v as [|d v]; [done|]. simpl in *. by destruct (isc d dq).
  - destruct (not_plain c Hc P) as [->| ->].
    + exists (String dq ""), u. split_and!; [done..|]. apply read_escaped; [by apply escape_next|done..].
    + exists (String "'" ""), u. split_and!; [done..|]. by apply read_other.
Qed.
Lemma scan_body n u t r s : String.length u ≤ n → without [bs; nl; NUL] u = true → without [NUL] t = true →
  stands STRING (escape_quotes u +:+ String dq r) s → holds (sc_text s) t →
  ∃ s', scans dq s (Some (LStr T_WORD_QUOTE (t +:+ u))) s' ∧ stands PARAM r s'.
Proof.
  revert u t s. induction n as [|n IH]; intros u t s Hn U T S H; (destruct (decide (u = EmptyString)) as [->|Nu]; [rewrite string_app_nil; by apply scan_close|]).
  { destruct u; [done|simpl in Hn; lia]. }
  destruct (first_read u r t s Nu U S H) as (x & v & -> & Nx & s1 & E1 & S1 & H1). rewrite without_app, andb_true_iff in U. destruct U as [Ux Uv].
  rewrite string_length_app in Hn. destruct (IH v (t +:+ x) s1) as (s' & Sc & S'); [|done| |done..|].
  - destruct x; [done|]. simpl in Hn. lia.
  - rewrite without_app, T. simpl. revert Ux. apply without_weaken. intros d ->%list_elem_of_singleton. by right; right; left.
  - exists s'. split; [|done]. rewrite string_app_assoc. by apply (scans_again _ _ dq s1).
Qed.
Lemma scan_quoted u r s : without [bs; nl; NUL] u = true → stands PARAM (print_quoted_string u +:+ r) s →
  ∃ s', scans NUL s (Some (LStr T_WORD_QUOTE u)) s' ∧ stands PARAM r s'.
Proof.
  intros U S. unfold print_quoted_string in S. rewrite app_cons, <- string_app_assoc in S. simpl in S.
  destruct (new_holds junk (sc_set_in (escape_quotes u +:+ String dq r) s)) as (b & E & H).
  set (s1 := sc_set_start STRING (sc_set_text b (sc_set_in (escape_quotes u +:+ String dq r) s))).
  assert (S1 : stands STRING (escape_quotes u +:+ String dq r) s1) by (apply (stands_start PARAM), stands_text; by apply (stands_in _ _ _ _ S)).
  destruct (scan_body _ u EmptyString r s1 (le_n _) U eq_refl S1 H) as (s' & Sc & S'). exists s'. split; [|done].
  apply (scans_again _ _ dq s1); [|done]. rewrite (stands_step _ _ _ _ S). unfold step_param. rewrite (stands_gets _ _ _ _ S).
  transitivity ((do! advance (escape_quotes u +:+ String dq r) in do! new_string junk in do! BEGIN STRING in mreturn (Again dq)) s); [done|].
  unfold advance. by rewrite mthen_modify, (mthen_done _ _ _ _ _ E).
Qed.

(** *** Help texts *)

Definition indented (a : string) : string := if bool_decide (a = EmptyString) then EmptyString else String "009" a.
Lemma help_out_line t a b : break_at is_nl t = (a, b) →
  help_out true t = indented a +:+ match b with String c r => String c (help_out true r) | EmptyString => EmptyString end.
Proof.
  assert (H : ∀ t a b, break_at is_nl t = (a, b) → help_out false t = a +:+ match b with String c r => String c (help_out true r) | EmptyString => EmptyString end).
  { clear. induction t as [|c t IH]; intros a b; simpl; [by intros [= <- <-]|]. destruct (is_nl c); [by intros [= <- <-]|].
    destruct (break_at is_nl t) as [a' b'] eqn:E. intros [= <- <-]. by rewrite (IH _ _ eq_refl). }
  destruct t as [|c t]; simpl; [by intros [= <- <-]|]. destruct (is_nl c) eqn:N; [by intros [= <- <-]|].
  destruct (break_at is_nl t) as [a' b'] eqn:E. intros [= <- <-]. by rewrite (H _ _ _ E).
Qed.
Lemma spaces_app m n : spaces m +:+ spaces n = spaces (m + n).
Proof. induction m as [|m IH]; [done|]. exact (f_equal (String " ") IH). Qed.
Lemma append_spaces_run n k c t0 s t : k < n → stands c t0 s → holds (sc_text s) t →
  ∃ b, append_spaces junk n k s = Done ((), sc_set_text b s) ∧ holds b (t +:+ spaces k).
Proof.
  revert k s t. induction n as [|n IH]; intros k s t Hn S H; [lia|]. cbn [append_spaces]. destruct (Nat.ltb_spec 8 k).
  - destruct (append_on _ _ (spaces 8) s t S H) as (b & E & S' & Hb). rewrite (mthen_done _ _ _ _ _ E).
    destruct (IH (k - 8) _ _ ltac:(lia) S' Hb) as (b' & E' & Hb'). exists b'. rewrite E'. split; [done|]. rewrite <- string_app_assoc, spaces_app in Hb'.
    by replace (8 + (k - 8)) with k in Hb' by lia.
  - destruct (append_on _ _ (spaces k) s t S H) as (b & E & _ & Hb). by exists b.
Qed.
(** A line is some spaces and a text that begins with something else. *)
Lemma help_line_spec first a : help_line_ok first a = true → ∃ k c r,
  a = spaces k +:+ String c r ∧ is_blank c = false ∧ is_nl c = false ∧ without [NUL] a = true ∧ (first = true → k = 0).
Proof.
  induction a as [|d a IH]; simpl; [done|]. destruct (isc d " ") eqn:E.
  - rewrite andb_true_iff, negb_true_iff. intros [-> H]. destruct (IH H) as (k & c & r & -> & B & N & W & _). apply isc_true in E as ->.
    exists (S k), c, r. split_and!; [done..| |done]. unfold without in *. simpl. done.
  - rewrite !andb_true_iff, !negb_true_iff. intros [[B N] W]. exists 0, d, a. by split_and!.
Qed.
Lemma columns_spaces k n : columns n (spaces k) = n + k.
Proof. revert n. induction k as [|k IH]; intros n; simpl; [lia|]. rewrite IH. lia. Qed.

(** The scanner in a help text. *)
Record helps (first : bool) (v t : string) (s : scanner) : Prop := {
  he_stands : stands HELP v s;
  he_text : holds (sc_text s) t;
  he_first : sc_first_ts s = if first then 0 else 8;
}.
(** The blanks before a line. *)
Lemma read_indent first k c r t s : (first = true → k = 0) → is_blank c = false → is_nl c = false →
  helps first (String "009" (spaces k +:+ String c r)) t s →
  ∃ s', step junk NUL s = Done (Again NUL, s') ∧ helps first (String c r) (t +:+ spaces k) s' ∧ sc_last_ts s' = 8 + k.
Proof.
  intros K B N [St H F]. rewrite (stands_step _ _ _ _ St). unfold step_help. rewrite (stands_gets _ _ _ _ St).
  assert (Sp : span is_blank (String "009" (spaces k +:+ String c r)) = (String "009" (spaces k), String c r)).
  { apply (break_app _ (String "009" (spaces k))); [|right; simpl; by rewrite B]. simpl. clear. induction k; done. }
  rewrite Sp. lazy beta iota. rewrite N. unfold help_indent, advance. rewrite mthen_modify.
  change (columns 0 (String "009" (spaces k))) with (columns 8 (spaces k)). rewrite columns_spaces. set (s1 := sc_set_in (String c r) s).
  change ((let! first_ts := mgets sc_first_ts in _) s1) with
    ((do! mmodify (sc_set_ts (8 + k) (sc_first_ts s)) in if sc_first_ts s =? 0 then mreturn (Again NUL) else if 8 + k <? sc_first_ts s then help_text
      else do! append_spaces junk (S (8 + k)) (8 + k - sc_first_ts s) in mreturn (Again NUL)) s1). rewrite mthen_modify, F.
  assert (S1 : stands HELP (String c r) (sc_set_ts (8 + k) (sc_first_ts s) s1)) by (apply stands_ts; by apply (stands_in _ _ _ _ St)).
  destruct first.
  - rewrite (K eq_refl) in *. rewrite F in S1. eexists. split; [done|]. split; [|done]. split; [done| |done]. by rewrite string_app_nil.
  - rewrite F in S1. destruct (append_spaces_run (S (8 + k)) (8 + k - 8) _ _ _ t ltac:(lia) S1 H) as (b & E & Hb). lazy beta iota. change (8 =? 0) with false. lazy beta iota.
    destruct (Nat.ltb_spec (8 + k) 8); [lia|]. rewrite (mthen_done _ _ _ _ _ E). eexists. split; [done|]. split; [|done]. split; [by apply stands_text| |done].
    by replace (8 + k - 8) with k in Hb by lia.
Qed.
Lemma read_help_text first c b r t s : is_blank c = false → is_nl c = false → all_chars (λ d, negb (is_nl d)) b = true → r = EmptyString ∨ starts is_nl r = true →
  helps first (String c b +:+ r) t s → (first = true → sc_last_ts s = 8) →
  ∃ s', step junk NUL s = Done (Again NUL, s') ∧ helps false r (t +:+ String c b) s'.
Proof.
  intros B N A R [S H F] L8. rewrite (stands_step _ _ _ _ S). unfold step_help. rewrite (stands_gets _ _ _ _ S).
  assert (Sp : span is_blank (String c b +:+ r) = (EmptyString, String c (b +:+ r))) by (unfold span; simpl; by rewrite B).
  assert (Br : break_at is_nl (String c b +:+ r) = (String c b, r)) by (apply break_app; [simpl; by rewrite N|done]).
  rewrite Sp. lazy beta iota. rewrite N, Br. unfold advance. rewrite mthen_modify.
  destruct (append_on _ _ (String c b) _ t (stands_in _ _ _ r S) H) as (bu & E & S' & Hb). rewrite (mthen_done _ _ _ _ _ E).
  destruct first.
  - eexists. split; [unfold mthen, mgets; simpl; rewrite F; done|]. split; [by apply stands_ts|done|]. simpl. by apply L8.
  - eexists. split; [unfold mthen, mgets; simpl; rewrite F; done|]. by split.
Qed.
Lemma read_help_nl first r t s : starts (λ d, negb (is_blank d) && negb (is_nl d)) r = false → helps first (String nl r) t s →
  ∃ s', step junk NUL s = Done (Again NUL, s') ∧ helps first r (t +:+ String nl "") s'.
Proof.
  intros R [S H F]. rewrite (stands_step _ _ _ _ S). unfold step_help. rewrite (stands_gets _ _ _ _ S).
  change (span is_blank (String nl r)) with (EmptyString, String nl r). lazy beta iota. change (is_nl nl) with true. lazy beta iota.
  unfold advance. rewrite mthen_modify. destruct (stands_lineno _ _ _ (stands_in _ _ _ r S)) as (l & E & S'). rewrite (mthen_done _ _ _ _ _ E), R.
  destruct (append_on _ _ (String nl "") _ t S' H) as (b & E2 & S2 & Hb). rewrite (mthen_done _ _ _ _ _ E2). eexists. split; [done|]. by split.
Qed.
(** The end of a help text: of the file, or a line that begins at column 0. *)
Definition help_tail (tl : string) : Prop := tl = EmptyString ∨ starts (λ d, negb (is_blank d) && negb (is_nl d)) tl = true.
Definition tail_out (tl : string) : string := match tl with EmptyString => EmptyString | _ => String nl tl end.
Lemma help_text_run v s t : stands HELP v s → holds (sc_text s) t → without [NUL] t = true →
  help_text s = Done (Return (LStr T_HELPTEXT t), sc_set_start INITIAL s).
Proof.
  intros S H N. unfold help_text, zconf_endhelp, mthen at 1. unfold mthen at 1. by rewrite (holds_text _ t s eq_refl H N).
Qed.
Lemma scan_help_end first tl t s : help_tail tl → without [NUL] t = true → helps first (tail_out tl) t s →
  ∃ s', scans NUL s (Some (LStr T_HELPTEXT t)) s' ∧ stands INITIAL tl s'.
Proof.
  intros Tl N [S H F]. destruct tl as [|c tl].
  - exists (sc_set_start INITIAL s). split; [|by apply (stands_start HELP)]. apply scans_return. rewrite (stands_step _ _ _ _ S). unfold step_help.
    rewrite (stands_gets _ _ _ _ S). by apply (help_text_run EmptyString).
  - destruct Tl as [|Tl]; [done|]. simpl tail_out in S. destruct (stands_lineno _ _ _ (stands_in _ _ _ (String c tl) S)) as (l & E & S').
    eexists. split; [|by apply (stands_start HELP), S']. apply scans_return. rewrite (stands_step _ _ _ _ S). unfold step_help.
    rewrite (stands_gets _ _ _ _ S). change (span is_blank (String nl (String c tl))) with (EmptyString, String nl (String c tl)). lazy beta iota.
    change (is_nl nl) with true. lazy beta iota. unfold advance. rewrite mthen_modify, (mthen_done _ _ _ _ _ E), Tl. by apply (help_text_run _ _ t S').
Qed.

Lemma read_help_line first a r t s : a = EmptyString ∨ help_line_ok first a = true → all_chars (λ d, negb (is_nl d)) a = true → r = EmptyString ∨ starts is_nl r = true →
  helps first (indented a +:+ r) t s →
  ∃ s', (∀ l s2, scans NUL s' l s2 → scans NUL s l s2) ∧ helps (first && bool_decide (a = EmptyString)) r (t +:+ a) s'.
Proof.
  intros A Nl R H. destruct A as [->|A].
  - exists s. split; [done|]. by rewrite andb_true_r, string_app_nil.
  - destruct (help_line_spec _ _ A) as (k & c & b & -> & B & N & W & K). unfold indented in H.
    rewrite bool_decide_false in H |- * by (by destruct k). rewrite andb_false_r. rewrite app_cons, <- string_app_assoc in H.
    rewrite all_chars_app, andb_true_iff in Nl. destruct Nl as [_ Nl]. simpl in Nl. apply andb_true_iff in Nl as [_ Nl].
    destruct (read_indent first k c (b +:+ r) t s K B N H) as (s1 & E1 & H1 & L1).
    destruct (read_help_text first c b r _ s1 B N Nl R H1) as (s2 & E2 & H2); [intros F; rewrite L1, (K F); done|].
    exists s2. split; [|by rewrite string_app_assoc]. intros l s3 Sc. by apply (scans_again _ _ _ _ _ _ E1), (scans_again _ _ _ _ _ _ E2).
Qed.
Lemma help_out_next t tl : starts (λ d, negb (is_blank d) && negb (is_nl d)) (help_out true t +:+ tail_out tl) = false.
Proof. destruct t as [|c t]; [by destruct tl|]. simpl. destruct (is_nl c) eqn:E; [|done]. simpl. rewrite E. apply andb_false_r. Qed.
Lemma scan_help_f n first t acc tl s : help_text_ok_f n first t = true → without [NUL] acc = true → help_tail tl →
  helps first (help_out true t +:+ tail_out tl) acc s →
  ∃ s', scans NUL s (Some (LStr T_HELPTEXT (acc +:+ t))) s' ∧ stands INITIAL tl s'.
Proof.
  revert first t acc s. induction n as [|n IH]; intros first t acc s; [done|]. simpl. destruct (break_at is_nl t) as [a b] eqn:B. destruct (break_spec _ _ _ _ B) as (E & Na & Hb).
  rewrite andb_true_iff, orb_true_iff, bool_decide_eq_true. intros [A Hr] N Tl H.
  rewrite (help_out_line _ _ _ B), <- string_app_assoc in H.
  match type of H with helps _ (_ +:+ ?v) _ _ => assert (R : v = EmptyString ∨ starts is_nl v = true) end.
  { destruct b as [|c b]; [destruct tl; [by left|by right]|]. destruct Hb as [|Hb]; [done|]. right. done. }
  destruct (read_help_line first a _ acc s A Na R H) as (s1 & Sc1 & H1).
  assert (N1 : without [NUL] (acc +:+ a) = true).
  { rewrite without_app, N. destruct A as [->|A]; [done|]. by destruct (help_line_spec _ _ A) as (? & ? & ? & _ & _ & _ & W & _). }
  destruct b as [|c b].
  - destruct (scan_help_end _ tl _ s1 Tl N1 H1) as (s' & Sc & S'). exists s'. rewrite E, string_app_nil. auto.
  - destruct Hb as [|Hb]; [done|]. simpl in Hb. apply isc_true in Hb as ->. rewrite app_cons in H1. destruct (read_help_nl _ _ _ s1 (help_out_next b tl) H1) as (s2 & E2 & H2).
    assert (N2 : without [NUL] ((acc +:+ a) +:+ String nl "") = true) by (by rewrite without_app, N1).
    destruct (IH _ b _ s2 Hr N2 Tl H2) as (s' & Sc & S'). exists s'. split; [|done].
    rewrite <- !string_app_assoc in Sc. rewrite E. by apply Sc1, (scans_again _ _ _ _ _ _ E2).
Qed.
(** A help text after [zconf_starthelp]. *)
Lemma scan_help t tl s : help_text_ok t = true → help_tail tl → stands INITIAL (help_out true t +:+ tail_out tl) s →
  ∃ s1 s', zconf_starthelp junk s = Done ((), s1) ∧ scans NUL s1 (Some (LStr T_HELPTEXT t)) s' ∧ stands INITIAL tl s'.
Proof.
  intros H Tl S. destruct (new_holds junk s) as (b & E & Hb). unfold zconf_starthelp.
  destruct (scan_help_f _ true t EmptyString tl (sc_set_start HELP (sc_set_ts 0 0 (sc_set_text b s))) H eq_refl Tl) as (s' & Sc & S').
  { split; [|done|done]. apply (stands_start INITIAL), stands_ts, stands_text, S. }
  eexists _, s'. rewrite (mthen_done _ _ _ _ _ E). split_and!; [done..|exact S'].
Qed.

(** ** Sequences *)

Lemma out_line ls : lex_ok (InLine true) ls = true ∨ lex_ok (InLine false) ls = true → ends_word (out false ls) = true.
Proof.
  destruct ls as [|[id|t u|t] r]; [intros [|]; done|done| |].
  - intros H. destruct t; try done. by destruct H.
  - intros _. by destruct t.
Qed.
Lemma out_bol l r : lex_ok Bol (l :: r) = true → l = LTok T_EOL ∨ ∃ id, l = LId id.
Proof. destruct l as [id|t u|t]; [by eauto|done|]. destruct t; by auto. Qed.
Lemma out_help_tail r : match r with [] | LId _ :: _ => lex_ok Bol r | _ => false end = true → help_tail (out true r) ∧
  (if is_nil r then EmptyString else String nl "") +:+ out true r = tail_out (out true r).
Proof.
  destruct r as [|[id|t u|t] r]; [by split; [left|]|..|done|done]. intros H. simpl in H. rewrite !andb_true_iff in H. destruct H as [[I _] _].
  destruct (id_name id I) as [A N]. destruct (kid_name id) as [|c w] eqn:W; [done|]. simpl. rewrite W. simpl in *. split; [right|done].
  apply andb_true_iff in A as [A _]. destruct (n_first c A) as (B & Hl & _). simpl. by rewrite B, Hl.
Qed.

(** The lexemes of a line behind its first. *)
Lemma scan_param l r s : param_ok l = true → ends_word r = true → stands PARAM (String " " (lexeme_out l) +:+ r) s →
  ∃ s', scans NUL s (Some l) s' ∧ stands PARAM r s'.
Proof.
  intros P E S. rewrite app_cons in S. pose proof (stands_in _ _ _ (lexeme_out l +:+ r) S) as S1.
  assert (∃ s', scans NUL (sc_set_in (lexeme_out l +:+ r) s) (Some l) s' ∧ stands PARAM r s') as (s' & Sc & S').
  { destruct l as [id|t u|t]; simpl in P.
    - apply andb_true_iff in P as [I K]. by apply scan_id.
    - destruct t; try done; [by apply scan_word|by apply scan_quoted].
    - apply scan_operator; [by destruct t|done|]. exact S1. }
  exists s'. split; [|done]. by apply (scan_space _ _ _ _ S).
Qed.

(** The line so far. *)
Definition line_mode (m : mode) (line : list lexeme) : Prop :=
  match m with
  | Bol | Help => line = []
  | InLine h => ∃ id r, line = LId id :: r ∧ kid_token id ≠ T_SOURCE ∧ h = is_nil r && bool_decide (kid_token id = T_HELP)
  end.
Definition mode_stands (m : mode) (t : string) (s : scanner) : Prop :=
  match m with
  | Bol => stands INITIAL t s
  | InLine _ => stands PARAM t s
  | Help => ∃ s0, zconf_starthelp junk s0 = Done ((), s) ∧ stands INITIAL t s0
  end.
Definition is_bol (m : mode) : bool := match m with InLine _ => false | _ => true end.

(** One lexeme, the call of the parser at the end of a line included. *)
Context (fopen : string → option string) (glob : string → globbed).
Lemma at_eol_line h line s : line_mode (InLine h) line → at_eol junk fopen glob line s = (if h then do! zconf_starthelp junk in mreturn true else mreturn true) s.
Proof.
  intros (id & r & -> & Ns & ->). unfold at_eol. destruct r as [|l r]; simpl.
  - case_decide; [by rewrite bool_decide_true|by rewrite bool_decide_false].
  - destruct l as [? |? ?|?], r; try done. by rewrite decide_False.
Qed.

Lemma id_tokens : forallb (λ id, negb (ends_line (LId id))) kconf_ids = true.
Proof. vm_compute. reflexivity. Qed.
Lemma id_goes_on id : id_ok id = true → ends_line (LId id) = false.
Proof.
  intros H%bool_decide_eq_true. apply find_some in H as [Hin _]. pose proof (proj1 (forallb_forall _ _) id_tokens id Hin) as H. by apply negb_true_iff in H.
Qed.
Lemma param_goes_on l : param_ok l = true → ends_line l = false.
Proof. destruct l as [id|t u|t]; simpl; [|by destruct t..]. rewrite andb_true_iff. intros [H _]. by apply id_goes_on. Qed.
Lemma goes_on_eol l : ends_line l = false → token_of l ≠ T_EOL.
Proof. unfold ends_line. intros H E. by rewrite E in H. Qed.

(** The next token is the next lexeme. *)
Definition lexes (l : lexeme) (line : list lexeme) (s s' : scanner) : Prop :=
  ∃ s1, zconflex junk s = Done (Some l, s1) ∧ sc_file s1 = Some f ∧
    (if decide (token_of l = T_EOL) then at_eol junk fopen glob line else mreturn true) s1 = Done (true, s').
Lemma lexes_goes_on l line s s' c t : ends_line l = false → scans NUL s (Some l) s' → stands c t s' → lexes l line s s'.
Proof.
  intros E Sc S. exists s'. split_and!; [by apply scans_zconflex|by apply (st_file _ _ _ S)|]. rewrite decide_False by (by apply goes_on_eol). done.
Qed.
Lemma lexes_command id r line s : lex_ok Bol (LId id :: r) = true → stands INITIAL (out true (LId id :: r)) s →
  ∃ s', lexes (LId id) line s s' ∧ stands PARAM (out false r) s' ∧ ends_line (LId id) = false.
Proof.
  intros H S. pose proof (lex_ok_next _ _ _ H) as Hr. simpl in H. rewrite !andb_true_iff in H. destruct H as [[I C] _].
  destruct (scan_command id (out false r) s I C) as (s' & Sc & S'); [apply out_line; simpl in Hr; destruct (bool_decide _); auto|done|].
  exists s'. split_and!; [by apply (lexes_goes_on _ _ _ _ _ _ (id_goes_on id I) Sc S')|done|by apply id_goes_on].
Qed.
Definition is_source (l : lexeme) : bool := match l with LId id => bool_decide (kid_token id = T_SOURCE) | _ => false end.
Lemma lexes_bol l r line s : lex_ok Bol (l :: r) = true → is_source l = false → line_mode Bol line → stands INITIAL (out true (l :: r)) s →
  ∃ s', lexes l line s s' ∧ mode_stands (next_mode Bol l) (out (is_bol (next_mode Bol l)) r) s' ∧
    line_mode (next_mode Bol l) (if ends_line l then [] else line ++ [l]).
Proof.
  intros H Ns -> S. destruct (out_bol l r H) as [->|[id ->]].
  - destruct (scan_eol_bol _ s S) as (s' & Sc & S'). exists s'. split_and!; [|done|done]. exists s'. split_and!; [by apply scans_zconflex|by apply (st_file _ _ _ S')|done].
  - apply bool_decide_eq_false in Ns. destruct (lexes_command id r [] s H S) as (s' & Le & S' & ->). exists s'. split_and!; [done..|]. by exists id, [].
Qed.
Lemma lexes_eol h r line s : line_mode (InLine h) line → stands PARAM (String nl r) s →
  ∃ s', lexes (LTok T_EOL) line s s' ∧ mode_stands (if h then Help else Bol) r s'.
Proof.
  intros Li S. destruct (scan_eol _ s S) as (s1 & Sc & S1). pose proof (at_eol_line h line s1 Li) as A. destruct h.
  - destruct (new_holds junk s1) as (b & E & _). eexists. split.
    + exists s1. split_and!; [by apply scans_zconflex|by apply (st_file _ _ _ S1)|]. rewrite decide_True by done. rewrite A.
      unfold zconf_starthelp. unfold mthen at 1. rewrite (mthen_done _ _ _ _ _ E). done.
    + exists s1. split; [|done]. unfold zconf_starthelp. by rewrite (mthen_done _ _ _ _ _ E).
  - exists s1. split; [|done]. exists s1. split_and!; [by apply scans_zconflex|by apply (st_file _ _ _ S1)|]. by rewrite decide_True.
Qed.
Lemma lexes_param h l r line s : lex_ok (InLine h) (l :: r) = true → l ≠ LTok T_EOL → line_mode (InLine h) line → stands PARAM (out false (l :: r)) s →
  ∃ s', lexes l line s s' ∧ stands PARAM (out false r) s' ∧ line_mode (InLine false) (line ++ [l]) ∧ ends_line l = false ∧ next_mode (InLine h) l = InLine false.
Proof.
  intros H N (id & q & -> & Ns & _) S.
  assert (P : param_ok l && lex_ok (InLine false) r = true) by (destruct l as [?|? ?|t]; [done..|by destruct t]). apply andb_true_iff in P as [P Hr].
  assert (O : out false (l :: r) = String " " (lexeme_out l) +:+ out false r) by (destruct l as [?|t ?|t]; [done|by destruct t..]). rewrite O in S.
  destruct (scan_param l (out false r) s P) as (s' & Sc & S'); [apply out_line; by right|done|]. exists s'.
  split_and!; [by apply (lexes_goes_on _ _ _ _ _ _ (param_goes_on l P) Sc S')|done| |by apply param_goes_on|by destruct l as [?|? ?|[]]].
  exists id, (q ++ [l]). split_and!; [done..|]. by destruct q.
Qed.
Lemma lexes_help l r line s : lex_ok Help (l :: r) = true → mode_stands Help (out true (l :: r)) s →
  ∃ s', lexes l line s s' ∧ stands INITIAL (out true r) s' ∧ ends_line l = true ∧ next_mode Help l = Bol.
Proof.
  destruct l as [?|t u|?]; [done| |done]. destruct t; try done. simpl. rewrite andb_true_iff. intros [H Hr] (s0 & E0 & S0).
  destruct (out_help_tail r Hr) as (Tl & Eq). rewrite Eq in S0. destruct (scan_help u _ s0 H Tl S0) as (s1 & s' & E1 & Sc & S').
  assert (s1 = s) as -> by congruence. exists s'. split_and!; [|done..]. exists s'. split_and!; [by apply scans_zconflex|by apply (st_file _ _ _ S')|done].
Qed.
Lemma lexes_next m l r line s : lex_ok m (l :: r) = true → is_source l = false → line_mode m line → mode_stands m (out (is_bol m) (l :: r)) s →
  ∃ s', lexes l line s s' ∧ mode_stands (next_mode m l) (out (is_bol (next_mode m l)) r) s' ∧
    line_mode (next_mode m l) (if ends_line l then [] else line ++ [l]).
Proof.
  intros H Ns Li S. destruct m as [|h|].
  - by apply lexes_bol.
  - destruct (decide (l = LTok T_EOL)) as [->|N].
    + destruct (lexes_eol h _ line s Li S) as (s' & Le & S'). exists s'. split_and!; [done|by destruct h|by destruct h].
    + destruct (lexes_param h l r line s H N Li S) as (s' & Le & S' & Li' & -> & ->). by exists s'.
  - destruct (lexes_help l r line s H S) as (s' & Le & S' & -> & ->). by exists s'.
Qed.

(** The tokens of a text. *)
Definition annotate (ls : list lexeme) : list (lexeme * option string) := map (λ l, (l, Some f)) ls.
(** [pre] is read before what [m] reads in [s']. *)
Definition reads_first {A} (pre : list A) (m m' : L (option (list A))) (s s' : scanner) : Prop :=
  m s = (let! rest := m' in mreturn (app pre <$> rest)) s'.
Lemma lexes_tokens l line n s s' : lexes l line s s' →
  reads_first [(l, Some f)] (tokens junk fopen glob (S n) line) (tokens junk fopen glob n (if ends_line l then [] else line ++ [l])) s s'.
Proof.
  intros (s1 & Z & F & A). unfold reads_first. cbn [tokens]. rewrite (mthen_done _ _ _ _ _ Z). unfold mthen at 1, mgets. by rewrite F, (mthen_done _ _ _ _ _ A).
Qed.
Lemma tokens_run ls rest m line n s : lex_ok m (ls ++ rest) = true → forallb (λ l, negb (is_source l)) ls = true → line_mode m line →
  mode_stands m (out (is_bol m) (ls ++ rest)) s →
  ∃ s' line', let m' := foldl next_mode m ls in lex_ok m' rest = true ∧ mode_stands m' (out (is_bol m') rest) s' ∧ line_mode m' line' ∧
    reads_first (annotate ls) (tokens junk fopen glob (length ls + n) line) (tokens junk fopen glob n line') s s'.
Proof.
  revert m line s. induction ls as [|l r IH]; intros m line s H Ns Li S.
  - exists s, line. split_and!; [done..|]. unfold reads_first, mthen. simpl. by destruct (tokens junk fopen glob n line s) as [[[ts|] s']| |].
  - simpl in Ns. apply andb_true_iff in Ns as [Nl%negb_true_iff Ns].
    destruct (lexes_next m l (r ++ rest) line s H Nl Li S) as (s2 & Le & S2 & Li2).
    destruct (IH _ _ s2 (lex_ok_next _ _ _ H) Ns Li2 S2) as (s' & line' & H' & S' & Li' & E). exists s', line'. split_and!; [done..|].
    pose proof (lexes_tokens l line (length r + n) s s2 Le) as E1. unfold reads_first in *. simpl length. rewrite Nat.add_succ_l, E1. unfold mthen in *. rewrite E.
    by destruct (tokens junk fopen glob n line' s') as [[[ts|] s3]| |].
Qed.
End Print.
