(* ===== verification/KLexSource.v ===== *)
(** * Sourced files: their tokens come in the place of the line, in the order
    of [glob] *)
From S2P Require Import Prelude CLib CStr KData KToken KLex KLexFacts KLexSafe KLexRun KLexPrint.
From Stdlib Require Import Ascii.
Open Scope pr30_scope.

Lemma reads_first_trans {A} (a b : list A) m m' m'' s s' s'' :
  reads_first a m m' s s' → reads_first b m' m'' s' s'' → reads_first (a ++ b) m m'' s s''.
Proof.
  unfold reads_first. intros -> E. unfold mthen in *. rewrite E. destruct (m'' s'') as [[[ts|] s3]| |]; try done. simpl. by rewrite app_assoc.
Qed.

Section Source.
Context (junk : nat → ascii) (fopen : string → option string) (glob : string → globbed).
Abbreviation tokens' := (tokens junk fopen glob).

(** ** Ends of files *)

(** [zconf_endfile] leaves the parent and the rest of its text. *)
Lemma endfile_run f below s : sc_file s = Some f → sc_bufs s = Some (map snd below) → links (sc_file_list s) f below →
  ∃ s', zconf_endfile s = Done ((), s') ∧ sc_start s' = sc_start s ∧ sc_file s' = fst <$> head below ∧
    (∀ g x, find_file g (sc_file_list s) = Some x → ∃ x', find_file g (sc_file_list s') = Some x' ∧ fl_parent x' = fl_parent x) ∧
    (∀ g, g ≠ f → fresh (sc_file_list s') g = fresh (sc_file_list s) g) ∧
    match below with [] => sc_bufs s' = None ∧ sc_in s' = sc_in s | (_, t) :: r => sc_bufs s' = Some (map snd r) ∧ sc_in s' = t end.
Proof.
  intros F B Li. destruct (links_find _ _ _ Li) as (x & X & P). unfold zconf_endfile.
  set (u := λ x, File (fl_name x) (fl_parent x) (fl_lineno x) false true).
  set (l := map (λ y, if bool_decide (fl_name y = f) then u y else y) (sc_file_list s)).
  assert (X' : find_file f (sc_file_list (sc_set_files l s)) = Some (u x)) by (simpl; unfold l; rewrite find_file_upd by done; rewrite X; simpl; by rewrite bool_decide_true).
  assert (H : ∀ s', sc_file_list s' = l → (∀ g x, find_file g (sc_file_list s) = Some x → ∃ x', find_file g (sc_file_list s') = Some x' ∧ fl_parent x' = fl_parent x) ∧
    (∀ g, g ≠ f → fresh (sc_file_list s') g = fresh (sc_file_list s) g)).
  { intros s' ->. unfold l, fresh. split.
    - intros g y Y. rewrite find_file_upd by done. rewrite Y. simpl. eexists. split; [done|]. by case_bool_decide.
    - intros g N. rewrite find_file_upd by done. rewrite bool_decide_false by done. by destruct (find_file g (sc_file_list s)). }
  rewrite (mthen_done _ _ _ _ _ (current_is s f F)), (mthen_done _ _ _ _ _ (upd_file_ok f u s x X)), (mthen_done _ _ _ _ _ (get_file_is _ _ _ X')).
  unfold mthen, mmodify, mgets, mderef. simpl. rewrite B. destruct below as [|[g t] r]; simpl.
  - eexists. split; [done|]. split_and!; [done|done|by apply H..|done|done].
  - eexists. split; [done|]. split_and!; [done|done|by apply H..|done|done].
Qed.
Lemma scan_eof f below un s : stands f below un INITIAL EmptyString s → f ∉ un →
  ∃ s', zconflex junk s = Done (Some (LTok T_EOL), s') ∧ sc_file s' = fst <$> head below ∧
    match below with
    | [] => sc_bufs s' = None ∧ sc_in s' = EmptyString ∧ sc_start s' = INITIAL
    | (g, t) :: r => stands g r un INITIAL t s'
    end.
Proof.
  intros [C I B F Li Un] N. destruct (endfile_run f below s F B Li) as (s' & E & C' & F' & Fi & Fr & H). exists s'.
  split_and!; [|done|].
  - apply scans_zconflex, scans_return. rewrite step_eof by (by rewrite C, I). unfold rule_eof, mthen at 1, mgets. rewrite F. by rewrite (mthen_done _ _ _ _ _ E).
  - destruct below as [|[g t] r]; destruct H as [Hb Hi]; [by rewrite Hi, C', C|]. destruct Li as [_ Li]. split; [congruence|done|done|done| |].
    + by apply (links_ext (sc_file_list s)).
    + apply Forall_forall. intros h Hh. rewrite Fr; [by apply (proj1 (Forall_forall _ _) Un)|]. intros ->. done.
Qed.

(** ** Opening files *)

(** The open files with what is left of them, the current one first. *)
Definition open_files (fr : list (string * string)) (un : list string) (s : scanner) : Prop :=
  match fr with (f, t) :: below => stands f below un INITIAL t s | [] => False end.
Lemma stands_incl f below un un' c t s : (∀ g, g ∈ un' → g ∈ un) → stands f below un c t s → stands f below un' c t s.
Proof. intros H []. split; try done. apply Forall_forall. intros g Hg. apply (proj1 (Forall_forall _ _) st_unread). auto. Qed.

Lemma push_file_ok p t fr un s : fopen p = Some t → p ∉ fr.*1 → p ∉ un → open_files fr (p :: un) s →
  ∃ s', push_file fopen p s = Done (true, s') ∧ open_files ((p, t) :: fr) un s'.
Proof.
  intros T N Nu S. destruct fr as [|[f t0] below]; [done|]. destruct S as [C I B F Li Un]. apply Forall_cons in Un as [Fp Un].
  destruct (push_file_fresh fopen p t s _ B T Fp) as (s' & E & P). exists s'. split; [done|].
  assert (O : ∀ g, g ≠ p → find_file g (sc_file_list s') = find_file g (sc_file_list s)) by apply (pu_others _ _ _ _ _ P). split.
  - by rewrite (pu_start _ _ _ _ _ P).
  - apply (pu_in _ _ _ _ _ P).
  - rewrite (pu_bufs _ _ _ _ _ P). simpl. by rewrite I.
  - apply (pu_file _ _ _ _ _ P).
  - split. { destruct (pu_new _ _ _ _ _ P) as (x & X & Px & _). exists x. by rewrite Px. }
    clear -Li N O. revert Li. change ((f, t0) :: below).*1 with (f :: below.*1) in N. revert f N. induction below as [|[g t] r IH]; intros f N; simpl.
    + rewrite O; [done|]. intros ->. apply N. by left.
    + intros [H Li]. split; [|apply IH; [|done]; intros Hp; apply N; by right]. rewrite O; [done|]. intros ->. apply N. by left.
  - apply Forall_forall. intros g Hg. unfold fresh. rewrite O; [by apply (proj1 (Forall_forall _ _) Un)|]. by intros ->.
Qed.
Lemma push_files_ok ps fr un s : (∀ p t, (p, t) ∈ ps → fopen p = Some t) → NoDup (ps.*1 ++ fr.*1) → (∀ p, p ∈ ps.*1 → p ∉ un) → open_files fr (ps.*1 ++ un) s →
  ∃ s', push_files fopen ps.*1 s = Done (true, s') ∧ open_files (ps ++ fr) un s'.
Proof.
  revert un s. induction ps as [|[p t] ps IH]; intros un s T N Nu S; [by exists s|]. simpl in N. apply NoDup_cons in N as [Np N].
  destruct (IH (p :: un) s) as (s1 & E1 & S1).
  - intros q u H. apply T. by right.
  - done.
  - intros q Hq. apply not_elem_of_cons. split; [intros ->; apply Np, elem_of_app; by left|]. apply Nu. by right.
  - destruct fr as [|[f t0] below]; [done|]. apply (stands_incl _ _ _ _ _ _ _) with (2 := S). intros g. simpl. rewrite !elem_of_cons, !elem_of_app, !elem_of_cons. tauto.
  - destruct (push_file_ok p t (ps ++ fr) un s1) as (s' & E & S'); [apply T; by left| |apply Nu; by left|done|].
    + by rewrite fmap_app.
    + exists s'. split; [|done]. simpl. by rewrite (mthen_done _ _ _ _ _ E1).
Qed.

(** ** The tokens of sourced files *)

Lemma mode_done m : lex_ok m [] = true → m = Bol.
Proof. by destruct m. Qed.
(** A whole file. *)
Lemma tokens_file f below un ls n s : lex_ok Bol ls = true → forallb (λ l, negb (is_source l)) ls = true → stands f below un INITIAL (out true ls) s →
  ∃ s', stands f below un INITIAL EmptyString s' ∧ reads_first (annotate f ls) (tokens' (length ls + n) []) (tokens' n []) s s'.
Proof.
  intros H Ns S. destruct (tokens_run junk f below un fopen glob ls [] Bol [] n s) as (s' & line & H' & S' & Li & E); rewrite ?app_nil_r; [done..|].
  rewrite (mode_done _ H') in *. simpl in Li. subst line. by exists s'.
Qed.
Lemma tokens_pop f g t r un n s : stands f ((g, t) :: r) un INITIAL EmptyString s → f ∉ un →
  ∃ s', stands g r un INITIAL t s' ∧ reads_first [(LTok T_EOL, Some g)] (tokens' (S n) []) (tokens' n []) s s'.
Proof.
  intros S N. destruct (scan_eof f _ un s S N) as (s' & E & F & S'). exists s'. split; [done|]. unfold reads_first. cbn [tokens].
  rewrite (mthen_done _ _ _ _ _ E). unfold mthen at 1, mgets. rewrite F. done.
Qed.

(** The tokens of the files, and a line end for the end of each, which is
    read in the next one. *)
Definition body_frames (ps : list (string * list lexeme)) : list (string * string) := map (λ '(p, ls), (p, out true ls)) ps.
Fixpoint included (ps : list (string * list lexeme)) (f : string) : list (lexeme * option string) :=
  match ps with
  | [] => []
  | (p, ls) :: r => annotate p ls ++ (LTok T_EOL, Some (default f (fst <$> head r))) :: included r f
  end.
Definition included_length (ps : list (string * list lexeme)) : nat := sum_list_with (λ '(_, ls), S (length ls)) ps.
Definition body_ok (ls : list lexeme) : bool := lex_ok Bol ls && forallb (λ l, negb (is_source l)) ls.
Lemma tokens_included ps f t below un n s : forallb (λ '(_, ls), body_ok ls) ps = true → (∀ p, p ∈ ps.*1 → p ∉ un) →
  open_files (body_frames ps ++ (f, t) :: below) un s →
  ∃ s', stands f below un INITIAL t s' ∧ reads_first (included ps f) (tokens' (included_length ps + n) []) (tokens' n []) s s'.
Proof.
  revert s. induction ps as [|[p ls] ps IH]; intros s Ok Nu St.
  - exists s. split; [done|]. unfold reads_first, mthen. simpl. by destruct (tokens' n [] s) as [[[ts|] s']| |].
  - simpl in Ok. apply andb_true_iff in Ok as [Ol Ok]. unfold body_ok in Ol. apply andb_true_iff in Ol as [H Ns]. simpl in St.
    change (included_length ((p, ls) :: ps)) with (S (length ls) + included_length ps).
    replace (S (length ls) + included_length ps + n) with (length ls + S (included_length ps + n)) by lia.
    destruct (tokens_file p _ un ls (S (included_length ps + n)) s H Ns St) as (s1 & S1 & E1).
    destruct (body_frames ps ++ (f, t) :: below) as [|[g u] r] eqn:Fr; [by destruct ps as [|[? ?] ?]|].
    assert (G : default f (fst <$> head ps) = g) by (destruct ps as [|[q l] ps']; simpl in *; by injection Fr as <- _).
    destruct (tokens_pop p g u r un (included_length ps + n) s1 S1) as (s2 & S2 & E2); [apply Nu; by left|].
    destruct (IH s2 Ok) as (s' & S' & E'); [intros q Hq; apply Nu; by right|done|]. exists s'. split; [done|]. cbn [included]. rewrite G.
    apply (reads_first_trans (annotate p ls) _ _ _ _ _ _ _ E1). apply (reads_first_trans [(LTok T_EOL, Some g)] (included ps f) _ _ _ _ _ _ E2 E').
Qed.

(** ** The line *)

Definition source_id : kconf_id := command_id "source" T_SOURCE.
Definition source_line (u : string) : list lexeme := [LId source_id; LStr T_WORD_QUOTE u; LTok T_EOL].
Lemma tokens_source u ps post f below un n s :
  lex_ok Bol (source_line u ++ post) = true → glob u = GLOB_OK ps.*1 → (∀ p ls, (p, ls) ∈ ps → fopen p = Some (out true ls)) →
  NoDup (ps.*1 ++ f :: below.*1) → (∀ p, p ∈ ps.*1 → p ∉ un) →
  stands f below (ps.*1 ++ un) INITIAL (out true (source_line u ++ post)) s →
  ∃ s', open_files (body_frames ps ++ (f, out true post) :: below) un s' ∧ reads_first (annotate f (source_line u)) (tokens' (3 + n) []) (tokens' n []) s s'.
Proof.
  intros H G T N Nu S. destruct (lexes_command junk f below _ fopen glob source_id _ [] s H S) as (s1 & L1 & S1 & E1).
  assert (U : param_ok (LStr T_WORD_QUOTE u) = true) by (simpl in H; by apply andb_true_iff in H as [H _]).
  destruct (scan_param junk f below _ (LStr T_WORD_QUOTE u) (out false (LTok T_EOL :: post)) s1 U eq_refl S1) as (s2 & Sc2 & S2).
  pose proof (lexes_goes_on junk f below _ fopen glob (LStr T_WORD_QUOTE u) [LId source_id] _ _ _ _ eq_refl Sc2 S2) as L2.
  destruct (scan_eol junk f below _ _ s2 S2) as (s3 & Sc3 & S3).
  assert (F : (body_frames ps).*1 = ps.*1) by (clear; induction ps as [|[p l] ps IH]; [done|exact (f_equal (cons p) IH)]).
  destruct (push_files_ok (body_frames ps) ((f, out true post) :: below) un s3) as (s4 & E4 & S4); rewrite ?F; [|done..|].
  { intros p t. unfold body_frames. intros ([q l] & [= -> ->] & Hq)%list_elem_of_fmap. by apply T. }
  exists s4. split; [done|]. rewrite F in E4.
  assert (L3 : lexes junk f fopen glob (LTok T_EOL) [LId source_id; LStr T_WORD_QUOTE u] s2 s4).
  { exists s3. split_and!; [by apply scans_zconflex|by apply (st_file _ _ _ _ _ _ S3)|]. rewrite decide_True by done.
    cbn [at_eol kid_token source_id command_id]. rewrite decide_True by done. unfold zconf_nextfile. by rewrite G. }
  pose proof (lexes_tokens junk f fopen glob _ _ (2 + n) _ _ L1) as R1. rewrite E1 in R1.
  pose proof (lexes_tokens junk f fopen glob _ _ (1 + n) _ _ L2) as R2. pose proof (lexes_tokens junk f fopen glob _ _ n _ _ L3) as R3.
  exact (reads_first_trans _ _ _ _ _ _ _ _ R1 (reads_first_trans _ _ _ _ _ _ _ _ R2 R3)).
Qed.
End Source.
