(* ===== verification/KConf.v ===== *)
(** * Reading and writing the configuration: [scripts/config/confdata.c]

    One definition per function, over the store of the configuration tool
    together with the files, the static variables of [confdata.c] and what is
    printed.  [char line[1024]] of [conf_read_file] is the array it is: an
    index stands for a pointer into it, and what an earlier line left behind
    the final NUL stays. *)
From S2P Require Import Prelude CLib CStr KData KExpr KState KSymbol KMenu.
From Stdlib Require Import Ascii.
Open Scope pr30_scope.

(** ** Characters and formats *)

(** The quote and the backslash, which [strpbrk] and [strcspn] look for. *)
Definition special (c : ascii) : bool := isc c dq || isc c bs.
(** [printf] with [%s] conversions only; an argument is missing: undefined. *)
Fixpoint fmt_s (fmt : string) (args : list string) : option string :=
  match fmt with
  | EmptyString => Some EmptyString
  | String a r =>
      match r with
      | String b r' =>
          if isc a "%" && isc b "s" then
            match args with
            | x :: args => let? t := fmt_s r' args in Some (x +:+ t)
            | [] => None
            end
          else let? t := fmt_s r args in Some (String a t)
      | EmptyString => Some fmt
      end
  end.

(** ** The state *)

Record conf : Set := Conf {
  cf_k : kstate;
  cf_filename : option string;
  cf_lineno : Z;
  cf_warnings : Z;
  cf_unsaved : Z;
  (** Regular files by path, and the paths that are directories. *)
  cf_files : gmap string string;
  cf_dirs : list string;
  (** What is written to the stream [out] and not yet closed. *)
  cf_stream : string;
  cf_stdout : list string;
  cf_stderr : list (option string * Z * string);
}.

Definition cf_set_k (x : kstate) (c : conf) : conf :=
  Conf x (cf_filename c) (cf_lineno c) (cf_warnings c) (cf_unsaved c) (cf_files c) (cf_dirs c)
    (cf_stream c) (cf_stdout c) (cf_stderr c).
Definition cf_set_counts (name : option string) (lineno warnings unsaved : Z) (c : conf) : conf :=
  Conf (cf_k c) name lineno warnings unsaved (cf_files c) (cf_dirs c) (cf_stream c) (cf_stdout c)
    (cf_stderr c).
Definition cf_set_files (x : gmap string string) (c : conf) : conf :=
  Conf (cf_k c) (cf_filename c) (cf_lineno c) (cf_warnings c) (cf_unsaved c) x (cf_dirs c)
    (cf_stream c) (cf_stdout c) (cf_stderr c).
Definition cf_set_stream (x : string) (c : conf) : conf :=
  Conf (cf_k c) (cf_filename c) (cf_lineno c) (cf_warnings c) (cf_unsaved c) (cf_files c) (cf_dirs c)
    x (cf_stdout c) (cf_stderr c).
Definition cf_set_stdout (x : list string) (c : conf) : conf :=
  Conf (cf_k c) (cf_filename c) (cf_lineno c) (cf_warnings c) (cf_unsaved c) (cf_files c) (cf_dirs c)
    (cf_stream c) x (cf_stderr c).
Definition cf_set_stderr (x : list (option string * Z * string)) (c : conf) : conf :=
  Conf (cf_k c) (cf_filename c) (cf_lineno c) (cf_warnings c) (cf_unsaved c) (cf_files c) (cf_dirs c)
    (cf_stream c) (cf_stdout c) x.

Abbreviation C := (M conf).

(** A function of [symbol.c] or [menu.c]. *)
Definition lift {A} (m : K A) : C A := λ c,
  match m (cf_k c) with
  | Done (a, k) => Done (a, cf_set_k k c)
  | Crash => Crash
  | NoFuel => NoFuel
  end.

Definition printf (s : string) : C () := mmodify (λ c, cf_set_stdout (cf_stdout c ++ [s]) c).
Definition fprintf (s : string) : C () := mmodify (λ c, cf_set_stream (cf_stream c +:+ s) c).

Definition incr_lineno : C () := mmodify (λ c,
  cf_set_counts (cf_filename c) (cf_lineno c + 1) (cf_warnings c) (cf_unsaved c) c).
Definition incr_unsaved : C () := mmodify (λ c,
  cf_set_counts (cf_filename c) (cf_lineno c) (cf_warnings c) (cf_unsaved c + 1) c).

(** The message with its position, and [conf_warnings++]. *)
Definition conf_warning (text : string) : C () := mmodify (λ c,
  cf_set_counts (cf_filename c) (cf_lineno c) (cf_warnings c + 1) (cf_unsaved c)
    (cf_set_stderr (cf_stderr c ++ [(cf_filename c, cf_lineno c, text)]) c)).

(** ** Names *)

Definition SYMBOL_MAXLENGTH : nat := 256.

(** A string written into a [char] array of [n] cells. *)
Definition fits (n : nat) (s : string) : C string :=
  if (String.length s <? n)%nat then mreturn s else mcrash.

Fixpoint expand_f (n : nat) (in' res_value : string) : C string :=
  match n with
  | O => mnofuel
  | S n =>
      match break_at (λ c, isc c "$") in' with
      | (_, EmptyString) => fits SYMBOL_MAXLENGTH (res_value +:+ in')
      | (before, String _ src) =>
          let! res_value := fits SYMBOL_MAXLENGTH (res_value +:+ before) in
          let '(name, src) := break_at (λ c, negb (isalnum c || isc c "_")) src in
          let! name := fits SYMBOL_MAXLENGTH name in
          let! sym := lift (sym_lookup (Some name) false) in
          do! lift (sym_calc_value sym) in
          let! v := lift (sym_get_string_value sym) in
          let! text := lift (deref_str v) in
          let! res_value := fits SYMBOL_MAXLENGTH (res_value +:+ text) in
          expand_f n src res_value
      end
  end.
(** Every turn of the loop drops at least the [$]. *)
Definition conf_expand_value (in' : string) : C string := expand_f (S (String.length in')) in' "".

Definition conf_def_filename : string := ".config".
Definition conf_defname : string := "scripts/config/defconfig".
Definition conf_confnames : list string := [".config"; conf_defname].
Definition LOCAL_BUILD_SETTINGS : string := "/.openwrt/defconfig".
Definition SRCTREE : string := "srctree".

(** ** Reading a line *)

(** [char line[1024]]. *)
Definition LINE : nat := 1024.

Definition str_at (line : list ascii) (i : nat) : C string := mderef (cstr_of (drop i line)).

Definition strscan (f : ascii → bool) (line : list ascii) (i : nat) : C (option nat) :=
  let! o := mderef (scan f (drop i line)) in mreturn (Nat.add i <$> o).

(** [!memcmp(line + i, text, n)], [!strncmp(line + i, text, n)] for a [text] of [n] characters. *)
Definition same_at (line : list ascii) (i : nat) (text : string) : bool :=
  bool_decide (take (String.length text) (drop i line) = String.list_ascii_of_string text).

(** [*p = 0]. *)
Definition put_nul (line : list ascii) (p : nat) : list ascii := <[p := NUL]> line.

Definition fgets (line : list ascii) (text : string) : option (list ascii * string) :=
  match text with
  | EmptyString => None
  | _ =>
      let '(l, rest) := fgets_take (length line - 1) text in
      Some (l ++ NUL :: drop (S (length l)) line, rest)
  end.

(** How the [switch] on the first character is left: by [continue], or by
    [break] with this value of [sym]. *)
Inductive leave : Set := Continue | Break (sym : option sid).

(** [sym->user.tri = t; sym->flags &= ~SYMBOL_NEW]. *)
Definition set_user_tri (s : sid) (t : tristate) : K () :=
  do! upd_sym s (λ y, sy_set_user (sv_set_tri t (sy_user y)) y) in
  clear_flags s SYMBOL_NEW.

(** [# CONFIG_NAME is not set]. *)
Definition read_unset (line : list ascii) : C (list ascii * leave) :=
  if negb (same_at line 2 "CONFIG_") then mreturn (line, Continue)
  else
    let! p := strscan (λ c, isc c " ") line 9 in
    match p with
    | None => mreturn (line, Continue)
    | Some p =>
        let line := put_nul line p in
        if negb (same_at line (S p) "is not set") then mreturn (line, Continue)
        else
          let! name := str_at line 9 in
          let! sym := lift (sym_find (Some name)) in
          match sym with
          | None => mreturn (line, Break None)
          | Some s =>
              let! y := lift (get_sym s) in
              do! match sy_type y with
                  | S_BOOLEAN | S_TRISTATE => lift (set_user_tri s No)
                  | _ => mreturn ()
                  end in
              mreturn (line, Break (Some s))
          end
    end.

(** The name in a message. *)
Definition name_of (y : symbol) : string := from_option cs_text EmptyString (sy_name y).
Definition invalid_value (text : string) (y : symbol) : C () :=
  conf_warning ("symbol value '" +:+ text +:+ "' invalid for " +:+ name_of y).

(** The value [p] points to for a boolean or tristate symbol. *)
Definition read_tristate (line : list ascii) (p : nat) (s : sid) (y : symbol) : C () :=
  let! c := mderef (line !! p) in
  if bool_decide (sy_type y = S_TRISTATE) && isc c "m" then lift (set_user_tri s Mod)
  else if isc c "y" then lift (set_user_tri s Yes)
  else if isc c "n" then lift (set_user_tri s No)
  else let! text := str_at line p in invalid_value text y.

(** [memmove(p2, p2 + 1, strlen(p2))]. *)
Definition drop_char (line : list ascii) (p2 : nat) : C (list ascii) :=
  let! s := str_at line p2 in
  let n := String.length s in
  mreturn (take p2 line ++ take n (drop (S p2) line) ++ drop (p2 + n) line).

(** The loop that ends a string at the quote and drops the backslashes; [true]
    if there is a quote. *)
Fixpoint unescape_f (n : nat) (line : list ascii) (p2 : nat) : C (list ascii * bool) :=
  match n with
  | O => mnofuel
  | S n =>
      let! q := strscan special line p2 in
      match q with
      | None => mreturn (line, false)
      | Some q =>
          let! c := mderef (line !! q) in
          if isc c dq then mreturn (put_nul line q, true)
          else let! line := drop_char line q in unescape_f n line (S q)
      end
  end.
(** The scan moves on by one cell at least in every turn. *)
Definition unescape (line : list ascii) (p : nat) : C (list ascii * bool) :=
  unescape_f (S (length line)) line p.

(** [if (sym_string_valid(sym, p)) ...]. *)
Definition read_text (line : list ascii) (p : nat) (s : sid) (y : symbol) : C leave :=
  let! text := str_at line p in
  let! ok := lift (sym_string_valid s text) in
  if ok then
    do! lift (let! c := strdup text in
              do! upd_sym s (λ y, sy_set_user (sv_set_val (VStr c) (sy_user y)) y) in
              clear_flags s SYMBOL_NEW) in
    mreturn (Break (Some s))
  else do! invalid_value text y in mreturn Continue.

(** The value [p] points to, by the type of the symbol. *)
Definition read_value (line : list ascii) (p : nat) (s : sid) (y : symbol) : C (list ascii * leave) :=
  match sy_type y with
  | S_TRISTATE | S_BOOLEAN =>
      do! read_tristate line p s y in mreturn (line, Break (Some s))
  | S_STRING =>
      let! c := mderef (line !! p) in
      if negb (isc c dq) then mreturn (line, Break (Some s))
      else
        let! (line, quoted) := unescape line (S p) in
        if quoted then let! r := read_text line (S p) s y in mreturn (line, r)
        else do! conf_warning "invalid string found" in mreturn (line, Continue)
  | S_INT | S_HEX => let! r := read_text line p s y in mreturn (line, r)
  | S_UNKNOWN | S_OTHER => mreturn (line, Break (Some s))
  end.

(** [CONFIG_NAME=value]. *)
Definition read_set (line : list ascii) : C (list ascii * leave) :=
  if negb (same_at line 0 "CONFIG_") then
    do! conf_warning "unexpected data" in mreturn (line, Continue)
  else
    let! p := strscan (λ c, isc c "=") line 7 in
    match p with
    | None => mreturn (line, Continue)
    | Some p =>
        let line := put_nul line p in
        let p := S p in
        let! p2 := strscan (λ c, isc c nl) line p in
        let line := match p2 with Some p2 => put_nul line p2 | None => line end in
        let! name := str_at line 7 in
        let! sym := lift (sym_find (Some name)) in
        match sym with
        | None => mreturn (line, Break None)
        | Some s => let! y := lift (get_sym s) in read_value line p s y
        end
    end.

(** A value that was read is a value of a choice: the choice follows. *)
Definition read_choice (s : sid) : C () :=
  let! cs := lift (choice_of s) in
  let! y := lift (get_sym s) in
  do! match sv_tri (sy_user y) with
      | No => mreturn ()
      | Mod =>
          let! cy := lift (get_sym cs) in
          if decide (sv_tri (sy_user cy) = Yes) then
            do! conf_warning (name_of y +:+ " creates inconsistent choice state") in
            lift (or_flags cs SYMBOL_NEW)
          else mreturn ()
      | Yes => lift (upd_sym cs (λ cy, sy_set_user (sv_set_val (VSym s) (sy_user cy)) cy))
      end in
  let! y := lift (get_sym s) in
  lift (upd_sym cs (λ cy, sy_set_user (sv_set_tri (tri_or (sv_tri (sy_user cy)) (sv_tri (sy_user y)))
                                         (sy_user cy)) cy)).

Definition read_line (line : list ascii) : C (list ascii) :=
  do! incr_lineno in
  let! c := mderef (line !! 0) in
  let! (line, r) :=
    if isc c "#" then read_unset line
    else if isc c "C" then read_set line
    else if isc c nl then mreturn (line, Break None)
    else do! conf_warning "unexpected data" in mreturn (line, Continue) in
  match r with
  | Break (Some s) =>
      let! v := lift (sym_is_choice_value s) in
      do! mwhen v (read_choice s) in mreturn line
  | _ => mreturn line
  end.

Fixpoint read_lines (n : nat) (line : list ascii) (text : string) : C () :=
  match n with
  | O => mnofuel
  | S n =>
      match fgets line text with
      | None => mreturn ()
      | Some (line, rest) => let! line := read_line line in read_lines n line rest
      end
  end.

(** [line] is what the automatic array holds at first; [text] is the file.
    Every [fgets] takes a character at least. *)
Definition conf_read_file (line : list ascii) (text : string) : C () :=
  read_lines (S (String.length text)) line text.

(** ** Reading the configuration *)

(** The loop of [conf_reset] and of [conf_read_simple]; what [free] releases is
    not used again. *)
Definition reset_symbol (s : sid) : K () :=
  do! or_flags s (Z.lor SYMBOL_NEW SYMBOL_CHANGED) in
  let! y := get_sym s in
  do! mwhen (is_choice y) (clear_flags s SYMBOL_NEW) in
  do! clear_flags s SYMBOL_VALID in
  upd_sym s (sy_set_user (SValue VNull No)).

(** [goto sym_ok] is reached by a break: whether the value was saved as it is. *)
Definition as_saved (s : sid) : C bool :=
  let! y := lift (get_sym s) in
  if is_choice y || has_flag (sy_flags y) SYMBOL_AUTO then mreturn true
  else if has_value y && has_flag (sy_flags y) SYMBOL_WRITE then
    let compare :=
      let! a := lift (deref_str (sv_val (sy_curr y))) in
      let! b := lift (deref_str (sv_val (sy_user y))) in
      mreturn (bool_decide (a = b)) in
    match sy_type y with
    | S_BOOLEAN | S_TRISTATE =>
        if decide (sv_tri (sy_user y) ≠ sv_tri (sy_curr y)) then mreturn false
        else if negb (is_choice y) then mreturn true else compare
    | _ => compare
    end
  else mreturn (negb (has_value y) && negb (has_flag (sy_flags y) SYMBOL_WRITE)).

(** The text of a string that is not looked at if it is NULL. *)
Definition val_text (v : cval) : string := match v with VStr c => cs_text c | _ => EmptyString end.

(** What follows [sym_ok]; of a string symbol [sym_string_within_range] does
    not look at the text. *)
Definition drop_value (s : sid) : K () :=
  let! y := get_sym s in
  if has_value y && negb (is_choice_value y) then
    do! mwhen (bool_decide (sy_visible y = No)) (or_flags s SYMBOL_NEW) in
    match sy_type y with
    | S_STRING | S_INT | S_HEX =>
        let! text :=
          if decide (sy_type y = S_STRING) then mreturn (val_text (sv_val (sy_user y)))
          else deref_str (sv_val (sy_user y)) in
        let! ok := sym_string_within_range s text in
        mwhen (negb ok) (do! or_flags s SYMBOL_NEW in clear_flags s SYMBOL_VALID)
    | _ => mreturn ()
    end
  else mreturn ().

Definition choice_new (s : sid) : K () :=
  let! y := get_sym s in
  if negb (is_choice y) then mreturn ()
  else
    let! p := sym_get_choice_prop s in
    let! p := mderef p in
    let! x := get_prop p in
    let! l := mderef (choice_values (pr_expr x)) in
    miter (λ v,
      let! vy := get_sym v in
      mwhen (bool_decide (sy_visible vy ≠ No)) (or_flags s (Z.land (sy_flags vy) SYMBOL_NEW))) l.

(** [for_all_symbols] with a body that also uses the state of this file. *)
Definition for_all_symbols_c (f : sid → C ()) : C () :=
  let! l := mgets (λ c, hash_syms (cf_k c)) in
  miter (λ s, let! y := lift (get_sym s) in
              if decide (sy_type y = S_OTHER) then mreturn () else f s) l.

Definition read_symbol (s : sid) : C () :=
  do! lift (sym_calc_value s) in
  let! ok := as_saved s in
  do! mwhen (negb ok) incr_unsaved in
  do! lift (drop_value s) in
  lift (choice_new s).

Section Environment.
(** [getenv], the translation of messages, the time as [ctime] prints it, the
    process number, and which files can be opened for writing. *)
Context (getenv : string → option string) (gettext : string → string) (ctime : string) (pid : Z)
  (writable : string → bool).
(** The arrays [line] of the calls of [conf_read_file], as they are at first. *)
Context (line0 : list ascii).

(** [fopen] for reading: the contents of the file that is opened; a directory
    can be opened, but nothing is read from it. *)
Definition fopen_r (name : string) : C (option string) := mgets (λ c,
  match cf_files c !! name with
  | Some text => Some text
  | None => if decide (name ∈ cf_dirs c) then Some EmptyString else None
  end).
Definition zconf_fopen (name : string) : C (option string) :=
  let! f := fopen_r name in
  match f with
  | Some text => mreturn (Some text)
  | None =>
      if isc (char_at name) "/" then mreturn None
      else match getenv SRCTREE with
           | None => mreturn None
           | Some env =>
               let! fullname := fits (S PATH_MAX) (env +:+ "/" +:+ name) in
               fopen_r fullname
           end
  end.

Definition conf_get_default_confname : C string :=
  let! name := conf_expand_value conf_defname in
  match getenv SRCTREE with
  | None => mreturn name
  | Some env =>
      let! fullname := fits (S PATH_MAX) (env +:+ "/" +:+ name) in
      let! found := mgets (λ c, bool_decide (is_Some (cf_files c !! fullname) ∨ fullname ∈ cf_dirs c)) in
      mreturn (if found then fullname else name)
  end.

(** The first file of [conf_confnames] that can be opened, with its name. *)
Fixpoint open_default (names : list string) : C (option string * option string) :=
  match names with
  | [] => mreturn (None, None)
  | name :: names =>
      let! name := conf_expand_value name in
      let! in' := zconf_fopen name in
      match in' with
      | Some text =>
          let! msg := mderef (fmt_s (gettext (ln "#" +:+ ln "# using defaults found in %s" +:+ ln "#")) [name]) in
          do! printf msg in
          mreturn (Some name, Some text)
      | None => open_default names
      end
  end.

(** [true] is the C value 1: there is nothing to read. *)
Definition conf_read_simple (name : option string) (load_config : bool) : C bool :=
  let! defaults :=
    match getenv "HOME" with
    | None => mreturn None
    | Some home_dir =>
        let path := home_dir +:+ LOCAL_BUILD_SETTINGS in
        let! defaults := zconf_fopen path in
        do! mwhen (bool_decide (is_Some defaults))
              (printf (ln ("# using buildsystem predefines from " +:+ path))) in
        mreturn defaults
    end in
  let! (name, in') :=
    if load_config then
      match name with
      | Some n => let! in' := zconf_fopen n in mreturn (name, in')
      | None => open_default conf_confnames
      end
    else mreturn (name, None) in
  match defaults, in' with
  | None, None => mreturn true
  | _, _ =>
      do! mmodify (cf_set_counts name 0 0 0) in
      do! lift (for_all_symbols reset_symbol) in
      do! match defaults with Some text => conf_read_file line0 text | None => mreturn () end in
      do! match in' with Some text => conf_read_file line0 text | None => mreturn () end in
      let! modules_sym := mgets (λ c, ks_modules_sym (cf_k c)) in
      do! match modules_sym with Some m => lift (sym_calc_value m) | None => mreturn () end in
      mreturn false
  end.

Definition conf_reset : C () :=
  do! lift (for_all_symbols reset_symbol) in
  let! _ := conf_read_simple None false in mreturn ().

Definition conf_read (name : option string) : C bool :=
  let! failed := conf_read_simple name true in
  if failed then mreturn true
  else
    do! for_all_symbols_c read_symbol in
    do! mmodify (λ c, cf_set_k (ks_set_change_count
          (if bool_decide (cf_warnings c ≠ 0%Z ∧ cf_unsaved c ≠ 0%Z) then 1 else 0) (cf_k c)) c) in
    mreturn false.

(** ** Writing the configuration *)

(** The inner loop over the quotes and backslashes: what is printed, and the rest. *)
Fixpoint escape_run (str : string) : string * string :=
  match str with
  | String c r =>
      if special c then let '(out, rest) := escape_run r in (String bs (String c out), rest)
      else (EmptyString, str)
  | EmptyString => (EmptyString, EmptyString)
  end.
(** The loop over the plain and the special characters in turn. *)
Fixpoint escape_f (n : nat) (str : string) : C () :=
  match n with
  | O => mnofuel
  | S n =>
      let '(l, str) := break_at special str in
      do! mwhen (bool_decide (l ≠ EmptyString)) (fprintf l) in
      let '(out, str) := escape_run str in
      do! mwhen (bool_decide (out ≠ EmptyString)) (fprintf out) in
      if decide (str = EmptyString) then mreturn () else escape_f n str
  end.
Definition write_escaped (str : string) : C () := escape_f (S (String.length str)) str.

(** The lines of a symbol, by its type and value. *)
Definition write_value (s : sid) (type : symbol_type) : C () :=
  let! y := lift (get_sym s) in
  let config := ("CONFIG_" +:+ name_of y)%string in
  let string_value :=
    let! v := lift (sym_get_string_value s) in lift (deref_str v) in
  match type with
  | S_BOOLEAN | S_TRISTATE =>
      let! t := lift (sym_get_tristate_value s) in
      match t with
      | No => fprintf (ln ("# " +:+ config +:+ " is not set"))
      | Mod => fprintf (ln (config +:+ "=m"))
      | Yes => fprintf (ln (config +:+ "=y"))
      end
  | S_STRING =>
      let! str := string_value in
      do! fprintf (config +:+ "=" +:+ String dq "") in
      do! write_escaped str in
      fprintf (ln (String dq ""))
  | S_HEX =>
      let! str := string_value in
      if negb (starts_0x str) then fprintf (ln (config +:+ "=" +:+ str))
      else
        let! str := string_value in
        fprintf (ln (config +:+ "=" +:+ str))
  | S_INT =>
      let! str := string_value in
      fprintf (ln (config +:+ "=" +:+ str))
  | S_UNKNOWN | S_OTHER => mreturn ()
  end.

(** What the loop of [conf_write] does with an entry before [next]. *)
Definition write_entry (menu : mid) : C () :=
  let! m := lift (get_menu menu) in
  match mn_sym m with
  | None =>
      let! visible := lift (menu_is_visible menu) in
      if negb visible then mreturn ()
      else
        let! str := lift (menu_get_prompt gettext menu) in
        let! str := mderef str in
        fprintf (ln "" +:+ ln "#" +:+ ln ("# " +:+ str) +:+ ln "#")
  | Some s =>
      let! y := lift (get_sym s) in
      if is_choice y then mreturn ()
      else
        do! lift (sym_calc_value s) in
        let! y := lift (get_sym s) in
        if negb (has_flag (sy_flags y) SYMBOL_WRITE) then mreturn ()
        else
          do! lift (clear_flags s SYMBOL_WRITE) in
          let type := sy_type y in
          do! mwhen (bool_decide (type = S_TRISTATE))
                (let! modules_sym := mgets (λ c, ks_modules_sym (cf_k c)) in
                 let! modules_sym := mderef modules_sym in
                 lift (sym_calc_value modules_sym)) in
          write_value s type
  end.

(** [while ((menu = menu->parent)) if (menu->next) ...]. *)
Fixpoint climb (n : nat) (menu : mid) : K (option mid) :=
  match n with
  | O => mnofuel
  | S n =>
      let! m := get_menu menu in
      match mn_parent m with
      | None => mreturn None
      | Some up =>
          let! u := get_menu up in
          match mn_next u with
          | Some next => mreturn (Some next)
          | None => climb n up
          end
      end
  end.
Definition next_entry (menu : mid) : K (option mid) :=
  let! m := get_menu menu in
  match mn_list m, mn_next m with
  | Some first, _ => mreturn (Some first)
  | None, Some next => mreturn (Some next)
  | None, None => λ k, climb (menu_fuel k) menu k
  end.

Fixpoint write_entries (n : nat) (menu : option mid) : C () :=
  match menu with
  | None => mreturn ()
  | Some menu =>
      match n with
      | O => mnofuel
      | S n =>
          do! write_entry menu in
          let! next := lift (next_entry menu) in
          write_entries n next
      end
  end.

(** [strrchr(name, '/')]: the text up to and with the last [/], and what follows. *)
Fixpoint last_slash (name : string) : option (string * string) :=
  match name with
  | EmptyString => None
  | String c r =>
      match last_slash r with
      | Some (a, b) => Some (String c a, b)
      | None => if isc c "/" then Some (String c "", r) else None
      end
  end.

(** [dirname] and [basename]; [None] is the pointer [conf_def_filename]. *)
Definition split_name (name : option string) : C (string * option string) :=
  match name with
  | None | Some EmptyString => mreturn (EmptyString, None)
  | Some name =>
      let! dir := mgets (λ c, bool_decide (name ∈ cf_dirs c)) in
      if dir then let! dirname := fits 128 (name +:+ "/") in mreturn (dirname, None)
      else match last_slash name with
           | Some (before, after) =>
               let! dirname := fits 128 before in
               mreturn (dirname, if decide (after = EmptyString) then None else Some after)
           | None => mreturn (EmptyString, Some name)
           end
  end.

(** [rename]; [false] is the C value 0. *)
Definition rename (old new : string) : C bool :=
  let! c := mgets id in
  match cf_files c !! old with
  | Some text =>
      if decide (new ∈ cf_dirs c) then mreturn true
      else do! mmodify (cf_set_files (<[new := text]> (delete old (cf_files c)))) in mreturn false
  | None => mreturn true
  end.

Definition header (version : string) (use_timestamp : bool) : option string :=
  fmt_s (gettext (ln "#" +:+ ln "# Automatically generated make config: don't edit" +:+
                  ln "# OpenWrt version: %s" +:+ "%s%s" +:+ ln "#"))
    [version; if use_timestamp then "# " else ""; if use_timestamp then ctime else ""].

(** The file [out] from [fopen] to [fclose], without its name. *)
Definition write_out : C () :=
  let! sym := lift (sym_lookup (Some "OPENWRTVERSION"%string) false) in
  do! lift (sym_calc_value sym) in
  let use_timestamp :=
    match getenv "KCONFIG_NOTIMESTAMP" with Some env => bool_decide (env = EmptyString) | None => true end in
  let! v := lift (sym_get_string_value sym) in
  let! version := lift (deref_str v) in
  let! head := mderef (header version use_timestamp) in
  do! fprintf head in
  let! count := mgets (λ c, ks_change_count (cf_k c)) in
  do! mwhen (bool_decide (count = 0%Z)) (lift sym_clear_all_valid) in
  let! root := lift (get_menu rootmenu) in
  let! n := mgets (λ c, menu_fuel (cf_k c)) in
  write_entries n (mn_list root).

(** [true] is the C value 1: the file could not be written. *)
Definition conf_write (name : option string) : C bool :=
  let! (dirname, basename) := split_name name in
  let! newname := fits 128 (dirname +:+ ".tmpconfig." +:+ print_d pid) in
  if negb (writable newname) then mreturn true
  else
    do! mmodify (cf_set_stream EmptyString) in
    do! write_out in
    do! mmodify (λ c, cf_set_files (<[newname := cf_stream c]> (cf_files c)) c) in
    do! (if bool_decide (name = None) || bool_decide (is_Some basename) then
           let name := default conf_def_filename name in
           let! tmpname := fits 128 (name +:+ ".old") in
           let! _ := rename name tmpname in mreturn ()
         else mreturn ()) in
    let! tmpname := fits 128 (dirname +:+ default conf_def_filename basename) in
    let! failed := rename newname tmpname in
    if failed then mreturn true
    else do! mmodify (λ c, cf_set_k (ks_set_change_count 0 (cf_k c)) c) in mreturn false.
End Environment.
