(* ===== verification/KConfText.v ===== *)
(** * Texts and the line buffer

    C strings inside the array [line], the search functions on it, and the
    escapes of string values: what [conf_write] prints for a string is what
    the loop of [conf_read_file] undoes in place. *)
From S2P Require Import Prelude CLib CStr KData KExpr KState KSymbol KSymText KMenu KConf.
From Stdlib Require Import Ascii.
Open Scope pr30_scope.

(** ** The array *)

Lemma put_here pre c r : put_nul (pre ++ c :: r) (length pre) = pre ++ NUL :: r.
Proof. unfold put_nul. rewrite insert_app_r_alt by done. by rewrite Nat.sub_diag. Qed.
Lemma str_here pre s r c : without [NUL] s = true → str_at (pre ++ la s ++ NUL :: r) (length pre) c = Done (s, c).
Proof. intros Hs. unfold str_at. by rewrite drop_here, cstr_of_app. Qed.

(** ** Escapes *)

Fixpoint escape (s : string) : string :=
  match s with
  | String c r => if special c then String bs (String c (escape r)) else String c (escape r)
  | EmptyString => EmptyString
  end.

Lemma escape_without l s : bool_decide (bs ∉ l) = true → without l s = true → without l (escape s) = true.
Proof.
  intros Hb. unfold without. induction s as [|c s IH]; [done|]. simpl. rewrite andb_true_iff. intros [Hc Hs].
  destruct (special c); simpl; rewrite Hc, IH by done; [|done]. by rewrite Hb.
Qed.

Lemma break_escape s a b : break_at special s = (a, b) →
  escape s = a +:+ escape b ∧ match b with String c _ => special c = true | EmptyString => True end ∧
  String.length b ≤ String.length s.
Proof.
  revert a b. induction s as [|c s IH]; intros a b; simpl; [by intros [= <- <-]|].
  destruct (special c) eqn:S; [intros [= <- <-]; simpl; by rewrite S|].
  destruct (break_at special s) as [a' b'] eqn:B. intros [= <- <-].
  destruct (IH _ _ eq_refl) as (-> & ? & ?). simpl. split_and!; [done..|lia].
Qed.
Lemma run_escape s a b : escape_run s = (a, b) →
  escape s = a +:+ escape b ∧ match b with String c _ => special c = false | EmptyString => True end ∧
  String.length b ≤ String.length s ∧ (match s with String c _ => special c = true | _ => False end →
  String.length b < String.length s).
Proof.
  revert a b. induction s as [|c s IH]; intros a b; simpl; [intros [= <- <-]; done|].
  destruct (special c) eqn:S; [|intros [= <- <-]; simpl; by rewrite S].
  destruct (escape_run s) as [a' b'] eqn:B. intros [= <- <-].
  destruct (IH _ _ eq_refl) as (-> & ? & ? & ?). simpl. split_and!; [done..|lia|lia].
Qed.

Definition printed (s : string) (c : conf) : conf := cf_set_stream (cf_stream c +:+ s) c.
Lemma printed_app s t c : printed t (printed s c) = printed (s +:+ t) c.
Proof. unfold printed. simpl. by rewrite string_app_assoc. Qed.
Lemma printed_nil c : printed "" c = c.
Proof. unfold printed. rewrite string_app_nil. by destruct c. Qed.
Lemma print_some s c : mwhen (bool_decide (s ≠ EmptyString)) (fprintf s) c = Done ((), printed s c).
Proof. destruct s; [|done]. by rewrite printed_nil. Qed.

Lemma escape_f_run n s c : String.length s < n → escape_f n s c = Done ((), printed (escape s) c).
Proof.
  revert s c. induction n as [|n IH]; intros s c Hn; [lia|]. simpl.
  destruct (break_at special s) as [l b] eqn:B. destruct (break_escape _ _ _ B) as (E & Hb & Hl).
  unfold mthen at 1. rewrite print_some. destruct (escape_run b) as [o d] eqn:R.
  destruct (run_escape _ _ _ R) as (E2 & Hd & Hl2 & Hl3). unfold mthen. rewrite print_some, printed_app.
  case_decide as D.
  - subst d. simpl in E2. by rewrite E, E2, string_app_nil.
  - assert (String.length d < String.length s).
    { destruct b as [|x b]; [simpl in Hl2; destruct d; [done|simpl in Hl2; lia]|]. specialize (Hl3 Hb). lia. }
    rewrite IH by lia. rewrite printed_app, E, E2. by rewrite !string_app_assoc.
Qed.
Lemma write_escaped_run s c : write_escaped s c = Done ((), printed (escape s) c).
Proof. apply escape_f_run. lia. Qed.

Lemma special_out c : c ∉ [dq; bs; NUL] → special c = false ∧ c ≠ NUL.
Proof.
  intros H. split.
  - apply orb_false_iff. rewrite !isc_false. split; intros ->; apply H; [by left|by right; left].
  - intros ->. apply H. by right; right; left.
Qed.

Lemma drop_char_here pre s r c :
  without [NUL] s = true → s ≠ EmptyString →
  drop_char (pre ++ la s ++ NUL :: r) (length pre) c =
    Done (pre ++ (match la s with _ :: l => l | [] => [] end) ++ NUL :: NUL :: r, c).
Proof.
  intros Hs Hn. unfold drop_char, mthen. rewrite str_here by done. cbv beta iota zeta. f_equal. f_equal.
  rewrite take_app_length. f_equal. destruct s as [|x s]; [done|].
  rewrite <-la_length. cbn [String.list_ascii_of_string].
  replace (drop (S (length pre)) (pre ++ (x :: la s) ++ NUL :: r)) with (la s ++ NUL :: r)
    by (rewrite drop_app_ge by lia; by replace (S (length pre) - length pre) with 1 by lia).
  rewrite (take_app_ge (la s)) by (simpl; lia). simpl length.
  replace (S (length (la s)) - length (la s)) with 1 by lia. cbn [take].
  rewrite drop_app_ge by lia. replace (length pre + S (length (la s)) - length pre) with (S (length (la s))) by lia.
  simpl. rewrite drop_here. by rewrite take_0, <-app_assoc.
Qed.

Lemma strscan_here f pre r c :
  strscan f (pre ++ r) (length pre) c =
    match scan f r with Some o => Done (Nat.add (length pre) <$> o, c) | None => Crash end.
Proof. unfold strscan, mthen, mderef. rewrite drop_here. by destruct (scan f r). Qed.

(** The loop on an escaped text: [u] is scanned already, [s] is still escaped. *)
Lemma unescape_f_run n u s pre r c :
  without [dq; bs; NUL] u = true → without [NUL] s = true → String.length s < n →
  ∃ r', unescape_f n (pre ++ la u ++ la (escape s) ++ dq :: NUL :: r) (length pre) c =
    Done ((pre ++ la u ++ la s ++ NUL :: r', true), c) ∧
    length (la (escape s) ++ dq :: NUL :: r) = length (la s ++ NUL :: r').
Proof.
  revert u pre r n. induction s as [|x s IH]; intros u pre r n Hu Hs Hn; (destruct n as [|n]; [lia|]).
  - exists (NUL :: r). split; [|done]. cbn [unescape_f escape String.list_ascii_of_string]. rewrite !app_nil_l.
    unfold mthen at 1.
    rewrite strscan_here, (scan_hit special [dq; bs; NUL] special_out) by done. cbn [fmap option_fmap option_map].
    rewrite <-la_length. rewrite (app_assoc pre). rewrite <-length_app.
    unfold mthen, mderef. rewrite lookup_here. rewrite isc_refl, put_here.
    by rewrite <-app_assoc.
  - unfold without in Hs. simpl in Hs. apply andb_true_iff in Hs as [Hx Hs]. simpl.
    destruct (special x) eqn:Sp.
    + destruct (IH EmptyString (pre ++ la u ++ [x]) (NUL :: r) n) as (r' & E & L); [done|done|simpl in Hn; lia|].
      exists r'. split; [|revert L; simpl; rewrite !length_app; simpl; lia].
      unfold mthen at 1. cbn [String.list_ascii_of_string].
      rewrite strscan_here, <-app_comm_cons, (scan_hit special [dq; bs; NUL] special_out) by done.
      cbn [fmap option_fmap option_map]. rewrite <-la_length. rewrite (app_assoc pre), <-length_app.
      unfold mthen, mderef. rewrite lookup_here. change (isc bs dq) with false. cbv iota.
      replace ((pre ++ la u) ++ bs :: (x :: la (escape s)) ++ dq :: NUL :: r) with
        ((pre ++ la u) ++ la (String bs (String x (escape s +:+ String dq ""))) ++ NUL :: r).
      2: { simpl. rewrite la_app. simpl. by rewrite <-(app_assoc (la (escape s))). }
      rewrite drop_char_here; [|unfold without; simpl; rewrite Hx; simpl; fold (without [NUL] (escape s +:+ String dq ""));
        rewrite without_app, escape_without by done; done|done].
      simpl. rewrite la_app. simpl.
      replace (S (length (pre ++ la u))) with (length (pre ++ la u ++ [x])) by (rewrite !length_app; simpl; lia).
      rewrite <-!app_assoc in *. simpl in *. exact E.
    + destruct (IH (u +:+ String x "") pre r (S n)) as (r' & E & L).
      { rewrite without_app, Hu. unfold without. simpl. rewrite andb_true_r. apply bool_decide_eq_true.
        apply bool_decide_eq_true in Hx. apply orb_false_iff in Sp as [S1%isc_false S2%isc_false].
        rewrite !not_elem_of_cons in *. tauto. }
      { done. }
      { simpl in Hn. lia. }
      exists r'. split; [|simpl; simpl in L; lia].
      rewrite la_app in E. simpl in E. rewrite <-!app_assoc in E. exact E.
Qed.

(** Reading a string as it is printed gives it back, in place. *)
Lemma unescape_run s pre r c :
  without [NUL] s = true →
  ∃ r', unescape (pre ++ la (escape s) ++ dq :: NUL :: r) (length pre) c =
    Done ((pre ++ la s ++ NUL :: r', true), c) ∧
    length (la (escape s) ++ dq :: NUL :: r) = length (la s ++ NUL :: r').
Proof.
  intros Hs. apply (unescape_f_run _ EmptyString); [done..|].
  rewrite !length_app, la_length. assert (String.length s ≤ String.length (escape s)).
  { clear. induction s as [|c s IH]; simpl; [done|]. destruct (special c); simpl; lia. }
  lia.
Qed.

(** ** One line of the file *)

Lemma fgets_take_line n l rest :
  without [nl] l = true → String.length l < n → fgets_take n (l +:+ String nl rest) = (la l ++ [nl], rest).
Proof.
  revert n. induction l as [|c l IH]; intros [|n] Hl Hn; try (simpl in Hn; lia); [done|].
  unfold without in Hl. simpl in Hl. apply andb_true_iff in Hl as [Hc%bool_decide_eq_true Hl].
  rewrite app_cons. cbn [fgets_take]. rewrite (proj2 (isc_false c nl)); [|intros ->; apply Hc; by left].
  rewrite (IH n); [done..|simpl in Hn; lia].
Qed.

Lemma fgets_line buf l rest :
  length buf = LINE → without [nl] l = true → String.length l + 2 ≤ LINE →
  ∃ r, fgets buf (ln l +:+ rest) = Some (la l ++ nl :: NUL :: r, rest) ∧ length (la l ++ nl :: NUL :: r) = LINE.
Proof.
  intros Hb Hl Hn. exists (drop (S (String.length l + 1)) buf). unfold fgets, ln. rewrite <-string_app_assoc.
  change (String nl "" +:+ rest) with (String nl rest).
  rewrite (fgets_take_line (length buf - 1)), length_app, la_length; [|done|lia].
  destruct (l +:+ String nl rest) eqn:E; [by destruct l|]. split.
  - simpl. by rewrite <-app_assoc.
  - rewrite length_app, la_length. simpl. rewrite length_drop. lia.
Qed.
