(* ===== verification/KConfLine.v ===== *)
(** * The lines of the configuration file

    What [conf_write] prints for a symbol is a line from which
    [conf_read_file] takes the same value; the other lines it prints change
    nothing but the line count. *)
From S2P Require Import Prelude CLib CStr KData KExpr KState KSymbol KSymFrame KMenu KConf KConfText.
From Stdlib Require Import Ascii.
Open Scope pr30_scope.

(** ** Settings *)

(** A value as the file has it. *)
Inductive setting : Set := SetTri (t : tristate) | SetText (x : string).

#[export] Instance setting_eq_dec : EqDecision setting.
Proof. solve_decision. Defined.

(** The line of a symbol of type [ty], without the newline. *)
Definition conf_line (name : string) (ty : symbol_type) (v : setting) : string :=
  match v with
  | SetTri No => "# CONFIG_" +:+ name +:+ " is not set"
  | SetTri Mod => "CONFIG_" +:+ name +:+ "=m"
  | SetTri Yes => "CONFIG_" +:+ name +:+ "=y"
  | SetText x =>
      match ty with
      | S_STRING => "CONFIG_" +:+ name +:+ "=" +:+ String dq (escape x +:+ String dq "")
      | _ => "CONFIG_" +:+ name +:+ "=" +:+ x
      end
  end.

Definition apply_setting (s : sid) (v : setting) : K () :=
  match v with
  | SetTri t => set_user_tri s t
  | SetText x =>
      let! c := strdup x in
      do! upd_sym s (λ y, sy_set_user (sv_set_val (VStr c) (sy_user y)) y) in
      clear_flags s SYMBOL_NEW
  end.

(** Names and values that a line can hold. *)
Definition name_ok (name : string) : bool := without [NUL; nl; "="%char; " "%char] name.
Definition setting_ok (ty : symbol_type) (v : setting) : bool :=
  match ty, v with
  | S_BOOLEAN, SetTri t => negb (bool_decide (t = Mod))
  | S_TRISTATE, SetTri _ => true
  | (S_STRING | S_INT | S_HEX), SetText x => without [NUL; nl] x && string_valid ty x
  | _, _ => false
  end.

(** ** Reading *)

Lemma lift_same {A} (m : K A) a c : m (cf_k c) = Done (a, cf_k c) → lift m c = Done (a, c).
Proof. intros H. unfold lift. rewrite H. by destruct c. Qed.
Lemma lift_get s y c : ks_syms (cf_k c) !! s = Some y → lift (get_sym s) c = Done (y, c).
Proof. intros H. apply lift_same. unfold get_sym. by rewrite H. Qed.

Lemma isc_out x (l : list ascii) : x ∈ l → NUL ∈ l → ∀ c, c ∉ l → isc c x = false ∧ c ≠ NUL.
Proof. intros Hx Hn c Hc. rewrite isc_false. split; intros ->; done. Qed.

Lemma elem_here (c : ascii) (l : list ascii) : bool_decide (c ∈ l) = true → c ∈ l.
Proof. apply bool_decide_eq_true. Qed.

Definition prefix : list ascii := la "CONFIG_".

(** [CONFIG_NAME=value] of a symbol that exists. *)
Lemma read_set_run name rest r s y c :
  name_ok name = true → without [NUL; nl] rest = true →
  sym_find (Some name) (cf_k c) = Done (Some s, cf_k c) → ks_syms (cf_k c) !! s = Some y →
  read_set (prefix ++ la name ++ "="%char :: la rest ++ nl :: NUL :: r) c =
    read_value ((prefix ++ la name ++ [NUL]) ++ la rest ++ NUL :: NUL :: r)
      (length (prefix ++ la name ++ [NUL])) s y c.
Proof.
  intros Hn Hr Hf Hy. unfold read_set.
  assert (same_at (prefix ++ la name ++ "="%char :: la rest ++ nl :: NUL :: r) 0 "CONFIG_" = true) as ->.
  { apply bool_decide_eq_true. by rewrite drop_0. }
  cbn [negb]. unfold mthen at 1. change 7 with (length prefix) at 1. rewrite strscan_here.
  rewrite (scan_hit _ [NUL; nl; "="%char; " "%char]); [|by apply isc_out; apply elem_here|done..].
  cbn [fmap option_fmap option_map]. rewrite <-la_length, <-length_app.
  rewrite app_assoc, put_here. unfold mthen at 1.
  replace (S (length (prefix ++ la name))) with (length ((prefix ++ la name) ++ [NUL]))
    by (rewrite length_app; simpl; lia).
  change (NUL :: la rest ++ nl :: NUL :: r) with ([NUL] ++ la rest ++ nl :: NUL :: r). rewrite app_assoc.
  rewrite strscan_here, (scan_hit _ [NUL; nl]); [|by apply isc_out; apply elem_here|done..].
  cbn [fmap option_fmap option_map]. rewrite <-la_length, <-length_app.
  rewrite (app_assoc _ (la rest)), put_here. unfold mthen at 1.
  assert (E : str_at (((((prefix ++ la name) ++ [NUL]) ++ la rest) ++ NUL :: NUL :: r)) 7 c = Done (name, c)).
  { rewrite <-!app_assoc. change 7 with (length prefix). apply str_here.
    by eapply without_weaken; [|apply Hn]; intros x ->%list_elem_of_singleton; left. }
  rewrite E. unfold mthen at 1. rewrite (lift_same _ _ _ Hf). unfold mthen at 1. rewrite (lift_get _ _ _ Hy).
  by rewrite <-!app_assoc.
Qed.

(** [# CONFIG_NAME is not set]. *)
Lemma read_unset_run name r s y c :
  name_ok name = true → sym_find (Some name) (cf_k c) = Done (Some s, cf_k c) →
  ks_syms (cf_k c) !! s = Some y → sy_type y = S_BOOLEAN ∨ sy_type y = S_TRISTATE →
  read_unset (la "# CONFIG_" ++ la name ++ la " is not set" ++ nl :: NUL :: r) c =
    (do! lift (set_user_tri s No) in
     mreturn (la "# CONFIG_" ++ la name ++ NUL :: la "is not set" ++ nl :: NUL :: r, Break (Some s))) c.
Proof.
  intros Hn Hf Hy Ht. unfold read_unset.
  assert (same_at (la "# CONFIG_" ++ la name ++ la " is not set" ++ nl :: NUL :: r) 2 "CONFIG_" = true) as ->
    by (by apply bool_decide_eq_true).
  cbn [negb]. unfold mthen at 1. change 9 with (length (la "# CONFIG_")) at 1. rewrite strscan_here.
  change (la " is not set" ++ nl :: NUL :: r) with (" "%char :: la "is not set" ++ nl :: NUL :: r).
  rewrite (scan_hit _ [NUL; nl; "="%char; " "%char]); [|by apply isc_out; apply elem_here|done..].
  cbn [fmap option_fmap option_map]. rewrite <-la_length, <-length_app, app_assoc, put_here.
  assert (same_at ((la "# CONFIG_" ++ la name) ++ NUL :: la "is not set" ++ nl :: NUL :: r)
    (S (length (la "# CONFIG_" ++ la name))) "is not set" = true) as ->.
  { apply bool_decide_eq_true. rewrite drop_app_ge by lia.
    by replace (S (length (la "# CONFIG_" ++ la name)) - length (la "# CONFIG_" ++ la name)) with 1 by lia. }
  cbn [negb]. unfold mthen at 1.
  assert (E : str_at ((la "# CONFIG_" ++ la name) ++ NUL :: la "is not set" ++ nl :: NUL :: r) 9 c = Done (name, c)).
  { rewrite <-app_assoc. change 9 with (length (la "# CONFIG_")). apply str_here.
    by eapply without_weaken; [|apply Hn]; intros x ->%list_elem_of_singleton; left. }
  rewrite E. unfold mthen at 1. rewrite (lift_same _ _ _ Hf). unfold mthen at 1. rewrite (lift_get _ _ _ Hy).
  rewrite <-app_assoc. by destruct Ht as [-> | ->].
Qed.

(** The text of a setting behind the [=]. *)
Definition value_text (ty : symbol_type) (v : setting) : string :=
  match v with
  | SetTri No => "n"
  | SetTri Mod => "m"
  | SetTri Yes => "y"
  | SetText x => match ty with S_STRING => String dq (escape x +:+ String dq "") | _ => x end
  end.

Lemma read_text_run pre x r s y c :
  ks_syms (cf_k c) !! s = Some y → without [NUL; nl] x = true → string_valid (sy_type y) x = true →
  read_text (pre ++ la x ++ NUL :: r) (length pre) s y c =
    (do! lift (apply_setting s (SetText x)) in mreturn (Break (Some s))) c.
Proof.
  intros Hy Hx Hv. unfold read_text, mthen at 1.
  rewrite str_here by (eapply without_weaken; [|apply Hx]; intros ? ->%list_elem_of_singleton; left).
  unfold mthen at 1. rewrite (lift_same _ true); [done|].
  unfold sym_string_valid, mthen, get_sym. rewrite Hy. simpl. unfold mreturn. by rewrite Hv.
Qed.

Lemma read_value_run pre v r s y c :
  ks_syms (cf_k c) !! s = Some y → setting_ok (sy_type y) v = true →
  ∃ line', length line' = length (pre ++ la (value_text (sy_type y) v) ++ NUL :: r) ∧
    read_value (pre ++ la (value_text (sy_type y) v) ++ NUL :: r) (length pre) s y c =
      (do! lift (apply_setting s v) in mreturn (line', Break (Some s))) c.
Proof.
  intros Hy Ho. unfold read_value.
  assert (T : ∀ t, v = SetTri t → sy_type y = S_BOOLEAN ∧ t ≠ Mod ∨ sy_type y = S_TRISTATE).
  { intros t ->. revert Ho. destruct (sy_type y); simpl; try done; auto.
    rewrite negb_true_iff, bool_decide_eq_false. auto. }
  destruct v as [t|x].
  - exists (pre ++ la (value_text (sy_type y) (SetTri t)) ++ NUL :: r). split; [done|].
    unfold read_tristate. destruct (T t eq_refl) as [[Ty Nt]|Ty]; rewrite Ty; destruct t; try done;
      unfold mthen, mderef; simpl; rewrite lookup_here; reflexivity.
  - destruct (sy_type y) eqn:Ty; try done; unfold setting_ok in Ho; apply andb_true_iff in Ho as [Hx Hv].
    + exists (pre ++ la x ++ NUL :: r). split; [done|]. unfold mthen at 1.
      rewrite read_text_run by (done || by rewrite Ty). unfold mthen, lift. by destruct (apply_setting _ _ _) as [[[] k1]| |].
    + exists (pre ++ la x ++ NUL :: r). split; [done|]. unfold mthen at 1.
      rewrite read_text_run by (done || by rewrite Ty). unfold mthen, lift. by destruct (apply_setting _ _ _) as [[[] k1]| |].
    + cbn [value_text]. destruct (unescape_run x (pre ++ [dq]) r c) as (r' & E & L).
      { eapply without_weaken; [|apply Hx]. intros ? ->%list_elem_of_singleton. left. }
      exists ((pre ++ [dq]) ++ la x ++ NUL :: r'). split.
      { rewrite !length_app, la_length in *. cbn [String.list_ascii_of_string]. rewrite la_app.
        simpl in *. rewrite !length_app, la_length in *. simpl in *. lia. }
      cbn [String.list_ascii_of_string]. rewrite la_app. cbn [String.list_ascii_of_string].
      unfold mthen at 1, mderef. rewrite <-app_comm_cons, lookup_here, isc_refl. cbn [negb]. unfold mthen at 1.
      replace (pre ++ dq :: (la (escape x) ++ [dq]) ++ NUL :: r) with
        ((pre ++ [dq]) ++ la (escape x) ++ dq :: NUL :: r) by (by rewrite <-!app_assoc).
      replace (S (length pre)) with (length (pre ++ [dq])) by (rewrite length_app; simpl; lia).
      rewrite E. unfold mthen at 1. rewrite read_text_run by (done || by rewrite Ty).
      unfold mthen, lift. by destruct (apply_setting _ _ _) as [[[] k1]| |].
Qed.

(** The symbol and the store after a setting. *)
Definition with_setting (v : setting) (a : nat) (y : symbol) : symbol :=
  let user := match v with
              | SetTri t => sv_set_tri t (sy_user y)
              | SetText x => sv_set_val (VStr (CStr a x)) (sy_user y)
              end in
  sy_set_flags (clear_flag (sy_flags y) SYMBOL_NEW) (sy_set_user user y).
Definition setting_store (s : sid) (v : setting) (y : symbol) (k : kstate) : kstate :=
  ks_set_syms (<[s := with_setting v (ks_new_str k) y]> (ks_syms k))
    (match v with SetTri _ => k | SetText _ => ks_set_new_str (S (ks_new_str k)) k end).

Lemma apply_setting_run s v y k :
  ks_syms k !! s = Some y → apply_setting s v k = Done ((), setting_store s v y k).
Proof.
  intros H. destruct v as [t|x]; unfold apply_setting, set_user_tri, clear_flags, upd_sym, mthen, strdup, get_sym;
    simpl; rewrite H; simpl; unfold mderef; simpl; rewrite lookup_insert_eq; simpl; unfold put_sym, mmodify;
    simpl; unfold setting_store; f_equal; f_equal; by rewrite insert_insert_eq.
Qed.

Definition line_done (c : conf) : conf :=
  cf_set_counts (cf_filename c) (cf_lineno c + 1) (cf_warnings c) (cf_unsaved c) c.

Lemma value_text_ok ty v : setting_ok ty v = true → without [NUL; nl] (value_text ty v) = true.
Proof.
  destruct v as [[]|x]; try done. destruct ty; try done; simpl; rewrite andb_true_iff; intros [H _]; [done..|].
  unfold without. simpl. fold (without [NUL; nl] (escape x +:+ String dq "")).
  by rewrite without_app, escape_without.
Qed.

Lemma conf_line_la name ty v :
  setting_ok ty v = true →
  la (conf_line name ty v) =
    if decide (v = SetTri No) then la "# CONFIG_" ++ la name ++ la " is not set"
    else prefix ++ la name ++ "="%char :: la (value_text ty v).
Proof.
  intros _. destruct v as [[]|x]; unfold conf_line; try (destruct ty); by rewrite !la_app.
Qed.

(** A line that [conf_write] prints for a symbol is read as its setting. *)
Lemma read_line_written name s y v r c :
  name_ok name = true → setting_ok (sy_type y) v = true →
  sym_find (Some name) (cf_k c) = Done (Some s, cf_k c) → ks_syms (cf_k c) !! s = Some y →
  ∃ line', length line' = length (la (conf_line name (sy_type y) v) ++ nl :: NUL :: r) ∧
    read_line (la (conf_line name (sy_type y) v) ++ nl :: NUL :: r) c =
      (do! incr_lineno in
       do! lift (apply_setting s v) in
       do! mwhen (is_choice_value y) (read_choice s) in
       mreturn line') c.
Proof.
  intros Hn Ho Hf Hy.
  assert (R : ∃ line', length line' = length (la (conf_line name (sy_type y) v) ++ nl :: NUL :: r) ∧
    (if decide (v = SetTri No) then read_unset else read_set)
      (la (conf_line name (sy_type y) v) ++ nl :: NUL :: r) (line_done c) =
      (do! lift (apply_setting s v) in mreturn (line', Break (Some s))) (line_done c)).
  { rewrite conf_line_la by done. case_decide as D.
    - subst v. rewrite <-!app_assoc. rewrite (read_unset_run name r s y); [|done..|].
      + eexists. split; [|done]. rewrite !length_app. simpl. lia.
      + revert Ho. destruct (sy_type y); try done; auto.
    - rewrite <-!app_assoc, <-app_comm_cons. rewrite (read_set_run name _ r s y) by (done || by apply value_text_ok).
      destruct (read_value_run (prefix ++ la name ++ [NUL]) v (NUL :: r) s y (line_done c)) as (l' & L & E); [done..|].
      exists l'. split; [|done]. rewrite L, !length_app. simpl. rewrite !length_app. simpl. lia. }
  set (c2 := cf_set_k (setting_store s v y (cf_k c)) (line_done c)).
  assert (A : lift (apply_setting s v) (line_done c) = Done ((), c2)).
  { unfold lift. by rewrite (apply_setting_run s v y). }
  destruct R as (line' & L & R). rewrite (mthen_done _ _ _ _ _ A) in R. exists line'. split; [done|]. unfold read_line.
  rewrite !(mthen_done incr_lineno _ c () (line_done c) eq_refl), (mthen_done _ _ _ _ _ A).
  assert (F : ∃ x l, la (conf_line name (sy_type y) v) = x :: l ∧
    x = if decide (v = SetTri No) then "#"%char else "C"%char).
  { clear -Ho. destruct v as [[]|x], (sy_type y); try discriminate Ho; by eexists _, _. }
  destruct F as (x & l & E & Hx). rewrite E in *. rewrite <-app_comm_cons in *.
  rewrite (mthen_done (mderef _) _ _ x (line_done c)) by done.
  rewrite (mthen_done _ _ _ (line', Break (Some s)) c2); [|rewrite Hx in *; by destruct (decide (v = SetTri No))].
  rewrite (mthen_done _ _ _ (is_choice_value y) c2); [done|]. apply lift_same.
  unfold sym_is_choice_value. rewrite (mthen_done _ _ _ (with_setting v (ks_new_str (cf_k c)) y) (cf_k c2)).
  - unfold mreturn. f_equal. f_equal. unfold is_choice_value. simpl. by rewrite has_flag_clear.
  - unfold get_sym, c2, setting_store. simpl. by rewrite lookup_insert_eq.
Qed.
