(* ===== verification/KConfLoad.v ===== *)
(** * Reading a configuration file

    A file made of the lines of settings and of lines without effect is read
    without a warning, and sets exactly the symbols it names. *)
From S2P Require Import Prelude CLib CStr KData KExpr KState KSymbol KSymFrame KSymRef KSymTab KMenu.
From S2P Require Import KConf KConfText KConfLine.
From Stdlib Require Import Ascii.
Open Scope pr30_scope.

(** ** What the table looks at *)

Definition row (y : symbol) : option cstr * bool * symbol_type * bool * bool :=
  (sy_name y, is_const y, sy_type y, is_choice y, is_choice_value y).
Record same_table (k k' : kstate) : Prop := {
  st_hash : ks_hash k' = ks_hash k;
  st_new : ks_new_sym k' = ks_new_sym k;
  st_rows : row <$> ks_syms k' = row <$> ks_syms k;
}.

Lemma same_table_refl k : same_table k k.
Proof. done. Qed.
Lemma same_table_sym k k' : same_table k k' → same_table k' k.
Proof. by intros [? ? ?]. Qed.
Lemma same_table_trans k1 k2 k3 : same_table k1 k2 → same_table k2 k3 → same_table k1 k3.
Proof. intros [? ? ?] [? ? ?]. split; congruence. Qed.
Lemma table_sym k k' s y : same_table k k' → ks_syms k !! s = Some y →
  ∃ y', ks_syms k' !! s = Some y' ∧ row y' = row y.
Proof.
  intros [_ _ R] H. assert (L : (row <$> ks_syms k') !! s = Some (row y)) by (by rewrite R, lookup_fmap, H).
  rewrite lookup_fmap in L. destruct (ks_syms k' !! s) as [y'|]; [|done]. simpl in L. exists y'. split; [done|].
  congruence.
Qed.
Lemma row_inv y y' : row y' = row y →
  sy_name y' = sy_name y ∧ is_const y' = is_const y ∧ sy_type y' = sy_type y ∧ is_choice y' = is_choice y ∧
  is_choice_value y' = is_choice_value y.
Proof. unfold row. intros [= -> -> -> -> ->]. done. Qed.

Lemma table_hash_syms k k' : same_table k k' → hash_syms k' = hash_syms k.
Proof. intros T. unfold hash_syms. by rewrite (st_hash _ _ T). Qed.
Lemma table_ok k k' : same_table k k' → hash_ok k → hash_ok k'.
Proof.
  intros T [A1 A2 A3 A4 A5]. pose proof (same_table_sym _ _ T) as T'.
  assert (B : ∀ i, bucket k' i = bucket k i) by (intros i; unfold bucket; by rewrite (st_hash _ _ T)).
  split.
  - intros i s. rewrite B. intros (y & H & E)%A1. destruct (table_sym k k' s y T H) as (y' & H' & R).
    exists y'. split; [done|]. apply row_inv in R as (-> & _). done.
  - intros s1 s2 y1 y2 c1 c2. rewrite (table_hash_syms _ _ T). intros S1 S2 H1 H2 N1 N2 E C.
    destruct (table_sym _ _ _ _ T' H1) as (z1 & G1 & R1), (table_sym _ _ _ _ T' H2) as (z2 & G2 & R2).
    apply row_inv in R1 as (R1 & D1 & _), R2 as (R2 & D2 & _).
    apply (A2 s1 s2 z1 z2 c1 c2); congruence.
  - intros s [y H]. rewrite (table_hash_syms _ _ T). destruct (table_sym _ _ _ _ T' H) as (z & G & _). eauto.
  - intros s [y H]. rewrite (st_new _ _ T). destruct (table_sym _ _ _ _ T' H) as (z & G & _). eauto.
  - by rewrite (st_new _ _ T).
Qed.
Lemma table_entry k k' name b s : same_table k k' → entry k name b s → entry k' name b s.
Proof.
  intros T. unfold entry. destruct (reserved name); [done|]. rewrite (table_hash_syms _ _ T).
  intros (Hs & y & c & H & N & E & C). split; [done|]. destruct (table_sym _ _ _ _ T H) as (y' & H' & R).
  exists y', c. apply row_inv in R as (-> & -> & _). done.
Qed.

Lemma table_update k s y y' n :
  ks_syms k !! s = Some y → row y' = row y →
  same_table k (ks_set_syms (<[s := y']> (ks_syms k)) (ks_set_new_str n k)).
Proof.
  intros H R. split; [done..|]. simpl. rewrite fmap_insert, R. apply insert_id. by rewrite lookup_fmap, H.
Qed.

Lemma row_setting v a y : row (with_setting v a y) = row y.
Proof.
  unfold row, is_const, is_choice, is_choice_value. destruct v; simpl; by rewrite !has_flag_clear.
Qed.
Lemma setting_table s v y k : ks_syms k !! s = Some y → same_table k (setting_store s v y k).
Proof.
  intros H. unfold setting_store. destruct v as [t|x].
  - assert (E : ks_set_new_str (ks_new_str k) k = k) by (by destruct k). rewrite <-E at 3.
    apply (table_update k s y _ _ H), row_setting.
  - apply (table_update k s y _ _ H), row_setting.
Qed.

(** ** Lines without effect *)

Definition quiet (l : string) : bool :=
  without [nl] l && (String.length l + 2 <=? LINE)%nat &&
  match l with
  | EmptyString => true
  | String c _ => isc c "#" && negb (same_at (la l ++ [nl; NUL]) 2 "CONFIG_")
  end.

Lemma same_at_ext l r :
  same_at (la l ++ [nl; NUL]) 2 "CONFIG_" = false → l ≠ EmptyString →
  same_at (la l ++ nl :: NUL :: r) 2 "CONFIG_" = false.
Proof.
  unfold same_at. rewrite !bool_decide_eq_false. intros N Hl E. apply N.
  change (nl :: NUL :: r) with ([nl; NUL] ++ r) in E. rewrite app_assoc in E.
  set (a := la l ++ [nl; NUL]) in *. change (String.length "CONFIG_") with 7 in *.
  assert (La : 3 ≤ length a).
  { unfold a. rewrite length_app, la_length. destruct l; [done|]. simpl. lia. }
  destruct (decide (9 ≤ length a)) as [H|H].
  - rewrite drop_app_le in E by lia. rewrite take_app_le in E; [done|]. rewrite length_drop. lia.
  - exfalso. assert (G : la "CONFIG_" !! (length a - 3) = Some NUL).
    { rewrite <-E, lookup_take_lt, lookup_drop by lia. replace (2 + (length a - 3)) with (length a - 1) by lia.
      rewrite lookup_app_l by lia. unfold a. rewrite length_app. simpl.
      replace (length (la l) + 2 - 1) with (S (length (la l))) by lia.
      rewrite lookup_app_r by lia. by replace (S (length (la l)) - length (la l)) with 1 by lia. }
    apply list_elem_of_lookup_2 in G. revert G. by apply (bool_decide_eq_false_1 (NUL ∈ la "CONFIG_")).
Qed.

Lemma read_line_quiet l r c :
  quiet l = true → read_line (la l ++ nl :: NUL :: r) c = Done (la l ++ nl :: NUL :: r, line_done c).
Proof.
  unfold quiet. rewrite !andb_true_iff. intros [_ H]. unfold read_line.
  rewrite (mthen_done incr_lineno _ c () (line_done c) eq_refl).
  destruct l as [|x l]; [done|]. apply andb_true_iff in H as [Hx%isc_true Hs%negb_true_iff].
  rewrite (mthen_done (mderef _) _ _ x (line_done c)) by done. subst x.
  change (isc "#" "#") with true. cbv iota. unfold read_unset.
  rewrite (same_at_ext (String "#" l)) by done. done.
Qed.

(** ** A file *)

Inductive item : Set := Quiet (l : string) | Line (s : sid) (name : string) (ty : symbol_type) (v : setting).

Definition item_line (i : item) : string :=
  match i with Quiet l => l | Line s name ty v => conf_line name ty v end.
Definition item_ok (k : kstate) (i : item) : Prop :=
  match i with
  | Quiet l => quiet l = true
  | Line s name ty v =>
      entry k name false s ∧
      (∃ y, ks_syms k !! s = Some y ∧ sy_type y = ty ∧ is_choice_value y = false) ∧
      name_ok name = true ∧ setting_ok ty v = true ∧ String.length (conf_line name ty v) + 2 ≤ LINE
  end.
Definition file_text (l : list item) : string := foldr (λ i t, ln (item_line i) +:+ t) EmptyString l.
Lemma file_text_cons i l : file_text (i :: l) = ln (item_line i) +:+ file_text l.
Proof. done. Qed.
Lemma file_text_app l l' : file_text (l ++ l') = file_text l +:+ file_text l'.
Proof.
  induction l as [|i l IH]; [done|]. rewrite <-app_comm_cons, !file_text_cons, IH. by rewrite string_app_assoc.
Qed.

Definition load_item (i : item) (k : kstate) : kstate :=
  match i with
  | Quiet _ => k
  | Line s _ _ v => from_option (λ y, setting_store s v y k) k (ks_syms k !! s)
  end.
Definition load (l : list item) (k : kstate) : kstate := foldl (λ k i, load_item i k) k l.

Lemma load_item_table i k : same_table k (load_item i k).
Proof.
  destruct i as [l|s name ty v]; [done|]. simpl. destruct (ks_syms k !! s) as [y|] eqn:H; [|done].
  by apply setting_table.
Qed.
Lemma load_table l k : same_table k (load l k).
Proof.
  revert k. induction l as [|i l IH]; intros k; [done|]. simpl.
  eapply same_table_trans; [apply load_item_table|apply IH].
Qed.
Lemma item_ok_table k k' i : same_table k k' → item_ok k i → item_ok k' i.
Proof.
  intros T. destruct i as [l|s name ty v]; [done|]. intros (E & (y & H & Ty & C) & N). split; [by eapply table_entry|].
  split; [|done]. destruct (table_sym _ _ _ _ T H) as (y' & H' & R). exists y'.
  apply row_inv in R as (_ & _ & -> & _ & ->). done.
Qed.

Lemma without_bytes l s : without l s = true ↔ ∀ c, c ∈ la s → c ∉ l.
Proof.
  unfold without. induction s as [|x s IH]; simpl; [split; [by intros _ c ?%elem_of_nil|done]|].
  rewrite andb_true_iff, bool_decide_eq_true, IH. split.
  - intros [Hx Hs] c [->|Hc]%elem_of_cons; auto.
  - intros H. split; [apply H; by left|]. intros c Hc. apply H. by right.
Qed.
Lemma conf_line_nl name ty v : name_ok name = true → setting_ok ty v = true → without [nl] (conf_line name ty v) = true.
Proof.
  intros Hn Hv. apply value_text_ok in Hv as Hw. apply without_bytes. intros c.
  rewrite conf_line_la by done. rewrite without_bytes in Hw. unfold name_ok in Hn. rewrite without_bytes in Hn.
  assert (G : ∀ t, without [nl] t = true → c ∈ la t → c ∉ [nl]) by (intros t; rewrite without_bytes; auto).
  assert (Hn' : c ∈ la name → c ∉ [nl]).
  { intros H ->%list_elem_of_singleton. apply (Hn _ H). by right; left. }
  case_decide as D; rewrite !elem_of_app.
  - intros [H|[H|H]]; [by apply (G "# CONFIG_")|auto|by apply (G " is not set")].
  - rewrite elem_of_cons. intros [H|[H|[->|H]]]; [by apply (G "CONFIG_")|auto|by apply (bool_decide_eq_true (_ ∉ _))|].
    intros ->%list_elem_of_singleton. apply (Hw _ H). by right; left.
Qed.
Lemma item_line_fits k i :
  item_ok k i → without [nl] (item_line i) = true ∧ String.length (item_line i) + 2 ≤ LINE.
Proof.
  destruct i as [l|s name ty v].
  - simpl. unfold quiet. rewrite !andb_true_iff, Nat.leb_le. tauto.
  - intros (_ & _ & Hn & Hv & Hl). split; [by apply conf_line_nl|done].
Qed.

Definition lines_done (n : nat) (c : conf) : conf :=
  cf_set_counts (cf_filename c) (cf_lineno c + Z.of_nat n) (cf_warnings c) (cf_unsaved c) c.
Definition loaded (l : list item) (c : conf) : conf := cf_set_k (load l (cf_k c)) (lines_done (length l) c).

Lemma loaded_cons i l c : loaded l (cf_set_k (load_item i (cf_k c)) (line_done c)) = loaded (i :: l) c.
Proof.
  unfold loaded, lines_done, line_done, cf_set_k, cf_set_counts. cbn -[Z.of_nat Z.add].
  by replace (cf_lineno c + Z.of_nat (S (length l)))%Z with (cf_lineno c + 1 + Z.of_nat (length l))%Z by lia.
Qed.

Lemma read_item k0 i r c :
  hash_ok (cf_k c) → item_ok (cf_k c) i → k0 = cf_k c → length (la (item_line i) ++ nl :: NUL :: r) = LINE →
  ∃ line', length line' = LINE ∧
    read_line (la (item_line i) ++ nl :: NUL :: r) c = Done (line', cf_set_k (load_item i k0) (line_done c)).
Proof.
  intros Ok Hi -> L. destruct i as [l|s name ty v].
  - exists (la l ++ nl :: NUL :: r). split; [done|]. simpl. rewrite read_line_quiet by done. by destruct c.
  - destruct Hi as (E & (y & H & <- & C) & Hn & Hv & Hl).
    destruct (read_line_written name s y v r c Hn Hv (find_found _ _ _ Ok E) H) as (line' & L' & R).
    exists line'. split; [simpl in L; congruence|]. simpl item_line. rewrite R, C.
    rewrite (mthen_done incr_lineno _ c () (line_done c) eq_refl).
    rewrite (mthen_done _ _ _ () (cf_set_k (setting_store s v y (cf_k c)) (line_done c)));
      [|unfold lift; by rewrite (apply_setting_run s v y)].
    simpl. by rewrite H.
Qed.

Lemma read_items l n line c :
  hash_ok (cf_k c) → (∀ i, i ∈ l → item_ok (cf_k c) i) → length line = LINE → String.length (file_text l) < n →
  read_lines n line (file_text l) c = Done ((), loaded l c).
Proof.
  revert n line c. induction l as [|i l IH]; intros n line c Ok Hi Hl Hn; (destruct n as [|n]; [lia|]).
  - unfold loaded, load, lines_done. simpl. rewrite Z.add_0_r. by destruct c.
  - rewrite file_text_cons in *. destruct (item_line_fits (cf_k c) i) as [Hw Hf]; [apply Hi; by left|].
    destruct (fgets_line line (item_line i) (file_text l) Hl Hw Hf) as (r & F & Lr).
    cbn [read_lines]. rewrite F.
    destruct (read_item (cf_k c) i r c Ok (Hi i (list_elem_of_here _ _)) eq_refl Lr) as (line' & L' & R).
    rewrite (mthen_done _ _ _ _ _ R).
    rewrite IH; [|by eapply table_ok, Ok; apply load_item_table| |done|].
    + by rewrite loaded_cons.
    + intros j Hj. eapply item_ok_table; [apply load_item_table|]. apply Hi. by right.
    + rewrite string_length_app in Hn. unfold ln in Hn. rewrite string_length_app in Hn. simpl in Hn. lia.
Qed.

(** ** What is set *)

(** The setting of [s], the last one if there are several. *)
Fixpoint setting_of (l : list item) (s : sid) : option setting :=
  match l with
  | [] => None
  | Quiet _ :: l => setting_of l s
  | Line s' _ _ v :: l =>
      match setting_of l s with Some w => Some w | None => if decide (s' = s) then Some v else None end
  end.

Definition user_of (v : setting) (y : symbol) : Prop :=
  has_value y = true ∧
  match v with
  | SetTri t => sv_tri (sy_user y) = t
  | SetText x => ∃ a, sv_val (sy_user y) = VStr (CStr a x)
  end.
(** Everything but the user's value and the mark [SYMBOL_NEW]. *)
Definition sy_fixed (y : symbol) : symbol :=
  sy_set_flags (clear_flag (sy_flags y) SYMBOL_NEW) (sy_set_user (SValue VNull No) y).
