(* ===== verification/KConfSave.v ===== *)
(** * Writing the configuration: the entries in order

    [conf_write] visits the menu entries in the order of the tree, calculates
    what it prints, prints each symbol once, and every visible one. *)
From S2P Require Import Prelude CLib CStr KData KExpr KExprFacts KState KSymbol KSymFrame KSymRef KSymSolve KSymTab.
From S2P Require Import KSymUnique KSymSet KMenu KMenuInv KMenuTree KCalc KConf KConfText KConfLine KConfLoad.
From Stdlib Require Import Ascii.
Open Scope pr30_scope.

(** ** The order of the entries *)

(** [l] are the entries that the loop visits from [o] on; then it is at [o']. *)
Inductive walk (k : kstate) : option mid → list mid → option mid → Prop :=
  | walk_nil o : walk k o [] o
  | walk_cons m l o o' : next_entry m k = Done (o', k) → walk k o' l o → walk k (Some m) (m :: l) o.

Lemma walk_app k o l o' l' o'' : walk k o l o' → walk k o' l' o'' → walk k o (l ++ l') o''.
Proof. induction 1 as [|m l o o1 E _ IH]; [done|]. intros H. simpl. econstructor; eauto. Qed.

(** From the last of the entries below [p] the loop goes on at [o], after [d]
    steps upwards at most. *)
Definition after (k : kstate) (p : mid) (d : nat) (o : option mid) : Prop :=
  ∀ m x n, ks_menus k !! m = Some x → mn_parent x = Some p → d ≤ n → climb n m k = Done (o, k).

Lemma run_get_menu k m x : ks_menus k !! m = Some x → get_menu m k = Done (x, k).
Proof. intros H. unfold get_menu. by rewrite H. Qed.

Lemma after_root k r x : ks_menus k !! r = Some x → mn_parent x = None → mn_next x = None → after k r 2 None.
Proof.
  intros H Hp Hn m z n Hm Ep Hd. destruct n as [|[|n]]; [lia..|]. cbn [climb].
  rewrite (mthen_done _ _ _ _ _ (run_get_menu _ _ _ Hm)), Ep, (mthen_done _ _ _ _ _ (run_get_menu _ _ _ H)), Hn.
  cbn [climb]. by rewrite (mthen_done _ _ _ _ _ (run_get_menu _ _ _ H)), Hp.
Qed.

Lemma after_below k m x p d o :
  ks_menus k !! m = Some x → mn_parent x = Some p → after k p d o →
  after k m (S d) (match mn_next x with Some next => Some next | None => o end).
Proof.
  intros H Hp A c z n Hc Ep Hd. destruct n as [|n]; [lia|]. cbn [climb].
  rewrite (mthen_done _ _ _ _ _ (run_get_menu _ _ _ Hc)), Ep, (mthen_done _ _ _ _ _ (run_get_menu _ _ _ H)).
  destruct (mn_next x); [done|]. apply (A m x); [done..|lia].
Qed.

Lemma chain_walk k p o l d o' :
  chain k p o l → after k p d o' → d + length l ≤ menu_fuel k →
  walk k (match o with Some m => Some m | None => o' end) l o'.
Proof.
  intros Hc. revert d o'. induction Hc as [p|p m x lc ln H Hp Hc IHc Hn IHn]; intros d o' A Hd; [constructor|].
  simpl in Hd. rewrite length_app in Hd.
  pose proof (after_below k m x p d o' H Hp A) as Am.
  specialize (IHc _ _ Am ltac:(lia)). specialize (IHn _ _ A ltac:(lia)).
  econstructor; [|eapply walk_app; [exact IHc|exact IHn]].
  unfold next_entry. rewrite (mthen_done _ _ _ _ _ (run_get_menu _ _ _ H)).
  destruct (mn_list x) as [c|]; [done|]. destruct (mn_next x) as [c|] eqn:En; [done|].
  apply (A m x); [done..|]. unfold menu_fuel in *. lia.
Qed.

(** The links do not depend on calculations. *)
Lemma core_next_entry k k' m : mn_core <$> ks_menus k' = mn_core <$> ks_menus k →
  next_entry m k' = match next_entry m k with Done (o, _) => Done (o, k') | Crash => Crash | NoFuel => NoFuel end.
Proof.
  intros E. assert (L : ∀ m, mn_core <$> ks_menus k' !! m = mn_core <$> ks_menus k !! m).
  { intros i. by rewrite <-!lookup_fmap, E. }
  assert (Sz : menu_fuel k' = menu_fuel k).
  { unfold menu_fuel. f_equal. rewrite <-(map_size_fmap mn_core (ks_menus k')), E. by rewrite map_size_fmap. }
  assert (Cl : ∀ n m, climb n m k' = match climb n m k with Done (o, _) => Done (o, k') | Crash => Crash | NoFuel => NoFuel end).
  { induction n as [|n IH]; intros i; [done|]. cbn [climb]. unfold mthen, get_menu, mderef. specialize (L i) as Li.
    destruct (ks_menus k' !! i) as [x'|], (ks_menus k !! i) as [x|]; try done. simpl in Li.
    assert (Ep : mn_parent x' = mn_parent x) by (by injection (f_equal (option_map mn_parent) Li)).
    rewrite Ep. destruct (mn_parent x) as [up|]; [|done]. specialize (L up).
    destruct (ks_menus k' !! up) as [u'|], (ks_menus k !! up) as [u|]; try done. simpl in L.
    assert (En : mn_next u' = mn_next u) by (by injection (f_equal (option_map mn_next) L)).
    rewrite En. destruct (mn_next u); [done|]. apply IH. }
  unfold next_entry, mthen, get_menu, mderef. specialize (L m).
  destruct (ks_menus k' !! m) as [x'|], (ks_menus k !! m) as [x|]; try done. simpl in L.
  assert (El : mn_list x' = mn_list x ∧ mn_next x' = mn_next x)
    by (split; [by injection (f_equal (option_map mn_list) L)|by injection (f_equal (option_map mn_next) L)]).
  destruct El as [-> ->]. destruct (mn_list x); [done|]. destruct (mn_next x); [done|]. rewrite Sz. apply Cl.
Qed.

(** ** The line of a symbol *)

Definition setting_of_sym (y : symbol) : setting :=
  match sy_type y with
  | S_BOOLEAN | S_TRISTATE => SetTri (sv_tri (sy_curr y))
  | _ => SetText (val_text (sv_val (sy_curr y)))
  end.
Definition item_of (s : sid) (y : symbol) : item := Line s (name_of y) (sy_type y) (setting_of_sym y).
Definition typed (y : symbol) : Prop := sy_type y ≠ S_UNKNOWN ∧ sy_type y ≠ S_OTHER.

Lemma item_same s y y' : same_value y y' → item_of s y' = item_of s y.
Proof.
  intros (C & Ec & _). pose proof (sy_core_inv _ _ C) as (En & Et & _).
  unfold item_of, name_of, setting_of_sym. by rewrite En, Et, Ec.
Qed.

Lemma lift_done {A} (m : K A) c a k' : m (cf_k c) = Done (a, k') → lift m c = Done (a, cf_set_k k' c).
Proof. intros H. unfold lift. by rewrite H. Qed.

Lemma write_value_run s y c :
  ks_syms (cf_k c) !! s = Some y → solved (cf_k c) s → typed y →
  write_value s (sy_type y) c = Done ((), printed (ln (item_line (item_of s y))) c).
Proof.
  intros H Sv [T1 T2]. unfold write_value. rewrite (mthen_done _ _ _ _ _ (lift_get _ _ _ H)).
  destruct Sv as (y' & H' & _ & E). assert (y' = y) as -> by congruence. unfold equations in E.
  assert (V : ∀ x, string_value y = VStr x →
    (let! v := lift (sym_get_string_value s) in lift (deref_str v)) c = Done (cs_text x, c)).
  { intros x Hx. rewrite (mthen_done _ _ _ (VStr x) c); [by apply lift_same|].
    apply lift_same. by rewrite (run_string_value _ _ _ H), Hx. }
  assert (Tr : lift (sym_get_tristate_value s) c = Done (sv_tri (sy_curr y), c)).
  { apply lift_same. unfold sym_get_tristate_value. by rewrite (mthen_done _ _ _ _ _ (run_get_sym _ _ _ H)). }
  unfold item_line, item_of, setting_of_sym, string_value in *.
  destruct (sy_type y) eqn:Ty; try done.
  - rewrite (mthen_done _ _ _ _ _ Tr). unfold fprintf, mmodify, ln, conf_line.
    destruct (sv_tri (sy_curr y)); by rewrite <-!string_app_assoc.
  - rewrite (mthen_done _ _ _ _ _ Tr). unfold fprintf, mmodify, ln, conf_line.
    destruct (sv_tri (sy_curr y)); by rewrite <-!string_app_assoc.
  - destruct E as (_ & x & E & _). rewrite E in *. rewrite (mthen_done _ _ _ _ _ (V x eq_refl)).
    unfold fprintf, mmodify, ln, conf_line. by rewrite <-!string_app_assoc.
  - destruct E as (_ & x & E & _). rewrite E in *. rewrite (mthen_done _ _ _ _ _ (V x eq_refl)).
    assert (F : fprintf (ln (("CONFIG_" +:+ name_of y) +:+ "=" +:+ cs_text x)) c =
      Done ((), printed (ln (conf_line (name_of y) S_HEX (SetText (cs_text x)))) c))
      by (unfold fprintf, mmodify, ln, conf_line; by rewrite <-!string_app_assoc).
    destruct (negb (starts_0x (cs_text x))); [done|]. by rewrite (mthen_done _ _ _ _ _ (V x eq_refl)).
  - destruct E as (_ & x & E & _). rewrite E in *. rewrite (mthen_done _ _ _ _ _ (V x eq_refl)).
    rewrite (mthen_done (fprintf _) _ _ () (printed (("CONFIG_" +:+ name_of y) +:+ "=" +:+ String dq "") c) eq_refl).
    rewrite (mthen_done _ _ _ _ _ (write_escaped_run (cs_text x) _)).
    change (fprintf (ln (String dq ""))) with (λ c, Done ((), printed (ln (String dq "")) c)). cbv beta.
    rewrite !printed_app. unfold ln, conf_line. simpl val_text.
    rewrite <-!string_app_assoc, !app_cons, <-!string_app_assoc, !app_cons. done.
Qed.

(** ** The store while the file is written *)

(** [W] are the symbols printed so far. *)
Record wstate (k0 : kstate) (W : list sid) (k : kstate) : Prop := {
  ws_ready : ready k;
  ws_core : ks_core (ks_set_change_count 0 k) = ks_core (ks_set_change_count 0 k0);
  ws_mark : ∀ u, valid_in k u → u ∈ W ∨ marked_in k u;
  ws_done : ∀ u, u ∈ W → ∃ y, ks_syms k !! u = Some y ∧ valid y = true ∧ writes y = false;
}.

(** Valid symbols keep their values. *)
Definition kept (k k' : kstate) : Prop :=
  ∀ u y, ks_syms k !! u = Some y → valid y = true →
    ∃ y', ks_syms k' !! u = Some y' ∧ valid y' = true ∧ same_value y y'.
Lemma kept_refl k : kept k k.
Proof. intros u y H V. by exists y. Qed.
Lemma kept_trans k1 k2 k3 : kept k1 k2 → kept k2 k3 → kept k1 k3.
Proof.
  intros A B u y H V. destruct (A u y H V) as (y1 & H1 & V1 & S1), (B u y1 H1 V1) as (y2 & H2 & V2 & S2).
  exists y2. split_and!; [done..|]. by eapply same_value_trans.
Qed.
Lemma calced_kept k k' : calced k k' → kept k k'.
Proof. intros D u y H V. exists y. rewrite (cd_same _ _ D); [done|]. by exists y. Qed.

(** What the lines say: [W] in order, each with the value it has. *)
Definition lines_of (l : list item) : list sid :=
  omap (λ i, match i with Quiet _ => None | Line s _ _ _ => Some s end) l.
Definition tells (k : kstate) (i : item) : Prop :=
  match i with
  | Quiet l => quiet l = true
  | Line s _ _ _ => ∃ y, ks_syms k !! s = Some y ∧ valid y = true ∧ typed y ∧ i = item_of s y
  end.
Lemma tells_kept k k' i : kept k k' → tells k i → tells k' i.
Proof.
  intros Kp. destruct i as [l|s n t v]; [done|]. intros (y & H & V & T & E).
  destruct (Kp s y H V) as (y' & H' & V' & Sv). exists y'. split_and!; [done..| |by rewrite (item_same s y)].
  destruct Sv as (C & _). unfold typed in *. by pose proof (sy_core_inv _ _ C) as (_ & -> & _).
Qed.

(** A symbol has had its turn: it is printed, or is not visible. *)
Definition settled (W : list sid) (k : kstate) (s : sid) : Prop :=
  valid_in k s ∧ (s ∈ W ∨ ∃ y, ks_syms k !! s = Some y ∧ sy_visible y = No).
Lemma settled_kept W W' k k' s : kept k k' → (∀ u, u ∈ W → u ∈ W') → settled W k s → settled W' k' s.
Proof.
  intros Kp HW [(y & H & V) S]. destruct (Kp s y H V) as (y' & H' & V' & Sv). split; [by exists y'|].
  destruct S as [|(z & Hz & N)]; [auto|]. right. exists y'. split; [done|]. assert (z = y) as -> by congruence.
  by destruct Sv as (_ & _ & -> & _).
Qed.

Lemma wstate_calced k0 W k k' : wstate k0 W k → calced k k' → wstate k0 W k'.
Proof.
  intros [R C M D] Ca. split.
  - by eapply calced_ready.
  - rewrite <-C. exact (f_equal (ks_set_change_count 0) (cd_core _ _ Ca)).
  - intros u V. destruct (decide (valid_in k u)) as [Vk|N]; [|right; by apply (proj1 (cd_mark _ _ Ca u V N))].
    destruct (M u Vk) as [|Mk]; [by left|right]. intros y H. rewrite (cd_same _ _ Ca) in H by done. by apply Mk.
  - intros u Hu. destruct (D u Hu) as (y & H & V & N). exists y. rewrite (cd_same _ _ Ca); [done|]. by exists y.
Qed.

(** [sym->flags &= ~SYMBOL_WRITE]. *)
Lemma wstate_written k0 W k s y :
  wstate k0 W k → ks_syms k !! s = Some y → valid y = true →
  ∃ k', clear_flags s SYMBOL_WRITE k = Done ((), k') ∧ wstate k0 (W ++ [s]) k' ∧ kept k k' ∧
    ∃ y', ks_syms k' !! s = Some y' ∧ valid y' = true ∧ same_value y y'.
Proof.
  intros [R C M D] H V.
  assert (S : spec False (clear_flags s SYMBOL_WRITE) k (λ _ k', touch (λ _, False) k k' ∧
    ∀ z, ks_syms k !! s = Some z → ks_syms k' !! s = Some (sy_set_flags (clear_flag (sy_flags z) SYMBOL_WRITE) z))).
  { apply touch_upd; [intros z; by apply same_value_clear|..|by eauto];
      intros z; unfold valid; simpl; by rewrite has_flag_clear. }
  unfold spec in S. destruct (clear_flags s SYMBOL_WRITE k) as [[[] k']| |] eqn:Ec; [|done..].
  destruct S as [T E]. specialize (E y H). exists k'. split; [done|].
  assert (Kp : kept k k').
  { intros u z Hz Vz. destruct (to_sym _ _ _ T u z Hz) as (z' & Hz' & Sv & _ & W'). exists z'.
    split_and!; [done| |done]. rewrite W'; auto. }
  assert (Ns : ∀ u, u ≠ s → ks_syms k' !! u = ks_syms k !! u).
  { intros u Hu. unfold clear_flags, upd_sym in Ec. rewrite (mthen_done _ _ _ _ _ (run_get_sym _ _ _ H)) in Ec.
    injection Ec as <-. simpl. by rewrite lookup_insert_ne. }
  split; [split|].
  - destruct R as [P [Cy Cm] A]. split; [by eapply plain_core; [apply T|]| |by apply (touch_solved k)].
    split; [destruct Cy as (z & Hz & Vz)|destruct Cm as (z & Hz & Vz)];
      destruct (Kp _ z Hz Vz) as (z' & ? & ? & _); by exists z'.
  - rewrite <-C. exact (f_equal (ks_set_change_count 0) (to_core _ _ _ T)).
  - intros u (z & Hz & Vz). destruct (decide (u = s)) as [->|Hu]; [left; apply elem_of_app; right; by left|].
    destruct (M u) as [Hw|Mk]; [exists z; by rewrite <-Ns|left; apply elem_of_app; by left|right].
    intros z' Hz'. apply Mk. by rewrite <-Ns.
  - intros u Hu. destruct (decide (u = s)) as [->|Hn].
    + eexists. split; [done|]. unfold valid, writes in *. simpl. by rewrite has_flag_clear, has_flag_cleared.
    + rewrite Ns by done. apply D. by apply elem_of_app in Hu as [|?%list_elem_of_singleton].
  - split; [done|]. by apply Kp.
Qed.

Section Write.
Context (gettext : string → string).

(** What an entry has to be like. *)
Definition entry_ok (k : kstate) (m : mid) : Prop :=
  ∃ x, ks_menus k !! m = Some x ∧
    match mn_sym x with
    | Some s => ∃ y, ks_syms k !! s = Some y ∧ typed y
    | None => ∀ p, mn_prompt x = Some p → ∃ q t, ks_props k !! p = Some q ∧ pr_text q = Some t ∧
        quiet ("# " +:+ gettext t) = true ∧
        ∀ u, u ∈ oexpr_syms (pr_visible q) → is_Some (ks_syms k !! u)
    end.
Definition modules_set (k : kstate) : Prop :=
  ∃ m, ks_modules_sym k = Some m ∧ is_Some (ks_syms k !! m).
Definition sym_of (k : kstate) (m : mid) : option sid := ks_menus k !! m ≫= mn_sym.

(** [k] is [k0] up to what is calculated and the counter. *)
Definition alike (k0 k : kstate) : Prop :=
  ks_core (ks_set_change_count 0 k) = ks_core (ks_set_change_count 0 k0).
Lemma alike_menu k0 k m x : alike k0 k → ks_menus k0 !! m = Some x →
  ∃ x', ks_menus k !! m = Some x' ∧ mn_sym x' = mn_sym x ∧ mn_prompt x' = mn_prompt x.
Proof.
  intros A H. assert (L : mn_core <$> ks_menus k !! m = mn_core <$> ks_menus k0 !! m).
  { rewrite <-!lookup_fmap. exact (f_equal (λ z, ks_menus z !! m) A). }
  rewrite H in L. destruct (ks_menus k !! m) as [x'|]; [|done]. exists x'. split; [done|].
  split; [by injection (f_equal (option_map mn_sym) L)|by injection (f_equal (option_map mn_prompt) L)].
Qed.
Lemma alike_sym_of k0 k m : alike k0 k → sym_of k m = sym_of k0 m.
Proof.
  intros A. unfold sym_of. destruct (ks_menus k0 !! m) as [x|] eqn:H.
  - destruct (alike_menu k0 k m x A H) as (x' & -> & E & _). done.
  - destruct (ks_menus k !! m) as [x|] eqn:H'; [|done].
    destruct (alike_menu k k0 m x (eq_sym A) H') as (x' & ? & _). congruence.
Qed.
Lemma alike_sym k0 k s y : alike k0 k → ks_syms k0 !! s = Some y →
  ∃ y', ks_syms k !! s = Some y' ∧ sy_core y' = sy_core y.
Proof. intros A H. exact (core_sym (ks_set_change_count 0 k0) (ks_set_change_count 0 k) s y A H). Qed.
Lemma alike_exists k0 k s : alike k0 k → is_Some (ks_syms k0 !! s) → is_Some (ks_syms k !! s).
Proof. intros A [y H]. destruct (alike_sym k0 k s y A H) as (? & ? & _). eauto. Qed.
Lemma alike_prop k0 k p x : alike k0 k → ks_props k0 !! p = Some x →
  ∃ x', ks_props k !! p = Some x' ∧ pr_core x' = pr_core x.
Proof. intros A H. exact (core_prop (ks_set_change_count 0 k0) (ks_set_change_count 0 k) p x A H). Qed.
Lemma typed_core y y' : sy_core y' = sy_core y → typed y → typed y'.
Proof. intros C. unfold typed. by pose proof (sy_core_inv _ _ C) as (_ & -> & _). Qed.

(** A prompt of an entry without a symbol is a comment. *)
Lemma write_comment k0 W m x c :
  wstate k0 W (cf_k c) → entry_ok k0 m → ks_menus (cf_k c) !! m = Some x → mn_sym x = None →
  ∃ l k', write_entry gettext m c = Done ((), printed (file_text l) (cf_set_k k' c)) ∧ calced (cf_k c) k' ∧
    lines_of l = [] ∧ ∀ i, i ∈ l → tells k' i.
Proof.
  intros S (x0 & H0 & E) Hx Hs. destruct (alike_menu _ _ _ _ (ws_core _ _ _ S) H0) as (x1 & H1 & Es & Ep).
  assert (x1 = x) as -> by congruence. rewrite <-Es, Hs in E. unfold write_entry.
  rewrite (mthen_done _ _ _ _ _ (lift_same _ _ _ (run_get_menu _ _ _ Hx))), Hs.
  assert (G : runs (menu_is_visible m) (cf_k c) (λ v _, v = true → is_Some (mn_prompt x))).
  { unfold menu_is_visible, menu_fuel. cbn [menu_is_visible_f].
    intros R. destruct (mn_prompt x) as [p|] eqn:Hp.
    2: { exists false, (cf_k c). rewrite (mthen_done _ _ _ _ _ (run_get_menu _ _ _ Hx)), Hp.
         split_and!; [done|apply calced_refl|done]. }
    destruct (E p (eq_sym Ep)) as (q & t & Hq & _ & _ & Hu).
    destruct (alike_prop _ _ _ _ (ws_core _ _ _ S) Hq) as (q' & Hq' & (_ & _ & Ev & _)%pr_core_inv).
    destruct (runs_prop_visible p q' (cf_k c) Hq') as (v & k' & Ev' & D & _); [|done|].
    { intros u. rewrite Ev. intros Hin. apply (alike_exists k0); [apply S|by apply Hu]. }
    exists (negb (bool_decide (v = No))), k'.
    rewrite (mthen_done _ _ _ _ _ (run_get_menu _ _ _ Hx)), Hp, Hs, (mthen_done _ _ _ _ _ Ev').
    split_and!; [|done|eauto]. by destruct v. }
  destruct (G (ws_ready _ _ _ S)) as (v & k' & Ev & D & Hv).
  rewrite (mthen_done _ _ _ _ _ (lift_done _ _ _ _ Ev)). destruct v; cbn [negb].
  2: { exists [], k'. split_and!; [by rewrite printed_nil|done..|]. intros i Hi. by apply elem_of_nil in Hi. }
  destruct (Hv eq_refl) as [p Hp]. destruct (E p) as (q & t & Hq & Ht & Hquiet & _); [congruence|].
  destruct (alike_prop _ _ _ _ (ws_core _ _ _ (wstate_calced _ _ _ _ S D)) Hq) as (q' & Hq' & (_ & Et & _)%pr_core_inv).
  destruct (alike_menu _ _ _ _ (ws_core _ _ _ (wstate_calced _ _ _ _ S D)) H0) as (x2 & H2 & Es2 & Ep2).
  assert (Gp : menu_get_prompt gettext m k' = Done (Some (gettext t), k')).
  { unfold menu_get_prompt. rewrite (mthen_done _ _ _ _ _ (run_get_menu _ _ _ H2)).
    rewrite Ep2, <-Ep, Hp. unfold mthen, get_prop. rewrite Hq'. simpl. by rewrite Et, Ht. }
  rewrite (mthen_done _ _ _ (Some (gettext t)) (cf_set_k k' c)) by (by apply lift_same).
  rewrite (mthen_done (mderef _) _ _ (gettext t) (cf_set_k k' c)) by done.
  exists [Quiet ""; Quiet "#"; Quiet ("# " +:+ gettext t); Quiet "#"], k'. split_and!; [|done|done|].
  - unfold fprintf, mmodify. simpl. by rewrite string_app_nil.
  - intros i Hi. repeat (apply elem_of_cons in Hi as [->|Hi]; [done|]). by apply elem_of_nil in Hi.
Qed.

(** For a tristate symbol the symbol [modules_sym] is calculated first. *)
Lemma modules_run k0 W k2 b c : wstate k0 W k2 → modules_set k0 →
  ∃ k3, mwhen b
      (let! modules_sym := mgets (λ c, ks_modules_sym (cf_k c)) in
       let! modules_sym := mderef modules_sym in lift (sym_calc_value modules_sym)) (cf_set_k k2 c) =
      Done ((), cf_set_k k3 c) ∧ calced k2 k3.
Proof.
  intros S2 (mo & Em & Hmo). destruct b; [|exists k2; split; [done|apply calced_refl]].
  assert (Em2 : ks_modules_sym k2 = Some mo).
  { rewrite <-Em. exact (f_equal ks_modules_sym (ws_core _ _ _ S2)). }
  destruct (runs_calc mo k2) as ([] & k3 & E3 & D3 & _); [by eapply alike_exists; [apply S2|]|apply S2|].
  exists k3. split; [|done]. unfold mwhen, mthen, mgets. simpl. rewrite Em2. simpl. unfold lift. simpl. by rewrite E3.
Qed.

(** An entry for a symbol. *)
Lemma write_symbol k0 W m x s c :
  wstate k0 W (cf_k c) → modules_set k0 → entry_ok k0 m → ks_menus (cf_k c) !! m = Some x → mn_sym x = Some s →
  ∃ l W' k', write_entry gettext m c = Done ((), printed (file_text l) (cf_set_k k' c)) ∧ wstate k0 W' k' ∧
    kept (cf_k c) k' ∧ W' = W ++ lines_of l ∧ (∀ i, i ∈ l → tells k' i) ∧ (∀ u, u ∈ lines_of l → u ∉ W) ∧
    NoDup (lines_of l) ∧ lines_of l `sublist_of` [s] ∧ settled W' k' s.
Proof.
  intros S Mo (x0 & H0 & E) Hx Hs.
  destruct (alike_menu _ _ _ _ (ws_core _ _ _ S) H0) as (x1 & H1 & Es & _).
  assert (x1 = x) as -> by congruence. rewrite <-Es, Hs in E. destruct E as (y0 & Hy0 & T0).
  destruct (alike_sym _ _ _ _ (ws_core _ _ _ S) Hy0) as (y & Hy & Cy). unfold write_entry.
  rewrite (mthen_done _ _ _ _ _ (lift_same _ _ _ (run_get_menu _ _ _ Hx))), Hs.
  rewrite (mthen_done _ _ _ _ _ (lift_get _ _ _ Hy)).
  destruct (pl_choice _ (re_plain _ (ws_ready _ _ _ S)) s y Hy) as [-> _].
  destruct (runs_calc s (cf_k c) ltac:(eauto) (ws_ready _ _ _ S)) as ([] & k1 & E1 & D1 & V1).
  rewrite (mthen_done _ _ _ _ _ (lift_done _ _ _ _ E1)).
  pose proof (wstate_calced _ _ _ _ S D1) as S1. destruct V1 as (y1 & Hy1 & Vy1).
  destruct (alike_sym _ _ _ _ (ws_core _ _ _ S1) Hy0) as (y1' & Hy1' & C1). assert (y1' = y1) as -> by congruence.
  pose proof (typed_core _ _ C1 T0) as T1.
  rewrite (mthen_done _ _ _ y1 (cf_set_k k1 c)) by (by apply lift_get). fold (writes y1).
  destruct (writes y1) eqn:W1; cbn [negb].
  2: { exists [], W, k1. rewrite printed_nil. split_and!; [done|done|by apply calced_kept|by rewrite app_nil_r|..].
       - intros i Hi. by apply elem_of_nil in Hi.
       - intros i Hi. by apply elem_of_nil in Hi.
       - constructor.
       - apply sublist_nil_l.
       - split; [by exists y1|]. destruct (ws_mark _ _ _ S1 s) as [|M]; [by exists y1|by left|right].
         exists y1. split; [done|]. destruct (decide (sy_visible y1 = No)) as [|N]; [done|].
         destruct T1. rewrite (M y1) in W1; done. }
  destruct (wstate_written _ _ _ _ _ S1 Hy1 Vy1) as (k2 & E2 & S2 & K2 & y2 & Hy2 & V2 & Sv2).
  rewrite (mthen_done _ _ _ () (cf_set_k k2 c)) by (unfold lift; simpl; by rewrite E2).
  destruct (modules_run k0 (W ++ [s]) k2 (bool_decide (sy_type y1 = S_TRISTATE)) c S2 Mo) as (k3 & E3 & D3). rewrite (mthen_done _ _ _ _ _ E3).
  pose proof (wstate_calced _ _ _ _ S2 D3) as S3.
  assert (Hy3 : ks_syms k3 !! s = Some y2) by (rewrite (cd_same _ _ D3); [done|by exists y2]).
  pose proof Sv2 as (C2 & _). pose proof (sy_core_inv _ _ C2) as (_ & Et2 & _). rewrite <-Et2.
  pose proof (typed_core _ _ C2 T1) as T2.
  rewrite (write_value_run s y2 (cf_set_k k3 c)); [|done|apply (re_solved _ (ws_ready _ _ _ S3)); by exists y2|done].
  assert (Nw : s ∉ W).
  { intros Hw. destruct (ws_done _ _ _ S1 s Hw) as (z & Hz & _ & Nz). congruence. }
  exists [item_of s y2], (W ++ [s]), k3. split_and!; [by rewrite file_text_cons, string_app_nil|done| |done|..].
  - eapply kept_trans; [by apply calced_kept|]. eapply kept_trans; [done|by apply calced_kept].
  - intros i ->%list_elem_of_singleton. by exists y2.
  - intros u ->%list_elem_of_singleton. done.
  - apply NoDup_singleton.
  - done.
  - split; [by exists y2|]. left. apply elem_of_app. right. by left.
Qed.

Lemma write_entry_run k0 W m c :
  wstate k0 W (cf_k c) → modules_set k0 → entry_ok k0 m →
  ∃ l W' k', write_entry gettext m c = Done ((), printed (file_text l) (cf_set_k k' c)) ∧ wstate k0 W' k' ∧
    kept (cf_k c) k' ∧ W' = W ++ lines_of l ∧ (∀ i, i ∈ l → tells k' i) ∧ (∀ u, u ∈ lines_of l → u ∉ W) ∧
    NoDup (lines_of l) ∧ lines_of l `sublist_of` omap (sym_of k0) [m] ∧
    ∀ s, sym_of k0 m = Some s → settled W' k' s.
Proof.
  intros S Mo E. pose proof E as (x0 & H0 & _).
  destruct (alike_menu _ _ _ _ (ws_core _ _ _ S) H0) as (x & Hx & Es & _).
  assert (Eo : sym_of k0 m = mn_sym x) by (unfold sym_of; by rewrite H0, Es). rewrite Eo.
  destruct (mn_sym x) as [s|] eqn:Hs.
  - destruct (write_symbol k0 W m x s c S Mo E Hx Hs) as (l & W' & k' & ? & ? & ? & ? & ? & ? & ? & ? & ?).
    exists l, W', k'. simpl. rewrite Eo. split_and!; try done. by intros ? [= ->].
  - destruct (write_comment k0 W m x c S E Hx Hs) as (l & k' & R & D & L & Hl).
    exists l, W, k'. rewrite L, app_nil_r.
    split_and!; [done|by eapply wstate_calced|by apply calced_kept|done|done| |constructor|apply sublist_nil_l|done].
    intros u Hu. by apply elem_of_nil in Hu.
Qed.

(** The loop over the entries. *)
Lemma write_entries_run k0 o l n W c :
  walk k0 o l None → length l ≤ n → wstate k0 W (cf_k c) → modules_set k0 → (∀ m, m ∈ l → entry_ok k0 m) →
  ∃ its W' k', write_entries gettext n o c = Done ((), printed (file_text its) (cf_set_k k' c)) ∧ wstate k0 W' k' ∧
    kept (cf_k c) k' ∧ W' = W ++ lines_of its ∧ (∀ i, i ∈ its → tells k' i) ∧ (∀ u, u ∈ lines_of its → u ∉ W) ∧
    NoDup (lines_of its) ∧ lines_of its `sublist_of` omap (sym_of k0) l ∧
    ∀ m s, m ∈ l → sym_of k0 m = Some s → settled W' k' s.
Proof.
  remember None as e eqn:He. intros Hw. revert n W c.
  induction Hw as [o|m l o o' Hn Hw IH]; intros n W c Hl S Mo Ok; subst o.
  - exists [], W, (cf_k c). rewrite printed_nil. assert (Ec : cf_set_k (cf_k c) c = c) by (by destruct c). rewrite Ec.
    split_and!; [by destruct n|done|apply kept_refl|by rewrite app_nil_r|..].
    1-2: intros i Hi; by apply elem_of_nil in Hi. { constructor. } { done. } intros i s Hi. by apply elem_of_nil in Hi.
  - destruct n as [|n]; [simpl in Hl; lia|]. cbn [write_entries].
    destruct (write_entry_run k0 W m c S Mo) as (l1 & W1 & k1 & E1 & S1 & K1 & -> & T1 & N1 & D1 & B1 & Z1);
      [apply Ok; by left|].
    rewrite (mthen_done _ _ _ _ _ E1).
    assert (En : next_entry m k1 = Done (o', k1)).
    { rewrite (core_next_entry k0 k1 m (f_equal ks_menus (ws_core _ _ _ S1))). by rewrite Hn. }
    rewrite (mthen_done _ _ _ o' (printed (file_text l1) (cf_set_k k1 c))) by (by apply lift_same).
    destruct (IH eq_refl n (W ++ lines_of l1) (printed (file_text l1) (cf_set_k k1 c)))
      as (l2 & W2 & k2 & E2 & S2 & K2 & -> & T2 & N2 & D2 & B2 & Z2); [simpl in Hl; lia|done..| |].
    { intros i Hi. apply Ok. by right. }
    exists (l1 ++ l2), (W ++ lines_of (l1 ++ l2)), k2. unfold lines_of in *. rewrite omap_app, app_assoc.
    split_and!; [|done|by eapply kept_trans|done|..].
    + rewrite E2. do 2 f_equal. rewrite file_text_app. unfold printed. simpl. by rewrite string_app_assoc.
    + intros i [Hi|Hi]%elem_of_app; [|auto]. by eapply tells_kept; [|apply T1].
    + intros u [Hu|Hu]%elem_of_app; [auto|]. intros Hu'. apply (N2 u Hu), elem_of_app. by left.
    + apply NoDup_app. split_and!; [done| |done]. intros u Hu Hu'. apply (N2 u Hu'), elem_of_app. by right.
    + change (m :: l) with ([m] ++ l). rewrite omap_app. by apply sublist_app.
    + intros i s [->|Hi]%elem_of_cons Hs; [|by eapply Z2]. eapply settled_kept; [exact K2| |by apply Z1].
      intros u Hu. apply elem_of_app. by left.
Qed.
End Write.
