(* ===== verification/KConfFile.v ===== *)
(** * Writing the configuration file

    What [conf_write] leaves in the file, from the header to the renaming. *)
From S2P Require Import Prelude CLib CStr KData KExpr KState KSymbol KSymFrame KSymRef KSymSolve KSymTab.
From S2P Require Import KSymUnique KSymSet KMenu KMenuInv KMenuTree KConf KConfText KConfLine KCalc KConfLoad KConfSave.
From Stdlib Require Import Ascii.
Open Scope pr30_scope.

Section File.
Context (getenv : string → option string) (gettext : string → string) (ctime : string) (pid : Z)
  (writable : string → bool).

Definition use_timestamp : bool :=
  match getenv "KCONFIG_NOTIMESTAMP" with Some env => bool_decide (env = EmptyString) | None => true end.

(** The line of a symbol can be read again. *)
Definition line_fits (y : symbol) : bool :=
  name_ok (name_of y) && setting_ok (sy_type y) (setting_of_sym y) &&
  (String.length (conf_line (name_of y) (sy_type y) (setting_of_sym y)) + 2 <=? LINE)%nat.
(** The header says nothing about symbols. *)
Definition header_ok (version : string) : Prop :=
  ∃ qs, header gettext ctime version use_timestamp = Some (file_text (map Quiet qs)) ∧ ∀ q, q ∈ qs → quiet q = true.

(** A configuration that can be written: its menu tree has the entries [l]. *)
Record savable (k : kstate) (l : list mid) : Prop := {
  sv_plain : plain k;
  sv_hash : hash_ok k;
  sv_listed : listed k;
  sv_modules : modules_set k;
  sv_tree : ∃ x, ks_menus k !! rootmenu = Some x ∧ mn_parent x = None ∧ mn_next x = None ∧
    chain k rootmenu (mn_list x) l ∧ NoDup (rootmenu :: l);
  sv_entry : ∀ m, m ∈ l → entry_ok gettext k m;
  sv_version : ∃ v, entry k "OPENWRTVERSION" false v ∧ is_Some (ks_syms k !! v) ∧
    ∀ k' y, alike k k' → ready k' → valid_in k' v → ks_syms k' !! v = Some y → header_ok (val_text (string_value y));
}.

(** Where a store stands before it is written: after [conf_write] the counter
    is 0, and everything is calculated anew. *)
Record savable_now (k : kstate) : Prop := {
  sn_ready : ready k;
  sn_marks : ks_change_count k = 0%Z ∨ ∀ u, valid_in k u → marked_in k u;
}.

Lemma alike_refl k : alike k k.
Proof. done. Qed.
Lemma alike_trans k1 k2 k3 : alike k1 k2 → alike k2 k3 → alike k1 k3.
Proof. unfold alike. congruence. Qed.
Lemma calced_alike k k' : calced k k' → alike k k'.
Proof. intros D. exact (f_equal (ks_set_change_count 0) (cd_core _ _ D)). Qed.
Lemma core_listed k k' : ks_core k' = ks_core k → listed k → listed k'.
Proof. apply listed_core. Qed.

Lemma alike_chain k k' p o l : alike k k' → chain k p o l → chain k' p o l.
Proof.
  intros A. assert (L : ∀ m x, ks_menus k !! m = Some x → ∃ x', ks_menus k' !! m = Some x' ∧
    mn_parent x' = mn_parent x ∧ mn_list x' = mn_list x ∧ mn_next x' = mn_next x).
  { intros m x H. assert (Lm : mn_core <$> ks_menus k' !! m = mn_core <$> ks_menus k !! m).
    { rewrite <-!lookup_fmap. exact (f_equal (λ z, ks_menus z !! m) A). }
    rewrite H in Lm. destruct (ks_menus k' !! m) as [x'|]; [|done]. exists x'.
    split_and!; [done|by injection (f_equal (option_map mn_parent) Lm)|
      by injection (f_equal (option_map mn_list) Lm)|by injection (f_equal (option_map mn_next) Lm)]. }
  induction 1 as [p|p m x lc ln H Hp _ IHc _ IHn]; [constructor|].
  destruct (L m x H) as (x' & H' & E1 & E2 & E3). rewrite <-E2 in IHc. rewrite <-E3 in IHn.
  econstructor; eauto. congruence.
Qed.

(** The loop ends, and visits the entries of the tree. *)
Lemma savable_walk k l : savable k l →
  ∃ x, ks_menus k !! rootmenu = Some x ∧ walk k (mn_list x) l None ∧ length l ≤ menu_fuel k.
Proof.
  intros S. destruct (sv_tree _ _ S) as (x & H & Hp & Hn & Hc & Nd). exists x. split; [done|].
  assert (Sz : length (rootmenu :: l) ≤ size (ks_menus k)).
  { rewrite <-(size_dom (D := gset mid)). rewrite <-(size_list_to_set (C := gset mid) _ Nd).
    apply subseteq_size. intros m. rewrite elem_of_list_to_set, elem_of_dom.
    intros [->|Hm]%elem_of_cons; [eauto|]. by eapply chain_in. }
  simpl in Sz. split; [|unfold menu_fuel; lia].
  pose proof (chain_walk k rootmenu (mn_list x) l 2 None Hc (after_root k rootmenu x H Hp Hn)) as Hw.
  assert (E : match mn_list x with Some m => Some m | None => None end = mn_list x) by (by destruct (mn_list x)).
  rewrite E in Hw. apply Hw. unfold menu_fuel. lia.
Qed.

Lemma quiet_tells k qs : (∀ q, q ∈ qs → quiet q = true) → ∀ i, i ∈ map Quiet qs → tells k i.
Proof. intros H i Hi. apply list_elem_of_fmap in Hi as (q & -> & Hq). by apply H. Qed.
Lemma quiet_lines qs : lines_of (map Quiet qs) = [].
Proof. by induction qs. Qed.

(** The counter decides whether everything is calculated anew. *)
Lemma write_start l c k1 :
  savable (cf_k c) l → savable_now (cf_k c) → calced (cf_k c) k1 →
  ∃ k2, wstate (cf_k c) [] k2 ∧ ∀ c', cf_k c' = k1 →
    mwhen (bool_decide (ks_change_count k1 = 0%Z)) (lift sym_clear_all_valid) c' = Done ((), cf_set_k k2 c').
Proof.
  intros S [R Mk] D1. pose proof (calced_ready _ _ D1 R) as R1.
  assert (Ec : ks_change_count k1 = ks_change_count (cf_k c)) by exact (f_equal ks_change_count (cd_core _ _ D1)).
  unfold mwhen. case_bool_decide as Z0.
  - destruct (clear_all_spec k1) as (k2 & E2 & C2 & Cv2 & A2 & M2);
      [apply R1|eapply core_listed; [apply D1|apply S]|apply ready_untyped; apply R1|].
    exists k2. split; [|intros c' <-; unfold lift; by rewrite E2].
    assert (A : alike (cf_k c) k2).
    { eapply alike_trans; [by apply calced_alike|]. exact (f_equal (ks_set_change_count 0) C2). }
    split; [split; [|done..]|done|by intros u V; right; apply M2|by intros u ?%elem_of_nil].
    eapply plain_core; [exact C2|]. apply plain_count, R1.
  - exists k1. split; [|intros c' <-; by destruct c'].
    eapply (wstate_calced _ _ (cf_k c)); [|done]. split; [done..| |by intros u ?%elem_of_nil].
    intros u V. right. destruct Mk as [Mk|Mk]; [congruence|by apply Mk].
Qed.

Lemma alike_menus k k' : alike k k' → mn_core <$> ks_menus k' = mn_core <$> ks_menus k.
Proof. intros A. exact (f_equal ks_menus A). Qed.
Lemma alike_fuel k k' : alike k k' → menu_fuel k' = menu_fuel k.
Proof.
  intros A%alike_menus. unfold menu_fuel. f_equal.
  rewrite <-(map_size_fmap mn_core (ks_menus k')), A. by rewrite map_size_fmap.
Qed.
Lemma alike_list k k' m x : alike k k' → ks_menus k !! m = Some x →
  ∃ x', ks_menus k' !! m = Some x' ∧ mn_list x' = mn_list x.
Proof.
  intros A%alike_menus H. assert (L : mn_core <$> ks_menus k' !! m = mn_core <$> ks_menus k !! m).
  { by rewrite <-!lookup_fmap, A. }
  rewrite H in L. destruct (ks_menus k' !! m) as [x'|]; [|done]. exists x'. split; [done|].
  by injection (f_equal (option_map mn_list) L).
Qed.

(** The body of the file. *)
Lemma write_out_run l c :
  savable (cf_k c) l → savable_now (cf_k c) →
  ∃ its k', write_out getenv gettext ctime c = Done ((), printed (file_text its) (cf_set_k k' c)) ∧
    alike (cf_k c) k' ∧ ready k' ∧ (∀ i, i ∈ its → tells k' i) ∧ NoDup (lines_of its) ∧
    lines_of its `sublist_of` omap (sym_of (cf_k c)) l ∧
    ∀ m s, m ∈ l → sym_of (cf_k c) m = Some s → settled (lines_of its) k' s.
Proof.
  intros S [R Mk]. unfold write_out. destruct (sv_version _ _ S) as (v & Ev & Hv & Hh).
  rewrite (mthen_done _ _ _ v c) by (apply lift_same, lookup_found; [apply S|done]).
  destruct (runs_calc v (cf_k c) Hv R) as ([] & k1 & E1 & D1 & V1). pose proof (calced_ready _ _ D1 R) as R1.
  rewrite (mthen_done _ _ _ _ _ (lift_done _ _ _ _ E1)).
  destruct (runs_string_value v k1 V1 R1) as (ver & ? & Es & _ & -> & y & Hy & Ht).
  destruct (string_value y) as [|x|] eqn:Esv; [done| |done]. simpl in Ht. injection Ht as Ht.
  rewrite (mthen_done _ _ _ (VStr x) (cf_set_k k1 c))
    by (apply lift_same; cbn [cf_k cf_set_k]; by rewrite (run_string_value _ _ _ Hy), Esv).
  rewrite (mthen_done _ _ _ (cs_text x) (cf_set_k k1 c)) by (by apply lift_same).
  destruct (Hh k1 y (calced_alike _ _ D1) R1 V1 Hy) as (qs & Eh & Hq).
  rewrite Esv in Eh. cbn [val_text] in Eh. unfold use_timestamp in Eh. rewrite Eh.
  rewrite (mthen_done (mderef _) _ _ (file_text (map Quiet qs)) (cf_set_k k1 c)) by done.
  rewrite (mthen_done (fprintf _) _ _ () (printed (file_text (map Quiet qs)) (cf_set_k k1 c))) by done.
  rewrite (mthen_done (mgets _) _ _ (ks_change_count k1) (printed (file_text (map Quiet qs)) (cf_set_k k1 c))) by done.
  destruct (write_start l c k1 S (Build_savable_now _ R Mk) D1) as (k2 & S2 & E2).
  rewrite (mthen_done _ _ _ () (printed (file_text (map Quiet qs)) (cf_set_k k2 c))) by (by apply E2).
  destruct (savable_walk _ _ S) as (x0 & H0 & Hw & Hl).
  destruct (alike_list _ _ _ _ (ws_core _ _ _ S2) H0) as (x2 & H2 & El).
  set (c2 := printed (file_text (map Quiet qs)) (cf_set_k k2 c)).
  rewrite (mthen_done _ _ _ x2 c2) by (apply lift_same; by apply run_get_menu).
  rewrite (mthen_done (mgets _) _ _ (menu_fuel k2) c2), El by done.
  pose proof (alike_fuel _ _ (ws_core _ _ _ S2)) as Fu.
  destruct (write_entries_run gettext (cf_k c) (mn_list x0) l (menu_fuel k2) [] c2) as
    (its & W & k3 & E3 & S3 & _ & -> & T3 & _ & N3 & B3 & Z3); [done|lia|done|apply S|apply S|].
  exists (map Quiet qs ++ its), k3. unfold lines_of in *. rewrite omap_app.
  fold (lines_of (map Quiet qs)). rewrite quiet_lines. split_and!; [|apply S3|apply S3|..].
  - rewrite E3. do 2 f_equal. unfold c2, printed. simpl. by rewrite file_text_app, string_app_assoc.
  - intros i [Hi|Hi]%elem_of_app; [by eapply quiet_tells|auto].
  - done.
  - done.
  - intros m s Hm Hs. by apply (Z3 m).
Qed.

(** ** The file itself *)

Lemma print_digits_length base n fuel t :
  String.length (print_digits base fuel n t) ≤ S fuel + String.length t.
Proof.
  revert n t. induction fuel as [|fuel IH]; intros n t; cbn [print_digits]; destruct (n / base =? 0)%Z; simpl; try lia.
  etrans; [apply IH|]. simpl. lia.
Qed.
Lemma print_d_length z : String.length (print_d z) ≤ 33.
Proof.
  unfold print_d. pose proof (print_digits_length 10 (- z) 31 ""). pose proof (print_digits_length 10 z 31 "").
  change (String.length "") with 0 in *. destruct (z <? 0)%Z; [rewrite string_length_app; change (String.length "-") with 1|]; lia.
Qed.

Definition newname : string := ".tmpconfig." +:+ print_d pid.
Lemma newname_fits (c : conf) : fits 128 ("" +:+ newname) c = Done (newname, c).
Proof.
  unfold fits. assert (L : String.length newname < 128).
  { unfold newname. rewrite string_length_app. pose proof (print_d_length pid). change (String.length ".tmpconfig.") with 11. lia. }
  change ("" +:+ newname) with newname. apply Nat.ltb_lt in L. by rewrite L.
Qed.

Lemma newname_ne s : char_at s ≠ "."%char ∨ char_at (tail_of s) ≠ "t"%char → newname ≠ s.
Proof. intros H <-. by destruct H. Qed.

Lemma rename_run old new text c :
  cf_files c !! old = Some text → new ∉ cf_dirs c →
  rename old new c = Done (false, cf_set_files (<[new := text]> (delete old (cf_files c))) c).
Proof.
  intros H N. unfold rename. rewrite (mthen_done (mgets id) _ _ c c) by done. rewrite H.
  by rewrite decide_False.
Qed.
Lemma rename_other old new c : ∃ b c', rename old new c = Done (b, c') ∧ cf_k c' = cf_k c ∧ cf_dirs c' = cf_dirs c ∧
  (∀ f, f ≠ old → f ≠ new → cf_files c' !! f = cf_files c !! f) ∧ cf_filename c' = cf_filename c ∧
  cf_stdout c' = cf_stdout c ∧ cf_stderr c' = cf_stderr c.
Proof.
  unfold rename. rewrite (mthen_done (mgets id) _ _ c c) by done.
  destruct (cf_files c !! old) as [text|]; [|by eexists _, _]. case_decide; [by eexists _, _|].
  eexists _, _. split; [done|]. simpl. split_and!; try done. intros f N1 N2.
  by rewrite lookup_insert_ne, lookup_delete_ne.
Qed.

(** [conf_write(NULL)]. *)
Lemma conf_write_run l c :
  savable (cf_k c) l → savable_now (cf_k c) → writable newname = true → conf_def_filename ∉ cf_dirs c →
  ∃ its k' c', conf_write getenv gettext ctime pid writable None c = Done (false, c') ∧
    cf_files c' !! conf_def_filename = Some (file_text its) ∧ cf_k c' = ks_set_change_count 0 k' ∧
    cf_dirs c' = cf_dirs c ∧ (∀ f, char_at f ≠ "."%char → cf_files c' !! f = cf_files c !! f) ∧
    alike (cf_k c) k' ∧ ready k' ∧ (∀ i, i ∈ its → tells k' i) ∧ NoDup (lines_of its) ∧
    lines_of its `sublist_of` omap (sym_of (cf_k c)) l ∧
    ∀ m s, m ∈ l → sym_of (cf_k c) m = Some s → settled (lines_of its) k' s.
Proof.
  intros S N Hw Hd. unfold conf_write. rewrite (mthen_done (split_name None) _ _ ("", None) c) by done.
  rewrite (mthen_done _ _ _ newname c) by apply newname_fits. rewrite Hw. cbn [negb].
  set (c0 := cf_set_stream "" c). rewrite (mthen_done (mmodify _) _ _ () c0) by done.
  destruct (write_out_run l c0 S N) as (its & k' & E & A & R & T & D & B & Z).
  rewrite (mthen_done _ _ _ _ _ E).
  set (c1 := cf_set_files (<[newname := file_text its]> (cf_files c)) (printed (file_text its) (cf_set_k k' c0))).
  rewrite (mthen_done (mmodify _) _ _ () c1) by done.
  destruct (rename_other conf_def_filename (conf_def_filename +:+ ".old") c1) as (b & c2 & E2 & K2 & D2 & F2 & _).
  rewrite (mthen_done _ _ _ () c2).
  2: { rewrite bool_decide_eq_true_2 by done. cbn [orb default]. rewrite (mthen_done _ _ _ (conf_def_filename +:+ ".old") c1) by done.
       by rewrite (mthen_done _ _ _ _ _ E2). }
  rewrite (mthen_done _ _ _ conf_def_filename c2) by done.
  assert (Fn : cf_files c2 !! newname = Some (file_text its)).
  { rewrite F2; [simpl; by rewrite lookup_insert_eq|apply newname_ne; by right..]. }
  rewrite (mthen_done _ _ _ _ _ (rename_run newname conf_def_filename (file_text its) c2 Fn ltac:(rewrite D2; done))).
  exists its, k'. eexists. split_and!; [done| |by simpl; rewrite K2|by simpl; rewrite D2| |done..].
  - simpl. by rewrite lookup_insert_eq.
  - intros f N0. assert (Nf : ∀ t, char_at t = "."%char → t ≠ f) by (by intros t Ht ->). simpl.
    rewrite lookup_insert_ne, lookup_delete_ne, F2 by (first [by apply Nf|apply not_eq_sym; by apply Nf]). simpl.
    by rewrite lookup_insert_ne by (by apply Nf).
Qed.
End File.
