(* ===== verification/KConfReset.v ===== *)
(** * Reading the configuration into a store that is in use

    [conf_read_simple] forgets every setting and every calculated value, and
    then sets what the file says. *)
From S2P Require Import Prelude CLib CStr KData KExpr KState KSymbol KSymFrame KSymRef KSymSolve KSymTab.
From S2P Require Import KSymUnique KSymSet KMenu KConf KConfText KConfLine KCalc KConfLoad KConfSave.
From Stdlib Require Import Ascii.
Open Scope pr30_scope.

(** ** Stores with the same configuration *)

(** The same but for settings and calculated values. *)
Record same_setup (k k' : kstate) : Prop := {
  ss_prop : pr_core <$> ks_props k' = pr_core <$> ks_props k;
  ss_menu : mn_core <$> ks_menus k' = mn_core <$> ks_menus k;
  ss_table : same_table k k';
  ss_modules : ks_modules_sym k' = ks_modules_sym k;
  ss_sym : ∀ s y, ks_syms k !! s = Some y → ∃ y', ks_syms k' !! s = Some y' ∧ row y' = row y ∧ same_shape y' y;
}.

Lemma shape_refl y : same_shape y y.
Proof. by split_and!. Qed.
Lemma shape_trans x y z : same_shape x y → same_shape y z → same_shape x z.
Proof. unfold same_shape. intros (-> & -> & -> & ->) (-> & -> & -> & ->). done. Qed.
Lemma shape_sym x y : same_shape x y → same_shape y x.
Proof. unfold same_shape. intros (-> & -> & -> & ->). done. Qed.

Lemma setup_refl k : same_setup k k.
Proof. split; try done. intros s y H. exists y. split_and!; [done..|apply shape_refl]. Qed.
Lemma setup_trans k1 k2 k3 : same_setup k1 k2 → same_setup k2 k3 → same_setup k1 k3.
Proof.
  intros [A1 B1 C1 D1 E1] [A2 B2 C2 D2 E2]. split; try congruence; [by eapply same_table_trans|].
  intros s y H. destruct (E1 s y H) as (y1 & H1 & R1 & S1), (E2 s y1 H1) as (y2 & H2 & R2 & S2). exists y2.
  split_and!; [done|congruence|by eapply shape_trans].
Qed.
Lemma setup_back k k' s y' : same_setup k k' → ks_syms k' !! s = Some y' →
  ∃ y, ks_syms k !! s = Some y ∧ row y' = row y ∧ same_shape y' y.
Proof.
  intros S H'. destruct (table_sym k' k s y' (same_table_sym _ _ (ss_table _ _ S)) H') as (y & H & _).
  destruct (ss_sym _ _ S s y H) as (z & Hz & R & Sh). assert (z = y') as -> by congruence. eauto.
Qed.
Lemma setup_sym k k' : same_setup k k' → same_setup k' k.
Proof.
  intros S. pose proof S as [A B C D E]. split; [done..|by apply same_table_sym|done|].
  intros s y H. destruct (setup_back k k' s y S H) as (z & Hz & R & Sh). exists z.
  split_and!; [done..|by apply shape_sym].
Qed.
Lemma setup_exists k k' s : same_setup k k' → is_Some (ks_syms k !! s) → is_Some (ks_syms k' !! s).
Proof. intros S [y H]. destruct (ss_sym _ _ S s y H) as (? & ? & _). eauto. Qed.

Lemma core_row y y' : sy_core y' = sy_core y → row y' = row y ∧ same_shape y' y.
Proof.
  intros C. pose proof (sy_core_inv _ _ C) as (En & Et & _ & Ep & Er & Ei & _ & Ec & Ev).
  assert (Ef : is_const y' = is_const y).
  { apply (has_flag_masked _ _ calc_bits); [|done]. exact (f_equal sy_flags C). }
  split; [unfold row; by rewrite En, Ef, Et, Ec, Ev|by split_and!].
Qed.
Lemma alike_setup k k' : alike k k' → same_setup k k'.
Proof.
  intros A. assert (Sy : ∀ s y, ks_syms k !! s = Some y → ∃ y', ks_syms k' !! s = Some y' ∧ row y' = row y ∧ same_shape y' y).
  { intros s y H. destruct (alike_sym k k' s y A H) as (y' & H' & C). exists y'. split; [done|]. by apply core_row. }
  split; [exact (f_equal ks_props A)|exact (f_equal ks_menus A)| |exact (f_equal ks_modules_sym A)|done].
  split; [exact (f_equal ks_hash A)|exact (f_equal ks_new_sym A)|]. apply map_eq. intros s. rewrite !lookup_fmap.
  destruct (ks_syms k !! s) as [y|] eqn:H.
  - destruct (Sy s y H) as (y' & -> & E & _). simpl. by f_equal.
  - destruct (ks_syms k' !! s) as [y'|] eqn:H'; [|done].
    destruct (alike_sym k' k s y' (eq_sym A) H') as (? & ? & _). congruence.
Qed.

Lemma setup_reads k k' s t : same_setup k k' → reads k s t → reads k' s t.
Proof.
  intros S (y & H & Ht). destruct (ss_sym _ _ S s y H) as (y' & H' & _ & (_ & Ep & Er & Ei)). exists y'. split; [done|].
  unfold sym_reads in *. rewrite Ep, Er, Ei.
  assert (E : ∀ p, from_option prop_reads [] (ks_props k' !! p) = from_option prop_reads [] (ks_props k !! p)).
  { intros p. assert (L : pr_core <$> ks_props k' !! p = pr_core <$> ks_props k !! p)
      by (by rewrite <-!lookup_fmap, (ss_prop _ _ S)).
    destruct (ks_props k' !! p) as [x'|], (ks_props k !! p) as [x|]; try done. simpl in L |- *.
    apply (inj Some) in L. apply pr_core_inv in L as (_ & _ & _ & _ & _ & ->). done. }
  by rewrite (map_ext _ _ E).
Qed.
Lemma setup_tc k k' s t : same_setup k k' → tc (reads k) s t → tc (reads k') s t.
Proof.
  intros S. induction 1 as [s t H|s u t H _ IH]; [apply tc_once|eapply tc_l; [|done]]; by eapply setup_reads.
Qed.

(** Settings of strings and numbers are strings. *)
Definition user_ok (k : kstate) : Prop := ∀ s y, ks_syms k !! s = Some y →
  sy_type y = S_STRING ∨ sy_type y = S_INT ∨ sy_type y = S_HEX → has_value y = true →
  ∃ c, sv_val (sy_user y) = VStr c.

Lemma plain_setup k k' : same_setup k k' → user_ok k' → plain k → plain k'.
Proof.
  intros S U [A1 A2 A3 A4 A5 A6]. pose proof (setup_sym _ _ S) as S'. split.
  - intros s t R. apply (setup_exists k); [done|]. eapply A1. by eapply setup_reads.
  - intros s y' p H' Hp. destruct (setup_back _ _ _ _ S H') as (y & H & _ & (_ & Ep & _)). rewrite Ep in Hp.
    destruct (A2 s y p H Hp) as (x & Hx & B1 & B2 & B3).
    assert (L : pr_core <$> ks_props k' !! p = pr_core <$> ks_props k !! p)
      by (by rewrite <-!lookup_fmap, (ss_prop _ _ S)).
    rewrite Hx in L. destruct (ks_props k' !! p) as [x'|] eqn:Hx'; [|done]. simpl in L. apply (inj Some) in L.
    apply pr_core_inv in L as (Et & _ & _ & Ex & Em & _). exists x'. rewrite Et, Ex, Em.
    split_and!; [done| |done..]. intros m Hm. destruct (B1 m Hm) as [z Hz].
    assert (Lm : mn_core <$> ks_menus k' !! m = mn_core <$> ks_menus k !! m)
      by (by rewrite <-!lookup_fmap, (ss_menu _ _ S)).
    rewrite Hz in Lm. destruct (ks_menus k' !! m); [eauto|done].
  - intros s y' H'. destruct (setup_back _ _ _ _ S H') as (y & H & (-> & _ & -> & _)%row_inv & _). eauto.
  - exact U.
  - intros s y' H'. destruct (setup_back _ _ _ _ S H') as (y & H & (_ & _ & _ & -> & ->)%row_inv & _). eauto.
  - intros s Ht. apply (A6 s). by eapply setup_tc.
Qed.
Lemma listed_setup k k' : same_setup k k' → listed k → listed k'.
Proof.
  intros S [A [B1 B2] [C1 C2] D E]. pose proof (table_hash_syms _ _ (ss_table _ _ S)) as Eh.
  split; rewrite ?Eh, ?(ss_modules _ _ S).
  - intros t Ht. by apply (setup_exists k), A.
  - split; [done|by apply (setup_exists k)].
  - split; [done|by apply (setup_exists k)].
  - intros t y' H'. destruct (setup_back _ _ _ _ S H') as (y & H & (_ & _ & -> & _)%row_inv & _). eauto.
  - intros m Hm. by apply (setup_exists k), E.
Qed.

(** ** Forgetting everything *)

Definition forgotten (y y' : symbol) : Prop :=
  row y' = row y ∧ same_shape y' y ∧ sy_user y' = SValue VNull No ∧ valid y' = false ∧ has_value y' = is_choice y.

Lemma upd_sym_run s f y k : ks_syms k !! s = Some y → upd_sym s f k = Done ((), set_sym s (f y) k).
Proof. intros H. unfold upd_sym. by rewrite (mthen_done _ _ _ _ _ (run_get_sym _ _ _ H)). Qed.
Lemma set_sym_lookup s y k : ks_syms (set_sym s y k) !! s = Some y.
Proof. simpl. apply lookup_insert_eq. Qed.

Lemma reset_symbol_run s y k : ks_syms k !! s = Some y →
  ∃ y', reset_symbol s k = Done ((), set_sym s y' k) ∧ forgotten y y'.
Proof.
  intros H. unfold reset_symbol.
  set (y1 := sy_set_flags (set_flag (sy_flags y) (Z.lor SYMBOL_NEW SYMBOL_CHANGED)) y).
  rewrite (mthen_done _ _ _ () (set_sym s y1 k)) by exact (upd_sym_run s _ y k H).
  rewrite (mthen_done _ _ _ y1 (set_sym s y1 k)) by (apply run_get_sym, set_sym_lookup).
  set (y2 := if is_choice y1 then sy_set_flags (clear_flag (sy_flags y1) SYMBOL_NEW) y1 else y1).
  rewrite (mthen_done _ _ _ () (set_sym s y2 k)).
  2: { unfold y2, mwhen. destruct (is_choice y1); [|done].
       unfold clear_flags. rewrite (upd_sym_run _ _ y1) by apply set_sym_lookup. by rewrite set_set. }
  set (y3 := sy_set_flags (clear_flag (sy_flags y2) SYMBOL_VALID) y2).
  rewrite (mthen_done _ _ _ () (set_sym s y3 k)).
  2: { unfold clear_flags. rewrite (upd_sym_run _ _ y2) by apply set_sym_lookup. by rewrite set_set. }
  rewrite (upd_sym_run _ _ y3) by apply set_sym_lookup. rewrite set_set. eexists. split; [done|].
  assert (C1 : is_choice y1 = is_choice y) by (unfold is_choice, y1; simpl; by rewrite has_flag_set, orb_false_r).
  unfold forgotten, row, same_shape, is_const, is_choice_value, is_choice, valid, has_value, y3. simpl.
  rewrite has_flag_cleared, !has_flag_clear by done. unfold y2. rewrite C1. unfold is_choice.
  destruct (has_flag (sy_flags y) SYMBOL_CHOICE) eqn:C; unfold y1; simpl;
    rewrite ?has_flag_clear, ?has_flag_cleared, ?has_flag_set, ?C by done; rewrite ?orb_false_r, ?orb_true_r; done.
Qed.

Definition reset_one (s : sid) : K () :=
  let! y := get_sym s in if decide (sy_type y = S_OTHER) then mreturn () else reset_symbol s.

Lemma forgotten_trans x y z : forgotten x y → forgotten y z → forgotten x z.
Proof.
  intros (R1 & S1 & U1 & V1 & H1) (R2 & S2 & U2 & V2 & H2).
  split_and!; [congruence|by eapply shape_trans|done..|]. by apply row_inv in R1 as (_ & _ & _ & <- & _).
Qed.

(** What the loop over [l] does to the table. *)
Record reset_run (l : list sid) (k k' : kstate) : Prop := {
  rr_setup : same_setup k k';
  rr_listed : ∀ s y, s ∈ l → ks_syms k !! s = Some y → sy_type y ≠ S_OTHER →
    ∃ y', ks_syms k' !! s = Some y' ∧ forgotten y y';
  rr_other : ∀ s, s ∉ l → ks_syms k' !! s = ks_syms k !! s;
  rr_kept : ∀ s y, ks_syms k !! s = Some y → sy_type y = S_OTHER → ks_syms k' !! s = Some y;
  rr_count : ks_change_count k' = ks_change_count k;
}.

Lemma setup_set s y y' k : ks_syms k !! s = Some y → row y' = row y → same_shape y' y → same_setup k (set_sym s y' k).
Proof.
  intros H R Sh. split; try done.
  - assert (E : ks_set_new_str (ks_new_str k) k = k) by (by destruct k).
    pose proof (table_update k s y y' (ks_new_str k) H R) as T. by rewrite E in T.
  - intros t z Hz. simpl. destruct (decide (t = s)) as [->|N].
    + rewrite lookup_insert_eq. assert (z = y) as -> by congruence. eauto.
    + rewrite lookup_insert_ne by done. exists z. split_and!; [done..|apply shape_refl].
Qed.

Lemma reset_list l k :
  (∀ s, s ∈ l → is_Some (ks_syms k !! s)) → ∃ k', miter reset_one l k = Done ((), k') ∧ reset_run l k k'.
Proof.
  revert k. induction l as [|s l IH]; intros k Hl.
  { exists k. split; [done|]. split; [apply setup_refl| |done..]. intros s y Hs. by apply elem_of_nil in Hs. }
  destruct (Hl s) as [y H]; [by left|]. cbn [miter].
  assert (G : ∃ k1, reset_one s k = Done ((), k1) ∧ reset_run [s] k k1).
  { unfold reset_one. rewrite (mthen_done _ _ _ _ _ (run_get_sym _ _ _ H)). case_decide as D.
    - exists k. split; [done|]. split; [apply setup_refl| |done..].
      intros t z ->%list_elem_of_singleton Hz N. congruence.
    - destruct (reset_symbol_run s y k H) as (y' & E & F). exists (set_sym s y' k). split; [done|].
      split; [by eapply setup_set; [|apply F..]| | | |done].
      + intros t z ->%list_elem_of_singleton Hz N. assert (z = y) as -> by congruence.
        exists y'. split; [apply set_sym_lookup|done].
      + intros t N. simpl. rewrite lookup_insert_ne; [done|]. intros ->. apply N. by left.
      + intros t z Hz Ht. simpl. rewrite lookup_insert_ne; [done|]. congruence. }
  destruct G as (k1 & E1 & [S1 L1 O1 K1 N1]). rewrite (mthen_done _ _ _ _ _ E1).
  destruct (IH k1) as (k2 & E2 & [S2 L2 O2 K2 N2]).
  { intros t Ht. apply (setup_exists k); [done|]. apply Hl. by right. }
  exists k2. split; [done|]. split; [by eapply setup_trans| | |eauto|congruence].
  - intros t z Ht Hz N. destruct (decide (t = s)) as [->|Ne].
    + destruct (L1 s z) as (z1 & Hz1 & F1); [by left|done..|].
      destruct (decide (s ∈ l)) as [Hs|Hs]; [|exists z1; by rewrite O2].
      destruct (L2 s z1) as (z2 & Hz2 & F2); [done..| |exists z2; split; [done|by eapply forgotten_trans]].
      destruct F1 as (R1 & _). apply row_inv in R1 as (_ & _ & -> & _). done.
    + apply elem_of_cons in Ht as [->|Ht]; [done|].
      rewrite <-O1 in Hz; [|by intros ->%list_elem_of_singleton]. by apply (L2 t z).
  - intros t N. apply not_elem_of_cons in N as [N1' N2']. rewrite O2, O1; [done| |done].
    by intros ->%list_elem_of_singleton.
Qed.

(** ** Setting what the file says *)

Lemma load_item_setup i k : same_setup k (load_item i k).
Proof.
  destruct i as [l|s n t v]; [apply setup_refl|]. simpl. destruct (ks_syms k !! s) as [y|] eqn:H; [|apply setup_refl].
  simpl. split; try by destruct v. { by apply setting_table. }
  intros u z Hz. unfold setting_store. simpl. destruct (decide (u = s)) as [->|N].
  - rewrite lookup_insert_eq. assert (z = y) as -> by congruence. eexists. split_and!; [done|apply row_setting|].
    by destruct v.
  - rewrite lookup_insert_ne by done. exists z. split_and!; [done..|apply shape_refl].
Qed.
Lemma load_setup l k : same_setup k (load l k).
Proof.
  revert k. induction l as [|i l IH]; intros k; [apply setup_refl|]. simpl.
  eapply setup_trans; [apply load_item_setup|apply IH].
Qed.

Lemma with_setting_user v a y : user_of v (with_setting v a y) ∧ valid (with_setting v a y) = valid y.
Proof.
  unfold user_of, has_value, valid. destruct v as [t|x]; simpl; rewrite has_flag_cleared, has_flag_clear by done; eauto.
Qed.

Lemma load_sym l k s y : ks_syms k !! s = Some y →
  ∃ y', ks_syms (load l k) !! s = Some y' ∧
    match setting_of l s with Some v => user_of v y' ∧ valid y' = valid y | None => y' = y end.
Proof.
  revert k y. induction l as [|i l IH]; intros k y H; [by exists y|]. simpl.
  destruct i as [q|s' n t v]; simpl; [by apply IH|].
  destruct (ks_syms k !! s') as [y0|] eqn:H0.
  - simpl. destruct (decide (s' = s)) as [->|N].
    + assert (y0 = y) as -> by congruence.
      destruct (IH (setting_store s v y k) (with_setting v (ks_new_str k) y)) as (y' & H' & E).
      { unfold setting_store. simpl. by rewrite lookup_insert_eq. }
      destruct (with_setting_user v (ks_new_str k) y) as [Uv Vv].
      exists y'. split; [done|]. destruct (setting_of l s); [destruct E; split; [done|congruence]|]. by subst.
    + destruct (IH (setting_store s' v y0 k) y) as (y' & H' & E).
      { unfold setting_store. simpl. by rewrite lookup_insert_ne. }
      exists y'. split; [done|]. by destruct (setting_of l s).
  - simpl. destruct (IH k y H) as (y' & H' & E). exists y'. split; [done|].
    destruct (setting_of l s); [done|]. destruct (decide (s' = s)); [congruence|done].
Qed.
Lemma load_count l k : ks_change_count (load l k) = ks_change_count k.
Proof.
  revert k. induction l as [|i l IH]; intros k; [done|]. simpl. rewrite IH.
  destruct i as [q|s n t v]; [done|]. simpl. destruct (ks_syms k !! s); [by destruct v|done].
Qed.

Lemma setting_of_line l s v : setting_of l s = Some v → ∃ n t, Line s n t v ∈ l.
Proof.
  induction l as [|i l IH]; [done|]. destruct i as [q|s' n t w]; simpl.
  - intros (n & t & Hi)%IH. exists n, t. by right.
  - destruct (setting_of l s) as [x|].
    + intros [= ->]. destruct (IH eq_refl) as (n' & t' & Hi). exists n', t'. by right.
    + case_decide; [|done]. intros [= ->]. subst. exists n, t. by left.
Qed.
Lemma setting_of_none l s : setting_of l s = None ↔ s ∉ lines_of l.
Proof.
  induction l as [|i l IH]; [split; [by intros _ ?%elem_of_nil|done]|]. destruct i as [q|s' n t w]; [done|].
  cbn. fold (lines_of l). rewrite not_elem_of_cons, <-IH. destruct (setting_of l s); [split; [done|by intros [_ ?]]|].
  case_decide as D; split; [done|intros [E _]; congruence|intros _; split; congruence|done].
Qed.

(** ** [conf_read_simple] *)

(** What is known of a symbol after a file was read. *)
Definition set_from (l : list item) (s : sid) (y : symbol) : Prop :=
  match setting_of l s with Some v => user_of v y | None => has_value y = false end.

(** The store after the file [l] was read. *)
Record read_into (l : list item) (k k' : kstate) : Prop := {
  ri_ready : ready k';
  ri_setup : same_setup k k';
  ri_set : ∀ s y, ks_syms k' !! s = Some y → typed y → set_from l s y;
}.

Lemma typed_listed k s y : listed k → ks_syms k !! s = Some y → typed y → s ∈ hash_syms k.
Proof. intros Li H [T _]. by destruct (li_all k Li s y H). Qed.

Lemma item_typed k l s v : (∀ i, i ∈ l → item_ok k i) → setting_of l s = Some v →
  ∃ y, ks_syms k !! s = Some y ∧ setting_ok (sy_type y) v = true.
Proof.
  intros Hl (n & t & Hi)%setting_of_line. destruct (Hl _ Hi) as (_ & (y & H & <- & _) & _ & Hv & _). eauto.
Qed.
Lemma setting_typed y v : setting_ok (sy_type y) v = true → typed y.
Proof. unfold typed. by destruct (sy_type y), v. Qed.

(** Forgetting everything and setting what the file says leaves a store that
    can be calculated. *)
Lemma read_into_store l k k1 :
  ready k → listed k → (∀ i, i ∈ l → item_ok k i) → reset_run (hash_syms k) k k1 → read_into l k (load l k1).
Proof.
  intros [P Cv A] Li Hi [S Rl Ro Rk _]. set (k2 := load l k1).
  assert (S2 : same_setup k k2) by (eapply setup_trans; [done|apply load_setup]).
  assert (Sf : ∀ s y, ks_syms k2 !! s = Some y → typed y → set_from l s y ∧ valid y = false).
  { intros s y2 H2 T2. destruct (setup_back _ _ _ _ S2 H2) as (y & H & R & _).
    assert (T : typed y) by (unfold typed in *; by apply row_inv in R as (_ & _ & <- & _)).
    destruct (Rl s y (typed_listed k s y Li H T) H (proj2 T)) as (y1 & H1 & (_ & _ & _ & V1 & E1)).
    destruct (load_sym l k1 s y1 H1) as (z & Hz & E). assert (z = y2) as -> by (unfold k2 in H2; congruence).
    unfold set_from. destruct (setting_of l s); [destruct E; split; [done|congruence]|]. subst y2. split; [|done].
    rewrite E1. by apply (pl_choice k P s). }
  assert (Un : ∀ s y, ks_syms k !! s = Some y → sy_type y = S_OTHER ∨ s ∉ hash_syms k → ks_syms k2 !! s = Some y).
  { intros s y H Hs. assert (H1 : ks_syms k1 !! s = Some y).
    { destruct Hs as [Ht|Hs]; [by apply Rk|by rewrite Ro]. }
    destruct (load_sym l k1 s y H1) as (z & Hz & E). unfold k2. rewrite Hz. f_equal.
    destruct (setting_of l s) as [v|] eqn:Sv; [|done]. exfalso.
    destruct (item_typed k l s v Hi Sv) as (y' & H' & T%setting_typed). assert (y' = y) as -> by congruence.
    destruct Hs as [Ht|Hs]; [by destruct T|]. by apply Hs, (typed_listed k s y). }
  split; [split| |]; [| | |done|by intros; apply Sf].
  - apply (plain_setup k); [done| |done]. intros s y H T Hv.
    assert (Ty : typed y) by (unfold typed; destruct T as [-> |[-> | ->]]; done).
    destruct (Sf s y H Ty) as [F _]. unfold set_from in F. destruct (setting_of l s) as [v|] eqn:Sv; [|congruence].
    destruct (item_typed k l s v Hi Sv) as (z & Hz & Hok). destruct (setup_back _ _ _ _ S2 H) as (z' & Hz' & R & _).
    assert (z' = z) as -> by congruence. apply row_inv in R as (_ & _ & R & _). rewrite <-R in Hok.
    destruct F as [_ F]. destruct v as [t|x]; [|destruct F; eauto]. destruct T as [T|[T|T]]; rewrite T in Hok; done.
  - destruct (li_yes k Li) as [Y1 _], (li_mod k Li) as [M1 _], Cv as [(y & Hy & Vy) (z & Hz & Vz)].
    split; [exists y|exists z]; (split; [|done]); apply Un; auto.
  - intros s (y2 & H2 & V2). destruct (setup_back _ _ _ _ S2 H2) as (y & H & R & _).
    assert (Nt : ¬ typed y2) by (intros T; destruct (Sf s y2 H2 T); congruence).
    assert (Ty : sy_type y2 = S_UNKNOWN ∨ sy_type y2 = S_OTHER).
    { unfold typed in Nt. destruct (sy_type y2); auto; exfalso; apply Nt; split; done. }
    apply row_inv in R as (_ & _ & R & _). rewrite R in Ty.
    assert (E2 : ks_syms k2 !! s = Some y).
    { apply Un; [done|]. destruct Ty as [Ty|Ty]; [|by left]. right. intros Hs.
      destruct (Rl s y Hs H ltac:(congruence)) as (y1 & H1 & (_ & _ & _ & V1 & _)).
      destruct (load_sym l k1 s y1 H1) as (w & Hw & E). assert (w = y2) as -> by (unfold k2 in H2; congruence).
      destruct (setting_of l s); [destruct E|subst y2]; congruence. }
    assert (y2 = y) as -> by congruence.
    apply (untyped_solved k k2 s y y); [done..|]. apply A. by exists y.
Qed.

Lemma set_from_core l s y y' : sy_core y' = sy_core y → set_from l s y → set_from l s y'.
Proof.
  intros C. pose proof (sy_core_inv _ _ C) as (_ & _ & Eu & _ & _ & _ & Eh & _). unfold set_from, user_of.
  by rewrite Eh, Eu.
Qed.
Lemma read_into_calced l k k1 k2 : read_into l k k1 → calced k1 k2 → read_into l k k2.
Proof.
  intros [R S F] D. split.
  - by eapply calced_ready.
  - eapply setup_trans; [done|]. apply alike_setup. exact (f_equal (ks_set_change_count 0) (cd_core _ _ D)).
  - intros s y2 H2 T2. destruct (core_sym k2 k1 s y2 (eq_sym (cd_core _ _ D)) H2) as (y1 & H1 & C).
    eapply set_from_core; [symmetry; exact C|]. apply F; [done|]. by eapply typed_core.
Qed.

Section ReadSimple.
Context (getenv : string → option string) (gettext : string → string) (line0 : list ascii).
Hypothesis line0_size : length line0 = LINE.

(** There is no [~/.openwrt/defconfig]. *)
Definition no_defaults (c : conf) : Prop :=
  ∀ home, getenv "HOME" = Some home →
    zconf_fopen getenv (home +:+ LOCAL_BUILD_SETTINGS) c = Done (None, c).

Lemma conf_read_simple_run l c n :
  ready (cf_k c) → listed (cf_k c) → hash_ok (cf_k c) → no_defaults c →
  cf_files c !! n = Some (file_text l) → (∀ i, i ∈ l → item_ok (cf_k c) i) →
  ∃ c', conf_read_simple getenv gettext line0 (Some n) true c = Done (false, c') ∧
    read_into l (cf_k c) (cf_k c') ∧ cf_warnings c' = 0%Z ∧ cf_stderr c' = cf_stderr c ∧
    cf_lineno c' = Z.of_nat (length l).
Proof.
  intros R Li Ho Nd Hf Hi. unfold conf_read_simple.
  rewrite (mthen_done _ _ _ None c).
  2: { unfold no_defaults in Nd. destruct (getenv "HOME") as [home|]; [|done].
       rewrite (mthen_done _ _ _ _ _ (Nd home eq_refl)). done. }
  rewrite (mthen_done _ _ _ (Some n, Some (file_text l)) c).
  2: { rewrite (mthen_done _ _ _ (Some (file_text l)) c); [done|]. unfold zconf_fopen.
       by rewrite (mthen_done _ _ _ (Some (file_text l)) c) by (unfold fopen_r, mgets; by rewrite Hf). }
  set (c0 := cf_set_counts (Some n) 0 0 0 c).
  rewrite (mthen_done (mmodify _) _ _ () c0) by done.
  destruct (reset_list (hash_syms (cf_k c)) (cf_k c) (li_some _ Li)) as (k1 & E1 & R1).
  rewrite (mthen_done _ _ _ () (cf_set_k k1 c0)).
  2: { apply lift_done. unfold for_all_symbols. by rewrite (mthen_done _ _ _ (hash_syms (cf_k c)) (cf_k c0)) by done. }
  rewrite (mthen_done _ _ _ () (cf_set_k k1 c0)) by done.
  pose proof (ss_table _ _ (rr_setup _ _ _ R1)) as T1.
  rewrite (mthen_done _ _ _ () (loaded l (cf_set_k k1 c0))).
  2: { apply read_items; [by eapply table_ok| |done|lia]. intros i Hin. eapply item_ok_table; [done|by apply Hi]. }
  pose proof (read_into_store l (cf_k c) k1 R Li Hi R1) as Ri.
  rewrite (mthen_done (mgets _) _ _ (ks_modules_sym (load l k1)) (loaded l (cf_set_k k1 c0))) by done.
  destruct (ks_modules_sym (load l k1)) as [m|] eqn:Em.
  - destruct (runs_calc m (load l k1)) as ([] & k2 & E2 & D2 & _); [|apply Ri|].
    { apply (setup_exists _ _ _ (ri_setup _ _ _ Ri)), (li_modules _ Li). by rewrite <-(ss_modules _ _ (ri_setup _ _ _ Ri)). }
    rewrite (mthen_done _ _ _ () (cf_set_k k2 (loaded l (cf_set_k k1 c0)))) by (by apply lift_done).
    eexists. split; [done|]. simpl. split_and!; [by eapply read_into_calced|done..].
  - rewrite (mthen_done _ _ _ () (loaded l (cf_set_k k1 c0))) by done. eexists. split; [done|]. done.
Qed.
End ReadSimple.
