(* ===== verification/KConfValues.v ===== *)
(** * Values survive saving and loading

    A store that is read from a file made from another store of the same
    configuration calculates the values of that store. *)
From S2P Require Import Prelude CLib CStr KData KExpr KState KSymbol KSymFrame KSymRef KSymSolve KSymTab.
From S2P Require Import KSymUnique KSymSet KMenu KMenuTree KConf KConfText KConfLine KCalc KConfLoad KConfSave KConfFile KConfReset.
Open Scope pr30_scope.

(** Every symbol is calculated. *)
Definition all_solved (k : kstate) : Prop := ∀ s, is_Some (ks_syms k !! s) → solved k s.

(** The settings [l] are the values of [k], invisible symbols left out. *)
Definition saved_as (k : kstate) (l : list item) : Prop :=
  ∀ s y, ks_syms k !! s = Some y → typed y →
    match setting_of l s with Some v => v = setting_of_sym y | None => sy_visible y = No end.

(** The setting of [y] is the one [yf] has, or the value of [yf], or there is
    none and [yf] is invisible. *)
Definition keeps_setting (yf y : symbol) : Prop :=
  (has_value y = has_value yf ∧ sy_user y = sy_user yf) ∨ user_of (setting_of_sym yf) y ∨
  (has_value y = false ∧ sy_visible yf = No).

Lemma saved_keeps k l s yf y :
  saved_as k l → ks_syms k !! s = Some yf → typed yf → set_from l s y → keeps_setting yf y.
Proof.
  intros Sv Hf T Sf. specialize (Sv s yf Hf T). unfold set_from in Sf. right.
  destruct (setting_of l s) as [v|]; [subst v; by left|by right].
Qed.

(** The bounds of every range are in order. *)
Definition ranges_ok (k : kstate) : Prop :=
  ∀ s y p x a b base lo hi, ks_syms k !! s = Some y → p ∈ sy_prop y → ks_props k !! p = Some x →
    pr_expr x = Some (Erange a b) → sy_type y = S_INT ∧ base = 10%Z ∨ sy_type y = S_HEX ∧ base = 16%Z →
    ref_bound k a base = Some lo → ref_bound k b base = Some hi → (lo <= hi)%Z.

(** ** One symbol *)

Lemma solved_visible k s y : solved k s → ks_syms k !! s = Some y → typed y → ref_visible k y = Some (sy_visible y).
Proof.
  intros (z & Hz & _ & E) H [T1 T2]. assert (z = y) as -> by congruence. unfold equations in E.
  by destruct (sy_type y); try done; destruct E.
Qed.
Lemma boolean_visible k y v : ref_visible k y = Some v → sy_type y ≠ S_TRISTATE → v ≠ Mod.
Proof.
  unfold ref_visible. intros H N. opt_step H. opt_step H. injection H as <-. destruct b; [done|].
  case_decide as D; [done|]. intros ->. by apply D.
Qed.
Lemma prompts_text k l a v : ref_prompts k l a = Some v → v ≠ a →
  ∃ p x, p ∈ l ∧ ks_props k !! p = Some x ∧ is_Some (pr_text x).
Proof.
  revert a. induction l as [|p l IH]; intros a; simpl; [congruence|]. intros H N.
  destruct (ks_props k !! p) as [x|] eqn:Hx; [|done]. destruct (pr_text x) as [t|] eqn:Ht.
  - exists p, x. split_and!; [by left|done..].
  - destruct (IH a H N) as (q & z & Hq & Hz). exists q, z. split; [by right|done].
Qed.
Lemma visible_prompt k y v : ref_visible k y = Some v → v ≠ No →
  ∃ p x, p ∈ sy_prop y ∧ ks_props k !! p = Some x ∧ is_Some (pr_text x).
Proof.
  unfold ref_visible. destruct (ref_prompts k (sy_prop y) No) as [a|] eqn:E; [|done].
  destruct (ref_deselected k y) as [d|]; [|done]. intros [= <-] N. apply (prompts_text _ _ _ _ E).
  intros ->. apply N. destruct d; [done|]. case_decide as D; [by destruct D|done].
Qed.
Lemma boolean_rev k y v : ref_rev k y = Some v → sy_type y = S_BOOLEAN → v ≠ Mod.
Proof.
  unfold ref_rev. intros H N. opt_step H. injection H as <-. case_decide as D; [done|]. intros ->. by apply D.
Qed.

Lemma solved_bound k s base : solved k s → is_Some (ref_bound k s base).
Proof.
  intros S. destruct (solved_text k s S) as (y & _ & c & H & V & _ & E). unfold ref_bound.
  rewrite (ref_sym_Some _ _ _ H V), E. simpl. eauto.
Qed.

(** A number that was moved into its range stays there. *)
Lemma range_fixed k s y x t :
  plain k → all_solved k → ranges_ok k → ks_syms k !! s = Some y → ref_range k y x = Some t → ref_range k y t = Some t.
Proof.
  intros P Al Ro H. unfold ref_range.
  destruct (match sy_type y with S_INT => Some 10%Z | S_HEX => Some 16%Z | _ => None end) as [base|] eqn:Hb; [|done].
  destruct (ref_first k P_RANGE (sy_prop y)) as [[p|]|] eqn:F; [|done..].
  destruct (ref_first_In _ _ _ _ F) as (Hp & z & Hz & Tz). rewrite Hz.
  destruct (pr_expr z) as [[| | | | | | |a b]|] eqn:Ee; try done.
  destruct (ref_bound k a base) as [lo|] eqn:Hlo; [|done].
  pose proof (ref_bound_int32 _ _ _ _ Hlo) as Ilo.
  assert (Pr : ∀ v, int32 v → strtoi (match sy_type y with S_INT => print_d v | _ => "0x" +:+ print_x v end) base = v).
  { intros v Iv. destruct (sy_type y); try done; injection Hb as <-; [by apply strtoi_print_d|by apply strtoi_print_x]. }
  assert (Rb : is_Some (ref_bound k b base)).
  { apply solved_bound, Al, (pl_reads k P s). eapply reads_prop; eauto. unfold prop_reads. rewrite Tz, Ee.
    apply elem_of_app. right. right. by left. }
  destruct Rb as [hi Hhi]. rewrite Hhi.
  pose proof (ref_bound_int32 _ _ _ _ Hhi) as Ihi. pose proof (Ro s y p z a b base lo hi H Hp Hz Ee) as Le.
  specialize (Le ltac:(destruct (sy_type y); simplify_eq; auto) Hlo Hhi).
  destruct (Z.leb_spec lo (strtoi x base)) as [L1|L1]; [destruct (Z.leb_spec (strtoi x base) hi) as [L2|L2]|];
    intros [= <-]; rewrite ?Pr by done.
  - rewrite (proj2 (Z.leb_le _ _) L1). by rewrite (proj2 (Z.leb_le _ _) L2).
  - rewrite (proj2 (Z.leb_le _ _) Le). by rewrite Z.leb_refl.
  - rewrite Z.leb_refl. by rewrite (proj2 (Z.leb_le _ _) Le).
Qed.

Section One.
Context (kf k4 : kstate) (s : sid) (yf y4 : symbol).
Context (Ag : agree (reads k4 s) k4 kf) (Hf : ks_syms kf !! s = Some yf) (H4 : ks_syms k4 !! s = Some y4).
Context (Sh : same_shape yf y4) (Sf : solved kf s) (S4 : solved k4 s).
Context (Ks : typed yf → keeps_setting yf y4).

Let Hy t (Ht : t ∈ sym_reads k4 y4) : reads k4 s t := ex_intro _ y4 (conj H4 Ht).

Lemma one_typed : typed yf ↔ typed y4.
Proof using Sh. destruct Sh as (E & _). unfold typed. by rewrite E. Qed.

Lemma one_visible : typed yf → sy_visible yf = sy_visible y4.
Proof using Ag Hf H4 Sh Sf S4.
  intros T. pose proof (solved_visible k4 s y4 S4 H4 (proj1 one_typed T)) as V4.
  apply (ref_visible_stable _ _ _ Ag y4 Hy) in V4. pose proof (solved_visible kf s yf Sf Hf T) as Vf.
  destruct (shape_ref kf yf y4 Sh) as (Ev & _). congruence.
Qed.

(** The value of a boolean or tristate symbol is a fixed point: as a setting it
    gives itself. *)
Lemma logic_fixed d vis rev base t :
  (d = false → t = S_BOOLEAN → vis ≠ Mod ∧ rev ≠ Mod) → d = false →
  let fix_mod x := if decide (x = Mod ∧ t = S_BOOLEAN) then Yes else x in
  let v := fix_mod (tri_or (tri_and base vis) rev) in
  fix_mod (tri_or (tri_and v vis) rev) = v.
Proof.
  intros N ->. specialize (N eq_refl). cbv zeta. destruct (decide (t = S_BOOLEAN)) as [->|Nt].
  - destruct (N eq_refl). destruct base, vis, rev; solve [congruence|reflexivity].
  - assert (F : ∀ x, (if decide (x = Mod ∧ t = S_BOOLEAN) then Yes else x) = x)
      by (intros x; case_decide as D; [by destruct D|done]).
    rewrite !F. by destruct base, vis, rev.
Qed.

Lemma one_logic : sy_type yf = S_BOOLEAN ∨ sy_type yf = S_TRISTATE → sv_tri (sy_curr yf) = sv_tri (sy_curr y4).
Proof using Ag Hf H4 Sh Sf S4 Ks.
  intros T. assert (Ty : typed yf) by (unfold typed; destruct T as [-> | ->]; done).
  destruct (unique_bounds kf k4 s yf y4 Ag Hf H4 Sh Sf S4 T) as (Ev & d & Df & D4 & Er).
  destruct (shape_ref kf yf y4 Sh) as (Evi & _ & Erv & Edf). pose proof Sh as (Et & _).
  pose proof (solved_visible kf s yf Sf Hf Ty) as Vf.
  assert (Gf : ref_logic kf yf = Some (sv_tri (sy_curr yf)) ∧
    (d = false → ref_rev kf yf = Some (sy_rev_dep_tri yf))).
  { destruct Sf as (z & Hz & _ & E). assert (z = yf) as -> by congruence. unfold equations in E.
    destruct T as [T|T]; rewrite T in E; destruct E as (_ & R & L & _); (split; [done|]); intros ->; auto. }
  assert (G4 : ref_logic kf y4 = Some (sv_tri (sy_curr y4))).
  { destruct S4 as (z & Hz & _ & E). assert (z = y4) as -> by congruence. unfold equations in E.
    apply (ref_logic_stable _ _ _ Ag y4 Hy). rewrite <-Et in E. destruct T as [T|T]; rewrite T in E; apply E. }
  destruct Gf as [Gf Gr]. unfold ref_logic in Gf, G4. rewrite Df in Gf. rewrite D4, <-Ev, <-Et, <-Edf in G4.
  destruct d; [congruence|]. rewrite <-(Er eq_refl) in G4.
  case_decide as Z; [congruence|].
  destruct (if has_value yf then Some (sv_tri (sy_user yf)) else ref_default kf yf) as [b|] eqn:Bf; [|done].
  apply (inj Some) in Gf. destruct (Ks Ty) as [[Hv Hu]|[[Hv Hu]|[Hv Hn]]]; rewrite Hv in G4.
  - rewrite Hu, Bf in G4. congruence.
  - assert (Hu' : sv_tri (sy_user y4) = sv_tri (sy_curr yf)).
    { unfold setting_of_sym in Hu. by destruct T as [T|T]; rewrite T in Hu. }
    apply (inj Some) in G4. rewrite Hu', <-Gf in G4. rewrite <-G4, <-Gf. symmetry.
    apply (logic_fixed false); [|done]. intros _ Tb. split.
    + eapply boolean_visible; [exact Vf|congruence].
    + eapply boolean_rev; [by apply Gr|done].
  - destruct (ref_default kf yf) as [b'|]; [|done]. apply (inj Some) in G4. rewrite Hn in *.
    rewrite <-Gf, <-G4. by destruct b, b', (sy_rev_dep_tri yf).
Qed.

Lemma one_string :
  plain kf → all_solved kf → ranges_ok kf →
  sy_type yf = S_STRING ∨ sy_type yf = S_INT ∨ sy_type yf = S_HEX →
  ∃ c c', sy_curr yf = SValue (VStr c) No ∧ sy_curr y4 = SValue (VStr c') No ∧ cs_text c = cs_text c'.
Proof using Ag Hf H4 Sh Sf S4 Ks.
  intros P Al Ro T. assert (Ty : typed yf) by (unfold typed; destruct T as [-> |[-> | ->]]; done).
  pose proof (one_visible Ty) as Ev. pose proof Sh as (Et & Ep & _).
  assert (Gf : ∃ c, sy_curr yf = SValue (VStr c) No ∧ ref_string kf yf = Some (cs_text c)).
  { destruct Sf as (z & Hz & _ & E). assert (z = yf) as -> by congruence. unfold equations in E.
    destruct T as [T|[T|T]]; rewrite T in E; apply E. }
  assert (G4 : ∃ c, sy_curr y4 = SValue (VStr c) No ∧ ref_string kf y4 = Some (cs_text c)).
  { destruct S4 as (z & Hz & _ & E). assert (z = y4) as -> by congruence. unfold equations in E. rewrite <-Et in E.
    assert (G : ∃ c, sy_curr y4 = SValue (VStr c) No ∧ ref_string k4 y4 = Some (cs_text c))
      by (destruct T as [T|[T|T]]; rewrite T in E; apply E).
    destruct G as (c & Ec & G). exists c. split; [done|]. by apply (ref_string_stable _ _ _ Ag y4 Hy). }
  destruct Gf as (c & Ec & Gf), G4 as (c' & Ec' & G4). exists c, c'. split_and!; [done..|].
  assert (Er : ∀ t, ref_range kf y4 t = ref_range kf yf t) by (intros t; unfold ref_range; by rewrite Et, Ep).
  unfold ref_string in Gf, G4. destruct (ref_plain kf yf) as [pf|] eqn:Pf; [|done].
  destruct (ref_plain kf y4) as [p4|] eqn:P4; [|done]. rewrite Er in G4. unfold ref_plain in Pf, P4.
  rewrite <-Ev, <-Ep in P4. destruct (decide (sy_visible yf = No)) as [N|N].
  - rewrite bool_decide_eq_false_2 in Pf, P4 by (by intros []). simpl in Pf, P4. congruence.
  - rewrite bool_decide_eq_true_2 in Pf, P4 by done.
    destruct (Ks Ty) as [[Hv Hu]|[[Hv Hu]|[Hv Hn]]]; rewrite Hv in P4; [rewrite Hu in P4; congruence| |done]. cbn [andb] in P4.
    assert (Hu' : ∃ a, sv_val (sy_user y4) = VStr (CStr a (cs_text c))).
    { unfold setting_of_sym in Hu. rewrite Ec in Hu. by destruct T as [T|[T|T]]; rewrite T in Hu. }
    destruct Hu' as (a & Hu'). rewrite Hu' in P4. simpl in P4. injection P4 as <-.
    rewrite (range_fixed kf s yf pf (cs_text c) P Al Ro Hf Gf) in G4. congruence.
Qed.

Lemma one_value : plain kf → all_solved kf → ranges_ok kf → sy_name yf = sy_name y4 → val_eq y4 yf.
Proof using Ag Hf H4 Sh Sf S4 Ks.
  intros P Al Ro En. pose proof Sh as (Et & _). unfold val_eq, string_value. split; [done|].
  assert (Lg : sy_type yf = S_BOOLEAN ∨ sy_type yf = S_TRISTATE → sv_val (sy_curr yf) = VStr lit_n ∧ sv_val (sy_curr y4) = VStr lit_n).
  { intros T. destruct Sf as (z & Hz & _ & E), S4 as (z4 & Hz4 & _ & E4). assert (z = yf) as -> by congruence.
    assert (z4 = y4) as -> by congruence. unfold equations in E, E4. rewrite <-Et in E4.
    destruct T as [T|T]; rewrite T in E, E4; split; apply E || apply E4. }
  assert (Un : sy_type yf = S_UNKNOWN ∨ sy_type yf = S_OTHER → sy_curr yf = sy_curr y4).
  { intros T. destruct Sf as (z & Hz & _ & E), S4 as (z4 & Hz4 & _ & E4). assert (z = yf) as -> by congruence.
    assert (z4 = y4) as -> by congruence. unfold equations in E, E4. rewrite <-Et in E4.
    destruct T as [T|T]; rewrite T in E, E4; destruct E as (c & N & ->), E4 as (c' & N' & ->); congruence. }
  rewrite <-Et. destruct (sy_type yf) eqn:T.
  - by rewrite Un by auto.
  - destruct Lg as [-> ->]; [auto|]. by rewrite one_logic by auto.
  - destruct Lg as [-> ->]; [auto|]. by rewrite one_logic by auto.
  - destruct one_string as (c & c' & -> & -> & E); auto. simpl. by rewrite E.
  - destruct one_string as (c & c' & -> & -> & E); auto. simpl. by rewrite E.
  - destruct one_string as (c & c' & -> & -> & E); auto. simpl. by rewrite E.
  - by rewrite Un by auto.
Qed.
End One.

(** ** All symbols *)

Lemma setup_agree_prop kf k4 : same_setup kf k4 → pr_core <$> ks_props kf = pr_core <$> ks_props k4.
Proof. intros S. symmetry. apply S. Qed.

Section All.
Context (kf k4 : kstate).
Context (Pf : plain kf) (P4 : plain k4) (Al : all_solved kf) (Ro : ranges_ok kf) (S : same_setup kf k4).
Context (V4 : valid_solved k4).
Context (Ks : ∀ s yf y, ks_syms kf !! s = Some yf → ks_syms k4 !! s = Some y → typed yf → keeps_setting yf y).

Lemma all_agree s : agree (reads k4 s) k4 kf.
Proof using All.
  induction (plain_sn k4 s P4) as [s _ IH]. split; [|by apply setup_agree_prop].
  intros t y4 Ht Hs. destruct (ref_sym_valid _ _ _ Hs) as [Vt H4].
  destruct (setup_back kf k4 t y4 S H4) as (yf & Hf & R & Sh). apply row_inv in R as (En & _).
  assert (Sf : solved kf t) by eauto. exists yf. split.
  - apply ref_sym_Some; [done|]. destruct Sf as (z & ? & ? & _). congruence.
  - eapply (one_value kf k4 t); eauto using shape_sym.
Qed.

Lemma all_values s y4 : ks_syms k4 !! s = Some y4 → valid y4 = true → ∃ yf, ks_syms kf !! s = Some yf ∧ val_eq y4 yf.
Proof using All.
  intros H4 V. destruct (setup_back kf k4 s y4 S H4) as (yf & Hf & R & Sh). apply row_inv in R as (En & _).
  exists yf. split; [done|]. eapply (one_value kf k4 s); eauto using shape_sym, all_agree.
  apply V4. by exists y4.
Qed.
End All.
