(* ===== verification/KConfRound.v ===== *)
(** * Saving and loading

    What [conf_write] leaves in the file is what the store holds, and
    [conf_read_simple] takes it back. *)
From S2P Require Import Prelude CLib CStr KData KExpr KState KSymbol KSymFrame KSymRef KSymSolve KSymTab KSymUnique KSymSet.
From S2P Require Import KMenu KMenuTree KConf KConfText KConfLine KCalc KConfLoad KConfSave KConfFile KConfReset KConfValues.
From Stdlib Require Import Ascii.
Open Scope pr30_scope.

(** ** Stores that differ in what is calculated *)

Lemma alike_sym_eq k k' : alike k k' → alike k' k.
Proof. by unfold alike. Qed.

Lemma alike_plain k k' : alike k k' → plain k → plain k'.
Proof.
  intros A P. assert (E : k' = ks_set_change_count (ks_change_count k') (ks_set_change_count 0 k')) by (by destruct k').
  rewrite E. apply plain_count. eapply plain_core; [exact A|by apply plain_count].
Qed.

Section Alike.
Context (kf k : kstate) (Al : all_solved kf) (A : alike kf k) (R : ready k).

Lemma alike_agree s : agree (reads k s) k kf.
Proof using All.
  apply (unique_agree (λ _, False)); [apply R| |done|by apply R|done].
  split; [symmetry; exact (f_equal ks_props A)|]. intros t y H.
  destruct (alike_sym k kf t y (alike_sym_eq _ _ A) H) as (z & Hz & C). exists z.
  split_and!; [done|by apply core_row in C as [_ C]|done].
Qed.

(** Valid symbols have the value and the visibility they have when everything
    is calculated. *)
Lemma alike_value s y : ks_syms k !! s = Some y → valid y = true →
  ∃ yf, ks_syms kf !! s = Some yf ∧ sy_core yf = sy_core y ∧ val_eq y yf ∧ (typed y → sy_visible yf = sy_visible y).
Proof using All.
  intros H V. destruct (alike_sym k kf s y (alike_sym_eq _ _ A) H) as (yf & Hf & C).
  assert (S : solved k s) by (apply R; by exists y). assert (Sf : solved kf s) by eauto.
  pose proof (alike_agree s) as Ag. exists yf. split_and!; [done..|by eapply (unique_value kf k s)|].
  intros T. eapply (one_visible kf k s); eauto; [by apply core_row in C as [_ C]|by eapply typed_core].
Qed.

Lemma alike_setting s y yf : ks_syms k !! s = Some y → valid y = true → ks_syms kf !! s = Some yf → typed y →
  item_of s yf = item_of s y.
Proof using All.
  intros H V Hf [T1 T2]. destruct (alike_value s y H V) as (z & Hz & C & (Et & Ev & Ex & _) & _).
  assert (z = yf) as -> by congruence.
  assert (S : solved k s) by (apply R; by exists y). assert (Sf : solved kf s) by eauto.
  pose proof (sy_core_inv _ _ C) as (En & _). unfold item_of, name_of. rewrite En, Et. f_equal.
  unfold setting_of_sym. unfold string_value in Ex. rewrite Et in Ex |- *.
  destruct Sf as (z1 & Hz1 & _ & E1), S as (z2 & Hz2 & _ & E2). assert (z1 = yf) as -> by congruence.
  assert (z2 = y) as -> by congruence. unfold equations in E1, E2. rewrite Et in E1.
  destruct (sy_type y); try done; try by rewrite Ev.
  all: destruct E1 as (_ & c1 & G1 & _), E2 as (_ & c2 & G2 & _); rewrite G1, G2 in Ex |- *; simpl in Ex |- *; congruence.
Qed.
End Alike.

(** ** Saving *)

Section Round.
Context (getenv : string → option string) (gettext : string → string) (ctime : string) (pid : Z)
  (writable : string → bool) (line0 : list ascii).
Hypothesis line0_size : length line0 = LINE.

(** A configuration that can be written and read again: [kf] is the store with
    everything calculated, [l] the entries of the menu. *)
Record storable (k kf : kstate) (l : list mid) : Prop := {
  sb_plain : plain k;
  sb_hash : hash_ok k;
  sb_listed : listed k;
  sb_modules : modules_set k;
  sb_tree : ∃ x, ks_menus k !! rootmenu = Some x ∧ mn_parent x = None ∧ mn_next x = None ∧
    chain k rootmenu (mn_list x) l ∧ NoDup (rootmenu :: l);
  sb_entry : ∀ m, m ∈ l → entry_ok gettext k m;
  sb_prompt : ∀ s y p x, ks_syms k !! s = Some y → p ∈ sy_prop y → ks_props k !! p = Some x →
    is_Some (pr_text x) → ∃ m, m ∈ l ∧ sym_of k m = Some s;
  sb_alike : alike k kf;
  sb_solved : all_solved kf;
  sb_ranges : ranges_ok kf;
  sb_line : ∀ m s y, m ∈ l → sym_of k m = Some s → ks_syms kf !! s = Some y →
    entry k (name_of y) false s ∧ line_fits y = true;
  sb_version : ∃ v y, entry k "OPENWRTVERSION" false v ∧ ks_syms kf !! v = Some y ∧
    header_ok getenv gettext ctime (val_text (string_value y));
}.

Lemma storable_savable k kf l : storable k kf l → savable getenv gettext ctime k l.
Proof.
  intros S. pose proof S as [P H L M T E Pr A So Ra Li Ve]. split; try done.
  destruct Ve as (v & y & Ev & Hv & Hh). exists v. split_and!; [done| |].
  - destruct (alike_sym kf k v y (alike_sym_eq _ _ A) Hv) as (z & Hz & _). eauto.
  - intros k' y' A' R (z & Hz & Vz) H'. assert (z = y') as -> by congruence.
    assert (Af : alike kf k') by (eapply alike_trans; [by apply alike_sym_eq|done]).
    destruct (alike_value kf k' So Af R v y' H' Vz) as (yf & Hf & _ & (_ & _ & Ex & _) & _).
    assert (yf = y) as -> by congruence.
    destruct (solved_text k' v) as (? & c & ? & ? & _ & E1 & _); [apply R; by exists y'|].
    destruct (solved_text kf v) as (? & c' & ? & ? & _ & E2 & _); [eauto|]. simplify_eq.
    rewrite E1, E2 in Ex. rewrite E2 in Hh. rewrite E1. simpl in *. congruence.
Qed.

(** What was written is what the store holds. *)
Lemma write_saved k kf l its k' :
  storable k kf l → alike k k' → ready k' → (∀ i, i ∈ its → tells k' i) →
  (∀ m s, m ∈ l → sym_of k m = Some s → settled (lines_of its) k' s) → saved_as kf its.
Proof.
  intros S A' R' Tl Se s yf Hf Ty. pose proof (sb_alike _ _ _ S) as A. pose proof (sb_solved _ _ _ S) as So.
  assert (Af : alike kf k') by (eapply alike_trans; [by apply alike_sym_eq|done]).
  destruct (setting_of its s) as [v|] eqn:Ev.
  - apply setting_of_line in Ev as (n & t & Hi). destruct (Tl _ Hi) as (y & H & V & T & E).
    rewrite <-(alike_setting kf k' So Af R' s y yf H V Hf T) in E. by injection E as _ _ ->.
  - apply setting_of_none in Ev. destruct (decide (sy_visible yf = No)) as [|N]; [done|]. exfalso.
    destruct (visible_prompt kf yf (sy_visible yf)) as (p & q & Hp & Hq & Tq); [eapply (solved_visible kf s); eauto|done|].
    destruct (alike_sym kf k s yf (alike_sym_eq _ _ A) Hf) as (y0 & H0 & C0).
    destruct (alike_prop kf k p q (alike_sym_eq _ _ A) Hq) as (q0 & Hq0 & Cq).
    destruct (sb_prompt _ _ _ S s y0 p q0 H0) as (m & Hm & Hs); [|done| |].
    { by pose proof (sy_core_inv _ _ C0) as (_ & _ & _ & -> & _). }
    { by pose proof (pr_core_inv _ _ Cq) as (_ & -> & _). }
    destruct (Se m s Hm Hs) as [(y & H & V) [|(z & Hz & Nz)]]; [done|]. assert (z = y) as -> by congruence.
    destruct (alike_value kf k' So Af R' s y H V) as (z & Hz' & C & _ & Vi).
    assert (z = yf) as -> by congruence.
    apply N. rewrite Vi; [done|]. by apply (typed_core yf y (eq_sym C)).
Qed.

Lemma written_ok k kf l its k' :
  storable k kf l → alike k k' → ready k' → (∀ i, i ∈ its → tells k' i) →
  lines_of its `sublist_of` omap (sym_of k) l → ∀ i, i ∈ its → item_ok k' i.
Proof.
  intros S A' R' Tl Ml i Hi. specialize (Tl i Hi). destruct i as [q|s n t v]; [done|].
  destruct Tl as (y & H & V & T & E). pose proof (sb_alike _ _ _ S) as A.
  assert (Af : alike kf k') by (eapply alike_trans; [by apply alike_sym_eq|done]).
  assert (Hs : s ∈ omap (sym_of k) l).
  { eapply elem_of_sublist; [|exact Ml]. apply list_elem_of_omap. exists (Line s n t v). by split. }
  apply list_elem_of_omap in Hs as (m & Hm & Hs).
  destruct (alike_value kf k' (sb_solved _ _ _ S) Af R' s y H V) as (yf & Hf & C & _).
  destruct (sb_line _ _ _ S m s yf Hm Hs Hf) as [He Hl].
  pose proof (alike_setting kf k' (sb_solved _ _ _ S) Af R' s y yf H V Hf T) as Ei. rewrite <-Ei in E.
  unfold line_fits in Hl. rewrite !andb_true_iff, Nat.leb_le in Hl. destruct Hl as [[L1 L2] L3].
  injection E as -> -> ->. split_and!; [| |done..].
  - by apply (table_entry _ _ _ _ _ (ss_table _ _ (alike_setup _ _ A'))).
  - exists y. unfold item_of in Ei. injection Ei as _ Et _. split_and!; [done..|].
    by eapply (pl_choice k' (re_plain _ R') s y).
Qed.

(** The text of a symbol in the reply to the user. *)
Definition value_in (k : kstate) (s : sid) : option (symbol_type * tristate * option string) :=
  y ← ks_syms k !! s; Some (sy_type y, sv_tri (sy_curr y), cval_text (string_value y)).
Lemma value_in_eq k1 k2 s y1 y2 :
  ks_syms k1 !! s = Some y1 → ks_syms k2 !! s = Some y2 → val_eq y1 y2 → value_in k1 s = value_in k2 s.
Proof. intros H1 H2 (E1 & E2 & E3 & _). unfold value_in. rewrite H1, H2. simpl. by rewrite E1, E2, E3. Qed.

Lemma count_alike n k : alike k (ks_set_change_count n k).
Proof. done. Qed.

(** There is no [~/.openwrt/defconfig]. *)
Definition no_default_file (c : conf) : Prop := ∀ home, getenv "HOME" = Some home →
  char_at home = "/"%char ∧ cf_files c !! (home +:+ LOCAL_BUILD_SETTINGS) = None ∧
  home +:+ LOCAL_BUILD_SETTINGS ∉ cf_dirs c.

Lemma no_default_file_run c : no_default_file c → no_defaults getenv c.
Proof.
  intros N home Hh. destruct (N home Hh) as (Hc & Hf & Hd). unfold zconf_fopen.
  rewrite (mthen_done _ _ _ None c) by (unfold fopen_r, mgets; rewrite Hf; by rewrite decide_False).
  destruct home as [|ch home]; [done|]. simpl in Hc. by subst ch.
Qed.
Lemma no_default_file_kept c c' : cf_dirs c' = cf_dirs c →
  (∀ f, char_at f ≠ "."%char → cf_files c' !! f = cf_files c !! f) → no_default_file c → no_default_file c'.
Proof.
  intros Ed Ef N home Hh. destruct (N home Hh) as (Hc & Hf & Hd). rewrite Ed, Ef; [done|].
  destruct home as [|ch home]; [done|]. simpl in Hc. by subst ch.
Qed.

(** Reading what was saved. *)
Lemma load_values c1 k kf l its k' n :
  storable k kf l → alike k k' → ready k' → cf_k c1 = ks_set_change_count 0 k' → no_default_file c1 →
  cf_files c1 !! n = Some (file_text its) → saved_as kf its → (∀ i, i ∈ its → item_ok k' i) →
  ∃ c2, conf_read_simple getenv gettext line0 (Some n) true c1 = Done (false, c2) ∧
    cf_warnings c2 = 0%Z ∧ cf_stderr c2 = cf_stderr c1 ∧
    ∀ s, is_Some (ks_syms k !! s) →
      ∃ k3, sym_calc_value s (cf_k c2) = Done ((), k3) ∧ value_in k3 s = value_in kf s.
Proof using line0_size.
  intros S A R K1 Nd F1 Sv Ok. set (k1 := ks_set_change_count 0 k') in *.
  assert (R1 : ready k1).
  { destruct R as [P Cv V]. destruct (count_ok 0 k' (conj Cv V)). split; [by apply plain_count|done..]. }
  assert (A1 : alike k k1) by done. pose proof (alike_setup _ _ A1) as Se1.
  destruct (conf_read_simple_run getenv gettext line0 line0_size its c1 n) as (c2 & E2 & Ri & W2 & St2 & _);
    rewrite ?K1; try done.
  { eapply listed_setup; [done|apply S]. } { eapply table_ok; [apply Se1|apply S]. } { by apply no_default_file_run. }
  exists c2. split_and!; [done..|]. intros s Hs. rewrite K1 in Ri.
  assert (Hs2 : is_Some (ks_syms (cf_k c2) !! s)) by (eapply setup_exists; [apply Ri|]; by eapply setup_exists).
  destruct (runs_calc s (cf_k c2) Hs2 (ri_ready _ _ _ Ri)) as ([] & k3 & E3 & D3 & (y3 & H3 & V3)).
  exists k3. split; [done|]. pose proof (read_into_calced _ _ _ _ Ri D3) as [R3 S3 F3].
  assert (Sf : same_setup kf k3).
  { eapply setup_trans; [|exact S3]. eapply setup_trans; [|exact Se1]. apply setup_sym, alike_setup, S. }
  assert (Pf : plain kf) by (eapply alike_plain; apply S).
  destruct (all_values kf k3 Pf (re_plain _ R3) (sb_solved _ _ _ S) (sb_ranges _ _ _ S) Sf (re_solved _ R3)) with s y3
    as (yf & Hf & Ve); [|done..|by eapply value_in_eq].
  intros t yt y Ht Hy Ty. apply (saved_keeps kf its t); [done..|]. apply F3; [done|].
  destruct (ss_sym _ _ Sf t yt Ht) as (z & Hz & _ & (Et & _)). assert (z = y) as -> by congruence. unfold typed. by rewrite Et.
Qed.

(** Saved, loaded, calculated: the values are the old ones. *)
Lemma save_load c kf l :
  storable (cf_k c) kf l → savable_now (cf_k c) → writable (newname pid) = true → conf_def_filename ∉ cf_dirs c →
  no_default_file c →
  ∃ c1 c2, conf_write getenv gettext ctime pid writable None c = Done (false, c1) ∧
    conf_read_simple getenv gettext line0 (Some conf_def_filename) true c1 = Done (false, c2) ∧
    cf_warnings c2 = 0%Z ∧ cf_stderr c2 = cf_stderr c1 ∧
    ∀ s, is_Some (ks_syms (cf_k c) !! s) →
      ∃ k3, sym_calc_value s (cf_k c2) = Done ((), k3) ∧ value_in k3 s = value_in kf s.
Proof using line0_size.
  intros S N Hw Hd Nd.
  destruct (conf_write_run getenv gettext ctime pid writable l c (storable_savable _ _ _ S) N Hw Hd)
    as (its & k' & c1 & E1 & F1 & K1 & D1 & Fr & A1 & R1 & T1 & U1 & B1 & Z1).
  destruct (load_values c1 (cf_k c) kf l its k' conf_def_filename) as (c2 & E2 & W2 & St2 & V2); try done.
  - by eapply no_default_file_kept.
  - by eapply write_saved.
  - by eapply written_ok.
  - exists c1, c2. done.
Qed.
End Round.
