(* ===== verification/KConfSafe.v ===== *)
(** * Reading an arbitrary file

    Whatever bytes a file holds, [conf_read_file] ends, stays inside its array
    and leaves a well-formed store: only settings change, and a setting of a
    string or number is a string that is valid for it. *)
From S2P Require Import Prelude CLib CStr KData KExpr KState KSymbol KSymFrame KSymRef KSymTab KSymUnique KSymSet KMenu KMenuInv.
From S2P Require Import KConf KConfText KConfLine KConfLoad KCalc KConfSave KConfReset.
From Stdlib Require Import Ascii.
Open Scope pr30_scope.

(** ** The array *)

(** [line] with a 0 in its last cell. *)
Definition ended (line : list ascii) : Prop := length line = LINE ∧ line !! 1023 = Some NUL.

Lemma ended_drop line i : ended line → i ≤ 1023 → drop i line !! (1023 - i) = Some NUL.
Proof. intros [_ H] Hi. rewrite lookup_drop. by replace (i + (1023 - i)) with 1023 by lia. Qed.
Lemma ended_nul line p : ended line → ended (put_nul line p).
Proof.
  intros [L H]. unfold put_nul. split; [by rewrite length_insert|].
  destruct (decide (p = 1023)) as [->|N]; [|by rewrite list_lookup_insert_ne].
  apply list_lookup_insert_eq. rewrite L. unfold LINE. lia.
Qed.

Lemma fgets_ended line text : length line = LINE → (line !! 1023 = Some NUL) → text ≠ EmptyString →
  ∃ line' rest, fgets line text = Some (line', rest) ∧ ended line' ∧ String.length rest < String.length text.
Proof.
  intros L H N. unfold fgets. destruct text as [|c text]; [done|].
  assert (Le : length line - 1 = 1023) by (rewrite L; done). rewrite Le.
  destruct (fgets_take 1023 (String c text)) as [l rest] eqn:E. destruct (fgets_take_le _ _ _ _ E) as [Hl Ht].
  exists (l ++ NUL :: drop (S (length l)) line), rest. split; [done|].
  pose proof (fgets_take_pos _ _ _ _ _ E) as P.
  split; [|simpl in Ht |- *; lia]. split.
  - rewrite length_app. cbn [length]. rewrite length_drop, L. unfold LINE. lia.
  - destruct (decide (length l = 1023)) as [El|Nl].
    + rewrite lookup_app_r, El by lia. done.
    + rewrite lookup_app_r by lia. replace (1023 - length l) with (S (1022 - length l)) by lia. cbn [lookup list_lookup].
      change (drop (S (length l)) line !! (1022 - length l) = Some NUL). rewrite lookup_drop.
      by replace (S (length l) + (1022 - length l)) with 1023 by lia.
Qed.

(** ** The store *)

Definition text_type (t : symbol_type) : Prop := t = S_STRING ∨ t = S_INT ∨ t = S_HEX.

(** Settings of strings and numbers are strings that are valid for them. *)
Definition well_set (y : symbol) : Prop :=
  has_value y = true → text_type (sy_type y) →
  ∃ c, sv_val (sy_user y) = VStr c ∧ string_valid (sy_type y) (cs_text c) = true.
Definition user_typed (k : kstate) : Prop := ∀ s y, ks_syms k !! s = Some y → well_set y.

(** A value of a choice knows its choice. *)
Definition choices_known (k : kstate) : Prop := ∀ s y, ks_syms k !! s = Some y → is_choice_value y = true →
  ∃ p x cs cy, choice_prop k (sy_prop y) = Some p ∧ ks_props k !! p = Some x ∧ pr_expr x = Some (Esymbol cs) ∧
    ks_syms k !! cs = Some cy ∧ ¬ text_type (sy_type cy).

(** A store that a file can be read into. *)
Record readable (k : kstate) : Prop := {
  rd_hash : hash_ok k;
  rd_consts : ∀ s, s ∈ [symbol_yes; symbol_mod; symbol_no] → is_Some (ks_syms k !! s);
  rd_choice : choices_known k;
  rd_user : user_typed k;
}.

Lemma readable_setup k k' : same_setup k k' → user_typed k' → readable k → readable k'.
Proof.
  intros S U [H C Ch _]. split; [eapply table_ok; [apply S|done]| | |done].
  - intros s Hs. apply (setup_exists k); auto.
  - intros s y' H' V. destruct (setup_back _ _ _ _ S H') as (y & Hy & R & (_ & Ep & _)).
    apply row_inv in R as (_ & _ & _ & _ & R). destruct (Ch s y Hy) as (p & x & cs & cy & E & Hx & Ex & Hc & T); [congruence|].
    assert (L : ∀ q, pr_core <$> ks_props k' !! q = pr_core <$> ks_props k !! q)
      by (intros q; by rewrite <-!lookup_fmap, (ss_prop _ _ S)).
    pose proof (L p) as Lp. rewrite Hx in Lp. destruct (ks_props k' !! p) as [x'|] eqn:Hx'; [|done].
    destruct (ss_sym _ _ S cs cy Hc) as (cy' & Hc' & Rc & _). exists p, x', cs, cy'.
    apply (inj Some), pr_core_inv in Lp as (_ & _ & _ & -> & _). apply row_inv in Rc as (_ & _ & -> & _).
    split_and!; try done. rewrite Ep, <-E. apply choice_prop_kept. intros q. specialize (L q).
    destruct (ks_props k' !! q) as [z'|], (ks_props k !! q) as [z|]; try done. simpl in L |- *.
    by apply (inj Some), pr_core_inv in L as (-> & _).
Qed.

(** [m] ends, and changes settings only. *)
Definition reads_ok {A} (m : C A) (c : conf) (Q : A → Prop) : Prop :=
  readable (cf_k c) → ∃ a c', m c = Done (a, c') ∧ readable (cf_k c') ∧ same_setup (cf_k c) (cf_k c') ∧ Q a.

Lemma ro_ret {A} (a : A) c (Q : A → Prop) : Q a → reads_ok (mreturn a) c Q.
Proof. intros H R. exists a, c. split_and!; [done..|apply setup_refl|done]. Qed.
Lemma ro_bind {A B} (m : C A) (f : A → C B) c (P : A → Prop) Q :
  reads_ok m c P → (∀ a c1, same_setup (cf_k c) (cf_k c1) → P a → reads_ok (f a) c1 Q) → reads_ok (mthen m f) c Q.
Proof.
  intros Hm Hf R. destruct (Hm R) as (a & c1 & E1 & R1 & S1 & H1). destruct (Hf a c1 S1 H1 R1) as (b & c2 & E2 & R2 & S2 & H2).
  exists b, c2. rewrite (mthen_done _ _ _ _ _ E1). split_and!; [done..|by eapply setup_trans|done].
Qed.
Lemma ro_pure {A B} (m : C A) a (f : A → C B) c Q : m c = Done (a, c) → reads_ok (f a) c Q → reads_ok (mthen m f) c Q.
Proof. intros E H R. destruct (H R) as (b & c' & E' & D). exists b, c'. by rewrite (mthen_done _ _ _ _ _ E). Qed.
Lemma ro_modify f c : cf_k (f c) = cf_k c → reads_ok (mmodify f) c (λ _, True).
Proof. intros E R. exists (), (f c). rewrite E. split_and!; [done..|apply setup_refl|done]. Qed.

Lemma ro_warning text c : reads_ok (conf_warning text) c (λ _, True).
Proof. by apply ro_modify. Qed.

(** Changing the setting of a symbol. *)
Lemma ro_store (m : K ()) s y y' n c :
  ks_syms (cf_k c) !! s = Some y → row y' = row y → same_shape y' y → (well_set y → well_set y') →
  m (cf_k c) = Done ((), ks_set_new_str n (set_sym s y' (cf_k c))) → reads_ok (lift m) c (λ _, True).
Proof.
  intros H Rw Sh W E R. exists (), (cf_set_k (ks_set_new_str n (set_sym s y' (cf_k c))) c).
  assert (S : same_setup (cf_k c) (ks_set_new_str n (set_sym s y' (cf_k c)))).
  { destruct (setup_set s y y' (cf_k c) H Rw Sh) as [A1 A2 A3 A4 A5]. split; try done. by destruct A3. }
  split_and!; [unfold lift; by rewrite E| |done|done]. apply (readable_setup (cf_k c)); [done| |done].
  intros t z. simpl. destruct (decide (t = s)) as [->|N].
  - rewrite lookup_insert_eq. intros [= <-]. apply W. by apply (rd_user _ R s).
  - rewrite lookup_insert_ne by done. apply (rd_user _ R).
Qed.
Lemma ro_upd s y f c :
  ks_syms (cf_k c) !! s = Some y → row (f y) = row y → same_shape (f y) y → (well_set y → well_set (f y)) →
  reads_ok (lift (upd_sym s f)) c (λ _, True).
Proof.
  intros H Rw Sh W. apply (ro_store _ s y (f y) (ks_new_str (cf_k c))); [done..|].
  rewrite (upd_sym_run _ _ _ _ H). by destruct (cf_k c).
Qed.

Lemma ro_setting s v y c :
  ks_syms (cf_k c) !! s = Some y →
  (text_type (sy_type y) → ∃ x, v = SetText x ∧ string_valid (sy_type y) x = true) →
  reads_ok (lift (apply_setting s v)) c (λ _, True).
Proof.
  intros H W. set (n := match v with SetTri _ => ks_new_str (cf_k c) | SetText _ => S (ks_new_str (cf_k c)) end).
  apply (ro_store _ s y (with_setting v (ks_new_str (cf_k c)) y) n); [done|apply row_setting|by destruct v| |].
  - intros _ _ T. destruct (W ltac:(by destruct v)) as (x & -> & Vx). by eexists.
  - rewrite (apply_setting_run s v y _ H). unfold setting_store, n. by destruct v, (cf_k c).
Qed.

(** ** The functions that read a line *)

Lemma str_at_run line i (c : conf) : ended line → i ≤ 1023 →
  ∃ s, str_at line i c = Done (s, c) ∧ i + String.length s ≤ 1023 ∧ line !! (i + String.length s) = Some NUL.
Proof.
  intros E Hi. destruct (cstr_ended _ _ (ended_drop line i E Hi)) as (s & Es & L & N). exists s.
  unfold str_at. rewrite Es. rewrite lookup_drop in N. split_and!; [done|lia|done].
Qed.
Lemma strscan_run f line i (c : conf) : ended line → i ≤ 1023 →
  ∃ o, strscan f line i c = Done (o, c) ∧ ∀ q, o = Some q → i ≤ q ≤ 1023 ∧ ∃ x, line !! q = Some x ∧ f x = true.
Proof.
  intros E Hi. destruct (scan_ended f _ _ (ended_drop line i E Hi)) as (o & Es & Ho). exists (Nat.add i <$> o).
  unfold strscan. rewrite Es. split; [done|]. destruct o as [j|]; [|done]. intros q [= <-].
  destruct (Ho j eq_refl) as (L & x & Hx & Fx). rewrite lookup_drop in Hx. split; [lia|]. by exists x.
Qed.
(** A character that is not 0 is not in the last cell. *)
Lemma before_last line q x : ended line → q ≤ 1023 → line !! q = Some x → x ≠ NUL → S q ≤ 1023.
Proof. intros [_ E] Hq Hx N. destruct (decide (q = 1023)) as [->|]; [congruence|lia]. Qed.
Lemma cell line q : ended line → q ≤ 1023 → ∃ x, line !! q = Some x.
Proof. intros [L _] Hq. apply lookup_lt_is_Some_2. rewrite L. unfold LINE. lia. Qed.

Lemma ro_find {A} line i (f : option sid → C A) c Q : ended line → i ≤ 1023 →
  (∀ o, (∀ s, o = Some s → is_Some (ks_syms (cf_k c) !! s)) → reads_ok (f o) c Q) →
  reads_ok (let! name := str_at line i in let! sym := lift (sym_find (Some name)) in f sym) c Q.
Proof.
  intros E Hi Hf R. destruct (str_at_run line i c E Hi) as (name & En & _). rewrite (mthen_done _ _ _ _ _ En).
  assert (G : ∃ o, sym_find (Some name) (cf_k c) = Done (o, cf_k c) ∧ ∀ s, o = Some s → is_Some (ks_syms (cf_k c) !! s)).
  { unfold sym_find. destruct (reserved name) as [r|] eqn:Hr.
    - exists (Some r). split; [done|]. intros s [= <-]. apply (rd_consts _ R). unfold reserved in Hr.
      repeat case_decide; simplify_eq; repeat constructor.
    - destruct (find_chain_spec (cf_k c) (bucket (cf_k c) (name_hash name)) name false) as (o & Eo & Ho).
      { apply bucket_named; [apply R|apply name_hash_lt]. }
      exists o. rewrite (mthen_done (mgets _) _ _ (bucket (cf_k c) (name_hash name)) (cf_k c)) by done. split; [done|].
      intros s ->. destruct Ho as (_ & y & _ & Hy & _). eauto. }
  destruct G as (o & Eo & Ho). rewrite (mthen_done _ _ _ o c) by (by apply lift_same). by apply Hf.
Qed.

Lemma drop_char_run line q x (c : conf) : ended line → q ≤ 1023 → line !! q = Some x → x ≠ NUL →
  ∃ line', drop_char line q c = Done (line', c) ∧ ended line'.
Proof.
  intros E Hq Hx Nx. destruct (str_at_run line q c E Hq) as (s & Es & L & N). unfold drop_char.
  rewrite (mthen_done _ _ _ _ _ Es). eexists. split; [done|]. set (n := String.length s) in *.
  destruct E as [El E]. split.
  - rewrite !length_app, !length_take, !length_drop, El. unfold LINE in *. lia.
  - assert (Lt : length (take q line) = q) by (rewrite length_take, El; unfold LINE; lia).
    assert (Ln : length (take n (drop (S q) line)) = n) by (rewrite length_take, length_drop, El; unfold LINE; lia).
    rewrite lookup_app_r, Lt by lia. rewrite lookup_app_r, Ln by lia. rewrite lookup_drop.
    by replace (q + n + (1023 - q - n)) with 1023 by lia.
Qed.

Lemma special_char x : special x = true → x ≠ NUL.
Proof. by intros H ->. Qed.
Lemma unescape_ended n line p (c : conf) : ended line → p ≤ 1023 → 1023 - p < n →
  ∃ line' b, unescape_f n line p c = Done ((line', b), c) ∧ ended line'.
Proof.
  revert line p. induction n as [|n IH]; intros line p E Hp Hn; [lia|]. cbn [unescape_f].
  destruct (strscan_run special line p c E Hp) as (o & Es & Ho). rewrite (mthen_done _ _ _ _ _ Es).
  destruct o as [q|]; [|by exists line, false]. destruct (Ho q eq_refl) as (Hq & x & Hx & Fx).
  rewrite (mthen_done (mderef _) _ _ x c) by (by rewrite Hx). destruct (isc x dq).
  - exists (put_nul line q), true. split; [done|by apply ended_nul].
  - destruct (drop_char_run line q x c E) as (line' & Ed & E'); [lia|done|by apply special_char|].
    rewrite (mthen_done _ _ _ _ _ Ed). apply IH; [done| |].
    + by apply (before_last line q x E); [lia|done|apply special_char].
    + pose proof (before_last line q x E ltac:(lia) Hx (special_char x Fx)). lia.
Qed.

(** What is left to do with a symbol. *)
Definition left (k : kstate) (r : leave) : Prop := ∀ s, r = Break (Some s) → is_Some (ks_syms k !! s).

Lemma ro_text line p s y c : ended line → p ≤ 1023 → ks_syms (cf_k c) !! s = Some y →
  reads_ok (read_text line p s y) c (left (cf_k c)).
Proof.
  intros E Hp H. unfold read_text. destruct (str_at_run line p c E Hp) as (text & Et & _).
  eapply ro_pure; [done|]. eapply (ro_pure _ (string_valid (sy_type y) text)).
  { apply lift_same. unfold sym_string_valid. by rewrite (mthen_done _ _ _ _ _ (run_get_sym _ _ _ H)). }
  destruct (string_valid (sy_type y) text) eqn:V.
  - eapply ro_bind; [apply (ro_setting s (SetText text) y); [done|]; eauto|].
    intros [] c1 S1 _. apply ro_ret. intros ? [= <-]. eauto.
  - eapply ro_bind; [apply ro_warning|]. intros [] c1 S1 _. by apply ro_ret.
Qed.

Lemma ro_tristate line p s y c : ended line → p ≤ 1023 → ks_syms (cf_k c) !! s = Some y → ¬ text_type (sy_type y) →
  reads_ok (read_tristate line p s y) c (λ _, True).
Proof.
  intros E Hp H T. unfold read_tristate. destruct (cell line p E Hp) as [x Hx].
  eapply (ro_pure _ x); [by rewrite Hx|].
  assert (Se : ∀ t, reads_ok (lift (set_user_tri s t)) c (λ _, True))
    by (intros t; apply (ro_setting s (SetTri t) y); [done|by intros ?%T]).
  destruct (_ && _); [done|]. destruct (isc x "y"); [done|]. destruct (isc x "n"); [done|].
  destruct (str_at_run line p c E Hp) as (text & Et & _). eapply ro_pure; [done|]. apply ro_warning.
Qed.

Lemma ro_value line p s y c : ended line → p ≤ 1023 → ks_syms (cf_k c) !! s = Some y →
  reads_ok (read_value line p s y) c (λ '(line', r), ended line' ∧ left (cf_k c) r).
Proof.
  intros E Hp H. unfold read_value.
  assert (Br : ∀ c1, reads_ok (mreturn (line, Break (Some s))) c1 (λ '(line', r), ended line' ∧ left (cf_k c) r)).
  { intros c1. apply ro_ret. split; [done|]. intros ? [= <-]. eauto. }
  assert (Tx : ∀ line' c1 q, ended line' → q ≤ 1023 → same_setup (cf_k c) (cf_k c1) → ks_syms (cf_k c1) !! s = Some y →
    reads_ok (let! r := read_text line' q s y in mreturn (line', r)) c1 (λ '(line', r), ended line' ∧ left (cf_k c) r)).
  { intros line' c1 q E' Hq S1 H1. eapply ro_bind; [by apply ro_text|]. intros r c2 S2 Hr. apply ro_ret. split; [done|].
    intros t Ht. apply (setup_exists (cf_k c1)); [by apply setup_sym|auto]. }
  assert (Tr : ¬ text_type (sy_type y) → reads_ok (do! read_tristate line p s y in mreturn (line, Break (Some s))) c
    (λ '(line', r), ended line' ∧ left (cf_k c) r)).
  { intros T. eapply ro_bind; [by apply ro_tristate|]. intros [] c1 S1 _. apply Br. }
  destruct (sy_type y) eqn:T; try (apply Br); try (apply Tr; by intros [?|[?|?]]);
    try (apply Tx; [done..|apply setup_refl|done]).
  destruct (cell line p E Hp) as [x Hx]. eapply (ro_pure _ x); [by rewrite Hx|].
  destruct (isc x dq) eqn:Ex; cbn [negb]; [|apply Br]. apply isc_true in Ex as ->.
  pose proof (before_last line p dq E Hp Hx ltac:(done)) as Hp'.
  destruct (unescape_ended (S (length line)) line (S p) c E Hp') as (line' & b & Eu & E').
  { destruct E as [-> _]. unfold LINE. lia. }
  eapply ro_pure; [exact Eu|]. cbv beta iota. destruct b; [apply Tx; [done..|apply setup_refl|done]|].
  eapply ro_bind; [apply ro_warning|]. intros [] c1 S1 _. by apply ro_ret.
Qed.

(** The result of a [switch] branch. *)
Definition line_left (k : kstate) (x : list ascii * leave) : Prop := ended x.1 ∧ left k x.2.

Lemma ro_continue line c : ended line → reads_ok (mreturn (line, Continue)) c (line_left (cf_k c)).
Proof. intros E. by apply ro_ret. Qed.

Lemma ro_unset line c : ended line → reads_ok (read_unset line) c (line_left (cf_k c)).
Proof.
  intros E. unfold read_unset. destruct (negb _); [by apply ro_continue|].
  destruct (strscan_run (λ x, isc x " ") line 9 c E) as (o & Es & Ho); [lia|]. eapply ro_pure; [exact Es|].
  destruct o as [p|]; [|by apply ro_continue]. pose proof (ended_nul line p E) as E'.
  destruct (negb _); [by apply ro_continue|]. apply ro_find; [done|lia|]. intros [s|] Hs.
  - destruct (Hs s eq_refl) as [y H]. eapply (ro_pure _ y); [by apply lift_get|].
    eapply (ro_bind _ _ _ (λ _, True)).
    + destruct (sy_type y) eqn:T; try by apply ro_ret.
      all: apply (ro_setting s (SetTri No) y); [done|]; rewrite T; by intros [?|[?|?]].
    + intros [] c1 S1 _. apply ro_ret. split; [done|]. intros ? [= <-]. eauto.
  - by apply ro_ret.
Qed.

Lemma ro_set line c : ended line → reads_ok (read_set line) c (line_left (cf_k c)).
Proof.
  intros E. unfold read_set. destruct (negb _).
  { eapply ro_bind; [apply ro_warning|]. intros [] c1 S1 _. by apply ro_ret. }
  destruct (strscan_run (λ x, isc x "=") line 7 c E) as (o & Es & Ho); [lia|]. eapply ro_pure; [exact Es|].
  destruct o as [p|]; [|by apply ro_continue]. destruct (Ho p eq_refl) as (Hp & x & Hx & ->%isc_true).
  pose proof (before_last line p _ E (proj2 Hp) Hx ltac:(done)) as Hp'. pose proof (ended_nul line p E) as E1.
  destruct (strscan_run (λ x, isc x nl) (put_nul line p) (S p) c E1 Hp') as (o2 & Es2 & _).
  eapply ro_pure; [exact Es2|].
  assert (E2 : ended (match o2 with Some p2 => put_nul (put_nul line p) p2 | None => put_nul line p end)).
  { destruct o2; [by apply ended_nul|done]. }
  apply ro_find; [done|lia|]. intros [s|] Hs; [|by apply ro_ret].
  destruct (Hs s eq_refl) as [y H]. eapply (ro_pure _ y); [by apply lift_get|].
  intros R. destruct (ro_value _ (S p) s y c E2 Hp' H R) as ([line' r] & c' & Er & Rr & Sr & Q).
  exists (line', r), c'. by split_and!.
Qed.

Lemma choice_prop_run k l p : choice_prop k l = Some p → first_prop P_CHOICE l k = Done (Some p, k).
Proof.
  induction l as [|q l IH]; [done|]. simpl. intros H. destruct (ks_props k !! q) as [x|] eqn:Hq; [|done].
  rewrite (mthen_done _ _ _ x k) by (unfold get_prop; by rewrite Hq). simpl in H. case_decide; [by injection H as ->|auto].
Qed.

Lemma ro_choice s y c : ks_syms (cf_k c) !! s = Some y → is_choice_value y = true →
  reads_ok (read_choice s) c (λ _, True).
Proof.
  intros H V R. destruct (rd_choice _ R s y H V) as (p & x & cs & cy & Ep & Hx & Ex & Hc & T). revert R.
  unfold read_choice. eapply (ro_pure _ cs).
  { apply lift_same. unfold choice_of, sym_get_choice_prop, prop_get_symbol.
    rewrite (mthen_done _ _ _ (Some p) (cf_k c)); [|rewrite (mthen_done _ _ _ _ _ (run_get_sym _ _ _ H)); by apply choice_prop_run].
    rewrite (mthen_done (mderef _) _ _ p (cf_k c)) by done. rewrite (mthen_done _ _ _ (Some cs) (cf_k c)); [done|].
    rewrite (mthen_done _ _ _ x (cf_k c)) by (unfold get_prop; by rewrite Hx). by rewrite Ex. }
  eapply (ro_pure _ y); [by apply lift_get|]. eapply (ro_bind _ _ _ (λ _, True)).
  - destruct (sv_tri (sy_user y)); [by apply ro_ret| |].
    + eapply (ro_pure _ cy); [by apply lift_get|]. case_decide; [|by apply ro_ret].
      eapply ro_bind; [apply ro_warning|]. intros [] c1 S1 _.
      destruct (ss_sym _ _ S1 cs cy Hc) as (cy1 & Hc1 & R1 & _). apply row_inv in R1 as (_ & _ & R1 & _).
      eapply ro_upd; [done| |done|].
      * unfold row, is_const, is_choice, is_choice_value. simpl. by rewrite !has_flag_set, !orb_false_r.
      * intros _ _ T'. exfalso. apply T. simpl in T'. by rewrite <-R1.
    + eapply ro_upd; [done|done|done|]. intros _ _ T'. by apply T in T'.
  - intros [] c1 S1 _. destruct (ss_sym _ _ S1 s y H) as (y1 & H1 & _), (ss_sym _ _ S1 cs cy Hc) as (cy1 & Hc1 & R1 & _).
    apply row_inv in R1 as (_ & _ & R1 & _). eapply (ro_pure _ y1); [by apply lift_get|].
    eapply ro_upd; [done|done|done|]. intros _ _ T'. exfalso. apply T. simpl in T'. by rewrite <-R1.
Qed.

Lemma ro_line line c : ended line → reads_ok (read_line line) c ended.
Proof.
  intros E. unfold read_line. eapply ro_bind; [by apply ro_modify|]. intros [] c1 S1 _.
  destruct (cell line 0 E) as [x Hx]; [lia|]. eapply (ro_pure _ x); [by rewrite Hx|].
  eapply (ro_bind _ _ _ (line_left (cf_k c1))).
  - destruct (isc x "#"); [by apply ro_unset|]. destruct (isc x "C"); [by apply ro_set|].
    destruct (isc x nl); [by apply ro_ret|]. eapply ro_bind; [apply ro_warning|]. intros [] c2 _ _. by apply ro_ret.
  - intros [line' r] c2 S2 [E' Hl]. destruct r as [|[s|]]; [by apply ro_ret| |by apply ro_ret].
    destruct (Hl s eq_refl) as [y1 H1]. destruct (ss_sym _ _ S2 s y1 H1) as (y & H & _).
    eapply (ro_pure _ (is_choice_value y)).
    { apply lift_same. unfold sym_is_choice_value. by rewrite (mthen_done _ _ _ _ _ (run_get_sym _ _ _ H)). }
    eapply (ro_bind _ _ _ (λ _, True)).
    + unfold mwhen. destruct (is_choice_value y) eqn:V; [by eapply ro_choice|by apply ro_ret].
    + intros [] c3 _ _. by apply ro_ret.
Qed.

Lemma ro_lines n line text c : ended line → String.length text < n → reads_ok (read_lines n line text) c (λ _, True).
Proof.
  revert line text c. induction n as [|n IH]; intros line text c E Hn; [lia|]. cbn [read_lines].
  destruct (decide (text = EmptyString)) as [->|N]; [by apply ro_ret|]. destruct E as [L H].
  destruct (fgets_ended line text L H N) as (line' & rest & -> & E' & Hr).
  eapply ro_bind; [by apply ro_line|]. intros line2 c1 S1 E2. apply IH; [done|lia].
Qed.

Lemma conf_read_file_run line text c : ended line → reads_ok (conf_read_file line text) c (λ _, True).
Proof. intros E. apply ro_lines; [done|lia]. Qed.
