(* ===== verification/KConfCheck.v ===== *)
(** * Configuration files: an example

    A small configuration with a symbol of every type, and tests that decide
    what the theorems about files ask for. *)
From S2P Require Import Prelude CLib CStr KData KExpr KState KSymbol KSymFrame KSymRef KSymSolve KSymTab KSymUnique KSymSet KSymCheck.
From S2P Require Import KMenu KMenuTree KConf KConfText KConfLine KConfLoad KCalc KConfSave KConfFile KConfReset KConfValues KConfRound.
From Stdlib Require Import Ascii.
Open Scope pr30_scope.

(** ** The example *)

Definition item_entry (name : string) (t : symbol_type) (prompt : option string) (dep : option expr) : K sid :=
  let! s := sym_lookup (Some name) false in
  do! menu_add_entry (Some s) in
  do! menu_set_type t in
  do! (match prompt with
       | Some _ => do! menu_add_prompt P_PROMPT prompt None in mreturn ()
       | None => mreturn ()
       end) in
  do! menu_add_dep dep in
  mreturn s.

(** [MODULES]; [FOO], a tristate that is [m]; [BAR], which depends on [FOO];
    a menu with [NAME], a string with a quote, and [BAZ], a number between 1
    and 5; [OPENWRTVERSION], which the header shows. *)
Definition conf_config : K () :=
  do! menu_init in
  do! menu_add_prompt P_MENU (Some "OpenWrt Configuration"%string) None in
  let! modules := item_entry "MODULES" S_BOOLEAN (Some "Modules"%string) None in
  do! mmodify (ks_set_modules_sym (Some modules)) in
  let! foo := item_entry "FOO" S_TRISTATE (Some "Foo"%string) None in
  let! bar := item_entry "BAR" S_BOOLEAN (Some "Bar"%string) (Some (Esymbol foo)) in
  do! menu_add_entry None in
  do! menu_add_prompt P_MENU (Some "Base system"%string) None in
  do! menu_add_menu in
  let! name := item_entry "NAME" S_STRING (Some "Name"%string) None in
  let! baz := item_entry "BAZ" S_INT (Some "Baz"%string) None in
  let! one := sym_lookup (Some "1"%string) true in
  let! five := sym_lookup (Some "5"%string) true in
  do! menu_add_expr P_RANGE (Some (expr_alloc_comp C_RANGE one five)) None in
  do! menu_end_menu in
  let! version := item_entry "OPENWRTVERSION" S_STRING None None in
  let! v := sym_lookup (Some "kamikaze"%string) true in
  do! menu_add_symbol P_DEFAULT v None in
  do! menu_finalize rootmenu in
  let! text := strdup (String bs (String dq "x")) in
  let! number := strdup "9" in
  do! upd_sym modules (λ y, sy_set_user (SValue VNull Yes) (sy_set_flags 0 y)) in
  do! upd_sym foo (λ y, sy_set_user (SValue VNull Mod) (sy_set_flags 0 y)) in
  do! upd_sym bar (λ y, sy_set_user (SValue VNull Yes) (sy_set_flags 0 y)) in
  do! upd_sym name (λ y, sy_set_user (SValue (VStr text) No) (sy_set_flags 0 y)) in
  upd_sym baz (λ y, sy_set_user (SValue (VStr number) No) (sy_set_flags 0 y)).

Definition conf_example : kstate := final conf_config init_state.
(** The same with everything calculated. *)
Definition conf_done : kstate := final (for_all_symbols sym_calc_value) conf_example.
Definition conf_start (k : kstate) : conf := Conf k None 0 0 0 ∅ [] "" [] [].

Definition conf_menu : list mid := seq 1 7.
(** [BAR] reads [FOO]. *)
Definition conf_rank (s : sid) : nat := match s with 6 => 2 | 4 | 5 | 7 | 8 | 11 => 1 | _ => 0 end.

Definition no_env (_ : string) : option string := None.
Definition now : string := ln "Sun Nov 15 22:32:29 2026".
Definition all_writable (_ : string) : bool := true.
Definition blank_line : list ascii := repeat NUL LINE.

(** ** Tests *)

Definition listed_check (k : kstate) : bool :=
  forallb (exists_sym k) (hash_syms k) &&
  forallb (λ s, bool_decide (s ∉ hash_syms k) && exists_sym k s) [symbol_yes; symbol_mod] &&
  all_syms k (λ s y, bool_decide (s ∈ hash_syms k) || bool_decide (sy_type y = S_UNKNOWN)) &&
  from_option (exists_sym k) true (ks_modules_sym k).
Lemma listed_check_ok k : listed_check k = true → listed k.
Proof.
  unfold listed_check. rewrite !andb_true_iff. intros (((A & B) & C) & D). cbn [forallb] in B.
  rewrite !andb_true_iff, !bool_decide_eq_true in B. destruct B as ((B1 & B2) & (B3 & B4) & _). split.
  - intros t Ht. by apply (forallb_elem _ _ _ A), bool_decide_eq_true in Ht.
  - split; [done|by apply bool_decide_eq_true in B2].
  - split; [done|by apply bool_decide_eq_true in B4].
  - intros t y H. by apply (all_syms_ok _ _ _ _ C), orb_true_iff in H as [H%bool_decide_eq_true|H%bool_decide_eq_true]; auto.
  - intros m Hm. rewrite Hm in D. by apply bool_decide_eq_true in D.
Qed.

Definition typed_check (y : symbol) : bool := match sy_type y with S_UNKNOWN | S_OTHER => false | _ => true end.
Lemma typed_check_ok y : typed_check y = true → typed y.
Proof. unfold typed_check, typed. by destruct (sy_type y). Qed.

Definition entry_ok_check (gettext : string → string) (k : kstate) (m : mid) : bool :=
  match ks_menus k !! m with
  | None => false
  | Some x =>
      match mn_sym x with
      | Some s => from_option typed_check false (ks_syms k !! s)
      | None =>
          match mn_prompt x with
          | None => true
          | Some p =>
              match ks_props k !! p with
              | None => false
              | Some q =>
                  from_option (λ t, quiet ("# " +:+ gettext t)) false (pr_text q) &&
                  forallb (exists_sym k) (oexpr_syms (pr_visible q))
              end
          end
      end
  end.
Lemma entry_ok_check_ok gettext k m : entry_ok_check gettext k m = true → entry_ok gettext k m.
Proof.
  unfold entry_ok_check, entry_ok. destruct (ks_menus k !! m) as [x|]; [|done]. intros H. exists x. split; [done|].
  destruct (mn_sym x) as [s|].
  - destruct (ks_syms k !! s) as [y|]; [|done]. exists y. split; [done|by apply typed_check_ok].
  - intros p Hp. rewrite Hp in H. destruct (ks_props k !! p) as [q|]; [|done]. apply andb_true_iff in H as [H1 H2].
    destruct (pr_text q) as [t|] eqn:Et; [|discriminate H1]. exists q, t. split_and!; [done|done|exact H1|].
    intros u Hu. by apply (forallb_elem _ _ _ H2), bool_decide_eq_true in Hu.
Qed.

(** Symbols with a prompt are in the menu. *)
Definition prompt_check (k : kstate) (l : list mid) : bool :=
  all_syms k (λ s y, forallb (λ p, match ks_props k !! p with
    | Some x => negb (bool_decide (is_Some (pr_text x))) || existsb (λ m, bool_decide (sym_of k m = Some s)) l
    | None => true
    end) (sy_prop y)).
Lemma prompt_check_ok k l : prompt_check k l = true →
  ∀ s y p x, ks_syms k !! s = Some y → p ∈ sy_prop y → ks_props k !! p = Some x → is_Some (pr_text x) →
    ∃ m, m ∈ l ∧ sym_of k m = Some s.
Proof.
  intros C s y p x H Hp Hx Ht. apply (all_syms_ok _ _ _ _ C) in H. apply (forallb_elem _ _ _ H) in Hp.
  cbv beta in Hp. rewrite Hx in Hp. apply orb_true_iff in Hp as [Hp|Hp].
  - by apply negb_true_iff, bool_decide_eq_false in Hp; destruct Hp.
  - apply existsb_exists in Hp as (m & Hm & E). exists m. split; [by apply list_elem_of_In|by apply bool_decide_eq_true in E].
Qed.

Definition ranges_check (k : kstate) : bool :=
  all_syms k (λ s y, forallb (λ p, match ks_props k !! p with
    | Some (Property _ _ _ _ _ (Some (Erange a b)) _) =>
        let base := if decide (sy_type y = S_INT) then 10%Z else 16%Z in
        match ref_bound k a base, ref_bound k b base with
        | Some lo, Some hi => (lo <=? hi)%Z
        | _, _ => true
        end
    | _ => true
    end) (sy_prop y)).
Lemma ranges_check_ok k : ranges_check k = true → ranges_ok k.
Proof.
  intros C s y p x a b base lo hi H Hp Hx Ee T Hl Hh. apply (all_syms_ok _ _ _ _ C) in H.
  apply (forallb_elem _ _ _ H) in Hp. cbv beta in Hp. rewrite Hx in Hp. destruct x. simpl in Ee. rewrite Ee in Hp.
  assert (E : (if decide (sy_type y = S_INT) then 10%Z else 16%Z) = base).
  { destruct T as [[-> ->]|[-> ->]]; done. }
  cbv zeta in Hp. rewrite E, Hl, Hh in Hp. by apply Z.leb_le.
Qed.

Definition entry_check (k : kstate) (name : string) (s : sid) : bool :=
  match reserved name, ks_syms k !! s with
  | None, Some y => bool_decide (s ∈ hash_syms k) && bool_decide (cs_text <$> sy_name y = Some name) && negb (is_const y)
  | _, _ => false
  end.
Lemma entry_check_ok k name s : entry_check k name s = true → entry k name false s.
Proof.
  unfold entry_check, entry. destruct (reserved name); [done|]. destruct (ks_syms k !! s) as [y|]; [|done].
  rewrite !andb_true_iff, !bool_decide_eq_true. intros ((Hs & Hn) & Hc). split; [done|].
  destruct (sy_name y) as [c|] eqn:En; [|done]. simpl in Hn. injection Hn as <-. exists y, c.
  split_and!; [done..|]. by apply negb_true_iff.
Qed.

Definition line_check (k kf : kstate) (l : list mid) : bool :=
  forallb (λ m, match sym_of k m with
    | Some s => from_option (λ y, entry_check k (name_of y) s && line_fits y) true (ks_syms kf !! s)
    | None => true
    end) l.
Lemma line_check_ok k kf l : line_check k kf l = true →
  ∀ m s y, m ∈ l → sym_of k m = Some s → ks_syms kf !! s = Some y → entry k (name_of y) false s ∧ line_fits y = true.
Proof.
  intros C m s y Hm Hs H. apply (forallb_elem _ _ _ C) in Hm. cbv beta in Hm. rewrite Hs, H in Hm. simpl in Hm.
  apply andb_true_iff in Hm as [He Hl]. split; [by apply entry_check_ok|done].
Qed.

(** ** The example can be stored *)

Definition conf_header : list string :=
  ["#"; "# Automatically generated make config: don't edit"; "# OpenWrt version: kamikaze";
   "# Sun Nov 15 22:32:29 2026"; "#"].

Lemma conf_done_storable : storable no_env id now conf_done conf_done conf_menu.
Proof.
  split.
  - apply (plain_check _ conf_rank). by vm_compute.
  - apply hash_check_ok. by vm_compute.
  - apply listed_check_ok. by vm_compute.
  - exists 4. split; [by vm_compute|]. apply (bool_decide_eq_true (is_Some _)). by vm_compute.
  - destruct (ks_menus conf_done !! rootmenu) as [x|] eqn:H; [|exfalso; by vm_compute in H].
    assert (C : preorder 20 conf_done rootmenu (mn_list x) = Some conf_menu)
      by (vm_compute in H; injection H as <-; by vm_compute).
    exists x. split_and!; [done|vm_compute in H; by injection H as <-..|by apply (preorder_chain 20)|].
    apply (NoDup_ListNoDup (seq 0 8)), seq_NoDup.
  - intros m Hm. apply entry_ok_check_ok.
    assert (A : forallb (entry_ok_check id conf_done) conf_menu = true) by (by vm_compute).
    by apply (forallb_elem _ _ _ A).
  - apply prompt_check_ok. by vm_compute.
  - vm_compute. reflexivity.
  - intros s [y H]. eapply solved_check_ok; [done|].
    assert (A : all_syms conf_done (solved_check conf_done) = true) by (by vm_compute).
    by apply (all_syms_ok _ _ _ _ A).
  - apply ranges_check_ok. by vm_compute.
  - apply line_check_ok. by vm_compute.
  - destruct (ks_syms conf_done !! 11) as [y|] eqn:H; [|exfalso; by vm_compute in H].
    exists 11, y. split_and!; [apply entry_check_ok; by vm_compute|done|]. exists conf_header. split.
    + vm_compute in H. injection H as <-. by vm_compute.
    + intros q Hq. assert (A : forallb quiet conf_header = true) by (by vm_compute). by apply (forallb_elem _ _ _ A).
Qed.

Lemma conf_done_now : savable_now conf_done.
Proof.
  split.
  - split; [apply (plain_check _ conf_rank); by vm_compute| |apply valid_solved_check; by vm_compute].
    split; eexists; split; by vm_compute.
  - left. by vm_compute.
Qed.
