(* ===== verification/KConfSpec.v ===== *)
(** * Configuration files: the theorems

    What [confdata.c] promises: a configuration that is saved and loaded has
    its old values; the file lists the symbols in the order of the menus; any
    file can be read. *)
From S2P Require Import Prelude CLib CStr KData KExpr KState KSymbol KSymFrame KSymRef KSymSolve KSymTab KSymUnique KSymSet KSymCheck.
From S2P Require Import KMenu KMenuInv KMenuTree KConf KConfText KConfLine KConfLoad KCalc KConfSave KConfFile KConfReset.
From S2P Require Import KConfValues KConfRound KConfCheck KConfSafe.
From Stdlib Require Import Ascii.
Open Scope pr30_scope.

(** ** Saving and loading *)





(** A string that [conf_write] escapes and puts between quotes is read
    back as it was, whatever comes before and after it in the line. *)
Theorem conf_string_roundtrip s pre r c :
  without [NUL] s = true →
  ∃ text line', write_escaped s c = Done ((), printed text c) ∧
    unescape (pre ++ la text ++ dq :: NUL :: r) (length pre) c = Done ((line', true), c) ∧
    length line' = length (pre ++ la text ++ dq :: NUL :: r) ∧ str_at line' (length pre) c = Done (s, c).
Proof.
  intros Hs. destruct (unescape_run s pre r c Hs) as (r' & E & L).
  exists (escape s), (pre ++ la s ++ NUL :: r'). split_and!; [apply write_escaped_run|done| |by apply str_here].
  by rewrite length_app, (length_app pre), L.
Qed.
Lemma conf_string_roundtrip_witness :
  ∃ text line', write_escaped (String bs (String dq "x")) (conf_start conf_done) =
      Done ((), printed text (conf_start conf_done)) ∧
    unescape ([] ++ la text ++ dq :: NUL :: []) (length (@nil ascii)) (conf_start conf_done) =
      Done ((line', true), conf_start conf_done) ∧
    length line' = length ([] ++ la text ++ dq :: NUL :: []) ∧
    str_at line' (length (@nil ascii)) (conf_start conf_done) = Done (String bs (String dq "x"), conf_start conf_done).
Proof. apply (conf_string_roundtrip (String bs (String dq "x")) [] [] (conf_start conf_done)). reflexivity. Defined.

(** ** Reading any file *)


(** C28: [conf_read_file] sets values of the right type only: after any file a
    setting of a string, int or hex symbol is a string, and for numbers one
    that [sym_string_valid] accepts. *)
Theorem conf_read_file_typed line0 text c :
  ended line0 → readable (cf_k c) →
  ∃ c', conf_read_file line0 text c = Done ((), c') ∧
    ∀ s y, ks_syms (cf_k c') !! s = Some y → has_value y = true → text_type (sy_type y) →
      ∃ v, sv_val (sy_user y) = VStr v ∧ string_valid (sy_type y) (cs_text v) = true.
Proof.
  intros E R. destruct (conf_read_file_run line0 text c E R) as ([] & c' & Ec & R' & _). exists c'.
  split; [done|]. apply R'.
Qed.

Definition user_check (k : kstate) : bool :=
  all_syms k (λ _ y, negb (has_value y) || match sy_type y with
    | S_STRING | S_INT | S_HEX =>
        match sv_val (sy_user y) with VStr v => string_valid (sy_type y) (cs_text v) | _ => false end
    | _ => true
    end).
Lemma user_check_ok k : user_check k = true → user_typed k.
Proof.
  intros C s y H V T. apply (all_syms_ok _ _ _ _ C) in H. rewrite V in H. simpl in H.
  destruct T as [T|[T|T]]; rewrite T in H |- *; destruct (sv_val (sy_user y)) as [|v|]; try done; by exists v.
Qed.
Lemma conf_done_readable : readable conf_done.
Proof.
  split.
  - apply hash_check_ok. by vm_compute.
  - intros s Hs. assert (A : forallb (exists_sym conf_done) [symbol_yes; symbol_mod; symbol_no] = true) by (by vm_compute).
    by apply (forallb_elem _ _ _ A), bool_decide_eq_true in Hs.
  - intros s y H V. exfalso. assert (A : all_syms conf_done (λ _ y, negb (is_choice_value y)) = true) by (by vm_compute).
    apply (all_syms_ok _ _ _ _ A) in H. cbv beta in H. rewrite V in H. discriminate H.
  - apply user_check_ok. by vm_compute.
Qed.

Lemma conf_read_file_typed_witness :
  ∃ c', conf_read_file blank_line (ln "CONFIG_BAZ=4" +:+ ln "CONFIG_BAZ=x") (conf_start conf_done) = Done ((), c') ∧
    ∀ s y, ks_syms (cf_k c') !! s = Some y → has_value y = true → text_type (sy_type y) →
      ∃ v, sv_val (sy_user y) = VStr v ∧ string_valid (sy_type y) (cs_text v) = true.
Proof.
  apply (conf_read_file_typed blank_line (ln "CONFIG_BAZ=4" +:+ ln "CONFIG_BAZ=x") (conf_start conf_done)).
  - split; by vm_compute.
  - exact conf_done_readable.
Defined.

(** What the array holds at first, when a line like a setting was there and no
    0 follows. *)
Definition stale_line : list ascii := la "  CONFIG_FOO" ++ repeat "x"%char 1012.
(** The same with a whole setting. *)
Definition stale_setting : list ascii := la "  CONFIG_FOO is not set" ++ repeat NUL 1001.

(** For a file that is the single character [#] the function looks at
    cells that were never written: with one content of the array it sets
    [FOO] to [n], with another it leaves the array. *)
Theorem conf_read_file_stale :
  conf_read_file stale_line "#" (conf_start conf_done) = Crash ∧
  ∃ c' y, conf_read_file stale_setting "#" (conf_start conf_done) = Done ((), c') ∧
    ks_syms (cf_k c') !! 5 = Some y ∧ sv_tri (sy_user y) = No ∧
    (sv_tri ∘ sy_user <$> ks_syms conf_done !! 5) = Some Mod.
Proof.
  split; [by vm_compute|].
  destruct (conf_read_file stale_setting "#" (conf_start conf_done)) as [[[] c']| |] eqn:E; [|exfalso; by vm_compute in E..].
  destruct (ks_syms (cf_k c') !! 5) as [y|] eqn:H.
  - exists c', y. vm_compute in E. injection E as <-. vm_compute in H. injection H as <-.
    split_and!; [done..|by vm_compute|by vm_compute].
  - vm_compute in E. injection E as <-. by vm_compute in H.
Qed.
