(* ===== verification/KAsk.v ===== *)
(** * The dialogue on a terminal: [scripts/config/conf.c]

    One definition per function, over the state of [KConf] together with the
    static variables of [conf.c], the input that is still to be read and the
    random numbers that are still to be drawn.  [exit] is a result of its own.
    The questions are repeated until there is a usable answer: the number of
    repetitions is bounded by [turns], and the walk over the menus by the
    fuel of each walk. *)
From S2P Require Import Prelude CLib CStr KData KExpr KState KSymbol KMenu.
From S2P Require Import KToken KLex KGram KParse KConf.
From Stdlib Require Import Ascii.
Open Scope pr30_scope.

(** ** The state *)

Inductive input_mode : Set :=
  ask_all | ask_new | ask_silent | set_default | set_yes | set_mod | set_no | set_random.
#[export] Instance input_mode_eq_dec : EqDecision input_mode.
Proof. solve_decision. Defined.

Record front : Set := Front {
  fe_conf : conf;
  (** [help] of the symbols. *)
  fe_help : gmap sid string;
  fe_mode : input_mode;
  fe_indent : nat;
  fe_valid_stdin : bool;
  fe_cnt : nat;
  (** [char line[128]]. *)
  fe_line : list ascii;
  fe_root : option mid;
  (** What is still to be read from the input. *)
  fe_stdin : string;
  (** How many random numbers were drawn. *)
  fe_drawn : nat;
}.

Definition fe_set_conf (x : conf) (f : front) : front :=
  Front x (fe_help f) (fe_mode f) (fe_indent f) (fe_valid_stdin f) (fe_cnt f) (fe_line f) (fe_root f) (fe_stdin f) (fe_drawn f).
Definition fe_set_help (x : gmap sid string) (f : front) : front :=
  Front (fe_conf f) x (fe_mode f) (fe_indent f) (fe_valid_stdin f) (fe_cnt f) (fe_line f) (fe_root f) (fe_stdin f) (fe_drawn f).
Definition fe_set_mode (x : input_mode) (v : bool) (f : front) : front :=
  Front (fe_conf f) (fe_help f) x (fe_indent f) v (fe_cnt f) (fe_line f) (fe_root f) (fe_stdin f) (fe_drawn f).
Definition fe_set_indent (x : nat) (f : front) : front :=
  Front (fe_conf f) (fe_help f) (fe_mode f) x (fe_valid_stdin f) (fe_cnt f) (fe_line f) (fe_root f) (fe_stdin f) (fe_drawn f).
Definition fe_set_cnt (x : nat) (f : front) : front :=
  Front (fe_conf f) (fe_help f) (fe_mode f) (fe_indent f) (fe_valid_stdin f) x (fe_line f) (fe_root f) (fe_stdin f) (fe_drawn f).
Definition fe_set_line (x : list ascii) (f : front) : front :=
  Front (fe_conf f) (fe_help f) (fe_mode f) (fe_indent f) (fe_valid_stdin f) (fe_cnt f) x (fe_root f) (fe_stdin f) (fe_drawn f).
Definition fe_set_root (x : option mid) (f : front) : front :=
  Front (fe_conf f) (fe_help f) (fe_mode f) (fe_indent f) (fe_valid_stdin f) (fe_cnt f) (fe_line f) x (fe_stdin f) (fe_drawn f).
Definition fe_set_stdin (x : string) (f : front) : front :=
  Front (fe_conf f) (fe_help f) (fe_mode f) (fe_indent f) (fe_valid_stdin f) (fe_cnt f) (fe_line f) (fe_root f) x (fe_drawn f).
Definition fe_set_drawn (x : nat) (f : front) : front :=
  Front (fe_conf f) (fe_help f) (fe_mode f) (fe_indent f) (fe_valid_stdin f) (fe_cnt f) (fe_line f) (fe_root f) (fe_stdin f) x.

Definition fe_k (f : front) : kstate := cf_k (fe_conf f).

(** ** Computations that may exit *)

Inductive flow (A : Type) : Type := Go (a : A) | Exit (status : Z).
Arguments Go {A} a.
Arguments Exit {A} status.

Abbreviation F A := (M front (flow A)).

Definition go {A} (a : A) : F A := mreturn (Go a).
Definition leave_with {A} (status : Z) : F A := mreturn (Exit status).
Definition andthen {A B} (m : F A) (k : A → F B) : F B :=
  let! r := m in match r with Go a => k a | Exit status => mreturn (Exit status) end.
Notation "'let~' x ':=' m 'in' k" := (andthen m (λ x, k))
  (at level 10, x pattern, m at level 100, k at level 200,
   format "'[v' 'let~'  x  ':='  m  'in' '/' k ']'") : pr30_scope.
Notation "'do~' m 'in' k" := (andthen m (λ _, k))
  (at level 10, m at level 100, k at level 200,
   format "'[v' 'do~'  m  'in' '/' k ']'") : pr30_scope.

Definition when (b : bool) (m : F ()) : F () := if b then m else go ().
Definition asks {A} (f : front → A) : F A := let! a := mgets f in go a.
Definition modify (f : front → front) : F () := do! mmodify f in go ().
Definition deref {A} (o : option A) : F A := let! a := mderef o in go a.
(** A function of [confdata.c]; a function of [symbol.c] or [menu.c]. *)
Definition of_conf {A} (m : C A) : F A := λ f,
  match m (fe_conf f) with
  | Done (a, c) => Done (Go a, fe_set_conf c f)
  | Crash => Crash
  | NoFuel => NoFuel
  end.
Definition of_store {A} (m : K A) : F A := of_conf (KConf.lift m).
Definition print (s : string) : F () := of_conf (printf s).

(** ** Printing *)

(** [%s] with a pointer that may be NULL. *)
Definition str_null (o : option string) : string := default "(null)"%string o.
(** [%*s] of the empty string and [%*c]. *)
Fixpoint blanks (n : nat) : string := match n with O => EmptyString | S n => String " " (blanks n) end.
Definition wide (n : nat) (c : ascii) : string := blanks (n - 1) +:+ String c "".

(** [const char *] out of [void *]. *)
Definition text_of (v : cval) : F (option string) :=
  match v with VNull => go None | VStr c => go (Some (cs_text c)) | VSym _ => mcrash end.

Definition nohelp_text : string := ln "Sorry, no help available for this option yet.".
Definition help_of (s : sid) : F (option string) := asks (λ f, fe_help f !! s).

(** ** The array [line] *)

(** [memmove] and the loop from the end; [None]: the array is left. *)
Fixpoint strip_end (line : list ascii) (p : nat) : option (list ascii) :=
  let? c := line !! p in
  if isspace c then
    match p with O => None | S q => strip_end (<[p := NUL]> line) q end
  else Some line.
Fixpoint count_spaces (line : list ascii) : option nat :=
  match line with
  | [] => None
  | c :: r => if isspace c then let? n := count_spaces r in Some (S n) else Some 0
  end.
Definition strip (line : list ascii) : option (list ascii) :=
  let? p := count_spaces line in
  let? text := cstr_of (drop p line) in
  let l := String.length text in
  let line := if decide (p ≠ 0) then la text ++ NUL :: drop (S l) line else line in
  match l with O => Some line | S q => strip_end line q end.

(** [line[0] = ...; line[1] = ...]. *)
Definition put_line (cells : list ascii) : F () :=
  modify (λ f, fe_set_line (cells ++ drop (length cells) (fe_line f)) f).
Definition strip_line : F () :=
  let~ line := asks fe_line in
  let~ line := deref (strip line) in
  modify (fe_set_line line).
(** [line[i]] and the string at [line + i]. *)
Definition line_at (i : nat) : F ascii := let~ line := asks fe_line in deref (line !! i).
Definition line_from (i : nat) : F string := let~ line := asks fe_line in deref (cstr_of (drop i line)).

Section Front.
(** The bound for the questions, the random numbers, and the character in front
    of [line], which an empty answer makes [conf_choice] look at. *)
Context (turns : nat) (random : nat → Z) (in_front : ascii).
(** What the rest of the program takes from its surroundings. *)
Context (getenv : string → option string) (gettext : string → string) (ctime : string) (pid : Z)
  (writable : string → bool) (line0 : list ascii).

(** ** Input *)

Definition check_stdin : F () :=
  let~ valid_stdin := asks fe_valid_stdin in
  let~ mode := asks fe_mode in
  if negb valid_stdin && bool_decide (mode = ask_silent) then
    do~ print (gettext (ln "aborted!" +:+ ln "")) in
    do~ print (gettext "Console input/output is redirected. ") in
    do~ print (gettext (ln "Run 'make oldconfig' to update configuration." +:+ ln "")) in
    leave_with 1
  else go ().

(** [fgets_check_stream(line, 128, stdin)]. *)
Definition fgets_check_stream : F () :=
  let~ line := asks fe_line in
  let~ stdin := asks fe_stdin in
  match fgets line stdin with
  | Some (line, rest) => do~ modify (fe_set_line line) in modify (fe_set_stdin rest)
  | None =>
      do~ print (gettext (ln "aborted!" +:+ ln "")) in
      do~ print (gettext "Console input is closed. ") in
      do~ print (gettext (ln "Run 'make oldconfig' to update configuration." +:+ ln "")) in
      leave_with 1
  end.

Definition draw : F Z :=
  let~ n := asks fe_drawn in
  do~ modify (fe_set_drawn (S n)) in
  go (random n).

(** [(tristate)(random() % 3)] *)
Definition tri_of (z : Z) : tristate := if decide (z = 0)%Z then No else if decide (z = 1)%Z then Mod else Yes.
Fixpoint random_tri (n : nat) (s : sid) : F tristate :=
  match n with
  | O => mnofuel
  | S n =>
      let~ z := draw in
      let val := tri_of (Z.rem z 3) in
      let~ ok := of_store (sym_tristate_within_range s val) in
      if ok : bool then go val else random_tri n s
  end.

Definition put_answer (c : ascii) : F () := put_line [c; nl; NUL].

(** The second [switch] over the mode, with its cases that fall through. *)
Definition auto_answer (mode : input_mode) (type : symbol_type) (s : sid) : F () :=
  let on_random :=
    let~ val := random_tri turns s in
    put_answer (match val with No => "n" | Mod => "m" | Yes => "y" end) in
  let on_no :=
    let~ ok := of_store (sym_tristate_within_range s No) in
    if ok : bool then put_answer "n" else on_random in
  let on_mod :=
    if decide (type = S_TRISTATE) then
      let~ ok := of_store (sym_tristate_within_range s Mod) in
      if ok : bool then put_answer "m" else on_no
    else
      let~ ok := of_store (sym_tristate_within_range s Yes) in
      if ok : bool then put_answer "y" else on_no in
  match mode with
  | set_yes =>
      let~ ok := of_store (sym_tristate_within_range s Yes) in
      if ok : bool then put_answer "y" else on_mod
  | set_mod => on_mod
  | set_no => on_no
  | set_random => on_random
  | ask_all | ask_new | ask_silent | set_default => go ()
  end.

Definition conf_askvalue (s : sid) (def : option string) : F () :=
  let~ type := of_store (sym_get_type s) in
  let~ has := of_store (sym_has_value s) in
  do~ when (negb has) (print "(NEW) ") in
  do~ put_line [nl; NUL] in
  let~ changable := of_store (sym_is_changable s) in
  if negb changable then
    do~ print (ln (str_null def)) in
    put_line [nl; NUL]
  else
    let~ mode := asks fe_mode in
    match mode with
    | set_default => print (ln (str_null def))
    | ask_new | ask_silent =>
        if has : bool then print (ln (str_null def))
        else do~ check_stdin in fgets_check_stream
    | ask_all => fgets_check_stream
    | set_no | set_mod | set_yes | set_random =>
        if has : bool then print (ln (str_null def))
        else match type with
             | S_INT | S_HEX | S_STRING => print (ln (str_null def))
             | _ =>
                 do~ auto_answer mode type s in
                 let~ text := line_from 0 in
                 print text
             end
    end.

(** ** Questions *)

(** [printf("%*s%s ", indent - 1, "", menu->prompt->text)] *)
Definition print_prompt (menu : mid) : F () :=
  let~ m := of_store (get_menu menu) in
  let~ p := deref (mn_prompt m) in
  let~ x := of_store (get_prop p) in
  let~ indent := asks fe_indent in
  print (blanks (indent - 1) +:+ str_null (pr_text x) +:+ " ").

Definition conf_string_turn (menu : mid) (s : sid) : F bool :=
  do~ print_prompt menu in
  let~ y := of_store (get_sym s) in
  do~ print ("(" +:+ str_null (cs_text <$> sy_name y) +:+ ") ") in
  let~ v := of_store (sym_get_string_value s) in
  let~ def := text_of v in
  do~ match def with Some d => print ("[" +:+ d +:+ "] ") | None => go () end in
  do~ conf_askvalue s def in
  let~ c0 := line_at 0 in
  let~ def :=
    if isc c0 nl then go def
    else
      let~ c1 := line_at 1 in
      if isc c0 "?" && isc c1 nl then
        let~ help := help_of s in
        do~ print (String nl (ln (str_null help))) in
        go None
      else
        let~ text := line_from 0 in
        match String.length text with
        | O => mcrash
        | S l =>
            do~ modify (λ f, fe_set_line (put_nul (fe_line f) l) f) in
            let~ text := line_from 0 in
            go (Some text)
        end in
  match def with
  | Some d => of_store (sym_set_string_value s d)
  | None => go false
  end.

(** [while (1)] around a turn that says whether it was the last. *)
Fixpoint repeat_until (n : nat) (turn : F bool) : F () :=
  match n with
  | O => mnofuel
  | S n => let~ stop := turn in if stop : bool then go () else repeat_until n turn
  end.

Definition conf_string (menu : mid) : F () :=
  let~ m := of_store (get_menu menu) in
  let~ s := deref (mn_sym m) in
  repeat_until turns (conf_string_turn menu s).

Definition tri_char (t : tristate) : ascii := match t with No => "N" | Mod => "M" | Yes => "Y" end.

(** The [switch] on [line[0]]: a value, [goto help], or [continue]. *)
Inductive reply : Set := Value (t : tristate) | Help | Ask_again.
Definition reply_of (c0 : ascii) (rest : string) (oldval : tristate) : reply :=
  if isc c0 "n" || isc c0 "N" then
    if bool_decide (rest = "" ∨ rest = "o"%string) then Value No else Ask_again
  else if isc c0 "m" || isc c0 "M" then
    if bool_decide (rest = "") then Value Mod else Ask_again
  else if isc c0 "y" || isc c0 "Y" then
    if bool_decide (rest = "" ∨ rest = "es"%string) then Value Yes else Ask_again
  else if isc c0 NUL then Value oldval
  else if isc c0 "?" then Help
  else Ask_again.

Definition print_help (s : sid) : F () :=
  let~ help := help_of s in
  print (String nl (ln (default nohelp_text help))).

(** [printf("/n")] and the like. *)
Definition offer (s : sid) (oldval t : tristate) (text : string) : F () :=
  if decide (oldval ≠ t) then
    let~ ok := of_store (sym_tristate_within_range s t) in when ok (print text)
  else go ().

(** The question: the prompt, the name, the values to choose from. *)
Definition show_sym (menu : mid) (s : sid) : F tristate :=
  do~ print_prompt menu in
  let~ y := of_store (get_sym s) in
  do~ match sy_name y with Some c => print ("(" +:+ cs_text c +:+ ") ") | None => go () end in
  let~ oldval := of_store (sym_get_tristate_value s) in
  do~ print (String "[" (String (tri_char oldval) "")) in
  do~ offer s oldval No "/n" in
  do~ offer s oldval Mod "/m" in
  do~ offer s oldval Yes "/y" in
  let~ help := help_of s in
  do~ when (bool_decide (is_Some help)) (print "/?") in
  do~ print "] " in
  go oldval.

(** What is done with the answer in [line]; [true]: the question is settled. *)
Definition take_reply (s : sid) (oldval : tristate) : F bool :=
  do~ strip_line in
  let~ c0 := line_at 0 in
  let~ rest := if isc c0 NUL then go EmptyString else line_from 1 in
  match reply_of c0 rest oldval with
  | Ask_again => go false
  | Help => do~ print_help s in go false
  | Value newval =>
      let~ ok := of_store (sym_set_tristate_value s newval) in
      if ok : bool then go true else do~ print_help s in go false
  end.

Definition conf_sym_turn (menu : mid) (s : sid) : F bool :=
  let~ oldval := show_sym menu s in
  let~ v := of_store (sym_get_string_value s) in
  let~ def := text_of v in
  do~ conf_askvalue s def in
  take_reply s oldval.

Definition conf_sym (menu : mid) : F () :=
  let~ m := of_store (get_menu menu) in
  let~ s := deref (mn_sym m) in
  repeat_until turns (conf_sym_turn menu s).

(** ** Choices *)

(** [child->sym == def_sym] *)
Definition is_default (def_sym : cval) (s : sid) : bool :=
  match def_sym with VSym d => bool_decide (d = s) | _ => false end.

(** The first loop over the values: their number, and that of the default. *)
Fixpoint list_choices (n : nat) (def_sym : cval) (child : option mid) (cnt def : nat) : F (nat * nat) :=
  match child with
  | None => go (cnt, def)
  | Some child =>
      match n with
      | O => mnofuel
      | S n =>
          let~ visible := of_store (menu_is_visible child) in
          let~ m := of_store (get_menu child) in
          if negb visible then list_choices n def_sym (mn_next m) cnt def
          else
            let~ prompt := of_store (menu_get_prompt gettext child) in
            let~ indent := asks fe_indent in
            match mn_sym m with
            | None =>
                do~ print (wide indent "*" +:+ " " +:+ ln (str_null prompt)) in
                list_choices n def_sym (mn_next m) cnt def
            | Some s =>
                let cnt := S cnt in
                let b := is_default def_sym s in
                do~ print (wide indent (if b then ">" else " ")) in
                do~ print (" " +:+ print_d (Z.of_nat cnt) +:+ ". " +:+ str_null prompt) in
                let~ y := of_store (get_sym s) in
                do~ match sy_name y with Some c => print (" (" +:+ cs_text c +:+ ")") | None => go () end in
                do~ when (negb (has_value y)) (print " (NEW)") in
                do~ print (ln "") in
                list_choices n def_sym (mn_next m) cnt (if b then cnt else def)
            end
      end
  end.

(** The number that is read or set; [None]: [continue]. *)
Definition choose_count (s : sid) (is_new : bool) (cnt def : nat) : F (option Z) :=
  let ask :=
    do~ fgets_check_stream in
    do~ strip_line in
    let~ c0 := line_at 0 in
    if isc c0 "?" then do~ print_help s in go None
    else if isc c0 NUL then go (Some (Z.of_nat def))
    else if isdigit c0 then let~ text := line_from 0 in go (Some (strtoi text 10))
    else go None in
  let set def := do~ print (ln (print_d def)) in go (Some def) in
  let~ mode := asks fe_mode in
  match mode with
  | ask_new | ask_silent => if negb is_new then set (Z.of_nat def) else do~ check_stdin in ask
  | ask_all => ask
  | set_random =>
      let~ z := draw in
      if decide (cnt = 0) then mcrash else set (Z.rem z (Z.of_nat cnt) + 1)%Z
  | set_default | set_yes | set_mod | set_no => set (Z.of_nat def)
  end.

(** The second loop: the value with this number. *)
Fixpoint pick_child (n : nat) (child : option mid) (cnt : Z) : F (option mid) :=
  match child with
  | None => go None
  | Some child =>
      match n with
      | O => mnofuel
      | S n =>
          let~ m := of_store (get_menu child) in
          let~ counts :=
            match mn_sym m with
            | None => go false
            | Some _ => of_store (menu_is_visible child)
            end in
          if negb counts then pick_child n (mn_next m) cnt
          else if decide (cnt - 1 = 0)%Z then go (Some child)
          else pick_child n (mn_next m) (cnt - 1)
      end
  end.

Definition add_indent (d : nat) : F () := modify (λ f, fe_set_indent (fe_indent f + d) f).
Definition sub_indent (d : nat) : F () := modify (λ f, fe_set_indent (fe_indent f - d) f).
Definition loop_fuel : F nat := asks (λ f, menu_fuel (fe_k f)).

(** [line[strlen(line) - 1]] *)
Definition last_char : F ascii :=
  let~ text := line_from 0 in
  match String.length text with O => go in_front | S l => line_at l end.

Section Choice.
(** [conf] *)
Variable conf_rec : mid → F ().

Definition choice_turn (menu : mid) (s : sid) (is_new : bool) : F bool :=
  let~ prompt := of_store (menu_get_prompt gettext menu) in
  let~ indent := asks fe_indent in
  do~ print (blanks (indent - 1) +:+ ln (str_null prompt)) in
  let~ def_sym := of_store (sym_get_choice_value s) in
  do~ put_line ["0"%char; NUL] in
  let~ m := of_store (get_menu menu) in
  let~ n := loop_fuel in
  let~ (cnt, def) := list_choices n def_sym (mn_list m) 0 0 in
  do~ print (blanks (indent - 1) +:+ "choice") in
  let~ count :=
    if decide (cnt = 1) then do~ print (ln "[1]: 1") in go (Some 1%Z)
    else
      do~ print ("[1-" +:+ print_d (Z.of_nat cnt)) in
      let~ help := help_of s in
      do~ when (bool_decide (is_Some help)) (print "?") in
      do~ print "]: " in
      choose_count s is_new cnt def in
  match count with
  | None => go false
  | Some count =>
      let~ child := pick_child n (mn_list m) count in
      match child with
      | None => go false
      | Some child =>
          let~ c := of_store (get_menu child) in
          let~ cs := deref (mn_sym c) in
          let~ last := last_char in
          if isc last "?" then do~ print_help cs in go false
          else
            do~ of_store (sym_set_choice_value s cs) in
            do~ match mn_list c with
                | Some first => do~ add_indent 2 in do~ conf_rec first in sub_indent 2
                | None => go ()
                end in
            go true
      end
  end.

Definition conf_choice (menu : mid) : F () :=
  let~ m := of_store (get_menu menu) in
  let~ s := deref (mn_sym m) in
  let~ has := of_store (sym_has_value s) in
  let~ changable := of_store (sym_is_changable s) in
  let~ t :=
    if changable : bool then
      do~ conf_sym menu in
      do~ of_store (sym_calc_value s) in
      of_store (sym_get_tristate_value s)
    else
      let~ t := of_store (sym_get_tristate_value s) in
      do~ when (bool_decide (t = Mod))
            (let~ prompt := of_store (menu_get_prompt gettext menu) in
             let~ indent := asks fe_indent in
             print (blanks (indent - 1) +:+ ln (str_null prompt))) in
      go t in
  match t with
  | Yes => repeat_until turns (choice_turn menu s (negb has))
  | No | Mod => go ()
  end.
End Choice.

(** ** Menus *)

(** [for (child = menu->list; child; child = child->next) body(child);] *)
Fixpoint each_child (n : nat) (body : mid → F ()) (child : option mid) : F () :=
  match child with
  | None => go ()
  | Some c =>
      match n with
      | O => mnofuel
      | S n =>
          do~ body c in
          let~ m := of_store (get_menu c) in
          each_child n body (mn_next m)
      end
  end.

Definition banner (menu : mid) : F () :=
  let~ prompt := of_store (menu_get_prompt gettext menu) in
  let~ indent := asks fe_indent in
  match prompt with
  | Some t => print (ln (wide indent "*") +:+ wide indent "*" +:+ " " +:+ ln t +:+ ln (wide indent "*"))
  | None => go ()
  end.

(** The [switch] over the type of the prompt; [check] is [check_conf(menu)],
    after which [conf] returns: [true]. *)
Definition conf_head (check : F ()) (entry : mid) (m : menu) : F bool :=
  match mn_prompt m with
  | None => go false
  | Some p =>
      let~ x := of_store (get_prop p) in
      match pr_type x with
      | P_MENU =>
          let~ mode := asks fe_mode in
          let~ root := asks fe_root in
          if bool_decide (mode = ask_silent ∧ root ≠ Some entry) then do~ check in go true
          else do~ banner entry in go false
      | P_COMMENT => do~ banner entry in go false
      | _ => go false
      end
  end.

(** [conf_childs] *)
Definition conf_childs (body : mid → F ()) (m : menu) : F () :=
  let d := match mn_sym m with Some _ => 2 | None => 0 end in
  do~ add_indent d in
  let~ n := loop_fuel in
  do~ each_child n body (mn_list m) in
  sub_indent d.

(** The question of an entry with a symbol; whether [conf] goes on below it. *)
Definition conf_entry (conf_rec : mid → F ()) (menu : mid) (s : sid) : F bool :=
  let~ y := of_store (get_sym s) in
  if is_choice y then
    do~ conf_choice conf_rec menu in
    let~ y := of_store (get_sym s) in
    go (bool_decide (sv_tri (sy_curr y) = Mod))
  else
    do~ match sy_type y with
        | S_INT | S_HEX | S_STRING => conf_string menu
        | _ => conf_sym menu
        end in
    go true.

(** The condition of [check_conf]: a question that was never answered. *)
Definition unanswered (s : sid) : F bool :=
  let~ has := of_store (sym_has_value s) in
  if has : bool then go false
  else
    let~ changable := of_store (sym_is_changable s) in
    if changable : bool then go true
    else
      let~ choice := of_store (sym_is_choice s) in
      if choice : bool then
        let~ t := of_store (sym_get_tristate_value s) in go (bool_decide (t = Yes))
      else go false.

Fixpoint conf (n : nat) (menu : mid) : F () :=
  match n with
  | O => mnofuel
  | S n =>
      let~ visible := of_store (menu_is_visible menu) in
      if negb visible then go ()
      else
        let~ m := of_store (get_menu menu) in
        let~ over := conf_head (check_conf n menu) menu m in
        if over : bool then go ()
        else
          let~ below := match mn_sym m with None => go true | Some s => conf_entry (conf n) menu s end in
          if below : bool then conf_childs (conf n) m else go ()
  end
with check_conf (n : nat) (menu : mid) : F () :=
  match n with
  | O => mnofuel
  | S n =>
      let~ visible := of_store (menu_is_visible menu) in
      if negb visible then go ()
      else
        let~ m := of_store (get_menu menu) in
        let~ open := match mn_sym m with None => go false | Some s => unanswered s end in
        do~ when open
              (let~ cnt := asks fe_cnt in
               do~ when (bool_decide (cnt = 0)) (print (gettext (ln "*" +:+ ln "* Restart config..." +:+ ln "*"))) in
               do~ modify (fe_set_cnt (S cnt)) in
               let~ r := of_store (menu_get_parent_menu menu) in
               do~ modify (fe_set_root (Some r)) in
               conf n r) in
        let~ l := loop_fuel in
        each_child l (check_conf n) (mn_list m)
  end.

(** ** The program *)

(** [do { conf_cnt = 0; check_conf(&rootmenu); } while (conf_cnt);] *)
Fixpoint check_all (n : nat) (depth : nat) : F () :=
  match n with
  | O => mnofuel
  | S n =>
      do~ modify (fe_set_cnt 0) in
      do~ check_conf depth rootmenu in
      let~ cnt := asks fe_cnt in
      if decide (cnt = 0) then go () else check_all n depth
  end.

(** [conf] is entered with the root menu, and [conf_write] is called at the
    end; the result is that of [main].  The message on [stderr] when writing
    failed is left out. *)
Definition ask_and_write (depth : nat) : F Z :=
  let~ mode := asks fe_mode in
  do~ when (bool_decide (mode ≠ ask_silent))
        (do~ modify (fe_set_root (Some rootmenu)) in
         do~ conf depth rootmenu in
         when (bool_decide (mode = ask_all)) (modify (fe_set_mode ask_silent true))) in
  do~ check_all turns depth in
  let~ failed := of_conf (conf_write getenv gettext ctime pid writable None) in
  go (if failed : bool then 1 else 0)%Z.

(** The description: the files that [zconf_fopen] finds, [glob], the contents of
    fresh memory, the values of three symbols that [sym_init] takes from the
    system, and what the generated parser does with tokens outside the
    grammar. *)
Context (fopen : string → option string) (glob : string → globbed) (junk : nat → ascii)
  (arch version : option string) (release : string)
  (recover : list (lexeme * option string) → F ()).

(** [conf_parse(name)] *)
Definition parse_description (name : string) : F () := λ f,
  match scan_tokens junk fopen glob turns name scanner_start with
  | Done (None, _) => Done (Exit 1, f)
  | Done (Some ts, _) =>
      match parse_tokens ts with
      | None => recover ts f
      | Some input =>
          match conf_parse arch version release input (Parser (fe_k f) 0 (fe_help f) []) with
          | Done (Exited status, _) => Done (Exit (Z.of_nat status), f)
          | Done (Parsed, p) => Done (Go (), fe_set_help (ps_help p) (fe_set_conf (cf_set_k (ps_k p) (fe_conf f)) f))
          | Crash => Crash
          | NoFuel => NoFuel
          end
      end
  | Crash => Crash
  | NoFuel => NoFuel
  end.

(** The option in front of the name: the mode, and the rest of the arguments
    with [defconfig_file].  [isatty] is whether all three streams are. *)
Definition read_option (isatty : bool) (program : string) (av : list string) : F (option string * list string) :=
  match av with
  | String a r :: av' =>
      if isc a "-" then
        let c := char_at r in
        let mode m := do~ modify (fe_set_mode m true) in go (None, av') in
        if isc c "o" then mode ask_new
        else if isc c "s" then do~ modify (fe_set_mode ask_silent isatty) in go (None, av')
        else if isc c "d" then mode set_default
        else if isc c "D" then
          do~ modify (fe_set_mode set_default true) in
          match av' with
          | file :: av' => go (Some file, av')
          | [] =>
              let~ msg := deref (fmt_s (gettext (ln "%s: No default config file specified")) [program]) in
              do~ print msg in leave_with 1
          end
        else if isc c "n" then mode set_no
        else if isc c "m" then mode set_mod
        else if isc c "y" then mode set_yes
        else if isc c "r" then mode set_random
        else if isc c "h" || isc c "?" then
          do~ print (program +:+ ln " [-o|-s] config") in leave_with 0
        else go (None, av')
      else go (None, av)
  | _ => go (None, av)
  end.

(** The second [switch] of [main]: reading the configuration. *)
Definition load (defconfig_file : option string) : F () :=
  let read_default := do~ of_conf (conf_read getenv gettext line0 None) in go () in
  let~ mode := asks fe_mode in
  match mode with
  | set_default =>
      let~ name :=
        match defconfig_file with
        | Some name => go name
        | None => of_conf (conf_get_default_confname getenv)
        end in
      let~ failed := of_conf (conf_read getenv gettext line0 (Some name)) in
      if failed : bool then
        do~ print (ln "***" +:+ "*** Can't find default configuration " +:+ String dq (name +:+ String dq (ln "!" +:+ ln "***"))) in
        leave_with 1
      else go ()
  | ask_silent =>
      let~ c := asks fe_conf in
      if bool_decide (is_Some (cf_files c !! ".config"%string) ∨ ".config"%string ∈ cf_dirs c) then read_default
      else
        do~ print (gettext (ln "***" +:+ ln "*** You have not yet configured your build!" +:+ ln "***" +:+
          ln ("*** Please run some configurator (e.g. " +:+ String dq ("make oldconfig" +:+ String dq " or")) +:+
          ln ("*** " +:+ String dq ("make menuconfig" +:+ String dq (" or " +:+ String dq ("make xconfig" +:+ String dq ").")))) +:+
          ln "***")) in
        leave_with 1
  | _ => read_default
  end.

Definition main (isatty : bool) (depth : nat) (program : string) (av : list string) : F Z :=
  let~ (defconfig_file, av) := read_option isatty program av in
  match av with
  | [] =>
      let~ msg := deref (fmt_s (gettext (ln "%s: Kconfig file missing")) [program]) in
      do~ print msg in mcrash
  | name :: _ =>
      do~ parse_description name in
      do~ load defconfig_file in
      ask_and_write depth
  end.
End Front.
