(* ===== verification/KAskKeep.v ===== *)
(** * Settings that keep every value

    [kf] is a configuration with everything calculated.  A store in which some
    symbols have their value of [kf] as a setting, and the others the setting
    they have in [kf], calculates the values of [kf]; and giving a symbol its
    own value as a setting leads to such a store again. *)
From S2P Require Import Prelude CLib CStr KData KExpr KState KSymbol KSymFrame KSymRef KSymSolve KSymTab KSymUnique KSymSet.
From S2P Require Import KMenu KMenuTree KConf KConfText KConfLine KCalc KConfLoad KConfSave KConfFile KConfReset KConfValues KConfRound KConfSafe.
Open Scope pr30_scope.

(** The user has set [s]; nothing that was set is new again. *)
Definition answered (k : kstate) (s : sid) : Prop := ∃ y, ks_syms k !! s = Some y ∧ has_value y = true.
Definition answers (k k' : kstate) : Prop := ∀ s, answered k s → answered k' s.

Lemma calced_answers k k' : calced k k' → answers k k'.
Proof.
  intros D s (y & H & V). destruct (core_sym k k' s y (cd_core _ _ D) H) as (y' & H' & C). exists y'. split; [done|].
  by pose proof (sy_core_inv _ _ C) as (_ & _ & _ & _ & _ & _ & -> & _).
Qed.

(** [y] has the setting of [yf], or the value of [yf] as its setting. *)
Definition adopts (yf y : symbol) : Prop :=
  (has_value y = has_value yf ∧ sy_user y = sy_user yf) ∨ user_of (setting_of_sym yf) y.
Lemma adopts_keeps yf y : adopts yf y → keeps_setting yf y.
Proof. intros [A|A]; [by left|right; by left]. Qed.

Section Keep.
Context (kf : kstate) (Pf : plain kf) (Al : all_solved kf) (Ro : ranges_ok kf) (Lf : listed kf).

Record keeps (k : kstate) : Prop := {
  kp_ready : ready k;
  kp_setup : same_setup kf k;
  kp_prompted : prompted k;
  kp_marks : ks_change_count k = 0%Z ∨ ∀ u, valid_in k u → marked_in k u;
  kp_set : ∀ s yf y, ks_syms kf !! s = Some yf → ks_syms k !! s = Some y → typed yf → adopts yf y;
}.

Lemma keeps_value k s y : keeps k → ks_syms k !! s = Some y → valid y = true →
  ∃ yf, ks_syms kf !! s = Some yf ∧ val_eq y yf.
Proof using All.
  intros Kp. apply (all_values kf k Pf (re_plain _ (kp_ready _ Kp)) Al Ro (kp_setup _ Kp) (re_solved _ (kp_ready _ Kp))). intros t yt z Ht Hz T. by apply adopts_keeps, (kp_set _ Kp t).
Qed.

Lemma keeps_agree k : keeps k → agree (λ _, True) k kf.
Proof using All.
  intros Kp. split; [|apply setup_agree_prop, (kp_setup _ Kp)].
  intros t y _ Hs. destruct (ref_sym_valid _ _ _ Hs) as [(z & Hz & Vz) H]. assert (z = y) as -> by congruence.
  destruct (keeps_value k t y Kp H Vz) as (yf & Hf & E). exists yf. split; [|done].
  apply ref_sym_Some; [done|]. destruct (Al t) as (z & ? & ? & _); [eauto|]. congruence.
Qed.

Lemma keeps_vis k i b : keeps k → vis k i b → vis kf i b.
Proof using All.
  intros Kp. apply vis_stable; [|by apply keeps_agree]. symmetry. apply (ss_menu _ _ (kp_setup _ Kp)).
Qed.

Lemma adopts_core yf y y' : sy_core y' = sy_core y → adopts yf y → adopts yf y'.
Proof.
  intros C. pose proof (sy_core_inv _ _ C) as (_ & _ & Eu & _ & _ & _ & Eh & _).
  unfold adopts, user_of. by rewrite Eu, Eh.
Qed.

Lemma keeps_set_core k k' : keeps k → ks_core k' = ks_core k →
  ∀ s yf y, ks_syms kf !! s = Some yf → ks_syms k' !! s = Some y → typed yf → adopts yf y.
Proof.
  intros Kp C s yf y' Hf H' T. destruct (core_sym k' k s y' (eq_sym C) H') as (y & H & Cy).
  eapply adopts_core; [symmetry; exact Cy|]. by apply (kp_set _ Kp s).
Qed.

Lemma setup_core k k' : ks_core k' = ks_core k → same_setup k k'.
Proof. intros C. apply alike_setup. exact (f_equal (ks_set_change_count 0) C). Qed.

Lemma keeps_calced k k' : keeps k → calced k k' → keeps k'.
Proof using All.
  intros Kp D. pose proof (cd_core _ _ D) as C. split.
  - eapply calced_ready; [done|apply Kp].
  - eapply setup_trans; [apply Kp|by apply setup_core].
  - eapply calced_prompted; [done|apply Kp].
  - destruct (kp_marks k Kp) as [E|M].
    + left. rewrite <-E. exact (f_equal ks_change_count C).
    + right. intros u V. destruct (decide (valid_in k u)) as [Vk|N]; [|by apply (cd_mark _ _ D)].
      intros y H. rewrite (cd_same _ _ D) in H by done. by apply (M u).
  - by apply (keeps_set_core k).
Qed.

(** Marking symbols as changed keeps what is calculated. *)
Lemma keeps_touch k k' : keeps k → touch unmarked k k' → wrote k k' → keeps k'.
Proof using All.
  intros Kp T W. pose proof (to_core _ _ _ T) as C. pose proof (kp_ready _ Kp) as [P [Cy Cm] A].
  assert (V : ∀ u, valid_in k u → valid_in k' u).
  { intros u (y & H & Vy). destruct (to_sym _ _ _ T u y H) as (y' & H' & _ & _ & E). exists y'. by rewrite E by (by intros []). }
  assert (Vb : ∀ u, valid_in k' u → valid_in k u).
  { intros u (y' & H' & Vy'). destruct (touch_back _ _ _ _ _ T H') as (y & H & _ & E & _). exists y. auto. }
  assert (Ag : agree (λ _, True) k k').
  { split; [|by apply core_props]. intros t y _ Hs. destruct (ref_sym_valid _ _ _ Hs) as [(z & Hz & Vz) H].
    assert (z = y) as -> by congruence. destruct (to_sym _ _ _ T t y H) as (y' & H' & Sv & _ & E). exists y'.
    split; [|by apply same_value_eq]. apply ref_sym_Some; [done|]. by rewrite E by (by intros []). }
  split.
  - split; [by eapply plain_core|split; auto|by eapply touch_solved].
  - eapply setup_trans; [apply Kp|by apply setup_core].
  - intros u Vu y' H' T1 T2 p x Hp Hx Tx. destruct (touch_back _ _ _ _ _ T H') as (y & H & Sv & _ & _).
    pose proof (sy_core_inv _ _ (proj1 Sv)) as (_ & Et & _ & Ep & _). rewrite (to_props _ _ _ T) in Hx.
    eapply (ref_null_stable _ _ _ Ag); [done|]. apply (kp_prompted _ Kp u (Vb u Vu) y H) with p; congruence.
  - destruct (kp_marks k Kp) as [E|M]; [left; rewrite <-E; exact (f_equal ks_change_count C)|right].
    intros u Vu y' H' T1 T2 N. destruct (touch_back _ _ _ _ _ T H') as (y & H & (Cy' & _ & Ev & _) & _).
    destruct (W u y' H') as (z & Hz & ->). assert (z = y) as -> by congruence.
    apply sy_core_inv in Cy' as (_ & Et & _). apply (M u (Vb u Vu) y H); congruence.
  - by apply (keeps_set_core k).
Qed.

(** ** Giving a symbol its own value *)

(** [z] is [y] with another setting. *)
Record renewed (y z : symbol) : Prop := {
  rn_kind : same_kind z y;
  rn_curr : sy_curr z = sy_curr y;
  rn_visible : sy_visible z = sy_visible y;
  rn_rev : sy_rev_dep_tri z = sy_rev_dep_tri y;
  rn_valid : valid z = valid y;
  rn_writes : writes z = writes y;
  rn_const : is_const z = is_const y;
}.

Lemma renewed_agree k s y z : ks_syms k !! s = Some y → renewed y z → agree (λ _, True) k (set_sym s z k).
Proof.
  intros H Rn. split; [|done]. intros t x _ Hs. destruct (ref_sym_valid _ _ _ Hs) as [(w & Hw & Vw) Hx].
  assert (w = x) as -> by congruence. unfold ref_sym. simpl. destruct (decide (t = s)) as [->|N].
  - rewrite lookup_insert_eq. assert (x = y) as -> by congruence. rewrite (rn_valid _ _ Rn), Vw. exists z.
    split; [done|]. destruct (rn_kind _ _ Rn) as ((Et & _) & _). unfold val_eq, string_value.
    by rewrite (rn_curr _ _ Rn), Et.
  - rewrite lookup_insert_ne, Hx, Vw by done. by exists x.
Qed.

Lemma renewed_row y z : renewed y z → row z = row y ∧ same_shape z y.
Proof. intros [(Sh & En & Ec & Ev) _ _ _ _ _ Ek]. destruct Sh as (Et & Sh). unfold row. by rewrite En, Ec, Ev, Ek, Et. Qed.

Lemma keeps_renew k s y z :
  keeps k → ks_syms k !! s = Some y → typed y → renewed y z →
  (∀ yf, ks_syms kf !! s = Some yf → adopts yf z) → (valid y = true → equations k s z) →
  (sy_type y = S_STRING ∨ sy_type y = S_INT ∨ sy_type y = S_HEX → ∃ c, sv_val (sy_user z) = VStr c) →
  keeps (set_sym s z k).
Proof using All.
  intros Kp H Ty Rn Ks Eq Us. pose proof (kp_ready _ Kp) as [P [Cy Cm] A].
  destruct (renewed_row y z Rn) as [Ro' Sh]. pose proof (renewed_agree k s y z H Rn) as Ag.
  pose proof (setup_set s y z k H Ro' Sh) as Se. set (k0 := set_sym s z k) in *.
  assert (L : ∀ t x, ks_syms k0 !! t = Some x → (t = s ∧ x = z) ∨ (t ≠ s ∧ ks_syms k !! t = Some x)).
  { intros t x Hx. simpl in Hx. destruct (decide (t = s)) as [->|N].
    - rewrite lookup_insert_eq in Hx. left. split; congruence.
    - rewrite lookup_insert_ne in Hx by done. by right. }
  assert (V : ∀ u, valid_in k0 u ↔ valid_in k u).
  { intros u. unfold valid_in. simpl. destruct (decide (u = s)) as [->|N].
    - rewrite lookup_insert_eq, H. split; intros (x & [= <-] & Vx).
      + exists y. by rewrite <-(rn_valid _ _ Rn). + exists z. by rewrite (rn_valid _ _ Rn).
    - by rewrite lookup_insert_ne. }
  assert (Et : sy_type z = sy_type y) by apply Sh. split.
  - split; [|split; by apply V|].
    + apply (plain_setup k); [done| |done]. intros t x Hx Tx Hv.
      destruct (L t x Hx) as [[-> ->]|[_ Hx']]; [apply Us; by rewrite <-Et|by apply (pl_user k P t)].
    + intros t Vt. pose proof Vt as (x & Hx & Vx). destruct (L t x Hx) as [[-> ->]|[N Hx']].
      * exists z. split_and!; [done..|]. eapply equations_stable; [exact Ag|done|]. apply Eq. by rewrite <-(rn_valid _ _ Rn).
      * eapply (solved_own k k0 t x x); [|done..|by apply A, V]. by eapply agree_weaken; [|exact Ag].
  - eapply setup_trans; [apply Kp|done].
  - intros u Vu x Hx T1 T2 p q Hp Hq Tq. eapply (ref_null_stable _ _ _ Ag); [done|]. apply V in Vu.
    destruct (L u x Hx) as [[-> ->]|[N Hx']]; [|by apply (kp_prompted _ Kp u Vu x Hx') with p].
    destruct Sh as (_ & Ep & _). rewrite Ep in Hp. rewrite Et in T1, T2. by apply (kp_prompted _ Kp s Vu y H) with p.
  - destruct (kp_marks k Kp) as [E|M]; [by left|right]. intros u Vu x Hx. apply V in Vu.
    destruct (L u x Hx) as [[-> ->]|[N Hx']]; [|by apply (M u)].
    unfold marked. rewrite Et, (rn_visible _ _ Rn), (rn_writes _ _ Rn). apply (M s Vu y H).
  - intros t yf x Hf Hx Tf. destruct (L t x Hx) as [[-> ->]|[N Hx']]; [by apply Ks|by apply (kp_set _ Kp t)].
Qed.

Lemma logic_again k y z v :
  logic_type y → same_kind z y → sy_visible z = sy_visible y → sy_rev_dep_tri z = sy_rev_dep_tri y →
  has_value z = true → sv_tri (sy_user z) = v → ref_visible k y = Some (sy_visible y) →
  (ref_deselected k y = Some false → ref_rev k y = Some (sy_rev_dep_tri y)) → ref_logic k y = Some v →
  ref_logic k z = Some v.
Proof.
  intros T (Sh & _) Ev Er Hv Hu Vi Re. destruct (shape_ref k z y Sh) as (_ & Ed & _ & Edf). pose proof Sh as (Et & _).
  unfold ref_logic. rewrite Ed, Ev, Er, Et, Hv, Hu, Edf. destruct (ref_deselected k y) as [[]|] eqn:D; [done| |done].
  case_decide; [done|]. destruct (if has_value y then Some (sv_tri (sy_user y)) else ref_default k y) as [b|]; [|done].
  intros [= <-]. f_equal. apply (logic_fixed false); [|done]. intros _ Tb. split.
  - eapply boolean_visible; [exact Vi|congruence].
  - eapply boolean_rev; [by apply Re|done].
Qed.

(** The user has given [s] the value it has. *)
Lemma keeps_set_tri k s y :
  keeps k → ks_syms k !! s = Some y → valid y = true → logic_type y →
  keeps (set_to s (sv_tri (sy_curr y)) y k).
Proof using All.
  intros Kp H V T. set (v := sv_tri (sy_curr y)). set (z := with_user v (no_new y)).
  assert (Hv : has_value z = true) by (unfold has_value; simpl; by rewrite has_flag_cleared).
  assert (Ty : typed y) by (unfold typed; destruct T as [-> | ->]; done).
  apply (keeps_renew k s y z); [done..| | |intros _|].
  - split; try done; [apply kind_set_to|unfold valid|unfold writes|unfold is_const]; simpl; by rewrite has_flag_clear.
  - intros yf Hf. right. destruct (keeps_value k s y Kp H V) as (yf' & Hf' & (Et & Ev & _)).
    assert (yf' = yf) as -> by congruence. split; [done|]. unfold setting_of_sym. rewrite Et.
    by destruct T as [-> | ->].
  - destruct (re_solved _ (kp_ready _ Kp) s) as (y0 & H0 & _ & E); [by exists y|]. assert (y0 = y) as -> by congruence.
    unfold equations in E |- *. change (sy_type z) with (sy_type y).
    destruct (shape_ref k z y (proj1 (kind_set_to v y))) as (E1 & E2 & E3 & _).
    assert (G : ref_visible k z = Some (sy_visible z) ∧ (ref_deselected k z = Some false → ref_rev k z = Some (sy_rev_dep_tri z)) ∧
      ref_logic k z = Some (sv_tri (sy_curr z)) ∧ sv_val (sy_curr z) = VStr lit_n).
    { rewrite E1, E2, E3. destruct T as [T|T]; rewrite T in E; destruct E as (A1 & A2 & A3 & A4);
        (split_and!; [done..|apply (logic_again k y z v); try done; [unfold logic_type; rewrite T; auto|apply kind_set_to]|done]). }
    destruct T as [-> | ->]; exact G.
  - intros T'. destruct T as [T|T]; rewrite T in T'; intuition done.
Qed.

Lemma keeps_listed k : keeps k → listed k.
Proof using Lf. intros Kp. eapply listed_setup; [apply Kp|done]. Qed.

Lemma keeps_untyped k : keeps k → untyped_solved_in k.
Proof. intros Kp. apply ready_untyped; apply (kp_ready _ Kp). Qed.

Lemma ask_tri k s y :
  keeps k → ks_syms k !! s = Some y → valid y = true → logic_type y →
  ∃ k', sym_set_tristate_value s (sv_tri (sy_curr y)) k = Done (true, k') ∧ keeps k' ∧ answers k k' ∧ answered k' s.
Proof using All.
  intros Kp H V T. pose proof (re_plain _ (kp_ready _ Kp)) as P. destruct (pl_choice k P s y H) as [_ Nc].
  destruct (set_tristate_run k s y (sv_tri (sy_curr y)) P (keeps_listed k Kp) (keeps_untyped k Kp) H T Nc) as (k' & E & Q); [by left|].
  exists k'. split; [done|]. rewrite decide_True in Q by done. destruct Q as [To W].
  set (z := with_user (sv_tri (sy_curr y)) (no_new y)).
  assert (L : ∀ t x, ks_syms (set_to s (sv_tri (sy_curr y)) y k) !! t = Some x → (has_value x = true → answered k' t)).
  { intros t x Hx Hv. destruct (to_sym _ _ _ To t x Hx) as (x' & Hx' & (C & _) & _). exists x'. split; [done|].
    by pose proof (sy_core_inv _ _ C) as (_ & _ & _ & _ & _ & _ & -> & _). }
  assert (Hz : has_value z = true) by (unfold has_value; simpl; by rewrite has_flag_cleared).
  split_and!.
  - eapply keeps_touch; [by apply keeps_set_tri|done|]. intros t x Hx. destruct (W t x Hx) as (w & Hw & Ew).
    simpl. destruct (decide (t = s)) as [->|N].
    + rewrite lookup_insert_eq. eexists. split; [done|]. rewrite Ew. assert (w = y) as -> by congruence.
      unfold writes. simpl. by rewrite has_flag_clear.
    + rewrite lookup_insert_ne by done. eauto.
  - intros t (x & Hx & Hv). destruct (decide (t = s)) as [->|N].
    + apply (L s z); [apply lookup_insert_eq|done].
    + apply (L t x); [|done]. simpl. by rewrite lookup_insert_ne.
  - apply (L s z); [apply lookup_insert_eq|done].
Qed.

(** ** Strings and numbers *)

Definition based (y : symbol) (base : Z) : Prop := sy_type y = S_INT ∧ base = 10%Z ∨ sy_type y = S_HEX ∧ base = 16%Z.

Lemma solved_string k s y : solved k s → ks_syms k !! s = Some y → sy_type y = S_STRING ∨ sy_type y = S_INT ∨ sy_type y = S_HEX →
  ref_visible k y = Some (sy_visible y) ∧ ∃ c, sy_curr y = SValue (VStr c) No ∧ ref_string k y = Some (cs_text c).
Proof.
  intros (z & Hz & _ & E) H T. assert (z = y) as -> by congruence. unfold equations in E.
  by destruct T as [T|[T|T]]; rewrite T in E.
Qed.

(** The number of a symbol is inside the first visible range. *)
Lemma value_in_range k s y c base p q l r lo :
  keeps k → ks_syms k !! s = Some y → valid y = true → based y base → sv_val (sy_curr y) = VStr c →
  ref_first k P_RANGE (sy_prop y) = Some (Some p) → ks_props k !! p = Some q → pr_expr q = Some (Erange l r) →
  ref_bound k l base = Some lo →
  (lo <= strtoi (cs_text c) base)%Z ∧ ∀ hi, ref_bound k r base = Some hi → (strtoi (cs_text c) base <= hi)%Z.
Proof using All.
  intros Kp H V B Ec F Hq Eq Lo. pose proof (keeps_agree k Kp) as Ag.
  destruct (keeps_value k s y Kp H V) as (yf & Hf & (Et & _ & _ & Ev)).
  destruct (setup_back kf k s y (kp_setup _ Kp) H) as (yf' & Hf' & _ & (_ & Ep & _)). assert (yf' = yf) as -> by congruence.
  destruct (solved_string kf s yf) as (_ & cf & Ecf & Sf); [eauto|done|rewrite Et; destruct B as [[-> _]|[-> _]]; auto|].
  rewrite Ecf, Ec in Ev. simpl in Ev. injection Ev as Ev. rewrite <-Ev.
  destruct (agree_prop _ _ _ p q Ag Hq) as (qf & Hqf & (_ & _ & _ & Eqf & _)%pr_core_inv). rewrite Eq in Eqf.
  assert (Ff : ref_first kf P_RANGE (sy_prop yf) = Some (Some p)).
  { rewrite <-Ep. apply (ref_first_stable _ _ _ Ag); [by intros ? ? ?|done]. }
  assert (Bf : based yf base) by (unfold based; by rewrite Et).
  assert (Lof : ref_bound kf l base = Some lo) by (by apply (ref_bound_stable _ _ _ Ag)).
  destruct (ref_first_In _ _ _ _ Ff) as (Hp & qz & Hqz & Tz). assert (qz = qf) as -> by congruence.
  assert (Hi : ∃ hi, ref_bound kf r base = Some hi).
  { apply solved_bound, Al, (pl_reads kf Pf s). eapply reads_prop; eauto. unfold prop_reads. rewrite Tz, Eqf. set_solver. }
  destruct Hi as [hi Hi].
  assert (Le : (lo <= hi)%Z) by (by apply (Ro s yf p qf l r base lo hi)).
  pose proof (string_in_range kf yf cf base p qf l r lo hi Bf Sf Ff Hqf Eqf Lof Hi Le) as In.
  split; [lia|]. intros hi' Hi'. apply (ref_bound_stable _ _ _ Ag) in Hi'; [|done]. assert (hi' = hi) as -> by congruence. lia.
Qed.

Lemma runs_within k s y c base :
  keeps k → ks_syms k !! s = Some y → valid y = true → based y base → sv_val (sy_curr y) = VStr c →
  runs (within_range s (cs_text c) base) k (λ b k', b = true ∧ ref_range k' y (cs_text c) = Some (cs_text c)).
Proof using All.
  intros Kp H V B Ec. unfold within_range, sym_get_range_prop.
  assert (Bs : (match sy_type y with S_INT => Some 10%Z | S_HEX => Some 16%Z | _ => None end) = Some base)
    by (by destruct B as [[-> ->]|[-> ->]]).
  eapply runs_bind; [apply (runs_isp s); [by exists y|]; intros I; by apply (isp_first (calc_fuel k) s _ (calc_of _ s) P_RANGE k y)|].
  intros o k1 D1 F1. simpl in F1. unfold ref_range. rewrite Bs.
  destruct o as [p|]; [|apply runs_ret; by rewrite F1].
  pose proof (keeps_calced k k1 Kp D1) as K1. assert (H1 : ks_syms k1 !! s = Some y) by (rewrite (cd_same _ _ D1); [done|by exists y]).
  destruct (ref_first_In _ _ _ _ F1) as (Hp & q & Hq & Tq).
  destruct (pl_props k1 (re_plain _ (kp_ready _ K1)) s y p H1 Hp) as (q' & Hq' & _ & Er & _). assert (q' = q) as -> by congruence.
  destruct (Er Tq) as (l & r & Eq). eapply (runs_pure _ (l, r)); [unfold range_syms, mthen, get_prop; rewrite Hq; simpl; by rewrite Eq|].
  assert (Rd : ∀ t, t ∈ [l; r] → reads k1 s t).
  { intros t Ht. eapply reads_prop; [done..|]. unfold prop_reads. rewrite Tq, Eq. simpl. set_solver. }
  eapply runs_bind; [apply (runs_isp s); [by exists y|]; intros I; apply (isp_range_val (calc_fuel k1) s _ (calc_of _ s)); [apply Rd; by left|done]|].
  intros lo k2 D2 L2. simpl in L2. pose proof (keeps_calced k1 k2 K1 D2) as K2.
  assert (H2 : ks_syms k2 !! s = Some y) by (rewrite (cd_same _ _ D2); [done|by exists y]).
  assert (F2 : ref_first k2 P_RANGE (sy_prop y) = Some (Some p)).
  { apply (ref_first_stable (λ _, True) k1 k2 (calced_agree _ _ _ D2)); [by intros ? ? ?|done]. }
  destruct (core_prop k1 k2 p q (cd_core _ _ D2) Hq) as (q2 & Hq2 & (_ & _ & _ & Eq2 & _)%pr_core_inv). rewrite Eq in Eq2.
  destruct (value_in_range k2 s y c base p q2 l r lo K2 H2 V B Ec F2 Hq2 Eq2 L2) as [Lo Hi].
  rewrite (proj2 (Z.leb_le _ _) Lo).
  eapply runs_bind; [apply (runs_isp s); [by exists y|]; intros I; apply (isp_range_val (calc_fuel k2) s _ (calc_of _ s));
    [eapply core_reads; [apply D2|]; apply Rd; by right; left|done]|].
  intros hi k3 D3 H3. simpl in H3. apply runs_ret.
  assert (Ag3 : agree (λ _, True) k2 k3) by (by apply calced_agree).
  destruct (core_prop k2 k3 p q2 (cd_core _ _ D3) Hq2) as (q3 & Hq3 & (_ & _ & _ & Eq3 & _)%pr_core_inv). rewrite Eq2 in Eq3.
  assert (Hle : (strtoi (cs_text c) base <= hi)%Z).
  { pose proof (keeps_calced k2 k3 K2 D3) as K3.
    eapply (value_in_range k3 s y c base p q3 l r lo K3); try done.
    - by rewrite (cd_same _ _ D3) by (by exists y).
    - by apply (ref_first_stable _ _ _ Ag3); [intros ? ? ?|].
    - by apply (ref_bound_stable _ _ _ Ag3). }
  rewrite (ref_first_stable _ _ _ Ag3 _ _ _ ltac:(by intros ? ? ?) F2), Hq3, Eq3, (ref_bound_stable _ _ _ Ag3 _ _ _ Logic.I L2), H3.
  by rewrite (proj2 (Z.leb_le _ _) Lo), (proj2 (Z.leb_le _ _) Hle).
Qed.

Lemma text_again k y z t :
  same_kind z y → sy_visible z = sy_visible y → ref_string k y = Some t → ref_range k y t = Some t →
  has_value z = true → cval_text (sv_val (sy_user z)) = Some t → ref_string k z = Some t.
Proof.
  intros ((Et & Ep & _) & _) Ev Rs Rr Hv Hu. unfold ref_string, ref_plain in *.
  assert (Er : ∀ t, ref_range k z t = ref_range k y t) by (intros u; unfold ref_range; by rewrite Et, Ep).
  rewrite Ev, Hv, Hu, Ep. destruct (decide (sy_visible y = No)) as [N|N].
  - rewrite bool_decide_eq_false_2 in Rs |- * by (by intros []). simpl in Rs |- *.
    destruct (ref_first k P_DEFAULT (sy_prop y)) as [o|]; [|done]. by case_match; rewrite ?Er.
  - rewrite bool_decide_eq_true_2 by done. simpl. by rewrite Er.
Qed.

Lemma keeps_set_text k s y z c a :
  keeps k → ks_syms k !! s = Some y → valid y = true → text_type (sy_type y) → sy_curr y = SValue (VStr c) No →
  ref_range k y (cs_text c) = Some (cs_text c) → renewed y z → has_value z = true →
  sv_val (sy_user z) = VStr (CStr a (cs_text c)) → keeps (set_sym s z k).
Proof using All.
  intros Kp H V T Ec Rr Rn Hv Hu. destruct (rn_kind _ _ Rn) as (Sh & _). pose proof Sh as (Et & _).
  apply (keeps_renew k s y z); [done|done| |done| |intros _|by eauto].
  - unfold typed. by destruct T as [-> |[-> | ->]].
  - intros yf Hf. right. destruct (keeps_value k s y Kp H V) as (yf' & Hf' & (Etf & _ & _ & Ev)).
    assert (yf' = yf) as -> by congruence. split; [done|]. unfold setting_of_sym. rewrite Etf.
    rewrite Ec in Ev. simpl in Ev. unfold cval_text in Ev. destruct (sv_val (sy_curr yf)) as [|cf|]; [done| |done].
    injection Ev as Ev. simpl. rewrite Ev. destruct T as [-> |[-> | ->]]; eauto.
  - destruct (solved_string k s y) as (Vi & c' & Ec' & Rs); [apply (re_solved _ (kp_ready _ Kp)); by exists y|done..|].
    rewrite Ec in Ec'. injection Ec' as <-. unfold equations. rewrite Et.
    destruct (shape_ref k z y Sh) as (E1 & _).
    assert (G : ref_visible k z = Some (sy_visible z) ∧ ∃ c, sy_curr z = SValue (VStr c) No ∧ ref_string k z = Some (cs_text c)).
    { rewrite E1, (rn_visible _ _ Rn), (rn_curr _ _ Rn). split; [done|]. exists c. split; [done|].
      apply (text_again k y z); try done; [apply Rn|by rewrite (rn_visible _ _ Rn)|by rewrite Hu]. }
    by destruct T as [-> |[-> | ->]].
Qed.

Lemma runs_accept k s y c :
  keeps k → ks_syms k !! s = Some y → valid y = true → text_type (sy_type y) → sv_val (sy_curr y) = VStr c →
  string_valid (sy_type y) (cs_text c) = true →
  runs (sym_string_within_range s (cs_text c)) k (λ b k', b = true ∧ ref_range k' y (cs_text c) = Some (cs_text c)).
Proof using All.
  intros Kp H V T Ec Sv. unfold sym_string_within_range. eapply runs_get_sym; [done|].
  assert (G : sym_string_valid s (cs_text c) k = Done (true, k)).
  { unfold sym_string_valid, mthen. rewrite (run_get_sym _ _ _ H). unfold mreturn. by rewrite Sv. }
  destruct T as [T|[T|T]]; rewrite T.
  - intros R. exists true, k. split_and!; [done|apply calced_refl|done|]. unfold ref_range. by rewrite T.
  - eapply runs_pure; [exact G|]. apply (runs_within k s y c 10); auto. by left.
  - eapply runs_pure; [exact G|]. apply (runs_within k s y c 16); auto. by right.
Qed.

(** Calculating everything anew. *)
Lemma keeps_cleared k : keeps k → ∃ k', sym_clear_all_valid k = Done ((), k') ∧ keeps k' ∧ answers k k'.
Proof using All.
  intros Kp. pose proof (re_plain _ (kp_ready _ Kp)) as P.
  destruct (clear_all_spec k P (keeps_listed k Kp) (keeps_untyped k Kp)) as (k' & E & C & Cv & A & M).
  exists k'. split; [done|]. assert (Sy : ∀ s y', ks_syms k' !! s = Some y' → ∃ y, ks_syms k !! s = Some y ∧ sy_core y' = sy_core y).
  { intros s y' H'. destruct (core_sym k' _ s y' (eq_sym C) H') as (y & H & Cy). by exists y. }
  split; [split|].
  - split; [|done..]. eapply plain_core; [exact C|by apply plain_count].
  - eapply setup_trans; [apply Kp|]. apply alike_setup. exact (f_equal (ks_set_change_count 0) C).
  - intros u V. by apply M.
  - right. intros u V. by apply M.
  - intros s yf y' Hf H' T. destruct (Sy s y' H') as (y & H & Cy). eapply adopts_core; [exact Cy|]. by apply (kp_set _ Kp s).
  - intros s (y & H & Hv). destruct (core_sym _ k' s y C H) as (y' & H' & Cy). exists y'. split; [done|].
    by pose proof (sy_core_inv _ _ Cy) as (_ & _ & _ & _ & _ & _ & -> & _).
Qed.

(** [user.val = strdup(text)] *)
Definition with_text (c : cstr) (y : symbol) : symbol := sy_set_user (sv_set_val (VStr c) (sy_user y)) y.

Lemma touch_set_text k k1 s z y1 c :
  touch unmarked (set_sym s z k) k1 → ks_syms k1 !! s = Some y1 →
  touch unmarked (set_sym s (with_text c z) k) (set_sym s (with_text c y1) k1).
Proof.
  intros T H1. destruct (to_sym _ _ _ T s z) as (y' & H' & (C & Ec & Ev & Er) & V & W).
  { simpl. apply lookup_insert_eq. }
  assert (y' = y1) as -> by congruence.
  pose proof (f_equal (with_text c) C : sy_core (with_text c y1) = sy_core (with_text c z)) as Cu.
  split.
  - rewrite (core_set k1 (set_sym s z k) s _ (with_text c z)); [by rewrite set_set|apply T|done].
  - apply (to_props _ _ _ T).
  - intros t x Hx. simpl in Hx |- *. destruct (decide (t = s)) as [->|Hne].
    + rewrite lookup_insert_eq in Hx |- *. injection Hx as <-. exists (with_text c y1).
      split; [done|]. split; [exact (conj Cu (conj Ec (conj Ev Er)))|]. exact (conj V W).
    + rewrite lookup_insert_ne in Hx |- * by done. apply (to_sym _ _ _ T). simpl. by rewrite lookup_insert_ne.
Qed.

Lemma renewed_text c y : renewed y (with_text c (no_new y)).
Proof. split; try done; [apply kind_no_new|unfold valid|unfold writes|unfold is_const]; simpl; by rewrite has_flag_clear. Qed.
Lemma renewed_new y : renewed y (no_new y).
Proof. split; try done; [apply kind_no_new|unfold valid|unfold writes|unfold is_const]; simpl; by rewrite has_flag_clear. Qed.
Lemma has_value_new y : has_value (no_new y) = true.
Proof. unfold has_value. simpl. by rewrite has_flag_cleared. Qed.

Lemma wrote_set k s y z : ks_syms k !! s = Some y → writes z = writes y → wrote (set_sym s z k) k.
Proof.
  intros H E t x Hx. simpl. destruct (decide (t = s)) as [->|N].
  - rewrite lookup_insert_eq. exists z. split; [done|]. congruence.
  - rewrite lookup_insert_ne by done. eauto.
Qed.
Lemma wrote_trans k1 k2 k3 : wrote k1 k2 → wrote k2 k3 → wrote k1 k3.
Proof. intros A B t x Hx. destruct (B t x Hx) as (y & Hy & ->). by apply A. Qed.

(** What [touch] leaves of the answers. *)
Lemma touch_answers k k' : touch unmarked k k' → answers k k'.
Proof.
  intros T s (y & H & V). destruct (to_sym _ _ _ T s y H) as (y' & H' & (C & _) & _). exists y'. split; [done|].
  by pose proof (sy_core_inv _ _ C) as (_ & _ & _ & _ & _ & _ & -> & _).
Qed.
Lemma set_answers k s z : has_value z = true → answers k (set_sym s z k) ∧ answered (set_sym s z k) s.
Proof.
  intros Hz. unfold answers, answered. simpl. split; [|exists z; by rewrite lookup_insert_eq].
  intros t (y & H & V). destruct (decide (t = s)) as [->|N]; [exists z; by rewrite lookup_insert_eq|].
  exists y. by rewrite lookup_insert_ne.
Qed.
Lemma answers_trans k1 k2 k3 : answers k1 k2 → answers k2 k3 → answers k1 k3.
Proof. intros A B s H. auto. Qed.
Lemma new_str_touch n k : touch unmarked k (ks_set_new_str n k).
Proof. split; [done..|]. intros t y H. by exists y. Qed.

(** [user.val] of a string or number is no choice value. *)
Definition users_ok : Prop := ∀ s y x, ks_syms kf !! s = Some y → text_type (sy_type y) → sv_val (sy_user y) ≠ VSym x.

Lemma keeps_user k s y :
  users_ok → keeps k → ks_syms k !! s = Some y → text_type (sy_type y) → ∀ x, sv_val (sy_user y) ≠ VSym x.
Proof.
  intros Us Kp H T x. destruct (setup_back kf k s y (kp_setup _ Kp) H) as (yf & Hf & _ & (Et & _)).
  assert (Tf : text_type (sy_type yf)) by (by rewrite <-Et).
  destruct (kp_set _ Kp s yf y Hf H) as [[_ ->]|[_ E]].
  - unfold typed. by destruct Tf as [-> |[-> | ->]].
  - by apply (Us s yf).
  - unfold setting_of_sym in E. by destruct Tf as [Tf|[Tf|Tf]]; rewrite Tf in E; destruct E as [a ->].
Qed.

(** Storing the text, and clearing everything that was calculated. *)
Lemma ask_store k k1 s y y1 c :
  keeps k → ks_syms k !! s = Some y → valid y = true → text_type (sy_type y) → sy_curr y = SValue (VStr c) No →
  ref_range k y (cs_text c) = Some (cs_text c) → touch unmarked (set_sym s (no_new y) k) k1 → wrote k k1 →
  ks_syms k1 !! s = Some y1 →
  ∃ k', set_user_string s (cs_text c) k1 = Done ((), k') ∧ keeps k' ∧ answers k k' ∧ answered k' s.
Proof using All.
  intros Kp H V T Ec Rr To W H1. set (c' := CStr (ks_new_str k1) (cs_text c)).
  set (k2 := set_sym s (with_text c' y1) (ks_set_new_str (S (ks_new_str k1)) k1)).
  pose proof (touch_set_text k k1 s _ y1 c' To H1) as T2.
  assert (Hz : has_value (with_text c' (no_new y)) = true) by apply has_value_new.
  assert (K0 : keeps (set_sym s (with_text c' (no_new y)) k)).
  { by apply (keeps_set_text k s y _ c (ks_new_str k1)); auto using renewed_text. }
  destruct (set_answers k s _ Hz) as [A0 B0].
  assert (T3 : touch unmarked (set_sym s (with_text c' (no_new y)) k) k2).
  { eapply touch_trans; [exact T2|]. apply (new_str_touch _ (set_sym s (with_text c' y1) k1)). }
  assert (K2 : keeps k2).
  { eapply keeps_touch; [exact K0|done|]. eapply wrote_trans; [apply (wrote_set k s y)|]; [done| |].
    - unfold writes. simpl. by rewrite has_flag_clear.
    - intros t x Hx. simpl in Hx. destruct (decide (t = s)) as [->|N].
      + rewrite lookup_insert_eq in Hx. injection Hx as <-. apply (W s y1 H1).
      + rewrite lookup_insert_ne in Hx by done. by apply W. }
  destruct (keeps_cleared k2 K2) as (k' & E & K' & A'). exists k'. split_and!; [|done| |].
  - unfold set_user_string, upd_sym, strdup, mthen. simpl. unfold get_sym. simpl. rewrite H1. exact E.
  - eapply answers_trans; [exact A0|]. eapply answers_trans; [by apply touch_answers|done].
  - apply A', (touch_answers _ _ T3), B0.
Qed.

(** The end of [sym_set_string_value]. *)
Definition store_text (s : sid) (type : symbol_type) (oldval : cval) (t : string) : K bool :=
  if bool_decide (type = S_HEX) && negb (starts_0x t) then
    do! set_user_string s ("0x" +:+ t) in mreturn true
  else
    let! same := same_string oldval t in
    if same then mreturn true else do! set_user_string s t in mreturn true.

Lemma same_string_run o t k : (∀ x, o ≠ VSym x) →
  same_string o t k = Done (match o with VStr c => bool_decide (cs_text c = t) | _ => false end, k).
Proof. destruct o; [done..|congruence]. Qed.

Lemma store_run k1 k2 s y y2 c :
  users_ok → keeps k1 → ks_syms k1 !! s = Some y → valid y = true → text_type (sy_type y) → sy_curr y = SValue (VStr c) No →
  ref_range k1 y (cs_text c) = Some (cs_text c) → (sy_type y = S_HEX → starts_0x (cs_text c) = true) →
  touch unmarked (set_sym s (no_new y) k1) k2 → wrote k1 k2 → ks_syms k2 !! s = Some y2 →
  ∃ k', store_text s (sy_type y) (sv_val (sy_user y)) (cs_text c) k2 = Done (true, k') ∧ keeps k' ∧ answers k1 k' ∧ answered k' s.
Proof using All.
  intros Us K1 H1 V T Ec Rr Hx S W H2. unfold store_text.
  assert (Nx : bool_decide (sy_type y = S_HEX) && negb (starts_0x (cs_text c)) = false).
  { case_bool_decide as D; [by rewrite (Hx D)|done]. }
  rewrite Nx, (mthen_done _ _ _ _ _ (same_string_run _ (cs_text c) k2 (keeps_user k1 s y Us K1 H1 T))).
  destruct (ask_store k1 k2 s y y2 c K1 H1 V T Ec Rr S W H2) as (k' & E' & K' & A' & B').
  assert (St : ∃ k', (do! set_user_string s (cs_text c) in mreturn true) k2 = Done (true, k') ∧ keeps k' ∧ answers k1 k' ∧ answered k' s).
  { exists k'. by rewrite (mthen_done _ _ _ _ _ E'). }
  destruct (sv_val (sy_user y)) as [|o|x] eqn:Eo; [done| |done]. destruct (bool_decide (cs_text o = cs_text c)) eqn:Es; [apply bool_decide_eq_true in Es|exact St].
  exists k2. destruct (set_answers k1 s _ (has_value_new y)) as [A0 B0]. split_and!; [done| | |].
  - assert (Ez : sv_val (sy_user (no_new y)) = VStr (CStr (cs_addr o) (cs_text c))) by (simpl; rewrite Eo, <-Es; by destruct o).
    eapply keeps_touch; [by apply (keeps_set_text k1 s y (no_new y) c (cs_addr o)); auto using renewed_new, has_value_new|done|].
    eapply wrote_trans; [apply (wrote_set k1 s y); [done|]|done]. unfold writes. simpl. by rewrite has_flag_clear.
  - eapply answers_trans; [exact A0|by apply touch_answers].
  - by apply (touch_answers _ _ S).
Qed.

Lemma ask_text k s y c :
  users_ok → keeps k → ks_syms k !! s = Some y → valid y = true → text_type (sy_type y) → sy_curr y = SValue (VStr c) No →
  string_valid (sy_type y) (cs_text c) = true → (sy_type y = S_HEX → starts_0x (cs_text c) = true) →
  ∃ k', sym_set_string_value s (cs_text c) k = Done (true, k') ∧ keeps k' ∧ answers k k' ∧ answered k' s.
Proof using All.
  intros Us Kp H V T Ec Sv Hx.
  destruct (runs_accept k s y c Kp H V T ltac:(by rewrite Ec) Sv (kp_ready _ Kp)) as (b & k1 & E1 & D1 & [-> Rr]).
  pose proof (keeps_calced k k1 Kp D1) as K1. assert (H1 : ks_syms k1 !! s = Some y) by (rewrite (cd_same _ _ D1); [done|by exists y]).
  pose proof (clear_new_spec k1 s y (plain_there _ (re_plain _ (kp_ready _ K1))) H1) as S. unfold spec in S.
  destruct (clear_new s k1) as [[[] k2]| |] eqn:E2; [|done..]. pose proof (clear_new_wrote k1 s k2 E2) as W.
  destruct (to_sym _ _ _ S s (no_new y)) as (y2 & H2 & (C2 & _) & _); [apply lookup_insert_eq|].
  pose proof (sy_core_inv _ _ C2) as (_ & Et & Eu & _). simpl in Et, Eu.
  destruct (store_run k1 k2 s y y2 c Us K1 H1 V T Ec Rr Hx S W H2) as (k' & E' & K' & A' & B').
  exists k'. split_and!; [|done|eapply answers_trans; [by apply calced_answers|done]|done].
  unfold sym_set_string_value. rewrite (mthen_done _ _ _ _ _ (run_get_sym _ _ _ H)). rewrite <-Et, <-Eu in E'.
  destruct T as [-> |[-> | ->]]; rewrite (mthen_done _ _ _ _ _ E1); cbn [negb];
    by rewrite (mthen_done _ _ _ _ _ E2), (mthen_done _ _ _ _ _ (run_get_sym _ _ _ H2)).
Qed.
End Keep.
