(* ===== verification/KAskRun.v ===== *)
(** * Questions that answer themselves

    In the modes that take what is there ([set_default], and the others for
    symbols that have a value) a walk over the menus asks nothing, ends, keeps
    every value and leaves no visible symbol without one. *)
From S2P Require Import Prelude CLib CStr KData KExpr KState KSymbol KSymFrame KSymRef KSymSolve KSymTab KSymUnique KSymSet.
From S2P Require Import KMenu KMenuTree KConf KConfText KConfLine KCalc KConfLoad KConfSave KConfFile KConfReset KConfValues KConfRound KConfSafe.
From S2P Require Import KAsk KAskKeep.
From Stdlib Require Import Ascii.
Open Scope pr30_scope.

(** ** Runs of the front end *)

Definition put_k (k : kstate) (f : front) : front := fe_set_conf (cf_set_k k (fe_conf f)) f.
Definition printed_on (s : string) (f : front) : front :=
  fe_set_conf (cf_set_stdout (cf_stdout (fe_conf f) ++ [s]) (fe_conf f)) f.

Lemma of_store_run {A} (m : K A) f a k : m (fe_k f) = Done (a, k) → of_store m f = Done (Go a, put_k k f).
Proof. intros E. unfold of_store, of_conf, KConf.lift. unfold fe_k in E. by rewrite E. Qed.
Lemma put_same f : put_k (fe_k f) f = f.
Proof. by destruct f as [[] ? ? ? ? ? ? ? ? ?]. Qed.

(** What a walk that asks nothing leaves as it is. *)
Record calm (f f' : front) : Prop := {
  ca_mode : fe_mode f' = fe_mode f;
  ca_stdin : fe_stdin f' = fe_stdin f;
  ca_cnt : fe_cnt f' = fe_cnt f;
  ca_help : fe_help f' = fe_help f;
  ca_line : length (fe_line f') = length (fe_line f);
  ca_files : cf_files (fe_conf f') = cf_files (fe_conf f);
  ca_dirs : cf_dirs (fe_conf f') = cf_dirs (fe_conf f);
}.
Lemma calm_refl f : calm f f.
Proof. done. Qed.
Lemma calm_trans f1 f2 f3 : calm f1 f2 → calm f2 f3 → calm f1 f3.
Proof. intros [] []. split; congruence. Qed.
Lemma calm_put k f : calm f (put_k k f).
Proof. done. Qed.

Section Quiet.
(** What is kept of the store. *)
Context (I : kstate → Prop).

Record good (f : front) : Prop := {
  gd_keeps : I (fe_k f);
  gd_line : 2 < length (fe_line f);
}.

Definition quietly {A} (m : F A) (f : front) (Q : A → front → Prop) : Prop :=
  good f → ∃ a f', m f = Done (Go a, f') ∧ good f' ∧ calm f f' ∧ answers (fe_k f) (fe_k f') ∧ Q a f'.

Lemma q_go {A} (a : A) f (Q : A → front → Prop) : Q a f → quietly (go a) f Q.
Proof. intros H G. exists a, f. by split_and!; [| | |intros t|]. Qed.
Lemma q_bind {A B} (m : F A) (k : A → F B) f P Q :
  quietly m f P → (∀ a f1, good f1 → calm f f1 → answers (fe_k f) (fe_k f1) → P a f1 → quietly (k a) f1 Q) →
  quietly (andthen m k) f Q.
Proof.
  intros Hm Hk G. destruct (Hm G) as (a & f1 & E1 & G1 & C1 & A1 & H1).
  destruct (Hk a f1 G1 C1 A1 H1 G1) as (b & f2 & E2 & G2 & C2 & A2 & H2). exists b, f2.
  split_and!; [|done|by eapply calm_trans|by eapply answers_trans|done].
  unfold andthen. by rewrite (mthen_done _ _ _ _ _ E1).
Qed.
Lemma q_mono {A} (m : F A) f (P Q : A → front → Prop) :
  quietly m f P → (∀ a f', good f' → calm f f' → answers (fe_k f) (fe_k f') → P a f' → Q a f') → quietly m f Q.
Proof. intros H HQ G. destruct (H G) as (a & f' & E & G' & C & A' & HP). exists a, f'. split_and!; auto. Qed.

(** Parts that leave the store as it is. *)
Definition still (f f' : front) : Prop := calm f f' ∧ fe_k f' = fe_k f.
Lemma q_still {B} f0 (m : F ()) (k : () → F B) f Q :
  still f0 f → quietly m f (λ _ f', fe_k f' = fe_k f) → (∀ f1, good f1 → still f0 f1 → quietly (k ()) f1 Q) →
  quietly (andthen m k) f Q.
Proof.
  intros [C0 E0] Hm Hk. eapply q_bind; [exact Hm|]. intros [] f1 G1 C1 _ E1. apply Hk; [done|].
  split; [by eapply calm_trans|congruence].
Qed.

(** A part that only reads. *)
Lemma q_same {A B} (m : F A) (a : A) (k : A → F B) f Q :
  m f = Done (Go a, f) → quietly (k a) f Q → quietly (andthen m k) f Q.
Proof.
  intros E H G. destruct (H G) as (b & f' & E' & R). exists b, f'. split; [|done]. unfold andthen.
  by rewrite (mthen_done _ _ _ _ _ E).
Qed.
Lemma q_read {A B} (m : K A) (a : A) (k : A → F B) f Q :
  m (fe_k f) = Done (a, fe_k f) → quietly (k a) f Q → quietly (andthen (of_store m) k) f Q.
Proof. intros E. apply q_same. rewrite (of_store_run m f a _ E). by rewrite put_same. Qed.
Lemma q_asks {A B} (g : front → A) (k : A → F B) f Q : quietly (k (g f)) f Q → quietly (andthen (asks g) k) f Q.
Proof. by apply q_same. Qed.
Lemma q_deref {A B} (o : option A) a (k : A → F B) f Q :
  o = Some a → quietly (k a) f Q → quietly (andthen (deref o) k) f Q.
Proof. intros ->. by apply q_same. Qed.

Lemma q_print s f (Q : () → front → Prop) : Q () (printed_on s f) → quietly (print s) f Q.
Proof.
  intros H G. exists (), (printed_on s f). split_and!; [done| |done|by intros t|done].
  destruct G as [Kp L]. by split.
Qed.
Lemma q_say {B} s (k : () → F B) f Q : quietly (k ()) (printed_on s f) Q → quietly (andthen (print s) k) f Q.
Proof.
  intros H G. destruct (H ltac:(destruct G; by split)) as (b & f' & E & G' & C & R). exists b, f'.
  split_and!; [done..| |by apply R|by apply R]. destruct C. by split.
Qed.
Lemma q_set {A} (m : K A) f a k' (Q : A → front → Prop) :
  m (fe_k f) = Done (a, k') → I k' → answers (fe_k f) k' → Q a (put_k k' f) → quietly (of_store m) f Q.
Proof. intros E Kp An HQ [_ L]. exists a, (put_k k' f). split_and!; [by apply of_store_run|by split|done..]. Qed.
Lemma q_line (g : list ascii → list ascii) f (Q : () → front → Prop) :
  length (g (fe_line f)) = length (fe_line f) → Q () (fe_set_line (g (fe_line f)) f) →
  quietly (modify (λ f, fe_set_line (g (fe_line f)) f)) f Q.
Proof.
  intros E H [Kp L]. exists (), (fe_set_line (g (fe_line f)) f). split_and!; [done| |by split|by intros t|done].
  split; [done|]. simpl. lia.
Qed.
Lemma q_indent n f (Q : () → front → Prop) : Q () (fe_set_indent n f) → quietly (modify (fe_set_indent n)) f Q.
Proof. intros H [Kp L]. exists (), (fe_set_indent n f). by split_and!; [|split| |intros t|]. Qed.
(** ** Questions *)

Lemma read_menu k m x : ks_menus k !! m = Some x → get_menu m k = Done (x, k).
Proof. intros H. unfold get_menu. by rewrite H. Qed.
Lemma read_prop k p x : ks_props k !! p = Some x → get_prop p k = Done (x, k).
Proof. intros H. unfold get_prop. by rewrite H. Qed.
Lemma read_of {A} (g : symbol → A) k s y : ks_syms k !! s = Some y → (let! y := get_sym s in mreturn (g y)) k = Done (g y, k).
Proof. intros H. by rewrite (mthen_done _ _ _ _ _ (run_get_sym _ _ _ H)). Qed.

(** The answer is there already. *)
Definition silent (f : front) (s : sid) : Prop := fe_mode f = set_default ∨ fe_mode f ≠ ask_all ∧ answered (fe_k f) s.

Lemma answers_same k k' : k' = k → answers k k'.
Proof. by intros -> t. Qed.
Lemma silent_calm f f' s : calm f f' → answers (fe_k f) (fe_k f') → silent f s → silent f' s.
Proof. intros C A [E|[E H]]; [left; by rewrite (ca_mode _ _ C)|right]. rewrite (ca_mode _ _ C). auto. Qed.

Lemma q_clear_line f : quietly (put_line [nl; NUL]) f (λ _ f', fe_k f' = fe_k f ∧ ∃ r, fe_line f' = nl :: NUL :: r).
Proof.
  intros [Kp L]. apply (q_line (λ l, [nl; NUL] ++ drop (length [nl; NUL]) l)); [|split; [done|eauto]|done].
  rewrite length_app, length_drop. simpl. lia.
Qed.

Section Questions.
Context (turns : nat) (random : nat → Z) (in_front : ascii) (gettext : string → string).

Lemma q_askvalue s y def f :
  ks_syms (fe_k f) !! s = Some y → silent f s →
  quietly (conf_askvalue turns random gettext s def) f (λ _ f', fe_k f' = fe_k f ∧ ∃ r, fe_line f' = nl :: NUL :: r).
Proof.
  intros H Si. unfold conf_askvalue. eapply q_read; [by apply (read_of get_type)|]. eapply q_read; [by apply (read_of has_value)|].
  eapply (q_bind _ _ _ (λ _ f', fe_k f' = fe_k f)).
  { destruct (has_value y); [by apply q_go|]. by apply q_print. }
  intros [] f1 G1 C1 A1 E1. eapply q_bind; [apply q_clear_line|]. intros [] f2 G2 C2 A2 [E2 L2]. rewrite E1 in E2.
  pose proof (silent_calm _ _ s (calm_trans _ _ _ C1 C2) (answers_same _ _ E2) Si) as Si2.
  eapply q_read; [rewrite E2; by apply (read_of (λ y, tri_ltb (sy_rev_dep_tri y) (sy_visible y)))|].
  destruct (tri_ltb _ _); simpl.
  - apply q_asks. destruct Si2 as [M|[M (y' & H' & V)]].
    + rewrite M. by apply q_print.
    + rewrite E2, H in H'. injection H' as <-. rewrite V. destruct (fe_mode f2); try done; by apply q_print.
  - apply q_say. eapply q_mono; [apply q_clear_line|]. intros [] f3 _ _ _ [E3 L3]. split; [|done]. by rewrite E3.
Qed.

(** A question about the entry [m] of the symbol [s]. *)
Record question (k : kstate) (m : mid) (s : sid) (y : symbol) : Prop := {
  qu_menu : ∃ x p q, ks_menus k !! m = Some x ∧ mn_prompt x = Some p ∧ ks_props k !! p = Some q ∧ mn_sym x = Some s;
  qu_sym : ks_syms k !! s = Some y;
  qu_valid : valid y = true;
}.

Lemma q_prompt m s y f : question (fe_k f) m s y → quietly (print_prompt m) f (λ _ f', fe_k f' = fe_k f).
Proof.
  intros [(x & p & q & Hx & Hp & Hq & _) _ _]. unfold print_prompt.
  eapply q_read; [by apply read_menu|]. eapply q_deref; [done|]. eapply q_read; [by apply read_prop|].
  apply q_asks. by apply q_print.
Qed.

Lemma q_when (b : bool) (m : F ()) f : quietly m f (λ _ f', fe_k f' = fe_k f) → quietly (when b m) f (λ _ f', fe_k f' = fe_k f).
Proof. destruct b; [done|]. intros _. by apply q_go. Qed.

Lemma q_offer s y f oldval t text : ks_syms (fe_k f) !! s = Some y → quietly (offer s oldval t text) f (λ _ f', fe_k f' = fe_k f).
Proof.
  intros H. unfold offer. case_decide; [|by apply q_go].
  eapply q_read; [by apply (read_of (λ y, tristate_within_range y t))|]. apply q_when. by apply q_print.
Qed.

Lemma q_text_of s y f : ready (fe_k f) → ks_syms (fe_k f) !! s = Some y → valid y = true →
  ∃ c, string_value y = VStr c ∧ sym_get_string_value s (fe_k f) = Done (VStr c, fe_k f).
Proof.
  intros R H V. destruct (solved_text (fe_k f) s) as (z & c & _ & Hz & _ & E & _); [apply (re_solved _ R); by exists y|].
  assert (z = y) as -> by congruence. exists c. split; [done|]. by rewrite (run_string_value _ _ _ H), E.
Qed.

Lemma strip_empty r : strip (nl :: NUL :: r) = Some (NUL :: NUL :: r).
Proof. done. Qed.

Lemma q_strip r f : fe_line f = nl :: NUL :: r →
  quietly strip_line f (λ _ f', fe_k f' = fe_k f ∧ fe_line f' = NUL :: NUL :: r).
Proof.
  intros E. unfold strip_line. apply q_asks. eapply q_deref; [rewrite E; apply strip_empty|].
  apply (q_line (λ _, NUL :: NUL :: r)); [by rewrite E|done].
Qed.

(** The text of a symbol is one that may be set. *)
Definition sound_text (y : symbol) : Prop := ∀ c, sv_val (sy_curr y) = VStr c →
  string_valid (sy_type y) (cs_text c) = true ∧ (sy_type y = S_HEX → starts_0x (cs_text c) = true).

Lemma q_show_sym m s y f : question (fe_k f) m s y →
  quietly (show_sym m s) f (λ v f', v = sv_tri (sy_curr y) ∧ fe_k f' = fe_k f).
Proof.
  intros Qu. unfold show_sym. pose proof (qu_sym _ _ _ _ Qu) as H.
  pose proof (λ f1 E, eq_ind_r (λ k, ks_syms k !! s = Some y) H (proj2 (E : still f f1))) as Hs.
  eapply (q_still f); [done|by eapply q_prompt|]. intros f1 G1 S1. eapply q_read; [by apply run_get_sym, Hs|].
  eapply (q_still f); [done|destruct (sy_name y); [by apply q_print|by apply q_go]|].
  intros f2 G2 S2. eapply q_read; [by apply (read_of (λ y, sv_tri (sy_curr y))), Hs|].
  eapply (q_still f); [done|by apply q_print|]. intros f3 G3 S3.
  do 3 (eapply (q_still f); [done|by apply (q_offer s y), Hs|]; clear f3 G3 S3; intros f3 G3 S3).
  apply q_asks. eapply (q_still f); [done|apply q_when; by apply q_print|]. intros f4 G4 S4.
  eapply (q_still f); [done|by apply q_print|]. intros f5 G5 S5. apply q_go. split; [done|apply S5].
Qed.

(** The question about a string up to the answer. *)
Lemma q_string_turn_upto m s y c f Q :
  question (fe_k f) m s y → string_value y = VStr c → silent f s →
  (∀ f1, good f1 → fe_k f1 = fe_k f → quietly (of_store (sym_set_string_value s (cs_text c))) f1 Q) →
  quietly (conf_string_turn turns random gettext m s) f Q.
Proof.
  intros Qu Ec Si Hk. unfold conf_string_turn. pose proof (qu_sym _ _ _ _ Qu) as H.
  pose proof (λ f1 E, eq_ind_r (λ k, ks_syms k !! s = Some y) H (proj2 (E : still f f1))) as Hs.
  eapply (q_still f); [done|by eapply q_prompt|]. intros f1 G1 S1. eapply q_read; [by apply run_get_sym, Hs|].
  eapply (q_still f); [done|by apply q_print|]. intros f2 G2 S2.
  eapply (q_read _ (VStr c)); [by rewrite (run_string_value _ _ _ (Hs f2 S2)), Ec|].
  eapply q_same; [done|]. eapply (q_still f); [done|by apply q_print|]. intros f3 G3 S3.
  eapply q_bind; [apply (q_askvalue s y); [by apply Hs|]|].
  { destruct S3 as [C3 E3]. eapply silent_calm; [done|by apply answers_same|done]. }
  intros [] f4 G4 C4 A4 [E4 [r L4]]. assert (K4 : fe_k f4 = fe_k f) by (destruct S3; congruence).
  eapply (q_same _ nl); [unfold line_at, andthen, mthen; simpl; by rewrite L4|]. eapply q_same; [done|]. by apply Hk.
Qed.
End Questions.
End Quiet.

(** ** Questions that keep the values of [kf] *)

Section Kept.
Context (kf : kstate) (Pf : plain kf) (Al : all_solved kf) (Ro : ranges_ok kf) (Lf : listed kf).
Context (turns : nat) (random : nat → Z) (gettext : string → string).

Lemma q_calc {A} (m : K A) f Q : runs m (fe_k f) Q → quietly (keeps kf) (of_store m) f (λ a f', Q a (fe_k f') ∧ calced (fe_k f) (fe_k f')).
Proof using Pf Al Ro Lf.
  intros H [Kp L]. destruct (H (kp_ready _ _ Kp)) as (a & k' & E & D & HQ). exists a, (put_k k' f).
  split_and!; [by apply of_store_run|split; [by eapply keeps_calced|done]|done|by apply calced_answers|done|done].
Qed.

Lemma q_sym_turn m s y f :
  question (fe_k f) m s y → logic_type y → silent f s →
  quietly (keeps kf) (conf_sym_turn turns random gettext m s) f (λ b f', b = true ∧ answered (fe_k f') s).
Proof using All.
  intros Qu T Si. unfold conf_sym_turn. pose proof (qu_sym _ _ _ _ Qu) as H. pose proof (qu_valid _ _ _ _ Qu) as V.
  eapply q_bind; [by apply (q_show_sym _ m s y)|]. intros v f1 G1 C1 A1 [-> E1].
  destruct (q_text_of s y f1) as (c & _ & Rv); [apply (kp_ready _ _ (gd_keeps _ _ G1))|by rewrite E1|done|].
  eapply q_read; [exact Rv|]. eapply q_same; [done|].
  eapply q_bind; [apply (q_askvalue _ _ _ _ s y); [by rewrite E1|by eapply silent_calm]|].
  intros [] f2 G2 C2 A2 [E2 [r L2]]. unfold take_reply. eapply q_bind; [by apply (q_strip _ r)|].
  intros [] f3 G3 C3 A3 [E3 L3]. assert (K3 : fe_k f3 = fe_k f) by congruence.
  eapply (q_same _ _ NUL); [unfold line_at, andthen, mthen; simpl; by rewrite L3|]. eapply q_same; [done|]. simpl.
  destruct (ask_tri kf Pf Al Ro Lf (fe_k f3) s y (gd_keeps _ _ G3)) as (k' & E' & K' & A' & B'); [by rewrite K3|done..|].
  eapply q_bind; [by apply (q_set _ _ _ _ _ (λ b f', b = true ∧ answered (fe_k f') s) E')|].
  intros b f8 _ _ _ [-> Hb]. by apply q_go.
Qed.

Lemma q_string_turn m s y f :
  users_ok kf → sound_text y → question (fe_k f) m s y → text_type (sy_type y) → silent f s →
  quietly (keeps kf) (conf_string_turn turns random gettext m s) f (λ b f', b = true ∧ answered (fe_k f') s).
Proof using All.
  intros Us So Qu T Si G. pose proof (qu_sym _ _ _ _ Qu) as H. pose proof (qu_valid _ _ _ _ Qu) as V.
  destruct (solved_string (fe_k f) s y) as (_ & c & Ec & _); [|done..|].
  { apply (re_solved _ (kp_ready _ _ (gd_keeps _ _ G))). by exists y. } revert G.
  eapply (q_string_turn_upto _ _ _ _ m s y c); [done|unfold string_value; rewrite Ec; by destruct T as [-> |[-> | ->]]|done|].
  intros f1 G1 E1. destruct (So c) as [Sv Sx]; [by rewrite Ec|].
  destruct (ask_text kf Pf Al Ro Lf (fe_k f1) s y c Us (gd_keeps _ _ G1)) as (k' & E' & K' & A' & B'); [by rewrite E1|done..|].
  by apply (q_set _ _ _ _ _ (λ b f', b = true ∧ answered (fe_k f') s) E').
Qed.
End Kept.

(** ** The walk over the menus *)

(** In [k], everything that is visible in [kf] has an answer: an entry
    ([inl]) is invisible, or has an answer as what is below it; a list of
    entries ([inr]). *)
Inductive asked (kf k : kstate) : mid + option mid → Prop :=
  | asked_off m : menu_vis kf m false → asked kf k (inl m)
  | asked_on m x :
      ks_menus kf !! m = Some x → (∀ s, mn_sym x = Some s → answered k s) →
      asked kf k (inr (mn_list x)) → asked kf k (inl m)
  | asked_nil : asked kf k (inr None)
  | asked_cons c x :
      asked kf k (inl c) → ks_menus kf !! c = Some x → asked kf k (inr (mn_next x)) → asked kf k (inr (Some c)).

Lemma asked_more kf k k' i : answers k k' → asked kf k i → asked kf k' i.
Proof.
  intros A. induction 1 as [m V|m x H S _ IH| |c x _ IH1 H _ IH2]; [by constructor|eapply asked_on; eauto|constructor|].
  by eapply asked_cons.
Qed.

Lemma asked_all kf k p o l : chain kf p o l → (∀ m s, m ∈ l → sym_of kf m = Some s → answered k s) → asked kf k (inr o).
Proof.
  induction 1 as [p|p m x lc ln H Hp Hc IHc Hn IHn]; intros A; [constructor|].
  eapply asked_cons; [eapply asked_on; [done| |]|done|].
  - intros s Hs. apply (A m); [by left|]. unfold sym_of. by rewrite H.
  - apply IHc. intros i s Hi. apply A. right. apply elem_of_app. by left.
  - apply IHn. intros i s Hi. apply A. right. apply elem_of_app. by right.
Qed.

Lemma askable_setup k k' m : same_setup k k' → askable k m → askable k' m.
Proof.
  intros Se (x & H & A). destruct (links_menu k k' m x (ss_menu _ _ Se) H) as (x' & H' & Es & Ep & _).
  exists x'. split; [done|]. intros p Hp. rewrite Ep in Hp. destruct (A p Hp) as (q & Hq & E).
  assert (Hq' : pr_core <$> ks_props k' !! p = pr_core <$> ks_props k !! p) by (by rewrite <-!lookup_fmap, (ss_prop _ _ Se)).
  rewrite Hq in Hq'. destruct (ks_props k' !! p) as [q'|]; [|done]. exists q'. split; [done|].
  apply (inj Some) in Hq' as (_ & Et & Ev & _)%pr_core_inv. rewrite Es, Et, Ev. destruct (mn_sym x) as [s|].
  - destruct E as (y & Hy & T1 & T2 & Hi & Ht). destruct (ss_sym _ _ Se s y Hy) as (y' & Hy' & _ & (Ey & Epr & _)).
    exists y'. rewrite Ey, Epr. by split_and!.
  - intros u Hu. eapply setup_exists; eauto.
Qed.

(** A visible entry has a prompt. *)
Lemma vis_prompted k m x : menu_vis k m true → ks_menus k !! m = Some x →
  ∃ p q, mn_prompt x = Some p ∧ ks_props k !! p = Some q.
Proof. intros V H. inversion V; simplify_eq; eauto. Qed.

Section Walk.
Context (kf : kstate) (Pf : plain kf) (Al : all_solved kf) (Ro : ranges_ok kf) (Lf : listed kf) (Us : users_ok kf).
Context (turns : nat) (random : nat → Z) (in_front : ascii) (gettext : string → string).
Context (Tu : 0 < turns).

(** What the entries [l] of the tree need. *)
Record walkable (l : list mid) : Prop := {
  wa_askable : ∀ m, m ∈ l → askable kf m;
  wa_text : ∀ m s y, m ∈ l → sym_of kf m = Some s → menu_vis kf m true → ks_syms kf !! s = Some y →
    text_type (sy_type y) → sound_text y;
  wa_size : length l ≤ size (ks_menus kf);
}.
Lemma walkable_sub l l' : l' ⊆ l → length l' ≤ length l → walkable l → walkable l'.
Proof. intros S L [A T Z]. split; [auto|eauto|lia]. Qed.

Lemma q_visible m x lc f :
  ks_menus kf !! m = Some x → chain kf m (mn_list x) lc → walkable (m :: lc) →
  quietly (keeps kf) (of_store (menu_is_visible m)) f (λ b f', menu_vis kf m b ∧
    (b = true → ∀ s, mn_sym x = Some s → valid_in (fe_k f') s)).
Proof using All.
  intros H Hc W G. pose proof (gd_keeps _ _ G) as Kp. pose proof (kp_setup _ _ Kp) as Se.
  destruct (links_menu kf (fe_k f) m x (ss_menu _ _ Se) H) as (x' & H' & Es & _ & El & _).
  pose proof (links_fuel _ _ (ss_menu _ _ Se)) as Fu. unfold menu_fuel in Fu. pose proof (wa_size _ W) as Sz. simpl in Sz.
  revert G. eapply q_mono; [apply (q_calc kf Pf Al Ro Lf), (runs_visible m x' lc)|].
  - done.
  - rewrite El. eapply links_chain; [apply Se|done].
  - eapply askable_setup; [done|]. apply (wa_askable _ W). by left.
  - intros i Hi. eapply askable_setup; [done|]. apply (wa_askable _ W). by right.
  - lia.
  - apply Kp.
  - intros b f' G' _ _ [[V B] _]. split; [by apply (keeps_vis kf Pf Al Ro Lf (fe_k f')); [apply G'|]|].
    intros Eb s Hs. apply B; [done|congruence].
Qed.

(** The entry in the store at hand. *)
Lemma entry_at m x f : good (keeps kf) f → ks_menus kf !! m = Some x → menu_vis kf m true →
  ∃ x' p q, ks_menus (fe_k f) !! m = Some x' ∧ mn_prompt x' = Some p ∧ ks_props (fe_k f) !! p = Some q ∧
    mn_sym x' = mn_sym x ∧ mn_list x' = mn_list x.
Proof.
  intros G H V. pose proof (kp_setup _ _ (gd_keeps _ _ G)) as Se.
  destruct (links_menu kf (fe_k f) m x (ss_menu _ _ Se) H) as (x' & H' & Es & Ep & El & _).
  destruct (vis_prompted kf m x V H) as (p & q & Hp & Hq). exists x', p.
  assert (Hq' : pr_core <$> ks_props (fe_k f) !! p = pr_core <$> ks_props kf !! p) by (by rewrite <-!lookup_fmap, (ss_prop _ _ Se)).
  rewrite Hq in Hq'. destruct (ks_props (fe_k f) !! p) as [q'|]; [|done]. exists q'. split_and!; congruence.
Qed.

Lemma q_banner m x p q f : ks_menus (fe_k f) !! m = Some x → mn_prompt x = Some p → ks_props (fe_k f) !! p = Some q →
  quietly (keeps kf) (banner gettext m) f (λ _ f', fe_k f' = fe_k f).
Proof.
  intros H Hp Hq. unfold banner. eapply (q_read _ _ (gettext <$> pr_text q)).
  { unfold menu_get_prompt. rewrite (mthen_done _ _ _ _ _ (read_menu _ _ _ H)), Hp.
    by rewrite (mthen_done _ _ _ _ _ (read_prop _ _ _ Hq)). }
  apply q_asks. destruct (pr_text q); [by apply q_print|by apply q_go].
Qed.

Lemma q_head check m x p q f : fe_mode f ≠ ask_silent →
  ks_menus (fe_k f) !! m = Some x → mn_prompt x = Some p → ks_props (fe_k f) !! p = Some q →
  quietly (keeps kf) (conf_head gettext check m x) f (λ b f', b = false ∧ fe_k f' = fe_k f).
Proof.
  intros M H Hp Hq. unfold conf_head. rewrite Hp. eapply q_read; [by apply read_prop|].
  assert (B : quietly (keeps kf) (do~ banner gettext m in go false) f (λ b f', b = false ∧ fe_k f' = fe_k f)).
  { eapply q_bind; [by eapply q_banner|]. intros [] f1 _ _ _ E. by apply q_go. }
  destruct (pr_type q); try (by apply q_go); [done|]. apply q_asks, q_asks. by rewrite bool_decide_eq_false_2 by (by intros []).
Qed.

Lemma q_once (turn : F bool) f (P : front → Prop) :
  quietly (keeps kf) turn f (λ b f', b = true ∧ P f') → quietly (keeps kf) (repeat_until turns turn) f (λ _ f', P f').
Proof using Tu.
  intros H. destruct turns as [|n]; [lia|]. cbn [repeat_until]. eapply q_bind; [exact H|].
  intros b f1 _ _ _ [-> HP]. by apply q_go.
Qed.

Lemma q_entry rec l m x s f :
  walkable l → m ∈ l → ks_menus kf !! m = Some x → menu_vis kf m true → mn_sym x = Some s → valid_in (fe_k f) s → silent f s →
  quietly (keeps kf) (conf_entry turns random in_front gettext rec m s) f (λ b f', b = true ∧ answered (fe_k f') s).
Proof using All.
  intros W Hm H V Hs (y & Hy & Vy) Si G. pose proof (gd_keeps _ _ G) as Kp.
  destruct (entry_at m x f G H V) as (x' & p & q & H' & Hp & Hq & Es & _). rewrite Hs in Es. revert G.
  assert (Qu : question (fe_k f) m s y) by (split; [by exists x', p, q|done..]).
  destruct (keeps_value kf Pf Al Ro Lf (fe_k f) s y Kp Hy Vy) as (yf & Hf & (Et & _ & _ & Ev)).
  destruct (wa_askable _ W m Hm) as (x0 & H0 & A). assert (x0 = x) as -> by congruence.
  destruct (vis_prompted kf m x V H) as (pf & qf & Hpf & Hqf). destruct (A pf Hpf) as (qz & _ & E). rewrite Hs in E.
  destruct E as (z & Hz & T1 & T2 & _). assert (z = yf) as -> by congruence. rewrite Et in T1, T2.
  unfold conf_entry. eapply q_read; [by apply run_get_sym|].
  destruct (pl_choice _ (re_plain _ (kp_ready _ _ Kp)) s y Hy) as [Nc _]. rewrite Nc.
  assert (Sy : text_type (sy_type y) → sound_text y).
  { intros T c Ec. rewrite Ec in Ev. simpl in Ev. destruct (sv_val (sy_curr yf)) as [|cf|] eqn:Ecf; [done| |done].
    simpl in Ev. injection Ev as Ev.
    rewrite <-Et, <-Ev. apply (wa_text _ W m s yf Hm); try done; [unfold sym_of; by rewrite H|by rewrite Et]. }
  eapply (q_bind _ _ _ _ (λ _ f', answered (fe_k f') s)); [|intros [] f1 _ _ _ A1; by apply q_go].
  assert (Qt : text_type (sy_type y) → quietly (keeps kf) (conf_string turns random gettext m) f (λ _ f', answered (fe_k f') s)).
  { intros T. eapply q_read; [by apply read_menu|]. eapply q_deref; [done|]. apply q_once. by apply (q_string_turn kf Pf Al Ro Lf) with y; auto. }
  assert (Ql : logic_type y → quietly (keeps kf) (conf_sym turns random gettext m) f (λ _ f', answered (fe_k f') s)).
  { intros T. eapply q_read; [by apply read_menu|]. eapply q_deref; [done|]. apply q_once. by apply (q_sym_turn kf Pf Al Ro Lf) with y; auto. }
  unfold text_type, logic_type in *. destruct (sy_type y); try done; auto.
Qed.

(** No question of the entries [l] is put. *)
Definition hushed (l : list mid) (f : front) : Prop :=
  fe_mode f = set_default ∨
  fe_mode f ≠ ask_all ∧ fe_mode f ≠ ask_silent ∧ ∀ m s, m ∈ l → sym_of kf m = Some s → answered (fe_k f) s.
Lemma hushed_calm l f f' : calm f f' → answers (fe_k f) (fe_k f') → hushed l f → hushed l f'.
Proof.
  intros C A [E|(E1 & E2 & H)]; [left; by rewrite (ca_mode _ _ C)|right]. rewrite (ca_mode _ _ C).
  split_and!; [done..|]. intros m s Hm Hs. by eapply A, H.
Qed.
Lemma hushed_silent l f m x s : hushed l f → m ∈ l → ks_menus kf !! m = Some x → mn_sym x = Some s → silent f s.
Proof.
  intros [E|(E1 & E2 & H)] Hm Hx Hs; [by left|right]. split; [done|]. apply (H m); [done|]. unfold sym_of. by rewrite Hx.
Qed.
Lemma hushed_mode l f : hushed l f → fe_mode f ≠ ask_silent.
Proof. intros [->|(_ & ? & _)]; done. Qed.

Abbreviation conf_at := (conf turns random in_front gettext).

Lemma q_childs body x f P :
  (∀ f1, calm f f1 → answers (fe_k f) (fe_k f1) → quietly (keeps kf) (each_child (menu_fuel kf) body (mn_list x)) f1 (λ _ f', P f')) →
  (∀ f1 f2, fe_k f2 = fe_k f1 → P f1 → P f2) →
  quietly (keeps kf) (conf_childs body x) f (λ _ f', P f').
Proof.
  intros H HP. unfold conf_childs, add_indent, sub_indent. set (d := match mn_sym x with Some _ => 2 | None => 0 end).
  eapply (q_bind _ _ _ _ (λ _ f', True)); [by apply (q_indent _ (fe_indent f + d) f)|].
  intros [] f1 G1 C1 A1 _. apply q_asks. rewrite (links_fuel kf (fe_k f1)) by (apply (kp_setup _ _ (gd_keeps _ _ G1))).
  eapply q_bind; [by apply H|]. intros [] f2 _ _ _ P2. apply (q_indent _ (fe_indent f2 - d) f2). by apply (HP f2).
Qed.

Lemma q_conf_one l d m x lc f :
  walkable l → m :: lc ⊆ l → length (m :: lc) ≤ length l → ks_menus kf !! m = Some x → chain kf m (mn_list x) lc → hushed l f →
  (∀ f1, hushed l f1 → quietly (keeps kf) (each_child (menu_fuel kf) (conf_at d) (mn_list x)) f1 (λ _ f', asked kf (fe_k f') (inr (mn_list x)))) →
  quietly (keeps kf) (conf_at (S d) m) f (λ _ f', asked kf (fe_k f') (inl m)).
Proof using All.
  intros W Sub Len H Hc Hu Kids. cbn [conf]. assert (Hm : m ∈ l) by (apply Sub; by left).
  eapply q_bind; [apply (q_visible m x lc); [done..|by eapply walkable_sub]|].
  intros b f1 G1 C1 A1 [V Vs]. pose proof (hushed_calm _ _ _ C1 A1 Hu) as Hu1.
  destruct b; simpl; [|apply q_go; by apply asked_off].
  destruct (entry_at m x f1 G1 H V) as (x' & p & q & H' & Hp & Hq & Es & El).
  eapply q_read; [by apply read_menu|].
  eapply q_bind; [eapply q_head; [by eapply hushed_mode|done..]|]. intros b f2 G2 C2 A2 [-> E2].
  pose proof (hushed_calm _ _ _ C2 A2 Hu1) as Hu2.
  eapply (q_bind _ _ _ _ (λ b f', b = true ∧ ∀ s, mn_sym x = Some s → answered (fe_k f') s)).
  { rewrite Es. destruct (mn_sym x) as [s|] eqn:Hs; [|by apply q_go].
    eapply q_mono; [eapply (q_entry _ l m x s f2); try done; [rewrite E2; by apply Vs|by eapply hushed_silent]|].
    intros b f3 _ _ _ [-> Ha]. split; [done|]. by intros s' [= <-]. }
  intros b f3 G3 C3 A3 [-> Ha]. pose proof (hushed_calm _ _ _ C3 A3 Hu2) as Hu3.
  apply (q_childs _ x' f3 (λ f', asked kf (fe_k f') (inl m))).
  - intros f4 C4 A4. rewrite El. eapply q_mono; [apply Kids; by eapply hushed_calm|].
    intros [] f5 _ _ A5 K5. eapply asked_on; [done| |done]. intros s Hs. auto.
  - by intros f4 f5 ->.
Qed.

Lemma q_next m x f : ks_menus kf !! m = Some x → good (keeps kf) f → ∃ x', get_menu m (fe_k f) = Done (x', fe_k f) ∧ mn_next x' = mn_next x.
Proof.
  intros H G. destruct (links_menu kf (fe_k f) m x (ss_menu _ _ (kp_setup _ _ (gd_keeps _ _ G))) H) as (x' & H' & _ & _ & _ & En & _).
  exists x'. split; [by apply read_menu|done].
Qed.

Lemma q_conf_kids l p o lo :
  walkable l → chain kf p o lo → lo ⊆ l → length lo ≤ length l → ∀ n d f, length lo ≤ n → length lo ≤ d → hushed l f →
  quietly (keeps kf) (each_child n (conf_at d) o) f (λ _ f', asked kf (fe_k f') (inr o)).
Proof using All.
  intros W. induction 1 as [p|p m x lc ln H Hp Hc IHc Hn IHn]; intros Sub Len n d f Nn Nd Hu.
  { destruct n; apply q_go; constructor. }
  simpl in Len, Nn, Nd. rewrite length_app in Len, Nn, Nd. destruct n as [|n]; [lia|]. destruct d as [|d]; [lia|].
  assert (Sc : m :: lc ⊆ l) by set_solver. cbn [each_child]. pose proof (wa_size _ W) as Sz.
  eapply q_bind; [apply (q_conf_one l d m x lc); try done; [simpl; lia|]|].
  { intros f1 Hu1. apply IHc; [set_solver|lia|unfold menu_fuel; lia|lia|done]. }
  intros [] f1 G1 C1 A1 As. destruct (q_next m x f1 H G1) as (x' & E & En). eapply q_read; [exact E|]. rewrite En.
  eapply q_mono; [apply IHn; [set_solver|lia..|by eapply hushed_calm]|]. intros [] f2 _ _ A2 As2.
  eapply asked_cons; [by eapply asked_more|done..].
Qed.

Abbreviation check_at := (check_conf turns random in_front gettext).

Lemma q_answered s f : answered (fe_k f) s → quietly (keeps kf) (unanswered s) f (λ b f', b = false ∧ fe_k f' = fe_k f).
Proof.
  intros (y & H & V). unfold unanswered. eapply q_read; [by apply (read_of has_value)|]. rewrite V. by apply q_go.
Qed.

Lemma q_check_one l d m x lc f :
  walkable l → m :: lc ⊆ l → length (m :: lc) ≤ length l → ks_menus kf !! m = Some x → chain kf m (mn_list x) lc → asked kf (fe_k f) (inl m) →
  (∀ f1, asked kf (fe_k f1) (inr (mn_list x)) → quietly (keeps kf) (each_child (menu_fuel kf) (check_at d) (mn_list x)) f1 (λ _ _, True)) →
  quietly (keeps kf) (check_at (S d) m) f (λ _ _, True).
Proof using All.
  intros W Sub Len H Hc As Kids. cbn [check_conf].
  eapply q_bind; [apply (q_visible m x lc); [done..|by eapply walkable_sub]|].
  intros b f1 G1 C1 A1 [V Vs]. destruct b; simpl; [|by apply q_go].
  inversion As as [m' Vf|m' x0 H0 Ha Ak| |]; simplify_eq; [by pose proof (vis_unique _ _ _ _ V Vf)|].
  destruct (entry_at m x f1 G1 H V) as (x' & p & q & H' & _ & _ & Es & El). eapply q_read; [by apply read_menu|].
  eapply (q_bind _ _ _ _ (λ b f', b = false)).
  { rewrite Es. destruct (mn_sym x) as [s|]; [|by apply q_go]. eapply q_mono; [apply q_answered; by apply A1, Ha|]. by intros ? ? _ _ _ [-> _]. }
  intros b f2 G2 C2 A2 ->. eapply q_bind; [by apply (q_go _ _ _ (λ _ f', f' = f2))|]. intros [] f3 G3 C3 A3 ->.
  apply q_asks. rewrite (links_fuel kf (fe_k f2)) by (apply (kp_setup _ _ (gd_keeps _ _ G2))). rewrite El. apply Kids.
  eapply asked_more; [exact A2|]. by eapply asked_more.
Qed.

Lemma q_check_kids l p o lo :
  walkable l → chain kf p o lo → lo ⊆ l → length lo ≤ length l → ∀ n d f, length lo ≤ n → length lo ≤ d →
  asked kf (fe_k f) (inr o) → quietly (keeps kf) (each_child n (check_at d) o) f (λ _ _, True).
Proof using All.
  intros W. induction 1 as [p|p m x lc ln H Hp Hc IHc Hn IHn]; intros Sub Len n d f Nn Nd As.
  { destruct n; by apply q_go. }
  simpl in Len, Nn, Nd. rewrite length_app in Len, Nn, Nd. destruct n as [|n]; [lia|]. destruct d as [|d]; [lia|].
  assert (Sc : m :: lc ⊆ l) by set_solver. cbn [each_child]. pose proof (wa_size _ W) as Sz.
  inversion As as [| | |m' x0 Am H0 An]; simplify_eq.
  eapply q_bind; [apply (q_check_one l d m x lc); try done; [simpl; lia|]|].
  { intros f1 As1. apply IHc; [set_solver|lia|unfold menu_fuel; lia|lia|done]. }
  intros [] f1 G1 C1 A1 _. destruct (q_next m x f1 H G1) as (x' & E & En). eapply q_read; [exact E|]. rewrite En.
  apply IHn; [set_solver|lia..|by eapply asked_more].
Qed.
End Walk.
