(* ===== verification/KAskTop.v ===== *)
(** * A whole run of the dialogue

    From the first menu to the written file: what [conf] leaves is a
    configuration that can be written, with the values it had before. *)
From S2P Require Import Prelude CLib CStr KData KExpr KState KSymbol KSymFrame KSymRef KSymSolve KSymTab KSymUnique KSymSet.
From S2P Require Import KMenu KMenuTree KConf KConfText KConfLine KCalc KConfLoad KConfSave KConfFile KConfReset KConfValues KConfRound KConfSafe.
From S2P Require Import KAsk KAskKeep KAskRun.
From Stdlib Require Import Ascii.
Open Scope pr30_scope.

(** ** Everything calculated *)

Lemma calc_every (l : list sid) : ∀ k, ready k → (∀ s, s ∈ l → is_Some (ks_syms k !! s)) →
  ∃ k', calced k k' ∧ ∀ s, s ∈ l → valid_in k' s.
Proof.
  induction l as [|t l IH]; intros k R H. { exists k. split; [apply calced_refl|]. by intros s ?%elem_of_nil. }
  destruct (runs_calc t k (H t ltac:(by left)) R) as ([] & k1 & _ & D1 & V1).
  destruct (IH k1 (calced_ready _ _ D1 R)) as (k2 & D2 & V2).
  { intros s Hs. eapply calced_exists; [done|]. apply H. by right. }
  exists k2. split; [by eapply calced_trans|]. intros s [->|Hs]%elem_of_cons; [by eapply calced_valid|auto].
Qed.

Lemma calc_all_of k : ready k → ∃ k', calced k k' ∧ all_solved k'.
Proof.
  intros R. destruct (calc_every (map_to_list (ks_syms k)).*1 k R) as (k' & D & V).
  { intros s ([s' y] & -> & Hs)%list_elem_of_fmap. apply elem_of_map_to_list in Hs. by exists y. }
  exists k'. split; [done|]. intros s [y' H']. apply (re_solved _ (calced_ready _ _ D R)), V.
  destruct (core_sym k' k s y' (eq_sym (cd_core _ _ D)) H') as (y & H & _).
  apply list_elem_of_fmap. exists (s, y). split; [done|]. by apply elem_of_map_to_list.
Qed.

Section Store.
Context (getenv : string → option string) (gettext : string → string) (ctime : string).

Lemma entry_ok_setup k k' m : same_setup k k' → entry_ok gettext k m → entry_ok gettext k' m.
Proof.
  intros Se (x & H & E). destruct (links_menu k k' m x (ss_menu _ _ Se) H) as (x' & H' & Es & Ep & _).
  exists x'. split; [done|]. rewrite Es. destruct (mn_sym x) as [s|].
  - destruct E as (y & Hy & T). destruct (ss_sym _ _ Se s y Hy) as (y' & Hy' & _ & (Et & _)). exists y'.
    split; [done|]. unfold typed. by rewrite Et.
  - intros p Hp. rewrite Ep in Hp. destruct (E p Hp) as (q & t & Hq & Ht & Qu & Sy).
    assert (L : pr_core <$> ks_props k' !! p = pr_core <$> ks_props k !! p) by (by rewrite <-!lookup_fmap, (ss_prop _ _ Se)).
    rewrite Hq in L. destruct (ks_props k' !! p) as [q'|]; [|done]. apply (inj Some) in L as (_ & Et & Ev & _)%pr_core_inv.
    exists q', t. rewrite Et, Ev. split_and!; [done..|]. intros u Hu. eapply setup_exists; eauto.
Qed.

Lemma text_eq v v' : cval_text v' = cval_text v → val_text v' = val_text v.
Proof. destruct v, v'; simpl; congruence. Qed.

(** Storing depends on the values only. *)
Section Values.
Context (k0 kf k kf' : kstate) (l : list mid) (S : storable getenv gettext ctime k0 kf l).
Context (P : plain k) (Se0 : same_setup k0 k) (A : alike k kf') (So : all_solved kf').
Context (V : ∀ s y', ks_syms kf' !! s = Some y' → ∃ y, ks_syms kf !! s = Some y ∧ val_eq y' y).

Lemma values_setup : same_setup kf kf'.
Proof using All.
  eapply setup_trans; [|by apply alike_setup]. eapply setup_trans; [|exact Se0]. apply setup_sym, alike_setup, S.
Qed.
Lemma values_agree : agree (λ _, True) kf' kf.
Proof using All.
  split; [|apply setup_agree_prop, values_setup]. intros t y' _ Hs. destruct (ref_sym_valid _ _ _ Hs) as [_ H'].
  destruct (V t y' H') as (y & H & E). exists y. split; [|done]. apply ref_sym_Some; [done|].
  destruct (sb_solved _ _ _ _ _ _ S t) as (z & ? & ? & _); [eauto|]. congruence.
Qed.

Lemma values_ranges : ranges_ok kf'.
Proof using All.
  intros s y' p x' a b base lo hi H' Hp Hx Ex B Lo Hi. pose proof values_agree as Ag.
  destruct (setup_back _ _ s y' values_setup H') as (y & H & _ & (Et & Ep & _)).
  destruct (agree_prop _ _ _ p x' Ag Hx) as (x & Hxf & (_ & _ & _ & Ee & _)%pr_core_inv).
  apply (sb_ranges _ _ _ _ _ _ S s y p x a b base lo hi); [done|congruence|done|congruence| |by apply (ref_bound_stable _ _ _ Ag)..].
  by rewrite <-Et.
Qed.

Lemma values_line m s y' : m ∈ l → sym_of k m = Some s → ks_syms kf' !! s = Some y' →
  entry k (name_of y') false s ∧ line_fits y' = true.
Proof using All.
  intros Hm Hs H'. destruct (V s y' H') as (y & H & (Et & Ev & _ & Ex)).
  destruct (setup_back _ _ s y' values_setup H') as (z & Hz & (En & _)%row_inv & _). assert (z = y) as -> by congruence.
  assert (Es : setting_of_sym y' = setting_of_sym y).
  { unfold setting_of_sym. by rewrite Et, Ev, (text_eq _ _ Ex). }
  unfold sym_of in Hs. destruct (ks_menus k !! m) as [x|] eqn:Hx; [|done]. simpl in Hs.
  destruct (links_menu k k0 m x (eq_sym (ss_menu _ _ Se0)) Hx) as (x0 & H0 & Ex0 & _).
  destruct (sb_line _ _ _ _ _ _ S m s y Hm) as [He Hl]; [unfold sym_of; rewrite H0; simpl; congruence|done|].
  unfold line_fits, name_of in *. rewrite En, <-Et, Es. split; [|done]. by eapply table_entry; [apply Se0|].
Qed.

Lemma values_storable : storable getenv gettext ctime k kf' l.
Proof using All.
  pose proof S as [_ H L M T E Pr _ _ _ _ Ve]. split; try done.
  - eapply table_ok; [apply Se0|done].
  - by eapply listed_setup.
  - destruct M as (m & Em & Hm). exists m. rewrite (ss_modules _ _ Se0). split; [done|]. by eapply setup_exists.
  - destruct T as (x & Hx & Ep & En & Hc & Nd). destruct (links_menu k0 k _ x (ss_menu _ _ Se0) Hx) as (x' & Hx' & _ & _ & El' & En' & Ep').
    exists x'. rewrite El'. split_and!; [done|congruence|congruence| |done]. eapply links_chain; [apply Se0|done].
  - intros m Hm. by eapply entry_ok_setup, E.
  - intros s y' p x' H' Hp Hx Ht. destruct (setup_back _ _ s y' Se0 H') as (y & Hy & _ & (_ & Ep & _)). rewrite Ep in Hp.
    assert (Lp : pr_core <$> ks_props k !! p = pr_core <$> ks_props k0 !! p) by (by rewrite <-!lookup_fmap, (ss_prop _ _ Se0)).
    rewrite Hx in Lp. destruct (ks_props k0 !! p) as [x|] eqn:Hx0; [|done]. apply (inj Some) in Lp as (_ & Et & _)%pr_core_inv.
    destruct (Pr s y p x Hy Hp Hx0) as (m & Hm & Hs); [by rewrite <-Et|]. exists m. split; [done|]. unfold sym_of in *.
    destruct (ks_menus k0 !! m) as [z|] eqn:Hz; [|done]. destruct (links_menu k0 k m z (ss_menu _ _ Se0) Hz) as (z' & -> & Es & _).
    simpl. by rewrite Es.
  - apply values_ranges.
  - apply values_line.
  - destruct Ve as (v & y & Ev & Hv & Hh). destruct (ss_sym _ _ values_setup v y Hv) as (y' & Hv' & _). exists v, y'.
    split_and!; [by eapply table_entry; [apply Se0|]|done|]. destruct (V v y' Hv') as (z & Hz & (_ & _ & Es & _)).
    assert (z = y) as -> by congruence. by rewrite <-(text_eq _ _ Es).
Qed.
End Values.

(** A store that keeps the values can be written as the first one. *)
Lemma storable_keeps k0 kf k l :
  storable getenv gettext ctime k0 kf l → keeps kf k →
  ∃ kf', storable getenv gettext ctime k kf' l ∧ ∀ s, value_in kf' s = value_in kf s.
Proof.
  intros S Kp. pose proof S as [P H L M T E Pr A So Ra Li Ve].
  assert (Pf : plain kf) by (by eapply alike_plain).
  assert (Se0 : same_setup k0 k) by (eapply setup_trans; [by apply alike_setup|apply Kp]).
  assert (Lf : listed kf) by (eapply listed_setup; [by apply alike_setup|done]).
  destruct (calc_all_of k (kp_ready _ _ Kp)) as (kf' & D & So').
  pose proof (keeps_calced kf Pf So Ra Lf k kf' Kp D) as Kp'.
  assert (V : ∀ s y', ks_syms kf' !! s = Some y' → ∃ y, ks_syms kf !! s = Some y ∧ val_eq y' y).
  { intros s y' H'. apply (keeps_value kf Pf So Ra Lf kf' s y' Kp' H'). destruct (So' s) as (z & Hz & Vz & _); [eauto|]. congruence. }
  exists kf'. split; [eapply (values_storable k0 kf); try done; [apply Kp|by apply calced_alike]|].
  intros s. destruct (ks_syms kf' !! s) as [y'|] eqn:H'.
  - destruct (V s y' H') as (y & Hy & Ev). by eapply value_in_eq.
  - unfold value_in. rewrite H'. destruct (ks_syms kf !! s) as [y|] eqn:Hy; [|done].
    destruct (ss_sym _ _ (kp_setup _ _ Kp') s y Hy) as (? & ? & _). congruence.
Qed.
End Store.

(** ** The program after the options *)

(** The menu tree has the entries [l] below the root. *)
Definition tree (k : kstate) (l : list mid) : Prop :=
  ∃ x, ks_menus k !! rootmenu = Some x ∧ chain k rootmenu (mn_list x) l ∧ NoDup (rootmenu :: l).
Lemma tree_size k l : tree k l → length (rootmenu :: l) ≤ size (ks_menus k).
Proof.
  intros (x & H & Hc & Nd). rewrite <-(size_dom (D := gset mid)), <-(size_list_to_set (C := gset mid) _ Nd).
  apply subseteq_size. intros m. rewrite elem_of_list_to_set, elem_of_dom.
  intros [->|Hm]%elem_of_cons; [eauto|]. by eapply chain_in.
Qed.

(** Input and files are as they were. *)
Definition undisturbed (f f' : front) : Prop :=
  fe_stdin f' = fe_stdin f ∧ cf_files (fe_conf f') = cf_files (fe_conf f) ∧ cf_dirs (fe_conf f') = cf_dirs (fe_conf f).
Lemma undisturbed_trans f1 f2 f3 : undisturbed f1 f2 → undisturbed f2 f3 → undisturbed f1 f3.
Proof. intros (A1 & A2 & A3) (B1 & B2 & B3). split_and!; congruence. Qed.
Lemma calm_undisturbed f f' : calm f f' → undisturbed f f'.
Proof. intros []. by split_and!. Qed.

Section Run.
Context (kf : kstate) (Pf : plain kf) (Al : all_solved kf) (Ro : ranges_ok kf) (Lf : listed kf) (Us : users_ok kf).
Context (turns : nat) (random : nat → Z) (in_front : ascii) (gettext : string → string) (depth : nat) (l : list mid).
Context (Tu : 0 < turns) (De : length l < depth) (Tr : tree kf l) (Wa : walkable kf (rootmenu :: l)).

(** No question is open: everything is to be left at its default, or is answered. *)
Definition nothing_open (f : front) : Prop :=
  fe_mode f = set_default ∨
  fe_mode f ≠ ask_all ∧ ∀ m s, m ∈ rootmenu :: l → sym_of kf m = Some s → answered (fe_k f) s.

Lemma walk_root f : hushed kf (rootmenu :: l) f →
  quietly (keeps kf) (conf turns random in_front gettext depth rootmenu) f (λ _ f', asked kf (fe_k f') (inl rootmenu)).
Proof using All.
  intros Hu. destruct Tr as (x & Hx & Hc & Nd). destruct depth as [|d]; [lia|].
  eapply (q_conf_one kf Pf Al Ro Lf Us turns random in_front gettext Tu (rootmenu :: l) d rootmenu x l); try done.
  intros f1 Hu1. pose proof (tree_size _ _ Tr) as Sz. simpl in Sz.
  apply (q_conf_kids kf Pf Al Ro Lf Us turns random in_front gettext Tu (rootmenu :: l) rootmenu (mn_list x) l);
    [done..|set_solver|simpl; lia|unfold menu_fuel; lia|lia|done].
Qed.

Lemma check_root f : asked kf (fe_k f) (inl rootmenu) →
  quietly (keeps kf) (check_conf turns random in_front gettext depth rootmenu) f (λ _ _, True).
Proof using All.
  intros As. destruct Tr as (x & Hx & Hc & Nd). destruct depth as [|d]; [lia|].
  eapply (q_check_one kf Pf Al Ro Lf Us turns random in_front gettext Tu (rootmenu :: l) d rootmenu x l); try done.
  intros f1 As1. pose proof (tree_size _ _ Tr) as Sz. simpl in Sz.
  apply (q_check_kids kf Pf Al Ro Lf Us turns random in_front gettext Tu (rootmenu :: l) rootmenu (mn_list x) l);
    [done..|set_solver|simpl; lia|unfold menu_fuel; lia|lia|done].
Qed.

(** The first walk, unless only unanswered questions are put. *)
Lemma ask_part f : good (keeps kf) f → nothing_open f →
  ∃ f1, when (bool_decide (fe_mode f ≠ ask_silent))
        (do~ modify (fe_set_root (Some rootmenu)) in
         do~ conf turns random in_front gettext depth rootmenu in
         when (bool_decide (fe_mode f = ask_all)) (modify (fe_set_mode ask_silent true))) f = Done (Go (), f1) ∧
    good (keeps kf) f1 ∧ undisturbed f f1 ∧ asked kf (fe_k f1) (inl rootmenu).
Proof using All.
  intros G No. destruct (decide (fe_mode f = ask_silent)) as [M|M].
  - rewrite bool_decide_eq_false_2 by (by intros []). exists f. split_and!; try done. destruct No as [No|[_ No]]; [congruence|].
    destruct Tr as (x & Hx & Hc & _). eapply asked_on; [done| |].
    + intros s Hs. apply (No rootmenu); [by left|]. unfold sym_of. by rewrite Hx.
    + eapply asked_all; [done|]. intros m s Hm. apply No. by right.
  - rewrite bool_decide_eq_true_2 by done. set (f0 := fe_set_root (Some rootmenu) f).
    assert (Hu : hushed kf (rootmenu :: l) f0) by (destruct No as [No|[No H]]; [by left|by right]).
    assert (G0 : good (keeps kf) f0) by (destruct G; by split).
    destruct (walk_root f0 Hu G0) as ([] & f1 & E1 & G1 & C1 & A1 & As). exists f1. split_and!; [|done|by apply (calm_undisturbed f0)|done].
    unfold when, andthen at 1. rewrite (mthen_done _ _ _ (Go ()) f0) by done. unfold andthen.
    rewrite (mthen_done _ _ _ _ _ E1). rewrite bool_decide_eq_false_2; [done|]. destruct No as [->|[? _]]; done.
Qed.

(** One turn of the loop is enough. *)
Lemma check_part f : good (keeps kf) f → asked kf (fe_k f) (inl rootmenu) →
  ∃ f1, check_all turns random in_front gettext turns depth f = Done (Go (), f1) ∧
    good (keeps kf) f1 ∧ undisturbed f f1 ∧ asked kf (fe_k f1) (inl rootmenu).
Proof using All.
  intros G As. pose (f0 := fe_set_cnt 0 f). assert (G0 : good (keeps kf) f0) by (destruct G; by split).
  destruct (check_root f0 As G0) as ([] & f1 & E1 & G1 & C1 & A1 & _). exists f1.
  split_and!; [|done|by apply (calm_undisturbed f0)|by eapply asked_more].
  assert (Et : turns = S (pred turns)) by lia. rewrite Et at 2. cbn [check_all].
  unfold andthen at 1. rewrite (mthen_done _ _ _ (Go ()) f0) by done. unfold andthen at 1.
  rewrite (mthen_done _ _ _ _ _ E1). unfold andthen, mthen, asks, mgets. simpl. rewrite (ca_cnt _ _ C1). by rewrite decide_True.
Qed.
End Run.

(** ** From the menus to the file *)

Lemma alike_keeps kf k : alike k kf → savable_now k → prompted k → keeps kf k.
Proof.
  intros A [R M] Pr. split; [done|by apply setup_sym, alike_setup|done..|].
  intros s yf y Hf H _. left. destruct (alike_sym k kf s y A H) as (z & Hz & C). assert (z = yf) as -> by congruence.
  by pose proof (sy_core_inv _ _ C) as (_ & _ & -> & _ & _ & _ & -> & _).
Qed.

(** The calculation of a store that keeps the values. *)
Lemma keeps_calc kf k s : plain kf → all_solved kf → ranges_ok kf → listed kf → keeps kf k → is_Some (ks_syms k !! s) →
  ∃ k', sym_calc_value s k = Done ((), k') ∧ value_in k' s = value_in kf s.
Proof.
  intros Pf Al Ro Lf Kp Hs. destruct (runs_calc s k Hs (kp_ready _ _ Kp)) as ([] & k' & E & D & (y & H & V)).
  exists k'. split; [done|]. pose proof (keeps_calced kf Pf Al Ro Lf k k' Kp D) as Kp'.
  destruct (keeps_value kf Pf Al Ro Lf k' s y Kp' H V) as (yf & Hf & Ev). by eapply value_in_eq.
Qed.

Section Program.
Context (turns : nat) (random : nat → Z) (in_front : ascii).
Context (getenv : string → option string) (gettext : string → string) (ctime : string) (pid : Z) (writable : string → bool).
Context (depth : nat) (kf : kstate) (l : list mid).

(** The menus can be walked over: [kf] is the configuration of [f] with
    everything calculated. *)
Record dialogue (f : front) : Prop := {
  dl_storable : storable getenv gettext ctime (fe_k f) kf l;
  dl_now : savable_now (fe_k f);
  dl_prompted : prompted (fe_k f);
  dl_users : users_ok kf;
  dl_askable : ∀ m, m ∈ rootmenu :: l → askable kf m;
  dl_text : ∀ m s y, m ∈ rootmenu :: l → sym_of kf m = Some s → menu_vis kf m true → ks_syms kf !! s = Some y →
    text_type (sy_type y) → sound_text y;
  dl_line : 2 < length (fe_line f);
}.

Section Given.
Context (f : front) (Dl : dialogue f) (Tu : 0 < turns) (De : length l < depth).

Lemma dl_plain : plain kf.
Proof using Dl. eapply alike_plain; apply (dl_storable _ Dl). Qed.
Lemma dl_listed : listed kf.
Proof using Dl. eapply listed_setup; [eapply alike_setup|]; apply (dl_storable _ Dl). Qed.
Lemma dl_tree : tree kf l.
Proof using Dl.
  destruct (sb_tree _ _ _ _ _ _ (dl_storable _ Dl)) as (x & H & _ & _ & Hc & Nd).
  pose proof (ss_menu _ _ (alike_setup _ _ (sb_alike _ _ _ _ _ _ (dl_storable _ Dl)))) as Li.
  destruct (links_menu _ _ _ x Li H) as (x' & H' & _ & _ & El & _). exists x'. rewrite El.
  split_and!; [done| |done]. by eapply links_chain.
Qed.
Lemma dl_walkable : walkable kf (rootmenu :: l).
Proof using Dl. split; [apply Dl..|apply tree_size, dl_tree]. Qed.
Lemma dl_good : good (keeps kf) f.
Proof using Dl. split; [|apply Dl]. apply alike_keeps; [apply (dl_storable _ Dl)|apply Dl..]. Qed.

Lemma conf_run : hushed kf (rootmenu :: l) f →
  ∃ f', conf turns random in_front gettext depth rootmenu f = Done (Go (), f') ∧ fe_stdin f' = fe_stdin f ∧
    asked kf (fe_k f') (inl rootmenu) ∧
    ∀ s, is_Some (ks_syms (fe_k f) !! s) →
      ∃ k', sym_calc_value s (fe_k f') = Done ((), k') ∧ value_in k' s = value_in kf s.
Proof using Dl Tu De.
  intros Hu. pose proof (dl_storable _ Dl) as St.
  destruct (walk_root kf dl_plain (sb_solved _ _ _ _ _ _ St) (sb_ranges _ _ _ _ _ _ St) dl_listed (dl_users _ Dl) turns random
    in_front gettext depth l Tu De dl_tree dl_walkable f Hu dl_good) as ([] & f' & E & G & C & _ & As).
  exists f'. split_and!; [done|apply C|done|]. intros s Hs.
  apply keeps_calc; [apply dl_plain|apply St..|apply dl_listed|apply G|].
  eapply setup_exists; [apply G|]. eapply setup_exists; [apply alike_setup, St|done].
Qed.

Lemma ask_and_write_run line0 : length line0 = LINE → nothing_open kf l f →
  writable (newname pid) = true → conf_def_filename ∉ cf_dirs (fe_conf f) → no_default_file getenv (fe_conf f) →
  ∃ f' c2, ask_and_write turns random in_front getenv gettext ctime pid writable depth f = Done (Go 0%Z, f') ∧
    fe_stdin f' = fe_stdin f ∧
    conf_read_simple getenv gettext line0 (Some conf_def_filename) true (fe_conf f') = Done (false, c2) ∧
    cf_warnings c2 = 0%Z ∧
    ∀ s, is_Some (ks_syms (fe_k f) !! s) →
      ∃ k3, sym_calc_value s (cf_k c2) = Done ((), k3) ∧ value_in k3 s = value_in kf s.
Proof using Dl Tu De.
  intros Ll No Wr Nd Df. pose proof (dl_storable _ Dl) as St. pose proof (sb_solved _ _ _ _ _ _ St) as Al.
  pose proof (sb_ranges _ _ _ _ _ _ St) as Ra.
  destruct (ask_part kf dl_plain Al Ra dl_listed (dl_users _ Dl) turns random in_front gettext depth l Tu De dl_tree dl_walkable f
    dl_good No) as (f1 & E1 & G1 & U1 & As1).
  destruct (check_part kf dl_plain Al Ra dl_listed (dl_users _ Dl) turns random in_front gettext depth l Tu De dl_tree dl_walkable f1
    G1 As1) as (f2 & E2 & G2 & U2 & As2).
  pose proof (undisturbed_trans _ _ _ U1 U2) as (Ui & Uf & Ud). pose proof (gd_keeps _ _ G2) as Kp.
  destruct (storable_keeps getenv gettext ctime (fe_k f) kf (fe_k f2) l St Kp) as (kf' & St' & Ev).
  destruct (save_load getenv gettext ctime pid writable line0 Ll (fe_conf f2) kf' l St') as (c1 & c2 & W & Rd & Wn & _ & Vs).
  { split; apply Kp. } { done. } { by rewrite Ud. } { intros home Hh. rewrite Uf, Ud. by apply Df. }
  exists (fe_set_conf c1 f2), c2. split_and!; [|done..|].
  - unfold ask_and_write. unfold andthen at 1. rewrite (mthen_done _ _ _ (Go (fe_mode f)) f) by done.
    unfold andthen at 1. rewrite (mthen_done _ _ _ _ _ E1). unfold andthen at 1. rewrite (mthen_done _ _ _ _ _ E2).
    unfold andthen, of_conf, mthen. by rewrite W.
  - intros s Hs. destruct (Vs s) as (k3 & E3 & V3); [|exists k3; by rewrite V3].
    eapply setup_exists; [apply Kp|]. eapply setup_exists; [apply alike_setup, St|done].
Qed.
End Given.
End Program.
