(* ===== verification/KAskReply.v ===== *)
(** * Answers from the input

    A question about a symbol is put until there is a usable answer.  Whatever
    is typed, the dialogue stays inside its array and ends: each turn takes a
    line, and the end of the input ends the program.  Questions that take their
    answer from a value that may not be set do not end.

    [conf_choice] numbers the visible values when it shows them, and counts
    again when it looks for the one that was chosen: both agree. *)
From S2P Require Import Prelude CLib CStr KData KExpr KState KSymbol KSymFrame KSymRef KSymSolve KSymTab KSymUnique KSymSet.
From S2P Require Import KMenu KConf KConfText KConfLine KCalc KConfSave.
From S2P Require Import KAsk KAskKeep KAskRun.
From Stdlib Require Import Ascii.
Open Scope pr30_scope.

(** ** The array *)

Lemma count_spaces_ended line : NUL ∈ line → ∃ p, count_spaces line = Some p ∧ NUL ∈ drop p line ∧
  ∀ c, drop p line !! 0 = Some c → isspace c = false.
Proof.
  induction line as [|c r IH]; [by intros ?%elem_of_nil|]. intros H. simpl. destruct (isspace c) eqn:Ec.
  - destruct IH as (p & -> & Hp & Hc); [|by exists (S p)]. apply elem_of_cons in H as [<-|H]; [done|done].
  - exists 0. split_and!; [done|done|]. by intros d [= <-].
Qed.

Lemma ended_text l : NUL ∈ l → ∃ t, cstr_of l = Some t ∧ String.length t < length l ∧ l !! String.length t = Some NUL.
Proof.
  intros [i Hi]%list_elem_of_lookup. destruct (cstr_ended l i Hi) as (t & E & Hl & Ht). exists t. split_and!; [done| |done].
  apply lookup_lt_Some in Hi. lia.
Qed.

Lemma cstr_head c l t : cstr_of (c :: l) = Some t → t ≠ EmptyString → char_at t = c.
Proof. simpl. destruct (isc c NUL); [by intros [= <-]|]. destruct (cstr_of l); [|done]. by intros [= <-]. Qed.

Lemma strip_end_safe p : ∀ line c, line !! 0 = Some c → isspace c = false → p < length line → NUL ∈ line →
  ∃ line', strip_end line p = Some line' ∧ length line' = length line ∧ NUL ∈ line'.
Proof.
  induction p as [|p IH]; intros line c H0 Hc Hp Hn; cbn [strip_end].
  - rewrite H0. simpl. rewrite Hc. by exists line.
  - destruct (lookup_lt_is_Some_2 line (S p) Hp) as [d Hd]. rewrite Hd. simpl. destruct (isspace d); [|by exists line].
    destruct (IH (<[S p := NUL]> line) c) as (line' & E & L & N); rewrite ?length_insert; [|done|lia|..].
    + by rewrite list_lookup_insert_ne.
    + apply list_elem_of_lookup. exists (S p). by apply list_lookup_insert_eq.
    + exists line'. by rewrite L, length_insert.
Qed.

(** [strip] stays inside an array that holds a string. *)
Lemma strip_safe line : NUL ∈ line → ∃ line', strip line = Some line' ∧ length line' = length line ∧ NUL ∈ line'.
Proof.
  intros Hn. destruct (count_spaces_ended line Hn) as (p & Ep & Hp & Hc). unfold strip. rewrite Ep. simpl.
  destruct (ended_text _ Hp) as (t & Et & Lt & Nt). rewrite Et. simpl. rewrite length_drop in Lt.
  set (line1 := if decide (p ≠ 0) then la t ++ NUL :: drop (S (String.length t)) line else line).
  assert (L1 : length line1 = length line ∧ NUL ∈ line1).
  { unfold line1. case_decide; [|done]. rewrite length_app. simpl. rewrite la_length, length_drop. split; [lia|].
    apply elem_of_app. right. by left. }
  destruct L1 as [L1 N1]. destruct (String.length t) as [|q] eqn:Eq; [by exists line1|].
  assert (H1 : ∃ c, line1 !! 0 = Some c ∧ isspace c = false).
  { destruct (drop p line) as [|c r] eqn:Ed; [done|]. exists c. split; [|by apply Hc].
    unfold line1. case_decide as D; [|assert (p = 0) as -> by lia; by rewrite drop_0 in Ed; subst].
    destruct t as [|d t]; [done|]. by rewrite <-(cstr_head c r (String d t)). }
  destruct H1 as (c & H0 & Hs). destruct (strip_end_safe q line1 c) as (line' & E & L & N); [done|done|lia|done|].
  exists line'. by rewrite L.
Qed.

(** A word on a line: no 0, no blank at either end. *)
Definition word (w : string) : Prop :=
  without [NUL; nl] w = true ∧ isspace (char_at w) = false ∧ ∃ l c, la w = l ++ [c] ∧ isspace c = false.

Lemma strip_newline l c r : isspace c = false →
  strip_end (l ++ c :: nl :: NUL :: r) (S (length l)) = Some (l ++ c :: NUL :: NUL :: r).
Proof.
  intros Hc. assert (En : (l ++ c :: nl :: NUL :: r) !! S (length l) = Some nl).
  { rewrite lookup_app_r by lia. by replace (S (length l) - length l) with 1 by lia. }
  cbn [strip_end]. rewrite En. simpl. rewrite insert_app_r_alt by lia. replace (S (length l) - length l) with 1 by lia. simpl.
  assert (Ec : (l ++ c :: NUL :: NUL :: r) !! length l = Some c) by (by apply list_lookup_middle).
  destruct (length l); cbn [strip_end]; rewrite Ec; simpl; by rewrite Hc.
Qed.

Lemma strip_word w r : word w → strip (la w ++ nl :: NUL :: r) = Some (la w ++ NUL :: NUL :: r).
Proof.
  intros (W & H0 & l & c & El & Hc).
  assert (Et : cstr_of (la w ++ nl :: NUL :: r) = Some (w +:+ String nl "")).
  { pose proof (cstr_of_app (w +:+ String nl "") r) as E. rewrite la_app, <-app_assoc in E. apply E.
    rewrite without_app. apply andb_true_iff. split; [|done]. eapply without_weaken; [|exact W]. set_solver. }
  assert (Ec : count_spaces (la w ++ nl :: NUL :: r) = Some 0).
  { destruct w as [|d w]; [by destruct l|]. simpl in H0 |- *. by rewrite H0. }
  assert (Ln : String.length (w +:+ String nl "") = S (S (length l))).
  { rewrite <-la_length, la_app, El, !length_app. simpl. lia. }
  unfold strip. rewrite Ec. simpl. rewrite drop_0, Et. simpl. rewrite Ln, El, <-!app_assoc. by apply strip_newline.
Qed.

(** ** Runs that may leave the program *)

Definition comes {A} (m : F A) (f : front) (Q : flow A → front → Prop) : Prop := ∃ r f', m f = Done (r, f') ∧ Q r f'.

Lemma comes_go {A} (a : A) f (Q : flow A → front → Prop) : Q (Go a) f → comes (go a) f Q.
Proof. intros H. by exists (Go a), f. Qed.
Lemma comes_bind {A B} (m : F A) (k : A → F B) f P Q :
  comes m f P → (∀ r f1, P r f1 → match r with Go a => comes (k a) f1 Q | Exit st => Q (Exit st) f1 end) →
  comes (andthen m k) f Q.
Proof.
  intros (r & f1 & E & HP) H. specialize (H r f1 HP). unfold comes, andthen. rewrite (mthen_done _ _ _ _ _ E).
  destruct r as [a|st]; [done|]. by exists (Exit st), f1.
Qed.
Lemma comes_step {A B} (m : F A) a (k : A → F B) f f1 Q : m f = Done (Go a, f1) → comes (k a) f1 Q → comes (andthen m k) f Q.
Proof. intros E (r & f2 & E2 & HQ). exists r, f2. split; [|done]. unfold andthen. by rewrite (mthen_done _ _ _ _ _ E). Qed.
Lemma comes_read {A B} (m : K A) a (k : A → F B) f Q :
  m (fe_k f) = Done (a, fe_k f) → comes (k a) f Q → comes (andthen (of_store m) k) f Q.
Proof. intros E. apply comes_step. by rewrite (of_store_run _ _ _ _ E), put_same. Qed.
(** A part that asks nothing comes first. *)
Lemma comes_quiet {A B} I (m : F A) (k : A → F B) f P Q :
  quietly I m f P → good I f → (∀ a f1, good I f1 → calm f f1 → P a f1 → comes (k a) f1 Q) → comes (andthen m k) f Q.
Proof.
  intros H G Hk. destruct (H G) as (a & f1 & E & G1 & C & _ & HP). eapply comes_step; eauto.
Qed.

(** ** One answer *)

(** [v] may be given to [y]. *)
Definition admissible (y : symbol) (v : tristate) : Prop := sv_tri (sy_curr y) = v ∨ tristate_within_range y v = true.
(** [s] was given [v] by the user. *)
Definition given (k : kstate) (s : sid) (v : tristate) : Prop :=
  ∃ y, ks_syms k !! s = Some y ∧ has_value y = true ∧ sv_tri (sy_user y) = v.

Section Symbol.
Context (k : kstate) (s : sid) (y : symbol) (R : ready k) (Ls : listed k).
Context (H : ks_syms k !! s = Some y) (V : valid y = true) (T : logic_type y).

Lemma set_given v : admissible y v → ∃ k', sym_set_tristate_value s v k = Done (true, k') ∧ given k' s v.
Proof using All.
  intros A. pose proof (re_plain _ R) as P. destruct (pl_choice k P s y H) as [_ Nc].
  destruct (set_tristate_run k s y v P Ls (ready_untyped _ ltac:(apply R) ltac:(apply R)) H T Nc A) as (k' & E & Q).
  exists k'. split; [done|].
  assert (G : ∀ n, ks_core k' = ks_core (ks_set_change_count n (set_to s v y k)) → given k' s v).
  { intros n C. destruct (core_sym _ k' s (with_user v (no_new y)) C) as (y' & H' & Cy); [simpl; apply lookup_insert_eq|].
    exists y'. pose proof (sy_core_inv _ _ Cy) as (_ & _ & Eu & _ & _ & _ & Eh & _). split_and!; [done| |by rewrite Eu].
    rewrite Eh. apply has_value_new. }
  case_decide.
  - destruct Q as [To _]. apply (G (ks_change_count k)). rewrite (to_core _ _ _ To). by destruct k.
  - destruct Q as [C _]. by apply (G (ks_change_count k + 1)%Z).
Qed.

Lemma set_refused v : ¬ admissible y v → sym_set_tristate_value s v k = Done (false, k).
Proof using H.
  intros N. unfold sym_set_tristate_value, sym_get_tristate_value, sym_tristate_within_range.
  rewrite (mthen_done _ _ _ _ _ (read_of (λ y, sv_tri (sy_curr y)) k s y H)).
  rewrite (mthen_done _ _ _ _ _ (read_of (λ y, tristate_within_range y v) k s y H)). rewrite decide_True; [done|].
  unfold admissible in N. destruct (tristate_within_range y v); [by destruct N; right|]. split; [|done]. intros E. by destruct N; left.
Qed.

(** The input and the array after an answer. *)
Record after (f f' : front) : Prop := {
  af_mode : fe_mode f' = fe_mode f;
  af_stdin : fe_stdin f' = fe_stdin f;
  af_line : length (fe_line f') = length (fe_line f);
}.

Lemma run_help f : comes (print_help s) f (λ r f', r = Go () ∧ fe_k f' = fe_k f ∧ after f f').
Proof. eexists _, _. by split. Qed.

(** A reply settles the question, or changes nothing. *)
Lemma run_reply (rp : reply) f : fe_k f = k →
  comes (match rp with
    | Ask_again => go false
    | Help => do~ print_help s in go false
    | Value newval =>
        let~ ok := of_store (sym_set_tristate_value s newval) in
        if ok : bool then go true else do~ print_help s in go false
    end) f (λ r f', ∃ b, r = Go b ∧ after f f' ∧
      if b : bool then ∃ v, rp = Value v ∧ admissible y v ∧ given (fe_k f') s v
      else fe_k f' = k ∧ ∀ v, rp = Value v → ¬ admissible y v).
Proof using All.
  intros Ek. assert (He : ∀ P : Prop, P → comes (do~ print_help s in go false) f (λ r f', ∃ b, r = Go b ∧ after f f' ∧
      if b : bool then ∃ v, rp = Value v ∧ admissible y v ∧ given (fe_k f') s v else fe_k f' = k ∧ P)).
  { intros P HP. eapply comes_bind; [apply run_help|]. intros r f1 (-> & E1 & A1). apply comes_go.
    exists false. split_and!; [done..|by rewrite E1|done]. }
  destruct rp as [v| |]; [|by apply He|by apply comes_go; exists false].
  destruct (decide (admissible y v)) as [A|N].
  - destruct (set_given v A) as (k' & E & G). rewrite <-Ek in E. eapply comes_step; [by apply of_store_run|].
    apply comes_go. exists true. split_and!; [done..|by exists v].
  - pose proof (set_refused v N) as E. rewrite <-Ek in E. eapply comes_step; [by apply of_store_run|]. rewrite put_same.
    apply He. by intros w [= <-].
Qed.

(** The answer is in [line]. *)
Lemma run_take f : fe_k f = k → NUL ∈ fe_line f →
  comes (take_reply s (sv_tri (sy_curr y))) f (λ r f', ∃ b, r = Go b ∧ after f f' ∧
    if b : bool then ∃ v, admissible y v ∧ given (fe_k f') s v else fe_k f' = k).
Proof using All.
  intros Ek Hn. destruct (strip_safe _ Hn) as (line & Es & L & N). unfold take_reply.
  eapply (comes_step _ () _ f (fe_set_line line f)); [unfold strip_line, andthen, mthen, asks, deref; simpl; by rewrite Es|].
  destruct line as [|c line]; [by apply elem_of_nil in N|].
  eapply (comes_step _ c); [done|].
  assert (Rs : ∃ rest, (if isc c NUL then go EmptyString else line_from 1) (fe_set_line (c :: line) f) =
    Done (Go rest, fe_set_line (c :: line) f)).
  { destruct (isc c NUL) eqn:Ec; [by eexists|]. apply isc_false in Ec. apply elem_of_cons in N as [<-|N]; [done|].
    destruct (ended_text _ N) as (t & Et & _). exists t. unfold line_from, andthen, mthen, asks, deref. simpl. by rewrite drop_0, Et. }
  destruct Rs as [rest Er]. eapply comes_step; [exact Er|].
  destruct (run_reply (reply_of c rest (sv_tri (sy_curr y))) (fe_set_line (c :: line) f) Ek) as (r & f' & E & b & -> & A & Q).
  exists (Go b), f'. split; [exact E|]. exists b. split_and!; [done| |].
  - destruct A as [A1 A2 A3]. split; [done..|]. by rewrite A3.
  - destruct b; [|by destruct Q]. destruct Q as (v & _ & Q). by exists v.
Qed.

(** ** Until there is an answer *)

Context (turns : nat) (random : nat → Z) (gettext : string → string) (m : mid).
Context (Qu : question k m s y) (Ch : tri_ltb (sy_rev_dep_tri y) (sy_visible y) = true).

(** What stays while the question is open. *)
Record open_at (f : front) : Prop := {
  oa_k : fe_k f = k;
  oa_mode : fe_mode f = ask_all;
  oa_line : 2 < length (fe_line f);
}.
Lemma open_good f : open_at f → good (λ k', k' = k) f.
Proof. intros [A B C]. by split. Qed.
Lemma open_calm f f' : open_at f → good (λ k', k' = k) f' → calm f f' → open_at f'.
Proof. intros [A B C] [A' B'] Ca. split; [done|by rewrite (ca_mode _ _ Ca)|done]. Qed.

Lemma run_fgets f : open_at f →
  comes (fgets_check_stream gettext) f (λ r f', fe_k f' = k ∧ (r = Exit 1 ∧ fe_stdin f = EmptyString ∨
    r = Go () ∧ open_at f' ∧ NUL ∈ fe_line f' ∧ String.length (fe_stdin f') < String.length (fe_stdin f))).
Proof using Type.
  intros [A B C]. unfold fgets_check_stream. apply (comes_step _ (fe_line f) _ f f); [done|]. apply (comes_step _ (fe_stdin f) _ f f); [done|].
  unfold fgets. destruct (fe_stdin f) as [|c text] eqn:E.
  - eexists _, _. split; [done|]. split; [done|]. by left.
  - destruct (fgets_take (length (fe_line f) - 1) (String c text)) as [l rest] eqn:Ef.
    destruct (fgets_take_le _ _ _ _ Ef) as [Hl Ht]. destruct (length (fe_line f) - 1) as [|n] eqn:En; [lia|].
    pose proof (fgets_take_pos _ _ _ _ _ Ef) as Hp. eexists _, _. split; [done|]. split; [done|]. right. split; [done|].
    split_and!; [split; [done..|]| |simpl in *; lia].
    + simpl. rewrite length_app. simpl. rewrite length_drop. lia.
    + simpl. apply elem_of_app. right. by left.
Qed.

Lemma run_askvalue def f Q : open_at f →
  (∀ f1, open_at f1 → calm f f1 → comes (fgets_check_stream gettext) f1 Q) →
  comes (conf_askvalue turns random gettext s def) f Q.
Proof using H Ch.
  intros O Hk. unfold conf_askvalue. pose proof (open_good f O) as G. pose proof (oa_k _ O) as Ek.
  pose proof H as H0. rewrite <-Ek in H0.
  eapply comes_read; [by apply (read_of get_type)|].
  eapply comes_read; [by apply (read_of has_value)|].
  eapply (comes_quiet (λ k', k' = k)); [apply q_when; by apply q_print|done|]. intros [] f1 G1 C1 E1.
  eapply (comes_quiet (λ k', k' = k)); [apply q_clear_line|done|]. intros [] f2 G2 C2 [E2 _].
  pose proof (calm_trans _ _ _ C1 C2) as C. pose proof (open_calm f f2 O G2 C) as O2.
  rewrite E1 in E2. rewrite <-E2 in H0.
  eapply comes_read; [by apply (read_of (λ y, tri_ltb (sy_rev_dep_tri y) (sy_visible y)))|].
  rewrite Ch. simpl. apply (comes_step _ ask_all _ f2 f2); [unfold asks, mthen, mgets; by rewrite (oa_mode _ O2)|].
  by apply Hk.
Qed.

Lemma run_turn f : open_at f →
  comes (conf_sym_turn turns random gettext m s) f (λ r f',
    r = Exit 1 ∧ fe_k f' = k ∨
    r = Go true ∧ (∃ v, admissible y v ∧ given (fe_k f') s v) ∨
    r = Go false ∧ open_at f' ∧ String.length (fe_stdin f') < String.length (fe_stdin f)).
Proof using All.
  intros O. unfold conf_sym_turn. pose proof (oa_k _ O) as Ek.
  eapply (comes_quiet (λ k', k' = k)); [apply (q_show_sym _ m s y); by rewrite Ek|by apply open_good|].
  intros v f1 G1 C1 [-> E1]. pose proof (open_calm f f1 O G1 C1) as O1. pose proof (oa_k _ O1) as Ek1.
  destruct (q_text_of s y f1) as (c & _ & Rv); [by rewrite Ek1|by rewrite Ek1|done|].
  eapply comes_read; [exact Rv|]. eapply (comes_step _ _ _ f1 f1); [done|].
  eapply comes_bind; [apply (run_askvalue _ f1); [done|]|].
  { intros f2 O2 C2. pose proof (run_fgets f2 O2) as Rf. rewrite (ca_stdin _ _ C2), (ca_stdin _ _ C1) in Rf. exact Rf. }
  intros r f2 (Ek2 & [[-> _]|(-> & O2 & N2 & L2)]); [by left|].
  destruct (run_take f2 Ek2 N2) as (r & f3 & E3 & b & -> & A3 & Q3). exists (Go b), f3. split; [done|right].
  destruct b; [by left|right]. destruct A3 as [A1 A2 A4], O2 as [B1 B2 B3]. split_and!; [done|split; congruence|congruence].
Qed.

Lemma run_sym n f : open_at f → String.length (fe_stdin f) < n →
  comes (repeat_until n (conf_sym_turn turns random gettext m s)) f (λ r f',
    r = Exit 1 ∧ fe_k f' = k ∨ r = Go () ∧ ∃ v, admissible y v ∧ given (fe_k f') s v).
Proof using All.
  revert f. induction n as [|n IH]; intros f O Hn; [lia|]. cbn [repeat_until]. eapply comes_bind; [by apply run_turn|].
  intros r f1 [[-> E]|[[-> G]|(-> & O1 & L1)]]; [by left|apply comes_go; by right|]. apply IH; [done|lia].
Qed.

(** ** A line with an answer *)

Definition answer_line (w : string) : Prop := w = EmptyString ∨ word w.

Lemma answer_strip w r : answer_line w → strip (la w ++ nl :: NUL :: r) = Some (la w ++ NUL :: NUL :: r).
Proof using Type. intros [->|W]; [apply strip_empty|by apply strip_word]. Qed.
Lemma answer_without w l : answer_line w → (∀ c, c ∈ l → c ∈ [NUL; nl]) → without l w = true.
Proof using Type. intros [->|(W & _)] Hl; [done|]. by eapply without_weaken. Qed.

Lemma run_fgets_line w rest f : open_at f → answer_line w → String.length w + 2 ≤ length (fe_line f) → fe_stdin f = ln w +:+ rest →
  comes (fgets_check_stream gettext) f (λ q f', q = Go () ∧ fe_k f' = k ∧ fe_stdin f' = rest ∧
    ∃ r, fe_line f' = la w ++ nl :: NUL :: r).
Proof using Type.
  intros [A B C] W L E. unfold fgets_check_stream. apply (comes_step _ (fe_line f) _ f f); [done|].
  apply (comes_step _ (fe_stdin f) _ f f); [done|].
  assert (Ef : fgets (fe_line f) (fe_stdin f) = Some (la w ++ nl :: NUL :: drop (S (length (la w ++ [nl]))) (fe_line f), rest)).
  { rewrite E. unfold fgets, ln. rewrite <-string_app_assoc. change (String nl "" +:+ rest) with (String nl rest).
    rewrite (fgets_take_line (length (fe_line f) - 1)); [|apply answer_without; [done|by intros c ->%list_elem_of_singleton; right; left]|lia].
    rewrite <-app_assoc. by destruct w. }
  rewrite Ef. eexists _, _. split; [done|]. split_and!; [done..|]. by eexists.
Qed.

Lemma run_take_word w l v rest f : fe_k f = k → answer_line w → fe_line f = la w ++ nl :: NUL :: l → fe_stdin f = rest →
  reply_of (char_at w) (tail_of w) (sv_tri (sy_curr y)) = Value v → admissible y v →
  comes (take_reply s (sv_tri (sy_curr y))) f (λ r f', r = Go true ∧ fe_stdin f' = rest ∧ given (fe_k f') s v).
Proof using All.
  intros Ek W El Es Rp Ad. unfold take_reply. pose (f1 := fe_set_line (la w ++ NUL :: NUL :: l) f).
  eapply (comes_step _ () _ f f1); [unfold strip_line, andthen, mthen, asks, deref; simpl; by rewrite El, answer_strip|].
  assert (Ec : (la w ++ NUL :: NUL :: l) !! 0 = Some (char_at w)) by (by destruct w).
  eapply (comes_step _ (char_at w) _ f1 f1); [unfold line_at, andthen, mthen, asks, deref; simpl; by rewrite Ec|].
  eapply (comes_step _ (tail_of w) _ f1 f1).
  { destruct w as [|c w]; [done|]. pose proof (answer_without (String c w) [NUL] W ltac:(by intros ? ->%list_elem_of_singleton; left)) as Wn.
    unfold without in Wn. simpl in Wn. apply andb_true_iff in Wn as [Hc%bool_decide_eq_true Hw].
    cbn [char_at tail_of].
    rewrite (proj2 (isc_false c NUL)) by (intros ->; apply Hc; by left).
    unfold line_from, andthen, mthen, asks, deref. simpl. rewrite drop_0. by rewrite (cstr_of_app w (NUL :: l) Hw). }
  rewrite Rp. destruct (run_reply (Value v) f1 Ek) as (r & f' & E & b & -> & [_ A _] & Q). exists (Go b), f'. split; [exact E|].
  destruct b; [|by destruct Q as [_ Q]; destruct (Q v eq_refl)]. destruct Q as (v' & [= <-] & _ & G). by rewrite A.
Qed.

Lemma run_word w rest v n f : open_at f → answer_line w → String.length w + 2 ≤ length (fe_line f) → fe_stdin f = ln w +:+ rest →
  reply_of (char_at w) (tail_of w) (sv_tri (sy_curr y)) = Value v → admissible y v →
  comes (repeat_until (S n) (conf_sym_turn turns random gettext m s)) f (λ r f', r = Go () ∧ fe_stdin f' = rest ∧ given (fe_k f') s v).
Proof using All.
  intros O W Lw Es Rp Ad. cbn [repeat_until]. unfold conf_sym_turn. pose proof (oa_k _ O) as Ek.
  eapply (comes_bind _ _ _ (λ r f', r = Go true ∧ fe_stdin f' = rest ∧ given (fe_k f') s v));
    [|intros r f' (-> & Q); by apply comes_go].
  eapply (comes_quiet (λ k', k' = k)); [apply (q_show_sym _ m s y); by rewrite Ek|by apply open_good|].
  intros t f1 G1 C1 [-> E1]. pose proof (open_calm f f1 O G1 C1) as O1. pose proof (oa_k _ O1) as Ek1.
  destruct (q_text_of s y f1) as (c & _ & Rv); [by rewrite Ek1|by rewrite Ek1|done|].
  eapply comes_read; [exact Rv|]. eapply (comes_step _ _ _ f1 f1); [done|].
  eapply comes_bind; [apply (run_askvalue _ f1); [done|]|].
  { intros f2 O2 C2. pose proof (calm_trans _ _ _ C1 C2) as C. apply (run_fgets_line w rest); [done..| |].
    - by rewrite (ca_line _ _ C). - by rewrite (ca_stdin _ _ C). }
  intros r f2 (-> & Ek2 & Es2 & l & El). by apply (run_take_word w l).
Qed.
End Symbol.

(** ** Values that may not be set *)

Lemma set_text_refused k s y t : ks_syms k !! s = Some y → sy_type y = S_INT ∨ sy_type y = S_HEX →
  string_valid (sy_type y) t = false → sym_set_string_value s t k = Done (false, k).
Proof.
  intros H T N. unfold sym_set_string_value.
  assert (E : sym_string_valid s t k = Done (false, k)).
  { unfold sym_string_valid. rewrite (mthen_done _ _ _ _ _ (run_get_sym _ _ _ H)). by rewrite N. }
  assert (Er : sym_string_within_range s t k = Done (false, k)).
  { unfold sym_string_within_range. rewrite (mthen_done _ _ _ _ _ (run_get_sym _ _ _ H)).
    destruct T as [-> | ->]; by rewrite (mthen_done _ _ _ _ _ E). }
  rewrite (mthen_done _ _ _ _ _ (run_get_sym _ _ _ H)). destruct T as [-> | ->]; by rewrite (mthen_done _ _ _ _ _ Er).
Qed.

Lemma string_stuck turns random gettext m s y c n : ∀ f,
  question (fe_k f) m s y → sy_type y = S_INT ∨ sy_type y = S_HEX → sv_val (sy_curr y) = VStr c →
  string_valid (sy_type y) (cs_text c) = false → silent f s → 2 < length (fe_line f) →
  repeat_until n (conf_string_turn turns random gettext m s) f = NoFuel.
Proof.
  induction n as [|n IH]; intros f Qu T Ec N Si L; [done|]. cbn [repeat_until].
  assert (G : good (λ k, k = fe_k f) f) by (by split).
  assert (Q : quietly (λ k, k = fe_k f) (conf_string_turn turns random gettext m s) f (λ b _, b = false)).
  { eapply (q_string_turn_upto _ _ _ _ m s y c); [done|unfold string_value; rewrite Ec; by destruct T as [-> | ->]|done|].
    intros f1 G1 E1. eapply q_set; [eapply set_text_refused; try done; rewrite E1; apply Qu|done|by intros t|done]. }
  destruct (Q G) as (b & f1 & E & [E1 L1] & C & A & ->). unfold andthen. rewrite (mthen_done _ _ _ _ _ E).
  apply IH; try done; [by rewrite E1|by eapply silent_calm].
Qed.

(** ** The numbers of a choice *)

(** [child], [child->next], ... *)
Inductive siblings (k : kstate) : option mid → list mid → Prop :=
  | siblings_nil : siblings k None []
  | siblings_cons c x l : ks_menus k !! c = Some x → siblings k (mn_next x) l → siblings k (Some c) (c :: l).

(** The prompt and the symbol of an entry exist. *)
Definition whole (k : kstate) (c : mid) : Prop := ∀ x, ks_menus k !! c = Some x →
  (∀ p, mn_prompt x = Some p → is_Some (ks_props k !! p)) ∧ (∀ s, mn_sym x = Some s → is_Some (ks_syms k !! s)).

Section Numbers.
Context (gettext : string → string) (k : kstate) (seen : mid → bool).

(** The values that have a number, in their order. *)
Definition has_number (c : mid) : Prop := seen c = true ∧ is_Some (sym_of k c).
#[local] Instance has_number_dec c : Decision (has_number c).
Proof. unfold has_number. apply _. Defined.
Definition numbered (l : list mid) : list mid := filter has_number l.

Lemma numbered_hit c x s l : seen c = true → ks_menus k !! c = Some x → mn_sym x = Some s → numbered (c :: l) = c :: numbered l.
Proof. intros E H Hs. unfold numbered. rewrite filter_cons_True; [done|]. split; [done|]. unfold sym_of. rewrite H. simpl. by rewrite Hs. Qed.
Lemma numbered_skip c x l : seen c = false ∨ mn_sym x = None → ks_menus k !! c = Some x → numbered (c :: l) = numbered l.
Proof.
  intros E H. unfold numbered. rewrite filter_cons_False; [done|]. intros [S [s Hs]]. unfold sym_of in Hs. rewrite H in Hs.
  simpl in Hs. destruct E; congruence.
Qed.

(** Where the default is: behind [cnt] values that come first. *)
Fixpoint default_at (def_sym : cval) (vals : list mid) (cnt def : nat) : nat :=
  match vals with
  | [] => def
  | c :: r => default_at def_sym r (S cnt) (if from_option (is_default def_sym) false (sym_of k c) then S cnt else def)
  end.

Context (o : option mid) (l : list mid) (Si : siblings k o l).
Context (Wh : ∀ c, c ∈ l → whole k c) (Se : ∀ c, c ∈ l → menu_is_visible c k = Done (seen c, k)).

Lemma read_prompt c x : whole k c → ks_menus k !! c = Some x → ∃ t, menu_get_prompt gettext c k = Done (t, k).
Proof.
  intros W H. destruct (W x H) as [Wp Ws]. unfold menu_get_prompt. rewrite (mthen_done _ _ _ _ _ (read_menu _ _ _ H)).
  destruct (mn_prompt x) as [p|]; [destruct (Wp p eq_refl) as [q Hq]; rewrite (mthen_done _ _ _ _ _ (read_prop _ _ _ Hq)); eauto|].
  destruct (mn_sym x) as [s|]; [destruct (Ws s eq_refl) as [y Hy]; rewrite (mthen_done _ _ _ _ _ (run_get_sym _ _ _ Hy)); eauto|eauto].
Qed.

Lemma list_run def_sym n : length l ≤ n → ∀ cnt def f, fe_k f = k →
  quietly (λ k', k' = k) (list_choices gettext n def_sym o cnt def) f (λ r _,
    r = (cnt + length (numbered l), default_at def_sym (numbered l) cnt def)).
Proof using Si Wh Se.
  revert n. induction Si as [|c x r H Sr IH]; intros n Hn cnt def f Ek.
  { destruct n; apply q_go; by rewrite Nat.add_0_r. }
  simpl in Hn. destruct n as [|n]; [lia|]. cbn [list_choices]. specialize (IH Sr (λ d Hd, Wh d ltac:(by right)) (λ d Hd, Se d ltac:(by right))).
  assert (Hc : c ∈ c :: r) by by left.
  eapply q_read; [rewrite Ek; by apply Se|]. eapply q_read; [rewrite Ek; by apply read_menu|].
  destruct (seen c) eqn:Es; simpl; [|rewrite (numbered_skip c x r); auto; apply IH; [lia|done]].
  destruct (read_prompt c x (Wh c Hc) H) as [t Ht]. eapply q_read; [rewrite Ek; exact Ht|]. apply q_asks.
  destruct (mn_sym x) as [s|] eqn:Hs.
  - destruct (proj2 (Wh c Hc x H) s Hs) as [y Hy]. rewrite (numbered_hit c x s r) by done.
    assert (Ec : sym_of k c = Some s) by (unfold sym_of; rewrite H; simpl; by rewrite Hs). cbn [default_at length]. rewrite Ec.
    do 2 (apply q_say). eapply (q_read _ _ y); [change (get_sym s (fe_k f) = Done (y, fe_k f)); rewrite Ek; by apply run_get_sym|].
    eapply q_bind; [destruct (sy_name y); [by apply (q_print _ _ _ (λ _ f', fe_k f' = k))|by apply q_go]|].
    intros [] f1 _ _ _ E1. eapply q_bind; [apply q_when; by apply q_print|]. intros [] f2 _ _ _ E2.
    apply q_say. eapply q_mono; [apply IH; [lia|change (fe_k f2 = k); congruence]|]. intros r' f3 _ _ _ ->. simpl. f_equal. lia.
  - rewrite (numbered_skip c x r) by auto. apply q_say. apply IH; [lia|done].
Qed.

(** The default has the number of a value that is the default, or none is. *)
Lemma default_at_ok def_sym vals : ∀ cnt def,
  (default_at def_sym vals cnt def = def ∧ ∀ c s, c ∈ vals → sym_of k c = Some s → is_default def_sym s = false) ∨
  ∃ i c s, default_at def_sym vals cnt def = cnt + S i ∧ vals !! i = Some c ∧ sym_of k c = Some s ∧ is_default def_sym s = true.
Proof.
  induction vals as [|c r IH]; intros cnt def; simpl; [left; split; [done|by intros ? ? ?%elem_of_nil]|].
  destruct (IH (S cnt) (if from_option (is_default def_sym) false (sym_of k c) then S cnt else def)) as [[E N]|(i & d & s & E & Hi & Hs & D)].
  - destruct (sym_of k c) as [s|] eqn:Hs; simpl in E |- *.
    + destruct (is_default def_sym s) eqn:Ed.
      * right. exists 0, c, s. split_and!; [rewrite E; lia|done..].
      * left. split; [done|]. intros d t [->|Hd]%elem_of_cons Ht; [congruence|by eapply N].
    + left. split; [done|]. intros d t [->|Hd]%elem_of_cons Ht; [congruence|by eapply N].
  - right. exists (S i), d, s. split_and!; [rewrite E; lia|done..].
Qed.

Lemma pick_run n : length l ≤ n → ∀ z f, fe_k f = k →
  pick_child n o z f = Done (Go (if decide (1 <= z)%Z then numbered l !! Z.to_nat (z - 1) else None), f).
Proof using Si Wh Se.
  revert n. induction Si as [|c x r H Sr IH]; intros n Hn z f Ek.
  { destruct n; simpl; by case_decide. }
  simpl in Hn. destruct n as [|n]; [lia|]. cbn [pick_child]. specialize (IH Sr (λ d Hd, Wh d ltac:(by right)) (λ d Hd, Se d ltac:(by right))).
  unfold andthen at 1. rewrite (mthen_done _ _ _ (Go x) f) by (rewrite <-Ek in H; by rewrite (of_store_run _ _ _ _ (read_menu _ _ _ H)), put_same).
  assert (Ec : (match mn_sym x with None => go false | Some _ => of_store (menu_is_visible c) end) f =
    Done (Go (match mn_sym x with None => false | Some _ => seen c end), f)).
  { destruct (mn_sym x); [|done]. rewrite (of_store_run _ _ (seen c) (fe_k f)), put_same; [done|]. rewrite Ek. apply Se. by left. }
  unfold andthen. rewrite (mthen_done _ _ _ _ _ Ec). destruct (mn_sym x) as [s|] eqn:Hs; [destruct (seen c) eqn:Es|]; simpl.
  2,3: rewrite (numbered_skip c x r) by auto; apply IH; [lia|done].
  rewrite (numbered_hit c x s r) by done. destruct (decide (z - 1 = 0)%Z) as [E|N].
  - rewrite decide_True by lia. by rewrite E.
  - fold (pick_child n (mn_next x) (z - 1)). rewrite IH by (done || lia). do 3 f_equal.
    destruct (decide (1 <= z)%Z) as [L|L]; [rewrite decide_True by lia|by rewrite decide_False by lia].
    replace (Z.to_nat (z - 1)) with (S (Z.to_nat (z - 1 - 1))) by lia. done.
Qed.
End Numbers.
