(* ===== verification/KParsePlain.v ===== *)
(** * Configurations without choices, parsed

    A description without [choice] gives a store on which [sym_calc_value]
    meets its specification and into which any file can be read. *)
From S2P Require Import Prelude CLib CStr KData KExpr KExprFacts KExprSyms.
From S2P Require Import KState KSymbol KSymFrame KSymRef KSymSolve KSymTab KSymDeps KSymSet KSymCheck KMenu KMenuInv KMenuTree.
From S2P Require Import KParse KParseInv KParseTree KParseStmt KParseRun KParseDone KCalc KConfSave KConfSafe.
Open Scope pr30_scope.

(** No entry is a choice. *)
Definition choiceless (hs : list head) : bool :=
  forallb (λ h, match hd_sym h with HChoice => false | _ => true end) hs.

(** Nothing in the store is a choice or the value of one. *)
Definition no_choices (k : kstate) : Prop := ∀ s y, ks_syms k !! s = Some y →
  is_choice y = false ∧ is_choice_value y = false ∧ is_Some (sy_name y).

Lemma parsed_no_choice k hs :
  binv k → choiceless hs = true → (∀ i h, hs !! i = Some h → says k (S i) h) →
  (∀ m x, ks_menus k !! m = Some x → is_Some (mn_sym x) → ∃ i, m = S i ∧ i < length hs) →
  ∀ s y, ks_syms k !! s = Some y → is_choice y = false ∧ is_Some (sy_name y).
Proof.
  intros B C Sa Bo s y H. destruct (bi_names k B s y H) as [N1 N2].
  assert (Cy : is_choice y = false).
  { destruct (is_choice y); [|done]. destruct N2 as [Ny (m & x & Hm & Hs)]; [done|].
    destruct (Bo m x Hm) as (i & -> & Li); [by eexists|]. destruct (lookup_lt_is_Some_2 hs i Li) as [h Hh].
    destruct (Sa i h Hh) as (x' & l & Hx' & _ & _ & _ & _ & _ & Es). assert (x' = x) as -> by congruence.
    pose proof (forallb_elem _ _ h C (list_elem_of_lookup_2 _ _ _ Hh)) as Ch. cbv beta in Ch.
    destruct (hd_sym h) as [n| |]; simpl in Es; [|done|congruence].
    destruct Es as (s' & z & E & En & _). assert (s' = s) as -> by congruence.
    destruct (entry_named k n false s (bi_consts k B) En) as (z' & Hz' & Nz'). assert (z' = y) as -> by congruence.
    rewrite Ny in Nz'. by destruct Nz'. }
  split; [done|]. destruct (sy_name y); [by eexists|]. destruct (N1 eq_refl); congruence.
Qed.

Lemma finalized_no_choices k kf :
  pers k kf → minv kf → (∀ s y, ks_syms k !! s = Some y → is_choice y = false ∧ is_Some (sy_name y)) → no_choices kf.
Proof.
  intros [T _ Ch _] I N.
  assert (G : ∀ s y, ks_syms kf !! s = Some y → is_choice y = false ∧ is_Some (sy_name y)).
  { intros s y H. destruct (same_table_old _ _ _ _ T H) as (z & Hz & [Ny _]%ident_inv).
    destruct (Ch s z Hz) as (y' & H' & C). assert (y' = y) as -> by congruence. rewrite C, Ny. by apply (N s). }
  intros s y H. destruct (G s y H) as [C Ny]. split_and!; [done| |done].
  destruct (is_choice_value y) eqn:V; [|done]. destruct (mi_value kf I s y H V) as (c & z & Hz & Cz).
  destruct (G c z Hz). congruence.
Qed.

(** ** Values can be calculated *)

Lemma over_reads S e t : over S e → t ∈ expr_syms e → S t.
Proof.
  induction e as [l IHl r IHr|l IHl r IHr|l IHl| | | | |]; simpl; intros H Ht; try (by apply elem_of_nil in Ht).
  1,2: apply elem_of_app in Ht as [Ht|Ht]; [apply IHl|apply IHr]; by destruct H.
  - by apply IHl.
  - apply elem_of_cons in Ht as [->|Ht%list_elem_of_singleton]; [|subst]; apply H.
  - apply elem_of_cons in Ht as [->|Ht%list_elem_of_singleton]; [|subst]; apply H.
  - by apply list_elem_of_singleton in Ht as ->.
  - apply elem_of_cons in Ht as [->|Ht%list_elem_of_singleton]; [|subst]; apply H.
Qed.
Lemma over_null_reads S e t : over_null S e → t ∈ oexpr_syms e → S t.
Proof. destruct e as [e|]; [apply over_reads|]. intros _ Ht. by apply elem_of_nil in Ht. Qed.

Lemma minv_reads k s t : minv k → reads k s t → sym_some k t.
Proof.
  intros I (y & H & Ht). destruct (mi_rev k I s y H) as [[_ O1] [_ O2]]. unfold sym_reads in Ht.
  apply elem_of_app in Ht as [Ht|Ht]; [exact (over_null_reads _ _ _ O1 Ht)|].
  apply elem_of_app in Ht as [Ht|Ht]; [exact (over_null_reads _ _ _ O2 Ht)|].
  apply list_elem_of_In, in_concat in Ht as (l & (p & <- & Hp%list_elem_of_In)%in_map_iff & Ht%list_elem_of_In).
  destruct (mi_props k I s y p H Hp) as [x Hx]. rewrite Hx in Ht. simpl in Ht.
  destruct (mi_prop k I p x Hx) as ([_ V] & O & _). unfold prop_reads in Ht.
  apply elem_of_app in Ht as [Ht|Ht]; [exact (over_null_reads _ _ _ V Ht)|].
  destruct (pr_type x); try (by apply elem_of_nil in Ht); exact (over_null_reads _ _ _ O Ht).
Qed.

Lemma static_unknown k (s : sid) y : minv k → ks_syms k !! s = Some y → s ≤ symbol_empty → sy_type y = S_UNKNOWN.
Proof.
  intros I H L. destruct (decide (s = symbol_empty)) as [->|Ne]; [by apply (mi_empty k I)|].
  assert (Hs : s = symbol_yes ∨ s = symbol_mod ∨ s = symbol_no).
  { unfold symbol_yes, symbol_mod, symbol_no, symbol_empty in *. lia. }
  destruct (mi_const k I s Hs) as (z & Hz & Cz). apply (mi_type k I s y H). congruence.
Qed.

Lemma minv_plain k : minv k → no_choices k → (∀ s, ¬ tc (reads k) s s) → plain k.
Proof.
  intros I N A. split; [intros s t; by apply minv_reads| | | | |done].
  - intros s y p H Hp. destruct (mi_props k I s y p H Hp) as [x Hx]. exists x. split; [done|].
    destruct (mi_prop k I p x Hx) as (_ & _ & M & T). split_and!; [done|..].
    + intros E. rewrite E in T. destruct T as (l & r & ? & _). eauto.
    + intros E. rewrite E in T. destruct T as (e & -> & W). intros l t [= ->]. done.
  - intros s y H _. by apply (N s y).
  - intros s y H T V. exfalso. pose proof (mi_born k I s y H) as B. unfold has_value in V.
    rewrite (born_flag s y) in V by done. case_decide as L; [|done].
    pose proof (static_unknown k s y I H L) as U. rewrite U in T. destruct T as [?|[?|?]]; done.
  - intros s y H. destruct (N s y H) as (? & ? & _). done.
Qed.

(** The check leaves what the calculation looks at. *)
Record same_but_marks (k k' : kstate) : Prop := {
  sm_props : ks_props k' = ks_props k;
  sm_menus : ks_menus k' = ks_menus k;
  sm_sym : ∀ s y, ks_syms k !! s = Some y → ∃ y', ks_syms k' !! s = Some y' ∧ sy_ccore y' = sy_ccore y;
  sm_back : ∀ s y', ks_syms k' !! s = Some y' → ∃ y, ks_syms k !! s = Some y ∧ sy_ccore y' = sy_ccore y;
}.

Lemma ccore_marks k k' : ks_ccore k' = ks_ccore k → same_but_marks k k'.
Proof.
  intros E. split; [by apply ccore_props|exact (f_equal ks_menus E)|intros s y; by apply ccore_sym|].
  intros s y' H'. destruct (ccore_sym k' k s y' (eq_sym E) H') as (y & H & C). by exists y.
Qed.

Lemma ccore_all y y' : sy_ccore y' = sy_ccore y →
  sy_name y' = sy_name y ∧ sy_type y' = sy_type y ∧ sy_user y' = sy_user y ∧ sy_curr y' = sy_curr y ∧
  sy_prop y' = sy_prop y ∧ sy_rev_dep y' = sy_rev_dep y ∧ sy_rev_dep_inv y' = sy_rev_dep_inv y ∧
  has_value y' = has_value y ∧ is_choice y' = is_choice y ∧ is_choice_value y' = is_choice_value y ∧ valid y' = valid y.
Proof.
  destruct y as [? ? ? ? ? f], y' as [? ? ? ? ? f']. unfold sy_ccore. simpl. intros E. simplify_eq.
  unfold has_value, is_choice, is_choice_value, valid. simpl. by rewrite !(has_flag_masked f' f check_bits) by done.
Qed.

Lemma marks_reads k k' s t : same_but_marks k k' → reads k' s t → reads k s t.
Proof.
  intros M (y' & H' & Ht). destruct (sm_back _ _ M s y' H') as (y & H & (_ & _ & _ & _ & Ep & Er & Ei & _)%ccore_all).
  exists y. split; [done|]. unfold sym_reads in *. by rewrite <-Ep, <-Er, <-Ei, <-(sm_props _ _ M).
Qed.
Lemma marks_tc k k' s t : same_but_marks k k' → tc (reads k') s t → tc (reads k) s t.
Proof.
  intros M. induction 1 as [s t H|s u t H _ IH]; [apply tc_once|eapply tc_l; [|done]]; by eapply marks_reads.
Qed.

Lemma marks_plain k k' : same_but_marks k k' → plain k → plain k'.
Proof.
  intros M [A B C D E F]. split.
  - intros s t R. destruct (A s t (marks_reads _ _ _ _ M R)) as [y Hy]. destruct (sm_sym _ _ M t y Hy) as (? & ? & _). eauto.
  - intros s y' p H' Hp. destruct (sm_back _ _ M s y' H') as (y & H & (_ & _ & _ & _ & Ep & _)%ccore_all).
    rewrite (sm_props _ _ M), (sm_menus _ _ M). apply (B s y); [done|]. by rewrite <-Ep.
  - intros s y' H'. destruct (sm_back _ _ M s y' H') as (y & H & (-> & -> & _)%ccore_all). by apply (C s).
  - intros s y' H'. destruct (sm_back _ _ M s y' H') as (y & H & (_ & -> & -> & _ & _ & _ & _ & -> & _)%ccore_all). by apply (D s).
  - intros s y' H'. destruct (sm_back _ _ M s y' H') as (y & H & (_ & _ & _ & _ & _ & _ & _ & _ & -> & -> & _)%ccore_all).
    by apply (E s).
  - intros s T. by apply (F s), (marks_tc k k').
Qed.

(** The only valid symbols are the constants, with their values. *)
Lemma marks_ready k k' : minv k → no_choices k → same_but_marks k k' → (∀ s, ¬ tc (reads k') s s) → ready k'.
Proof.
  intros I N M A. assert (M' : same_but_marks k' k).
  { split; [symmetry; apply M..|intros s y H; destruct (sm_back _ _ M s y H) as (z & ? & ?)|
      intros s y H; destruct (sm_sym _ _ M s y H) as (z & ? & ?)]; exists z; by split. }
  assert (Hv : ∀ (s : sid) y, ks_syms k' !! s = Some y → valid y = bool_decide (s ≤ symbol_empty)).
  { intros s y' H'. destruct (sm_back _ _ M s y' H') as (y & H & C%ccore_all).
    destruct C as (_ & _ & _ & _ & _ & _ & _ & _ & _ & _ & ->). unfold valid.
    rewrite (born_flag s y _ (mi_born k I s y H)) by done. case_decide; [by rewrite bool_decide_eq_true_2|by rewrite bool_decide_eq_false_2]. }
  split.
  - apply (marks_plain k); [done|]. apply minv_plain; [done..|]. intros s T. by apply (A s), (marks_tc k' k).
  - assert (G : ∀ s, s = symbol_yes ∨ s = symbol_mod → valid_in k' s).
    { intros s Hs. destruct (mi_const k I s) as (y & H & _); [tauto|]. destruct (sm_sym _ _ M s y H) as (y' & H' & _).
      exists y'. split; [done|]. rewrite (Hv s y' H'). apply bool_decide_eq_true_2.
      unfold symbol_yes, symbol_mod, symbol_empty in *. lia. }
    split; apply G; auto.
  - intros s (y' & H' & V). rewrite (Hv s y' H') in V. apply bool_decide_eq_true in V as L.
    exists y'. split_and!; [done|by rewrite (Hv s y' H')|]. destruct (sm_back _ _ M s y' H') as (y & H & C%ccore_all).
    destruct C as (En & Et & _ & Ev & _). unfold equations. rewrite Et, (static_unknown k s y I H L), En, Ev.
    by apply (mi_born k I s y H).
Qed.

(** ** Files can be read *)

Lemma marks_readable k k' : minv k → no_choices k → hash_ok k' → same_but_marks k k' → readable k'.
Proof.
  intros I N Ok M. split; [done|..].
  - intros s Hs. destruct (mi_const k I s) as (y & H & _); [|destruct (sm_sym _ _ M s y H) as (y' & ? & _); by exists y'].
    rewrite !elem_of_cons, elem_of_nil in Hs. tauto.
  - intros s y' H' V. destruct (sm_back _ _ M s y' H') as (y & H & (_ & _ & _ & _ & _ & _ & _ & _ & _ & E & _)%ccore_all).
    destruct (N s y H) as (_ & ? & _). congruence.
  - intros s y' H' V T. exfalso. destruct (sm_back _ _ M s y' H') as (y & H & (_ & Et & _ & _ & _ & _ & _ & Eh & _)%ccore_all).
    rewrite Eh in V. unfold has_value in V. rewrite (born_flag s y _ (mi_born k I s y H)) in V by done.
    case_decide as L; [|done]. rewrite Et, (static_unknown k s y I H L) in T. destruct T as [?|[?|?]]; done.
Qed.
