(* ===== verification/KParseSpec.v ===== *)
(** * Parsing a configuration description: the theorems *)
From S2P Require Import Prelude CLib CStr KData KExpr KExprFacts KState KSymbol KSymFrame KSymRef KSymSolve KSymTab KSymDeps.
From S2P Require Import KSymSet KSymCheck KMenu KMenuInv KMenuTree KMenuSpec KConf KConfReset KCalc KConfSave KConfSafe.
From S2P Require Import KToken KParse KParseInv KParseTree KParseStmt KParseRun KParseDone KParsePlain.
Open Scope pr30_scope.

(** ** Examples *)

Definition same_end (t : token) : pend := PEnd t true.
Definition psym (n : string) : pexpr := PSymbol (Word false n).
Definition pconst (n : string) : word := Word true n.

(** [FOO]; a menu with [BAR], which selects [QUX], and inside [if FOO] the
    number [BAZ]; [QUX]; a comment. *)
Definition plain_input : list top := [
  TMainmenu "Example";
  TStmt (SConfig false "FOO" [CType S_TRISTATE (Some ("Foo"%string, None)); CDefault S_UNKNOWN (psym "y") None; CHelp "text"]);
  TStmt (SMenu "Net" [Some (psym "FOO"); None] [
    SConfig true "BAR" [CType S_BOOLEAN (Some ("Bar"%string, Some (PNot (psym "QUUX")))); CSelect "QUX" None];
    SIf (PAnd (psym "FOO") (PUnequal (Word false "ARCH") (pconst "mips"))) [
      SConfig false "BAZ" [CType S_INT None; CPrompt "Baz" None; CRange (pconst "1") (pconst "5") None;
        CDefault S_UNKNOWN (PSymbol (pconst "7")) (Some (psym "BAR")); CDepends (PParen (POr (psym "BAR") (psym "m")))]
    ] (same_end T_ENDIF);
    SEol
  ] (same_end T_ENDMENU));
  TStmt (SSource "other.in");
  TStmt (SConfig false "QUX" [CDefault S_BOOLEAN (psym "n") None; CEol]);
  TStmt (SComment "the end" [Some (PEqual (Word false "FOO") (Word false "m"))])
].

(** The same with a choice, in which a menu is opened. *)
Definition example_input : list top := plain_input ++ [
  TStmt (SChoice [ChPrompt "Which" None; ChDefault S_UNKNOWN "TWO" (Some (psym "FOO")); ChOptional] [
    SConfig false "ONE" [CType S_BOOLEAN (Some ("One"%string, None))];
    SConfig false "TWO" [CType S_BOOLEAN (Some ("Two"%string, None))]
  ] (same_end T_ENDCHOICE))
].
(** A menu that is closed by [endif], and an [endmenu] on its own. *)
Definition wrong_input : list top := [
  TStmt (SMenu "Net" [] [SConfig false "FOO" [CType S_BOOLEAN None]] (same_end T_ENDIF));
  TEnd T_ENDMENU
].

(** ** What the statements build *)

(** C8: the actions of the parser build the tree that the text describes.  On
    every description whose [config] names are not [y], [m] or [n], they run
    to the end without a crash, and count one error for every stray or
    mismatched end of a block (two where [zconf_endtoken] counts it again).
    Without errors the menu entries are those of the text in its order,
    nested like its blocks, and each says what its statement says: its parent,
    its symbol, its dependencies in order, and for every option the property
    with its type, text, expression and condition, where a name stands for
    the one symbol with this name. *)
Theorem zconfparse_builds arch version release input :
  forallb names_top input = true →
  ∃ p0 p1, lift (parse_init arch version release) parser_start = Done ((), p0) ∧ zconfparse input p0 = Done ((), p1) ∧
    minv (ps_k p1) ∧ hash_ok (ps_k p1) ∧ ps_nerrs p1 = list_sum (map errs_top input) ∧
    (list_sum (map errs_top input) = 0 →
       (∃ x, ks_menus (ps_k p1) !! rootmenu = Some x ∧ mn_next x = None ∧
          chain (ps_k p1) rootmenu (mn_list x) (seq 1 (length (heads_top 1 input)))) ∧
       ∀ i h, heads_top 1 input !! i = Some h → says (ps_k p1) (S i) h).
Proof.
  intros Nm. destruct (parse_runs arch version release input Nm) as (p0 & p1 & E0 & E1 & B & N & G).
  exists p0, p1. split_and!; [done|done|apply B|apply B|done|]. intros Hz. destruct (G Hz) as (L & S & _). done.
Qed.

Lemma zconfparse_builds_witness :
  ∃ p0 p1, lift (parse_init None None "2.6") parser_start = Done ((), p0) ∧ zconfparse example_input p0 = Done ((), p1) ∧
    minv (ps_k p1) ∧ hash_ok (ps_k p1) ∧ ps_nerrs p1 = list_sum (map errs_top example_input) ∧
    (list_sum (map errs_top example_input) = 0 →
       (∃ x, ks_menus (ps_k p1) !! rootmenu = Some x ∧ mn_next x = None ∧
          chain (ps_k p1) rootmenu (mn_list x) (seq 1 (length (heads_top 1 example_input)))) ∧
       ∀ i h, heads_top 1 example_input !! i = Some h → says (ps_k p1) (S i) h).
Proof. apply (zconfparse_builds None None "2.6" example_input). by vm_compute. Defined.

(** ** [conf_parse] *)



(** ** What the result is good for *)



