(* ===== verification/KLexSpec.v ===== *)
(** * Scanning and parsing a configuration description: the theorems *)
From S2P Require Import Prelude CLib CStr KData KExpr KState KSymbol KSymTab KSymDeps KMenu KMenuInv KMenuTree KMenuSpec.
From S2P Require Import KToken KLex KGram KLexFacts KLexSafe KLexRun KLexPrint KLexSource.
From S2P Require Import KParse KParseInv KParseTree KParseStmt KParseRun KParseDone KGramFacts KParsePlain KParseSpec.
From Stdlib Require Import Ascii.
Open Scope pr30_scope.

(** ** The top-level file *)

Section Top.
Context (junk : nat → ascii) (fopen : string → option string) (glob : string → globbed).

(** The scanner after [zconf_initscan]. *)
Definition after_initscan (name text : string) : scanner :=
  sc_set_files [File name None 1 true false] (sc_set_file (Some name) (sc_set_files [File name None 0 false false] (sc_set_bufs (Some []) (sc_set_in text scanner_start)))).
Lemma initscan_run name text : fopen name = Some text → zconf_initscan fopen name scanner_start = Done (true, after_initscan name text).
Proof.
  intros F. unfold zconf_initscan. rewrite F. unfold after_initscan, advance, file_lookup, upd_file, get_file, mthen, mgets, mderef, mmodify, mreturn, find_file. simpl.
  rewrite bool_decide_true by done. simpl. by rewrite bool_decide_true by done.
Qed.
Lemma scan_tokens_run name text n : fopen name = Some text → scan_tokens junk fopen glob n name scanner_start = tokens junk fopen glob n [] (after_initscan name text).
Proof. intros F. unfold scan_tokens. by rewrite (mthen_done _ _ _ _ _ (initscan_run name text F)). Qed.
Lemma initscan_find name text : find_file name (sc_file_list (after_initscan name text)) = Some (File name None 1 true false).
Proof. unfold find_file. simpl. by rewrite bool_decide_true. Qed.
Lemma initscan_ok name text : scan_ok (after_initscan name text) [name].
Proof.
  split; [|apply NoDup_singleton|done|done|done]. split; [done|]. eexists. split_and!; [apply initscan_find|done|done].
Qed.
Lemma initscan_stands name text un : name ∉ un → stands name [] un INITIAL text (after_initscan name text).
Proof.
  intros N. split; [done..| |]; [eexists; split; [apply initscan_find|done]|]. apply Forall_forall. intros g Hg. unfold fresh, find_file. simpl.
  rewrite bool_decide_false; [done|]. by intros ->.
Qed.

(** The end of the top-level file. *)
Lemma terminate_run s : sc_file s = None → sc_in s = EmptyString → sc_start s = INITIAL → zconflex junk s = Done (None, s).
Proof.
  intros F I C. apply (zconflex_result junk 1); [|done]. simpl. unfold mthen. rewrite step_eof by (by rewrite C, I).
  unfold rule_eof, mthen, mgets. by rewrite F.
Qed.
Lemma tokens_eof name un n s : stands name [] un INITIAL EmptyString s → name ∉ un →
  ∃ s', tokens junk fopen glob (S (S n)) [] s = Done (Some [(LTok T_EOL, None)], s').
Proof.
  intros S N. destruct (scan_eof junk name [] un s S N) as (s1 & E & F & _ & I & C). exists s1. cbn [tokens]. rewrite (mthen_done _ _ _ _ _ E).
  unfold mthen at 1, mgets. rewrite F. rewrite decide_True by done. unfold mthen at 1. simpl at_eol. unfold mreturn at 1. cbn [ends_line token_of].
  rewrite (mthen_done _ _ _ _ _ (mthen_done _ _ _ _ _ (terminate_run s1 F I C))). done.
Qed.
Lemma reads_first_done {A} (pre ts : list A) m m' s s' s'' : reads_first pre m m' s s' → m' s' = Done (Some ts, s'') → m s = Done (Some (pre ++ ts), s'').
Proof. intros -> E. unfold mthen. by rewrite E. Qed.
(** A file that sources nothing, and one that sources some. *)
Lemma scan_printed_run ls name n : body_ok ls = true → fopen name = Some (out true ls) →
  ∃ s, scan_tokens junk fopen glob (length ls + S (S n)) name scanner_start = Done (Some (annotate name ls ++ [(LTok T_EOL, None)]), s).
Proof.
  intros H F. apply andb_true_iff in H as [H Ns]. rewrite (scan_tokens_run name _ _ F).
  destruct (tokens_file junk fopen glob name [] [] ls (S (S n)) _ H Ns (initscan_stands name _ [] (not_elem_of_nil _))) as (s1 & S1 & E1).
  destruct (tokens_eof name [] n s1 S1 (not_elem_of_nil _)) as (s' & E). exists s'. by apply (reads_first_done _ _ _ _ _ _ _ E1).
Qed.
Lemma scan_source_run pre u ps post name n :
  lex_ok Bol (pre ++ source_line u ++ post) = true → forallb (λ l, negb (is_source l)) pre = true → forallb (λ l, negb (is_source l)) post = true →
  forallb (λ '(_, ls), body_ok ls) ps = true → NoDup (name :: ps.*1) →
  fopen name = Some (out true (pre ++ source_line u ++ post)) → glob u = GLOB_OK ps.*1 → (∀ p ls, (p, ls) ∈ ps → fopen p = Some (out true ls)) →
  ∃ s, scan_tokens junk fopen glob (length pre + (3 + (included_length ps + (length post + S (S n))))) name scanner_start =
    Done (Some (annotate name (pre ++ source_line u) ++ included ps name ++ annotate name post ++ [(LTok T_EOL, None)]), s).
Proof.
  intros H N1 N2 Ok [Nn N]%NoDup_cons F G T. rewrite (scan_tokens_run name _ _ F).
  destruct (tokens_run junk name [] ps.*1 fopen glob pre (source_line u ++ post) Bol [] (3 + (included_length ps + (length post + S (S n)))) _ H N1 eq_refl
    (initscan_stands name _ _ Nn)) as (s1 & line & H1 & S1 & Li & E1).
  assert (M : foldl next_mode Bol pre = Bol) by (by destruct (foldl next_mode Bol pre)). rewrite M in *. simpl in Li. subst line.
  destruct (tokens_source junk fopen glob u ps post name [] [] (included_length ps + (length post + S (S n))) s1 H1 G T) as (s2 & S2 & E2).
  { rewrite Permutation_app_comm. by apply NoDup_cons. }
  { intros p _. apply not_elem_of_nil. }
  { by rewrite app_nil_r. }
  destruct (tokens_included junk fopen glob ps name (out true post) [] [] (length post + S (S n)) s2 Ok (λ _ _, not_elem_of_nil _) S2) as (s3 & S3 & E3).
  destruct (tokens_file junk fopen glob name [] [] post (S (S n)) s3 (lex_ok_next _ _ _ (lex_ok_next _ _ _ (lex_ok_next _ _ _ H1))) N2 S3) as (s4 & S4 & E4).
  destruct (tokens_eof name [] n s4 S4 (not_elem_of_nil _)) as (s5 & E5). exists s5. unfold annotate at 1. rewrite map_app, <- app_assoc.
  eapply (reads_first_done _ _ _ _ _ _ _ E1), (reads_first_done _ _ _ _ _ _ _ E2), (reads_first_done _ _ _ _ _ _ _ E3), (reads_first_done _ _ _ _ _ _ _ E4), E5.
Qed.

(** A last line without a newline is read when the file is already closed. *)
Lemma push_files_null p ps s : sc_bufs s = None → push_files fopen (p :: ps) s = Crash.
Proof.
  intros B. revert p. induction ps as [|q ps IH]; intros p.
  - unfold push_files, push_file, mthen at 1, mreturn. destruct (file_lookup_run p s) as (l & E & _).
    rewrite (mthen_done _ _ _ _ _ E). unfold mthen, mgets. simpl. by rewrite B.
  - change (push_files fopen (p :: q :: ps)) with (let! ok := push_files fopen (q :: ps) in if ok then push_file fopen p else mreturn false).
    unfold mthen. by rewrite IH.
Qed.
Lemma open_line_run name u : fopen name = Some ("source " +:+ print_quoted_string u) → without [bs; nl; NUL] u = true →
  ∃ s1 s2 s3, zconflex junk (after_initscan name ("source " +:+ print_quoted_string u)) = Done (Some (LId source_id), s1) ∧
    zconflex junk s1 = Done (Some (LStr T_WORD_QUOTE u), s2) ∧ zconflex junk s2 = Done (Some (LTok T_EOL), s3) ∧ sc_bufs s3 = None.
Proof.
  intros F U. pose proof (initscan_stands name ("source " +:+ print_quoted_string u) [] (not_elem_of_nil _)) as S.
  destruct (scan_command junk name [] [] source_id (String " " (print_quoted_string u)) _ eq_refl eq_refl eq_refl S) as (s1 & Sc1 & S1).
  pose proof (stands_in _ _ _ _ _ _ (print_quoted_string u +:+ "") S1) as S1'.
  destruct (scan_quoted junk name [] [] u EmptyString _ U S1') as (s2 & Sc2 & S2). rewrite string_app_nil in Sc2.
  destruct (scan_eof junk name [] [] _ (stands_start _ _ _ _ _ _ INITIAL S2) (not_elem_of_nil _)) as (s3 & E & _ & B & _).
  exists s1, s2, s3. split_and!; [by apply scans_zconflex| | |done].
  - apply scans_zconflex. by apply (scan_space _ _ _ _ _ _ _ _ S1).
  - apply scans_zconflex, (scans_again _ _ _ NUL (sc_set_start INITIAL s2)); [|by eexists]. rewrite (stands_step _ _ _ _ _ _ _ _ S2).
    unfold step_param. by rewrite (stands_gets _ _ _ _ _ _ _ S2).
Qed.
End Top.

(** ** Every scan ends *)

(** C15: scanning a description ends and is memory safe, whatever it says and
    whatever it sources.  For any file system with finitely many files - also
    if they source each other in circles - the scanner, called until the end
    of the input, never runs out of steps; and if the last line of the
    top-level file ends with a newline that is not escaped, it never
    dereferences a null pointer (the current file, the current buffer) and
    never writes outside the array of a string. *)
Theorem scan_tokens_safe junk fopen glob names name text n :
  (∀ f t, fopen f = Some t → f ∈ names) → fopen name = Some text →
  8 * String.length text + 5 + sum_list_with (file_size fopen) names < n →
  scan_tokens junk fopen glob n name scanner_start ≠ NoFuel ∧
  (whole nl text = true → ∃ o s, scan_tokens junk fopen glob n name scanner_start = Done (o, s)).
Proof.
  intros Fi F Hn. rewrite (scan_tokens_run _ _ _ _ _ n F).
  assert (R : to_read fopen names (after_initscan name text) < n).
  { pose proof (to_open_total fopen names (sc_file_list (after_initscan name text))). unfold to_read.
    change (ahead (after_initscan name text)) with (8 * String.length text + 1 + 4). lia. }
  split; [by apply (tokens_end junk fopen glob names Fi)|]. intros W.
  destruct (tokens_safe junk fopen glob names Fi n [] (after_initscan name text) [name] (initscan_ok name text) W) as (o & s & E & _); [done..|].
  by exists o, s.
Qed.

(** Two files that source each other. *)
Definition circle (f : string) : option string :=
  if bool_decide (f = "a"%string) then Some (out true [LId source_id; LStr T_WORD_QUOTE "b"; LTok T_EOL])
  else if bool_decide (f = "b"%string) then Some (out true [LId source_id; LStr T_WORD_QUOTE "a"; LTok T_EOL]) else None.
Lemma scan_tokens_safe_witness :
  scan_tokens (λ _, NUL) circle (λ f, GLOB_OK [f]) 1000 "a" scanner_start ≠ NoFuel ∧
  (whole nl (String.append "source " (String dq (String "b" (String dq (String nl ""))))) = true →
   ∃ o s, scan_tokens (λ _, NUL) circle (λ f, GLOB_OK [f]) 1000 "a" scanner_start = Done (o, s)).
Proof.
  apply (scan_tokens_safe (λ _, NUL) circle (λ f, GLOB_OK [f]) ["a"%string; "b"%string] "a"); [|done|apply Nat.ltb_lt; by vm_compute].
  intros f t. unfold circle. case_bool_decide as E; [rewrite E; intros _; by left|]. case_bool_decide as E'; [rewrite E'; intros _; by right; left|done].
Defined.

(** C39: the condition on the last line is needed.  If the top-level file ends
    with [source] and a name, but no newline, the end of the file closes it
    before [zconf_nextfile] runs, and that writes through [current_buf], which
    is null. *)
Theorem source_at_end_crashes junk fopen glob name u p ps n :
  without [bs; nl; NUL] u = true → fopen name = Some ("source " +:+ print_quoted_string u) → glob u = GLOB_OK (p :: ps) → 3 ≤ n →
  scan_tokens junk fopen glob n name scanner_start = Crash.
Proof.
  intros U F G Hn. rewrite (scan_tokens_run _ _ _ _ _ n F). destruct (open_line_run junk fopen name u F U) as (s1 & s2 & s3 & E1 & E2 & E3 & B3).
  do 3 (destruct n as [|n]; [lia|]). cbn [tokens].
  rewrite (mthen_done _ _ _ _ _ E1). unfold mthen, mgets, mreturn. cbn [token_of kid_token source_id command_id ends_line]. rewrite decide_False by done.
  rewrite E2. cbn [token_of ends_line]. rewrite decide_False by done. rewrite E3. cbn [token_of ends_line]. rewrite decide_True by done.
  cbn [app at_eol kid_token source_id command_id]. rewrite decide_True by done. unfold zconf_nextfile. rewrite G. by rewrite push_files_null.
Qed.
Lemma source_at_end_crashes_witness :
  scan_tokens (λ _, NUL) (λ f, if bool_decide (f = "top"%string) then Some (String.append "source " (print_quoted_string "inc")) else None)
    (λ f, GLOB_OK [f]) 3 "top" scanner_start = Crash.
Proof.
  apply (source_at_end_crashes (λ _, NUL) (λ f, if bool_decide (f = "top"%string) then Some (String.append "source " (print_quoted_string "inc")) else None)
    (λ f, GLOB_OK [f]) "top" "inc" "inc" []); [by vm_compute|done|done|lia].
Defined.

(** ** What is printed is what is scanned *)

(** C14: the scanner reads back what is printed.  A sequence of tokens that
    lines can be made of - commands with their parameters, where words,
    keywords and operators stand apart by a space, strings are quoted by
    [print_quoted_string], and a help text is indented by a tab - has a text;
    scanning a file with this text gives exactly these tokens, with the words,
    strings and help texts unchanged, and the line end that the end of the
    file stands for. *)
Theorem scan_printed junk fopen glob ls name n :
  body_ok ls = true → fopen name = Some (out true ls) → length ls + 2 ≤ n →
  ∃ s, scan_tokens junk fopen glob n name scanner_start = Done (Some (annotate name ls ++ [(LTok T_EOL, None)]), s).
Proof.
  intros H F Hn. replace n with (length ls + S (S (n - length ls - 2))) by lia. by apply scan_printed_run.
Qed.
(** A string with both quotes, and a help text with an empty and an indented line. *)
Definition printed_help : string := "one" +:+ String nl (String nl ("   two" +:+ String nl "three")).
Definition printed_lexemes : list lexeme := [
  key "config"; LStr T_WORD "FOO"; eol; key "bool"; LStr T_WORD_QUOTE ("it's " +:+ String dq ("x" +:+ String dq "")); key "if"; LTok T_NOT; LStr T_WORD "BAR"; eol; eol;
  key "help"; eol; LStr T_HELPTEXT printed_help;
  key "default"; LStr T_WORD "y"; eol
].
Lemma scan_printed_witness :
  out true printed_lexemes =
    ("config FOO" +:+ String nl ("bool " +:+ String dq ("it's \" +:+ String dq ("x\" +:+ String dq (String dq (" if ! BAR" +:+ String nl (String nl
     ("help" +:+ String nl (String "009" ("one" +:+ String nl (String nl (String "009" ("   two" +:+ String nl (String "009" ("three" +:+ String nl
     ("default y" +:+ String nl ""))))))))))))))))%string ∧
  ∃ s, scan_tokens (λ _, "a"%char) (λ _, Some (out true printed_lexemes)) (λ f, GLOB_NOMATCH) 20 "Config.in" scanner_start =
    Done (Some (annotate "Config.in" printed_lexemes ++ [(LTok T_EOL, None)]), s).
Proof.
  split; [by vm_compute|]. apply (scan_printed (λ _, "a"%char) (λ _, Some (out true printed_lexemes)) (λ f, GLOB_NOMATCH)); [by vm_compute|done|].
  apply Nat.leb_le. by vm_compute.
Defined.

(** C16: a sourced file stands where the line is that sources it.  If a line
    [source] matches some files, what the parser gets is the tokens before it
    and the line itself, then the tokens of each of these files in the order
    of [glob], each with a line end for the end of the file, and then the
    tokens behind the line; and each token is read while the file it is in is
    the current one. *)
Theorem scan_source junk fopen glob pre u ps post name n :
  lex_ok Bol (pre ++ source_line u ++ post) = true → forallb (λ l, negb (is_source l)) pre = true → forallb (λ l, negb (is_source l)) post = true →
  forallb (λ '(_, ls), body_ok ls) ps = true → NoDup (name :: ps.*1) →
  fopen name = Some (out true (pre ++ source_line u ++ post)) → glob u = GLOB_OK ps.*1 → (∀ p ls, (p, ls) ∈ ps → fopen p = Some (out true ls)) →
  length (pre ++ source_line u ++ post) + included_length ps + 2 ≤ n →
  ∃ s, scan_tokens junk fopen glob n name scanner_start =
    Done (Some (annotate name (pre ++ source_line u) ++ included ps name ++ annotate name post ++ [(LTok T_EOL, None)]), s).
Proof.
  intros H N1 N2 Ok N F G T Hn. rewrite !length_app in Hn. simpl in Hn.
  replace n with (length pre + (3 + (included_length ps + (length post + S (S (n - (length pre + 3 + included_length ps + length post + 2))))))) by lia.
  by apply scan_source_run.
Qed.
Definition sourced : list (string * list lexeme) := [
  ("net/Config.in"%string, [key "config"; LStr T_WORD "NET"; eol; key "bool"; eol]);
  ("sys/Config.in"%string, [key "config"; LStr T_WORD "SYS"; eol; key "help"; eol; LStr T_HELPTEXT "text"])
].
Definition source_fs (f : string) : option string :=
  if bool_decide (f = "Config.in"%string) then Some (out true ([key "menu"; LStr T_WORD_QUOTE "All"; eol] ++ source_line "*/Config.in" ++ [key "endmenu"; eol]))
  else match find (λ '(p, _), bool_decide (p = f)) sourced with Some (_, ls) => Some (out true ls) | None => None end.
Lemma scan_source_witness :
  ∃ s, scan_tokens (λ _, NUL) source_fs (λ _, GLOB_OK ["net/Config.in"; "sys/Config.in"]%string) 30 "Config.in" scanner_start =
    Done (Some (annotate "Config.in" ([key "menu"; LStr T_WORD_QUOTE "All"; eol] ++ source_line "*/Config.in") ++
      (annotate "net/Config.in" [key "config"; LStr T_WORD "NET"; eol; key "bool"; eol] ++ (eol, Some "sys/Config.in"%string) ::
       annotate "sys/Config.in" [key "config"; LStr T_WORD "SYS"; eol; key "help"; eol; LStr T_HELPTEXT "text"] ++ [(eol, Some "Config.in"%string)]) ++
      annotate "Config.in" [key "endmenu"; eol] ++ [(eol, None)]), s).
Proof.
  apply (scan_source (λ _, NUL) source_fs (λ _, GLOB_OK ["net/Config.in"; "sys/Config.in"]%string) [key "menu"; LStr T_WORD_QUOTE "All"; eol] "*/Config.in" sourced
    [key "endmenu"; eol] "Config.in"); try (by vm_compute).
  - apply (bool_decide_unpack _). by vm_compute.
  - intros p ls. unfold sourced. rewrite !elem_of_cons. intros [[= -> ->]|[[= -> ->]|[]%not_elem_of_nil]]; by vm_compute.
  - apply Nat.leb_le. by vm_compute.
Defined.

(** ** From the text to the menu *)

(** C5: scanner, grammar and actions fit together.  A description, written
    out as text in one file, is scanned to tokens that [zconf.y] parses, and
    running the actions on what it parses is running them on the description:
    [conf_parse] exits with status 1 if a block of it ends wrongly; otherwise
    the entries it leaves are those of the description in its order, nested
    like its blocks, and each shows what its statement says. *)
Theorem conf_parse_text junk fopen glob name arch version release input n :
  body_ok (y_input input) = true → forallb norm_top input = true → forallb names_top input = true →
  fopen name = Some (out true (y_input input)) → length (y_input input) + 2 ≤ n →
  ∃ ts s parsed p, scan_tokens junk fopen glob n name scanner_start = Done (Some ts, s) ∧ parse_tokens ts = Some parsed ∧
    (list_sum (map errs_top input) ≠ 0 → conf_parse arch version release parsed parser_start = Done (Exited 1, p)) ∧
    (list_sum (map errs_top input) = 0 →
       conf_parse arch version release parsed parser_start = Done (Parsed, p) ∧ laid (ps_k p) (length (heads_top 1 input)) ∧
       ∀ i h, heads_top 1 input !! i = Some h → shows (ps_k p) (S i) h).
Proof.
  intros H Nm Na F Hn. replace n with (length (y_input input) + S (S (n - length (y_input input) - 2))) by lia.
  destruct (scan_printed_run junk fopen glob (y_input input) name (n - length (y_input input) - 2) H F) as (s & E).
  destruct (conf_parse_runs arch version release input Na) as (p0 & p1 & _ & _ & _ & Er & Ok).
  eexists _, s, (strip input). rewrite conf_parse_strip.
  destruct (decide (list_sum (map errs_top input) = 0)) as [Z|Z].
  - destruct (Ok Z) as (kf & k & Ec & Fi & La & Sa & _). exists (ps_set_k k p1). split_and!; [exact E|by apply parse_tokens_ok|done|]. intros _.
    split_and!; [done..|]. intros i h Hi. eapply finished_shows; [done|by apply Sa].
  - exists p1. split_and!; [exact E|by apply parse_tokens_ok|by apply Er|done].
Qed.

(** The description of [KParseSpec] in one file. *)
Definition text_input : list top :=
  List.filter (λ t, match t with TStmt (SSource _) => false | _ => true end) example_input.
Lemma conf_parse_text_witness :
  ∃ ts s parsed p, scan_tokens (λ _, NUL) (λ _, Some (out true (y_input text_input))) (λ f, GLOB_NOMATCH) 200 "Config.in" scanner_start = Done (Some ts, s) ∧
    parse_tokens ts = Some parsed ∧
    (list_sum (map errs_top text_input) ≠ 0 → conf_parse None (Some "1.0"%string) "2.6" parsed parser_start = Done (Exited 1, p)) ∧
    (list_sum (map errs_top text_input) = 0 →
       conf_parse None (Some "1.0"%string) "2.6" parsed parser_start = Done (Parsed, p) ∧ laid (ps_k p) (length (heads_top 1 text_input)) ∧
       ∀ i h, heads_top 1 text_input !! i = Some h → shows (ps_k p) (S i) h).
Proof.
  apply (conf_parse_text (λ _, NUL) (λ _, Some (out true (y_input text_input))) (λ f, GLOB_NOMATCH) "Config.in" None (Some "1.0"%string) "2.6" text_input 200);
    [by vm_compute|by vm_compute|by vm_compute|done|]. apply Nat.leb_le. by vm_compute.
Defined.

(** ** Last lines without a newline *)

(** Two files, of which the first sources the second, and the tokens. *)
Definition two_files (top inc : string) (f : string) : option string :=
  if bool_decide (f = "top"%string) then Some top else if bool_decide (f = "inc"%string) then Some inc else None.
Definition scan_two (top inc : string) : option (list (lexeme * option string)) :=
  match scan_tokens (λ _, NUL) (two_files top inc) (λ f, GLOB_OK [f]) 100 "top" scanner_start with Done (o, _) => o | _ => None end.

(** If the sourced file ends in blanks without a newline, the scanner stays in
    [COMMAND], and the comment that follows the line [source] is read as a
    command. *)
Lemma blank_last_line :
  option_map (map fst) (scan_two (ln "source inc" +:+ ln "# config is a comment") "  ") =
    Some [LId source_id; LStr T_WORD "inc"; eol; eol; key "config"; LStr T_WORD "is"; LStr T_WORD "a"; LStr T_WORD "comment"; eol; eol].
Proof. by vm_compute. Qed.
(** With the newline it is not. *)
Lemma ended_last_line :
  option_map (map fst) (scan_two (ln "source inc" +:+ ln "# config is a comment") (ln "  ")) = Some [LId source_id; LStr T_WORD "inc"; eol; eol; eol; eol; eol].
Proof. by vm_compute. Qed.
(** If the last line of the sourced file ends a block and has no newline, the
    end of the block is taken to be in the other file: an error. *)
Lemma open_end_line :
  (let? ts := scan_two (ln "source inc") (ln "menu M" +:+ "endmenu") in parse_tokens ts) =
    Some [TStmt (SSource "inc"); TStmt (SMenu "M" [] [] (PEnd T_ENDMENU false))].
Proof. by vm_compute. Qed.
(** If it is [help], what follows in the other file is its text. *)
Lemma open_help_line :
  option_map (map fst) (scan_two (ln "source inc" +:+ ln "config B") (ln "config A" +:+ "help")) =
    Some [LId source_id; LStr T_WORD "inc"; eol; key "config"; LStr T_WORD "A"; eol; key "help"; eol; LStr T_HELPTEXT (ln "config B"); eol].
Proof. by vm_compute. Qed.
