(* ===== verification/KAskSpec.v ===== *)
(** * The dialogue on a terminal: the theorems

    First the configuration of [KConfCheck] at the start of the dialogue, and
    tests that decide what the theorems ask for. *)
From S2P Require Import Prelude CLib CStr KData KExpr KState KSymbol KSymFrame KSymRef KSymSolve KSymTab KSymUnique KSymSet KSymCheck.
From S2P Require Import KMenu KMenuTree KConf KConfText KConfLine KConfLoad KCalc KConfSave KConfFile KConfReset KConfValues KConfRound KConfCheck KConfSafe.
From S2P Require Import KToken KLex KGram KParse KParseSpec KAsk KAskKeep KAskRun KAskTop KAskReply.
From Stdlib Require Import Ascii.
Open Scope pr30_scope.

(** ** Tests *)

Definition ask_line : list ascii := repeat NUL 128.
(** A program that has read the configuration [k]. *)
Definition front_start (k : kstate) (mode : input_mode) (stdin : string) : front :=
  Front (conf_start k) ∅ mode 1 true 0 ask_line None stdin 0.





Definition question_check (k : kstate) (m : mid) (s : sid) : bool :=
  from_option (λ x, bool_decide (mn_sym x = Some s) &&
    from_option (λ p, bool_decide (is_Some (ks_props k !! p))) false (mn_prompt x)) false (ks_menus k !! m) &&
  from_option valid false (ks_syms k !! s).
Lemma question_check_ok k m s y : question_check k m s = true → ks_syms k !! s = Some y → question k m s y.
Proof.
  unfold question_check. intros [C V]%andb_true_iff H. rewrite H in V. split; [|done..].
  destruct (ks_menus k !! m) as [x|]; [|done]. simpl in C. apply andb_true_iff in C as [Hs%bool_decide_eq_true C].
  destruct (mn_prompt x) as [p|] eqn:Hp; [|done]. apply bool_decide_eq_true in C as [q Hq]. by exists x, p, q.
Qed.



(** ** Examples *)

(** The program with no clock, no random numbers and nothing in its environment. *)
Definition no_random (_ : nat) : Z := 0.

Definition store_of (input : list top) : kstate :=
  match conf_parse None None "2.6" input parser_start with Done (_, p) => ps_k p | _ => init_state end.


(** A number without a default. *)
Definition number_input : list top := [
  TStmt (SConfig false "NUMBER" [CType S_INT (Some ("A number"%string, None))])
].
Definition number_store : kstate :=
  final (for_all_symbols sym_calc_value) (store_of number_input).

(** ** Runs without questions *)





(** ** Answers *)

(** C17: the question about a boolean or tristate symbol ends on every input.
    Whatever bytes are typed, [conf_sym] stays inside its array, and takes a
    line with each turn.  Either the input ends, and the program exits with
    status 1 and a store that did not change, or an answer was accepted: then
    the symbol has it as its setting, and it is the old value or one that the
    dependencies allow. *)
Theorem conf_sym_ends turns random gettext m s y f :
  ready (fe_k f) → listed (fe_k f) → question (fe_k f) m s y → logic_type y →
  tri_ltb (sy_rev_dep_tri y) (sy_visible y) = true → fe_mode f = ask_all → 2 < length (fe_line f) →
  String.length (fe_stdin f) < turns →
  ∃ r f', conf_sym turns random gettext m f = Done (r, f') ∧
    (r = Exit 1 ∧ fe_k f' = fe_k f ∨ r = Go () ∧ ∃ v, admissible y v ∧ given (fe_k f') s v).
Proof.
  intros R Ls Qu T Ch M L Tu. pose proof Qu as [(x & p & q & Hx & _ & _ & Hs) H V]. unfold conf_sym.
  eapply comes_read; [by apply read_menu|]. eapply (comes_step _ s _ f f); [by rewrite Hs|].
  by apply (run_sym (fe_k f) s y R Ls H V T turns random gettext m Qu Ch turns f).
Qed.

Lemma conf_sym_ends_witness :
  let f := front_start conf_done ask_all (ln "?" +:+ ln "maybe" +:+ ln " y ") in
  ∃ y r f', ks_syms conf_done !! 5 = Some y ∧ conf_sym 20 no_random id 2 f = Done (r, f') ∧
    (r = Exit 1 ∧ fe_k f' = fe_k f ∨ r = Go () ∧ ∃ v, admissible y v ∧ given (fe_k f') 5 v).
Proof.
  destruct (ks_syms conf_done !! 5) as [y|] eqn:H; [|exfalso; by vm_compute in H].
  set (f := front_start conf_done ask_all (ln "?" +:+ ln "maybe" +:+ ln " y ")).
  destruct (conf_sym_ends 20 no_random id 2 5 y f) as (r & f' & Q).
  - exact (sn_ready _ conf_done_now).
  - exact (sb_listed _ _ _ _ _ _ conf_done_storable).
  - apply question_check_ok; [by vm_compute|done].
  - vm_compute in H. injection H as <-. by right.
  - vm_compute in H. by injection H as <-.
  - done.
  - simpl. lia.
  - vm_compute. lia.
  - exists y, r, f'. split; [done|exact Q].
Defined.

(** C31: an answer that is allowed is taken at once.  If the next line of the
    input is empty or a word without blanks around it, and [reply_of] takes it
    for the value [v] (an empty line stands for the old value), then [conf_sym]
    asks once, takes just this line from the input, and [v] is the setting of
    the symbol. *)
Theorem conf_sym_answer turns random gettext m s y w rest v f :
  ready (fe_k f) → listed (fe_k f) → question (fe_k f) m s y → logic_type y →
  tri_ltb (sy_rev_dep_tri y) (sy_visible y) = true → fe_mode f = ask_all → 2 < length (fe_line f) → 0 < turns →
  answer_line w → String.length w + 2 ≤ length (fe_line f) → fe_stdin f = ln w +:+ rest →
  reply_of (char_at w) (tail_of w) (sv_tri (sy_curr y)) = Value v → admissible y v →
  ∃ f', conf_sym turns random gettext m f = Done (Go (), f') ∧ fe_stdin f' = rest ∧ given (fe_k f') s v.
Proof.
  intros R Ls Qu T Ch M L Tu W Lw Es Rp Ad. pose proof Qu as [(x & p & q & Hx & _ & _ & Hs) H V].
  destruct turns as [|n]; [lia|].
  destruct (run_word (fe_k f) s y R Ls H V T (S n) random gettext m Qu Ch w rest v n f) as (r & f' & E & -> & Q); [done..|].
  exists f'. split; [|done]. unfold conf_sym, andthen at 1.
  rewrite (mthen_done _ _ _ (Go x) f) by (by rewrite (of_store_run _ _ _ _ (read_menu _ _ _ Hx)), put_same).
  unfold andthen at 1. by rewrite (mthen_done _ _ _ (Go s) f) by (by rewrite Hs).
Qed.

Lemma conf_sym_answer_witness :
  let f := front_start conf_done ask_all (ln "y" +:+ "more") in
  ∃ f', conf_sym 1 no_random id 2 f = Done (Go (), f') ∧ fe_stdin f' = "more"%string ∧ given (fe_k f') 5 Yes.
Proof.
  destruct (ks_syms conf_done !! 5) as [y|] eqn:H; [|exfalso; by vm_compute in H].
  apply (conf_sym_answer 1 no_random id 2 5 y "y" "more" Yes (front_start conf_done ask_all (ln "y" +:+ "more"))).
  - exact (sn_ready _ conf_done_now).
  - exact (sb_listed _ _ _ _ _ _ conf_done_storable).
  - apply question_check_ok; [by vm_compute|done].
  - vm_compute in H. injection H as <-. by right.
  - vm_compute in H. by injection H as <-.
  - done.
  - simpl. lia.
  - lia.
  - clear H. right. split_and!; [done..|]. by exists [], "y"%char.
  - simpl. lia.
  - done.
  - done.
  - right. vm_compute in H. by injection H as <-.
Defined.

(** C38: a question about a number whose value is not a number does not end
    when the program answers it itself.  [conf_string] offers the value to
    [sym_set_string_value], which refuses it, and the loop goes round without
    an end: no number of turns is enough.  The text of an int or hex symbol
    without a default is empty, so [conf -d] hangs on it. *)
Theorem conf_string_never_ends turns random gettext m s y c f :
  question (fe_k f) m s y → sy_type y = S_INT ∨ sy_type y = S_HEX → sv_val (sy_curr y) = VStr c →
  string_valid (sy_type y) (cs_text c) = false → silent f s → 2 < length (fe_line f) →
  conf_string turns random gettext m f = NoFuel.
Proof.
  intros Qu T Ec N Si L. pose proof Qu as [(x & p & q & Hx & _ & _ & Hs) H V]. unfold conf_string, andthen at 1.
  rewrite (mthen_done _ _ _ (Go x) f) by (by rewrite (of_store_run _ _ _ _ (read_menu _ _ _ Hx)), put_same).
  unfold andthen at 1. rewrite (mthen_done _ _ _ (Go s) f) by (by rewrite Hs). by apply (string_stuck _ _ _ _ _ y c).
Qed.

Lemma conf_string_never_ends_witness :
  conf_string 1000 no_random id 1 (front_start number_store set_default EmptyString) = NoFuel.
Proof.
  destruct (ks_syms number_store !! 9) as [y|] eqn:H; [|exfalso; by vm_compute in H].
  destruct (sv_val (sy_curr y)) as [|c|] eqn:Ec; [exfalso; vm_compute in H; by injection H as <-| |exfalso; vm_compute in H; by injection H as <-].
  apply (conf_string_never_ends 1000 no_random id 1 9 y c).
  - apply question_check_ok; [by vm_compute|done].
  - left. vm_compute in H. by injection H as <-.
  - done.
  - vm_compute in H. injection H as <-. by injection Ec as <-.
  - by left.
  - simpl. lia.
Defined.

(** ** Choices *)



(** ** Visibility *)



(** ** The whole program *)

(** A description with a symbol of each kind and a choice, and a user who asks
    for help once. *)
Definition main_text : string :=
  ln "config MODULES" +:+ ln " bool" +:+ ln " default y" +:+ ln "config FOO" +:+ ln " tristate 'Foo'" +:+
  ln "config BAR" +:+ ln " int 'Bar'" +:+ ln " default 5" +:+ ln "config OPENWRTVERSION" +:+ ln " string" +:+
  ln "config BAZ" +:+ ln " string 'Baz' if FOO" +:+ ln "choice" +:+ ln " prompt 'Pick'" +:+
  ln "config A" +:+ ln " bool 'a'" +:+ ln "config B" +:+ ln " bool 'b'" +:+ ln "endchoice".
Definition main_answers : string := ln "y" +:+ ln "?" +:+ ln "12" +:+ ln "hello" +:+ ln "2".
Definition main_run (stdin : string) (av : list string) : outcome (flow Z * front) :=
  main 100 no_random NUL no_env id now 7 all_writable blank_line
    (λ name, if decide (name = "Config.in"%string) then Some main_text else None) (λ _, GLOB_NOMATCH) (λ _, NUL)
    None None "2.6" (λ _, mcrash) true 50 "conf" av (front_start init_state ask_all stdin).

(** The description is parsed, every question is asked, and the answers are in
    the file. *)
Example main_dialogue :
  (match main_run main_answers ["Config.in"%string] with
   | Done (Go r, f) => Some (r, cf_files (fe_conf f) !! conf_def_filename, fe_stdin f)
   | _ => None
   end) = Some (0%Z, Some (
     ln "#" +:+ ln "# Automatically generated make config: don't edit" +:+ ln "# OpenWrt version: " +:+
     "# " +:+ now +:+ ln "#" +:+ ln "CONFIG_MODULES=y" +:+ ln "CONFIG_FOO=y" +:+ ln "CONFIG_BAR=12" +:+
     ln ("CONFIG_BAZ=" +:+ String dq "hello" +:+ String dq "") +:+
     ln "# CONFIG_A is not set" +:+ ln "CONFIG_B=y"), EmptyString).
Proof. by vm_compute. Qed.

(** At the end of the input the program gives up. *)
Example main_aborted :
  (match main_run (ln "y") ["Config.in"%string] with
   | Done (Exit r, f) => Some (r, cf_files (fe_conf f) !! conf_def_filename)
   | _ => None
   end) = Some (1%Z, None).
Proof. by vm_compute. Qed.
