(* ===== verification/NvCrc.v ===== *)
(** * CRC-8 of the NVRAM image: [package/nvram/src/crc.c]

    The table-driven checksum, its definition bit by bit, and which changes of
    the data it finds. *)
From S2P Require Import Prelude CLib CStr.
From Stdlib Require Import Ascii.
Open Scope pr30_scope.
Local Open Scope Z_scope.

(** ** The code *)

Definition crc8_table : list Z := [
   0; 247; 185; 78; 37; 210; 156; 107; 74; 189; 243; 4; 111; 152; 214; 33;
   148; 99; 45; 218; 177; 70; 8; 255; 222; 41; 103; 144; 251; 12; 66; 181;
   127; 136; 198; 49; 90; 173; 227; 20; 53; 194; 140; 123; 16; 231; 169; 94;
   235; 28; 82; 165; 206; 57; 119; 128; 161; 86; 24; 239; 132; 115; 61; 202;
   254; 9; 71; 176; 219; 44; 98; 149; 180; 67; 13; 250; 145; 102; 40; 223;
   106; 157; 211; 36; 79; 184; 246; 1; 32; 215; 153; 110; 5; 242; 188; 75;
   129; 118; 56; 207; 164; 83; 29; 234; 203; 60; 114; 133; 238; 25; 87; 160;
   21; 226; 172; 91; 48; 199; 137; 126; 95; 168; 230; 17; 122; 141; 195; 52;
   171; 92; 18; 229; 142; 121; 55; 192; 225; 22; 88; 175; 196; 51; 125; 138;
   63; 200; 134; 113; 26; 237; 163; 84; 117; 130; 204; 59; 80; 167; 233; 30;
   212; 35; 109; 154; 241; 6; 72; 191; 158; 105; 39; 208; 187; 76; 2; 245;
   64; 183; 249; 14; 101; 146; 220; 43; 10; 253; 179; 68; 47; 216; 150; 97;
   85; 162; 236; 27; 112; 135; 201; 62; 31; 232; 166; 81; 58; 205; 131; 116;
   193; 54; 120; 143; 228; 19; 93; 170; 139; 124; 50; 197; 174; 89; 23; 224;
   42; 221; 147; 100; 15; 248; 182; 65; 96; 151; 217; 46; 69; 178; 252; 11;
   190; 73; 7; 240; 155; 108; 34; 213; 244; 3; 77; 186; 209; 38; 104; 159].

(** [None]: a byte behind the end of the data is read. *)
Fixpoint hndcrc8 (pdata : list Z) (nbytes : nat) (crc : Z) {struct nbytes} : option Z :=
  match nbytes with
  | O => Some crc
  | S nbytes =>
      match pdata with
      | [] => None
      | b :: pdata =>
          let? c := crc8_table !! Z.to_nat (Z.land (Z.lxor crc b) 255) in
          hndcrc8 pdata nbytes c
      end
  end.

(** ** The polynomial *)

(** x^8 + x^7 + x^6 + x^4 + x^2 + 1 without the leading term, the coefficient
    of 1 in the highest bit. *)
Definition crc8_poly : Z := 0xAB.

(** Division by the polynomial, a bit at a time. *)
Definition crc8_bit (c : Z) : Z := Z.lxor (Z.shiftr c 1) (if Z.odd c then crc8_poly else 0).
Definition crc8_byte (c b : Z) : Z := Nat.iter 8 crc8_bit (Z.lxor c b).
Definition crc8 (data : list Z) (c : Z) : Z := fold_left crc8_byte data c.

Definition is_byte (b : Z) : Prop := 0 ≤ b < 256.

(** ** Bytes *)

Lemma byte_all (P : Z → bool) : forallb P (map Z.of_nat (seq 0 256)) = true → ∀ b, is_byte b → P b = true.
Proof.
  intros H b [B1 B2]. rewrite forallb_forall in H. apply H, in_map_iff. exists (Z.to_nat b).
  split; [lia|]. apply in_seq. lia.
Qed.
Lemma byte_lxor a b : is_byte a → is_byte b → is_byte (Z.lxor a b).
Proof.
  intros [A1 A2] [B1 B2]. assert (N : 0 ≤ Z.lxor a b) by (apply Z.lxor_nonneg; lia). split; [done|].
  destruct (decide (Z.lxor a b = 0)) as [->|N0]; [lia|]. apply (Z.log2_lt_pow2 _ 8); [lia|].
  pose proof (Z.log2_lxor a b A1 B1). pose proof (Z.log2_le_mono a 255 ltac:(lia)).
  pose proof (Z.log2_le_mono b 255 ltac:(lia)). change (Z.log2 255) with 7 in *. lia.
Qed.
Lemma byte_land b : is_byte b → Z.land b 255 = b.
Proof. intros [B1 B2]. change 255 with (Z.ones 8). rewrite Z.land_ones by done. apply Z.mod_small. lia. Qed.
Lemma lxor_cancel_l c a b : Z.lxor c a = Z.lxor c b → a = b.
Proof. intros H. apply (f_equal (Z.lxor c)) in H. by rewrite <-!Z.lxor_assoc, !Z.lxor_nilpotent, !Z.lxor_0_l in H. Qed.

Lemma fold_left_cons {A B} (f : A → B → A) b l a : fold_left f (b :: l) a = fold_left f l (f a b).
Proof. reflexivity. Qed.

(** ** The table *)

(** Entry [b] is the remainder for the byte [b]. *)
Definition entry_ok (b : Z) : bool :=
  bool_decide (crc8_table !! Z.to_nat b = Some (crc8_byte 0 b)) && ((0 <=? crc8_byte 0 b) && (crc8_byte 0 b <? 256)).
Lemma entries_ok : forallb entry_ok (map Z.of_nat (seq 0 256)) = true.
Proof. vm_compute. reflexivity. Qed.
#[local] Opaque crc8_table crc8_byte.
Lemma crc8_table_entry b : is_byte b → crc8_table !! Z.to_nat b = Some (crc8_byte 0 b) ∧ is_byte (crc8_byte 0 b).
Proof.
  intros B. pose proof (byte_all entry_ok entries_ok b B) as H. unfold entry_ok in H.
  rewrite !andb_true_iff, bool_decide_eq_true in H. destruct H as (E & H1 & H2). unfold is_byte.
  apply Z.leb_le in H1. apply Z.ltb_lt in H2. done.
Qed.
(** Different bytes have different remainders. *)
Definition table_inv : list Z := Eval vm_compute in
  map (λ i, Z.of_nat (default 0%nat (fst <$> list_find (λ v, v = Z.of_nat i) crc8_table))) (seq 0 256).
Definition inv_ok (b : Z) : bool := bool_decide (table_inv !! Z.to_nat (crc8_byte 0 b) = Some b).
#[local] Transparent crc8_table crc8_byte.
Lemma invs_ok : forallb inv_ok (map Z.of_nat (seq 0 256)) = true.
Proof. vm_compute. reflexivity. Qed.
#[local] Opaque crc8_table crc8_byte table_inv.
Lemma table_inj a b : is_byte a → is_byte b → crc8_byte 0 a = crc8_byte 0 b → a = b.
Proof.
  intros A B E. pose proof (byte_all inv_ok invs_ok a A) as Ha. pose proof (byte_all inv_ok invs_ok b B) as Hb.
  unfold inv_ok in Ha, Hb. rewrite bool_decide_eq_true in Ha, Hb. rewrite E in Ha. congruence.
Qed.

#[local] Transparent crc8_byte.
Lemma byte_step c b : crc8_byte c b = crc8_byte 0 (Z.lxor c b).
Proof. unfold crc8_byte. rewrite Z.lxor_0_l. reflexivity. Qed.
#[local] Opaque crc8_byte.
Lemma crc8_byte_range c b : is_byte c → is_byte b → is_byte (crc8_byte c b).
Proof. intros C B. rewrite byte_step. by apply crc8_table_entry, byte_lxor. Qed.
Lemma crc8_cons b data c : crc8 (b :: data) c = crc8 data (crc8_byte c b).
Proof. exact (fold_left_cons crc8_byte b data c). Qed.
Lemma crc8_range data c : is_byte c → Forall is_byte data → is_byte (crc8 data c).
Proof.
  intros C H. revert c C. induction H as [|b data B _ IH]; intros c C; [done|]. rewrite crc8_cons. by apply IH, crc8_byte_range.
Qed.

(** The table gives what the division gives. *)
Lemma hndcrc8_run data rest c :
  is_byte c → Forall is_byte data → hndcrc8 (data ++ rest) (length data) c = Some (crc8 data c).
Proof.
  intros C H. revert c C. induction H as [|b data B _ IH]; intros c C; [done|]. rewrite crc8_cons. cbn [length app hndcrc8].
  rewrite byte_land by (by apply byte_lxor). destruct (crc8_table_entry (Z.lxor c b)) as [E R]; [by apply byte_lxor|].
  rewrite E. rewrite IH by done. by rewrite (byte_step c b).
Qed.

(** ** Errors *)

Lemma crc8_app d1 d2 c : crc8 (d1 ++ d2) c = crc8 d2 (crc8 d1 c).
Proof. exact (fold_left_app crc8_byte d1 d2 c). Qed.
Lemma byte_inj_l c c' b : is_byte c → is_byte c' → is_byte b → crc8_byte c b = crc8_byte c' b → c = c'.
Proof.
  intros C C' B. rewrite !(byte_step _ b). intros E. apply table_inj in E; [|by apply byte_lxor..].
  rewrite !(Z.lxor_comm _ b) in E. by eapply lxor_cancel_l.
Qed.
Lemma byte_inj_r c b b' : is_byte c → is_byte b → is_byte b' → crc8_byte c b = crc8_byte c b' → b = b'.
Proof.
  intros C B B'. rewrite !(byte_step c). intros E. apply table_inj in E; [|by apply byte_lxor..].
  by eapply lxor_cancel_l.
Qed.
Lemma crc8_inj data c c' : is_byte c → is_byte c' → Forall is_byte data → crc8 data c = crc8 data c' → c = c'.
Proof.
  intros C C' H. revert c c' C C'. induction H as [|b data B _ IH]; intros c c' C C' E; [done|]. rewrite !crc8_cons in E.
  apply IH in E; [|by apply crc8_byte_range..]. by apply (byte_inj_l c c' b).
Qed.
(** One changed byte is found. *)
Lemma crc8_detects d1 b b' d2 c :
  is_byte c → Forall is_byte (d1 ++ b :: d2) → is_byte b' → b ≠ b' → crc8 (d1 ++ b :: d2) c ≠ crc8 (d1 ++ b' :: d2) c.
Proof.
  intros C [H1 [B H2]%Forall_cons]%Forall_app B' N E. rewrite !crc8_app, !crc8_cons in E.
  pose proof (crc8_range d1 c C H1) as R. apply crc8_inj in E; [|by apply crc8_byte_range..|done].
  by apply byte_inj_r in E.
Qed.
