(* ===== verification/Nvram.v ===== *)
(** * NVRAM variables: [package/nvram/src/nvram.c]

    One definition per function.  A handle holds the hash table and the mapped
    image as the bytes it is; every access to the image is checked, and one
    outside of it is undefined.  Whether [malloc] succeeds is a part of the
    state. *)
From S2P Require Import Prelude CLib CStr NvCrc.
From Stdlib Require Import Ascii.
Open Scope pr30_scope.

(** ** Constants and layout: [nvram.h], [sdinitvals.h] *)

Definition NVRAM_SPACE : Z := 0x8000.
Definition NVRAM_MAGIC : Z := 0x48534C46.
Definition NVRAM_VERSION : Z := 1.
Definition NVRAM_CRC_START_POSITION : nat := 9.
Definition NVRAM_STAGING : string := "/tmp/.nvram".
Definition NVRAM_HASH : nat := 257.
Definition NVRAM_ROUNDUP (x y : Z) : Z := (x + (y - 1)) / y * y.

Definition SDRAM_INIT : Z := 0x419.
Definition SDRAM_CONFIG : Z := 0.
Definition SDRAM_REFRESH : Z := Z.lor (Z.land 0x40 0xff) 0x8000.

(** [size_t] and [uint32_t]. *)
Definition u32 (z : Z) : Z := z mod 2 ^ 32.
(** Conversion to [size_t] and back to an index. *)
Definition NVRAM_START (x : Z) : nat := Z.to_nat (u32 (x - NVRAM_SPACE)).

(** [struct nvram_header]: five words, the first byte of each is the lowest. *)
Definition HEADER : nat := 20.
Definition magic_at : nat := 0.
Definition len_at : nat := 4.
Definition crc_ver_init_at : nat := 8.
Definition config_refresh_at : nat := 12.
Definition config_ncdl_at : nat := 16.

Record nvram_tuple : Set := Tuple { tu_name : string; tu_value : option string }.

(** [struct nvram_handle] without the file, the variable [nvram_erase_size],
    the address of the image, and what the next calls of [malloc] come to
    (success, once the list is used up). *)
Record nvram : Set := Nvram {
  nv_hash : gmap nat (list nvram_tuple);
  nv_dead : list nvram_tuple;
  nv_mmap : list ascii;
  nv_base : Z;
  nv_erase : Z;
  nv_mem : list bool;
}.

Definition nv_set_hash (x : gmap nat (list nvram_tuple)) (h : nvram) : nvram :=
  Nvram x (nv_dead h) (nv_mmap h) (nv_base h) (nv_erase h) (nv_mem h).
Definition nv_set_dead (x : list nvram_tuple) (h : nvram) : nvram :=
  Nvram (nv_hash h) x (nv_mmap h) (nv_base h) (nv_erase h) (nv_mem h).
Definition nv_set_mmap (x : list ascii) (h : nvram) : nvram :=
  Nvram (nv_hash h) (nv_dead h) x (nv_base h) (nv_erase h) (nv_mem h).
Definition nv_set_mem (x : list bool) (h : nvram) : nvram :=
  Nvram (nv_hash h) (nv_dead h) (nv_mmap h) (nv_base h) (nv_erase h) x.

Abbreviation N := (M nvram).

Definition malloc : N bool := λ h,
  match nv_mem h with
  | ok :: rest => Done (ok, nv_set_mem rest h)
  | [] => Done (true, h)
  end.

(** ** The image *)

Definition char_of (b : Z) : ascii := ascii_of_nat (Z.to_nat b).
Definition le32 (v : Z) : list ascii :=
  [char_of (Z.land v 255); char_of (Z.land (Z.shiftr v 8) 255);
   char_of (Z.land (Z.shiftr v 16) 255); char_of (Z.land (Z.shiftr v 24) 255)].
Definition of_le32 (l : list ascii) : Z :=
  fold_right (λ c v, Z.lor (code c) (Z.shiftl v 8)) 0%Z l.

Definition get8 (p : nat) : N ascii := λ h, mderef (nv_mmap h !! p) h.
Definition get32 (p : nat) : N Z := λ h,
  if (p + 4 <=? length (nv_mmap h))%nat then Done (of_le32 (take 4 (drop p (nv_mmap h))), h) else Crash.
Definition put (p : nat) (l : list ascii) : N () := λ h,
  if (p + length l <=? length (nv_mmap h))%nat
  then Done ((), nv_set_mmap (take p (nv_mmap h) ++ l ++ drop (p + length l) (nv_mmap h)) h)
  else Crash.
Definition put32 (p : nat) (v : Z) : N () := put p (le32 v).
Definition memset (p : nat) (c : Z) (n : nat) : N () := put p (repeat (char_of c) n).
(** The C string at [p]. *)
Definition string_at (p : nat) : N string := λ h, mderef (cstr_of (drop p (nv_mmap h))) h.
Definition strchr_at (p : nat) (c : ascii) : N (option nat) := λ h,
  match scan (λ x, isc x c) (drop p (nv_mmap h)) with
  | Some o => Done (Nat.add p <$> o, h)
  | None => Crash
  end.

(** ** Numbers as text *)

(** [strtoul(s, NULL, 0)] with an [unsigned long] of 32 bits. *)
Definition base_of (s : string) : Z :=
  match s with
  | String z (String x (String c _)) =>
      if isc z "0" then if (isc x "x" || isc x "X") && isxdigit c then 16 else 8 else 10
  | String z _ => if isc z "0" then 8 else 10
  | EmptyString => 10
  end%Z.
Definition strtoul0 (s : string) : Z :=
  let s := skip_space s in
  let neg := isc (char_at s) "-" in
  let s := if neg || isc (char_at s) "+" then tail_of s else s in
  let v := digits_val (base_of s) 0 (skip_0x (base_of s) s) in
  if (2 ^ 32 <=? v)%Z then (2 ^ 32 - 1)%Z else if neg then u32 (- v) else v.

(** [%0nX]. *)
Definition DIGIT (d : Z) : ascii := ascii_of_nat (Z.to_nat (if d <? 10 then d + 48 else d + 55)%Z).
Fixpoint print_X (n : nat) (v : Z) : string :=
  match n with
  | O => EmptyString
  | S n => print_X n (v / 16) +:+ String (DIGIT (v mod 16)) ""
  end.

(** ** Helper functions *)

Section Nvram.
(** Whether [char] is a signed type. *)
Context (signed_char : bool).

Definition char_val (c : ascii) : Z :=
  if signed_char && (128 <=? code c)%Z then (code c - 256)%Z else code c.
Fixpoint hash_f (s : string) (hash : Z) : Z :=
  match s with
  | EmptyString => hash
  | String c r => hash_f r (u32 (31 * hash + char_val c))
  end.
Definition hash (s : string) : Z := hash_f s 0.
(** [hash(name) % NVRAM_ARRAYSIZE(h->nvram_hash)], that is
    [hash(name) % sizeof(a) / sizeof(a[0])] with pointers of 4 bytes. *)
Definition bucket_of (name : string) : nat := Z.to_nat (hash name mod (Z.of_nat NVRAM_HASH * 4) / 4).

Definition chain_at (h : nvram) (i : nat) : list nvram_tuple := default [] (nv_hash h !! i).
Definition put_chain (i : nat) (l : list nvram_tuple) : N () :=
  mmodify (λ h, nv_set_hash (<[i := l]> (nv_hash h)) h).

Definition _nvram_free : N () :=
  do! mmodify (nv_set_hash ∅) in
  mmodify (nv_set_dead []).

(** The tuple after the call, and whether the call returned it.  A tuple that
    is given keeps its place; when [realloc] fails it has lost its value. *)
Definition _nvram_realloc (t : option nvram_tuple) (name value : string) : N (nvram_tuple * bool) :=
  let old := default (Tuple name None) t in
  if (NVRAM_SPACE <? Z.of_nat (String.length value) + 1)%Z then mreturn (old, false)
  else
    let! ok := match t with None => malloc | Some _ => mreturn true end in
    if negb ok then mreturn (old, false)
    else if bool_decide (tu_value old = Some value) then mreturn (old, true)
    else
      let! ok := malloc in
      if ok then mreturn (Tuple (tu_name old) (Some value), true)
      else mreturn (Tuple (tu_name old) None, false).

(** The tuples in front of the first one with this name, that one, and the rest. *)
Fixpoint find_tuple (l : list nvram_tuple) (name : string) :
    list nvram_tuple * option (nvram_tuple * list nvram_tuple) :=
  match l with
  | [] => ([], None)
  | t :: l =>
      if decide (tu_name t = name) then ([], Some (t, l))
      else let '(before, r) := find_tuple l name in (t :: before, r)
  end.

(** ** Public functions *)

(** [None] is [NULL]. *)
Definition nvram_get (name : option string) : N (option string) :=
  match name with
  | None => mreturn None
  | Some name =>
      let! chain := mgets (λ h, chain_at h (bucket_of name)) in
      mreturn (match find_tuple chain name with (_, Some (t, _)) => tu_value t | (_, None) => None end)
  end.

(** A tuple that was found is the one [_nvram_realloc] returns, so the branch
    that moves it to the dead table is not reached. *)
Definition nvram_set (name value : string) : N Z :=
  let i := bucket_of name in
  let! chain := mgets (λ h, chain_at h i) in
  let '(before, r) := find_tuple chain name in
  let! (u, ok) := _nvram_realloc (fst <$> r) name value in
  match r with
  | Some (_, after) =>
      do! put_chain i (before ++ u :: after) in
      mreturn (if ok then 0 else -12)%Z
  | None =>
      if ok then do! put_chain i (u :: chain) in mreturn 0%Z else mreturn (-12)%Z
  end.

Definition nvram_unset (name : option string) : N Z :=
  match name with
  | None => mreturn 0%Z
  | Some name =>
      let i := bucket_of name in
      let! chain := mgets (λ h, chain_at h i) in
      match find_tuple chain name with
      | (before, Some (t, after)) =>
          do! put_chain i (before ++ after) in
          do! mmodify (λ h, nv_set_dead (t :: nv_dead h) h) in
          mreturn 0%Z
      | (_, None) => mreturn 0%Z
      end
  end.

(** The inner loop, left when there is no memory. *)
Fixpoint getall_chain (chain l : list nvram_tuple) : N (list nvram_tuple) :=
  match chain with
  | [] => mreturn l
  | t :: chain => let! ok := malloc in if ok then getall_chain chain (t :: l) else mreturn l
  end.
Fixpoint getall_f (ix : list nat) (l : list nvram_tuple) : N (list nvram_tuple) :=
  match ix with
  | [] => mreturn l
  | i :: ix =>
      let! chain := mgets (λ h, chain_at h i) in
      let! l := getall_chain chain l in
      getall_f ix l
  end.
Definition nvram_getall : N (list nvram_tuple) := getall_f (seq 0 NVRAM_HASH) [].

(** The offset of the header in the image. *)
Definition nvram_header : N nat := mgets (λ h, NVRAM_START (nv_erase h)).

(** The loop over [name=value]; every turn moves on in the image. *)
Fixpoint rehash_f (n : nat) (name : nat) : N () :=
  match n with
  | O => mnofuel
  | S n =>
      let! c := get8 name in
      if isc c NUL then mreturn ()
      else
        let! eq := strchr_at name "=" in
        match eq with
        | None => mreturn ()
        | Some eq =>
            do! put eq [NUL] in
            let value := S eq in
            let! name_s := string_at name in
            let! value_s := string_at value in
            let! _ := nvram_set name_s value_s in
            do! put eq ["="%char] in
            let! value_s := string_at value in
            rehash_f n (value + String.length value_s + 1)
        end
  end.

(** [if (!nvram_get(h, name)) { sprintf(buf, ...); nvram_set(h, name, buf); }] *)
Definition set_missing (name : string) (digits : nat) (v : Z) : N () :=
  let! old := nvram_get (Some name) in
  match old with
  | None => let! _ := nvram_set name ("0x" +:+ print_X digits v) in mreturn ()
  | Some _ => mreturn ()
  end.

Definition _nvram_rehash : N Z :=
  let! header := nvram_header in
  do! _nvram_free in
  let! n := mgets (λ h, S (length (nv_mmap h))) in
  do! rehash_f n (header + HEADER) in
  let! crc_ver_init := get32 (header + crc_ver_init_at) in
  let! config_refresh := get32 (header + config_refresh_at) in
  let! config_ncdl := get32 (header + config_ncdl_at) in
  do! set_missing "sdram_init" 4 (Z.shiftr crc_ver_init 16 mod 2 ^ 16) in
  do! set_missing "sdram_config" 4 (Z.land config_refresh 0xffff mod 2 ^ 16) in
  do! set_missing "sdram_refresh" 4 (Z.land (Z.shiftr config_refresh 16) 0xffff mod 2 ^ 16) in
  do! set_missing "sdram_ncdl" 8 config_ncdl in
  mreturn 0%Z.

(** The words [crc_ver_init], [config_refresh] and [config_ncdl] of a new
    header; the variables are looked up one by one, up to a missing one. *)
Definition header_words : N (Z * Z * Z) :=
  let ver := Z.shiftl NVRAM_VERSION 8 in
  let missing := (Z.lor ver (Z.shiftl SDRAM_INIT 16), Z.lor SDRAM_CONFIG (Z.shiftl SDRAM_REFRESH 16), 0%Z) in
  let! init := nvram_get (Some "sdram_init"%string) in
  match init with None => mreturn missing | Some init =>
  let! config := nvram_get (Some "sdram_config"%string) in
  match config with None => mreturn missing | Some config =>
  let! refresh := nvram_get (Some "sdram_refresh"%string) in
  match refresh with None => mreturn missing | Some refresh =>
  let! ncdl := nvram_get (Some "sdram_ncdl"%string) in
  match ncdl with None => mreturn missing | Some ncdl =>
  mreturn
    (Z.lor ver (Z.shiftl (Z.land (strtoul0 init) 0xffff) 16),
     Z.lor (Z.land (strtoul0 config) 0xffff) (Z.shiftl (Z.land (strtoul0 refresh) 0xffff) 16),
     strtoul0 ncdl)
  end end end end.

(** The inner loop over the tuples, left when one does not fit. *)
Fixpoint write_chain (chain : list nvram_tuple) (ptr end_ : nat) : N nat :=
  match chain with
  | [] => mreturn ptr
  | t :: chain =>
      let! value := mderef (tu_value t) in
      if (end_ <? ptr + String.length (tu_name t) + 1 + String.length value + 1)%nat then mreturn ptr
      else
        let text := tu_name t +:+ "=" +:+ value in
        do! put ptr (la text ++ [NUL]) in
        write_chain chain (ptr + String.length text + 1) end_
  end.
Fixpoint write_tuples (ix : list nat) (ptr end_ : nat) : N nat :=
  match ix with
  | [] => mreturn ptr
  | i :: ix =>
      let! chain := mgets (λ h, chain_at h i) in
      let! ptr := write_chain chain ptr end_ in
      write_tuples ix ptr end_
  end.

(** [if ((int)ptr % 4) memset(ptr, 0, 4 - ((int)ptr % 4));] *)
Definition pad_to_4 (ptr : nat) : N () :=
  let! base := mgets nv_base in
  let r := Z.rem (wrap32 (base + Z.of_nat ptr)) 4 in
  mwhen (negb (r =? 0)%Z) (memset ptr 0 (Z.to_nat (4 - r))).

Definition bytes_at (p : nat) : N (list Z) := mgets (λ h, map code (drop p (nv_mmap h))).

Definition nvram_commit : N Z :=
  let! header := nvram_header in
  do! put32 (header + magic_at) NVRAM_MAGIC in
  let! (crc_ver_init, config_refresh, config_ncdl) := header_words in
  do! put32 (header + crc_ver_init_at) crc_ver_init in
  do! put32 (header + config_refresh_at) config_refresh in
  do! put32 (header + config_ncdl_at) config_ncdl in
  let ptr := (header + HEADER)%nat in
  do! memset ptr 0xFF (Z.to_nat NVRAM_SPACE - HEADER) in
  let end_ := (header + (Z.to_nat NVRAM_SPACE - 2))%nat in
  let! ptr := write_tuples (seq 0 NVRAM_HASH) ptr end_ in
  do! put ptr [NUL] in
  let ptr := S ptr in
  do! pad_to_4 ptr in
  let ptr := S ptr in
  let len := NVRAM_ROUNDUP (Z.of_nat ptr - Z.of_nat header) 4 in
  do! put32 (header + len_at) len in
  let tmp := le32 0 ++ le32 0 ++ le32 crc_ver_init ++ le32 config_refresh ++ le32 config_ncdl in
  let! crc := mderef (hndcrc8 (map code (drop NVRAM_CRC_START_POSITION tmp)) (HEADER - NVRAM_CRC_START_POSITION) 0xff) in
  let! data := bytes_at (header + HEADER) in
  let! crc := mderef (hndcrc8 data (Z.to_nat (u32 (len - Z.of_nat HEADER))) crc) in
  do! put32 (header + crc_ver_init_at) (Z.lor crc_ver_init crc) in
  _nvram_rehash.
End Nvram.
