(* ===== verification/NvramCli.v ===== *)
(** * Devices, the staging file and the command: [nvram.c], [cli.c]

    The functions of the library that work on files, and the command line
    tool, over a file system of names, modes and contents. *)
From S2P Require Import Prelude CLib CStr NvCrc Nvram.
From Stdlib Require Import Ascii.
Open Scope pr30_scope.

(** ** The world *)

Record node : Set := Node { nd_mode : Z; nd_data : list ascii }.

(** Files, the variable [nvram_erase_size], the results of [malloc] to come,
    and what is printed. *)
Record world : Set := World {
  w_files : gmap string node;
  w_erase : Z;
  w_mem : list bool;
  w_stdout : list string;
  w_stderr : list string;
}.

Definition w_set_files (x : gmap string node) (w : world) : world :=
  World x (w_erase w) (w_mem w) (w_stdout w) (w_stderr w).
Definition w_set_erase (x : Z) (w : world) : world :=
  World (w_files w) x (w_mem w) (w_stdout w) (w_stderr w).
Definition w_set_mem (x : list bool) (w : world) : world :=
  World (w_files w) (w_erase w) x (w_stdout w) (w_stderr w).
Definition w_print (s : string) (w : world) : world :=
  World (w_files w) (w_erase w) (w_mem w) (w_stdout w ++ [s]) (w_stderr w).
Definition w_error (s : string) (w : world) : world :=
  World (w_files w) (w_erase w) (w_mem w) (w_stdout w) (w_stderr w ++ [s]).

Abbreviation W := (M world).

Definition w_malloc : W bool := λ w,
  match w_mem w with
  | ok :: rest => Done (ok, w_set_mem rest w)
  | [] => Done (true, w)
  end.
Definition stat_mode (name : string) : W (option Z) := mgets (λ w, nd_mode <$> w_files w !! name).

Definition S_IFBLK : Z := 0x6000.
Definition S_IFREG : Z := 0x8000.
Definition PAGE : nat := 4096.

(** The text of a file, as [fgets] into an array of [PATH_MAX] characters
    gives it line by line; a line ends for the string functions at a 0. *)
Definition text_of (l : list ascii) : string := String.string_of_list_ascii l.
Definition line_of (l : list ascii) : string := default (text_of l) (cstr_of l).
Fixpoint lines_f (n : nat) (text : string) : list string :=
  match n, text with
  | S n, String _ _ =>
      let '(l, rest) := fgets_take (PATH_MAX - 1) text in
      line_of l :: lines_f n rest
  | _, _ => []
  end.
Definition file_lines (nd : node) : list string :=
  lines_f (S (length (nd_data nd))) (text_of (nd_data nd)).

(** [strstr(s, pat) != NULL]. *)
Fixpoint contains (pat s : string) : bool :=
  String.prefix pat s || match s with String _ r => contains pat r | EmptyString => false end.

(** ** [sscanf(dev, "mtd%d: %08x", &i, &esz)] *)

Fixpoint take_digits (base : Z) (s : string) : string * string :=
  match s with
  | String c r =>
      if bool_decide (is_Some (digit_in base c)) then let '(a, b) := take_digits base r in (String c a, b)
      else (EmptyString, s)
  | EmptyString => (EmptyString, EmptyString)
  end.
Definition take_sign (s : string) : bool * string :=
  if isc (char_at s) "-" then (true, tail_of s)
  else if isc (char_at s) "+" then (false, tail_of s) else (false, s).
(** A number in this base, and the text behind it. *)
Definition scan_number (base : Z) (s : string) : option (Z * string) :=
  let '(neg, s) := take_sign (skip_space s) in
  let '(digits, rest) := take_digits base (skip_0x base s) in
  match digits with
  | EmptyString => None
  | _ => let v := digits_val base 0 digits in Some (wrap32 (if neg then - v else v)%Z, rest)
  end.
Definition take_prefix (pat s : string) : option string :=
  if String.prefix pat s then Some (String.substring (String.length pat) (String.length s) s) else None.
(** The numbers that are read; [None]: [sscanf] returns 0. *)
Definition sscanf_mtd (dev : string) : option (Z * option Z) :=
  let? s := take_prefix "mtd" dev in
  let? (i, s) := scan_number 10 s in
  Some (i, let? s := take_prefix ":" s in
           let? (esz, _) := scan_number 16 (String.substring 0 8 (skip_space s)) in Some esz).

Section Cli.
(** Whether [char] is signed; the address [mmap] returns; which files can be
    mapped; the values of [int i, esz] before they are set; [%.2f] of the
    share in use. *)
Context (signed_char : bool) (map_addr : Z) (mappable : string → bool) (i0 esz0 : Z) (percent : Z → string).

(** ** The device *)

Definition is_blk (dev : string) : W bool :=
  let! mode := stat_mode dev in
  mreturn (match mode with Some m => negb (Z.land m S_IFBLK =? 0)%Z | None => false end).

(** The device of this number, under one of its two names; [malloc] may fail. *)
Definition mtd_path (i : Z) : W (option string) :=
  let try (dev : string) := let! ok := w_malloc in mreturn (if ok then Some dev else None) in
  let dev := "/dev/mtdblock/" +:+ print_d i in
  let! blk := is_blk dev in
  if blk then try dev
  else
    let dev := "/dev/mtdblock" +:+ print_d i in
    let! blk := is_blk dev in
    if blk then try dev else mreturn None.

Fixpoint find_mtd_f (lines : list string) (i esz : Z) : W (option string) :=
  match lines with
  | [] => mreturn None
  | dev :: lines =>
      if contains "nvram" dev then
        match sscanf_mtd dev with
        | Some (i, o) =>
            let esz := default esz o in
            do! mmodify (w_set_erase (u32 esz)) in
            let! path := mtd_path i in
            match path with Some path => mreturn (Some path) | None => find_mtd_f lines i esz end
        | None => find_mtd_f lines i esz
        end
      else find_mtd_f lines i esz
  end.

Definition nvram_find_mtd : W (option string) :=
  let! model := mgets (λ w, w_files w !! "/proc/diag/model"%string) in
  let supported :=
    match model with
    | Some nd => match file_lines nd with dev :: _ => negb (String.prefix "Netgear WGT634U" dev) | [] => true end
    | None => true
    end in
  if supported then
    let! mtd := mgets (λ w, w_files w !! "/proc/mtd"%string) in
    match mtd with Some nd => find_mtd_f (file_lines nd) i0 esz0 | None => mreturn None end
  else mreturn None.

(** ** The staging file *)

Definition nvram_find_staging : W (option string) :=
  let! mode := stat_mode NVRAM_STAGING in
  mreturn (match mode with
           | Some m => if negb (Z.land m S_IFREG =? 0)%Z then Some NVRAM_STAGING else None
           | None => None
           end).

(** [write] at the start of a file. *)
Definition write_over (old buf : list ascii) : list ascii := buf ++ drop (length buf) old.
(** [read(fd, buf, sizeof(buf)) == sizeof(buf)]. *)
Definition read_buf (name : string) : W (option (list ascii)) := mgets (λ w,
  let n := Z.to_nat (w_erase w) in
  match w_files w !! name with
  | Some nd => if (n <=? length (nd_data nd))%nat then Some (take n (nd_data nd)) else None
  | None => None
  end).

(** 0 on success, as the C function. *)
Definition nvram_to_staging : W Z :=
  let! mtd := nvram_find_mtd in
  let! erase := mgets w_erase in
  match mtd with
  | Some mtd =>
      if (0 <? erase)%Z then
        let! buf := read_buf mtd in
        match buf with
        | Some buf =>
            do! mmodify (λ w,
              let old := w_files w !! NVRAM_STAGING in
              let mode := from_option nd_mode (Z.lor S_IFREG 0x180) old in
              w_set_files (<[NVRAM_STAGING := Node mode (write_over (from_option nd_data [] old) buf)]> (w_files w)) w) in
            mreturn 0%Z
        | None => mreturn (-1)%Z
        end
      else mreturn (-1)%Z
  | None => mreturn (-1)%Z
  end.

Definition staging_to_nvram : W Z :=
  let! mtd := nvram_find_mtd in
  let! erase := mgets w_erase in
  match mtd with
  | Some mtd =>
      if (0 <? erase)%Z then
        let! buf := read_buf NVRAM_STAGING in
        let! node := mgets (λ w, w_files w !! mtd) in
        match buf, node with
        | Some buf, Some nd =>
            do! mmodify (λ w, w_set_files (delete NVRAM_STAGING
                  (<[mtd := Node (nd_mode nd) (write_over (nd_data nd) buf)]> (w_files w))) w) in
            mreturn 0%Z
        | _, _ => mreturn (-1)%Z
        end
      else mreturn (-1)%Z
  | None => mreturn (-1)%Z
  end.

(** ** Handles *)

(** A handle with the file it maps: [None] for [MAP_PRIVATE]. *)
Record handle : Set := Handle { ha_nv : nvram; ha_file : option string }.

(** [mmap] of [n] bytes: the rest of the last page reads as 0, what is behind
    it cannot be used. *)
Definition mapped (l : list ascii) (n : nat) : option (list ascii) :=
  let pages := ((length l + PAGE - 1) / PAGE * PAGE)%nat in
  if (n <=? pages)%nat then Some (take n (l ++ repeat NUL (pages - length l))) else None.

(** What [munmap] of a shared mapping leaves in the file: the bytes that are
    inside the file. *)
Definition munmap (h : handle) : W () := mmodify (λ w,
  match ha_file h with
  | None => w
  | Some file =>
      match w_files w !! file with
      | None => w
      | Some nd =>
          let l := nv_mmap (ha_nv h) in
          let n := length (nd_data nd) in
          w_set_files (<[file := Node (nd_mode nd) (take n l ++ drop (length l) (nd_data nd))]> (w_files w)) w
      end
  end).

(** A function of the library on a handle. *)
Definition with_handle {A} (m : N A) (h : handle) : W (A * handle) := λ w,
  match m (nv_set_mem (w_mem w) (ha_nv h)) with
  | Done (a, nv) => Done ((a, Handle nv (ha_file h)), w_set_mem (nv_mem nv) w)
  | Crash => Crash
  | NoFuel => NoFuel
  end.

Definition nvram_open (file : option string) (rdonly : bool) : W (option handle) :=
  let! erase := mgets w_erase in
  let! (ok, mtd) :=
    if (erase =? 0)%Z || bool_decide (file = None) then
      let! mtd := nvram_find_mtd in
      let! erase := mgets w_erase in
      mreturn (bool_decide (is_Some mtd) && negb (erase =? 0)%Z, mtd)
    else mreturn (true, None) in
  if negb ok then mreturn None
  else
    let! name := mderef (match file with Some f => Some f | None => mtd end) in
    let! node := mgets (λ w, w_files w !! name) in
    match node with
    | None => mreturn None
    | Some nd =>
        if negb (mappable name) then mreturn None
        else
          let! erase := mgets w_erase in
          let! area := mderef (mapped (nd_data nd) (Z.to_nat erase)) in
          let h := Handle (Nvram ∅ [] area map_addr erase []) (if rdonly then None else Some name) in
          let! (_, h) := with_handle (memset 0 0xFF (NVRAM_START erase)) h in
          let! ok := w_malloc in
          if negb ok then do! munmap h in mreturn None
          else
            let! (magic, h) := with_handle (let! header := nvram_header in get32 (header + magic_at)) h in
            if (magic =? NVRAM_MAGIC)%Z then
              let! (_, h) := with_handle (_nvram_rehash signed_char) h in
              mreturn (Some h)
            else do! munmap h in mreturn None
    end.

Definition nvram_close (h : handle) : W Z :=
  let! (_, h) := with_handle _nvram_free h in
  do! munmap h in
  mreturn 0%Z.

(** ** The command *)

Definition nvram_open_rdonly : W (option handle) :=
  let! file := nvram_find_staging in
  let! file := match file with Some _ => mreturn file | None => nvram_find_mtd end in
  match file with Some _ => nvram_open file true | None => mreturn None end.

Definition nvram_open_staging : W (option handle) :=
  let! staging := nvram_find_staging in
  let! ok := match staging with
             | Some _ => mreturn true
             | None => let! r := nvram_to_staging in mreturn (r =? 0)%Z
             end in
  if ok then nvram_open (Some NVRAM_STAGING) false else mreturn None.

Definition print_line (s : string) : W () := mmodify (w_print (ln s)).

Definition do_show (h : handle) : W (Z * handle) :=
  let! (l, h) := with_handle nvram_getall h in
  do! miter (λ t, let! value := mderef (tu_value t) in print_line (tu_name t +:+ "=" +:+ value)) l in
  mreturn (match l with [] => 1 | _ => 0 end, h)%Z.

Definition do_get (h : handle) (var : string) : W (Z * handle) :=
  let! (val, h) := with_handle (nvram_get signed_char (Some var)) h in
  match val with
  | Some val => do! print_line val in mreturn (0%Z, h)
  | None => mreturn (1%Z, h)
  end.

Definition do_unset (h : handle) (var : string) : W (Z * handle) :=
  with_handle (nvram_unset signed_char (Some var)) h.

Definition do_set (h : handle) (pair : string) : W (Z * handle) :=
  match break_at (λ c, isc c "=") pair with
  | (var, String _ val) => with_handle (nvram_set signed_char var val) h
  | (_, EmptyString) => mreturn (1%Z, h)
  end.

Definition do_info (h : handle) : W (Z * handle) :=
  let! ((magic, len, crc_ver_init, config_refresh, config_ncdl, crc), h) := with_handle (
    let! hdr := nvram_header in
    let! magic := get32 (hdr + magic_at) in
    let! len := get32 (hdr + len_at) in
    let! crc_ver_init := get32 (hdr + crc_ver_init_at) in
    let! config_refresh := get32 (hdr + config_refresh_at) in
    let! config_ncdl := get32 (hdr + config_ncdl_at) in
    let! data := bytes_at (hdr + NVRAM_CRC_START_POSITION) in
    let! crc := mderef (hndcrc8 data (Z.to_nat (u32 (len - Z.of_nat NVRAM_CRC_START_POSITION))) 0xff) in
    mreturn (magic, len, crc_ver_init, config_refresh, config_ncdl, crc)) h in
  do! print_line ("Magic:         0x" +:+ print_X 8 magic) in
  do! print_line ("Length:        0x" +:+ print_X 8 len) in
  do! print_line ("CRC8:          0x" +:+ print_X 2 (Z.land crc_ver_init 0xFF) +:+
                  " (calculated: 0x" +:+ print_X 2 crc +:+ ")") in
  do! print_line ("Version:       0x" +:+ print_X 2 (Z.land (Z.shiftr crc_ver_init 8) 0xFF)) in
  do! print_line ("SDRAM init:    0x" +:+ print_X 4 (Z.land (Z.shiftr crc_ver_init 16) 0xFFFF)) in
  do! print_line ("SDRAM config:  0x" +:+ print_X 4 (Z.land config_refresh 0xFFFF)) in
  do! print_line ("SDRAM refresh: 0x" +:+ print_X 4 (Z.land (Z.shiftr config_refresh 16) 0xFFFF)) in
  do! print_line (ln ("NCDL values:   0x" +:+ print_X 8 config_ncdl)) in
  do! print_line (print_d (wrap32 len) +:+ " bytes used / " +:+ print_d (wrap32 (NVRAM_SPACE - len)) +:+
                  " bytes available (" +:+ percent len +:+ "%)") in
  mreturn (0%Z, h).

(** [argv[i]]; the pointer behind the last argument is [NULL], and [strcmp]
    must not be given it. *)
Definition arg (argv : list string) (i : nat) : W string := mderef (argv !! i).

(** [!strcmp(argv[i], cmd) && ++i < argc]: the new [i] and the result. *)
Definition takes (argv : list string) (i : nat) (cmd : string) : W (nat * bool) :=
  let! a := arg argv i in
  if decide (a = cmd) then mreturn (S i, (S i <? length argv)%nat) else mreturn (i, false).

(** Whether a write can be expected. *)
Fixpoint expect_write (n : nat) (argv : list string) (i : nat) : W bool :=
  match n with
  | O => mnofuel
  | S n =>
      if negb (i <? length argv)%nat then mreturn false
      else
        let! (i, b) := takes argv i "set" in
        if b then mreturn true
        else
          let! (i, b) := takes argv i "unset" in
          if b then mreturn true
          else
            let! a := arg argv i in
            if decide (a = "commit"%string) then mreturn true else expect_write n argv (S i)
  end.

(** The variables of the loop over the commands. *)
Record progress : Set := Progress { pg_h : handle; pg_stat : Z; pg_commit : bool; pg_done : Z }.

Definition did (p : progress) (r : Z * handle) : progress := Progress r.2 r.1 (pg_commit p) (pg_done p + 1).

Fixpoint commands (n : nat) (argv : list string) (i : nat) (p : progress) : W progress :=
  match n with
  | O => mnofuel
  | S n =>
      if negb (i <? length argv)%nat then mreturn p
      else
        let go i r := commands n argv (S i) (did p r) in
        let! a := arg argv i in
        if decide (a = "show"%string) then let! r := do_show (pg_h p) in go i r
        else if decide (a = "info"%string) then let! r := do_info (pg_h p) in go i r
        else
          let! (i, b) := takes argv i "get" in
          if b then let! a := arg argv i in let! r := do_get (pg_h p) a in go i r
          else
            let! (i, b) := takes argv i "unset" in
            if b then let! a := arg argv i in let! r := do_unset (pg_h p) a in go i r
            else
              let! (i, b) := takes argv i "set" in
              if b then let! a := arg argv i in let! r := do_set (pg_h p) a in go i r
              else
                let! a := arg argv i in
                if decide (a = "commit"%string) then
                  commands n argv (S i) (Progress (pg_h p) (pg_stat p) true (pg_done p + 1))
                else
                  do! mmodify (w_error (ln ("Unknown option '" +:+ a +:+ "' !"))) in
                  mreturn (Progress (pg_h p) (pg_stat p) (pg_commit p) 0)
  end.

Definition could_not_open : string :=
  ln "Could not open nvram! Possible reasons are:" +:+
  ln "	- No device found (/proc not mounted or no nvram present)" +:+
  ln "	- Insufficient permissions to open mtd device" +:+
  ln "	- Insufficient memory to complete operation" +:+
  ln "	- Memory mapping failed or not supported".
Definition usage : string :=
  ln "Usage:" +:+ ln "	nvram show" +:+ ln "	nvram info" +:+ ln "	nvram get variable" +:+
  ln "	nvram set variable=value [set ...]" +:+ ln "	nvram unset variable [unset ...]" +:+ ln "	nvram commit".

(** [argv] starts with the name of the program. *)
Definition main (argv : list string) : W Z :=
  let n := S (length argv) in
  let! write := expect_write n argv 1 in
  let! nvram := if write then nvram_open_staging else nvram_open_rdonly in
  match nvram with
  | None => do! mmodify (w_error could_not_open) in mreturn 1%Z
  | Some h =>
      let! (stat, done) :=
        if (1 <? length argv)%nat then
          let! p := commands n argv 1 (Progress h 1 false 0) in
          let! (stat, h) :=
            if write then with_handle (nvram_commit signed_char) (pg_h p)
            else mreturn (pg_stat p, pg_h p) in
          let! _ := nvram_close h in
          let! stat := if pg_commit p then staging_to_nvram else mreturn stat in
          mreturn (stat, pg_done p)
        else mreturn (1%Z, 0%Z) in
      if (done =? 0)%Z then do! mmodify (w_error usage) in mreturn 1%Z
      else mreturn stat
  end.
End Cli.
