(* ===== verification/NvramFacts.v ===== *)
(** * The hash table of the NVRAM library

    The table is a finite map from names to values; the functions that set,
    get and remove a variable act on it as on a map. *)
From S2P Require Import Prelude CLib CStr NvCrc Nvram.
From Stdlib Require Import Ascii.
Open Scope pr30_scope.

(** ** Chains *)

Lemma find_tuple_app l name :
  match find_tuple l name with
  | (before, Some (t, after)) => l = before ++ t :: after ∧ tu_name t = name ∧ ∀ u, u ∈ before → tu_name u ≠ name
  | (before, None) => before = l ∧ ∀ u, u ∈ l → tu_name u ≠ name
  end.
Proof.
  induction l as [|t l IH]; simpl; [split; [done|]; by intros u ?%elem_of_nil|].
  case_decide as D; [split_and!; [done..|]; by intros u ?%elem_of_nil|].
  destruct (find_tuple l name) as [before [[u after]|]].
  - destruct IH as (-> & En & Hb). split_and!; [done..|]. intros v [->|Hv]%elem_of_cons; auto.
  - destruct IH as (-> & Hb). split; [done|]. intros v [->|Hv]%elem_of_cons; auto.
Qed.

(** The value of the first tuple with a name. *)
Definition chain_value (l : list nvram_tuple) (name : string) : option string :=
  match find_tuple l name with (_, Some (t, _)) => tu_value t | (_, None) => None end.

Lemma chain_value_cons t l name : chain_value (t :: l) name = if decide (tu_name t = name) then tu_value t else chain_value l name.
Proof.
  unfold chain_value. simpl. case_decide; [done|]. by destruct (find_tuple l name) as [b [[u a]|]].
Qed.
Lemma chain_value_app l1 l2 name : (∀ t, t ∈ l1 → tu_name t ≠ name) → chain_value (l1 ++ l2) name = chain_value l2 name.
Proof.
  induction l1 as [|t l1 IH]; intros H; [done|]. rewrite <-app_comm_cons, chain_value_cons.
  rewrite decide_False by (apply H; by left). apply IH. intros u Hu. apply H. by right.
Qed.
Lemma chain_value_none l name : (∀ t, t ∈ l → tu_name t ≠ name) → chain_value l name = None.
Proof. intros H. rewrite <-(app_nil_r l), chain_value_app by done. done. Qed.
Lemma chain_value_swap l1 t u l2 name : tu_name t = tu_name u → tu_name t ≠ name →
  chain_value (l1 ++ t :: l2) name = chain_value (l1 ++ u :: l2) name.
Proof.
  intros E N. induction l1 as [|x l1 IH].
  - rewrite !app_nil_l, !chain_value_cons, !decide_False by congruence. done.
  - rewrite <-!app_comm_cons, !chain_value_cons, IH. done.
Qed.
Lemma chain_value_drop l1 t l2 name : tu_name t ≠ name → chain_value (l1 ++ t :: l2) name = chain_value (l1 ++ l2) name.
Proof.
  intros N. induction l1 as [|x l1 IH].
  - by rewrite !app_nil_l, chain_value_cons, decide_False.
  - by rewrite <-!app_comm_cons, !chain_value_cons, IH.
Qed.
(** Without duplicates a tuple of the list is the one that is found. *)
Lemma chain_value_elem l t : NoDup (tu_name <$> l) → t ∈ l → chain_value l (tu_name t) = tu_value t.
Proof.
  induction l as [|u l IH]; intros Nd Ht; [by apply elem_of_nil in Ht|]. rewrite chain_value_cons.
  rewrite fmap_cons in Nd. apply NoDup_cons in Nd as [Nu Nd]. apply elem_of_cons in Ht as [->|Ht].
  - by rewrite decide_True.
  - rewrite decide_False; [by apply IH|]. intros E. apply Nu. rewrite E. by apply list_elem_of_fmap_2.
Qed.

(** ** The table *)

Section Table.
Context (signed_char : bool).
#[local] Abbreviation bucket_of := (bucket_of signed_char).
#[local] Abbreviation nvram_get := (nvram_get signed_char).
#[local] Abbreviation nvram_set := (nvram_set signed_char).
#[local] Abbreviation nvram_unset := (nvram_unset signed_char).

Lemma bucket_lt name : (bucket_of name < NVRAM_HASH)%nat.
Proof.
  unfold Nvram.bucket_of. change (Z.of_nat NVRAM_HASH) with 257%Z.
  pose proof (Z.mod_pos_bound (hash signed_char name) (257 * 4) ltac:(lia)).
  assert (hash signed_char name mod (257 * 4) / 4 < 257)%Z by (apply Z.div_lt_upper_bound; lia).
  assert (0 ≤ hash signed_char name mod (257 * 4) / 4)%Z by (apply Z.div_pos; lia). unfold NVRAM_HASH. lia.
Qed.

(** Every tuple is in the chain of its name and has a value, and no name is
    there twice. *)
Record table_ok (h : nvram) : Prop := {
  to_home : ∀ i t, t ∈ chain_at h i → bucket_of (tu_name t) = i;
  to_once : ∀ i, NoDup (tu_name <$> chain_at h i);
  to_value : ∀ i t, t ∈ chain_at h i → is_Some (tu_value t);
}.

(** The variable [name]. *)
Definition var (h : nvram) (name : string) : option string := chain_value (chain_at h (bucket_of name)) name.

Lemma nvram_get_run name h : nvram_get (Some name) h = Done (var h name, h).
Proof. done. Qed.

Lemma chain_put i l h j : chain_at (nv_set_hash (<[i := l]> (nv_hash h)) h) j = if decide (i = j) then l else chain_at h j.
Proof.
  unfold chain_at. simpl. case_decide as D; [subst; by rewrite lookup_insert_eq|by rewrite lookup_insert_ne].
Qed.

(** What may be said of a handle apart from the table. *)
Definition same_image (h h' : nvram) : Prop :=
  nv_mmap h' = nv_mmap h ∧ nv_base h' = nv_base h ∧ nv_erase h' = nv_erase h.

(** [h'] is [h] with [name] set to [o]. *)
Definition updated (h : nvram) (name : string) (o : option string) (h' : nvram) : Prop :=
  table_ok h' ∧ same_image h h' ∧ nv_mem h' = nv_mem h ∧ ∀ n, var h' n = if decide (n = name) then o else var h n.

Lemma table_replace h i before t after u h' :
  table_ok h → chain_at h i = before ++ t :: after → tu_name u = tu_name t → is_Some (tu_value u) →
  (∀ j, chain_at h' j = if decide (i = j) then before ++ u :: after else chain_at h j) →
  table_ok h' ∧ ∀ n, var h' n = if decide (n = tu_name t) then tu_value u else var h n.
Proof.
  intros [Ho On Vl] E En Vu Ch.
  assert (Hi : bucket_of (tu_name t) = i) by (apply Ho; rewrite E; apply elem_of_app; right; by left).
  assert (Names : tu_name <$> (before ++ u :: after) = tu_name <$> chain_at h i)
    by (rewrite E, !fmap_app, !fmap_cons, En; done).
  split.
  - split.
    + intros j x. rewrite Ch. case_decide as D; [subst j|apply Ho].
      intros Hx. assert (Hn : tu_name x ∈ tu_name <$> chain_at h i) by (rewrite <-Names; by apply list_elem_of_fmap_2).
      apply list_elem_of_fmap in Hn as (y & Ey & Hy). rewrite Ey. by apply Ho.
    + intros j. rewrite Ch. case_decide as D; [|apply On]. rewrite Names. apply On.
    + intros j x. rewrite Ch. case_decide as D; [|apply Vl]. intros [Hx|[->|Hx]%elem_of_cons]%elem_of_app; [|done|].
      * apply (Vl i). rewrite E. apply elem_of_app. by left.
      * apply (Vl i). rewrite E. apply elem_of_app. right. by right.
  - intros n. unfold var. rewrite Ch. case_decide as D.
    + rewrite <-D, E. case_decide as Dn.
      * subst n. pose proof (On i) as Nd. rewrite <-Names in Nd. rewrite <-En.
        apply chain_value_elem; [done|]. apply elem_of_app. right. by left.
      * apply chain_value_swap; congruence.
    + rewrite decide_False; [done|]. intros ->. by rewrite Hi in D.
Qed.

Lemma table_add h i u h' :
  table_ok h → bucket_of (tu_name u) = i → is_Some (tu_value u) → (∀ t, t ∈ chain_at h i → tu_name t ≠ tu_name u) →
  (∀ j, chain_at h' j = if decide (i = j) then u :: chain_at h i else chain_at h j) →
  table_ok h' ∧ ∀ n, var h' n = if decide (n = tu_name u) then tu_value u else var h n.
Proof.
  intros [Ho On Vl] Hi Vu Nu Ch. split; [split|].
  - intros j x. rewrite Ch. case_decide as D; [subst j|apply Ho]. intros [->|Hx]%elem_of_cons; auto.
  - intros j. rewrite Ch. case_decide as D; [|apply On]. rewrite fmap_cons. apply NoDup_cons. split; [|apply On].
    intros (t & E & Ht)%list_elem_of_fmap. by apply (Nu t).
  - intros j x. rewrite Ch. case_decide as D; [|apply Vl]. intros [->|Hx]%elem_of_cons; [done|]. by apply (Vl i).
  - intros n. unfold var. rewrite Ch. case_decide as D.
    + rewrite chain_value_cons, D. destruct (decide (tu_name u = n)), (decide (n = tu_name u)); congruence.
    + rewrite decide_False; [done|]. intros ->. congruence.
Qed.

Lemma table_remove h i before t after h' :
  table_ok h → chain_at h i = before ++ t :: after →
  (∀ j, chain_at h' j = if decide (i = j) then before ++ after else chain_at h j) →
  table_ok h' ∧ ∀ n, var h' n = if decide (n = tu_name t) then None else var h n.
Proof.
  intros [Ho On Vl] E Ch.
  assert (Hi : bucket_of (tu_name t) = i) by (apply Ho; rewrite E; apply elem_of_app; right; by left).
  assert (Nd : NoDup (tu_name <$> (before ++ after)) ∧ ∀ x, x ∈ before ++ after → tu_name x ≠ tu_name t).
  { pose proof (On i) as Nd. rewrite E, !fmap_app, fmap_cons in Nd. apply NoDup_app in Nd as (N1 & N2 & N3).
    apply NoDup_cons in N3 as [N4 N3]. rewrite fmap_app. split.
    - apply NoDup_app. split_and!; [done| |done]. intros x Hx Hx'. apply (N2 x Hx). by right.
    - intros x [Hx|Hx]%elem_of_app Ex.
      + apply (N2 (tu_name x)); [by apply list_elem_of_fmap_2|]. rewrite Ex. by left.
      + apply N4. rewrite <-Ex. by apply list_elem_of_fmap_2. }
  destruct Nd as [Nd Nt]. split; [split|].
  - intros j x. rewrite Ch. case_decide as D; [subst j|apply Ho]. intros Hx. apply Ho. rewrite E.
    apply elem_of_app in Hx as [Hx|Hx]; apply elem_of_app; [by left|right; by right].
  - intros j. rewrite Ch. case_decide as D; [done|apply On].
  - intros j x. rewrite Ch. case_decide as D; [|apply Vl]. intros Hx. apply (Vl i). rewrite E.
    apply elem_of_app in Hx as [Hx|Hx]; apply elem_of_app; [by left|right; by right].
  - intros n. unfold var. rewrite Ch. case_decide as D.
    + rewrite <-D, E. case_decide as Dn; [subst n; by apply chain_value_none|]. symmetry. apply chain_value_drop. congruence.
    + rewrite decide_False; [done|]. intros ->. by rewrite Hi in D.
Qed.

(** ** Setting and removing *)

(** With memory left, a value that fits is stored. *)
Lemma nvram_set_run name value h :
  table_ok h → nv_mem h = [] → (Z.of_nat (String.length value) + 1 <= NVRAM_SPACE)%Z →
  ∃ h', nvram_set name value h = Done (0%Z, h') ∧ updated h name (Some value) h'.
Proof.
  intros To Hm Hl. unfold Nvram.nvram_set. rewrite (mthen_done (mgets _) _ _ (chain_at h (bucket_of name)) h) by done.
  pose proof (find_tuple_app (chain_at h (bucket_of name)) name) as F.
  destruct (find_tuple (chain_at h (bucket_of name)) name) as [before [[t after]|]].
  - destruct F as (E & En & Nb). cbn [fst fmap option_fmap option_map].
    assert (R : _nvram_realloc (Some t) name value h = Done ((Tuple (tu_name t) (Some value), true), h)).
    { unfold _nvram_realloc. rewrite (proj2 (Z.ltb_ge _ _) Hl). cbn [default from_option id].
      rewrite (mthen_done (mreturn true) _ _ true h) by done. cbn [negb].
      case_bool_decide as D; [by destruct t; simpl in D |- *; subst|].
      rewrite (mthen_done malloc _ _ true h) by (unfold malloc; by rewrite Hm). done. }
    rewrite (mthen_done _ _ _ _ _ R). eexists. split; [done|].
    destruct (table_replace h (bucket_of name) before t after (Tuple (tu_name t) (Some value))
      (nv_set_hash (<[bucket_of name := before ++ Tuple (tu_name t) (Some value) :: after]> (nv_hash h)) h) To E eq_refl ltac:(by eexists))
      as [To' V]; [intros j; apply chain_put|].
    split_and!; [done..|]. intros n. rewrite V, En. done.
  - destruct F as (_ & Nn). cbn [fmap option_fmap option_map].
    assert (R : _nvram_realloc None name value h = Done ((Tuple name (Some value), true), h)).
    { unfold _nvram_realloc. rewrite (proj2 (Z.ltb_ge _ _) Hl). cbn [default from_option id].
      rewrite (mthen_done malloc _ _ true h) by (unfold malloc; by rewrite Hm). cbn [negb tu_value].
      rewrite bool_decide_eq_false_2 by done.
      rewrite (mthen_done malloc _ _ true h) by (unfold malloc; by rewrite Hm). done. }
    rewrite (mthen_done _ _ _ _ _ R). eexists. split; [done|].
    destruct (table_add h (bucket_of name) (Tuple name (Some value))
      (nv_set_hash (<[bucket_of name := Tuple name (Some value) :: chain_at h (bucket_of name)]> (nv_hash h)) h) To eq_refl ltac:(by eexists))
      as [To' V]; [done|intros j; apply chain_put|].
    split_and!; [done..|]. exact V.
Qed.

Lemma nvram_unset_run name h : table_ok h →
  ∃ h', nvram_unset (Some name) h = Done (0%Z, h') ∧ updated h name None h'.
Proof.
  intros To. unfold Nvram.nvram_unset. rewrite (mthen_done (mgets _) _ _ (chain_at h (bucket_of name)) h) by done.
  pose proof (find_tuple_app (chain_at h (bucket_of name)) name) as F.
  destruct (find_tuple (chain_at h (bucket_of name)) name) as [before [[t after]|]].
  - destruct F as (E & En & Nb). eexists. split; [done|].
    destruct (table_remove h (bucket_of name) before t after
      (nv_set_dead (t :: nv_dead h) (nv_set_hash (<[bucket_of name := before ++ after]> (nv_hash h)) h)) To E)
      as [To' V]; [intros j; apply (chain_put (bucket_of name))|].
    split_and!; [done..|]. intros n. rewrite V, En. done.
  - destruct F as (_ & Nn). exists h. split; [done|]. split_and!; [done..|].
    intros n. case_decide as D; [|done]. subst n. by apply chain_value_none.
Qed.

Lemma freed_ok h : table_ok (nv_set_dead [] (nv_set_hash ∅ h)) ∧ ∀ n, var (nv_set_dead [] (nv_set_hash ∅ h)) n = None.
Proof.
  split; [split|done].
  - intros i t Ht. by apply elem_of_nil in Ht.
  - intros i. apply NoDup_nil. done.
  - intros i t Ht. by apply elem_of_nil in Ht.
Qed.
End Table.
