(* ===== verification/NvramImage.v ===== *)
(** * The image of the NVRAM variables

    What the loops over the image read and write: [name=value] entries, each
    ended by a 0, and a further 0 behind the last one. *)
From S2P Require Import Prelude CLib CStr NvCrc Nvram NvramFacts.
From Stdlib Require Import Ascii.
Open Scope pr30_scope.

Definition pair : Set := (string * string)%type.
Definition entry_bytes (x : pair) : list ascii := la (x.1 +:+ "=" +:+ x.2) ++ [NUL].
Definition entries (l : list pair) : list ascii := concat (map entry_bytes l).
Definition size_of (l : list pair) : nat := length (entries l).

Lemma entries_cons x l : entries (x :: l) = entry_bytes x ++ entries l.
Proof. done. Qed.
Lemma entries_app l l' : entries (l ++ l') = entries l ++ entries l'.
Proof. unfold entries. by rewrite map_app, concat_app. Qed.
Lemma entry_length x : length (entry_bytes x) = String.length x.1 + 1 + String.length x.2 + 1.
Proof. unfold entry_bytes. rewrite length_app, la_length, !string_length_app. simpl. lia. Qed.
Lemma size_cons x l : size_of (x :: l) = String.length x.1 + 1 + String.length x.2 + 1 + size_of l.
Proof. unfold size_of. rewrite entries_cons, length_app, entry_length. done. Qed.
Lemma size_app l l' : size_of (l ++ l') = size_of l + size_of l'.
Proof. unfold size_of. by rewrite entries_app, length_app. Qed.
Lemma entry_split x : entry_bytes x = la x.1 ++ "="%char :: la x.2 ++ [NUL].
Proof. unfold entry_bytes. rewrite !la_app. by rewrite <-app_assoc. Qed.

(** Names and values that an image can hold. *)
Definition pair_ok (x : pair) : Prop :=
  without [NUL; "="%char] x.1 = true ∧ without [NUL] x.2 = true ∧ (Z.of_nat (String.length x.2) + 1 <= NVRAM_SPACE)%Z.

(** The last entry for a name counts. *)
Fixpoint lookup_last (l : list pair) (name : string) : option string :=
  match l with
  | [] => None
  | (n, v) :: l => match lookup_last l name with Some w => Some w | None => if decide (n = name) then Some v else None end
  end.

Lemma lookup_last_none l name : name ∉ l.*1 → lookup_last l name = None.
Proof.
  induction l as [|[n v] l IH]; [done|]. rewrite fmap_cons, not_elem_of_cons. intros [N Nl]. simpl.
  rewrite IH by done. by rewrite decide_False.
Qed.
Lemma lookup_last_elem l n v : NoDup l.*1 → (n, v) ∈ l → lookup_last l n = Some v.
Proof.
  induction l as [|[m w] l IH]; [by intros _ ?%elem_of_nil|]. rewrite fmap_cons, NoDup_cons.
  intros [Nm Nd] [E|H]%elem_of_cons; simpl.
  - injection E as -> ->. rewrite lookup_last_none by done. by rewrite decide_True.
  - by rewrite (IH Nd H).
Qed.
Lemma lookup_last_inv l n v : lookup_last l n = Some v → (n, v) ∈ l.
Proof.
  induction l as [|[m w] l IH]; [done|]. simpl. destruct (lookup_last l n) as [u|].
  - intros [= ->]. right. by apply IH.
  - case_decide; [|done]. intros [= ->]. subst. by left.
Qed.

(** ** Access to the image *)

Lemma put_run a b c l h : nv_mmap h = a ++ b ++ c → length b = length l →
  put (length a) l h = Done ((), nv_set_mmap (a ++ l ++ c) h).
Proof.
  intros E L. unfold put. rewrite E. rewrite !length_app, L.
  rewrite (proj2 (Nat.leb_le _ _)) by lia. rewrite take_app_length.
  assert (D : drop (length a + length l) (a ++ b ++ c) = c); [|by rewrite D].
  rewrite app_assoc, <-L, <-length_app. apply drop_app_length.
Qed.
(** The same with the position given otherwise. *)
Lemma put_at p a b c l h : nv_mmap h = a ++ b ++ c → p = length a → length b = length l →
  put p l h = Done ((), nv_set_mmap (a ++ l ++ c) h).
Proof. intros E -> L. by apply (put_run a b). Qed.
Lemma string_at_run a s r h : nv_mmap h = a ++ la s ++ NUL :: r → without [NUL] s = true →
  string_at (length a) h = Done (s, h).
Proof. intros E Hs. unfold string_at. rewrite E, drop_app_length, cstr_of_app by done. done. Qed.
Lemma set_mmap_same h : nv_set_mmap (nv_mmap h) h = h.
Proof. by destruct h. Qed.
Lemma set_mmap_set l l' h : nv_set_mmap l (nv_set_mmap l' h) = nv_set_mmap l h.
Proof. done. Qed.

(** ** Words *)

Lemma digit_nonneg base c d : digit_in base c = Some d → (0 <= d)%Z.
Proof.
  unfold digit_in, digit_val, isdigit, islower, isupper. repeat case_match; intros; simplify_eq;
    repeat match goal with H : _ && _ = true |- _ => apply andb_true_iff in H as [?%Z.leb_le ?%Z.leb_le] end; lia.
Qed.
Lemma digits_val_nonneg base acc s : (0 < base)%Z → (0 <= acc)%Z → (0 <= digits_val base acc s)%Z.
Proof.
  intros Hb. revert acc. induction s as [|c s IH]; intros acc Ha; [done|]. cbn [digits_val].
  destruct (digit_in base c) as [d|] eqn:Hd; [|done]. apply IH. pose proof (digit_nonneg _ _ _ Hd). nia.
Qed.

Lemma code_char_of b : is_byte b → code (char_of b) = b.
Proof. intros [B1 B2]. unfold code, char_of. rewrite nat_ascii_embedding; lia. Qed.
Lemma code_byte c : is_byte (code c).
Proof. unfold is_byte, code. pose proof (nat_ascii_bounded c). lia. Qed.
Lemma land_255 v : Z.land v 255 = (v mod 256)%Z.
Proof. exact (Z.land_ones v 8 ltac:(done)). Qed.
Lemma lor_shift n x y : (0 <= n)%Z → (0 <= x < 2 ^ n)%Z → Z.lor x (Z.shiftl y n) = (x + 2 ^ n * y)%Z.
Proof.
  intros Hn Hx. set (z := Z.lor x (Z.shiftl y n)). assert (P : (0 < 2 ^ n)%Z) by lia.
  assert (M : (z mod 2 ^ n = x)%Z).
  { rewrite <-Z.land_ones by done. unfold z. rewrite Z.land_lor_distr_l, !Z.land_ones by done.
    rewrite Z.shiftl_mul_pow2, Z_mod_mult, Z.lor_0_r by done. by apply Z.mod_small. }
  assert (D : (z / 2 ^ n = y)%Z).
  { rewrite <-Z.shiftr_div_pow2 by done. unfold z. rewrite Z.shiftr_lor, Z.shiftr_shiftl_l by done.
    rewrite Z.shiftr_div_pow2, Z.div_small by done. by rewrite Z.sub_diag, Z.shiftl_0_r. }
  rewrite (Z.div_mod z (2 ^ n)) by lia. rewrite M, D. lia.
Qed.
Lemma lor_shift8 x y : is_byte x → Z.lor x (Z.shiftl y 8) = (x + 256 * y)%Z.
Proof. intros B. by apply (lor_shift 8). Qed.
Lemma byte_mod v : is_byte (v mod 256).
Proof. pose proof (Z.mod_pos_bound v 256). unfold is_byte. lia. Qed.
Lemma of_le32_le32 v : (0 <= v < 2 ^ 32)%Z → of_le32 (le32 v) = v.
Proof.
  intros Hv. unfold of_le32, le32. cbn [fold_right]. rewrite !land_255, !code_char_of by apply byte_mod.
  rewrite Z.shiftl_0_l, Z.lor_0_r, !lor_shift8 by apply byte_mod. rewrite !Z.shiftr_div_pow2 by done.
  change (2 ^ 8)%Z with 256%Z. change (2 ^ 16)%Z with (256 * 256)%Z. change (2 ^ 24)%Z with (256 * 256 * 256)%Z.
  rewrite <-!Z.div_div by done. set (v1 := (v / 256)%Z). set (v2 := (v1 / 256)%Z). set (v3 := (v2 / 256)%Z).
  pose proof (Z.div_mod v 256 ltac:(done)) as D1. pose proof (Z.div_mod v1 256 ltac:(done)) as D2.
  pose proof (Z.div_mod v2 256 ltac:(done)) as D3. fold v1 in D1. fold v2 in D2. fold v3 in D3.
  assert (v3 mod 256 = v3)%Z as ->; [|lia].
  apply Z.mod_small. unfold v3, v2, v1. rewrite !Z.div_div by done. split; [apply Z.div_pos; lia|].
  apply Z.div_lt_upper_bound; lia.
Qed.
Lemma get32_run p a v c h : nv_mmap h = a ++ le32 v ++ c → p = length a → (0 <= v < 2 ^ 32)%Z → get32 p h = Done (v, h).
Proof.
  intros E -> Hv. unfold get32. rewrite E, !length_app. change (length (le32 v)) with 4.
  rewrite (proj2 (Nat.leb_le _ _)) by lia. rewrite drop_app_length. change (take 4 (le32 v ++ c)) with (le32 v).
  by rewrite of_le32_le32.
Qed.

Section Image.
Context (signed_char : bool).
#[local] Abbreviation table_ok := (table_ok signed_char).
#[local] Abbreviation var := (var signed_char).
#[local] Abbreviation nvram_set := (nvram_set signed_char).
#[local] Abbreviation rehash_f := (rehash_f signed_char).

(** The table does not look at the image. *)
Lemma table_mmap h l : table_ok h → table_ok (nv_set_mmap l h).
Proof. intros [A B D]. by split. Qed.

(** ** Reading *)

(** One turn of the loop. *)
Lemma rehash_turn n a x r h :
  nv_mmap h = a ++ entry_bytes x ++ r → pair_ok x → table_ok h → nv_mem h = [] →
  ∃ h', rehash_f (S n) (length a) h = rehash_f n (length (a ++ entry_bytes x)) h' ∧
    updated signed_char h x.1 (Some x.2) h'.
Proof.
  destruct x as [name value]. intros E (Hn & Hv & Hl) To Hm. simpl in Hn, Hv, Hl. cbn [fst snd].
  rewrite entry_split in E. cbn [fst snd] in E.
  assert (E1 : nv_mmap h = a ++ la name ++ "="%char :: la value ++ NUL :: r) by (by rewrite E, <-!app_assoc; simpl; rewrite <-app_assoc).
  assert (Wn : without [NUL] name = true).
  { eapply without_weaken; [|exact Hn]. intros c ->%list_elem_of_singleton. by left. }
  cbn [Nvram.rehash_f]. destruct (nv_mmap h !! length a) as [c|] eqn:Hc.
  2: { apply lookup_ge_None in Hc. rewrite E1, length_app in Hc. rewrite length_app in Hc. simpl in Hc. lia. }
  rewrite (mthen_done (get8 _) _ _ c h) by (unfold get8; by rewrite Hc).
  assert (Nc : isc c NUL = false).
  { rewrite E1, lookup_app_r, Nat.sub_diag in Hc by done. apply isc_false. intros ->.
    destruct name as [|c0 name]; [discriminate Hc|]. injection Hc as ->. unfold without in Wn. simpl in Wn. discriminate Wn. }
  rewrite Nc. rewrite (mthen_done (strchr_at _ _) _ _ (Some (length a + String.length name)) h).
  2: { unfold strchr_at. rewrite E1, drop_app_length.
       by rewrite (scan_hit (λ x, isc x "=") [NUL; "="%char]) by (done || (intros c0 Hc0; split; [apply isc_false|]; intros ->; apply Hc0; [by right; left|by left])). }
  set (h1 := nv_set_mmap (a ++ la name ++ NUL :: la value ++ NUL :: r) h).
  replace (length a + String.length name) with (length (a ++ la name)) by (rewrite length_app, la_length; done).
  rewrite (mthen_done (put _ _) _ _ () h1).
  2: { rewrite (put_run (a ++ la name) ["="%char] (la value ++ NUL :: r)); [|by rewrite E1, <-app_assoc|done].
       by rewrite <-app_assoc. }
  rewrite (mthen_done (string_at (length a)) _ _ name h1) by (by eapply string_at_run).
  assert (Av : ∀ h2, nv_mmap h2 = a ++ la name ++ NUL :: la value ++ NUL :: r ∨ nv_mmap h2 = nv_mmap h →
    string_at (S (length (a ++ la name))) h2 = Done (value, h2)).
  { intros h2 Hh. assert (Eh : ∃ c0, nv_mmap h2 = (a ++ la name ++ [c0]) ++ la value ++ NUL :: r).
    { destruct Hh as [Eh|Eh]; [exists NUL|exists "="%char; rewrite E1 in Eh]; rewrite Eh, <-!app_assoc; done. }
    destruct Eh as [c0 Eh]. replace (S (length (a ++ la name))) with (length (a ++ la name ++ [c0]))
      by (rewrite !length_app; simpl; lia). by eapply string_at_run. }
  rewrite (mthen_done (string_at _) _ _ value h1) by (apply Av; by left).
  destruct (nvram_set_run signed_char name value h1) as (h2 & Es & To2 & (Em & Eb & Ee) & Mm & V); [by apply table_mmap|done|done|].
  rewrite (mthen_done _ _ _ _ _ Es). set (h3 := nv_set_mmap (nv_mmap h) h2).
  rewrite (mthen_done (put _ _) _ _ () h3).
  2: { rewrite (put_run (a ++ la name) [NUL] (la value ++ NUL :: r)); [|by rewrite Em; simpl; rewrite <-app_assoc|done].
       unfold h3. do 3 f_equal. by rewrite E1, <-app_assoc. }
  rewrite (mthen_done (string_at _) _ _ value h3) by (apply Av; by right).
  exists h3. split.
  - f_equal. rewrite !length_app, entry_length, !la_length. simpl. lia.
  - split_and!; [by apply table_mmap|done..|]. exact V.
Qed.

Lemma rehash_run n a l r h :
  nv_mmap h = a ++ entries l ++ NUL :: r → Forall pair_ok l → table_ok h → nv_mem h = [] → length l < n →
  ∃ h', rehash_f n (length a) h = Done ((), h') ∧ table_ok h' ∧ same_image h h' ∧ nv_mem h' = [] ∧
    ∀ x, var h' x = match lookup_last l x with Some v => Some v | None => var h x end.
Proof.
  revert n a h. induction l as [|x l IH]; intros n a h E Ok To Hm Hn; (destruct n as [|n]; [simpl in Hn; lia|]).
  - exists h. split; [|by split_and!]. cbn [Nvram.rehash_f].
    by rewrite (mthen_done (get8 _) _ _ NUL h) by (unfold get8; rewrite E; simpl; by rewrite lookup_here).
  - apply Forall_cons in Ok as [Ox Ok]. rewrite entries_cons in E.
    destruct (rehash_turn n a x (entries l ++ NUL :: r) h) as (h1 & E1 & To1 & I1 & M1 & V1); [by rewrite E, <-app_assoc|done..|].
    destruct I1 as (Em & Eb & Ee).
    destruct (IH n (a ++ entry_bytes x) h1) as (h2 & E2 & To2 & I2 & M2 & V2);
      [by rewrite Em, E, <-!app_assoc|done..|congruence|simpl in Hn; lia|].
    exists h2. rewrite E1. split_and!; [done..| |done|].
    + destruct I2 as (F1 & F2 & F3). split_and!; congruence.
    + intros y. rewrite V2. destruct x as [n0 v0]. simpl. destruct (lookup_last l y); [done|]. rewrite V1. simpl.
      destruct (decide (n0 = y)), (decide (y = n0)); congruence.
Qed.
End Image.
