(* ===== verification/NvramCommit.v ===== *)
(** * Committing the NVRAM variables

    What [nvram_commit] leaves in the image and in the table. *)
From S2P Require Import Prelude CLib CStr NvCrc Nvram NvramFacts NvramImage.
From Stdlib Require Import Ascii.
Open Scope pr30_scope.

(** ** Writing the tuples *)

Definition pairs_of (chain : list nvram_tuple) : list pair :=
  omap (λ t, (tu_name t,.) <$> tu_value t) chain.
Definition valued (chain : list nvram_tuple) : Prop := ∀ t, t ∈ chain → is_Some (tu_value t).

Lemma write_chain_run chain a b e h :
  nv_mmap h = a ++ b → valued chain → e ≤ length a + length b →
  ∃ l, write_chain chain (length a) e h =
      Done (length a + size_of l, nv_set_mmap (a ++ entries l ++ drop (size_of l) b) h) ∧
    l `sublist_of` pairs_of chain ∧ (length a ≤ e → length a + size_of l ≤ e) ∧
    (length a + size_of (pairs_of chain) ≤ e → l = pairs_of chain).
Proof.
  revert a b h. induction chain as [|t chain IH]; intros a b h E V He.
  { exists []. split_and!; [|done|unfold size_of; simpl; lia|done]. simpl. rewrite drop_0, <-E, set_mmap_same. by rewrite Nat.add_0_r. }
  destruct (V t) as [v Hv]; [by left|]. cbn [write_chain]. rewrite (mthen_done (mderef _) _ _ v h) by (by rewrite Hv).
  assert (Ep : pairs_of (t :: chain) = (tu_name t, v) :: pairs_of chain) by (unfold pairs_of; simpl; by rewrite Hv).
  rewrite Ep, size_cons. cbn [fst snd].
  destruct (Nat.ltb_spec e (length a + String.length (tu_name t) + 1 + String.length v + 1)) as [L|L].
  { exists []. split_and!; [|apply sublist_nil_l|unfold size_of; simpl; lia|lia].
    simpl. rewrite drop_0, <-E, set_mmap_same. by rewrite Nat.add_0_r. }
  set (x := (tu_name t, v)). set (s := length (entry_bytes x)).
  assert (Es : s = String.length (tu_name t) + 1 + String.length v + 1) by apply entry_length.
  assert (Lb : s ≤ length b) by lia.
  rewrite (mthen_done (put _ _) _ _ () (nv_set_mmap (a ++ entry_bytes x ++ drop s b) h)).
  2: { apply (put_run a (take s b)); [by rewrite take_drop|]. by rewrite length_take_le. }
  destruct (IH (a ++ entry_bytes x) (drop s b) (nv_set_mmap (a ++ entry_bytes x ++ drop s b) h)) as (l & El & Sl & Bl & Fl).
  - simpl. by rewrite <-app_assoc.
  - intros u Hu. apply V. by right.
  - rewrite length_app, length_drop. fold s. lia.
  - rewrite length_app in El, Bl, Fl. fold s in El, Bl, Fl. exists (x :: l).
    rewrite size_cons. cbn [fst snd x]. split_and!.
    + replace (length a + String.length (tu_name t +:+ "=" +:+ v) + 1) with (length a + s)
        by (rewrite !string_length_app; simpl; lia).
      rewrite El. rewrite entries_cons, drop_drop, <-!app_assoc.
      replace (s + size_of l) with (String.length (tu_name t) + 1 + String.length v + 1 + size_of l) by lia.
      do 2 f_equal. lia.
    + by apply sublist_skip.
    + intros _. specialize (Bl ltac:(lia)). lia.
    + intros F. rewrite Fl; [done|lia].
Qed.

(** All variables, in the order in which they are written. *)
Definition pairs_at (h : nvram) (ix : list nat) : list pair := concat (map (λ i, pairs_of (chain_at h i)) ix).
Definition all_pairs (h : nvram) : list pair := pairs_at h (seq 0 NVRAM_HASH).

Lemma write_tuples_run ix a b e h :
  nv_mmap h = a ++ b → (∀ i, valued (chain_at h i)) → e ≤ length a + length b →
  ∃ l, write_tuples ix (length a) e h =
      Done (length a + size_of l, nv_set_mmap (a ++ entries l ++ drop (size_of l) b) h) ∧
    l `sublist_of` pairs_at h ix ∧ (length a ≤ e → length a + size_of l ≤ e) ∧
    (length a + size_of (pairs_at h ix) ≤ e → l = pairs_at h ix).
Proof.
  revert a b h. induction ix as [|i ix IH]; intros a b h E V He.
  { exists []. split_and!; [|done|unfold size_of; simpl; lia|done]. simpl. rewrite drop_0, <-E, set_mmap_same. by rewrite Nat.add_0_r. }
  cbn [write_tuples]. rewrite (mthen_done (mgets _) _ _ (chain_at h i) h) by done.
  destruct (write_chain_run (chain_at h i) a b e h E (V i) He) as (l1 & E1 & S1 & B1 & F1).
  rewrite (mthen_done _ _ _ _ _ E1). set (h1 := nv_set_mmap (a ++ entries l1 ++ drop (size_of l1) b) h).
  assert (Lb : size_of l1 ≤ length b ∨ e < length a).
  { destruct (decide (length a ≤ e)) as [D|D]; [|right; lia]. left. specialize (B1 D). lia. }
  destruct (IH (a ++ entries l1) (drop (size_of l1) b) h1) as (l2 & E2 & S2 & B2 & F2).
  - unfold h1. simpl. by rewrite <-app_assoc.
  - done.
  - rewrite length_app, length_drop. fold (size_of l1). lia.
  - rewrite length_app in E2, B2, F2. fold (size_of l1) in E2, B2, F2. exists (l1 ++ l2). rewrite E2.
    change (pairs_at h (i :: ix)) with (pairs_of (chain_at h i) ++ pairs_at h ix). rewrite !size_app. split_and!.
    + rewrite entries_app, drop_drop, <-!app_assoc. rewrite Nat.add_assoc. done.
    + by apply sublist_app.
    + intros La. specialize (B1 La). specialize (B2 ltac:(lia)). lia.
    + intros Hf. assert (E1' : l1 = pairs_of (chain_at h i)) by (apply F1; lia).
      change (pairs_at h1 ix) with (pairs_at h ix) in F2. rewrite F2, E1'; [done|]. rewrite E1'. lia.
Qed.

(** ** Names and values *)

Section Commit.
Context (signed_char : bool).
#[local] Abbreviation table_ok := (table_ok signed_char).
#[local] Abbreviation var := (var signed_char).
#[local] Abbreviation bucket_of := (bucket_of signed_char).

Lemma elem_of_pairs chain n v : (n, v) ∈ pairs_of chain ↔ Tuple n (Some v) ∈ chain.
Proof.
  unfold pairs_of. rewrite list_elem_of_omap. split.
  - intros ([m o] & Ht & E). simpl in E. destruct o as [w|]; [|done]. simpl in E. by injection E as -> ->.
  - intros Ht. by exists (Tuple n (Some v)).
Qed.
Lemma elem_of_pairs_at h ix n v : (n, v) ∈ pairs_at h ix ↔ ∃ i, i ∈ ix ∧ Tuple n (Some v) ∈ chain_at h i.
Proof.
  unfold pairs_at. rewrite list_elem_of_In, in_concat. split.
  - intros (l & Hl & Hx). apply in_map_iff in Hl as (i & <- & Hi). exists i.
    rewrite !list_elem_of_In. split; [done|]. rewrite <-list_elem_of_In. by apply elem_of_pairs, list_elem_of_In.
  - intros (i & Hi & Ht). exists (pairs_of (chain_at h i)). split; [apply in_map_iff; exists i; split; [done|by apply list_elem_of_In]|].
    by apply list_elem_of_In, elem_of_pairs.
Qed.
Lemma pairs_var h n v : table_ok h → (n, v) ∈ all_pairs h ↔ var h n = Some v.
Proof.
  intros [Ho On _]. unfold all_pairs. rewrite elem_of_pairs_at. unfold NvramFacts.var. split.
  - intros (i & _ & Ht). rewrite (Ho i _ Ht : bucket_of n = i).
    exact (chain_value_elem _ (Tuple n (Some v)) (On i) Ht).
  - intros E. exists (bucket_of n). split; [apply elem_of_seq; pose proof (bucket_lt signed_char n); lia|].
    unfold chain_value in E. pose proof (find_tuple_app (chain_at h (bucket_of n)) n) as F.
    destruct (find_tuple _ n) as [b [[[m o] a]|]]; [|done]. destruct F as (-> & En & _). simpl in *. subst.
    apply elem_of_app. right. by left.
Qed.
Lemma pairs_at_nodup h ix : table_ok h → NoDup ix → NoDup (pairs_at h ix).*1.
Proof.
  intros [Ho On _] Nd. induction Nd as [|i ix Ni _ IH]; [constructor|].
  change (pairs_at h (i :: ix)) with (pairs_of (chain_at h i) ++ pairs_at h ix). rewrite fmap_app.
  assert (Sub : (pairs_of (chain_at h i)).*1 `sublist_of` tu_name <$> chain_at h i).
  { unfold pairs_of. induction (chain_at h i) as [|[m [w|]] l IHl]; simpl; [constructor|by apply sublist_skip|by apply sublist_cons]. }
  apply NoDup_app. split_and!; [eapply sublist_NoDup; [apply On|exact Sub]| |done].
  intros n Hn ((m & v) & -> & Hv)%list_elem_of_fmap. simpl in Hn. apply Ni.
  apply elem_of_pairs_at in Hv as (j & Hj & Ht). assert (Hn' : m ∈ tu_name <$> chain_at h i) by (by eapply elem_of_sublist).
  apply list_elem_of_fmap in Hn' as (t & Et & Hi). rewrite <-(Ho i t Hi), <-Et. by rewrite (Ho j _ Ht : bucket_of m = j).
Qed.
Lemma all_pairs_nodup h : table_ok h → NoDup (all_pairs h).*1.
Proof. intros To. apply pairs_at_nodup; [done|]. apply NoDup_ListNoDup, seq_NoDup. Qed.
Lemma lookup_all_pairs h n : table_ok h → lookup_last (all_pairs h) n = var h n.
Proof.
  intros To. destruct (var h n) as [v|] eqn:E.
  - apply lookup_last_elem; [by apply all_pairs_nodup|by apply pairs_var].
  - destruct (lookup_last (all_pairs h) n) as [v|] eqn:L; [|done]. apply lookup_last_inv, pairs_var in L; [congruence|done].
Qed.

(** ** The header *)

(** The words of the header from the variables. *)
Definition words_of (get : string → option string) : Z * Z * Z :=
  match get "sdram_init", get "sdram_config", get "sdram_refresh", get "sdram_ncdl" with
  | Some init, Some config, Some refresh, Some ncdl =>
      (0x100 + 0x10000 * (strtoul0 init mod 0x10000),
       strtoul0 config mod 0x10000 + 0x10000 * (strtoul0 refresh mod 0x10000), strtoul0 ncdl)%Z
  | _, _, _, _ => (0x100 + 0x10000 * SDRAM_INIT, SDRAM_CONFIG + 0x10000 * SDRAM_REFRESH, 0)%Z
  end.

Lemma land_16 v : Z.land v 0xffff = (v mod 0x10000)%Z.
Proof. exact (Z.land_ones v 16 ltac:(done)). Qed.
Lemma mod_16 v : (0 <= v mod 0x10000 < 0x10000)%Z.
Proof. apply Z.mod_pos_bound. lia. Qed.
Lemma header_words_run h : header_words signed_char h = Done (words_of (var h), h).
Proof.
  unfold header_words, words_of. rewrite (mthen_done _ _ _ _ _ (nvram_get_run signed_char "sdram_init" h)).
  destruct (var h "sdram_init") as [init|]; [|done].
  rewrite (mthen_done _ _ _ _ _ (nvram_get_run signed_char "sdram_config" h)). destruct (var h "sdram_config") as [config|]; [|done].
  rewrite (mthen_done _ _ _ _ _ (nvram_get_run signed_char "sdram_refresh" h)). destruct (var h "sdram_refresh") as [refresh|]; [|done].
  rewrite (mthen_done _ _ _ _ _ (nvram_get_run signed_char "sdram_ncdl" h)). destruct (var h "sdram_ncdl") as [ncdl|]; [|done].
  unfold mreturn. rewrite !land_16. rewrite (lor_shift 16 (Z.shiftl NVRAM_VERSION 8)) by done.
  by rewrite (lor_shift 16 (strtoul0 config mod 0x10000)) by (done || apply mod_16).
Qed.

Lemma strtoul0_range s : (0 <= strtoul0 s < 2 ^ 32)%Z.
Proof.
  unfold strtoul0. cbv zeta. set (v := digits_val _ _ _). assert (0 <= v)%Z by (unfold v; apply digits_val_nonneg; [|done]; unfold base_of; by repeat case_match).
  destruct (Z.leb_spec (2 ^ 32) v); [lia|]. destruct (isc _ _); [|lia]. unfold u32. apply Z.mod_pos_bound. lia.
Qed.
Lemma words_range get cvi cr cn : words_of get = (cvi, cr, cn) →
  (0 <= cvi < 2 ^ 32 ∧ cvi mod 256 = 0 ∧ 0 <= cr < 2 ^ 32 ∧ 0 <= cn < 2 ^ 32)%Z.
Proof.
  assert (M : ∀ x, ((0x100 + 0x10000 * x) mod 256 = 0)%Z).
  { intros x. replace (0x100 + 0x10000 * x)%Z with ((1 + 256 * x) * 256)%Z by lia. apply Z_mod_mult. }
  unfold words_of. repeat case_match; intros [= <- <- <-]; try (split_and!; done || apply M).
  all: split_and!; try apply M; try apply strtoul0_range; pose proof (mod_16 (strtoul0 s)); pose proof (mod_16 (strtoul0 s0));
    pose proof (mod_16 (strtoul0 s1)); lia.
Qed.

(** ** The data *)

Definition SP : nat := Z.to_nat NVRAM_SPACE.

(** A handle that can be committed: the image has the size the library was
    told, its addresses are aligned and below 2^31, the names and values can be
    written, and there is memory left. *)
Record committable (h : nvram) : Prop := {
  cm_table : table_ok h;
  cm_pairs : Forall pair_ok (all_pairs h);
  cm_mem : nv_mem h = [];
  cm_size : nv_erase h = Z.of_nat (length (nv_mmap h));
  cm_space : (NVRAM_SPACE <= nv_erase h)%Z;
  cm_aligned : (nv_base h mod 4 = 0 ∧ nv_erase h mod 4 = 0)%Z;
  cm_low : (0 <= nv_base h ∧ nv_base h + nv_erase h <= 2 ^ 31)%Z;
}.

Lemma start_run h : nv_erase h = Z.of_nat (length (nv_mmap h)) → (NVRAM_SPACE <= nv_erase h < 2 ^ 32)%Z →
  ∃ pre body, nv_mmap h = pre ++ body ∧ length body = SP ∧ NVRAM_START (nv_erase h) = length pre.
Proof.
  intros E [L U]. exists (take (length (nv_mmap h) - SP) (nv_mmap h)), (drop (length (nv_mmap h) - SP) (nv_mmap h)).
  rewrite take_drop, length_drop. unfold NVRAM_START, SP. unfold NVRAM_SPACE in *.
  rewrite length_take. unfold u32. rewrite Z.mod_small by lia. split_and!; [done|lia|lia].
Qed.

(** The 0 behind the last entry, and the padding. *)
Lemma pad_run a k c h :
  nv_mmap h = a ++ repeat c k → (nv_base h mod 4 = 0)%Z → (0 <= nv_base h)%Z →
  (nv_base h + Z.of_nat (length a + k) <= 2 ^ 31)%Z → ((length a + k) mod 4 = 0)%nat → (0 < k) →
  ∃ r, pad_to_4 (length a) h = Done ((), nv_set_mmap (a ++ r) h) ∧ length r = k.
Proof.
  intros E Ba Bp Bl Al Hk. unfold pad_to_4. rewrite (mthen_done (mgets _) _ _ (nv_base h) h) by done.
  rewrite wrap32_id by (unfold int32; lia). rewrite Z.rem_mod_nonneg by lia.
  assert (Er : ((nv_base h + Z.of_nat (length a)) mod 4 = Z.of_nat (length a mod 4))%Z).
  { rewrite Z.add_mod, Ba, Z.add_0_l, Z.mod_mod by done. by rewrite Nat2Z.inj_mod. }
  rewrite Er. pose proof (Nat.mod_upper_bound (length a) 4 ltac:(done)) as Lt.
  unfold mwhen. destruct (Z.eqb_spec (Z.of_nat (length a mod 4)) 0) as [Z0|N0]; cbn [negb].
  { exists (repeat c k). split; [|apply repeat_length]. by rewrite <-E, set_mmap_same. }
  set (j := 4 - length a mod 4). replace (Z.to_nat (4 - Z.of_nat (length a mod 4))) with j by (unfold j; lia).
  assert (Lj : j ≤ k).
  { pose proof (Nat.div_mod_eq (length a) 4). pose proof (Nat.div_mod_eq (length a + k) 4). unfold j. lia. }
  exists (repeat (char_of 0) j ++ repeat c (k - j)). split; [|rewrite length_app, !repeat_length; lia].
  unfold memset. apply (put_at _ _ (repeat c j)); [|done|by rewrite !repeat_length].
  by rewrite E, <-repeat_app, Nat.add_comm, Nat.sub_add.
Qed.

(** At an address of 2^31 or more the remainder is negative, and the padding
    is too long: a position one byte in front of the end of the image is
    padded with five bytes. *)
Lemma pad_high p h : (nv_base h mod 4 = 0)%Z → (2 ^ 31 <= nv_base h)%Z → (nv_base h + Z.of_nat p < 2 ^ 32)%Z →
  (p mod 4 = 3)%nat → length (nv_mmap h) = S p → pad_to_4 p h = Crash.
Proof.
  intros Ba Lo Hi Pm Ln. unfold pad_to_4. rewrite (mthen_done (mgets _) _ _ (nv_base h) h) by done.
  set (x := (2 ^ 32 - (nv_base h + Z.of_nat p))%Z). assert (Ew : wrap32 (nv_base h + Z.of_nat p) = (- x)%Z) by (unfold wrap32, x; Z.to_euclidean_division_equations; lia).
  assert (Mx : (x mod 4 = 1)%Z).
  { pose proof (Nat.div_mod_eq p 4) as D. pose proof (Z.div_mod (nv_base h) 4 ltac:(done)) as D'.
    replace x with (1 + (2 ^ 30 - 1 - nv_base h / 4 - Z.of_nat (p / 4)) * 4)%Z by (unfold x; lia). by rewrite Z_mod_plus_full. }
  rewrite Ew, Z.rem_opp_l, Z.rem_mod_nonneg, Mx by (unfold x; lia). change (negb (- (1) =? 0)%Z) with true. unfold mwhen, memset, put.
  rewrite repeat_length, Ln. change (Z.to_nat (4 - - (1))) with 5. by rewrite (proj2 (Nat.leb_gt _ _)) by lia.
Qed.

Lemma drop_repeat {A} (x : A) n k : drop n (repeat x k) = repeat x (k - n).
Proof. revert k. induction n as [|n IH]; intros k; [by rewrite Nat.sub_0_r|]. destruct k as [|k]; [done|]. apply IH. Qed.

Lemma SP_eq : SP = Z.to_nat 0x8000.
Proof. done. Qed.
Lemma SP_def : Z.to_nat NVRAM_SPACE = SP.
Proof. done. Qed.
Lemma SP_mod : (SP mod 4 = 0)%nat.
Proof. rewrite SP_eq. change 4 with (Z.to_nat 4). by rewrite <-Z2Nat.inj_mod. Qed.
Lemma SP_mod_Z : (Z.of_nat SP mod 4 = 0)%Z.
Proof. rewrite SP_eq, Z2Nat.id by lia. reflexivity. Qed.
#[local] Opaque SP.

Lemma data_run h pre hd :
  let a := pre ++ hd in
  nv_mmap h = a ++ repeat (char_of 0xFF) (SP - HEADER) → length hd = HEADER → (∀ i, valued (chain_at h i)) →
  (nv_base h mod 4 = 0)%Z → (0 <= nv_base h)%Z → (nv_base h + Z.of_nat (length (nv_mmap h)) <= 2 ^ 31)%Z →
  (length pre mod 4 = 0)%nat →
  ∃ l tail h1 h2, let p := (length a + size_of l)%nat in
    write_tuples (seq 0 NVRAM_HASH) (length a) (length pre + (SP - 2)) h = Done (p, h1) ∧
    put p [NUL] h1 = Done ((), h2) ∧
    pad_to_4 (S p) h2 = Done ((), nv_set_mmap (a ++ entries l ++ NUL :: tail) h) ∧
    l `sublist_of` all_pairs h ∧ HEADER + size_of l + 2 ≤ SP ∧ (HEADER + size_of (all_pairs h) + 2 ≤ SP → l = all_pairs h) ∧
    length (entries l ++ NUL :: tail) = SP - HEADER.
Proof.
  intros a E Hd V Ba Bp Bl Al. pose proof SP_eq as Esp. set (b := repeat (char_of 0xFF) (SP - HEADER)) in *.
  assert (La : length a = length pre + HEADER) by (unfold a; rewrite length_app; lia).
  assert (Lb : length b = SP - HEADER) by apply repeat_length. unfold HEADER in *.
  destruct (write_tuples_run (seq 0 NVRAM_HASH) a b (length pre + (SP - 2)) h E V ltac:(lia)) as (l & E1 & Sl & Bn & F).
  fold (all_pairs h) in Sl, F. specialize (Bn ltac:(lia)).
  set (k := SP - 20 - size_of l - 1).
  assert (Er : drop (size_of l) b = char_of 0xFF :: repeat (char_of 0xFF) k).
  { unfold b. rewrite drop_repeat. replace (SP - 20 - size_of l) with (S k) by (unfold k; lia). reflexivity. }
  rewrite Er in E1. set (h1 := nv_set_mmap (a ++ entries l ++ char_of 0xFF :: repeat (char_of 0xFF) k) h) in *.
  set (h2 := nv_set_mmap (a ++ entries l ++ NUL :: repeat (char_of 0xFF) k) h).
  destruct (pad_run (a ++ entries l ++ [NUL]) k (char_of 0xFF) h2) as (tail & E3 & Lt); [|done|done|..].
  - unfold h2. simpl. by rewrite <-!app_assoc.
  - rewrite !length_app. fold (size_of l). rewrite E, length_app in Bl. change (nv_base h2) with (nv_base h). simpl. unfold k. lia.
  - rewrite !length_app. fold (size_of l). rewrite La. cbn [length].
    replace (length pre + 20 + (size_of l + 1) + k) with (length pre + SP) by (unfold k; lia).
    rewrite Nat.Div0.add_mod, Al, SP_mod. done.
  - unfold k. lia.
  - exists l, tail, h1, h2. cbv zeta. split_and!; [done| | |done|lia|intros Hf; apply F; lia|].
    + rewrite (put_at _ (a ++ entries l) [char_of 0xFF] (repeat (char_of 0xFF) k)); [|by unfold h1; simpl; rewrite <-app_assoc| |done].
      { unfold h1, h2. rewrite set_mmap_set, <-app_assoc. done. } { rewrite length_app. done. }
    + replace (S (length a + size_of l)) with (length (a ++ entries l ++ [NUL])) by (rewrite !length_app; fold (size_of l); simpl; lia).
      rewrite E3. unfold h2. rewrite set_mmap_set, <-!app_assoc. done.
    + rewrite length_app. fold (size_of l). simpl. rewrite Lt. unfold k. lia.
Qed.

(** ** The checksum *)

Lemma hndcrc8_take data n c : n ≤ length data → Forall is_byte data → is_byte c →
  hndcrc8 data n c = Some (crc8 (take n data) c).
Proof.
  intros L B C. pose proof (hndcrc8_run (take n data) (drop n data) c C (Forall_take _ _ _ B)) as H.
  by rewrite take_drop, length_take_le in H.
Qed.
Lemma codes_bytes l : Forall is_byte (map code l).
Proof. apply Forall_forall. intros b (c & <- & _)%list_elem_of_In%in_map_iff. apply code_byte. Qed.
Lemma lor_low v c : (v mod 256 = 0)%Z → is_byte c → Z.lor v c = (v + c)%Z.
Proof.
  intros M B. rewrite (Z.div_mod v 256), M, Z.add_0_r by done. rewrite Z.lor_comm, (Z.mul_comm 256).
  change 256%Z with (2 ^ 8)%Z. rewrite <-Z.shiftl_mul_pow2, lor_shift8 by done. rewrite Z.shiftl_mul_pow2 by done. lia.
Qed.
(** The checksum is in the lowest byte of its word and changes no other. *)
Lemma le32_tail v c : (v mod 256 = 0)%Z → is_byte c → drop 1 (le32 (Z.lor v c)) = drop 1 (le32 v).
Proof.
  intros M B. unfold le32. cbn [drop]. rewrite !Z.shiftr_lor.
  assert (S : ∀ n, (8 <= n)%Z → Z.shiftr c n = 0%Z).
  { intros n Hn. rewrite Z.shiftr_div_pow2 by lia. apply Z.div_small. destruct B. split; [done|].
    assert (2 ^ 8 <= 2 ^ n)%Z by (apply Z.pow_le_mono_r; lia). change (2 ^ 8)%Z with 256%Z in *. lia. }
  by rewrite !S, !Z.lor_0_r by done.
Qed.

Definition header_bytes (len w cr cn : Z) : list ascii := le32 NVRAM_MAGIC ++ le32 len ++ le32 w ++ le32 cr ++ le32 cn.
(** The bytes that the checksum is about. *)
Definition crc_bytes (len : Z) (image : list ascii) : list Z :=
  take (Z.to_nat len - NVRAM_CRC_START_POSITION) (drop NVRAM_CRC_START_POSITION (map code image)).

Lemma roundup_4 x : (0 <= x)%Z → (x <= NVRAM_ROUNDUP x 4 < x + 4 ∧ NVRAM_ROUNDUP x 4 mod 4 = 0)%Z.
Proof.
  intros Hx. unfold NVRAM_ROUNDUP. pose proof (Z.div_mod (x + (4 - 1)) 4 ltac:(done)).
  pose proof (Z.mod_pos_bound (x + (4 - 1)) 4 ltac:(done)). split; [lia|]. apply Z_mod_mult.
Qed.

(** The two calls of [hndcrc8] go over the bytes of the image behind the
    checksum itself. *)
Lemma crc_run len w cr cn data : (20 <= len)%Z → Z.to_nat len - 20 ≤ length data → (w mod 256 = 0)%Z →
  ∃ c1 crc, hndcrc8 (map code (drop NVRAM_CRC_START_POSITION (le32 0 ++ le32 0 ++ le32 w ++ le32 cr ++ le32 cn)))
      (HEADER - NVRAM_CRC_START_POSITION) 0xff = Some c1 ∧
    hndcrc8 (map code data) (Z.to_nat len - 20) c1 = Some crc ∧ is_byte crc ∧
    crc8 (crc_bytes len (header_bytes len (Z.lor w crc) cr cn ++ data)) 0xff = crc.
Proof.
  intros L20 Ld Mw. set (hd := drop 1 (le32 w) ++ le32 cr ++ le32 cn).
  assert (B0 : is_byte 0xff) by (unfold is_byte; lia).
  exists (crc8 (map code hd) 0xff), (crc8 (take (Z.to_nat len - 20) (map code data)) (crc8 (map code hd) 0xff)).
  assert (B1 : is_byte (crc8 (map code hd) 0xff)) by (apply crc8_range; [done|apply codes_bytes]).
  set (crc := crc8 (take _ _) _).
  assert (B2 : is_byte crc) by (apply crc8_range; [done|apply Forall_take, codes_bytes]).
  split_and!; [|apply hndcrc8_take; [by rewrite length_map|apply codes_bytes|done]|done|].
  - change (drop NVRAM_CRC_START_POSITION (le32 0 ++ le32 0 ++ le32 w ++ le32 cr ++ le32 cn)) with hd.
    rewrite hndcrc8_take; [|done|apply codes_bytes|done]. done.
  - unfold crc_bytes, header_bytes. rewrite !map_app.
    change (drop NVRAM_CRC_START_POSITION _) with
      (map code (drop 1 (le32 (Z.lor w crc))) ++ (map code (le32 cr) ++ map code (le32 cn)) ++ map code data).
    rewrite le32_tail by done. rewrite <-map_app, app_assoc, <-map_app. fold hd.
    assert (Lh : length (map code hd) = 11) by done.
    rewrite take_app_ge by (rewrite Lh; unfold NVRAM_CRC_START_POSITION; lia). rewrite crc8_app, Lh.
    unfold crc. do 2 f_equal. unfold NVRAM_CRC_START_POSITION. lia.
Qed.

(** ** The image *)

Lemma split_body (body : list ascii) : length body = SP →
  ∃ w0 w1 w2 w3 w4 data, body = w0 ++ w1 ++ w2 ++ w3 ++ w4 ++ data ∧ length w0 = 4 ∧ length w1 = 4 ∧ length w2 = 4 ∧
    length w3 = 4 ∧ length w4 = 4 ∧ length data = SP - HEADER.
Proof.
  intros L. pose proof SP_eq as Esp. unfold HEADER.
  exists (take 4 body), (take 4 (drop 4 body)), (take 4 (drop 8 body)), (take 4 (drop 12 body)), (take 4 (drop 16 body)), (drop 20 body).
  rewrite !length_take, !length_drop. split_and!; try lia.
  assert (Cut : ∀ n m, m = n + 4 → take 4 (drop n body) ++ drop m body = drop n body)
    by (intros n m ->; rewrite <-drop_drop; apply take_drop).
  rewrite (Cut 16 20), (Cut 12 16), (Cut 8 12), (Cut 4 8) by done. symmetry. apply take_drop.
Qed.


(** A put at one of the words of the header. *)
Lemma put_word p v pre before w after h :
  nv_mmap h = pre ++ before ++ w ++ after → length w = 4 → p = length pre + length before →
  put32 p v h = Done ((), nv_set_mmap (pre ++ before ++ le32 v ++ after) h).
Proof.
  intros E L ->. unfold put32. rewrite (put_at _ (pre ++ before) w after); [by rewrite <-app_assoc|by rewrite E, <-app_assoc| |done].
  by rewrite length_app.
Qed.

(** The header and the empty data area. *)
Lemma header_run h pre body cvi cr cn :
  nv_mmap h = pre ++ body → length body = SP → NVRAM_START (nv_erase h) = length pre → words_of (var h) = (cvi, cr, cn) →
  ∃ w1 h1, length w1 = 4 ∧ put32 (length pre + magic_at) NVRAM_MAGIC h = Done ((), h1) ∧
    header_words signed_char h1 = Done ((cvi, cr, cn), h1) ∧
    (∀ A (k : M nvram A),
      (do! put32 (length pre + crc_ver_init_at) cvi in
       do! put32 (length pre + config_refresh_at) cr in
       do! put32 (length pre + config_ncdl_at) cn in
       do! memset (length pre + HEADER) 0xFF (SP - HEADER) in k) h1 =
      k (nv_set_mmap (pre ++ (le32 NVRAM_MAGIC ++ w1 ++ le32 cvi ++ le32 cr ++ le32 cn) ++ repeat (char_of 0xFF) (SP - HEADER)) h)).
Proof.
  intros E L St Wd. destruct (split_body body L) as (w0 & w1 & w2 & w3 & w4 & data & -> & L0 & L1 & L2 & L3 & L4 & Ld).
  set (h1 := nv_set_mmap (pre ++ [] ++ le32 NVRAM_MAGIC ++ w1 ++ w2 ++ w3 ++ w4 ++ data) h).
  exists w1, h1. split_and!; [done| | |].
  - apply (put_word _ _ pre [] w0 (w1 ++ w2 ++ w3 ++ w4 ++ data)); [done..|]. unfold magic_at. simpl. lia.
  - rewrite header_words_run. by rewrite <-Wd.
  - intros A k. rewrite (mthen_done _ _ _ _ _ (put_word _ cvi pre (le32 NVRAM_MAGIC ++ w1) w2 (w3 ++ w4 ++ data) h1
      ltac:(unfold h1; cbn [nv_mmap nv_set_mmap]; rewrite <-!app_assoc; reflexivity) L2 ltac:(rewrite length_app, L1; done))).
    set (h2 := nv_set_mmap _ h1). rewrite (mthen_done _ _ _ _ _ (put_word _ cr pre (le32 NVRAM_MAGIC ++ w1 ++ le32 cvi) w3 (w4 ++ data) h2
      ltac:(unfold h2; cbn [nv_mmap nv_set_mmap]; rewrite <-!app_assoc; reflexivity) L3 ltac:(rewrite !length_app, L1; done))).
    set (h3 := nv_set_mmap _ h2). rewrite (mthen_done _ _ _ _ _ (put_word _ cn pre (le32 NVRAM_MAGIC ++ w1 ++ le32 cvi ++ le32 cr) w4 data h3
      ltac:(unfold h3; cbn [nv_mmap nv_set_mmap]; rewrite <-!app_assoc; reflexivity) L4 ltac:(rewrite !length_app, L1; done))).
    set (h4 := nv_set_mmap _ h3). unfold memset.
    rewrite (mthen_done _ _ _ _ _ (put_at _ (pre ++ le32 NVRAM_MAGIC ++ w1 ++ le32 cvi ++ le32 cr ++ le32 cn) data [] _ h4
      ltac:(unfold h4; cbn [nv_mmap nv_set_mmap]; rewrite <-!app_assoc, app_nil_r; reflexivity) ltac:(rewrite !length_app, L1; done)
      ltac:(rewrite repeat_length; exact Ld))).
    unfold h4, h3, h2, h1. rewrite !set_mmap_set. do 2 f_equal. rewrite <-!app_assoc, app_nil_r. reflexivity.
Qed.

(** The length and the checksum. *)
Lemma image_finish h pre w1 cvi cr cn data len :
  nv_mmap h = pre ++ (le32 NVRAM_MAGIC ++ w1 ++ le32 cvi ++ le32 cr ++ le32 cn) ++ data → length w1 = 4 →
  (20 <= len < 2 ^ 32)%Z → Z.to_nat len - 20 ≤ length data → (cvi mod 256 = 0)%Z →
  ∃ crc, is_byte crc ∧ crc8 (crc_bytes len (header_bytes len (Z.lor cvi crc) cr cn ++ data)) 0xff = crc ∧
    ∀ A (k : M nvram A),
      (do! put32 (length pre + len_at) len in
       let! c1 := mderef (hndcrc8 (map code (drop NVRAM_CRC_START_POSITION (le32 0 ++ le32 0 ++ le32 cvi ++ le32 cr ++ le32 cn)))
                    (HEADER - NVRAM_CRC_START_POSITION) 0xff) in
       let! d := bytes_at (length pre + HEADER) in
       let! c2 := mderef (hndcrc8 d (Z.to_nat (u32 (len - Z.of_nat HEADER))) c1) in
       do! put32 (length pre + crc_ver_init_at) (Z.lor cvi c2) in k) h =
      k (nv_set_mmap (pre ++ header_bytes len (Z.lor cvi crc) cr cn ++ data) h).
Proof.
  intros E L1 Hl Ld Mv. destruct (crc_run len cvi cr cn data) as (c1 & crc & C1 & C2 & Bc & Cc); [lia|done|done|].
  exists crc. split_and!; [done..|]. intros A k.
  rewrite (mthen_done _ _ _ _ _ (put_word _ len pre (le32 NVRAM_MAGIC) w1 (le32 cvi ++ le32 cr ++ le32 cn ++ data) h
    ltac:(rewrite E, <-!app_assoc; reflexivity) L1 ltac:(done))).
  set (h1 := nv_set_mmap _ h). rewrite C1, (mthen_done (mderef _) _ _ c1 h1) by done.
  rewrite (mthen_done (bytes_at _) _ _ (map code data) h1).
  2: { unfold bytes_at, mgets, h1. cbn [nv_mmap nv_set_mmap]. do 3 f_equal.
       replace (length pre + HEADER) with (length (pre ++ le32 NVRAM_MAGIC ++ le32 len ++ le32 cvi ++ le32 cr ++ le32 cn))
         by (rewrite !length_app; done).
       rewrite <-(drop_app_length (pre ++ le32 NVRAM_MAGIC ++ le32 len ++ le32 cvi ++ le32 cr ++ le32 cn) data) at 2.
       by rewrite <-!app_assoc. }
  replace (Z.to_nat (u32 (len - Z.of_nat HEADER))) with (Z.to_nat len - 20)
    by (unfold u32, HEADER; rewrite Z.mod_small by lia; lia).
  rewrite C2, (mthen_done (mderef _) _ _ crc h1) by done.
  rewrite (mthen_done _ _ _ _ _ (put_word _ (Z.lor cvi crc) pre (le32 NVRAM_MAGIC ++ le32 len) (le32 cvi) (le32 cr ++ le32 cn ++ data) h1
    ltac:(unfold h1; cbn [nv_mmap nv_set_mmap]; rewrite <-!app_assoc; reflexivity) eq_refl ltac:(done))).
  unfold h1, header_bytes. rewrite set_mmap_set. do 2 f_equal.
Qed.

(** The image [nvram_commit] writes for the variables [l]. *)
Record committed (h : nvram) (pre : list ascii) (l : list pair) (tail : list ascii) (len w cr cn : Z) : Prop := {
  cd_start : NVRAM_START (nv_erase h) = length pre;
  cd_pre : pre = take (length pre) (nv_mmap h);
  cd_size : length pre + SP = length (nv_mmap h);
  cd_data : length (entries l ++ NUL :: tail) = SP - HEADER;
  cd_sub : l `sublist_of` all_pairs h;
  cd_all : HEADER + size_of (all_pairs h) + 2 ≤ SP → l = all_pairs h;
  cd_len : (Z.of_nat (HEADER + size_of l + 2) <= len <= NVRAM_SPACE ∧ len mod 4 = 0)%Z;
  cd_words : ∃ cvi, words_of (var h) = (cvi, cr, cn) ∧ (cvi <= w < cvi + 256)%Z;
  cd_crc : (w mod 256 = crc8 (crc_bytes len (header_bytes len w cr cn ++ entries l ++ NUL :: tail)) 0xff)%Z;
}.

Lemma image_run h : committable h →
  ∃ pre l tail len w cr cn, committed h pre l tail len w cr cn ∧
    nvram_commit signed_char h =
      _nvram_rehash signed_char (nv_set_mmap (pre ++ header_bytes len w cr cn ++ entries l ++ NUL :: tail) h).
Proof.
  intros [To Ok Hm Sz Spc [Al Ae] [Lo Hi]]. pose proof SP_eq as Esp. pose proof (to_value _ _ To : ∀ i, valued (chain_at h i)) as V. unfold HEADER.
  destruct (start_run h Sz ltac:(lia)) as (pre & body & E & Lb & St).
  destruct (words_of (var h)) as [[cvi cr] cn] eqn:Wd. destruct (words_range _ _ _ _ Wd) as (Rv & Mv & Rr & Rn).
  destruct (header_run h pre body cvi cr cn E Lb St Wd) as (w1 & h1 & L1 & E1 & E2 & E3).
  unfold nvram_commit. rewrite (mthen_done nvram_header _ _ (length pre) h) by (unfold nvram_header, mgets; by rewrite St).
  rewrite (mthen_done _ _ _ _ _ E1), (mthen_done _ _ _ _ _ E2). cbv beta iota. rewrite SP_def, E3.
  set (hd := le32 NVRAM_MAGIC ++ w1 ++ le32 cvi ++ le32 cr ++ le32 cn).
  set (h2 := nv_set_mmap (pre ++ hd ++ repeat (char_of 0xFF) (SP - HEADER)) h).
  assert (Lh : length hd = HEADER) by (unfold hd; rewrite !length_app, L1; done).
  assert (Lm : length pre + SP = length (nv_mmap h)) by (rewrite E, length_app; lia).
  assert (Ap : (length pre mod 4 = 0)%nat).
  { rewrite Sz, <-Lm in Ae. rewrite Nat2Z.inj_add, <-Zplus_mod_idemp_r in Ae.
    rewrite SP_mod_Z, Z.add_0_r in Ae.
    apply Nat2Z.inj. by rewrite Nat2Z.inj_mod. }
  assert (Em2 : nv_mmap h2 = (pre ++ hd) ++ repeat (char_of 0xFF) (SP - HEADER)) by (unfold h2; cbn [nv_mmap nv_set_mmap]; apply app_assoc).
  assert (Bl2 : (nv_base h2 + Z.of_nat (length (nv_mmap h2)) <= 2 ^ 31)%Z).
  { rewrite Em2, !length_app, repeat_length, Lh. change (nv_base h2) with (nv_base h). unfold HEADER in *. lia. }
  destruct (data_run h2 pre hd Em2 Lh V Al Lo Bl2 Ap) as (l & tail & h3 & h4 & F1 & F2 & F3 & Sl & Bl & Fl & Ld).
  rewrite length_app, Lh in F1, F2, F3.
  rewrite (mthen_done _ _ _ _ _ F1), (mthen_done _ _ _ _ _ F2), (mthen_done _ _ _ _ _ F3).
  set (x := Z.of_nat (HEADER + size_of l + 2)). assert (Hx : (0 <= x <= NVRAM_SPACE)%Z).
  { unfold x. rewrite Esp in Bl. unfold NVRAM_SPACE. lia. }
  replace (Z.of_nat (S (S (length pre + HEADER + size_of l))) - Z.of_nat (length pre))%Z with x by (unfold x; lia).
  destruct (roundup_4 x (proj1 Hx)) as [Rx Mx]. set (len := NVRAM_ROUNDUP x 4) in *.
  assert (Hl : (20 <= len <= NVRAM_SPACE)%Z).
  { pose proof (Z.div_mod len 4 ltac:(done)). unfold x, HEADER, NVRAM_SPACE in *. lia. }
  set (h5 := nv_set_mmap ((pre ++ hd) ++ entries l ++ NUL :: tail) h2).
  destruct (image_finish h5 pre w1 cvi cr cn (entries l ++ NUL :: tail) len) as (crc & Bc & Cc & Fi).
  { symmetry. exact (app_assoc pre hd _). } { exact L1. } { unfold NVRAM_SPACE in Hl. lia. }
  { rewrite Ld, Esp. unfold HEADER, NVRAM_SPACE in *. lia. } { exact Mv. }
  exists pre, l, tail, len, (Z.lor cvi crc), cr, cn. split; [|exact (Fi _ (_nvram_rehash signed_char))].
  split; [exact St|by rewrite E, take_app_length|exact Lm|exact Ld|exact Sl|exact Fl|fold x; lia| |].
  - exists cvi. split; [done|]. rewrite lor_low by done. destruct Bc. lia.
  - rewrite Cc, lor_low, <-Zplus_mod_idemp_l, Mv, Z.add_0_l by done. apply Z.mod_small. apply Bc.
Qed.

(** ** The table again *)

(** The variables that the header gives when the data has none. *)
Definition sdram_init (w : Z) : string := "0x" +:+ print_X 4 (Z.shiftr w 16 mod 2 ^ 16).
Definition sdram_config (cr : Z) : string := "0x" +:+ print_X 4 (Z.land cr 0xffff mod 2 ^ 16).
Definition sdram_refresh (cr : Z) : string := "0x" +:+ print_X 4 (Z.land (Z.shiftr cr 16) 0xffff mod 2 ^ 16).
Definition sdram_ncdl (cn : Z) : string := "0x" +:+ print_X 8 cn.
Definition sdram (w cr cn : Z) (n : string) : option string :=
  if decide (n = "sdram_init"%string) then Some (sdram_init w)
  else if decide (n = "sdram_config"%string) then Some (sdram_config cr)
  else if decide (n = "sdram_refresh"%string) then Some (sdram_refresh cr)
  else if decide (n = "sdram_ncdl"%string) then Some (sdram_ncdl cn)
  else None.

Lemma print_X_length n v : String.length (print_X n v) = n.
Proof. revert v. induction n as [|n IH]; intros v; [done|]. cbn [print_X]. rewrite string_length_app, IH. simpl. lia. Qed.

Lemma image_trans h1 h2 h3 : same_image h1 h2 → same_image h2 h3 → same_image h1 h3.
Proof. intros (A1 & A2 & A3) (B1 & B2 & B3). split_and!; congruence. Qed.
Lemma set_missing_run name digits v h :
  table_ok h → nv_mem h = [] → digits ≤ 8 →
  ∃ h', set_missing signed_char name digits v h = Done ((), h') ∧ table_ok h' ∧ same_image h h' ∧ nv_mem h' = [] ∧
    ∀ n, var h' n = match var h n with
                    | Some u => Some u
                    | None => if decide (n = name) then Some ("0x" +:+ print_X digits v) else None
                    end.
Proof.
  intros To Hm Hd. unfold set_missing. rewrite (mthen_done _ _ _ _ _ (nvram_get_run signed_char name h)).
  destruct (var h name) as [u|] eqn:Hv.
  - exists h. split_and!; try done. intros n. destruct (var h n) eqn:Hn; [done|]. rewrite decide_False; [done|]. intros ->. congruence.
  - destruct (nvram_set_run signed_char name ("0x" +:+ print_X digits v) h To Hm) as (h' & E & To' & I & M & V).
    { rewrite string_length_app, print_X_length. change (String.length "0x") with 2. unfold NVRAM_SPACE. lia. }
    exists h'. rewrite (mthen_done _ _ _ _ _ E). split_and!; [done..|congruence|]. intros n. rewrite V.
    case_decide as D; [subst n; by rewrite Hv|by destruct (var h n)].
Qed.

Lemma entries_count l : length l ≤ size_of l.
Proof. induction l as [|x l IH]; [done|]. rewrite size_cons. simpl. lia. Qed.

Lemma rehash_image h pre l tail len w cr cn :
  nv_mmap h = pre ++ header_bytes len w cr cn ++ entries l ++ NUL :: tail → NVRAM_START (nv_erase h) = length pre →
  nv_mem h = [] → Forall pair_ok l → (0 <= w < 2 ^ 32)%Z → (0 <= cr < 2 ^ 32)%Z → (0 <= cn < 2 ^ 32)%Z →
  ∃ h', _nvram_rehash signed_char h = Done (0%Z, h') ∧ table_ok h' ∧ same_image h h' ∧ nv_mem h' = [] ∧
    ∀ n, var h' n = match lookup_last l n with Some v => Some v | None => sdram w cr cn n end.
Proof.
  intros E St Hm Ok Rw Rr Rn. unfold _nvram_rehash.
  rewrite (mthen_done nvram_header _ _ (length pre) h) by (unfold nvram_header, mgets; by rewrite St).
  set (h0 := nv_set_dead [] (nv_set_hash ∅ h)). rewrite (mthen_done _nvram_free _ _ () h0) by done.
  rewrite (mthen_done (mgets _) _ _ (S (length (nv_mmap h))) h0) by done.
  destruct (freed_ok signed_char h) as [To0 V0]. fold h0 in To0, V0.
  destruct (rehash_run signed_char (S (length (nv_mmap h))) (pre ++ header_bytes len w cr cn) l tail h0) as (h1 & E1 & To1 & I1 & M1 & V1);
    [unfold h0; cbn [nv_mmap nv_set_dead nv_set_hash]; rewrite E; apply app_assoc|done..| |].
  { rewrite E, !length_app. pose proof (entries_count l) as Le. unfold size_of in Le. lia. }
  rewrite length_app in E1. change (length (header_bytes len w cr cn)) with HEADER in E1. rewrite (mthen_done _ _ _ _ _ E1).
  pose proof I1 as (Em & Eb & Ee). change (nv_mmap h0) with (nv_mmap h) in Em. rewrite E in Em. unfold header_bytes in Em.
  rewrite (mthen_done (get32 _) _ _ w h1)
    by (apply (get32_run _ (pre ++ le32 NVRAM_MAGIC ++ le32 len) w (le32 cr ++ le32 cn ++ entries l ++ NUL :: tail));
        [rewrite Em, <-!app_assoc; reflexivity|rewrite !length_app; reflexivity|done]).
  rewrite (mthen_done (get32 _) _ _ cr h1)
    by (apply (get32_run _ (pre ++ le32 NVRAM_MAGIC ++ le32 len ++ le32 w) cr (le32 cn ++ entries l ++ NUL :: tail));
        [rewrite Em, <-!app_assoc; reflexivity|rewrite !length_app; reflexivity|done]).
  rewrite (mthen_done (get32 _) _ _ cn h1)
    by (apply (get32_run _ (pre ++ le32 NVRAM_MAGIC ++ le32 len ++ le32 w ++ le32 cr) cn (entries l ++ NUL :: tail));
        [rewrite Em, <-!app_assoc; reflexivity|rewrite !length_app; reflexivity|done]).
  destruct (set_missing_run "sdram_init" 4 (Z.shiftr w 16 mod 2 ^ 16) h1 To1 M1) as (h2 & E2 & To2 & I2 & M2 & V2); [lia|].
  destruct (set_missing_run "sdram_config" 4 (Z.land cr 0xffff mod 2 ^ 16) h2 To2 M2) as (h3 & E3 & To3 & I3 & M3 & V3); [lia|].
  destruct (set_missing_run "sdram_refresh" 4 (Z.land (Z.shiftr cr 16) 0xffff mod 2 ^ 16) h3 To3 M3) as (h4 & E4 & To4 & I4 & M4 & V4); [lia|].
  destruct (set_missing_run "sdram_ncdl" 8 cn h4 To4 M4) as (h5 & E5 & To5 & I5 & M5 & V5); [lia|].
  rewrite (mthen_done _ _ _ _ _ E2), (mthen_done _ _ _ _ _ E3), (mthen_done _ _ _ _ _ E4), (mthen_done _ _ _ _ _ E5).
  exists h5. split_and!; [done..| |done|].
  - by do 4 (eapply image_trans; [|eassumption]).
  - intros n. rewrite V5, V4, V3, V2, V1, V0. destruct (lookup_last l n); [done|]. unfold sdram.
    repeat (case_decide; [done|]). done.
Qed.

(** ** All together *)

Lemma committed_ranges h pre l tail len w cr cn : committed h pre l tail len w cr cn →
  (0 <= w < 2 ^ 32 ∧ 0 <= cr < 2 ^ 32 ∧ 0 <= cn < 2 ^ 32)%Z.
Proof.
  intros C. destruct (cd_words _ _ _ _ _ _ _ _ C) as (cvi & Wd & Hw). destruct (words_range _ _ _ _ Wd) as (Rv & Mv & Rr & Rn).
  pose proof (Z.div_mod cvi 256 ltac:(done)). split_and!; lia.
Qed.

Lemma commit_run h : committable h →
  ∃ pre l tail len w cr cn h', committed h pre l tail len w cr cn ∧ nvram_commit signed_char h = Done (0%Z, h') ∧
    nv_mmap h' = pre ++ header_bytes len w cr cn ++ entries l ++ NUL :: tail ∧ table_ok h' ∧ nv_mem h' = [] ∧
    nv_base h' = nv_base h ∧ nv_erase h' = nv_erase h ∧
    ∀ n, var h' n = match lookup_last l n with Some v => Some v | None => sdram w cr cn n end.
Proof.
  intros Cm. destruct (image_run h Cm) as (pre & l & tail & len & w & cr & cn & C & E).
  destruct (committed_ranges _ _ _ _ _ _ _ _ C) as (Rw & Rr & Rn).
  destruct (rehash_image (nv_set_mmap (pre ++ header_bytes len w cr cn ++ entries l ++ NUL :: tail) h) pre l tail len w cr cn)
    as (h' & E' & To & (I1 & I2 & I3) & M & V); [done|apply C|apply Cm| |done..|].
  { apply Forall_forall. intros x Hx. eapply Forall_forall; [apply Cm|]. eapply elem_of_sublist; [exact Hx|apply C]. }
  exists pre, l, tail, len, w, cr, cn, h'. rewrite E. split_and!; done.
Qed.
End Commit.
