(* ===== verification/NvramRun.v ===== *)
(** * Runs of the [nvram] command

    Opening a stored image, and what a command leaves for the next one. *)
From S2P Require Import Prelude CLib CStr NvCrc Nvram NvramCli NvramFacts NvramImage NvramCommit.
From Stdlib Require Import Ascii.
Open Scope pr30_scope.
#[local] Opaque SP.

(** ** Handles *)

Lemma with_handle_done {A} (m : N A) h w a nv :
  m (nv_set_mem (w_mem w) (ha_nv h)) = Done (a, nv) →
  with_handle m h w = Done ((a, Handle nv (ha_file h)), w_set_mem (nv_mem nv) w).
Proof. intros E. unfold with_handle. by rewrite E. Qed.
(** With memory left. *)
Lemma with_handle_run {A} (m : N A) nv f w a nv' :
  w_mem w = [] → nv_mem nv = [] → m nv = Done (a, nv') → nv_mem nv' = [] →
  with_handle m (Handle nv f) w = Done ((a, Handle nv' f), w).
Proof.
  intros Mw Mn E Mn'. rewrite (with_handle_done m _ w a nv').
  - rewrite Mn', <-Mw. by destruct w.
  - rewrite Mw, <-Mn. cbn [ha_nv]. by destruct nv.
Qed.

(** ** Sizes *)

Lemma size_permutation l l' : l ≡ₚ l' → size_of l = size_of l'.
Proof. induction 1; rewrite ?size_cons; lia. Qed.
Lemma size_submseteq l l' : l ⊆+ l' → size_of l ≤ size_of l'.
Proof. intros [k P]%submseteq_Permutation. rewrite (size_permutation _ _ P), size_app. lia. Qed.

(** ** The device *)

Section Run.
Context (signed_char : bool) (map_addr : Z) (mappable : string → bool) (i0 esz0 : Z) (percent : Z → string).
#[local] Abbreviation find_mtd := (nvram_find_mtd i0 esz0).
#[local] Abbreviation open := (nvram_open signed_char map_addr mappable i0 esz0).
#[local] Abbreviation table_ok := (table_ok signed_char).
#[local] Abbreviation var := (var signed_char).

(** Worlds in which the search for the device sees the same. *)
Record same_devices (w w' : world) : Prop := {
  sd_mem : w_mem w = [] ∧ w_mem w' = [];
  sd_mode : ∀ n, nd_mode <$> w_files w' !! n = nd_mode <$> w_files w !! n;
  sd_model : w_files w' !! "/proc/diag/model"%string = w_files w !! "/proc/diag/model"%string;
  sd_mtd : w_files w' !! "/proc/mtd"%string = w_files w !! "/proc/mtd"%string;
}.

Lemma same_devices_erase w w' e : same_devices w w' → same_devices (w_set_erase e w) (w_set_erase e w').
Proof. intros [A B C D]. by split. Qed.
Lemma is_blk_run dev w : is_blk dev w =
  Done (match nd_mode <$> w_files w !! dev with Some m => negb (Z.land m S_IFBLK =? 0)%Z | None => false end, w).
Proof. done. Qed.
Lemma mtd_path_run i w : w_mem w = [] → ∃ o, ∀ w', same_devices w w' → mtd_path i w' = Done (o, w').
Proof.
  intros Mw. unfold mtd_path. set (d1 := "/dev/mtdblock/" +:+ print_d i). set (d2 := "/dev/mtdblock" +:+ print_d i).
  set (blk d := match nd_mode <$> w_files w !! d with Some m => negb (Z.land m S_IFBLK =? 0)%Z | None => false end).
  exists (if blk d1 then Some d1 else if blk d2 then Some d2 else None). intros w' S.
  assert (Ma : w_malloc w' = Done (true, w')) by (unfold w_malloc; by rewrite (proj2 (sd_mem _ _ S))).
  rewrite (mthen_done _ _ _ _ _ (is_blk_run d1 w')), (sd_mode _ _ S). fold (blk d1). destruct (blk d1).
  { by rewrite (mthen_done _ _ _ _ _ Ma). }
  rewrite (mthen_done _ _ _ _ _ (is_blk_run d2 w')), (sd_mode _ _ S). fold (blk d2). destruct (blk d2); [|done].
  by rewrite (mthen_done _ _ _ _ _ Ma).
Qed.

Lemma same_devices_refl w : w_mem w = [] → same_devices w w.
Proof. by split. Qed.
Lemma find_mtd_lines lines i esz w w' dev w1 :
  same_devices w w' → find_mtd_f lines i esz w = Done (Some dev, w1) →
  find_mtd_f lines i esz w' = Done (Some dev, w_set_erase (w_erase w1) w').
Proof.
  revert i esz w w'. induction lines as [|line lines IH]; intros i esz w w' S; [done|]. cbn [find_mtd_f].
  destruct (contains "nvram" line); [|by apply IH]. destruct (sscanf_mtd line) as [[i' o]|]; [|by apply IH].
  set (e := u32 (default esz o)).
  rewrite (mthen_done (mmodify _) _ w () (w_set_erase e w)), (mthen_done (mmodify _) _ w' () (w_set_erase e w')) by done.
  pose proof (same_devices_erase w w' e S) as Se. destruct (mtd_path_run i' (w_set_erase e w) (proj1 (sd_mem _ _ Se))) as [p Hp].
  rewrite (mthen_done _ _ _ _ _ (Hp _ (same_devices_refl _ (proj1 (sd_mem _ _ Se))))), (mthen_done _ _ _ _ _ (Hp _ Se)).
  destruct p as [p|].
  - by intros [= <- <-].
  - intros H. by apply (IH _ _ _ _ Se H).
Qed.

(** The search has no effect but to set [nvram_erase_size]. *)
Lemma find_mtd_same w w' dev w1 : same_devices w w' → find_mtd w = Done (Some dev, w1) →
  find_mtd w' = Done (Some dev, w_set_erase (w_erase w1) w').
Proof.
  intros S. unfold nvram_find_mtd.
  rewrite (mthen_done (mgets _) _ w (w_files w !! "/proc/diag/model"%string) w) by done.
  rewrite (mthen_done (mgets _) _ w' (w_files w !! "/proc/diag/model"%string) w') by (unfold mgets; by rewrite (sd_model _ _ S)).
  cbv zeta. match goal with |- context [if ?b then _ else _] => destruct b end; [|done].
  rewrite (mthen_done (mgets _) _ w (w_files w !! "/proc/mtd"%string) w) by done.
  rewrite (mthen_done (mgets _) _ w' (w_files w !! "/proc/mtd"%string) w') by (unfold mgets; by rewrite (sd_mtd _ _ S)).
  destruct (w_files w !! "/proc/mtd"%string) as [nd|]; [|done]. by apply find_mtd_lines.
Qed.

(** ** Opening *)

(** A file with an image that holds the variables [l]. *)
Record stored (data : list ascii) (l : list pair) (w cr cn : Z) : Prop := {
  so_image : ∃ pre tail len, data = pre ++ header_bytes len w cr cn ++ entries l ++ NUL :: tail ∧ length pre + SP = length data;
  so_pairs : Forall pair_ok l;
  so_ranges : (0 <= w < 2 ^ 32 ∧ 0 <= cr < 2 ^ 32 ∧ 0 <= cn < 2 ^ 32)%Z;
  so_pages : (length data mod PAGE = 0)%nat;
  so_small : (Z.of_nat (length data) <= 2 ^ 31)%Z;
}.

Lemma mapped_whole l : (length l mod PAGE = 0)%nat → mapped l (length l) = Some l.
Proof.
  intros M. unfold mapped. pose proof (Nat.div_mod_eq (length l) PAGE) as D. rewrite M, Nat.add_0_r in D.
  assert (E : ((length l + PAGE - 1) / PAGE * PAGE = length l)%nat).
  { rewrite D at 1. replace (PAGE * (length l / PAGE) + PAGE - 1) with (length l / PAGE * PAGE + (PAGE - 1)) by (unfold PAGE; lia).
    rewrite Nat.div_add_l, (Nat.div_small (PAGE - 1)) by (unfold PAGE; lia). lia. }
  rewrite E, (proj2 (Nat.leb_le _ _)), Nat.sub_diag by lia. simpl. by rewrite app_nil_r, take_ge.
Qed.

Lemma memset_0 n h : n ≤ length (nv_mmap h) →
  memset 0 0xFF n h = Done ((), nv_set_mmap (repeat (char_of 0xFF) n ++ drop n (nv_mmap h)) h).
Proof.
  intros L. unfold memset. apply (put_at _ [] (take n (nv_mmap h)) (drop n (nv_mmap h))); [|done|].
  - by rewrite app_nil_l, take_drop.
  - rewrite length_take, repeat_length. lia.
Qed.

(** What a handle gives for an image. *)
Definition image_var (l : list pair) (w cr cn : Z) (n : string) : option string :=
  match lookup_last l n with Some v => Some v | None => sdram w cr cn n end.

(** A handle on an image of the size of [data]. *)
Record opened (nv : nvram) (data : list ascii) (m : string → option string) : Prop := {
  op_table : table_ok nv;
  op_mem : nv_mem nv = [];
  op_base : nv_base nv = map_addr;
  op_erase : nv_erase nv = Z.of_nat (length data);
  op_size : length (nv_mmap nv) = length data;
  op_var : ∀ n, var nv n = m n;
}.

Lemma open_run file ro w dev mode data l ww cr cn :
  w_mem w = [] → w_erase w = 0%Z → find_mtd w = Done (Some dev, w_set_erase (Z.of_nat (length data)) w) →
  w_files w !! file = Some (Node mode data) → mappable file = true → stored data l ww cr cn →
  ∃ nv, open (Some file) ro w =
      Done (Some (Handle nv (if ro then None else Some file)), w_set_erase (Z.of_nat (length data)) w) ∧
    opened nv data (image_var l ww cr cn).
Proof.
  intros Mw Ew Fm Fi Mp [(pre & tail & len & E & Lp) Ok (Rw & Rr & Rn) Pg Sm]. pose proof SP_eq as Esp. unfold nvram_open.
  set (e := Z.of_nat (length data)) in *. set (w1 := w_set_erase e w) in *.
  assert (Pe : (0 <= e - NVRAM_SPACE < 2 ^ 31)%Z) by (unfold e, NVRAM_SPACE; lia).
  assert (Ep : NVRAM_START e = length pre).
  { unfold NVRAM_START, u32. rewrite Z.mod_small by lia. unfold e, NVRAM_SPACE. lia. }
  rewrite (mthen_done (mgets _) _ w 0%Z w) by (unfold mgets; by rewrite Ew). cbn [Z.eqb orb].
  rewrite (mthen_done _ _ w (true, Some dev) w1).
  2: { rewrite (mthen_done _ _ _ _ _ Fm), (mthen_done (mgets _) _ w1 e w1) by done. unfold mreturn. cbn [is_Some bool_decide].
       rewrite bool_decide_eq_true_2 by (by eexists). rewrite (proj2 (Z.eqb_neq e 0)) by (unfold NVRAM_SPACE in Pe; lia). done. }
  cbn [negb]. rewrite (mthen_done (mderef _) _ w1 file w1) by done.
  rewrite (mthen_done (mgets _) _ w1 (Some (Node mode data)) w1) by (unfold mgets; by rewrite <-Fi).
  rewrite Mp. cbn [negb]. rewrite (mthen_done (mgets _) _ w1 e w1) by done. cbn [nd_data].
  replace (Z.to_nat e) with (length data) by (unfold e; lia). rewrite mapped_whole by done.
  rewrite (mthen_done (mderef _) _ w1 data w1) by done. set (f := if ro then None else Some file).
  set (nv0 := Nvram ∅ [] data map_addr e []). set (nv1 := nv_set_mmap (repeat (char_of 0xFF) (length pre) ++ drop (length pre) data) nv0).
  rewrite (mthen_done _ _ _ _ _ (with_handle_run (memset 0 0xFF (NVRAM_START e)) nv0 f w1 () nv1 Mw eq_refl
    ltac:(rewrite Ep; apply memset_0; cbn [nv_mmap nv0]; lia) eq_refl)).
  rewrite (mthen_done w_malloc _ w1 true w1) by (unfold w_malloc; by rewrite (Mw : w_mem w1 = [])). cbn [negb].
  assert (E1 : nv_mmap nv1 = repeat (char_of 0xFF) (length pre) ++ header_bytes len ww cr cn ++ entries l ++ NUL :: tail).
  { unfold nv1. cbn [nv_mmap nv_set_mmap]. by rewrite E, drop_app_length. }
  assert (Emg : (let! header := nvram_header in get32 (header + magic_at)) nv1 = Done (NVRAM_MAGIC, nv1)).
  { rewrite (mthen_done nvram_header _ nv1 (length pre) nv1) by (unfold nvram_header, mgets; change (nv_erase nv1) with e; rewrite Ep; reflexivity).
    apply (get32_run _ (repeat (char_of 0xFF) (length pre)) NVRAM_MAGIC (le32 len ++ le32 ww ++ le32 cr ++ le32 cn ++ entries l ++ NUL :: tail)).
    - rewrite E1. unfold header_bytes. rewrite <-!app_assoc. reflexivity.
    - rewrite repeat_length. unfold magic_at. lia.
    - unfold NVRAM_MAGIC. lia. }
  rewrite (mthen_done _ _ _ _ _ (with_handle_run _ nv1 f w1 _ _ Mw eq_refl Emg eq_refl)).
  rewrite Z.eqb_refl.
  destruct (rehash_image signed_char nv1 (repeat (char_of 0xFF) (length pre)) l tail len ww cr cn) as (nv2 & E2 & To & (I1 & I2 & I3) & M & V);
    [done|by rewrite repeat_length|done..|].
  rewrite (mthen_done _ _ _ _ _ (with_handle_run _ nv1 f w1 _ _ Mw eq_refl E2 M)).
  exists nv2. split; [done|]. split; [done|done|done|done| |done].
  rewrite I1. unfold nv1. cbn [nv_mmap nv_set_mmap]. rewrite length_app, repeat_length, length_drop. lia.
Qed.

(** ** Committing *)

Lemma commit_stored nv data m lv :
  opened nv data m → (length data mod PAGE = 0)%nat → (map_addr mod 4 = 0)%Z → (0 <= map_addr)%Z →
  (map_addr + Z.of_nat (length data) <= 2 ^ 31)%Z → (SP <= length data)%nat →
  (∀ n, m n = lookup_last lv n) → Forall pair_ok lv → HEADER + size_of lv + 2 ≤ SP →
  (∀ n w cr cn, m n = None → sdram w cr cn n = None) →
  ∃ nv' l w cr cn, nvram_commit signed_char nv = Done (0%Z, nv') ∧ nv_mem nv' = [] ∧ length (nv_mmap nv') = length data ∧
    stored (nv_mmap nv') l w cr cn ∧ (∀ n, image_var l w cr cn n = m n) ∧ (∀ n, m n = lookup_last l n) ∧ size_of l ≤ size_of lv.
Proof.
  intros [To Mm Ba Er Sz V] Pg Al Lo Hi Sp Lv Ok Fit Sd. pose proof SP_eq as Esp.
  assert (In : ∀ x, x ∈ all_pairs nv → x ∈ lv).
  { intros [n v] Hx. apply pairs_var with (signed_char := signed_char) in Hx; [|done]. rewrite V, Lv in Hx. by apply lookup_last_inv. }
  assert (Okn : Forall pair_ok (all_pairs nv)) by (apply Forall_forall; intros x Hx; eapply Forall_forall; [exact Ok|by apply In]).
  assert (Le : size_of (all_pairs nv) ≤ size_of lv).
  { apply size_submseteq, NoDup_submseteq; [|exact In]. eapply NoDup_fmap_1. by apply (all_pairs_nodup signed_char). }
  assert (Cm : committable signed_char nv).
  { split; [done|done|done|by rewrite Er, Sz| | |].
    - rewrite Er. unfold NVRAM_SPACE. lia.
    - rewrite Ba, Er. split; [done|]. pose proof (Nat.div_mod_eq (length data) PAGE) as D. rewrite Pg in D.
      replace (Z.of_nat (length data)) with (Z.of_nat (length data / PAGE) * 1024 * 4)%Z by (unfold PAGE in *; lia). apply Z_mod_mult.
    - rewrite Ba, Er. lia. }
  destruct (commit_run signed_char nv Cm) as (pre & l & tail & len & w & cr & cn & nv' & C & E & Em & To' & M' & Eb' & Ee' & V').
  assert (El : l = all_pairs nv) by (apply C; lia).
  assert (Ln : length (nv_mmap nv') = length data).
  { pose proof (cd_data _ _ _ _ _ _ _ _ _ C) as Ld. pose proof (cd_size _ _ _ _ _ _ _ _ _ C) as Ls.
    rewrite Em, length_app, length_app. rewrite Ld. change (length (header_bytes len w cr cn)) with HEADER. unfold HEADER in *. lia. }
  assert (Ll : ∀ n, m n = lookup_last l n) by (intros n; by rewrite El, (lookup_all_pairs signed_char), V).
  exists nv', l, w, cr, cn. split_and!; [done..| | |done|by rewrite El].
  - split; [|by rewrite El|by apply (committed_ranges signed_char) in C|by rewrite Ln|rewrite Ln; lia].
    exists pre, tail, len. split; [done|]. pose proof (cd_size _ _ _ _ _ _ _ _ _ C). lia.
  - intros n. unfold image_var. rewrite <-Ll. destruct (m n) eqn:Hn; [done|]. by apply Sd.
Qed.

End Run.
