(* ===== verification/NvramTotal.v ===== *)
(** * Termination of the [nvram] command

    The loops of the model run on fuel; for every image, every file system and
    every command line the fuel is enough. *)
From S2P Require Import Prelude CLib CStr NvCrc Nvram NvramCli.
From Stdlib Require Import Ascii.
Open Scope pr30_scope.

(** ** Computations that end *)

(** The run ends, and if it has a result, the state after it is related to
    the one before. *)
Definition ends_at {St A} (R : St → St → Prop) (s : St) (r : outcome (A * St)) : Prop :=
  match r with Done (_, s') => R s s' | Crash => True | NoFuel => False end.
Definition ends {St A} (R : St → St → Prop) (m : M St A) : Prop := ∀ s, ends_at R s (m s).

Section Ends.
Context {St : Type} (R : St → St → Prop) `{!PreOrder R}.

Lemma ends_return {A} (a : A) : ends R (mreturn a).
Proof. intros s. unfold ends_at. simpl. reflexivity. Qed.
Lemma ends_gets {A} (f : St → A) : ends R (mgets f).
Proof. intros s. unfold ends_at. simpl. reflexivity. Qed.
Lemma ends_deref {A} (o : option A) : ends R (mderef o).
Proof. intros s. unfold ends_at, mderef. destruct o; [reflexivity|done]. Qed.
Lemma then_at {A B} (m : M St A) (k : A → M St B) s0 s :
  R s0 s → ends R m → (∀ a s', R s0 s' → ends_at R s0 (k a s')) → ends_at R s0 (mthen m k s).
Proof.
  intros Rs Hm Hk. unfold mthen. specialize (Hm s). destruct (m s) as [[a s']| |]; [|done..]. apply Hk. by etransitivity.
Qed.
Lemma at_trans {A} s0 s (r : outcome (A * St)) : R s0 s → ends_at R s r → ends_at R s0 r.
Proof. intros Rs. destruct r as [[a s']| |]; [|done..]. intros Rr. simpl in *. by etransitivity. Qed.
Lemma ends_then {A B} (m : M St A) (k : A → M St B) : ends R m → (∀ a, ends R (k a)) → ends R (mthen m k).
Proof. intros Hm Hk s. apply then_at; [reflexivity|done|]. intros a s' Rs. by eapply at_trans, Hk. Qed.
Lemma ends_modify (f : St → St) : (∀ s, R s (f s)) → ends R (mmodify f).
Proof. intros H s. apply H. Qed.
Lemma ends_when b (m : M St ()) : ends R m → ends R (mwhen b m).
Proof. intros H. destruct b; [done|apply ends_return]. Qed.
Lemma ends_iter {A} (f : A → M St ()) l : (∀ x, ends R (f x)) → ends R (miter f l).
Proof. intros H. induction l as [|x l IH]; [apply ends_return|]. by apply ends_then. Qed.
End Ends.

Create HintDb ends discriminated.

(** Goes through a definition, one construct at a time. *)
Ltac ends_step :=
  match goal with
  | |- ends _ (mthen _ _) => apply ends_then; [apply _| |intros ?]
  | |- ends _ (mreturn _) => apply ends_return; apply _
  | |- ends _ (mgets _) => apply ends_gets; apply _
  | |- ends _ (mderef _) => apply ends_deref; apply _
  | |- ends _ (mwhen _ _) => apply ends_when; [apply _|]
  | |- ends _ (miter _ _) => apply ends_iter; [apply _|intros ?]
  | |- ends _ (match ?x with _ => _ end) => destruct x
  end.
Ltac ends_solve := repeat (first [solve [auto with ends] | ends_step]).

(** ** The library *)

(** The image keeps its size. *)
Definition same_size (h h' : nvram) : Prop := length (nv_mmap h') = length (nv_mmap h).
#[local] Instance same_size_preorder : PreOrder same_size.
Proof. split; [done|]. intros h1 h2 h3 E1 E2. unfold same_size in *. congruence. Qed.

Lemma malloc_ends : ends same_size malloc.
Proof. intros h. unfold ends_at, malloc. by destruct (nv_mem h). Qed.
Lemma get8_ends p : ends same_size (get8 p).
Proof. intros h. unfold ends_at, get8, mderef. by destruct (nv_mmap h !! p). Qed.
Lemma get32_ends p : ends same_size (get32 p).
Proof. intros h. unfold ends_at, get32. by destruct (_ <=? _). Qed.
Lemma put_ends p l : ends same_size (put p l).
Proof.
  intros h. unfold ends_at, put. destruct (Nat.leb_spec (p + length l) (length (nv_mmap h))); [|done].
  unfold same_size. simpl. rewrite !length_app, length_take, length_drop. lia.
Qed.
Lemma string_at_ends p : ends same_size (string_at p).
Proof. intros h. unfold ends_at, string_at, mderef. by destruct (cstr_of _). Qed.
Lemma put_chain_ends i l : ends same_size (put_chain i l).
Proof. by apply ends_modify. Qed.
Lemma free_ends : ends same_size _nvram_free.
Proof. apply ends_then; [apply _|by apply ends_modify|]. intros _. by apply ends_modify. Qed.
#[local] Hint Resolve malloc_ends get8_ends get32_ends put_ends string_at_ends put_chain_ends free_ends : ends.

Section Total.
Context (signed_char : bool) (map_addr : Z) (mappable : string → bool) (i0 esz0 : Z) (percent : Z → string).

Lemma get_ends name : ends same_size (nvram_get signed_char name).
Proof. unfold nvram_get. ends_solve. Qed.
Lemma realloc_ends t name value : ends same_size (_nvram_realloc t name value).
Proof. unfold _nvram_realloc. cbv zeta. ends_solve. Qed.
#[local] Hint Resolve get_ends realloc_ends : ends.
Lemma set_ends name value : ends same_size (nvram_set signed_char name value).
Proof. unfold nvram_set. cbv zeta. ends_solve. Qed.
Lemma unset_ends name : ends same_size (nvram_unset signed_char name).
Proof. unfold nvram_unset. cbv zeta. ends_solve. Qed.
#[local] Hint Resolve set_ends unset_ends : ends.
Lemma getall_chain_ends chain l : ends same_size (getall_chain chain l).
Proof. revert l. induction chain as [|t chain IH]; intros l; cbn [getall_chain]; ends_solve. Qed.
#[local] Hint Resolve getall_chain_ends : ends.
Lemma getall_ends : ends same_size nvram_getall.
Proof.
  unfold nvram_getall. generalize (seq 0 NVRAM_HASH) (@nil nvram_tuple).
  induction l as [|i ix IH]; intros l0; cbn [getall_f]; ends_solve.
Qed.
Lemma write_chain_ends chain ptr e : ends same_size (write_chain chain ptr e).
Proof. revert ptr. induction chain as [|t chain IH]; intros ptr; cbn [write_chain]; cbv zeta; ends_solve. Qed.
#[local] Hint Resolve getall_ends write_chain_ends : ends.
Lemma write_tuples_ends ix ptr e : ends same_size (write_tuples ix ptr e).
Proof. revert ptr. induction ix as [|i ix IH]; intros ptr; cbn [write_tuples]; ends_solve. Qed.
Lemma header_words_ends : ends same_size (header_words signed_char).
Proof. unfold header_words. cbv zeta. ends_solve. Qed.
#[local] Hint Resolve write_tuples_ends header_words_ends : ends.

(** The loop over the image: every turn moves on by two characters at least,
    and a turn starts inside the image. *)
Lemma rehash_f_ends n name h : length (nv_mmap h) < n + name → 0 < n → ends_at same_size h (rehash_f signed_char n name h).
Proof.
  revert name h. induction n as [|n IH]; intros name h L P; [lia|]. cbn [rehash_f]. unfold get8 at 1, mthen at 1.
  destruct (nv_mmap h !! name) as [c|] eqn:Hc; cbn [mderef]; [|done]. destruct (isc c NUL); [done|].
  pose proof (lookup_lt_Some _ _ _ Hc) as Ln. unfold mthen at 1, strchr_at.
  destruct (scan _ _) as [[o|]|]; cbn [fmap option_fmap option_map]; [|done..].
  repeat (apply then_at; [apply _|done|solve [auto with ends]|intros ? ? ?]).
  eapply at_trans; [apply _|done|]. apply IH; [|lia].
  match goal with H : same_size h ?s |- context [nv_mmap ?s] => rewrite (H : length (nv_mmap s) = length (nv_mmap h)) end. lia.
Qed.
Lemma rehash_ends : ends same_size (_nvram_rehash signed_char).
Proof.
  intros h. unfold _nvram_rehash. do 2 (apply then_at; [apply _|done || reflexivity|ends_solve|intros ? ? ?]).
  unfold mgets at 1, mthen at 1. apply (at_trans _ _ s'0); [done|]. unfold mthen at 1.
  pose proof (rehash_f_ends (S (length (nv_mmap s'0))) (a + HEADER) s'0 ltac:(lia) ltac:(lia)) as E.
  destruct (rehash_f _ _ _ s'0) as [[? s2]| |]; [|done..]. apply (at_trans _ _ s2); [done|].
  match goal with |- ends_at _ _ (?m s2) => cut (ends same_size m); [intros K; apply K|] end. unfold set_missing. ends_solve.
Qed.
#[local] Hint Resolve rehash_ends : ends.
Lemma commit_ends : ends same_size (nvram_commit signed_char).
Proof. unfold nvram_commit, pad_to_4, memset, put32. cbv zeta. ends_solve. Qed.
#[local] Hint Resolve commit_ends : ends.

(** ** The command *)

Definition anything (w w' : world) : Prop := True.
#[local] Instance anything_preorder : PreOrder anything.
Proof. by split. Qed.

Lemma modify_ends f : ends anything (mmodify f).
Proof. by apply ends_modify. Qed.
Lemma w_malloc_ends : ends anything w_malloc.
Proof. intros w. unfold ends_at, w_malloc. by destruct (w_mem w). Qed.
Lemma with_handle_ends {A} (m : N A) h : ends same_size m → ends anything (with_handle m h).
Proof. intros H w. unfold ends_at, with_handle. specialize (H (nv_set_mem (w_mem w) (ha_nv h))). by destruct (m _) as [[a nv]| |]. Qed.
#[local] Hint Resolve modify_ends w_malloc_ends with_handle_ends : ends.
Lemma mtd_path_ends i : ends anything (mtd_path i).
Proof. unfold mtd_path, is_blk, stat_mode. cbv zeta. ends_solve. Qed.
#[local] Hint Resolve mtd_path_ends : ends.
Lemma find_mtd_ends : ends anything (nvram_find_mtd i0 esz0).
Proof.
  unfold nvram_find_mtd. cbv zeta. assert (H : ∀ lines i esz, ends anything (find_mtd_f lines i esz)).
  { induction lines as [|line lines IH]; intros i esz; cbn [find_mtd_f]; cbv zeta; ends_solve. }
  ends_solve.
Qed.
Lemma find_staging_ends : ends anything nvram_find_staging.
Proof. unfold nvram_find_staging, stat_mode. ends_solve. Qed.
#[local] Hint Resolve find_mtd_ends find_staging_ends : ends.
Lemma to_staging_ends : ends anything (nvram_to_staging i0 esz0).
Proof. unfold nvram_to_staging, read_buf. ends_solve. Qed.
Lemma from_staging_ends : ends anything (staging_to_nvram i0 esz0).
Proof. unfold staging_to_nvram, read_buf. ends_solve. Qed.
#[local] Hint Resolve to_staging_ends from_staging_ends : ends.
Lemma open_ends file ro : ends anything (nvram_open signed_char map_addr mappable i0 esz0 file ro).
Proof. unfold nvram_open, memset, nvram_header, munmap. cbv zeta. ends_solve. apply with_handle_ends. ends_solve. Qed.
Lemma close_ends h : ends anything (nvram_close h).
Proof. unfold nvram_close, munmap. ends_solve. Qed.
#[local] Hint Resolve open_ends close_ends : ends.
Lemma open_rdonly_ends : ends anything (nvram_open_rdonly signed_char map_addr mappable i0 esz0).
Proof. unfold nvram_open_rdonly. ends_solve. Qed.
Lemma open_staging_ends : ends anything (nvram_open_staging signed_char map_addr mappable i0 esz0).
Proof. unfold nvram_open_staging. ends_solve. Qed.
Lemma do_show_ends h : ends anything (do_show h).
Proof. unfold do_show, print_line. ends_solve. Qed.
Lemma do_get_ends h k : ends anything (do_get signed_char h k).
Proof. unfold do_get, print_line. ends_solve. Qed.
Lemma do_unset_ends h k : ends anything (do_unset signed_char h k).
Proof. unfold do_unset. ends_solve. Qed.
Lemma do_set_ends h k : ends anything (do_set signed_char h k).
Proof. unfold do_set. ends_solve. Qed.
Lemma do_info_ends h : ends anything (do_info percent h).
Proof. unfold do_info, print_line, nvram_header, bytes_at. ends_solve. apply with_handle_ends. ends_solve. Qed.
#[local] Hint Resolve open_rdonly_ends open_staging_ends do_show_ends do_get_ends do_unset_ends do_set_ends do_info_ends : ends.

(** [takes] does not move back. *)
Lemma takes_at {B} argv i cmd (k : nat * bool → W B) w :
  (∀ j b, i ≤ j → ends_at anything w (k (j, b) w)) → ends_at anything w (mthen (takes argv i cmd) k w).
Proof.
  intros H. unfold takes, arg, mthen, mderef. destruct (argv !! i) as [a|]; [|done]. case_decide; apply H; lia.
Qed.

Lemma expect_write_ends n argv i w : length argv < n + i → 0 < n → ends_at anything w (expect_write n argv i w).
Proof.
  revert i w. induction n as [|n IH]; intros i w L P; [lia|]. cbn [expect_write].
  destruct (Nat.ltb_spec i (length argv)); cbn [negb]; [|done].
  apply takes_at. intros j b Lj. destruct b; [done|]. apply takes_at. intros k b Lk. destruct b; [done|].
  unfold arg, mthen, mderef. destruct (argv !! k); [|done]. case_decide; [done|]. apply IH; lia.
Qed.

Lemma commands_ends n argv i p w : length argv < n + i → 0 < n → ends_at anything w (commands signed_char percent n argv i p w).
Proof.
  revert i p w. induction n as [|n IH]; intros i p w L P; [lia|]. cbn [commands].
  destruct (Nat.ltb_spec i (length argv)); cbn [negb]; [|done].
  assert (Go : ∀ (m : W (Z * handle)) j, i ≤ j → ends anything m →
    ends_at anything w (mthen m (λ r, commands signed_char percent n argv (S j) (did p r)) w)).
  { intros m j Lj Em. apply then_at; [apply _|done|done|]. intros r w' _. apply (IH (S j) (did p r) w'); lia. }
  unfold arg at 1, mthen at 1, mderef at 1. destruct (argv !! i) as [a|]; [|done].
  case_decide; [apply Go; [lia|auto with ends]|]. case_decide; [apply Go; [lia|auto with ends]|].
  do 3 (apply takes_at; intros ? ? ?;
    match goal with b : bool |- _ => destruct b end;
    [unfold arg, mthen at 1, mderef; match goal with |- context [argv !! ?j] => destruct (argv !! j); [|done] end;
     apply Go; [lia|auto with ends]|]).
  unfold arg, mthen at 1, mderef. match goal with |- context [argv !! ?j] => destruct (argv !! j); [|done] end.
  case_decide; [apply IH; lia|done].
Qed.

Lemma main_ends argv : ends anything (main signed_char map_addr mappable i0 esz0 percent argv).
Proof.
  unfold main. cbv zeta. apply ends_then; [apply _| |].
  { intros w. apply expect_write_ends; lia. }
  intros b. repeat (first [solve [auto with ends]|solve [intros w; apply commands_ends; lia]|ends_step]).
Qed.
End Total.
