(* ===== verification/NvramCmd.v ===== *)
(** * The commands [set], [unset], [get] and [info]

    A world whose staging file holds variables; what one command does to
    them, as the next command sees it.  What [nvram info] prints about an image
    that [nvram_commit] wrote. *)
From S2P Require Import Prelude CLib CStr NvCrc Nvram NvramCli NvramFacts NvramImage NvramCommit NvramRun.
From Stdlib Require Import Ascii.
Open Scope pr30_scope.
#[local] Opaque SP.

Lemma break_hit k v : without [NUL; "="%char] k = true → break_at (λ c, isc c "=") (k +:+ "=" +:+ v) = (k, "=" +:+ v).
Proof.
  induction k as [|c k IH]; intros H; [done|]. rewrite app_cons. cbn [break_at].
  unfold without in H. cbn [all_chars] in H. apply andb_true_iff in H as [Hc Hk].
  destruct (isc c "=") eqn:E; [|by rewrite IH]. apply isc_true in E. subst c. discriminate Hc.
Qed.

Lemma lookup_snoc lv k v n : (if decide (n = k) then Some v else lookup_last lv n) = lookup_last (lv ++ [(k, v)]) n.
Proof.
  induction lv as [|[a b] lv IH]; simpl.
  - destruct (decide (n = k)), (decide (k = n)); congruence.
  - rewrite <-IH. by case_decide; destruct (lookup_last lv n).
Qed.
Lemma lookup_filter lv k n : (if decide (n = k) then None else lookup_last lv n) = lookup_last (filter (λ x : pair, x.1 ≠ k) lv) n.
Proof.
  induction lv as [|[a b] lv IH]; [by case_decide|]. rewrite filter_cons. cbn [lookup_last fst].
  destruct (decide (a ≠ k)) as [Na|Ea]; cbn [lookup_last]; rewrite <-IH; case_decide as D.
  - rewrite decide_False; [done|]. congruence.
  - done.
  - done.
  - destruct (lookup_last lv n); [done|]. rewrite decide_False; [done|]. intros ->. apply Ea. congruence.
Qed.

Lemma delete_staging {A} (f : gmap string A) i j x y : i ≠ j → delete i (<[j := x]> (<[i := y]> f)) = delete i (<[j := x]> f).
Proof.
  intros N. apply map_eq. intros k. destruct (decide (k = i)) as [->|Nk]; [by rewrite !lookup_delete_eq|].
  rewrite !lookup_delete_ne by done. destruct (decide (k = j)) as [->|Nj]; [by rewrite !lookup_insert_eq|]. by rewrite !lookup_insert_ne.
Qed.

Section Commands.
Context (signed_char : bool) (map_addr : Z) (mappable : string → bool) (i0 esz0 : Z) (percent : Z → string).
#[local] Abbreviation find_mtd := (nvram_find_mtd i0 esz0).
#[local] Abbreviation main := (main signed_char map_addr mappable i0 esz0 percent).
#[local] Abbreviation commands := (commands signed_char percent).
#[local] Abbreviation opened := (opened signed_char map_addr).

(** A new process can be started: the staging file holds the variables [m] in
    at most [u] bytes, the device is found and tells the size of the image,
    the file can be mapped, at an aligned address that is not too high, and
    there is memory. *)
Record ready (w : world) (m : string → option string) (u : nat) : Prop := {
  rd_mem : w_mem w = [];
  rd_erase : w_erase w = 0%Z;
  rd_map : mappable NVRAM_STAGING = true;
  rd_addr : (map_addr mod 4 = 0 ∧ 0 <= map_addr)%Z;
  rd_image : ∃ dev mode data l ww cr cn,
    find_mtd w = Done (Some dev, w_set_erase (Z.of_nat (length data)) w) ∧
    w_files w !! NVRAM_STAGING = Some (Node mode data) ∧ Z.land mode S_IFREG ≠ 0%Z ∧
    (map_addr + Z.of_nat (length data) <= 2 ^ 31)%Z ∧
    stored data l ww cr cn ∧ ∀ n, image_var l ww cr cn n = m n;
  rd_vars : ∃ lv, (∀ n, m n = lookup_last lv n) ∧ Forall pair_ok lv ∧ size_of lv ≤ u;
}.

Lemma staging_found w mode data : w_files w !! NVRAM_STAGING = Some (Node mode data) → Z.land mode S_IFREG ≠ 0%Z →
  nvram_find_staging w = Done (Some NVRAM_STAGING, w).
Proof.
  intros F R. unfold nvram_find_staging. rewrite (mthen_done (stat_mode _) _ w (Some mode) w) by (unfold stat_mode, mgets; by rewrite F).
  by rewrite (proj2 (Z.eqb_neq _ _) R).
Qed.

Lemma sdram_some l ww cr cn n w' cr' cn' : image_var l ww cr cn n = None → sdram w' cr' cn' n = None.
Proof. unfold image_var. destruct (lookup_last l n); [done|]. unfold sdram. by repeat (case_decide; [done|]). Qed.

(** What [close] leaves. *)
Lemma close_run nv w mode data : w_mem w = [] → nv_mem nv = [] →
  w_files w !! NVRAM_STAGING = Some (Node mode data) → length (nv_mmap nv) = length data →
  nvram_close (Handle nv (Some NVRAM_STAGING)) w =
    Done (0%Z, w_set_files (<[NVRAM_STAGING := Node mode (nv_mmap nv)]> (w_files w)) w).
Proof.
  intros Mw Mn F L. unfold nvram_close. set (nv' := nv_set_dead [] (nv_set_hash ∅ nv)).
  rewrite (mthen_done _ _ _ _ _ (with_handle_run _nvram_free nv (Some NVRAM_STAGING) w () nv' Mw Mn eq_refl Mn)).
  rewrite (mthen_done (munmap _) _ w () (w_set_files (<[NVRAM_STAGING := Node mode (nv_mmap nv)]> (w_files w)) w)); [done|].
  unfold munmap, mmodify. cbn [ha_file ha_nv]. rewrite F. cbn [nd_data nd_mode]. change (nv_mmap nv') with (nv_mmap nv).
  rewrite take_ge, drop_ge, app_nil_r by lia. done.
Qed.

(** The staging file is not a device. *)
Lemma staging_devices w w' mode data0 data : w_mem w = [] → w_files w !! NVRAM_STAGING = Some (Node mode data0) →
  w_files w' = <[NVRAM_STAGING := Node mode data]> (w_files w) → w_mem w' = [] → same_devices w w'.
Proof.
  intros Mw F E Mw'. split; [done|..].
  - intros n. rewrite E. destruct (decide (NVRAM_STAGING = n)) as [<-|N]; [by rewrite lookup_insert_eq, F|by rewrite lookup_insert_ne].
  - rewrite E. by rewrite lookup_insert_ne.
  - rewrite E. by rewrite lookup_insert_ne.
Qed.

(** The world after a command that wrote the image [data]. *)
Lemma ready_again w m u e mode data0 data w' m' l ww cr cn dev :
  ready w m u → find_mtd w = Done (Some dev, w_set_erase e w) → w_files w !! NVRAM_STAGING = Some (Node mode data0) →
  Z.land mode S_IFREG ≠ 0%Z → e = Z.of_nat (length data) → (map_addr + e <= 2 ^ 31)%Z →
  w' = w_set_files (<[NVRAM_STAGING := Node mode data]> (w_files w)) (w_set_erase e w) →
  stored data l ww cr cn → (∀ n, image_var l ww cr cn n = m' n) → (∀ n, m' n = lookup_last l n) →
  ready (w_set_erase 0 w') m' (size_of l).
Proof.
  intros [Mw Ew Mp Ad _ _] Fd F Rg -> Hi -> St Im Vl. split; [done|done|done|done| |].
  - exists dev, mode, data, l, ww, cr, cn. split_and!; [|by simpl; rewrite lookup_insert_eq|done..].
    pose proof (staging_devices w (w_set_erase 0 (w_set_files (<[NVRAM_STAGING := Node mode data]> (w_files w)) (w_set_erase (Z.of_nat (length data)) w)))
      mode data0 data Mw F eq_refl Mw) as S.
    by rewrite (find_mtd_same _ _ _ _ _ _ S Fd).
  - exists l. split_and!; [done|apply St|done].
Qed.

(** A command that changes the table to the variables [m'], from its
    arguments to its end, or to the copy to the device. *)
Lemma write_run argv w m u m' lv c :
  ready w m u → expect_write (S (length argv)) argv 1 w = Done (true, w) → (1 <? length argv)%nat = true →
  (∀ nv data w1, opened nv data m → w_mem w1 = [] → ∃ nv' st,
     commands (S (length argv)) argv 1 (Progress (Handle nv (Some NVRAM_STAGING)) 1 false 0) w1 =
       Done (Progress (Handle nv' (Some NVRAM_STAGING)) st c 1, w1) ∧ opened nv' data m') →
  (∀ n, m' n = lookup_last lv n) → Forall pair_ok lv → HEADER + size_of lv + 2 ≤ SP →
  (∀ n ww cr cn, m' n = None → sdram ww cr cn n = None) →
  ∃ w' u', main argv w = (if c then staging_to_nvram i0 esz0 else mreturn 0%Z) w' ∧ ready (w_set_erase 0 w') m' u' ∧ u' ≤ size_of lv ∧
    w_stdout w' = w_stdout w ∧ same_devices w w' ∧ ∃ data, w_files w' !! NVRAM_STAGING = Some data ∧ w_files w' = <[NVRAM_STAGING := data]> (w_files w) ∧
    w_erase w' = Z.of_nat (length (nd_data data)).
Proof.
  intros Rd Ex Ln Do Vl Ok Fit Sd. pose proof Rd as [Mw Ew Mp [Al Lo] (dev & mode & data & l & ww & cr & cn & Fd & F & Rg & Hi & St & Im) _].
  unfold NvramCli.main. cbv zeta. rewrite (mthen_done _ _ _ _ _ Ex). set (e := Z.of_nat (length data)) in *. set (w1 := w_set_erase e w) in *.
  destruct (open_run signed_char map_addr mappable i0 esz0 NVRAM_STAGING false w dev mode data l ww cr cn) as (nv & Eo & Op); [done..|].
  rewrite (mthen_done (nvram_open_staging _ _ _ _ _) _ w (Some (Handle nv (Some NVRAM_STAGING))) w1).
  2: { unfold nvram_open_staging. rewrite (mthen_done _ _ _ _ _ (staging_found w mode data F Rg)). exact Eo. }
  rewrite Ln. destruct (Do nv data w1) as (nv1 & st & Ec & Op1); [|done|].
  { destruct Op as [A B C D E V]. split; [done..|]. intros n. by rewrite V, Im. }
  destruct St as [(pre & tail & len & Ed & Lp) _ _ Pg Sm].
  destruct (commit_stored signed_char map_addr nv1 data m' lv Op1 Pg Al Lo Hi ltac:(lia) Vl Ok Fit Sd)
    as (nv2 & l2 & ww2 & cr2 & cn2 & Em & M2 & L2 & St2 & Im2 & Vl2 & Sz2).
  set (w2 := w_set_files (<[NVRAM_STAGING := Node mode (nv_mmap nv2)]> (w_files w)) w1).
  exists w2, (size_of l2). split_and!; [|by eapply (ready_again w m u e mode data (nv_mmap nv2)); first [done|rewrite L2]|done|done| |].
  2: { by apply (staging_devices w w2 mode data (nv_mmap nv2)). }
  2: { exists (Node mode (nv_mmap nv2)). cbn [w2 w_files w_set_files w_erase w1 w_set_erase nd_data]. rewrite lookup_insert_eq, L2. done. }
  assert (E2 : ∀ B (k : Z * Z → W B) (j : W Z),
    mthen (let! p := commands (S (length argv)) argv 1 (Progress (Handle nv (Some NVRAM_STAGING)) 1 false 0) in
           let! (stat, h) := with_handle (nvram_commit signed_char) (pg_h p) in
           let! _ := nvram_close h in
           let! stat := if pg_commit p then j else mreturn stat in
           mreturn (stat, pg_done p)) k w1 = mthen (if c then j else mreturn 0%Z) (λ stat, k (stat, 1%Z)) w2); [|rewrite E2].
  { intros B k j. unfold mthen at 1. rewrite (mthen_done _ _ _ _ _ Ec). cbn [pg_h pg_commit pg_done].
    rewrite (mthen_done _ _ _ _ _ (with_handle_run _ nv1 (Some NVRAM_STAGING) w1 _ _ Mw (op_mem _ _ _ _ _ Op1) Em M2)).
    rewrite (mthen_done _ _ _ _ _ (close_run nv2 w1 mode data Mw M2 F L2)). change (w_files w1) with (w_files w). fold w2. unfold mthen.
    destruct c; [by destruct (j w2) as [[? ?]| |]|done]. }
  unfold mthen. destruct c; [by destruct (staging_to_nvram i0 esz0 w2) as [[? ?]| |]|done].
Qed.

Lemma opened_updated nv data m k o nv' :
  opened nv data m → updated signed_char nv k o nv' → opened nv' data (λ n, if decide (n = k) then o else m n).
Proof.
  intros [To Mm Ba Er Sz V] (To' & (I1 & I2 & I3) & M' & V').
  split; [done|congruence|congruence|congruence|congruence|]. intros n. rewrite V'. case_decide; [done|apply V].
Qed.

Lemma set_command p k v w m u : ready w m u → pair_ok (k, v) → HEADER + size_of [(k, v)] + u + 2 ≤ SP →
  ∃ w' u', main [p; "set"%string; k +:+ "=" +:+ v] w = Done (0%Z, w') ∧
    ready (w_set_erase 0 w') (λ n, if decide (n = k) then Some v else m n) u' ∧ u' ≤ u + size_of [(k, v)] ∧ w_stdout w' = w_stdout w.
Proof.
  intros Rd Ok Fit. destruct (rd_vars _ _ _ Rd) as (lv & Vl & Okl & Szl).
  assert (Sz : size_of (lv ++ [(k, v)]) = size_of lv + size_of [(k, v)]) by apply size_app.
  destruct (write_run [p; "set"%string; k +:+ "=" +:+ v] w m u (λ n, if decide (n = k) then Some v else m n) (lv ++ [(k, v)]) false Rd)
    as (w' & u' & E & Rd' & Hu & So & _); [reflexivity|reflexivity|..].
  - intros nv data w1 Op Mw1. destruct (nvram_set_run signed_char k v nv) as (nv' & Es & Up); [apply Op|apply Op|apply Ok|].
    exists nv', 0%Z. split; [|by apply opened_updated with (nv := nv)].
    change (commands (S (length [p; "set"%string; k +:+ "=" +:+ v])) [p; "set"%string; k +:+ "=" +:+ v] 1
      (Progress (Handle nv (Some NVRAM_STAGING)) 1 false 0) w1) with
      ((let! r := do_set signed_char (Handle nv (Some NVRAM_STAGING)) (k +:+ "=" +:+ v) in
        mreturn (did (Progress (Handle nv (Some NVRAM_STAGING)) 1 false 0) r)) w1).
    unfold do_set. rewrite break_hit by apply Ok. cbn [String.append].
    assert (M' : nv_mem nv' = []) by (destruct Up as (_ & _ & -> & _); apply Op).
    by rewrite (mthen_done _ _ _ _ _ (with_handle_run _ nv (Some NVRAM_STAGING) w1 _ _ Mw1 (op_mem _ _ _ _ _ Op) Es M')).
  - intros n. rewrite Vl. apply lookup_snoc.
  - apply Forall_app. split; [done|]. by apply Forall_singleton.
  - lia.
  - intros n ww cr cn. case_decide; [done|]. destruct (rd_image _ _ _ Rd) as (? & ? & ? & l & ? & ? & ? & ? & ? & ? & ? & ? & Im).
    rewrite <-Im. apply sdram_some.
  - exists w', u'. split_and!; [done..|lia|done].
Qed.

Lemma unset_command p k w m u : ready w m u → HEADER + u + 2 ≤ SP → (∀ ww cr cn, sdram ww cr cn k = None) →
  ∃ w' u', main [p; "unset"%string; k] w = Done (0%Z, w') ∧
    ready (w_set_erase 0 w') (λ n, if decide (n = k) then None else m n) u' ∧ u' ≤ u ∧ w_stdout w' = w_stdout w.
Proof.
  intros Rd Fit Sd. destruct (rd_vars _ _ _ Rd) as (lv & Vl & Okl & Szl).
  set (lv' := filter (λ x : pair, x.1 ≠ k) lv).
  assert (Sl : lv' ⊆+ lv) by apply sublist_submseteq, sublist_filter.
  destruct (write_run [p; "unset"%string; k] w m u (λ n, if decide (n = k) then None else m n) lv' false Rd)
    as (w' & u' & E & Rd' & Hu & So & _); [reflexivity|reflexivity|..].
  - intros nv data w1 Op Mw1. destruct (nvram_unset_run signed_char k nv) as (nv' & Es & Up); [apply Op|].
    exists nv', 0%Z. split; [|by apply opened_updated with (nv := nv)].
    change (commands (S (length [p; "unset"%string; k])) [p; "unset"%string; k] 1
      (Progress (Handle nv (Some NVRAM_STAGING)) 1 false 0) w1) with
      ((let! r := do_unset signed_char (Handle nv (Some NVRAM_STAGING)) k in
        mreturn (did (Progress (Handle nv (Some NVRAM_STAGING)) 1 false 0) r)) w1).
    unfold do_unset. assert (M' : nv_mem nv' = []) by (destruct Up as (_ & _ & -> & _); apply Op).
    by rewrite (mthen_done _ _ _ _ _ (with_handle_run _ nv (Some NVRAM_STAGING) w1 _ _ Mw1 (op_mem _ _ _ _ _ Op) Es M')).
  - intros n. rewrite Vl. apply lookup_filter.
  - apply Forall_forall. intros x [_ Hx]%list_elem_of_filter. by eapply Forall_forall in Okl.
  - pose proof (size_submseteq _ _ Sl). lia.
  - intros n ww cr cn. case_decide as D; [subst n; intros _; apply Sd|].
    destruct (rd_image _ _ _ Rd) as (? & ? & ? & l & ? & ? & ? & ? & ? & ? & ? & ? & Im). rewrite <-Im. apply sdram_some.
  - exists w', u'. pose proof (size_submseteq _ _ Sl). split_and!; [done..|lia|done].
Qed.

(** The exit status of [nvram get]. *)
Definition get_status (o : option string) : Z := match o with Some _ => 0 | None => 1 end.

(** Words that the command looks for in every place. *)
Definition no_command (k : string) : Prop := k ≠ "set"%string ∧ k ≠ "unset"%string ∧ k ≠ "commit"%string.

(** Opening for reading. *)
Lemma rdonly_run w m u : ready w m u →
  ∃ nv data e, nvram_open_rdonly signed_char map_addr mappable i0 esz0 w = Done (Some (Handle nv None), w_set_erase e w) ∧ opened nv data m.
Proof.
  intros [Mw Ew Mp _ (dev & mode & data & l & ww & cr & cn & Fd & F & Rg & Hi & St & Im) _].
  destruct (open_run signed_char map_addr mappable i0 esz0 NVRAM_STAGING true w dev mode data l ww cr cn) as (nv & Eo & Op); [done..|].
  exists nv, data, (Z.of_nat (length data)). split.
  - unfold nvram_open_rdonly. rewrite (mthen_done _ _ _ _ _ (staging_found w mode data F Rg)). exact Eo.
  - destruct Op as [A B C D E V]. split; [done..|]. intros n. by rewrite V, Im.
Qed.

Lemma get_command p k w m u : ready w m u → no_command k →
  ∃ w', main [p; "get"%string; k] w = Done (get_status (m k), w') ∧ w_files w' = w_files w ∧
    w_mem w' = [] ∧ w_stdout w' = w_stdout w ++ (match m k with Some v => [ln v] | None => [] end).
Proof.
  intros Rd (N1 & N2 & N3). destruct (rdonly_run w m u Rd) as (nv & data & e & Eo & Op). pose proof (rd_mem _ _ _ Rd) as Mw.
  assert (Ex : expect_write 4 [p; "get"%string; k] 1 w = Done (false, w)).
  { change (expect_write 3 [p; "get"%string; k] 2 w = Done (false, w)). cbn [expect_write length Nat.ltb Nat.leb negb].
    unfold takes. rewrite !(mthen_done _ _ w (2, false) w) by
      (rewrite (mthen_done (arg _ _) _ w k w) by done; by rewrite decide_False).
    rewrite (mthen_done (arg _ _) _ w k w) by done. by rewrite decide_False. }
  unfold NvramCli.main. cbv zeta. cbn [length]. rewrite (mthen_done _ _ _ _ _ Ex). set (w1 := w_set_erase e w) in *.
  rewrite (mthen_done _ _ _ _ _ Eo).
  cbn [Nat.ltb Nat.leb].
  set (w2 := match m k with Some v => w_print (ln v) w1 | None => w1 end).
  assert (Ec : commands 4 [p; "get"%string; k] 1 (Progress (Handle nv None) 1 false 0) w1 =
    Done (Progress (Handle nv None) (get_status (m k)) false 1, w2)).
  { change (commands 4 [p; "get"%string; k] 1 (Progress (Handle nv None) 1 false 0) w1) with
      ((let! r := do_get signed_char (Handle nv None) k in mreturn (did (Progress (Handle nv None) 1 false 0) r)) w1).
    unfold do_get. pose proof (with_handle_run _ nv None w1 _ _ Mw (op_mem _ _ _ _ _ Op) (nvram_get_run signed_char k nv) (op_mem _ _ _ _ _ Op)) as G.
    rewrite (op_var _ _ _ _ _ Op) in G. unfold w2. destruct (m k) as [v|].
    - rewrite (mthen_done _ _ w1 (0%Z, Handle nv None) (w_print (ln v) w1)); [done|]. by rewrite (mthen_done _ _ _ _ _ G).
    - rewrite (mthen_done _ _ w1 (1%Z, Handle nv None) w1); [done|]. by rewrite (mthen_done _ _ _ _ _ G). }
  exists w2. split_and!; [|by unfold w2; destruct (m k)|by unfold w2; destruct (m k)|unfold w2; destruct (m k); [done|by rewrite app_nil_r]].
  rewrite (mthen_done _ _ w1 (get_status (m k), 1%Z) w2); [done|]. rewrite (mthen_done _ _ _ _ _ Ec). cbn [pg_h pg_commit pg_done pg_stat].
  rewrite (mthen_done (mreturn _) _ w2 _ w2 eq_refl). cbv beta iota.
  assert (M2 : w_mem w2 = []) by (unfold w2; by destruct (m k)).
  set (nv' := nv_set_dead [] (nv_set_hash ∅ nv)).
  rewrite (mthen_done (nvram_close _) _ w2 0%Z w2); [done|]. unfold nvram_close.
  by rewrite (mthen_done _ _ _ _ _ (with_handle_run _nvram_free nv None w2 () nv' M2 (op_mem _ _ _ _ _ Op) eq_refl (op_mem _ _ _ _ _ Op))).
Qed.

(** Readiness is a matter of the files. *)
Lemma ready_files w m u w' : ready w m u → w_files w' = w_files w → w_mem w' = [] → w_erase w' = 0%Z → ready w' m u.
Proof.
  intros [Mw Ew Mp Ad (dev & mode & data & l & ww & cr & cn & Fd & Im) Vs] Ef Mw' Ew'. split; [done..| |done].
  exists dev, mode, data, l, ww, cr, cn. rewrite Ef. split; [|done].
  by rewrite (find_mtd_same i0 esz0 w w' _ _ ltac:(by split; rewrite ?Ef) Fd).
Qed.
Lemma ready_ext w m m' u : (∀ n, m n = m' n) → ready w m u → ready w m' u.
Proof.
  intros E [Mw Ew Mp Ad (dev & mode & data & l & ww & cr & cn & Fd & F & Rg & Hi & St & Im) (lv & Vl & Ok)].
  split; [done..| |].
  - exists dev, mode, data, l, ww, cr, cn. split_and!; try done. intros n. by rewrite Im, E.
  - exists lv. split; [|done]. intros n. by rewrite <-E, Vl.
Qed.

(** [nvram commit]: the image goes to the device, the staging file goes. *)
Lemma commit_command p w m u dev nd : ready w m u → HEADER + u + 2 ≤ SP →
  (∃ w0, find_mtd w = Done (Some dev, w0)) → w_files w !! dev = Some nd → dev ≠ NVRAM_STAGING →
  ∃ w' data l ww cr cn, main [p; "commit"%string] w = Done (0%Z, w') ∧
    w_files w' = delete NVRAM_STAGING (<[dev := Node (nd_mode nd) (write_over (nd_data nd) data)]> (w_files w)) ∧
    stored data l ww cr cn ∧ ∀ n, image_var l ww cr cn n = m n.
Proof.
  intros Rd Fit [w0 Fw] Nd Ne. destruct (rd_vars _ _ _ Rd) as (lv & Vl & Okl & Szl).
  destruct (write_run [p; "commit"%string] w m u m lv true Rd) as (w' & u' & E & Rd' & Hu & So & Sd & fd & F1 & F2 & Er);
    [reflexivity|reflexivity| |done|done|lia| |].
  - intros nv data w1 Op Mw1. exists nv, 1%Z. split; [reflexivity|done].
  - intros n ww cr cn. destruct (rd_image _ _ _ Rd) as (? & ? & ? & l & ? & ? & ? & ? & ? & ? & ? & ? & Im). rewrite <-Im. apply sdram_some.
  - destruct (rd_image _ _ _ Rd') as (dev' & mode & data & l & ww & cr & cn & Fd & F & Rg & Hi & St & Im).
    change (w_files (w_set_erase 0 w')) with (w_files w') in F. rewrite F in F1. injection F1 as <-. cbn [nd_data] in Er.
    pose proof (find_mtd_same i0 esz0 _ _ _ _ Sd Fw) as Fd1.
    assert (Fd2 : find_mtd w' = Done (Some dev, w')).
    { pose proof (find_mtd_same i0 esz0 (w_set_erase 0 w') w' _ _ ltac:(split; [split; apply (proj2 (sd_mem _ _ Sd))|done..]) Fd) as H.
      rewrite H in Fd1. injection Fd1 as -> _. rewrite H. cbn [w_erase w_set_erase]. rewrite <-Er. by destruct w'. }
    exists (w_set_files (delete NVRAM_STAGING (<[dev := Node (nd_mode nd) (write_over (nd_data nd) data)]> (w_files w'))) w'), data, l, ww, cr, cn.
    rewrite E. split_and!; [|cbn [w_files w_set_files]; rewrite F2; by apply delete_staging|done|done].
    unfold staging_to_nvram. rewrite (mthen_done _ _ _ _ _ Fd2), (mthen_done (mgets _) _ w' _ w' eq_refl).
    destruct (so_image _ _ _ _ _ St) as (? & ? & ? & _ & Lp). pose proof SP_eq.
    rewrite Er, (proj2 (Z.ltb_lt _ _)) by lia.
    rewrite (mthen_done (read_buf _) _ w' (Some data) w').
    2: { unfold read_buf, mgets. rewrite F, Er, Nat2Z.id. cbn [nd_data]. by rewrite Nat.leb_refl, take_ge. }
    assert (Fn : w_files w' !! dev = Some nd) by (rewrite F2, lookup_insert_ne by (intros Hs; by apply Ne); exact Nd).
    rewrite (mthen_done (mgets _) _ w' (Some nd) w') by (unfold mgets; rewrite Fn; reflexivity). reflexivity.
Qed.
End Commands.

(** ** [nvram info] *)

#[local] Opaque crc8.

Section Info.
Context (signed_char : bool) (percent : Z → string).

(** The header as [do_info] reads it, and the checksum it calculates. *)
Definition info_reads : N (Z * Z * Z * Z * Z * Z) :=
  let! hdr := nvram_header in
  let! magic := get32 (hdr + magic_at) in
  let! len := get32 (hdr + len_at) in
  let! crc_ver_init := get32 (hdr + crc_ver_init_at) in
  let! config_refresh := get32 (hdr + config_refresh_at) in
  let! config_ncdl := get32 (hdr + config_ncdl_at) in
  let! data := bytes_at (hdr + NVRAM_CRC_START_POSITION) in
  let! crc := mderef (hndcrc8 data (Z.to_nat (u32 (len - Z.of_nat NVRAM_CRC_START_POSITION))) 0xff) in
  mreturn (magic, len, crc_ver_init, config_refresh, config_ncdl, crc).

Lemma info_reads_run h pre data len w cr cn :
  nv_mmap h = pre ++ header_bytes len w cr cn ++ data → NVRAM_START (nv_erase h) = length pre →
  (20 <= len < 2 ^ 32)%Z → Z.to_nat len ≤ HEADER + length data →
  (0 <= w < 2 ^ 32 ∧ 0 <= cr < 2 ^ 32 ∧ 0 <= cn < 2 ^ 32)%Z →
  info_reads h = Done ((NVRAM_MAGIC, len, w, cr, cn, crc8 (crc_bytes len (header_bytes len w cr cn ++ data)) 0xff), h).
Proof.
  intros E St Rl Ll (Rw & Rr & Rn). unfold info_reads.
  rewrite (mthen_done nvram_header _ h (length pre) h) by (unfold nvram_header, mgets; rewrite St; reflexivity).
  unfold header_bytes in E.
  rewrite (mthen_done _ _ _ _ _ (get32_run (length pre + magic_at) pre NVRAM_MAGIC (le32 len ++ le32 w ++ le32 cr ++ le32 cn ++ data) h
    ltac:(rewrite E, <-!app_assoc; reflexivity) ltac:(unfold magic_at; lia) ltac:(unfold NVRAM_MAGIC; lia))).
  rewrite (mthen_done _ _ _ _ _ (get32_run (length pre + len_at) (pre ++ le32 NVRAM_MAGIC) len (le32 w ++ le32 cr ++ le32 cn ++ data) h
    ltac:(rewrite E, <-!app_assoc; reflexivity) ltac:(rewrite !length_app; reflexivity) ltac:(lia))).
  rewrite (mthen_done _ _ _ _ _ (get32_run (length pre + crc_ver_init_at) (pre ++ le32 NVRAM_MAGIC ++ le32 len) w (le32 cr ++ le32 cn ++ data) h
    ltac:(rewrite E, <-!app_assoc; reflexivity) ltac:(rewrite !length_app; reflexivity) Rw)).
  rewrite (mthen_done _ _ _ _ _ (get32_run (length pre + config_refresh_at) (pre ++ le32 NVRAM_MAGIC ++ le32 len ++ le32 w) cr (le32 cn ++ data) h
    ltac:(rewrite E, <-!app_assoc; reflexivity) ltac:(rewrite !length_app; reflexivity) Rr)).
  rewrite (mthen_done _ _ _ _ _ (get32_run (length pre + config_ncdl_at) (pre ++ le32 NVRAM_MAGIC ++ le32 len ++ le32 w ++ le32 cr) cn data h
    ltac:(rewrite E, <-!app_assoc; reflexivity) ltac:(rewrite !length_app; reflexivity) Rn)).
  fold (header_bytes len w cr cn) in E. set (image := header_bytes len w cr cn ++ data) in *.
  rewrite (mthen_done (bytes_at _) _ h (drop NVRAM_CRC_START_POSITION (map code image)) h).
  2: { unfold bytes_at, mgets. rewrite E, <-drop_drop, drop_app_length. symmetry. do 2 f_equal. }
  assert (Li : length (drop NVRAM_CRC_START_POSITION (map code image)) = HEADER + length data - NVRAM_CRC_START_POSITION).
  { rewrite length_drop, length_map. unfold image. rewrite length_app. done. }
  replace (Z.to_nat (u32 (len - Z.of_nat NVRAM_CRC_START_POSITION))) with (Z.to_nat len - NVRAM_CRC_START_POSITION).
  2: { unfold u32, NVRAM_CRC_START_POSITION. rewrite Z.mod_small by lia. lia. }
  rewrite hndcrc8_take; [reflexivity|rewrite Li; lia| |unfold is_byte; lia].
  apply Forall_drop, codes_bytes.
Qed.

(** The two numbers on the line of the checksum are the same. *)
Definition crc_line (stored calculated : Z) : string :=
  ln ("CRC8:          0x" +:+ print_X 2 stored +:+ " (calculated: 0x" +:+ print_X 2 calculated +:+ ")").

Lemma do_info_run h f w magic len cvi cr cn crc : w_mem w = [] → nv_mem h = [] →
  info_reads h = Done ((magic, len, cvi, cr, cn, crc), h) →
  ∃ w' l1 l2 rest, do_info percent (Handle h f) w = Done ((0%Z, Handle h f), w') ∧
    w_stdout w' = w_stdout w ++ [l1; l2] ++ crc_line (Z.land cvi 0xFF) crc :: rest.
Proof.
  intros Mw Mh E. pose proof (with_handle_run info_reads h f w _ _ Mw Mh E Mh) as R.
  unfold do_info. fold info_reads. rewrite (mthen_done _ _ _ _ _ R). cbv beta iota.
  eexists _, _, _, _. split; [reflexivity|]. cbn [w_stdout w_print]. rewrite <-!app_assoc. reflexivity.
Qed.

Lemma commit_info h : committable signed_char h →
  ∃ h', nvram_commit signed_char h = Done (0%Z, h') ∧ ∀ f w, w_mem w = [] →
    ∃ w' l1 l2 rest crc, do_info percent (Handle h' f) w = Done ((0%Z, Handle h' f), w') ∧
      w_stdout w' = w_stdout w ++ [l1; l2] ++ crc_line crc crc :: rest.
Proof.
  intros Cm. destruct (commit_run signed_char h Cm) as (pre & l & tail & len & cvi & cr & cn & h' & C & E & Em & To & M & Eb & Ee & V).
  exists h'. split; [done|]. intros f w Mw. destruct (cd_len _ _ _ _ _ _ _ _ _ C) as [Ll _]. pose proof SP_eq as Esp.
  pose proof (cd_data _ _ _ _ _ _ _ _ _ C) as Ld. unfold NVRAM_SPACE in Ll.
  assert (R := info_reads_run h' pre (entries l ++ NUL :: tail) len cvi cr cn Em ltac:(rewrite Ee; apply C)
    ltac:(unfold HEADER in *; lia) ltac:(rewrite Ld; unfold HEADER in *; lia) (committed_ranges _ _ _ _ _ _ _ _ _ C)).
  destruct (do_info_run h' f w _ _ _ _ _ _ Mw M R) as (w' & l1 & l2 & rest & Ei & So).
  exists w', l1, l2, rest, (crc8 (crc_bytes len (header_bytes len cvi cr cn ++ entries l ++ NUL :: tail)) 0xff).
  split; [done|]. rewrite land_255, (cd_crc _ _ _ _ _ _ _ _ _ C) in So. exact So.
Qed.
End Info.
