(* ===== verification/NvramStore.v ===== *)
(** * Stores of variables

    What a store of named values promises to its clients, and the two stores
    of the package: a handle of the library, and the files that the [nvram]
    command works on. *)
From S2P Require Import Prelude CLib CStr NvCrc Nvram NvramCli NvramFacts NvramImage NvramCommit NvramRun NvramCmd.
From Stdlib Require Import Ascii.
Open Scope pr30_scope.
#[local] Opaque SP.

(** ** The interface *)

Inductive call : Set := Get (k : string) | Put (k v : string) | Unset (k : string).

(** The effect of a call on the variables. *)
Definition call_effect (c : call) (m : gmap string string) : gmap string string :=
  match c with Get _ => m | Put k v => <[k := v]> m | Unset k => delete k m end.

(** A store with its answers: which calls it takes, the room they need, the
    answer that the variables determine, and the states that hold given
    variables and have given room. *)
Class VarStore (St Ans : Type) : Type := {
  vs_call : call → M St Ans;
  vs_takes : call → Prop;
  vs_cost : call → nat;
  vs_answer : gmap string string → call → Ans;
  vs_holds : St → gmap string string → nat → Prop;
  vs_law s m r c : vs_holds s m r → vs_takes c → vs_cost c ≤ r →
    ∃ s', vs_call c s = Done (vs_answer m c, s') ∧ vs_holds s' (call_effect c m) (r - vs_cost c);
}.

(** ** Sequences of calls *)

Section Client.
Context {St Ans : Type} `{VarStore St Ans}.

Fixpoint vs_calls (cs : list call) : M St (list Ans) :=
  match cs with
  | [] => mreturn []
  | c :: cs => let! a := vs_call c in let! rest := vs_calls cs in mreturn (a :: rest)
  end.
Fixpoint vs_answers (m : gmap string string) (cs : list call) : list Ans :=
  match cs with [] => [] | c :: cs => vs_answer m c :: vs_answers (call_effect c m) cs end.
Definition effects (cs : list call) (m : gmap string string) : gmap string string := foldl (λ m c, call_effect c m) m cs.
Definition vs_costs (cs : list call) : nat := sum_list (vs_cost <$> cs).

Lemma costs_cons c cs : vs_costs (c :: cs) = vs_cost c + vs_costs cs.
Proof. done. Qed.
Lemma calls_run cs s m r : vs_holds s m r → Forall vs_takes cs → vs_costs cs ≤ r →
  ∃ s', vs_calls cs s = Done (vs_answers m cs, s') ∧ vs_holds s' (effects cs m) (r - vs_costs cs).
Proof.
  revert s m r. induction cs as [|c cs IH]; intros s m r Hs Ht Hc.
  - exists s. split; [done|]. by rewrite Nat.sub_0_r.
  - apply Forall_cons in Ht as [Tc Ht]. rewrite costs_cons in *.
    destruct (vs_law s m r c Hs Tc) as (s1 & E1 & H1); [lia|].
    destruct (IH s1 (call_effect c m) (r - vs_cost c) H1 Ht) as (s2 & E2 & H2); [lia|].
    exists s2. cbn [vs_calls]. rewrite (mthen_done _ _ _ _ _ E1), (mthen_done _ _ _ _ _ E2). split; [done|].
    by rewrite Nat.sub_add_distr.
Qed.
End Client.

(** ** A handle of the library *)

Section Library.
Context (signed_char : bool).

(** The status of a change, or the value that was asked for. *)
Definition library_call (c : call) : N (Z + option string) :=
  match c with
  | Get k => let! o := nvram_get signed_char (Some k) in mreturn (inr o)
  | Put k v => let! r := nvram_set signed_char k v in mreturn (inl r)
  | Unset k => let! r := nvram_unset signed_char (Some k) in mreturn (inl r)
  end.
Definition library_takes (c : call) : Prop :=
  match c with Put _ v => (Z.of_nat (String.length v) + 1 <= NVRAM_SPACE)%Z | _ => True end.
Definition library_answer (m : gmap string string) (c : call) : Z + option string :=
  match c with Get k => inr (m !! k) | _ => inl 0%Z end.
(** The table of the handle is the map. *)
Definition represents (h : nvram) (m : gmap string string) : Prop :=
  table_ok signed_char h ∧ nv_mem h = [] ∧ ∀ n, var signed_char h n = m !! n.

Lemma library_law h m c : represents h m → library_takes c →
  ∃ h', library_call c h = Done (library_answer m c, h') ∧ represents h' (call_effect c m).
Proof.
  intros (To & Mm & V) Tc. destruct c as [k|k v|k]; cbn [library_call library_answer call_effect library_takes] in *.
  - exists h. rewrite (mthen_done _ _ _ _ _ (nvram_get_run signed_char k h)), V. split; [done|]. by split_and!.
  - destruct (nvram_set_run signed_char k v h To Mm Tc) as (h' & E & To' & _ & M' & V').
    exists h'. rewrite (mthen_done _ _ _ _ _ E). split; [done|]. unfold represents. split_and!; [done|congruence|].
    intros n. rewrite V', V.
    case_decide as D; [subst n; by rewrite lookup_insert_eq|by rewrite lookup_insert_ne].
  - destruct (nvram_unset_run signed_char k h To) as (h' & E & To' & _ & M' & V').
    exists h'. rewrite (mthen_done _ _ _ _ _ E). split; [done|]. unfold represents. split_and!; [done|congruence|].
    intros n. rewrite V', V.
    case_decide as D; [subst n; by rewrite lookup_delete_eq|by rewrite lookup_delete_ne].
Qed.

#[export, refine] Instance library_store : VarStore nvram (Z + option string) := {|
  vs_call := library_call;
  vs_takes := library_takes;
  vs_cost _ := 0;
  vs_answer := library_answer;
  vs_holds h m _ := represents h m;
|}.
Proof. intros h m _ c Hh Tc _. by apply library_law. Defined.
End Library.

(** ** The command *)

Section Command.
Context (signed_char : bool) (map_addr : Z) (mappable : string → bool) (i0 esz0 : Z) (percent : Z → string).
#[local] Abbreviation main := (main signed_char map_addr mappable i0 esz0 percent).
#[local] Abbreviation ready := (ready map_addr mappable i0 esz0).

Definition arguments (c : call) : list string :=
  match c with
  | Get k => ["nvram"; "get"; k]
  | Put k v => ["nvram"; "set"; k +:+ "=" +:+ v]
  | Unset k => ["nvram"; "unset"; k]
  end%string.
(** One process: its exit status and what it prints; the variable
    [nvram_erase_size] ends with it. *)
Definition process (c : call) : W (Z * list string) :=
  let! before := mgets w_stdout in
  let! status := main (arguments c) in
  let! after := mgets w_stdout in
  do! mmodify (w_set_erase 0) in
  mreturn (status, drop (length before) after).

Definition process_takes (c : call) : Prop :=
  match c with Get k => no_command k | Put k v => pair_ok (k, v) | Unset k => ∀ w cr cn, sdram w cr cn k = None end.
Definition process_cost (c : call) : nat := match c with Put k v => size_of [(k, v)] | _ => 0 end.
Definition process_answer (m : gmap string string) (c : call) : Z * list string :=
  match c with
  | Get k => (get_status (m !! k), match m !! k with Some v => [ln v] | None => [] end)
  | _ => (0%Z, [])
  end.
(** The staging file holds the variables, with [r] bytes left. *)
Definition staged (w : world) (m : gmap string string) (r : nat) : Prop :=
  ∃ u, ready w (λ n, m !! n) u ∧ HEADER + u + 2 + r ≤ SP.

Lemma process_run c w st w' : main (arguments c) w = Done (st, w') →
  process c w = Done ((st, drop (length (w_stdout w)) (w_stdout w')), w_set_erase 0 w').
Proof.
  intros E. unfold process. rewrite (mthen_done (mgets _) _ w _ w eq_refl), (mthen_done _ _ _ _ _ E). done.
Qed.

Lemma process_law w m r c : staged w m r → process_takes c → process_cost c ≤ r →
  ∃ w', process c w = Done (process_answer m c, w') ∧ staged w' (call_effect c m) (r - process_cost c).
Proof.
  intros (u & Rd & Fit) Tc Cc. destruct c as [k|k v|k]; cbn [process_takes process_cost process_answer call_effect] in *.
  - destruct (get_command signed_char map_addr mappable i0 esz0 percent "nvram" k w _ u Rd Tc) as (w' & E & Ef & Mw & So).
    exists (w_set_erase 0 w'). rewrite (process_run (Get k) _ _ _ E), So, drop_app_length. split; [done|].
    exists u. split; [|lia]. by eapply ready_files.
  - destruct (set_command signed_char map_addr mappable i0 esz0 percent "nvram" k v w _ u Rd Tc) as (w' & u' & E & Rd' & Hu & So); [lia|].
    exists (w_set_erase 0 w'). rewrite (process_run (Put k v) _ _ _ E), So, drop_all. split; [done|].
    exists u'. split; [|lia]. eapply ready_ext; [|exact Rd']. intros n. simpl.
    case_decide as D; [subst n; by rewrite lookup_insert_eq|by rewrite lookup_insert_ne].
  - destruct (unset_command signed_char map_addr mappable i0 esz0 percent "nvram" k w _ u Rd) as (w' & u' & E & Rd' & Hu & So); [lia|done|].
    exists (w_set_erase 0 w'). rewrite (process_run (Unset k) _ _ _ E), So, drop_all. split; [done|].
    exists u'. split; [|lia]. eapply ready_ext; [|exact Rd']. intros n. simpl.
    case_decide as D; [subst n; by rewrite lookup_delete_eq|by rewrite lookup_delete_ne].
Qed.

#[export, refine] Instance command_store : VarStore world (Z * list string) := {|
  vs_call := process;
  vs_takes := process_takes;
  vs_cost := process_cost;
  vs_answer := process_answer;
  vs_holds := staged;
|}.
Proof. exact process_law. Defined.
End Command.
