(* ===== verification/NvramCheck.v ===== *)
(** * An example for the NVRAM package

    A handle with one variable, and a file system with a device and a staging
    file, on which the conditions of the theorems hold. *)
From S2P Require Import Prelude CLib CStr NvCrc Nvram NvramCli NvramFacts NvramImage NvramCommit NvramRun NvramCmd NvramStore.
From Stdlib Require Import Ascii.
Open Scope pr30_scope.
#[local] Opaque SP.

(** ** A handle *)

Definition ex_empty : nvram := Nvram ∅ [] (repeat NUL SP) 0x40000000 NVRAM_SPACE [].
Definition ex_tuple : nvram_tuple := Tuple "lan_ip" (Some "10.0.0.1"%string).
Definition ex_handle : nvram := nv_set_hash {[ bucket_of false "lan_ip" := [ex_tuple] ]} ex_empty.

Lemma ex_empty_represents : represents false ex_empty ∅.
Proof.
  split_and!; [|done|intros n; by rewrite lookup_empty]. split.
  - intros i t Ht. by apply elem_of_nil in Ht.
  - intros i. apply NoDup_nil. done.
  - intros i t Ht. by apply elem_of_nil in Ht.
Qed.
Lemma ex_handle_table : table_ok false ex_handle ∧
  ∀ n, var false ex_handle n = if decide (n = "lan_ip"%string) then Some "10.0.0.1"%string else None.
Proof.
  destruct (table_add false ex_empty (bucket_of false "lan_ip") ex_tuple ex_handle) as [To V].
  - apply ex_empty_represents.
  - reflexivity.
  - by eexists.
  - intros t Ht. by apply elem_of_nil in Ht.
  - intros j. unfold chain_at, ex_handle. cbn [nv_hash nv_set_hash]. case_decide as D.
    + subst j. by rewrite lookup_singleton_eq.
    + by rewrite lookup_singleton_ne.
  - split; [done|]. intros n. rewrite V. done.
Qed.
Lemma ex_handle_pairs x : x ∈ all_pairs ex_handle → x = ("lan_ip"%string, "10.0.0.1"%string).
Proof.
  destruct x as [n v], ex_handle_table as [To V]. intros H. apply (pairs_var false) in H; [|done].
  rewrite V in H. case_decide; [|done]. congruence.
Qed.
Lemma ex_handle_size : size_of (all_pairs ex_handle) ≤ 16.
Proof.
  change 16 with (size_of [("lan_ip"%string, "10.0.0.1"%string)]). apply size_submseteq, NoDup_submseteq.
  - eapply NoDup_fmap_1. apply (all_pairs_nodup false), ex_handle_table.
  - intros x ->%ex_handle_pairs. by left.
Qed.
Lemma ex_mmap_length : length (nv_mmap ex_handle) = SP.
Proof. apply repeat_length. Qed.
Lemma ex_committable : committable false ex_handle.
Proof.
  pose proof SP_eq. split.
  - apply ex_handle_table.
  - apply Forall_forall. intros x ->%ex_handle_pairs. split_and!; [reflexivity..|]. cbn [snd]. unfold NVRAM_SPACE. simpl. lia.
  - reflexivity.
  - rewrite ex_mmap_length, SP_eq. reflexivity.
  - reflexivity.
  - split; reflexivity.
  - split; [discriminate|]. cbn [nv_base nv_erase ex_handle nv_set_hash ex_empty]. unfold NVRAM_SPACE. lia.
Qed.
Lemma ex_fits : HEADER + size_of (all_pairs ex_handle) + 2 ≤ SP.
Proof. pose proof ex_handle_size. rewrite SP_eq. unfold HEADER. lia. Qed.

(** ** Files *)

Definition ex_pairs : list pair :=
  [("sdram_init", "0x0419"); ("sdram_config", "0x0000"); ("sdram_refresh", "0x8040"); ("sdram_ncdl", "0x00000000");
   ("lan_ip", "10.0.0.1")]%string.
Definition ex_vars : gmap string string := list_to_map ex_pairs.
Definition ex_data : list ascii :=
  header_bytes 0x80 0x4190100 0x80400000 0 ++ entries ex_pairs ++ NUL :: repeat NUL (SP - HEADER - size_of ex_pairs - 1).
Definition ex_files (data : list ascii) : gmap string node :=
  <[NVRAM_STAGING := Node S_IFREG data]>
  (<["/dev/mtdblock0"%string := Node S_IFBLK []]>
  (<["/proc/mtd"%string := Node S_IFREG (la (ln "dev:    size   erasesize  name" +:+ ln "mtd0: 00008000 00008000 nvram"))]> ∅)).
Definition ex_world (data : list ascii) : world := World (ex_files data) 0 [] [] [].

Lemma ex_size : size_of ex_pairs = 97.
Proof. reflexivity. Qed.
Lemma ex_data_length : length ex_data = SP.
Proof.
  unfold ex_data. rewrite !length_app. cbn [length]. rewrite repeat_length. fold (size_of ex_pairs). rewrite ex_size.
  change (length (header_bytes 0x80 0x4190100 0x80400000 0)) with HEADER. rewrite SP_eq. unfold HEADER. lia.
Qed.
Lemma ex_pairs_ok : Forall pair_ok ex_pairs.
Proof. repeat constructor; cbn [snd]; unfold NVRAM_SPACE; simpl; lia. Qed.
Lemma ex_stored : stored ex_data ex_pairs 0x4190100 0x80400000 0.
Proof.
  split.
  - exists [], (repeat NUL (SP - HEADER - size_of ex_pairs - 1)), 0x80%Z. split; [reflexivity|]. by rewrite ex_data_length.
  - apply ex_pairs_ok.
  - split_and!; lia.
  - rewrite ex_data_length, SP_eq. change PAGE with (Z.to_nat 4096). by rewrite <-Z2Nat.inj_mod.
  - rewrite ex_data_length, SP_eq. lia.
Qed.
Lemma ex_lookup n : image_var ex_pairs 0x4190100 0x80400000 0 n = ex_vars !! n ∧ ex_vars !! n = lookup_last ex_pairs n.
Proof.
  unfold image_var, sdram, ex_vars, ex_pairs. rewrite !list_to_map_cons, !lookup_insert. cbn [lookup_last].
  change (list_to_map [] !! n) with (None (A := string)).
  split; repeat case_decide; congruence.
Qed.
Lemma ex_find data : nvram_find_mtd 0 0 (ex_world data) = Done (Some "/dev/mtdblock0"%string, w_set_erase NVRAM_SPACE (ex_world data)).
Proof.
  assert (E : nvram_find_mtd 0 0 (ex_world []) = Done (Some "/dev/mtdblock0"%string, w_set_erase NVRAM_SPACE (ex_world []))) by (vm_compute; reflexivity).
  rewrite (find_mtd_same 0 0 (ex_world []) (ex_world data) _ _ ltac:(apply (staging_devices _ _ S_IFREG [] data); reflexivity) E). reflexivity.
Qed.
Definition ex_map (file : string) : bool := true.
Lemma ex_ready : ready 0x40000000 ex_map 0 0 (ex_world ex_data) (λ n, ex_vars !! n) 97.
Proof.
  split; [reflexivity|reflexivity|reflexivity|split; [reflexivity|discriminate]| |].
  - exists "/dev/mtdblock0"%string, S_IFREG, ex_data, ex_pairs, 0x4190100%Z, 0x80400000%Z, 0%Z.
    split_and!; [|reflexivity|discriminate| |exact ex_stored|intros n; apply ex_lookup].
    + rewrite ex_find, ex_data_length, SP_eq. reflexivity.
    + rewrite ex_data_length, SP_eq. lia.
  - exists ex_pairs. split_and!; [intros n; apply ex_lookup|apply ex_pairs_ok|by rewrite ex_size].
Qed.
Lemma ex_staged : staged 0x40000000 ex_map 0 0 (ex_world ex_data) ex_vars 1000.
Proof. exists 97. split; [exact ex_ready|]. rewrite SP_eq. unfold HEADER. lia. Qed.
