(* ===== verification/NvramSpec.v ===== *)
(** * Properties of the NVRAM package

    The library and the command as stores of variables, the image that a
    commit writes, its checksum, and where the code goes wrong. *)
From S2P Require Import Prelude CLib CStr NvCrc Nvram NvramCli NvramFacts NvramImage NvramCommit NvramRun.
From S2P Require Import NvramTotal NvramCmd NvramStore NvramCheck.
From Stdlib Require Import Ascii.
Open Scope pr30_scope.
#[local] Opaque SP crc8.

(** ** Stores of variables *)



(** ** The image *)

(** C9: Round trip through the image: when all variables fit, [nvram_commit]
    returns 0 and keeps every variable, with no other but the four [sdram_]
    ones that the header stands for; and any handle on the same image that
    builds its table anew has exactly the same variables. *)
Theorem nvram_commit_roundtrip signed_char h :
  committable signed_char h → HEADER + size_of (all_pairs h) + 2 ≤ SP →
  ∃ h', nvram_commit signed_char h = Done (0%Z, h') ∧
    (∀ n v, var signed_char h n = Some v → var signed_char h' n = Some v) ∧
    (∀ n, var signed_char h n = None → is_Some (var signed_char h' n) →
      n ∈ ["sdram_init"; "sdram_config"; "sdram_refresh"; "sdram_ncdl"]%string) ∧
    ∀ h2, nv_mmap h2 = nv_mmap h' → nv_erase h2 = nv_erase h' → nv_mem h2 = [] →
      ∃ h3, _nvram_rehash signed_char h2 = Done (0%Z, h3) ∧ ∀ n, var signed_char h3 n = var signed_char h' n.
Proof.
  intros Cm Fit. destruct (commit_run signed_char h Cm) as (pre & l & tail & len & w & cr & cn & h' & C & E & Em & To & M & Eb & Ee & V).
  pose proof (cd_all _ _ _ _ _ _ _ _ _ C Fit) as ->. exists h'. split; [done|].
  assert (L : ∀ n, lookup_last (all_pairs h) n = var signed_char h n) by (intros n; apply lookup_all_pairs, Cm).
  split_and!.
  - intros n v Hv. by rewrite V, L, Hv.
  - intros n Hv. rewrite V, L, Hv. unfold sdram. rewrite !elem_of_cons. repeat (case_decide; [tauto|]). by intros [v ?].
  - intros h2 Em2 Ee2 M2. destruct (committed_ranges _ _ _ _ _ _ _ _ _ C) as (Rw & Rr & Rn).
    destruct (rehash_image signed_char h2 pre (all_pairs h) tail len w cr cn) as (h3 & E3 & _ & _ & _ & V3);
      [by rewrite Em2|by rewrite Ee2, Ee, (cd_start _ _ _ _ _ _ _ _ _ C)|done|apply Cm|done..|].
    exists h3. split; [done|]. intros n. by rewrite V3, V.
Qed.
Lemma nvram_commit_roundtrip_witness :
  ∃ h', nvram_commit false ex_handle = Done (0%Z, h') ∧ var false h' "lan_ip" = Some "10.0.0.1"%string.
Proof.
  destruct (nvram_commit_roundtrip false ex_handle ex_committable ex_fits) as (h' & E & K & _).
  exists h'. split; [exact E|]. apply K. exact (proj2 ex_handle_table "lan_ip"%string).
Defined.


(** ** The checksum *)

(** C35: The checksum by table is the division by the polynomial bit by bit:
    [hndcrc8] over bytes, from any initial value, returns what the definition
    returns, and reads no byte behind the given number. *)
Theorem hndcrc8_bitwise data rest c :
  is_byte c → Forall is_byte data → hndcrc8 (data ++ rest) (length data) c = Some (fold_left crc8_byte data c).
Proof. apply hndcrc8_run. Qed.
Lemma hndcrc8_bitwise_witness : hndcrc8 [1; 2; 3; 99]%Z 3 255 = Some (fold_left crc8_byte [1; 2; 3] 255)%Z.
Proof. apply (hndcrc8_bitwise [1; 2; 3]%Z [99]%Z 255); repeat constructor; unfold is_byte; lia. Defined.

(** A change of one byte is found: data of the same length that differ
    in one byte have different checksums. *)
Theorem hndcrc8_detects d1 b b' d2 c :
  is_byte c → Forall is_byte (d1 ++ b :: d2) → is_byte b' → b ≠ b' →
  ∃ x y, hndcrc8 (d1 ++ b :: d2) (length (d1 ++ b :: d2)) c = Some x ∧
    hndcrc8 (d1 ++ b' :: d2) (length (d1 ++ b' :: d2)) c = Some y ∧ x ≠ y.
Proof.
  intros Bc Bd Bb N. exists (crc8 (d1 ++ b :: d2) c), (crc8 (d1 ++ b' :: d2) c).
  rewrite <-(app_nil_r (d1 ++ b :: d2)) at 1. rewrite <-(app_nil_r (d1 ++ b' :: d2)) at 1.
  split_and!; [by apply hndcrc8_run|apply hndcrc8_run; [done|]|by apply crc8_detects].
  apply Forall_app in Bd as [B1 [_ B2]%Forall_cons]. apply Forall_app. split; [done|]. by apply Forall_cons.
Qed.
Lemma hndcrc8_detects_witness : ∃ x y, hndcrc8 [7; 8; 9]%Z 3 255 = Some x ∧ hndcrc8 [7; 0; 9]%Z 3 255 = Some y ∧ x ≠ y.
Proof. apply (hndcrc8_detects [7]%Z 8 0 [9]%Z 255); repeat constructor; unfold is_byte; lia. Defined.

(** The stored checksum is right: after [nvram_commit], [nvram info] on
    the handle returns 0, and the third line it prints gives the same number
    for the checksum of the header and for the calculated one. *)
Theorem nvram_info_verifies signed_char percent h :
  committable signed_char h →
  ∃ h', nvram_commit signed_char h = Done (0%Z, h') ∧ ∀ f w, w_mem w = [] →
    ∃ w' l1 l2 rest crc, do_info percent (Handle h' f) w = Done ((0%Z, Handle h' f), w') ∧
      w_stdout w' = w_stdout w ++ [l1; l2] ++ crc_line crc crc :: rest.
Proof. apply commit_info. Qed.
Lemma nvram_info_verifies_witness : ∃ h', nvram_commit false ex_handle = Done (0%Z, h') ∧ ∀ f w, w_mem w = [] →
  ∃ w' l1 l2 rest crc, do_info (λ _, "0"%string) (Handle h' f) w = Done ((0%Z, Handle h' f), w') ∧
    w_stdout w' = w_stdout w ++ [l1; l2] ++ crc_line crc crc :: rest.
Proof. apply (nvram_info_verifies false (λ _, "0"%string) ex_handle). exact ex_committable. Defined.

(** ** The command *)


(** C24: The command terminates: for every command line, every file system,
    every image and every course of the memory allocation the run of [main]
    comes to an end, with a result or with an access that is undefined. *)
Theorem nvram_main_terminates signed_char map_addr mappable i0 esz0 percent argv w :
  main signed_char map_addr mappable i0 esz0 percent argv w ≠ NoFuel.
Proof.
  pose proof (main_ends signed_char map_addr mappable i0 esz0 percent argv w) as H. intros E. by rewrite E in H.
Qed.

(** C40: Without an operand the command uses a null pointer: [nvram set] and
    [nvram unset] do so at once, and [nvram get] does when the image can be
    opened. *)
Theorem nvram_operand_missing signed_char map_addr mappable i0 esz0 percent p w :
  main signed_char map_addr mappable i0 esz0 percent [p; "set"%string] w = Crash ∧
  main signed_char map_addr mappable i0 esz0 percent [p; "unset"%string] w = Crash ∧
  ((∃ h w', nvram_open_rdonly signed_char map_addr mappable i0 esz0 w = Done (Some h, w')) →
    main signed_char map_addr mappable i0 esz0 percent [p; "get"%string] w = Crash).
Proof.
  split; [reflexivity|]. split; [reflexivity|]. intros (h & w' & E). unfold main. cbv zeta.
  rewrite (mthen_done (expect_write _ _ _) _ w false w) by reflexivity. rewrite (mthen_done _ _ _ _ _ E). reflexivity.
Qed.
Lemma nvram_operand_missing_witness : main false 0x40000000 ex_map 0 0 (λ _, "0"%string) ["nvram"; "get"]%string (ex_world ex_data) = Crash.
Proof.
  apply (nvram_operand_missing false 0x40000000 ex_map 0 0 (λ _, "0"%string) "nvram" (ex_world ex_data)).
  destruct (rdonly_run false 0x40000000 ex_map 0 0 _ _ _ ex_ready) as (nv & data & e & E & _). eexists _, _. exact E.
Defined.
